(* ===== verification/_CoqProject ===== *)
-Q . S2P
Prelude.v
Effects.v
Tuning.v
Leb128.v
Codec.v
Gcm.v
Frame.v
FrameCodec.v
Ratchet.v
Cryptor.v
Queue.v
Stats.v
Rtp.v
Codecs.v
Outbound.v
RtpPayload.v
Packetize.v
Assembler.v
Reorder.v
PendingMedia.v
Receive.v
DaveGateway.v
Gateway.v
MlsPolicy.v
Identity.v
Session.v
Coordinator.v
ReadyFrames.v
Pipeline.v
OpusPacket.v
Send.v
Playout.v
Driver.v
PacketRequests.v
DriverSpec.v
DriverSamples.v
IeeeFloat.v
Pcm.v
Resampler.v
PcmEncoder.v
PcmEncoderSpec.v
OpusAudio.v
OpusAudioSpec.v
Connect.v
ConnectSpec.v
ConnectSamples.v
Handle.v
HandleSpec.v
IdentityCache.v
Endpoint.v
GatewayTypes.v
DriverTotal.v
CipherBytes.v
DaveTotal.v
Lifecycle.v
