(* ===== verification/Prelude.v ===== *)
(** * Cacophony: a verified model of a Discord voice runtime

    The repository has two Rust crates.  [dave] (src/dave/src) implements the
    DAVE end-to-end encryption of media: the transform of encoded frames, the
    key ratchets, and the MLS session that distributes the keys.  [cacophony]
    (src/cacophony/src) is the voice connection that uses it: the gateway
    websocket, RTP over UDP, reordering and reassembly of received media, sending
    and playout, PCM and Opus.  This library models both, component by component,
    in the way they are written, and proves the properties that make them
    correct.  This file is the root; it also holds what all components share:
    machine integers, byte strings, the outcome monad [res] of Rust code that
    returns an error or panics, and generic lemmas.

    ** How the code is modelled

    - Bytes are [list Z] with each value below 256; lengths and offsets are
      [nat]; other integers are [Z] with the wrapping, saturating or checked
      arithmetic of the source written out at its width.
    - A fallible function returns [res E A]: [Ok], [Err] or [Panic].  Index and
      slice expressions, [unwrap]s and [expect]s are [Panic]s, and so is
      arithmetic whose overflow inputs could cause, so that a theorem "never
      [Panic]" speaks about all of them.  Where an invariant bounds the operands
      the arithmetic wraps at its width ([Cryptor.compute_wrapped_generation]),
      and the [debug_assert]s of frame.rs and opus.rs, which compare lengths
      that the lemmas on these loops give, are left out.  A loop that is not
      structural has fuel, and running out of it is a [Panic] too; the totality
      theorems show the fuel is enough.  [Cryptor.erase_loop] counts up to a
      bound that its condition checks and takes the distance as its number of
      turns, which is exact.
    - A method on [&mut self] is [st S E A] (Effects.v): it returns the state it
      leaves also when it fails.  [wp], [wlp], [wpp] (total, partial and with a condition on
      panics), [keeps] and [preserves] are the program logic.
    - Hash maps are [gmap], hash sets [gset]; where an iteration order matters it
      is a parameter ([SetIter]).  B-tree maps are read in key order.
    - Time is an argument: the reading of the clock of a call, or [clock n], the
      [n]-th reading.  Outcomes of sockets are sequences ([udp], [ws]), what
      [select!] picks is a list of events, and another task is a schedule or an
      interleaving, so that a theorem for all of them covers every run.
    - Code that is not in the repository is a type class of operations with a
      class of laws that its documentation states, and a concrete instance that
      shows the laws can hold: AES, GHASH and the transport AEADs
      ([Gcm.GcmPrimitives], [Rtp.TransportAead]), HMAC and the TLS codec
      ([Ratchet]), openmls ([Session.Mls]), P-256 and scrypt ([Identity]), serde
      ([Gateway.GatewayJson], [Connect.HandshakeJson]), rubato, opus-rs and the
      ogg crate ([Resampler], [PcmEncoder], [OpusAudio]).  No law states that a
      cipher is secure; what is proved is how the code uses it.

    ** The dave crate

    - Leb128.v (leb128.rs), Codec.v (codec.rs, Annex B scanning), Gcm.v (gcm.rs).
    - Frame.v and FrameCodec.v (frame.rs): which ranges of a frame stay in clear,
      splitting and reconstructing, the supplemental data, encrypting, parsing
      and decrypting, per codec.  [frame_roundtrip]: decrypting gives back the
      frame; [validated_no_secret_start_code]: a validated H.26x frame has no
      start code made of ciphertext.
    - Ratchet.v (hash ratchet) and Cryptor.v (encryptor, cryptor managers,
      decryptor, passthrough).  [send_all_nonce_unique]: no (key, nonce) pair is
      used twice; [replay_protection] and [replay_window_exact]: a nonce is
      accepted once, and the window of missing nonces refines the set of those
      not yet used; [decrypt_gate]: what makes a frame pass; [lossy_delivery]:
      of the frames a sender encrypts, across key generations, those that arrive
      in their order are decrypted, whichever are lost in between.
    - MlsPolicy.v (the [validate_*] functions), Identity.v (identity.rs),
      Session.v (session.rs).  [session_state_coherent] is the invariant of all
      operations; [epoch_installs_keys], and [session_delivery]: members of one
      epoch decrypt each other's frames that arrive in their order.

    ** Receiving (cacophony)

    - Rtp.v (headers, transport encryption), Codecs.v (payload type tables),
      RtpPayload.v (payload formats), Queue.v, Stats.v, Tuning.v.
    - Assembler.v ([RtpFrameAssembler]): [frames_delivered],
      [assembler_frames_contiguous].
    - Reorder.v ([ReceiveSsrcState]), PendingMedia.v, Receive.v ([ReceiveState]):
      [handed_over_in_order] and [reordered_packets_recovered], for every frame
      assembler that has the laws of [FrameAssemblerLaws], wrapped in a log of the
      packets it is given ([Reorder.Logged]); [pending_media_refines].
    - ReadyFrames.v and Pipeline.v (connection/receive.rs): the way of a datagram
      to the user.  [only_authentic_delivered]: when DAVE is required, a delivered
      frame is what a call of the decryptor during the run let through for the
      frame of its sender; [pipeline_total]: no datagram and no event makes it
      panic; [decode_exact], [retry_terminates].  [Pipeline.History] is ghost
      state: the frames the receive path handed over and the calls of the
      decryptor, which no operation reads.

    ** Gateway and connection (cacophony)

    - DaveGateway.v ([DaveInternalState]), Gateway.v (gateway.rs):
      [no_plaintext_window], [connection_state_coherent].  GatewayTypes.v
      ([DiscordId], [SpeakingFlags]): [discord_id_roundtrip].
    - Coordinator.v (dave.rs): the pump that drives a session from the gateway
      state; [key_changes_when_executed], [pump_idempotent].
    - IdentityCache.v ([DaveIdentityKey] of dave.rs): the ephemeral keys that
      connections of a user share through weak pointers; [shared_identity].
    - Endpoint.v ([VoiceEndpoint::connect_websocket]): host and port, and the
      staggered race of the addresses; [websocket_race].
    - Connect.v, ConnectSpec.v, ConnectSamples.v: configuration and
      [connect_validated_with_observer_and_raw]; [connect_establishes].
    - Driver.v, PacketRequests.v, DriverSpec.v, DriverSamples.v
      (connection/driver.rs): every branch of [run_loop], commands, heartbeats,
      waits and closing; [replies_once], which counts the requests for packets
      too (PacketRequests.v).
    - Handle.v, HandleSpec.v (connection/handle.rs, the handle of playout.rs): the
      methods of the user as programs over shared state, in all interleavings
      with the driver and the join task; [calls_return], [calls_typed],
      [closed_refuses].
    - CipherBytes.v, DriverTotal.v, DaveTotal.v and Lifecycle.v put the whole
      connection together.  DriverTotal.v proves that every method of the driver
      is total against the class [DaveDriverLaws]; DaveTotal.v, with
      CipherBytes.v for the bytes a cipher gives, that the coordinator over a
      session has these laws.  Lifecycle.v also has the entry point
      [connect_config].  [connection_lifecycle]: a connection from a valid
      request whose handshake succeeds runs to its end.

    ** Sending and audio (cacophony)

    - Packetize.v, Outbound.v (media.rs), Send.v (connection/send.rs):
      [outbound_stream], [no_clear_media]: when DAVE is required, every datagram
      carries part of the encrypted frame; [sent_frame_received]: the receiving
      side gets back the frame that was sent.
    - Playout.v (connection/playout.rs): [playout_paced].
    - OpusPacket.v, PcmEncoder.v, PcmEncoderSpec.v, OpusAudio.v, OpusAudioSpec.v
      (opus.rs): packets, encoders, the decoder and the Ogg archive;
      [validate_exact], [playback_encodes_source], [archive_roundtrip],
      [decoded_frame_stereo].
    - IeeeFloat.v, Pcm.v, Resampler.v (pcm.rs): [resampling_in_pieces].

    Some theorems state behaviour the code does not mean to have, for example
    [streams_share_nonces], [buffered_packet_given_up],
    [fragmented_unit_drops_earlier] and [waiting_playout_drains].

    ** How the components meet

    Pipeline, Send and Driver use DAVE through the classes [Pipeline.DaveMedia],
    [Send.DaveSend] and [Driver.DavePump]; [coordinator_media],
    [coordinator_pump] and their laws show that the coordinator over a session
    provides them.  Reorder uses an assembler through [FrameAssembler] and its laws; the
    coordinator uses a session through [DaveSession].  [DriverSpec.fresh] and
    [Gateway.conn_ok], from which the theorems on the driver and the gateway
    state start, are what [connect_establishes] gives, and
    [connection_lifecycle] chains them with no class of the program left open.

    ** Bounds and fuel

    A [usize] has 64 bits.  Loops over bytes have the length of the input as
    fuel, loops over queues their size, the resampler the number of chunks of the
    source and its delay; in each case a theorem or lemma shows that the loop
    ends within it.  [retry_fuel] of the pipeline is a parameter, because the
    retry loop of the source runs until media expires ([retry_terminates]).

    [connection_lifecycle] assumes that the clock stays below 2^62 ns (146
    years) and that twenty times the number of events is below the 2^56 frames
    of a sender: a turn of the driver sends at most two frames besides those
    that wait, and each takes up to ten attempts, which use a nonce each.

    ** Not modelled

    DNS, TCP, TLS and UDP sockets and the parsers of URLs and IP addresses:
    network input and output, of which the outcomes are parameters ([Endpoint],
    [Connect], [Send]).  JSON text:
    serde is a parameter, events arrive decoded and commands leave as values.
    The callbacks of the observer, except for the events that reordering and
    decoding report.  Texts of errors, debug output, zeroizing of secrets and
    buffers kept for their allocation: no effect on values.  Cancelling a call of
    the user in the middle: the driver's side of it, a dropped receiver, is
    [gone] in Driver.v. *)

From stdpp Require Export base list gmap sets.
From Stdlib Require Export ZArith Lia.

#[global] Open Scope Z_scope.

(** ** Outcomes

    [res E A] is the result of running a piece of Rust code: a value, an error
    of type [E] (the [Err] of a [Result]), or a panic (an index or slice out of
    bounds, [unwrap] of [None]).  Code that cannot return an error is written
    polymorphically in [E]. *)
Inductive res (E A : Type) : Type :=
| Ok (a : A)
| Err (e : E)
| Panic.
Arguments Ok {E A} a.
Arguments Err {E A} e.
Arguments Panic {E A}.

#[global] Instance res_mret {E} : MRet (res E) := fun A a => Ok a.
#[global] Instance res_mbind {E} : MBind (res E) :=
  fun A B f m => match m with Ok a => f a | Err e => Err e | Panic => Panic end.

Definition ok_or {E A} (e : E) (o : option A) : res E A :=
  match o with Some a => Ok a | None => Err e end.

(** [unwrap]/[expect] and indexing: [None] is a panic. *)
Definition unwrap {E A} (o : option A) : res E A :=
  match o with Some a => Ok a | None => Panic end.

(** [Option::is_some] *)
Definition is_some {A} (o : option A) : bool := match o with Some _ => true | None => false end.

Definition map_err {E F A} (f : E -> F) (m : res E A) : res F A :=
  match m with Ok a => Ok a | Err e => Err (f e) | Panic => Panic end.

(** [&l[a..b]]: panics unless [a <= b <= l.len()]. *)
Definition slice {E A} (l : list A) (a b : nat) : res E (list A) :=
  if ((a <=? b) && (b <=? length l))%nat then Ok (take (b - a) (drop a l)) else Panic.

(** [l[i]] *)
Definition index {E A} (l : list A) (i : nat) : res E A := unwrap (l !! i).

(** ** Machine integers, kept in [Z] with the wrap-around written out *)
Definition u8_max : Z := 255.
Definition u16_mod : Z := 2 ^ 16.
Definition u32_mod : Z := 2 ^ 32.
Definition u64_mod : Z := 2 ^ 64.

Definition wrapping_add (m a b : Z) : Z := (a + b) mod m.
Definition wrapping_sub (m a b : Z) : Z := (a - b) mod m.

(** [b & mask != 0] *)
Definition has_bits (b mask : Z) : bool := negb (Z.land b mask =? 0).

Definition is_byte (b : Z) : Prop := 0 <= b < 256.
Definition is_u16 (v : Z) : Prop := 0 <= v < u16_mod.
Definition is_u32 (v : Z) : Prop := 0 <= v < u32_mod.
Definition is_u64 (v : Z) : Prop := 0 <= v < u64_mod.

#[global] Instance is_byte_dec b : Decision (is_byte b).
Proof. unfold is_byte. apply _. Defined.

Abbreviation bytes := (list Z).
Abbreviation all_bytes l := (Forall is_byte l).

(** [v.to_be_bytes()] / [from_be_bytes] for an [n]-byte integer. *)
Fixpoint to_be (n : nat) (v : Z) : bytes :=
  match n with
  | O => []
  | S n => Z.shiftr v (8 * Z.of_nat n) mod 256 :: to_be n v
  end.

Definition from_be (l : bytes) : Z := foldl (fun acc b => acc * 256 + b) 0 l.

(** [v.to_le_bytes()] *)
Fixpoint to_le (n : nat) (v : Z) : bytes :=
  match n with
  | O => []
  | S n => v mod 256 :: to_le n (Z.shiftr v 8)
  end.

(** ** Tactics *)

(** Case analysis on the boolean comparisons of the goal and hypotheses. *)
Ltac bool_case :=
  match goal with
  | |- context [Z.ltb ?a ?b] => destruct (Z.ltb_spec a b)
  | |- context [Z.leb ?a ?b] => destruct (Z.leb_spec a b)
  | |- context [Z.eqb ?a ?b] => destruct (Z.eqb_spec a b)
  | |- context [Z.gtb ?a ?b] => rewrite (Z.gtb_ltb a b)
  | |- context [Z.geb ?a ?b] => rewrite (Z.geb_leb a b)
  | |- context [Nat.ltb ?a ?b] => destruct (Nat.ltb_spec a b)
  | |- context [Nat.leb ?a ?b] => destruct (Nat.leb_spec a b)
  | |- context [Nat.eqb ?a ?b] => destruct (Nat.eqb_spec a b)
  | H : context [Z.ltb ?a ?b] |- _ => destruct (Z.ltb_spec a b)
  | H : context [Z.leb ?a ?b] |- _ => destruct (Z.leb_spec a b)
  | H : context [Z.eqb ?a ?b] |- _ => destruct (Z.eqb_spec a b)
  | H : context [Nat.ltb ?a ?b] |- _ => destruct (Nat.ltb_spec a b)
  | H : context [Nat.leb ?a ?b] |- _ => destruct (Nat.leb_spec a b)
  | H : context [Nat.eqb ?a ?b] |- _ => destruct (Nat.eqb_spec a b)
  end.
Ltac bool_cases := repeat (bool_case; simpl in *; try lia; try done).

(** Lengths of the list operations, for [lia]. *)
Ltac lens := rewrite ?length_app, ?length_take, ?length_drop, ?length_replicate, ?length_insert in *; simpl in *.
Ltac llia := lens; lia.

(** Bitwise operations stay in a byte. *)
Lemma is_byte_land x : is_byte x <-> Z.land x 255 = x.
Proof.
  change 255 with (Z.ones 8). rewrite Z.land_ones by done. change (2 ^ 8) with 256. unfold is_byte. split; [apply Z.mod_small|].
  intros <-. by apply Z.mod_pos_bound.
Qed.

Lemma lor_byte a b : is_byte a -> is_byte b -> is_byte (Z.lor a b).
Proof. rewrite !is_byte_land. intros Ha Hb. by rewrite Z.land_lor_distr_l, Ha, Hb. Qed.

Lemma land_byte a m : is_byte m -> is_byte (Z.land a m).
Proof. rewrite !is_byte_land. intros Hm. by rewrite <- Z.land_assoc, Hm. Qed.

(** Every byte, by enumeration. *)
Lemma byte_cases (P : Z -> Prop) : Forall P (seqZ 0 256) -> forall b, is_byte b -> P b.
Proof. rewrite Forall_forall. intros HP b Hb. apply HP. apply elem_of_seqZ. unfold is_byte in Hb. lia. Qed.

(** [all_bytes] of a literal byte string. *)
Ltac solve_bytes := repeat (apply Forall_cons; split; [unfold is_byte; lia|]); apply Forall_nil; exact I.

(** The same for a byte string that has to be computed first. *)
Ltac compute_bytes := apply (bool_decide_unpack _); vm_compute; exact I.

Create HintDb cacophony.

(** ** Lemmas on outcomes *)
Lemma bind_Ok_inv {E A B} (m : res E A) (f : A -> res E B) b :
  (m ≫= f) = Ok b -> exists a, m = Ok a /\ f a = Ok b.
Proof. destruct m; naive_solver. Qed.

Lemma bind_ok {E A B} (a : A) (f : A -> res E B) : (Ok a ≫= f) = f a.
Proof. done. Qed.

(** [safe m P]: [m] does not panic, and its value, if it has one, satisfies [P]. *)
Definition safe {E A} (m : res E A) (P : A -> Prop) : Prop :=
  match m with Ok a => P a | Err _ => True | Panic => False end.

Lemma safe_bind {E A B} (m : res E A) (f : A -> res E B) P :
  safe m (fun a => safe (f a) P) -> safe (m ≫= f) P.
Proof. by destruct m. Qed.

Lemma safe_mono {E A} (m : res E A) (P Q : A -> Prop) : safe m P -> (forall a, P a -> Q a) -> safe m Q.
Proof. destruct m; simpl; auto. Qed.

Lemma safe_ok_or {E A} (e : E) (o : option A) (P : A -> Prop) : (forall a, o = Some a -> P a) -> safe (ok_or e o) P.
Proof. destruct o; simpl; auto. Qed.

Lemma safe_slice {E A} (l : list A) a b (P : list A -> Prop) :
  (a <= b)%nat -> (b <= length l)%nat -> P (take (b - a) (drop a l)) -> safe (slice (E := E) l a b) P.
Proof.
  intros Ha Hb HP. unfold slice. by rewrite (proj2 (Nat.leb_le a b)), (proj2 (Nat.leb_le b (length l))) by done.
Qed.

Lemma safe_index {E A} (l : list A) i (P : A -> Prop) :
  (i < length l)%nat -> (forall x, l !! i = Some x -> P x) -> safe (index (E := E) l i) P.
Proof. intros [x Hx]%lookup_lt_is_Some HP. unfold index. rewrite Hx. by apply HP. Qed.

Lemma slice_ok {E A} (l : list A) a b :
  (a <= b)%nat -> (b <= length l)%nat ->
  slice (E := E) l a b = Ok (take (b - a) (drop a l)).
Proof. intros. unfold slice. by rewrite (proj2 (Nat.leb_le a b)), (proj2 (Nat.leb_le b (length l))) by done. Qed.

Lemma slice_Ok_inv {E A} (l s : list A) a b :
  slice (E := E) l a b = Ok s ->
  (a <= b <= length l)%nat /\ s = take (b - a) (drop a l).
Proof. unfold slice. intros H. bool_cases. naive_solver. Qed.

Lemma slice_all {E A} (l : list A) : slice (E := E) l 0 (length l) = Ok l.
Proof. rewrite slice_ok by lia. rewrite drop_0, Nat.sub_0_r. by rewrite take_ge by lia. Qed.

Lemma slice_app {E A} (a b c : list A) i j :
  i = length a -> j = (length a + length b)%nat -> slice (E := E) (a ++ b ++ c) i j = Ok b.
Proof.
  intros -> ->. rewrite slice_ok by (rewrite ?length_app; lia).
  rewrite drop_app_length. replace (length a + length b - length a)%nat with (length b) by lia.
  by rewrite take_app_length.
Qed.

Lemma slice_app_r {E A} (a b : list A) i j :
  i = length a -> j = (length a + length b)%nat -> slice (E := E) (a ++ b) i j = Ok b.
Proof. intros Hi Hj. rewrite <- (app_nil_r (a ++ b)), <- app_assoc. by apply slice_app. Qed.

Lemma slice_app_l {E A} (a b : list A) j :
  j = length a -> slice (E := E) (a ++ b) 0 j = Ok a.
Proof. intros Hj. exact (slice_app [] a b 0 j eq_refl Hj). Qed.

Lemma index_app {E A} (a : list A) x b i : i = length a -> index (E := E) (a ++ x :: b) i = Ok x.
Proof. intros ->. unfold index. by rewrite list_lookup_middle. Qed.

(** ** Lemmas on byte strings and bits *)
Lemma lor_shiftl_add a b n :
  0 <= n -> 0 <= a < 2 ^ n -> Z.lor a (Z.shiftl b n) = a + b * 2 ^ n.
Proof.
  intros Hn Ha. rewrite Z.shiftl_mul_pow2 by done.
  assert (Z.land a (b * 2 ^ n) = 0) as Hl.
  { apply Z.bits_inj'. intros k Hk. rewrite Z.land_spec, Z.bits_0.
    destruct (Z.lt_ge_cases k n).
    { rewrite Z.mul_pow2_bits_low by lia. apply andb_false_r. }
    destruct (decide (a = 0)) as [->|]; [by rewrite Z.bits_0|].
    rewrite (Z.bits_above_log2 a k); [done|lia|].
    apply Z.lt_le_trans with n; [apply Z.log2_lt_pow2; lia | lia]. }
  by rewrite Z.add_nocarry_lxor, Z.lxor_lor.
Qed.

Lemma land_ones_mod a n : 0 <= n -> Z.land a (Z.ones n) = a mod 2 ^ n.
Proof. apply Z.land_ones. Qed.

Lemma land_7f a : Z.land a 0x7f = a mod 128.
Proof. change 0x7f with (Z.ones 7). by rewrite Z.land_ones. Qed.

Lemma shiftr_7 a : Z.shiftr a 7 = a / 128.
Proof. by rewrite Z.shiftr_div_pow2. Qed.

(** Testing one bit with a mask. *)
Lemma has_bits_pow2 b n : 0 <= n -> has_bits b (2 ^ n) = Z.testbit b n.
Proof.
  intros Hn. unfold has_bits. destruct (Z.testbit b n) eqn:Hb.
  - destruct (Z.eqb_spec (Z.land b (2 ^ n)) 0) as [H0|]; [|done].
    apply (f_equal (fun z => Z.testbit z n)) in H0. by rewrite Z.land_spec, Z.pow2_bits_true, Hb, Z.bits_0 in H0.
  - replace (Z.land b (2 ^ n)) with 0; [done|]. symmetry. apply Z.bits_inj'. intros k Hk.
    rewrite Z.land_spec, Z.bits_0. destruct (decide (k = n)) as [->|]; [by rewrite Hb|].
    by rewrite Z.pow2_bits_false, andb_false_r.
Qed.

Lemma length_to_be n v : length (to_be n v) = n.
Proof. induction n; simpl; congruence. Qed.

Lemma length_to_le n v : length (to_le n v) = n.
Proof. revert v. induction n; intros; simpl; [done|]. by rewrite IHn. Qed.

Lemma mod256_byte v : is_byte (v mod 256).
Proof. apply Z.mod_pos_bound. lia. Qed.
#[export] Hint Resolve mod256_byte : cacophony.

Lemma to_be_bytes n v : all_bytes (to_be n v).
Proof. induction n; simpl; auto with cacophony. Qed.

Lemma to_le_bytes n v : all_bytes (to_le n v).
Proof. revert v. induction n; simpl; auto with cacophony. Qed.

Lemma from_be_app l b : from_be (l ++ [b]) = from_be l * 256 + b.
Proof. unfold from_be. by rewrite foldl_app. Qed.

Lemma foldl_be_acc l acc :
  foldl (fun acc b => acc * 256 + b) acc l = acc * 256 ^ Z.of_nat (length l) + from_be l.
Proof.
  revert acc. induction l as [|b l IH]; intros acc; simpl length; [cbn; lia|].
  unfold from_be. simpl foldl. rewrite !IH. rewrite Nat2Z.inj_succ, Z.pow_succ_r by lia. lia.
Qed.

Lemma from_be_cons b l : from_be (b :: l) = b * 256 ^ Z.of_nat (length l) + from_be l.
Proof. unfold from_be at 1. simpl. rewrite foldl_be_acc. lia. Qed.

Lemma from_be_bound l : all_bytes l -> 0 <= from_be l < 256 ^ Z.of_nat (length l).
Proof.
  induction 1 as [|b l Hb Hl IH]; [cbn; lia|].
  rewrite from_be_cons. simpl length. rewrite Nat2Z.inj_succ, Z.pow_succ_r by lia.
  unfold is_byte in Hb. nia.
Qed.

Lemma from_to_be n v : from_be (to_be n v) = v mod 256 ^ Z.of_nat n.
Proof.
  induction n as [|n IH]; [by rewrite Z.mod_1_r|].
  simpl to_be. rewrite from_be_cons, length_to_be, IH.
  rewrite Z.shiftr_div_pow2 by lia.
  replace (2 ^ (8 * Z.of_nat n)) with (256 ^ Z.of_nat n) by (change 256 with (2 ^ 8); rewrite <- Z.pow_mul_r; lia).
  rewrite Nat2Z.inj_succ, Z.pow_succ_r by lia.
  rewrite (Z.mul_comm 256), Z.rem_mul_r by (try apply Z.pow_nonzero; lia). lia.
Qed.

Lemma from_to_be_small n v : 0 <= v < 256 ^ Z.of_nat n -> from_be (to_be n v) = v.
Proof. intros. rewrite from_to_be. by apply Z.mod_small. Qed.

Lemma wrapping_add_range m a b : 0 < m -> 0 <= wrapping_add m a b < m.
Proof. intros. by apply Z.mod_pos_bound. Qed.

Lemma wrapping_sub_range m a b : 0 < m -> 0 <= wrapping_sub m a b < m.
Proof. intros. by apply Z.mod_pos_bound. Qed.

Lemma drop_app_exact {A} (l1 l2 : list A) : drop (length l1) (l1 ++ l2) = l2.
Proof. apply drop_app_length. Qed.

Lemma take_app_exact {A} (l1 l2 : list A) : take (length l1) (l1 ++ l2) = l1.
Proof. apply take_app_length. Qed.

(** ** Sums over finite maps *)
Definition map_sum {A} (f : A -> nat) (m : gmap Z A) : nat := map_fold (fun _ a n => f a + n)%nat 0%nat m.

Lemma map_sum_delete {A} (f : A -> nat) m k a : m !! k = Some a -> map_sum f m = (f a + map_sum f (delete k m))%nat.
Proof. intros Hk. unfold map_sum. rewrite (map_fold_delete_L _ _ k a m); [done| |done]. intros. lia. Qed.

Lemma map_sum_insert {A} (f : A -> nat) m k a : map_sum f (<[k := a]> m) = (f a + map_sum f (delete k m))%nat.
Proof. rewrite (map_sum_delete f (<[k := a]> m) k a) by apply lookup_insert_eq. by rewrite delete_insert_eq. Qed.
