(* ===== verification/Effects.v ===== *)
(** * Stateful code that can fail

    [st S E A] is a Rust method on [&mut self]: it runs on the state [S] and
    returns a [Result] together with the state it leaves behind.  A method that
    returns an error keeps the changes made before the error.  [wp] is the
    weakest precondition of such a method, with a postcondition for the value
    and one for the error; a panic satisfies neither. *)

From S2P Require Import Prelude.

Definition st (S E A : Type) : Type := S -> res E A * S.

#[global] Instance st_mret {S E} : MRet (st S E) := fun A a s => (Ok a, s).
#[global] Instance st_mbind {S E} : MBind (st S E) :=
  fun A B f m s => match m s with (Ok a, s) => f a s | (Err e, s) => (Err e, s) | (Panic, s) => (Panic, s) end.

(** Reading the state, changing it, returning an error, and running code that
    does not touch the state. *)
Definition gets {S E A} (f : S -> A) : st S E A := fun s => (Ok (f s), s).
Definition modify {S E} (f : S -> S) : st S E () := fun s => (Ok (), f s).
Definition throw {S E A} (e : E) : st S E A := fun s => (Err e, s).
Definition lift {S E A} (m : res E A) : st S E A := fun s => (m, s).

(** [.map_err(f)?] *)
Definition try_err {S E F A} (f : E -> F) (m : st S E A) : st S F A := fun s => let '(r, s) := m s in (map_err f r, s).

(** Running the first method of a sequence. *)
Lemma st_bind_run {S E A B} (m : st S E A) (f : A -> st S E B) s a s' : m s = (Ok a, s') -> (m ≫= f) s = f a s'.
Proof. unfold mbind, st_mbind. by intros ->. Qed.

Section Wp.
Context {S : Type}.

Definition wp {E A} (m : st S E A) (Q : A -> S -> Prop) (R : E -> S -> Prop) (s : S) : Prop :=
  match m s with (Ok a, s) => Q a s | (Err e, s) => R e s | (Panic, _) => False end.

Lemma wp_bind {E A B} (m : st S E A) (f : A -> st S E B) Q R s :
  wp m (fun a => wp (f a) Q R) R s -> wp (m ≫= f) Q R s.
Proof. unfold wp, mbind, st_mbind. destruct (m s) as [[a|e|] s']; auto. Qed.

Lemma wp_mono {E A} (m : st S E A) (Q Q' : A -> S -> Prop) (R R' : E -> S -> Prop) s :
  wp m Q R s -> (forall a s, Q a s -> Q' a s) -> (forall e s, R e s -> R' e s) -> wp m Q' R' s.
Proof. unfold wp. destruct (m s) as [[a|e|] s']; auto. Qed.

Lemma wp_ret {E A} (a : A) (Q : A -> S -> Prop) (R : E -> S -> Prop) s : Q a s -> wp (mret a) Q R s.
Proof. done. Qed.

Lemma wp_gets {E A} (f : S -> A) (Q : A -> S -> Prop) (R : E -> S -> Prop) s : Q (f s) s -> wp (gets f) Q R s.
Proof. done. Qed.

Lemma wp_modify {E} (f : S -> S) (Q : () -> S -> Prop) (R : E -> S -> Prop) s : Q () (f s) -> wp (modify f) Q R s.
Proof. done. Qed.

Lemma wp_throw {E A} (e : E) (Q : A -> S -> Prop) (R : E -> S -> Prop) s : R e s -> wp (throw e) Q R s.
Proof. done. Qed.

Lemma wp_lift {E A} (m : res E A) (Q : A -> S -> Prop) (R : E -> S -> Prop) s :
  match m with Ok a => Q a s | Err e => R e s | Panic => False end -> wp (lift m) Q R s.
Proof. by destruct m. Qed.

Lemma wp_try_err {E F A} (f : E -> F) (m : st S E A) (Q : A -> S -> Prop) (R : F -> S -> Prop) s :
  wp m Q (fun e => R (f e)) s -> wp (try_err f m) Q R s.
Proof. unfold wp, try_err. by destruct (m s) as [[a|e|] s']. Qed.

(** From a triple to what a run of the method shows. *)
Lemma wp_run {E A} (m : st S E A) (Q : A -> S -> Prop) (R : E -> S -> Prop) s r s' :
  wp m Q R s -> m s = (r, s') -> match r with Ok a => Q a s' | Err e => R e s' | Panic => False end.
Proof. unfold wp. intros H Hm. rewrite Hm in H. by destruct r. Qed.
End Wp.

(** ** The liberal variant, which says nothing about a run that panics *)
Section Wlp.
Context {S : Type}.

Definition wlp {E A} (m : st S E A) (Q : A -> S -> Prop) (R : E -> S -> Prop) (s : S) : Prop :=
  match m s with (Ok a, s) => Q a s | (Err e, s) => R e s | (Panic, _) => True end.

Lemma wlp_bind {E A B} (m : st S E A) (f : A -> st S E B) Q R s : wlp m (fun a => wlp (f a) Q R) R s -> wlp (m ≫= f) Q R s.
Proof. unfold wlp, mbind, st_mbind. destruct (m s) as [[a|e|] s']; auto. Qed.

Lemma wlp_mono {E A} (m : st S E A) (Q Q' : A -> S -> Prop) (R R' : E -> S -> Prop) s :
  wlp m Q R s -> (forall a s, Q a s -> Q' a s) -> (forall e s, R e s -> R' e s) -> wlp m Q' R' s.
Proof. unfold wlp. destruct (m s) as [[a|e|] s']; auto. Qed.

(** Code that is run with its error as a value. *)
Lemma wlp_seq {E A B} (m : st S E A) (f : A -> st S E B) (Q1 : A -> S -> Prop) Q R s :
  wlp m Q1 R s -> (forall a s, Q1 a s -> wlp (f a) Q R s) -> wlp (m ≫= f) Q R s.
Proof. intros Hm Hf. apply wlp_bind. eapply wlp_mono; [exact Hm|exact Hf|auto]. Qed.

Lemma wlp_any {E A} (m : st S E A) s : wlp m (fun _ _ => True) (fun _ _ => True) s.
Proof. unfold wlp. by destruct (m s) as [[a|e|] s']. Qed.

Lemma wlp_run {E A} (m : st S E A) (Q : A -> S -> Prop) (R : E -> S -> Prop) s r s' :
  wlp m Q R s -> m s = (r, s') -> match r with Ok a => Q a s' | Err e => R e s' | Panic => True end.
Proof. unfold wlp. intros H Hm. rewrite Hm in H. by destruct r. Qed.
End Wlp.

(** ** Triples that also say what a run that panics leaves *)
Section Wpp.
Context {S : Type} (P : S -> Prop).

Definition wpp {E A} (m : st S E A) (Q : A -> S -> Prop) (R : E -> S -> Prop) (s : S) : Prop :=
  match m s with (Ok a, s) => Q a s | (Err e, s) => R e s | (Panic, s) => P s end.

Lemma wpp_bind {E A B} (m : st S E A) (f : A -> st S E B) (Q1 : A -> S -> Prop) Q R s :
  wpp m Q1 R s -> (forall a s, Q1 a s -> wpp (f a) Q R s) -> wpp (m ≫= f) Q R s.
Proof. unfold wpp, mbind, st_mbind. intros Hm Hf. destruct (m s) as [[a|e|] s']; [by apply Hf|done|done]. Qed.

Lemma wpp_mono {E A} (m : st S E A) (Q Q' : A -> S -> Prop) (R R' : E -> S -> Prop) s :
  wpp m Q R s -> (forall a s, Q a s -> Q' a s) -> (forall e s, R e s -> R' e s) -> wpp m Q' R' s.
Proof. unfold wpp. destruct (m s) as [[a|e|] s']; auto. Qed.

Lemma wp_wpp {E A} (m : st S E A) Q R s : wp m Q R s -> wpp m Q R s.
Proof. unfold wpp, wp. by destruct (m s) as [[a|e|] s']. Qed.
End Wpp.

(** One step of symbolic execution; stops at a call it knows nothing about. *)
Ltac wp_step :=
  match goal with
  | |- wp (mbind _ _) _ _ _ => apply wp_bind
  | |- wp (mret _) _ _ _ => apply wp_ret
  | |- wp (gets _) _ _ _ => apply wp_gets
  | |- wp (modify _) _ _ _ => apply wp_modify
  | |- wp (throw _) _ _ _ => apply wp_throw
  | |- wp (lift _) _ _ _ => apply wp_lift
  | |- wp (try_err _ _) _ _ _ => apply wp_try_err
  end.
Ltac wp_steps := repeat wp_step.

(** ** Frames: what a method leaves alone, whatever it returns *)
Section Keeps.
Context {S B : Type} (f : S -> B).

Definition keeps {E A} (m : st S E A) : Prop := forall s, f (m s).2 = f s.

Lemma keeps_bind {E A C} (m : st S E A) (k : A -> st S E C) : keeps m -> (forall a, keeps (k a)) -> keeps (m ≫= k).
Proof.
  intros Hm Hk s. unfold mbind, st_mbind. specialize (Hm s). destruct (m s) as [[a|e|] s']; [|done|done]. by rewrite (Hk a s').
Qed.

Lemma keeps_ret {E A} (a : A) : keeps (E := E) (mret a).
Proof. done. Qed.

Lemma keeps_gets {E A} (g : S -> A) : keeps (E := E) (gets g).
Proof. done. Qed.

Lemma keeps_throw {E A} (e : E) : keeps (A := A) (throw e).
Proof. done. Qed.

Lemma keeps_lift {E A} (m : res E A) : keeps (lift m).
Proof. done. Qed.

Lemma keeps_modify {E} (g : S -> S) : (forall s, f (g s) = f s) -> keeps (E := E) (modify g).
Proof. done. Qed.

Lemma keeps_try_err {E F A} (g : E -> F) (m : st S E A) : keeps m -> keeps (try_err g m).
Proof. intros Hm s. unfold try_err. specialize (Hm s). by destruct (m s). Qed.
End Keeps.

(** ** Invariants of the state, whatever a method returns *)
Section Preserves.
Context {S : Type} (I : S -> Prop).

Definition preserves {E A} (m : st S E A) : Prop := forall s, I s -> I (m s).2.

Lemma preserves_bind {E A B} (m : st S E A) (k : A -> st S E B) : preserves m -> (forall a, preserves (k a)) -> preserves (m ≫= k).
Proof. intros Hm Hk s Hs. unfold mbind, st_mbind. specialize (Hm s Hs). destruct (m s) as [[a|e|] s']; [by apply Hk|done|done]. Qed.

Lemma preserves_ret {E A} (a : A) : preserves (E := E) (mret a).
Proof. by intros s. Qed.

Lemma preserves_gets {E A} (g : S -> A) : preserves (E := E) (gets g).
Proof. by intros s. Qed.

Lemma preserves_throw {E A} (e : E) : preserves (A := A) (throw e).
Proof. by intros s. Qed.

Lemma preserves_lift {E A} (m : res E A) : preserves (lift m).
Proof. by intros s. Qed.

Lemma preserves_modify {E} (g : S -> S) : (forall s, I s -> I (g s)) -> preserves (E := E) (modify g).
Proof. by intros Hg s Hs; apply Hg. Qed.

Lemma preserves_try_err {E F A} (g : E -> F) (m : st S E A) : preserves m -> preserves (try_err g m).
Proof. intros Hm s Hs. unfold try_err. specialize (Hm s Hs). by destruct (m s). Qed.

Lemma keeps_preserves {E A B} (f : S -> B) (m : st S E A) : (forall s s', f s' = f s -> I s -> I s') -> keeps f m -> preserves m.
Proof. intros Hf Hm s. apply Hf, Hm. Qed.
End Preserves.

Create HintDb keeps.
#[export] Hint Resolve keeps_bind keeps_ret keeps_gets keeps_throw keeps_lift keeps_modify keeps_try_err : keeps.

(** Closes [keeps] goals over the control flow of a method; methods it calls
    are found in the hint database. *)
Ltac keeps_auto :=
  repeat first
    [ progress intros | eassumption
    | apply keeps_bind | apply keeps_ret | apply keeps_gets | apply keeps_throw | apply keeps_lift | apply keeps_try_err
    | solve [eauto with keeps]
    | apply keeps_modify; [idtac]; by intros []
    | match goal with |- keeps _ (match ?x with _ => _ end) => destruct x end ].
