(* ===== verification/Tuning.v ===== *)
(** * Connection tuning

    [ConnectionTuning], its validation and [ConnectionRuntimeTuning] of
    [state.rs].  Durations are in nanoseconds; [NonZeroUsize] fields are natural
    numbers, which [validate] has checked. *)

From S2P Require Import Prelude.

Module Tuning.

(** The [field] names the errors carry. *)
Inductive field :=
| DavePendingMediaTtl | RtpReorderTtl | ReceiveInterarrivalWindow | RtpReorderBufferMaxFrames
| UdpReceiveBufferBytes | ReadyFrameBufferMax | MediaQueueCapacity.

Inductive InvalidInputError :=
| ConnectionTuningDurationZero (f : field)
| ConnectionTuningZero (f : field)
| ConnectionTuningTooSmall (f : field) (min actual : Z).

Record ConnectionTuning := {
  cfg_dave_pending_media_ttl : Z;
  cfg_receive_interarrival_window : nat;
  cfg_rtp_reorder_ttl : Z;
  cfg_rtp_reorder_buffer_max_frames : nat;
  cfg_udp_receive_buffer_bytes : Z;
  cfg_ready_frame_buffer_max : nat;
  cfg_media_queue_capacity : nat }.

Definition nanos_per_ms : Z := 1000000.

Definition tuning_default : ConnectionTuning := {|
  cfg_dave_pending_media_ttl := 10 * 1000 * nanos_per_ms;
  cfg_receive_interarrival_window := 256;
  cfg_rtp_reorder_ttl := 60 * nanos_per_ms;
  cfg_rtp_reorder_buffer_max_frames := 32;
  cfg_udp_receive_buffer_bytes := u16_mod - 1;
  cfg_ready_frame_buffer_max := 4096;
  cfg_media_queue_capacity := 256 |}.

Record ConnectionRuntimeTuning := {
  dave_pending_media_ttl : Z;
  receive_interarrival_window : nat;
  rtp_reorder_ttl : Z;
  rtp_reorder_buffer_max_frames : nat;
  udp_receive_buffer_bytes : Z;
  ready_frame_buffer_max : nat;
  media_queue_capacity : nat }.

(** The loop over the two durations. *)
Fixpoint check_durations (l : list (field * Z)) : res InvalidInputError unit :=
  match l with
  | [] => Ok ()
  | (f, d) :: l => if d =? 0 then Err (ConnectionTuningDurationZero f) else check_durations l
  end.

Definition nonzero_tuning (v : nat) (f : field) : res InvalidInputError nat :=
  match v with O => Err (ConnectionTuningZero f) | S _ => Ok v end.

Definition validate (t : ConnectionTuning) : res InvalidInputError ConnectionRuntimeTuning :=
  _ ← check_durations [(DavePendingMediaTtl, cfg_dave_pending_media_ttl t); (RtpReorderTtl, cfg_rtp_reorder_ttl t)];
  window ← nonzero_tuning (cfg_receive_interarrival_window t) ReceiveInterarrivalWindow;
  reorder ← nonzero_tuning (cfg_rtp_reorder_buffer_max_frames t) RtpReorderBufferMaxFrames;
  udp ← (if cfg_udp_receive_buffer_bytes t =? 0 then Err (ConnectionTuningZero UdpReceiveBufferBytes)
         else Ok (cfg_udp_receive_buffer_bytes t));
  ready ← nonzero_tuning (cfg_ready_frame_buffer_max t) ReadyFrameBufferMax;
  queue ← nonzero_tuning (cfg_media_queue_capacity t) MediaQueueCapacity;
  if cfg_udp_receive_buffer_bytes t <? u16_mod - 1
  then Err (ConnectionTuningTooSmall UdpReceiveBufferBytes (u16_mod - 1) (cfg_udp_receive_buffer_bytes t))
  else Ok {| dave_pending_media_ttl := cfg_dave_pending_media_ttl t; receive_interarrival_window := window;
             rtp_reorder_ttl := cfg_rtp_reorder_ttl t; rtp_reorder_buffer_max_frames := reorder;
             udp_receive_buffer_bytes := udp; ready_frame_buffer_max := ready; media_queue_capacity := queue |}.

(** What the type [ConnectionRuntimeTuning] promises to its users. *)
Record runtime_tuning_ok (t : ConnectionRuntimeTuning) : Prop := {
  ok_media_ttl : 0 < dave_pending_media_ttl t;
  ok_window : (0 < receive_interarrival_window t)%nat;
  ok_reorder_ttl : 0 < rtp_reorder_ttl t;
  ok_reorder_max : (0 < rtp_reorder_buffer_max_frames t)%nat;
  ok_udp : u16_mod - 1 <= udp_receive_buffer_bytes t;
  ok_ready_max : (0 < ready_frame_buffer_max t)%nat;
  ok_queue : (0 < media_queue_capacity t)%nat }.

(** The configured values, taken over unchanged. *)
Definition as_runtime (t : ConnectionTuning) : ConnectionRuntimeTuning := {|
  dave_pending_media_ttl := cfg_dave_pending_media_ttl t; receive_interarrival_window := cfg_receive_interarrival_window t;
  rtp_reorder_ttl := cfg_rtp_reorder_ttl t; rtp_reorder_buffer_max_frames := cfg_rtp_reorder_buffer_max_frames t;
  udp_receive_buffer_bytes := cfg_udp_receive_buffer_bytes t; ready_frame_buffer_max := cfg_ready_frame_buffer_max t;
  media_queue_capacity := cfg_media_queue_capacity t |}.

(** A value that is refused breaks the promise, and an error says so. *)
Ltac refused := right; split; [by intros []; unfold u16_mod in *; simpl in *; lia|by eexists].

(** Validation decides the well-formedness of a tuning: for durations and
    sizes that are not negative, [validate] accepts the configured values
    exactly when every duration and size is positive and the receive buffer
    holds a largest UDP packet; it takes them over unchanged and otherwise
    returns an error.  The default tuning is accepted. *)
Theorem validate_iff t :
  0 <= cfg_dave_pending_media_ttl t -> 0 <= cfg_rtp_reorder_ttl t -> 0 <= cfg_udp_receive_buffer_bytes t ->
  (runtime_tuning_ok (as_runtime t) <-> validate t = Ok (as_runtime t)) /\
  (~ runtime_tuning_ok (as_runtime t) -> exists e, validate t = Err e) /\ validate tuning_default = Ok (as_runtime tuning_default).
Proof.
  intros H1 H2 H3. assert ((runtime_tuning_ok (as_runtime t) /\ validate t = Ok (as_runtime t)) \/
    (~ runtime_tuning_ok (as_runtime t) /\ exists e, validate t = Err e)) as Hcase; [|split; [|split; [|done]]].
  - unfold validate, check_durations.
    destruct (Z.eqb_spec (cfg_dave_pending_media_ttl t) 0); [refused|].
    destruct (Z.eqb_spec (cfg_rtp_reorder_ttl t) 0); [refused|].
    cbn [mbind res_mbind].
    destruct (cfg_receive_interarrival_window t) eqn:Hw; [refused|].
    destruct (cfg_rtp_reorder_buffer_max_frames t) eqn:Hr; [refused|].
    cbn [nonzero_tuning mbind res_mbind].
    destruct (Z.eqb_spec (cfg_udp_receive_buffer_bytes t) 0) as [Hu|Hu]; [refused|].
    cbn [mbind res_mbind].
    destruct (cfg_ready_frame_buffer_max t) eqn:Hf; [refused|].
    destruct (cfg_media_queue_capacity t) eqn:Hq; [refused|].
    cbn [nonzero_tuning mbind res_mbind].
    destruct (Z.ltb_spec (cfg_udp_receive_buffer_bytes t) (u16_mod - 1)); [refused|].
    left. split; [split; simpl; lia|]. unfold as_runtime. by rewrite Hw, Hr, Hf, Hq.
  - destruct Hcase as [[? ?]|[? [e He]]]; [done|]. split; [done|]. by rewrite He.
  - intros Hn. by destruct Hcase as [[? ?]|[_ He]].
Qed.

Lemma validate_iff_witness :
  (runtime_tuning_ok (as_runtime tuning_default) <-> validate tuning_default = Ok (as_runtime tuning_default)) /\
  (~ runtime_tuning_ok (as_runtime tuning_default) -> exists e, validate tuning_default = Err e) /\
  validate tuning_default = Ok (as_runtime tuning_default).
Proof. apply (validate_iff tuning_default); vm_compute; discriminate. Defined.
End Tuning.
