(* ===== verification/Leb128.v ===== *)
(** * ULEB128 integers (dave/src/leb128.rs)

    The variable-length integers of the DAVE supplemental data and of AV1 OBU
    sizes.  [encoded_len], [write_to] and [read] follow the loops of the source;
    [uleb] is the reference encoding they are compared with. *)

From S2P Require Import Prelude.

Module Uleb128.

(** A [u64] needs at most ten groups of seven bits: the fuel of the two loops
    over a value. *)
Definition max_groups : nat := 10.

Fixpoint encoded_len_loop (fuel : nat) (value : Z) (size : nat) : nat :=
  match fuel with
  | O => size
  | S fuel =>
      if value >=? 0x80 then encoded_len_loop fuel (Z.shiftr value 7) (S size) else size
  end.

Definition encoded_len (value : Z) : nat := encoded_len_loop max_groups value 1.

(** The result together with the output slice as the loop leaves it: bytes
    already stored stay stored when the slice turns out to be too short. *)
Fixpoint write_to_loop (fuel : nat) (value : Z) (written : nat) (output : bytes)
    : option nat * bytes :=
  match fuel with
  | O => (None, output)
  | S fuel =>
      let byte := Z.land value 0x7f in
      let value := Z.shiftr value 7 in
      match output !! written with
      | None => (None, output)
      | Some _ =>
          let output := <[written := if value =? 0 then byte else Z.lor byte 0x80]> output in
          if value =? 0 then (Some (S written), output)
          else write_to_loop fuel value (S written) output
      end
  end.

Definition write_to (value : Z) (output : bytes) : option nat * bytes :=
  write_to_loop max_groups value 0 output.

Record decoded := { value : Z; len : nat }.

Fixpoint read_loop (idx : nat) (acc : Z) (input : bytes) : option decoded :=
  match input with
  | [] => None
  | byte :: input =>
      if (idx =? 9)%nat then
        if byte >? 1 then None
        else Some {| value := Z.lor acc (Z.shiftl byte 63); len := S idx |}
      else
        let acc := Z.lor acc (Z.shiftl (Z.land byte 0x7f) (Z.of_nat idx * 7)) in
        if Z.land byte 0x80 =? 0 then Some {| value := acc; len := S idx |}
        else read_loop (S idx) acc input
  end.

Definition read (input : bytes) : option decoded := read_loop 0 0 input.

(** Reference encoding: little-endian base 128, high bit set on every byte but
    the last. *)
Fixpoint uleb (fuel : nat) (v : Z) : bytes :=
  match fuel with
  | O => []
  | S fuel => if v <? 128 then [v] else (v mod 128 + 128) :: uleb fuel (v / 128)
  end.

Definition encode (v : Z) : bytes := uleb max_groups v.

(** ** Shared lemmas *)

Lemma lor_80 b : 0 <= b < 128 -> Z.lor b 0x80 = b + 128.
Proof. intros. apply (lor_shiftl_add b 1 7); lia. Qed.

Lemma land_80 b : 0 <= b < 128 -> Z.land b 0x80 = 0.
Proof.
  intros. apply Z.bits_inj'. intros k Hk. rewrite Z.land_spec, Z.bits_0.
  change 0x80 with (2 ^ 7). rewrite Z.pow2_bits_eqb by lia.
  destruct (Z.eqb_spec 7 k) as [<-|]; [|apply andb_false_r]. rewrite andb_true_r.
  destruct (decide (b = 0)) as [->|]; [done|].
  apply Z.bits_above_log2; [lia|]. apply Z.log2_lt_pow2; lia.
Qed.

Lemma land_80_set b : 0 <= b < 128 -> Z.land (b + 128) 0x80 = 0x80.
Proof.
  intros. rewrite <- lor_80 by done. rewrite Z.land_lor_distr_l, land_80 by done. done.
Qed.

Lemma land_7f_set b : 0 <= b < 128 -> Z.land (b + 128) 0x7f = b.
Proof.
  intros. rewrite land_7f. replace (b + 128) with (b + 1 * 128) by lia.
  rewrite Z.mod_add by lia. apply Z.mod_small. lia.
Qed.

Lemma pow128_succ n : 128 ^ Z.of_nat (S n) = 128 * 128 ^ Z.of_nat n.
Proof. rewrite Nat2Z.inj_succ, Z.pow_succ_r by lia. lia. Qed.

Lemma div_group n v :
  128 <= v < 128 ^ Z.of_nat (S n) -> 1 <= v / 128 < 128 ^ Z.of_nat n.
Proof.
  rewrite pow128_succ. intros. split.
  - apply Z.div_le_lower_bound; lia.
  - apply Z.div_lt_upper_bound; lia.
Qed.

Lemma u64_groups v : is_u64 v -> 0 <= v < 128 ^ Z.of_nat max_groups.
Proof. unfold is_u64, u64_mod, max_groups. change (128 ^ Z.of_nat 10) with (2 ^ 70). lia. Qed.

Lemma uleb_bytes fuel v : 0 <= v -> all_bytes (uleb fuel v).
Proof.
  revert v. induction fuel as [|fuel IH]; intros v Hv; simpl; [done|].
  destruct (Z.ltb_spec v 128).
  - constructor; [unfold is_byte; lia|done].
  - constructor; [|apply IH, Z.div_pos; lia].
    pose proof (Z.mod_pos_bound v 128). unfold is_byte. lia.
Qed.

Lemma uleb_nonempty fuel v : (0 < length (uleb (S fuel) v))%nat.
Proof. simpl. destruct (v <? 128); simpl; lia. Qed.

Lemma length_uleb_le fuel v : (length (uleb fuel v) <= fuel)%nat.
Proof.
  revert v. induction fuel as [|fuel IH]; intros v; simpl; [done|].
  destruct (v <? 128); simpl; [lia|]. specialize (IH (v / 128)). lia.
Qed.

(** *** [encoded_len] is the length of the reference encoding *)
Lemma encoded_len_loop_uleb fuel v size :
  0 <= v < 128 ^ Z.of_nat (S fuel) ->
  encoded_len_loop (S fuel) v size = (size + length (uleb (S fuel) v) - 1)%nat.
Proof.
  revert v size. induction fuel as [|fuel IH]; intros v size Hv.
  - cbn -[Z.shiftr] in *. rewrite Z.geb_leb. bool_cases.
  - change (encoded_len_loop (S (S fuel)) v size)
      with (if v >=? 0x80 then encoded_len_loop (S fuel) (Z.shiftr v 7) (S size) else size).
    change (uleb (S (S fuel)) v)
      with (if v <? 128 then [v] else (v mod 128 + 128) :: uleb (S fuel) (v / 128)).
    rewrite Z.geb_leb. destruct (Z.leb_spec 0x80 v), (Z.ltb_spec v 128); try lia.
    + rewrite shiftr_7, IH by (pose proof (div_group (S fuel) v); lia).
      pose proof (uleb_nonempty fuel (v / 128)). cbn [length]. lia.
    + cbn [length]. lia.
Qed.

Lemma encoded_len_encode v : is_u64 v -> encoded_len v = length (encode v).
Proof.
  intros H%u64_groups. unfold encoded_len, encode, max_groups in *.
  rewrite encoded_len_loop_uleb by done. lia.
Qed.

Lemma encoded_len_pos v : (1 <= encoded_len v)%nat.
Proof.
  unfold encoded_len. generalize max_groups. intros n.
  enough (forall m w s, s <= encoded_len_loop m w s)%nat by auto.
  induction m as [|m IH]; intros w s; simpl; [done|].
  destruct (w >=? 128); [|done]. specialize (IH (Z.shiftr w 7) (S s)). lia.
Qed.

Lemma encoded_len_le v : is_u64 v -> (encoded_len v <= 10)%nat.
Proof. intros. rewrite encoded_len_encode by done. apply length_uleb_le. Qed.

(** *** [write_to] stores the reference encoding *)
Lemma write_to_loop_S fuel v written output :
  write_to_loop (S fuel) v written output =
    match output !! written with
    | None => (None, output)
    | Some _ =>
        let output := <[written := if Z.shiftr v 7 =? 0 then Z.land v 0x7f
                                   else Z.lor (Z.land v 0x7f) 0x80]> output in
        if Z.shiftr v 7 =? 0 then (Some (S written), output)
        else write_to_loop fuel (Z.shiftr v 7) (S written) output
    end.
Proof. done. Qed.

Lemma write_to_loop_uleb fuel v pre out :
  0 <= v < 128 ^ Z.of_nat (S fuel) ->
  (length (uleb (S fuel) v) <= length out)%nat ->
  write_to_loop (S fuel) v (length pre) (pre ++ out) =
    (Some (length pre + length (uleb (S fuel) v))%nat,
     pre ++ uleb (S fuel) v ++ drop (length (uleb (S fuel) v)) out).
Proof.
  revert v pre out. induction fuel as [|fuel IH]; intros v pre out Hv Hlen.
  all: destruct out as [|o out]; [cbn in Hlen; destruct (v <? 128); cbn in Hlen; lia|].
  all: rewrite write_to_loop_S, list_lookup_middle by done.
  all: cbv zeta.
  all: rewrite insert_app_r_alt, Nat.sub_diag by lia; cbn [insert list_insert].
  all: rewrite land_7f, shiftr_7.
  all: destruct (Z.ltb_spec v 128).
  - rewrite Z.div_small, Z.mod_small, Z.eqb_refl by lia.
    cbn in *. rewrite (proj2 (Z.ltb_lt v 128)) by done. cbn. by rewrite Nat.add_1_r.
  - cbn in Hv. lia.
  - rewrite Z.div_small, Z.mod_small, Z.eqb_refl by lia.
    cbn in *. rewrite (proj2 (Z.ltb_lt v 128)) by done. cbn. by rewrite Nat.add_1_r.
  - pose proof (div_group (S fuel) v ltac:(lia)).
    pose proof (Z.mod_pos_bound v 128 ltac:(lia)).
    rewrite (proj2 (Z.eqb_neq (v / 128) 0)) by lia.
    rewrite lor_80 by lia.
    change (uleb (S (S fuel)) v) with (if v <? 128 then [v] else (v mod 128 + 128) :: uleb (S fuel) (v / 128)) in *.
    rewrite (proj2 (Z.ltb_ge v 128)) in * by done. cbn [length] in Hlen.
    replace (pre ++ (v mod 128 + 128) :: out) with ((pre ++ [v mod 128 + 128]) ++ out) by by rewrite <- app_assoc.
    replace (S (length pre)) with (length (pre ++ [v mod 128 + 128])) by (rewrite length_app; simpl; lia).
    rewrite IH by (simpl in *; lia).
    rewrite length_app. cbn [length drop]. rewrite <- app_assoc. f_equal. f_equal. lia.
Qed.

Lemma write_to_encode v out :
  is_u64 v -> (length (encode v) <= length out)%nat ->
  write_to v out = (Some (length (encode v)), encode v ++ drop (length (encode v)) out).
Proof.
  intros Hv%u64_groups Hl. exact (write_to_loop_uleb 9 v [] out Hv Hl).
Qed.

(** *** [read] inverts the reference encoding *)
Lemma read_loop_uleb idx fuel v acc rest :
  (idx + fuel = 9)%nat ->
  0 <= v < 128 ^ Z.of_nat (S fuel) ->
  0 <= acc < 2 ^ (7 * Z.of_nat idx) ->
  acc + v * 2 ^ (7 * Z.of_nat idx) < u64_mod ->
  read_loop idx acc (uleb (S fuel) v ++ rest) =
    Some {| value := acc + v * 2 ^ (7 * Z.of_nat idx); len := idx + length (uleb (S fuel) v) |}.
Proof.
  revert idx v acc. induction fuel as [|fuel IH]; intros idx v acc Hidx Hv Hacc Hb.
  - assert (idx = 9%nat) as -> by lia. cbn in Hv, Hacc, Hb |- *.
    rewrite (proj2 (Z.ltb_lt v 128)) by lia. cbn [app].
    change (Z.pow_pos 2 63) with (2 ^ 63) in *. unfold u64_mod in Hb.
    cbn. rewrite Z.gtb_ltb, (proj2 (Z.ltb_ge 1 v)) by nia.
    change 63 with (Z.of_nat 63). rewrite lor_shiftl_add by lia. done.
  - change (uleb (S (S fuel)) v) with (if v <? 128 then [v] else (v mod 128 + 128) :: uleb (S fuel) (v / 128)).
    assert (Hi : (idx =? 9)%nat = false) by (apply Nat.eqb_neq; lia).
    destruct (Z.ltb_spec v 128); cbn [app read_loop]; rewrite Hi.
    + rewrite land_80, Z.eqb_refl, land_7f, Z.mod_small by lia.
      rewrite lor_shiftl_add by (rewrite ?(Z.mul_comm _ 7); lia).
      rewrite (Z.mul_comm (Z.of_nat idx)). cbn [length]. repeat f_equal. lia.
    + pose proof (Z.mod_pos_bound v 128 ltac:(lia)).
      pose proof (Z.div_mod v 128 ltac:(lia)).
      assert (Hp : 2 ^ (7 * Z.of_nat (S idx)) = 128 * 2 ^ (7 * Z.of_nat idx)).
      { replace (7 * Z.of_nat (S idx)) with (7 + 7 * Z.of_nat idx) by lia.
        rewrite Z.pow_add_r by lia. done. }
      rewrite land_80_set, land_7f_set by lia. cbn [Z.eqb].
      rewrite lor_shiftl_add by (rewrite ?(Z.mul_comm _ 7); lia).
      rewrite (Z.mul_comm (Z.of_nat idx)).
      rewrite IH; rewrite ?Hp; [|lia|pose proof (div_group (S fuel) v); lia|nia|nia].
      cbn [length]. f_equal. f_equal; [nia|lia].
Qed.

Lemma read_encode v rest :
  is_u64 v -> read (encode v ++ rest) = Some {| value := v; len := length (encode v) |}.
Proof.
  intros Hv. unfold read, encode, max_groups.
  rewrite read_loop_uleb; [f_equal; f_equal; lia|done| | |].
  - by apply (u64_groups v).
  - lia.
  - unfold is_u64 in Hv. lia.
Qed.

(** *** What [read] returns *)
Lemma read_loop_len idx acc input d :
  read_loop idx acc input = Some d -> (idx < len d <= idx + length input)%nat.
Proof.
  revert idx acc. induction input as [|b input IH]; intros idx acc; simpl; [done|].
  intros H. repeat case_match; simplify_eq; simpl; try lia.
  apply IH in H. lia.
Qed.

Lemma read_len input d : read input = Some d -> (0 < len d <= length input)%nat.
Proof. intros H%read_loop_len. lia. Qed.

Lemma read_loop_value idx acc input d :
  (idx <= 9)%nat -> all_bytes input -> 0 <= acc < 2 ^ (7 * Z.of_nat idx) ->
  read_loop idx acc input = Some d -> is_u64 (value d).
Proof.
  revert idx acc. induction input as [|b input IH]; intros idx acc Hi Hb Hacc; simpl; [done|].
  apply Forall_cons in Hb as [Hb Hbs]. unfold is_byte in Hb.
  destruct (Nat.eqb_spec idx 9) as [->|Hne].
  - rewrite Z.gtb_ltb. destruct (Z.ltb_spec 1 b); [done|]. intros [= <-]. simpl.
    rewrite lor_shiftl_add by lia. unfold is_u64, u64_mod. cbn in Hacc |- *. lia.
  - rewrite land_7f. pose proof (Z.mod_pos_bound b 128 ltac:(lia)).
    rewrite lor_shiftl_add by (rewrite ?(Z.mul_comm _ 7); lia).
    assert (Hp : 2 ^ (7 * Z.of_nat (S idx)) = 128 * 2 ^ (7 * Z.of_nat idx)).
    { replace (7 * Z.of_nat (S idx)) with (7 + 7 * Z.of_nat idx) by lia.
      rewrite Z.pow_add_r by lia. done. }
    assert (0 <= acc + b mod 128 * 2 ^ (Z.of_nat idx * 7) < 2 ^ (7 * Z.of_nat (S idx)))
      by (rewrite Hp, (Z.mul_comm _ 7); nia).
    destruct (Z.land b 128 =? 0).
    + intros [= <-]. cbn [value]. unfold is_u64, u64_mod. split; [lia|].
      apply Z.lt_le_trans with (2 ^ (7 * Z.of_nat (S idx))); [lia|].
      apply Z.pow_le_mono_r; lia.
    + intros. eapply IH; [| | |done]; [lia|done|done].
Qed.

Lemma read_value input d : all_bytes input -> read input = Some d -> is_u64 (value d).
Proof. intros. eapply read_loop_value; [| | |done]; [lia|done|lia]. Qed.

Lemma read_loop_ten idx acc input d :
  (idx <= 9)%nat -> read_loop idx acc input = Some d -> (len d <= 10)%nat.
Proof.
  revert idx acc. induction input as [|b input IH]; intros idx acc Hi; simpl; [done|].
  destruct (Nat.eqb_spec idx 9) as [->|].
  - case_match; [done|]. by intros [= <-].
  - case_match; [intros [= <-]; simpl; lia|]. apply IH. lia.
Qed.

(** The canonical encoding is the shortest one. *)
Lemma length_uleb_small fuel v n :
  0 <= v < 128 ^ Z.of_nat (S n) -> (length (uleb fuel v) <= S n)%nat.
Proof.
  revert v n. induction fuel as [|fuel IH]; intros v n Hv; simpl; [lia|].
  destruct (Z.ltb_spec v 128); simpl; [lia|]. destruct n as [|n]; [change (128 ^ Z.of_nat 1) with 128 in Hv; lia|].
  specialize (IH (v / 128) n). pose proof (div_group (S n) v ltac:(lia)). lia.
Qed.

Lemma encoded_len_small v n : 0 <= v < 128 ^ Z.of_nat (S n) -> is_u64 v -> (encoded_len v <= S n)%nat.
Proof. intros. rewrite encoded_len_encode by done. by apply length_uleb_small. Qed.

Lemma encoded_len_u32 v : is_u32 v -> (encoded_len v <= 5)%nat.
Proof.
  unfold is_u32, u32_mod. intros. apply encoded_len_small; [|unfold is_u64, u64_mod; lia].
  change (128 ^ Z.of_nat 5) with (2 ^ 35). lia.
Qed.

Lemma read_loop_value_len idx acc input d :
  (idx <= 9)%nat -> all_bytes input -> 0 <= acc < 2 ^ (7 * Z.of_nat idx) ->
  read_loop idx acc input = Some d -> 0 <= value d < 2 ^ (7 * Z.of_nat (len d)).
Proof.
  revert idx acc. induction input as [|b input IH]; intros idx acc Hi Hb Hacc; simpl; [done|].
  apply Forall_cons in Hb as [Hb Hbs]. unfold is_byte in Hb.
  assert (Hp : 2 ^ (7 * Z.of_nat (S idx)) = 128 * 2 ^ (7 * Z.of_nat idx)).
  { change 128 with (2 ^ 7). rewrite <- Z.pow_add_r by lia. f_equal. lia. }
  destruct (Nat.eqb_spec idx 9) as [->|Hne].
  - destruct (Z.gtb_spec b 1); [done|]. intros [= <-]. cbn [value len]. rewrite lor_shiftl_add by lia. rewrite Hp.
    change (7 * Z.of_nat 9) with 63 in *. nia.
  - assert (Hbm : 0 <= Z.land b 0x7f < 128) by (rewrite land_7f; apply Z.mod_pos_bound; lia).
    assert (Hacc' : 0 <= Z.lor acc (Z.shiftl (Z.land b 0x7f) (Z.of_nat idx * 7)) < 2 ^ (7 * Z.of_nat (S idx))).
    { rewrite (Z.mul_comm _ 7), lor_shiftl_add by lia. rewrite Hp. nia. }
    case_match; [intros [= <-]; cbn [value len]; done|]. apply IH; [lia|done|done].
Qed.

Lemma encode_shortest input d :
  all_bytes input -> read input = Some d -> (length (encode (value d)) <= len d)%nat.
Proof.
  intros Hb Hd. pose proof (read_loop_len _ _ _ _ Hd) as Hl.
  destruct (len d) as [|n] eqn:Hn; [lia|]. apply length_uleb_small. rewrite <- Hn.
  pose proof (read_loop_value_len 0 0 input d ltac:(lia) Hb ltac:(lia) Hd) as H.
  change 128 with (2 ^ 7). by rewrite <- Z.pow_mul_r by lia.
Qed.

(** Reading looks at the bytes of the encoding only. *)
Lemma read_loop_prefix idx acc input d :
  read_loop idx acc input = Some d -> read_loop idx acc (take (len d - idx) input) = Some d.
Proof.
  revert idx acc. induction input as [|b input IH]; intros idx acc H; [done|].
  pose proof (read_loop_len _ _ _ _ H) as Hl. destruct (len d - idx)%nat as [|m] eqn:Hm; [lia|].
  simpl in *. case_match; [done|]. case_match; [done|]. apply IH in H. by replace m with (len d - S idx)%nat by lia.
Qed.

Lemma read_prefix input d : read input = Some d -> read (take (len d) input) = Some d.
Proof. intros H%read_loop_prefix. by rewrite Nat.sub_0_r in H. Qed.

Lemma read_len_ten input d : read input = Some d -> (len d <= 10)%nat.
Proof. apply read_loop_ten. lia. Qed.

Lemma read_loop_app idx acc input rest d :
  read_loop idx acc input = Some d -> read_loop idx acc (input ++ rest) = Some d.
Proof.
  revert idx acc. induction input as [|b input IH]; intros idx acc; simpl; [done|].
  intros H. repeat case_match; simplify_eq; auto.
Qed.

Lemma read_app input rest d : read input = Some d -> read (input ++ rest) = Some d.
Proof. apply read_loop_app. Qed.

(** *** Writing into a slice that is too short *)
Lemma write_to_loop_short fuel v pre out :
  0 <= v < 128 ^ Z.of_nat (S fuel) ->
  (length out < length (uleb (S fuel) v))%nat ->
  write_to_loop (S fuel) v (length pre) (pre ++ out) =
    (None, pre ++ take (length out) (uleb (S fuel) v)).
Proof.
  revert v pre out. induction fuel as [|fuel IH]; intros v pre out Hv Hlen.
  all: rewrite write_to_loop_S; destruct out as [|o out].
  1, 3: rewrite app_nil_r, lookup_ge_None_2 by done; by rewrite app_nil_r.
  - cbn in *. destruct (v <? 128); cbn in *; lia.
  - rewrite list_lookup_middle by done. cbv zeta.
    rewrite insert_app_r_alt, Nat.sub_diag by lia; cbn [insert list_insert].
    rewrite land_7f, shiftr_7.
    change (uleb (S (S fuel)) v) with (if v <? 128 then [v] else (v mod 128 + 128) :: uleb (S fuel) (v / 128)) in *.
    destruct (Z.ltb_spec v 128); [cbn in Hlen; lia|]. cbn [length] in Hlen.
    pose proof (div_group (S fuel) v ltac:(lia)).
    pose proof (Z.mod_pos_bound v 128 ltac:(lia)).
    rewrite (proj2 (Z.eqb_neq (v / 128) 0)) by lia.
    rewrite lor_80 by lia.
    replace (pre ++ (v mod 128 + 128) :: out) with ((pre ++ [v mod 128 + 128]) ++ out) by by rewrite <- app_assoc.
    replace (S (length pre)) with (length (pre ++ [v mod 128 + 128])) by (rewrite length_app; simpl; lia).
    rewrite IH by lia. by rewrite <- app_assoc.
Qed.

(** ** Properties *)

(** Writing a [u64] into a slice with room for [encoded_len] bytes succeeds,
    stores exactly [encoded_len] bytes (between 1 and 10) in front of the rest
    of the slice, leaves that rest untouched, and reading the slice back gives
    the same value and the same length. *)
Theorem write_read_roundtrip v out :
  is_u64 v -> (encoded_len v <= length out)%nat ->
  exists out',
    write_to v out = (Some (encoded_len v), out') /\
    length out' = length out /\
    drop (encoded_len v) out' = drop (encoded_len v) out /\
    read out' = Some {| value := v; len := encoded_len v |} /\
    (1 <= encoded_len v <= 10)%nat.
Proof.
  intros Hv Hlen. pose proof (encoded_len_encode v Hv) as He.
  pose proof (encoded_len_pos v). pose proof (encoded_len_le v Hv).
  exists (encode v ++ drop (length (encode v)) out). rewrite He in *.
  rewrite write_to_encode, read_encode, drop_app_length by done.
  rewrite length_app, length_drop. repeat split; lia || done.
Qed.

Lemma write_read_roundtrip_witness :
  exists out', write_to 624485 (replicate 12 7) = (Some 3%nat, out') /\
               read out' = Some {| value := 624485; len := 3 |}.
Proof.
  destruct (write_read_roundtrip 624485 (replicate 12 7)) as (out' & H1 & _ & _ & H2 & _).
  - vm_compute. split; congruence.
  - vm_compute. lia.
  - exists out'. split; [exact H1 | exact H2].
Defined.

(** Writing into a slice shorter than [encoded_len] reports failure: the
    writer never reports a truncated encoding as written, and it never touches
    anything beyond the slice. *)
Theorem write_to_too_short v out :
  is_u64 v -> (length out < encoded_len v)%nat ->
  exists out', write_to v out = (None, out') /\ length out' = length out /\
               out' = take (length out) (encode v).
Proof.
  intros Hv Hlen. rewrite encoded_len_encode in Hlen by done.
  exists (take (length out) (encode v)).
  split; [exact (write_to_loop_short 9 v [] out (u64_groups v Hv) Hlen)|].
  split; [|done]. rewrite length_take. unfold encode in *. lia.
Qed.

Lemma write_to_too_short_witness :
  exists out', write_to 624485 [9; 9] = (None, out') /\ out' = [0xe5; 0x8e].
Proof.
  destruct (write_to_too_short 624485 [9; 9]) as (out' & H1 & _ & H2).
  - vm_compute. split; congruence.
  - vm_compute. lia.
  - exists out'. split; [exact H1 | exact H2].
Defined.

(** Whatever the input bytes, a successful [read] returns a value that fits
    in a [u64], consumes between one and ten bytes that are all part of the
    input, and does not depend on what follows the input. *)
Theorem read_sound input rest d :
  all_bytes input -> read input = Some d ->
  is_u64 (value d) /\ (1 <= len d <= 10)%nat /\ (len d <= length input)%nat /\
  read (input ++ rest) = Some d.
Proof.
  intros Hb Hr. pose proof (read_len input d Hr).
  split; [by eapply read_value|]. split; [|split; [lia|by apply read_app]].
  split; [lia|]. by apply (read_len_ten input).
Qed.

Lemma read_sound_witness :
  is_u64 (value {| value := 2 ^ 64 - 1; len := 10 |}) /\
  read ([0xff; 0xff; 0xff; 0xff; 0xff; 0xff; 0xff; 0xff; 0xff; 1] ++ [42]) =
    Some {| value := 2 ^ 64 - 1; len := 10 |}.
Proof.
  destruct (read_sound [0xff; 0xff; 0xff; 0xff; 0xff; 0xff; 0xff; 0xff; 0xff; 1] [42]
              {| value := 2 ^ 64 - 1; len := 10 |}) as (H1 & _ & _ & H2).
  - solve_bytes.
  - reflexivity.
  - split; [exact H1 | exact H2].
Defined.

End Uleb128.
