(* ===== verification/Codec.v ===== *)
(** * Annex B byte streams (dave/src/codec.rs)

    Search for H.264/H.265 start codes and iteration over the NAL units of an
    Annex B frame.  Index expressions of the source are kept as panicking
    accesses, and running out of fuel is a [Panic] too, so that the totality
    lemmas show both that accesses are in range and that the fuel is enough. *)

From S2P Require Import Prelude.

Module AnnexB.

Definition H26X_LONG_START_CODE : bytes := [0; 0; 0; 1].
Definition H26X_SHORT_START_SEQUENCE_BYTES : nat := 3.

Record H26xNalu := { start : nat; start_code_len : nat }.

#[export] Instance H26xNalu_eq_dec : EqDecision H26xNalu.
Proof. solve_decision. Defined.

(** The loop of [find_next_nalu].  [idx] grows by at least one on every turn and
    stays below the frame length, so [length frame] turns are enough. *)
Fixpoint find_next_nalu_loop {E} (fuel : nat) (frame : bytes) (idx : nat) : res E (option H26xNalu) :=
  match fuel with
  | O => Panic
  | S fuel =>
      if (idx <? length frame - H26X_SHORT_START_SEQUENCE_BYTES)%nat then
        b2 ← index frame (idx + 2);
        if b2 >? 1 then find_next_nalu_loop fuel frame (idx + H26X_SHORT_START_SEQUENCE_BYTES)
        else if b2 =? 1 then
          b0 ← index frame idx;
          b1 ← index frame (idx + 1);
          if (b0 =? 0) && (b1 =? 0) then
            four ← (if (1 <=? idx)%nat then bp ← index frame (idx - 1); Ok (bp =? 0) else Ok false);
            Ok (Some {| start := idx + H26X_SHORT_START_SEQUENCE_BYTES;
                        start_code_len := if four : bool then 4 else 3 |})
          else find_next_nalu_loop fuel frame (idx + H26X_SHORT_START_SEQUENCE_BYTES)
        else find_next_nalu_loop fuel frame (idx + 1)
      else Ok None
  end.

Definition find_next_nalu {E} (frame : bytes) (search_start : nat) : res E (option H26xNalu) :=
  if (length frame <? H26X_SHORT_START_SEQUENCE_BYTES)%nat then Ok None
  else find_next_nalu_loop (S (length frame)) frame search_start.

(** [AnnexBNalus]: the frame and the NAL unit found last. *)
Record AnnexBNalus := { frame : bytes; next : option H26xNalu }.

Definition nalus {E} (frame : bytes) : res E AnnexBNalus :=
  n ← find_next_nalu frame 0; Ok {| frame := frame; next := n |}.

Definition is_empty (it : AnnexBNalus) : bool := match next it with None => true | Some _ => false end.

(** The loop of [Iterator::next]: NAL units with an empty body are skipped. *)
Fixpoint next_loop {E} (fuel : nat) (it : AnnexBNalus) : res E (option bytes * AnnexBNalus) :=
  match fuel with
  | O => Panic
  | S fuel =>
      match next it with
      | None => Ok (None, it)
      | Some nalu =>
          nxt ← find_next_nalu (frame it) (start nalu);
          let stop := match nxt with
                      | Some n => (start n - start_code_len n)%nat
                      | None => length (frame it)
                      end in
          let it := {| frame := frame it; next := nxt |} in
          if (start nalu <? stop)%nat then
            body ← slice (frame it) (start nalu) stop; Ok (Some body, it)
          else next_loop fuel it
      end
  end.

Definition iter_next {E} (it : AnnexBNalus) : res E (option bytes * AnnexBNalus) :=
  next_loop (S (length (frame it))) it.

(** ** Reference notion: a start code at position [i] *)
Definition start_code_at (frame : bytes) (i : nat) : Prop :=
  frame !! i = Some 0 /\ frame !! (i + 1)%nat = Some 0 /\ frame !! (i + 2)%nat = Some 1.

(** A start code the search may report: one that leaves a byte after it. *)
Definition nalu_at (frame : bytes) (i : nat) : Prop :=
  start_code_at frame i /\ (i + 3 < length frame)%nat.

Definition nalu_of (frame : bytes) (i : nat) : H26xNalu :=
  {| start := i + 3;
     start_code_len := if decide ((1 <= i)%nat /\ frame !! (i - 1)%nat = Some 0) then 4 else 3 |}.

(** What a search from [s] should return. *)
Definition search_result (frame : bytes) (s : nat) (r : option H26xNalu) : Prop :=
  match r with
  | Some n => exists i, (s <= i)%nat /\ nalu_at frame i /\ n = nalu_of frame i /\
                        (forall j, (s <= j < i)%nat -> ~ nalu_at frame j)
  | None => forall j, (s <= j)%nat -> ~ nalu_at frame j
  end.

(** ** Lemmas *)
Lemma index_ok {E} (l : bytes) i : (i < length l)%nat -> exists b, l !! i = Some b /\ index (E := E) l i = Ok b.
Proof. intros [b Hb]%lookup_lt_is_Some. exists b. unfold index. by rewrite Hb. Qed.

Lemma search_result_skip frame s s' r :
  (s <= s')%nat -> (forall j, (s <= j < s')%nat -> ~ nalu_at frame j) ->
  search_result frame s' r -> search_result frame s r.
Proof.
  intros Hs Hno. destruct r as [n|]; simpl.
  - intros (i & Hi & Hn & -> & Hmin). exists i. repeat split; try apply Hn; try lia.
    intros j Hj. destruct (Nat.lt_ge_cases j s'); [apply Hno|apply Hmin]; lia.
  - intros Hnone j Hj. destruct (Nat.lt_ge_cases j s'); [apply Hno|apply Hnone]; lia.
Qed.

(** Positions [s], [s+1], [s+2] share the byte at [s+2]. *)
Lemma no_nalu_three frame s b0 b1 b2 :
  frame !! s = Some b0 -> frame !! (s + 1)%nat = Some b1 -> frame !! (s + 2)%nat = Some b2 ->
  b2 <> 0 -> ~ (b0 = 0 /\ b1 = 0 /\ b2 = 1) ->
  forall j, (s <= j < s + 3)%nat -> ~ nalu_at frame j.
Proof.
  intros H0 H1 H2 Hb Hn j Hj [(A0 & A1 & A2) _].
  assert (j = s \/ j = s + 1 \/ j = s + 2)%nat as [->|[->| ->]] by lia.
  - apply Hn. simplify_eq. done.
  - replace (s + 1 + 1)%nat with (s + 2)%nat in A1 by lia. congruence.
  - congruence.
Qed.

Lemma find_next_nalu_loop_spec {E} fuel frame idx :
  (0 < fuel)%nat -> (length frame < fuel + idx)%nat -> (3 <= length frame)%nat ->
  exists r, find_next_nalu_loop (E := E) fuel frame idx = Ok r /\ search_result frame idx r.
Proof.
  revert idx. induction fuel as [|fuel IH]; intros idx Hpos Hf H3; cbn [find_next_nalu_loop].
  - lia.
  - unfold H26X_SHORT_START_SEQUENCE_BYTES.
    destruct (Nat.ltb_spec idx (length frame - 3)) as [Hlt|Hge].
    2: { exists None. split; [done|]. intros j Hj [_ Hl]. lia. }
    destruct (index_ok (E := E) frame (idx + 2)) as (b2 & L2 & ->); [lia|].
    destruct (index_ok (E := E) frame (idx + 1)) as (b1 & L1 & E1); [lia|].
    destruct (index_ok (E := E) frame idx) as (b0 & L0 & E0); [lia|].
    cbn [mbind res_mbind]. rewrite Z.gtb_ltb.
    destruct (Z.ltb_spec 1 b2) as [Hb|Hb].
    { destruct (IH (idx + 3)%nat) as (r & -> & Hr); [lia..|]. exists r. split; [done|].
      eapply search_result_skip; [| |exact Hr]; [lia|].
      eapply no_nalu_three; eauto; lia. }
    destruct (Z.eqb_spec b2 1) as [->|Hb1].
    2: { destruct (IH (idx + 1)%nat) as (r & -> & Hr); [lia..|]. exists r. split; [done|].
         eapply search_result_skip; [| |exact Hr]; [lia|].
         intros j Hj [(_ & _ & A) _]. assert (j = idx) as -> by lia. congruence. }
    rewrite E0, E1. cbn [mbind res_mbind].
    destruct (Z.eqb_spec b0 0) as [->|H0]; [destruct (Z.eqb_spec b1 0) as [->|H1]|]; cbn [andb].
    2, 3: destruct (IH (idx + 3)%nat) as (r & -> & Hr); [lia..|]; exists r; split; [done|];
          eapply search_result_skip; [| |exact Hr]; [lia|]; eapply no_nalu_three; eauto; lia.
    exists (Some (nalu_of frame idx)). split.
    + unfold nalu_of. destruct (Nat.leb_spec 1 idx) as [Hi|Hi].
      * destruct (index_ok (E := E) frame (idx - 1)) as (bp & Lp & ->); [lia|]. cbn [mbind res_mbind].
        destruct (Z.eqb_spec bp 0) as [->|], (decide _) as [[_ Hd]|Hd]; try done; naive_solver congruence.
      * cbn [mbind res_mbind]. destruct (decide _) as [[Hd _]|]; [lia|done].
    + exists idx. repeat split; try done; lia.
Qed.

Lemma find_next_nalu_spec {E} frame s :
  exists r, find_next_nalu (E := E) frame s = Ok r /\ search_result frame s r.
Proof.
  unfold find_next_nalu, H26X_SHORT_START_SEQUENCE_BYTES. destruct (Nat.ltb_spec (length frame) 3).
  - exists None. split; [done|]. intros j Hj [_ Hl]. lia.
  - apply find_next_nalu_loop_spec; lia.
Qed.

Lemma find_next_nalu_ok {E F} frame s r :
  find_next_nalu (E := E) frame s = Ok r -> find_next_nalu (E := F) frame s = Ok r.
Proof.
  intros H. destruct (find_next_nalu_spec (E := E) frame s) as (r1 & H1 & S1).
  destruct (find_next_nalu_spec (E := F) frame s) as (r2 & H2 & S2). rewrite H2. f_equal.
  rewrite H1 in H. injection H as ->.
  destruct r as [n|], r2 as [m|]; simpl in *; try done.
  - destruct S1 as (i & Hi & Ni & -> & Mi), S2 as (j & Hj & Nj & -> & Mj).
    f_equal. f_equal. destruct (Nat.lt_trichotomy i j) as [?|[?|?]]; [|done|].
    + exfalso. by apply (Mj i).
    + exfalso. by apply (Mi j).
  - destruct S1 as (i & Hi & Ni & _). by destruct (S2 i).
  - destruct S2 as (i & Hi & Ni & _). by destruct (S1 i).
Qed.

(** A found NAL unit lies inside the frame, and its start code does not reach
    back beyond the position the search began at, when the byte before that
    position is not zero. *)
Lemma search_result_bounds frame s n :
  search_result frame s (Some n) ->
  (s + 3 <= start n < length frame)%nat /\ (3 <= start_code_len n <= 4)%nat /\
  (start_code_len n <= start n)%nat.
Proof.
  intros (i & Hi & [_ Hl] & -> & _). unfold nalu_of. simpl. destruct (decide _) as [[? _]|]; lia.
Qed.

Lemma search_result_gap frame s n b :
  (1 <= s)%nat -> frame !! (s - 1)%nat = Some b -> b <> 0 ->
  search_result frame s (Some n) -> (s <= start n - start_code_len n)%nat.
Proof.
  intros Hs Hb Hne (i & Hi & [_ Hl] & -> & _). unfold nalu_of. simpl.
  destruct (decide _) as [[? Hz]|]; [|lia].
  destruct (decide (i = s)) as [->|]; [congruence|lia].
Qed.

(** The byte before the start of a found NAL unit is the [01] of its start code. *)
Lemma search_result_prev frame s n :
  search_result frame s (Some n) -> frame !! (start n - 1)%nat = Some 1.
Proof.
  intros (i & Hi & [(_ & _ & H) _] & -> & _). simpl. by replace (i + 3 - 1)%nat with (i + 2)%nat by lia.
Qed.

(** The bytes from the reported start code up to the NAL unit. *)
Definition is_start_code (c : bytes) : Prop := c = [0; 0; 1] \/ c = [0; 0; 0; 1].

Lemma drop_lookup_cons (l : bytes) i b : l !! i = Some b -> drop i l = b :: drop (S i) l.
Proof. intros. by rewrite (drop_S l b i). Qed.

Lemma search_result_code frame s n :
  search_result frame s (Some n) ->
  exists c, is_start_code c /\ length c = start_code_len n /\
            drop (start n - start_code_len n) frame = c ++ drop (start n) frame.
Proof.
  intros (i & Hi & [(H0 & H1 & H2) _] & -> & _). unfold nalu_of, is_start_code. cbn [start start_code_len].
  assert (Ht : drop i frame = [0; 0; 1] ++ drop (i + 3) frame).
  { rewrite (drop_lookup_cons _ _ _ H0), <- Nat.add_1_r, (drop_lookup_cons _ _ _ H1).
    replace (S (i + 1)) with (i + 2)%nat by lia. rewrite (drop_lookup_cons _ _ _ H2). simpl. by replace (i + 3)%nat with (S (i + 2)) by lia. }
  destruct (decide _) as [[Hz Hp]|].
  - exists [0; 0; 0; 1]. replace (i + 3 - 4)%nat with (i - 1)%nat by lia.
    rewrite (drop_lookup_cons _ _ _ Hp). replace (S (i - 1)) with i by lia. rewrite Ht. auto.
  - exists [0; 0; 1]. replace (i + 3 - 3)%nat with i by lia. auto.
Qed.

(** Between the search position and the code found there is no start code with
    a byte behind it. *)
Definition no_nalu (u : bytes) : Prop := forall i, ~ nalu_at u i.

Lemma no_nalu_window frame a b :
  (forall j, (a <= j)%nat -> (j + 3 < b)%nat -> ~ nalu_at frame j) -> no_nalu (take (b - a) (drop a frame)).
Proof.
  intros H i [(H0 & H1 & H2) Hl]. rewrite length_take in Hl.
  rewrite lookup_take_lt, lookup_drop in H0, H1, H2 by lia.
  apply (H (a + i)%nat); [lia|lia|]. rewrite length_drop in Hl.
  split; [|lia]. by rewrite !Nat.add_assoc in H1, H2.
Qed.

(** ** Properties *)

(** The skipping search returns exactly the first start code at or after the
    search position that has a byte behind it, with the length of the start
    code (4 when a further zero byte precedes it, otherwise 3); it finds nothing
    only if there is no such start code.  It never indexes out of range. *)
Theorem find_next_nalu_first frame s :
  exists r : option H26xNalu,
    find_next_nalu (E := Empty_set) frame s = Ok r /\ search_result frame s r.
Proof. apply find_next_nalu_spec. Qed.

End AnnexB.
