(* ===== verification/Gcm.v ===== *)
(** * AES-128-GCM with an eight byte tag (dave/src/gcm.rs)

    The block cipher, the CTR core and GHASH come from third-party crates and
    are parameters ([GcmPrimitives]); what the code relies on is stated in
    [GcmLaws].  The module assembles them the way gcm.rs does.  [FrameAead] is
    the interface the frame transform is written against; [gcm8_frame_aead]
    and [gcm8_frame_aead_laws] discharge it. *)

From S2P Require Import Prelude.

(** What frame.rs uses of the AEAD. *)
Class FrameAead := {
  aead : Type;
  aead_new : bytes -> aead;
  aead_encrypt : aead -> bytes -> bytes -> bytes -> bytes * bytes;
  aead_decrypt : aead -> bytes -> bytes -> bytes -> bytes -> option bytes;
}.

(** The promise of the AEAD to its clients. *)
Class FrameAeadLaws (A : FrameAead) : Prop := {
  aead_roundtrip : forall k nonce aad buf ct tag,
    aead_encrypt k nonce aad buf = (ct, tag) -> aead_decrypt k nonce aad ct tag = Some buf;
  aead_length : forall k nonce aad buf ct tag,
    aead_encrypt k nonce aad buf = (ct, tag) -> length ct = length buf /\ length tag = 8%nat;
  aead_decrypt_length : forall k nonce aad ct tag buf,
    aead_decrypt k nonce aad ct tag = Some buf -> length buf = length ct;
}.

(** The aes, ctr and ghash crates. *)
Class GcmPrimitives := {
  aes : Type;
  aes_new : bytes -> aes;
  encrypt_block : aes -> bytes -> bytes;
  ghash_state : Type;
  ghash_new : bytes -> ghash_state;
  ghash_update_padded : ghash_state -> bytes -> ghash_state;
  ghash_update : ghash_state -> bytes -> ghash_state;
  ghash_finalize : ghash_state -> bytes;
  ctr_core : Type;
  ctr_init : aes -> bytes -> ctr_core;
  write_keystream_block : ctr_core -> bytes * ctr_core;
  apply_keystream_partial : ctr_core -> bytes -> bytes;
}.

(** Documented behaviour of those crates: applying the keystream from the same
    position twice restores the buffer, it keeps the length, and blocks have
    sixteen bytes. *)
Class GcmLaws (P : GcmPrimitives) : Prop := {
  keystream_involutive : forall c buf, apply_keystream_partial c (apply_keystream_partial c buf) = buf;
  keystream_length : forall c buf, length (apply_keystream_partial c buf) = length buf;
  keystream_block_length : forall c, length (write_keystream_block c).1 = 16%nat;
  ghash_finalize_length : forall s, length (ghash_finalize s) = 16%nat;
}.

Module Aes128Gcm8.
Section Gcm.
Context `{P : GcmPrimitives}.

Record t := { cipher : aes; ghash : ghash_state }.

Definition new (key : bytes) : t :=
  let c := aes_new key in
  {| cipher := c; ghash := ghash_new (encrypt_block c (replicate 16 0)) |}.

(** [j0] is the nonce followed by the block counter 1; the first keystream
    block is the tag mask. *)
Definition init_ctr (self : t) (nonce : bytes) : ctr_core * bytes :=
  let j0 := nonce ++ replicate 3 0 ++ [1] in
  let '(mask, ctr) := write_keystream_block (ctr_init (cipher self) j0) in
  (ctr, mask).

Definition compute_tag (self : t) (mask associated_data buffer : bytes) : bytes :=
  let g := ghash_update_padded (ghash self) associated_data in
  let g := ghash_update_padded g buffer in
  let lengths := to_be 8 (Z.of_nat (length associated_data) * 8)
                 ++ to_be 8 (Z.of_nat (length buffer) * 8) in
  let g := ghash_update g lengths in
  zip_with Z.lxor (ghash_finalize g) mask.

(** The buffer after in-place encryption, and the truncated tag. *)
Definition encrypt_in_place_detached (self : t) (nonce associated_data buffer : bytes) : bytes * bytes :=
  let '(ctr, mask) := init_ctr self nonce in
  let buffer := apply_keystream_partial ctr buffer in
  (buffer, take 8 (compute_tag self mask associated_data buffer)).

(** [Some] buffer on success; on failure the buffer is left as it was. *)
Definition decrypt_in_place_detached (self : t) (nonce associated_data buffer tag : bytes) : option bytes :=
  let '(ctr, mask) := init_ctr self nonce in
  let expected := compute_tag self mask associated_data buffer in
  if decide (take 8 expected = tag) then Some (apply_keystream_partial ctr buffer) else None.

Context {HP : GcmLaws P}.

Lemma length_compute_tag self nonce aad buf :
  length (compute_tag self (init_ctr self nonce).2 aad buf) = 16%nat.
Proof.
  unfold compute_tag, init_ctr.
  pose proof (keystream_block_length (ctr_init (cipher self) (nonce ++ replicate 3 0 ++ [1]))) as H.
  destruct (write_keystream_block _) as [mask ctr]. simpl in *.
  rewrite length_zip_with, ghash_finalize_length, H. done.
Qed.

Lemma roundtrip self nonce aad buf ct tag :
  encrypt_in_place_detached self nonce aad buf = (ct, tag) ->
  decrypt_in_place_detached self nonce aad ct tag = Some buf.
Proof.
  unfold encrypt_in_place_detached, decrypt_in_place_detached.
  destruct (init_ctr self nonce) as [ctr mask]. intros [= <- <-].
  rewrite decide_True by done. by rewrite keystream_involutive.
Qed.

Lemma encrypt_length self nonce aad buf ct tag :
  encrypt_in_place_detached self nonce aad buf = (ct, tag) ->
  length ct = length buf /\ length tag = 8%nat.
Proof.
  unfold encrypt_in_place_detached. pose proof (length_compute_tag self nonce aad) as Ht.
  destruct (init_ctr self nonce) as [ctr mask]. simpl in Ht. intros [= <- <-].
  rewrite keystream_length, length_take, Ht. done.
Qed.

(** Only the tag of the presented associated data and ciphertext is accepted. *)
Lemma decrypt_Some_tag self nonce aad ct tag buf :
  decrypt_in_place_detached self nonce aad ct tag = Some buf ->
  encrypt_in_place_detached self nonce aad buf = (ct, tag).
Proof.
  unfold encrypt_in_place_detached, decrypt_in_place_detached.
  destruct (init_ctr self nonce) as [ctr mask].
  destruct (decide _) as [Ht|]; [|done]. intros [= <-].
  by rewrite keystream_involutive, Ht.
Qed.

Lemma decrypt_length self nonce aad ct tag buf :
  decrypt_in_place_detached self nonce aad ct tag = Some buf -> length buf = length ct.
Proof.
  unfold decrypt_in_place_detached. destruct (init_ctr self nonce) as [ctr mask].
  destruct (decide _); [|done]. intros [= <-]. apply keystream_length.
Qed.

(** The assembled cipher decrypts exactly its own encryptions: for every key,
    nonce, associated data, ciphertext and tag, decryption returns a buffer if
    and only if encrypting that buffer under the same nonce and associated data
    gives that ciphertext and that tag.  In particular the round trip succeeds
    and a changed tag, changed associated data tag or truncated tag is refused. *)
Theorem decrypt_iff_encrypt self nonce aad buf ct tag :
  decrypt_in_place_detached self nonce aad ct tag = Some buf <->
  encrypt_in_place_detached self nonce aad buf = (ct, tag).
Proof. split; [apply decrypt_Some_tag | apply roundtrip]. Qed.

End Gcm.
End Aes128Gcm8.

(** gcm.rs implements the interface of the frame transform. *)
#[export] Instance gcm8_frame_aead `{P : GcmPrimitives} : FrameAead := {|
  aead := Aes128Gcm8.t;
  aead_new := Aes128Gcm8.new;
  aead_encrypt := Aes128Gcm8.encrypt_in_place_detached;
  aead_decrypt := Aes128Gcm8.decrypt_in_place_detached;
|}.

#[export] Instance gcm8_frame_aead_laws `{P : GcmPrimitives} {HP : GcmLaws P} :
  FrameAeadLaws gcm8_frame_aead.
Proof. split; [apply Aes128Gcm8.roundtrip | apply Aes128Gcm8.encrypt_length | apply Aes128Gcm8.decrypt_length]. Qed.

(** ** Concrete primitives

    A computable stand-in with the documented behaviour (the keystream is a
    xor with a byte that depends on key and counter block, GHASH is a running
    sum), on which the hypotheses of the theorems can be evaluated. *)
Module Sample.

Definition xor_with (k : Z) (buf : bytes) : bytes := map (Z.lxor k) buf.

Definition digest (s : bytes) : Z := foldl (fun acc b => (acc * 31 + b) mod 256) 0 s.

#[export] Instance primitives : GcmPrimitives := {|
  aes := bytes;
  aes_new := fun k => k;
  encrypt_block := fun k b => b;
  ghash_state := bytes;
  ghash_new := fun k => k;
  ghash_update_padded := fun s d => s ++ d;
  ghash_update := fun s d => s ++ d;
  ghash_finalize := fun s => replicate 16 (digest s);
  ctr_core := Z * Z;
  ctr_init := fun k iv => (digest k, digest iv);
  write_keystream_block := fun c => (replicate 16 (Z.lxor c.1 c.2 mod 256), (c.1, c.2 + 1));
  apply_keystream_partial := fun c buf => xor_with (Z.lxor c.1 c.2 mod 256) buf;
|}.

Lemma xor_with_involutive k buf : xor_with k (xor_with k buf) = buf.
Proof.
  unfold xor_with. induction buf as [|b buf IH]; simpl; [done|].
  by rewrite IH, <- Z.lxor_assoc, Z.lxor_nilpotent, Z.lxor_0_l.
Qed.

#[export] Instance laws : GcmLaws primitives.
Proof.
  split; intros; cbn.
  - apply xor_with_involutive.
  - unfold xor_with. by rewrite length_map.
  - done.
  - done.
Qed.

Lemma decrypt_iff_encrypt_witness :
  Aes128Gcm8.decrypt_in_place_detached (Aes128Gcm8.new [1; 2; 3]) [4; 5] [6] [10; 20]
    (Aes128Gcm8.encrypt_in_place_detached (Aes128Gcm8.new [1; 2; 3]) [4; 5] [6]
      (xor_with (Z.lxor (digest [1; 2; 3]) (digest [4; 5; 0; 0; 0; 1] + 1) mod 256) [10; 20])).2
  = Some (xor_with (Z.lxor (digest [1; 2; 3]) (digest [4; 5; 0; 0; 0; 1] + 1) mod 256) [10; 20]).
Proof. apply (Aes128Gcm8.decrypt_iff_encrypt (HP := laws)). vm_compute. reflexivity. Defined.

End Sample.
