(* ===== verification/Frame.v ===== *)
(** * The DAVE media frame transform (dave/src/frame.rs)

    [Interleave]: ranges of a frame that stay in clear, and the split and
    reconstruct loops over them.  [Processor]: the outbound frame processor.
    [FrameFormat]: supplemental data, parsing and the frame cipher.
    [Codecs]: the per-codec processing and validation.

    Lengths and offsets are [nat] (Rust slices never exceed [isize::MAX] bytes,
    so sums of two of them do not overflow); integers read from a frame are [Z]
    with the overflow checks of the source.  The [usize] of the model has 64
    bits.  Scratch buffers that the source clears before every use carry no
    state in the model. *)

From S2P Require Import Prelude Leb128 Codec Gcm.

Definition MARKER : bytes := [0xFA; 0xFA].
Definition OPUS_SILENCE_FRAME : bytes := [0xF8; 0xFF; 0xFE].
Definition KEY_BYTES : nat := 16.
Definition NONCE_BYTES : nat := 12.
Definition TRUNCATED_NONCE_BYTES : nat := 4.
Definition TRUNCATED_NONCE_OFFSET : nat := NONCE_BYTES - TRUNCATED_NONCE_BYTES.
Definition TAG_BYTES : nat := 8.
Definition SUPPLEMENTAL_BASE_BYTES : nat := TAG_BYTES + 1 + length MARKER.
Definition TRANSFORM_PADDING_BYTES : nat := 64.

Inductive MediaType := Audio | Video.
Inductive MediaCodec := Opus | Vp8 | Vp9 | H264 | H265 | Av1.

#[export] Instance MediaType_eq_dec : EqDecision MediaType.
Proof. solve_decision. Defined.
#[export] Instance MediaCodec_eq_dec : EqDecision MediaCodec.
Proof. solve_decision. Defined.

Definition media_type (c : MediaCodec) : MediaType :=
  match c with Opus => Audio | Vp8 | Vp9 | H264 | H265 | Av1 => Video end.

Inductive EncryptError :=
| SenderNotReady | InvalidKey | Aead | FrameEncoding | SupplementalDataTooLarge
| TooManyAttempts | MissingRatchetKey.

Inductive FrameDecryptError :=
| PassthroughDisabled
| MalformedFrame
| ReplayedNonce
| MissingCryptor (generation : Z)
| AeadFailed (generation : Z)
| NoValidCryptor (mt : MediaType) (encrypted_size manager_count : nat)
| InvalidDecryptKey.

(** ** Unencrypted ranges and the interleaving plan *)
Module Interleave.

Record UnencryptedRange := { offset : nat; len : nat }.

#[export] Instance UnencryptedRange_eq_dec : EqDecision UnencryptedRange.
Proof. solve_decision. Defined.

Definition range_end (r : UnencryptedRange) : nat := offset r + len r.

(** [InterleavedFramePlan::split] *)
Fixpoint split_loop {E} (ranges : list UnencryptedRange) (frame : bytes) (frame_index : nat)
    (authenticated encrypted : bytes) : res E (bytes * bytes) :=
  match ranges with
  | [] =>
      if (frame_index <? length frame)%nat then
        rest ← slice frame frame_index (length frame); Ok (authenticated, encrypted ++ rest)
      else Ok (authenticated, encrypted)
  | r :: ranges =>
      encrypted ← (if (frame_index <? offset r)%nat then
                     gap ← slice frame frame_index (offset r); Ok (encrypted ++ gap)
                   else Ok encrypted);
      clear ← slice frame (offset r) (range_end r);
      split_loop ranges frame (range_end r) (authenticated ++ clear) encrypted
  end.

Definition split {E} (ranges : list UnencryptedRange) (frame : bytes) : res E (bytes * bytes) :=
  split_loop ranges frame 0 [] [].

(** [InterleavedFramePlan::reconstruct] *)
Fixpoint reconstruct_loop {E} (ranges : list UnencryptedRange) (authenticated encrypted : bytes)
    (frame_index authenticated_index encrypted_index : nat) (output : bytes) : res E bytes :=
  match ranges with
  | [] =>
      if (encrypted_index <? length encrypted)%nat then
        rest ← slice encrypted encrypted_index (length encrypted); Ok (output ++ rest)
      else Ok output
  | r :: ranges =>
      '(output, encrypted_index) ←
        (if (frame_index <? offset r)%nat then
           let n := (offset r - frame_index)%nat in
           gap ← slice encrypted encrypted_index (encrypted_index + n);
           Ok (output ++ gap, (encrypted_index + n)%nat)
         else Ok (output, encrypted_index));
      clear ← slice authenticated authenticated_index (authenticated_index + len r);
      reconstruct_loop ranges authenticated encrypted (range_end r)
        (authenticated_index + len r) encrypted_index (output ++ clear)
  end.

Definition reconstruct {E} (ranges : list UnencryptedRange) (authenticated encrypted : bytes) : res E bytes :=
  reconstruct_loop ranges authenticated encrypted 0 0 0 [].

(** *** Specification: a mask telling for every byte whether it is in clear *)
Fixpoint choose (want : bool) (mask : list bool) (l : bytes) : bytes :=
  match mask, l with
  | m :: mask, b :: l => if Bool.eqb m want then b :: choose want mask l else choose want mask l
  | _, _ => []
  end.

Fixpoint merge (mask : list bool) (clear secret : bytes) : bytes :=
  match mask with
  | [] => []
  | true :: mask =>
      match clear with b :: clear => b :: merge mask clear secret | [] => [] end
  | false :: mask =>
      match secret with b :: secret => b :: merge mask clear secret | [] => [] end
  end.

Fixpoint mask_of (from : nat) (ranges : list UnencryptedRange) (n : nat) : list bool :=
  match ranges with
  | [] => replicate (n - from) false
  | r :: ranges => replicate (offset r - from) false ++ replicate (len r) true ++ mask_of (range_end r) ranges n
  end.

(** Ranges in order, from position [from] on, inside a frame of [n] bytes. *)
Fixpoint ranges_wf (from : nat) (ranges : list UnencryptedRange) (n : nat) : Prop :=
  match ranges with
  | [] => (from <= n)%nat
  | r :: ranges => (from <= offset r)%nat /\ ranges_wf (range_end r) ranges n
  end.

(** *** Lemmas *)
Lemma ranges_wf_le from ranges n : ranges_wf from ranges n -> (from <= n)%nat.
Proof.
  revert from. induction ranges as [|r rs IH]; intros from; simpl; [done|].
  intros [? ?%IH]. unfold range_end in *. lia.
Qed.

Lemma length_mask_of from ranges n :
  ranges_wf from ranges n -> length (mask_of from ranges n) = (n - from)%nat.
Proof.
  revert from. induction ranges as [|r rs IH]; intros from; simpl.
  - by rewrite length_replicate.
  - intros [? Hwf]. rewrite !length_app, !length_replicate, IH by done.
    apply ranges_wf_le in Hwf. unfold range_end in *. lia.
Qed.

Lemma choose_app want m1 m2 l1 l2 :
  length m1 = length l1 -> choose want (m1 ++ m2) (l1 ++ l2) = choose want m1 l1 ++ choose want m2 l2.
Proof.
  revert l1. induction m1 as [|m m1 IH]; intros [|b l1]; simpl; try done.
  intros [= H]. rewrite IH by done. by destruct (Bool.eqb m want).
Qed.

Lemma choose_replicate want n l : length l = n -> choose want (replicate n want) l = l.
Proof.
  revert l. induction n as [|n IH]; intros [|b l]; simpl; try done.
  intros [= H]. rewrite Bool.eqb_reflx, IH by done. done.
Qed.

Lemma choose_replicate_neg want n l : choose want (replicate n (negb want)) l = [].
Proof.
  revert l. induction n as [|n IH]; intros [|b l]; simpl; try done.
  destruct want; simpl; apply IH.
Qed.

Lemma merge_choose mask l :
  length mask = length l -> merge mask (choose true mask l) (choose false mask l) = l.
Proof.
  revert l. induction mask as [|m mask IH]; intros [|b l]; simpl; try done.
  intros [= H]. destruct m; simpl; by rewrite IH.
Qed.

Lemma choose_merge mask clear secret :
  length (filter Is_true mask) = length clear ->
  (length mask = length clear + length secret)%nat ->
  length (merge mask clear secret) = length mask /\
  choose true mask (merge mask clear secret) = clear /\
  choose false mask (merge mask clear secret) = secret.
Proof.
  revert clear secret. induction mask as [|m mask IH]; intros clear secret Ht Hl.
  - destruct clear, secret; simpl in *; try lia; done.
  - destruct m; cbn [merge].
    + rewrite filter_cons_True in Ht by done. destruct clear as [|b clear]; [simpl in *; lia|].
      destruct (IH clear secret) as (H1 & H2 & H3); [simpl in *; lia..|].
      simpl. rewrite H1, H2, H3. done.
    + rewrite filter_cons_False in Ht by (intros []).
      destruct secret as [|b secret].
      { exfalso. pose proof (length_filter Is_true mask). simpl in *. lia. }
      destruct (IH clear secret) as (H1 & H2 & H3); [simpl in *; lia..|].
      simpl. rewrite H1, H2, H3. done.
Qed.

Lemma length_choose mask l :
  length mask = length l ->
  length (choose true mask l) = length (filter Is_true mask) /\
  (length (choose true mask l) + length (choose false mask l) = length mask)%nat.
Proof.
  revert l. induction mask as [|m mask IH]; intros [|b l]; try done.
  intros [= H]. destruct (IH l H) as [H1 H2]. destruct m.
  - rewrite filter_cons_True by done. simpl. lia.
  - rewrite filter_cons_False by (intros []). simpl. lia.
Qed.

Lemma merge_false k mask clear secret :
  (k <= length secret)%nat ->
  merge (replicate k false ++ mask) clear secret = take k secret ++ merge mask clear (drop k secret).
Proof.
  revert secret. induction k as [|k IH]; intros [|b secret]; simpl; try done; try lia.
  intros. by rewrite IH by lia.
Qed.

Lemma merge_true k mask clear secret :
  (k <= length clear)%nat ->
  merge (replicate k true ++ mask) clear secret = take k clear ++ merge mask (drop k clear) secret.
Proof.
  revert clear. induction k as [|k IH]; intros [|b clear]; simpl; try done; try lia.
  intros. by rewrite IH by lia.
Qed.

Lemma filter_replicate_true k : length (filter Is_true (replicate k true)) = k.
Proof. induction k; [done|]. cbn [replicate]. rewrite filter_cons_True by done. cbn [length]. congruence. Qed.

Lemma filter_replicate_false k : filter Is_true (replicate k false) = [].
Proof. induction k; [done|]. cbn [replicate]. by rewrite filter_cons_False by (intros []). Qed.

Lemma drop_segments fi off n (l : bytes) :
  (fi <= off)%nat -> (off + n <= length l)%nat ->
  drop fi l = take (off - fi) (drop fi l) ++ take n (drop off l) ++ drop (off + n) l.
Proof.
  intros. rewrite <- (take_drop (off - fi) (drop fi l)) at 1. f_equal.
  rewrite drop_drop. replace (fi + (off - fi))%nat with off by lia.
  rewrite <- (take_drop n (drop off l)) at 1. by rewrite drop_drop.
Qed.

Lemma split_loop_spec {E} ranges l fi a e :
  ranges_wf fi ranges (length l) ->
  split_loop (E := E) ranges l fi a e =
    Ok (a ++ choose true (mask_of fi ranges (length l)) (drop fi l),
        e ++ choose false (mask_of fi ranges (length l)) (drop fi l)).
Proof.
  revert fi a e. induction ranges as [|r rs IH]; intros fi a e Hwf; simpl in *.
  - rewrite (choose_replicate_neg true), (choose_replicate false) by llia.
    rewrite app_nil_r. destruct (Nat.ltb_spec fi (length l)).
    + rewrite slice_ok by lia. simpl. rewrite take_ge by llia. done.
    + rewrite drop_ge by lia. by rewrite app_nil_r.
  - destruct Hwf as [Hoff Hwf]. pose proof (ranges_wf_le _ _ _ Hwf) as Hle. unfold range_end in *.
    assert (He : (if (fi <? offset r)%nat then gap ← slice l fi (offset r); Ok (e ++ gap) else Ok e)
                 = Ok (E := E) (e ++ take (offset r - fi) (drop fi l))).
    { destruct (Nat.ltb_spec fi (offset r)).
      - by rewrite slice_ok by lia.
      - replace (offset r - fi)%nat with O by lia. by rewrite take_0, app_nil_r. }
    rewrite He. simpl. rewrite slice_ok by lia. simpl.
    replace (offset r + len r - offset r)%nat with (len r) by lia.
    rewrite IH by done.
    assert (length (take (offset r - fi) (drop fi l)) = (offset r - fi)%nat) as Hlg by llia.
    pose proof (drop_segments fi (offset r) (len r) l Hoff Hle) as Hd.
    set (gap := take (offset r - fi) (drop fi l)) in *. clearbody gap.
    rewrite Hd, !choose_app by llia.
    rewrite (choose_replicate_neg true), (choose_replicate true), (choose_replicate false), (choose_replicate_neg false) by llia.
    by rewrite !app_nil_l, <- !app_assoc.
Qed.

Lemma split_spec {E} ranges l :
  ranges_wf 0 ranges (length l) ->
  split (E := E) ranges l = Ok (choose true (mask_of 0 ranges (length l)) l,
                                choose false (mask_of 0 ranges (length l)) l).
Proof. intros. unfold split. by rewrite split_loop_spec, drop_0. Qed.

Lemma reconstruct_loop_spec {E} ranges n U S fi ai ei out :
  ranges_wf fi ranges n ->
  (length (filter Is_true (mask_of fi ranges n)) + ai = length U)%nat ->
  (n - fi + ai + ei = length U + length S)%nat -> (ei <= length S)%nat ->
  reconstruct_loop (E := E) ranges U S fi ai ei out =
    Ok (out ++ merge (mask_of fi ranges n) (drop ai U) (drop ei S)).
Proof.
  revert fi ai ei out. induction ranges as [|r rs IH]; intros fi ai ei out Hwf Ht Hn He.
  - cbn [mask_of ranges_wf] in *. rewrite filter_replicate_false in Ht. cbn [length] in Ht.
    rewrite <- (app_nil_r (replicate (n - fi) false)), merge_false by llia.
    cbn [merge]. rewrite app_nil_r, take_ge by llia. cbn [reconstruct_loop].
    destruct (Nat.ltb_spec ei (length S)).
    + rewrite slice_ok by lia. simpl. by rewrite take_ge by llia.
    + rewrite drop_ge by lia. by rewrite app_nil_r.
  - cbn [mask_of ranges_wf reconstruct_loop] in *. destruct Hwf as [Hoff Hwf].
    pose proof (ranges_wf_le _ _ _ Hwf) as Hle.
    pose proof (length_mask_of _ _ _ Hwf) as Hlm.
    pose proof (length_filter Is_true (mask_of (range_end r) rs n)) as Hlf.
    rewrite !filter_app, !length_app, filter_replicate_false, filter_replicate_true in Ht.
    cbn [length] in Ht. unfold range_end in *.
    assert (Hg : (if (fi <? offset r)%nat then
             gap ← slice S ei (ei + (offset r - fi)); Ok (out ++ gap, (ei + (offset r - fi))%nat)
           else Ok (out, ei)) = Ok (E := E) (out ++ take (offset r - fi) (drop ei S), (ei + (offset r - fi))%nat)).
    { destruct (Nat.ltb_spec fi (offset r)).
      - rewrite slice_ok by lia. simpl. by replace (ei + (offset r - fi) - ei)%nat with (offset r - fi)%nat by lia.
      - replace (offset r - fi)%nat with O by lia. by rewrite take_0, app_nil_r, Nat.add_0_r. }
    cbv zeta. rewrite Hg. cbn [mbind res_mbind]. rewrite slice_ok by lia. cbn [mbind res_mbind].
    replace (ai + len r - ai)%nat with (len r) by lia.
    rewrite IH by (done || lia).
    rewrite merge_false, merge_true by llia. rewrite !drop_drop, !app_assoc. done.
Qed.

Lemma reconstruct_spec {E} ranges n U S :
  ranges_wf 0 ranges n ->
  length (filter Is_true (mask_of 0 ranges n)) = length U ->
  (n = length U + length S)%nat ->
  reconstruct (E := E) ranges U S = Ok (merge (mask_of 0 ranges n) U S).
Proof.
  intros. unfold reconstruct. rewrite (reconstruct_loop_spec ranges n) by (done || lia).
  by rewrite !drop_0.
Qed.

(** *** Growing a frame at its end *)
Lemma ranges_wf_grow from ranges n k : ranges_wf from ranges n -> ranges_wf from ranges (n + k).
Proof. revert from. induction ranges as [|r rs IH]; intros from; simpl; [lia|]. intros [? ?]; split; [done|by apply IH]. Qed.

Lemma mask_of_grow from ranges n k :
  ranges_wf from ranges n -> mask_of from ranges (n + k) = mask_of from ranges n ++ replicate k false.
Proof.
  revert from. induction ranges as [|r rs IH]; intros from; simpl.
  - intros. rewrite <- replicate_add. f_equal. lia.
  - intros [_ H]. by rewrite IH, !app_assoc.
Qed.

Lemma ranges_wf_push from ranges n k :
  ranges_wf from ranges n -> ranges_wf from (ranges ++ [{| offset := n; len := k |}]) (n + k).
Proof. revert from. induction ranges as [|r rs IH]; intros from; simpl; [unfold range_end; simpl; lia|]. intros [? ?]; split; [done|by apply IH]. Qed.

Lemma mask_of_push from ranges n k :
  ranges_wf from ranges n ->
  mask_of from (ranges ++ [{| offset := n; len := k |}]) (n + k) = mask_of from ranges n ++ replicate k true.
Proof.
  revert from. induction ranges as [|r rs IH]; intros from; simpl.
  - intros. unfold range_end. simpl. by rewrite Nat.sub_diag, app_nil_r.
  - intros [_ H]. by rewrite IH, !app_assoc.
Qed.

Lemma ranges_wf_extend from ranges r n k :
  ranges_wf from (ranges ++ [r]) n -> range_end r = n ->
  ranges_wf from (ranges ++ [{| offset := offset r; len := len r + k |}]) (n + k).
Proof.
  revert from. induction ranges as [|r' rs IH]; intros from; simpl; unfold range_end in *; simpl.
  - lia.
  - intros [? ?] ?; split; [done|by apply IH].
Qed.

Lemma mask_of_extend from ranges r n k :
  ranges_wf from (ranges ++ [r]) n -> range_end r = n ->
  mask_of from (ranges ++ [{| offset := offset r; len := len r + k |}]) (n + k) =
    mask_of from (ranges ++ [r]) n ++ replicate k true.
Proof.
  revert from. induction ranges as [|r' rs IH]; intros from; simpl.
  - intros [_ H1] H2. unfold range_end in *. simpl. rewrite replicate_add.
    replace (n + k - (offset r + (len r + k)))%nat with O by lia.
    replace (n - (offset r + len r))%nat with O by lia. simpl. by rewrite !app_nil_r, !app_assoc.
  - intros [_ H1] H2. by rewrite IH, !app_assoc.
Qed.

End Interleave.

(** ** The outbound frame processor *)
Module Processor.
Import Interleave.

Record OutboundFrameProcessor := {
  frame_index : nat;
  unencrypted_ranges : list UnencryptedRange;
  unencrypted_bytes : bytes;
  encrypted_bytes : bytes;
  ciphertext : bytes;
}.

Inductive FrameProcessResult := Processed | FallbackAllEncrypted.

(** [reset], which is also the [Default] processor. *)
Definition reset : OutboundFrameProcessor :=
  {| frame_index := 0; unencrypted_ranges := []; unencrypted_bytes := [];
     encrypted_bytes := []; ciphertext := [] |}.

(** The update of [unencrypted_ranges]: extend the last range when it ends at
    the current position, otherwise push a new one. *)
Definition push_range (ranges : list UnencryptedRange) (at_ n : nat) : list UnencryptedRange :=
  match last ranges with
  | Some r =>
      if (range_end r =? at_)%nat
      then take (length ranges - 1) ranges ++ [{| offset := offset r; len := len r + n |}]
      else ranges ++ [{| offset := at_; len := n |}]
  | None => ranges ++ [{| offset := at_; len := n |}]
  end.

Definition add_unencrypted_bytes (b : bytes) (p : OutboundFrameProcessor) : OutboundFrameProcessor :=
  match b with
  | [] => p
  | _ =>
      {| frame_index := frame_index p + length b;
         unencrypted_ranges := push_range (unencrypted_ranges p) (frame_index p) (length b);
         unencrypted_bytes := unencrypted_bytes p ++ b;
         encrypted_bytes := encrypted_bytes p;
         ciphertext := ciphertext p |}
  end.

Definition add_encrypted_bytes (b : bytes) (p : OutboundFrameProcessor) : OutboundFrameProcessor :=
  match b with
  | [] => p
  | _ =>
      {| frame_index := frame_index p + length b;
         unencrypted_ranges := unencrypted_ranges p;
         unencrypted_bytes := unencrypted_bytes p;
         encrypted_bytes := encrypted_bytes p ++ b;
         ciphertext := ciphertext p |}
  end.

Definition set_ciphertext (c : bytes) (p : OutboundFrameProcessor) : OutboundFrameProcessor :=
  {| frame_index := frame_index p; unencrypted_ranges := unencrypted_ranges p;
     unencrypted_bytes := unencrypted_bytes p; encrypted_bytes := encrypted_bytes p;
     ciphertext := c |}.

Definition reconstruct_encrypted_frame {E} (p : OutboundFrameProcessor) : res E bytes :=
  reconstruct (unencrypted_ranges p) (unencrypted_bytes p) (ciphertext p).

(** [p] holds the frame [l], split into its clear and its secret bytes. *)
Record holds (p : OutboundFrameProcessor) (l : bytes) : Prop := {
  holds_index : frame_index p = length l;
  holds_wf : ranges_wf 0 (unencrypted_ranges p) (length l);
  holds_clear : unencrypted_bytes p = choose true (mask_of 0 (unencrypted_ranges p) (length l)) l;
  holds_secret : encrypted_bytes p = choose false (mask_of 0 (unencrypted_ranges p) (length l)) l;
}.

Lemma holds_reset : holds reset [].
Proof. by split; simpl; try lia. Qed.

Lemma length_mask0 ranges n : ranges_wf 0 ranges n -> length (mask_of 0 ranges n) = n.
Proof. intros. rewrite length_mask_of by done. lia. Qed.

Lemma push_range_spec ranges n k :
  ranges_wf 0 ranges n ->
  ranges_wf 0 (push_range ranges n k) (n + k) /\
  mask_of 0 (push_range ranges n k) (n + k) = mask_of 0 ranges n ++ replicate k true.
Proof.
  intros Hwf. unfold push_range.
  destruct ranges as [|r rs _] using rev_ind.
  { split; [exact (ranges_wf_push 0 [] n k Hwf)|exact (mask_of_push 0 [] n k Hwf)]. }
  rewrite last_snoc. destruct (Nat.eqb_spec (range_end r) n).
  - rewrite length_app. simpl. rewrite Nat.add_sub, take_app_length.
    split; [by apply ranges_wf_extend|by apply mask_of_extend].
  - split; [by apply ranges_wf_push|by apply mask_of_push].
Qed.

Lemma holds_add_unencrypted p l b : holds p l -> holds (add_unencrypted_bytes b p) (l ++ b).
Proof.
  intros [Hi Hwf Hc Hs]. destruct b as [|x b]; [by rewrite app_nil_r|].
  cbn [add_unencrypted_bytes]. generalize (x :: b). clear x b. intros c.
  destruct (push_range_spec (unencrypted_ranges p) (length l) (length c) Hwf) as [Hw Hm].
  split; simpl; rewrite length_app, ?Hi; try done.
  - rewrite Hm, choose_app, Hc by by apply length_mask0. by rewrite choose_replicate.
  - rewrite Hm, choose_app, Hs by by apply length_mask0.
    by rewrite (choose_replicate_neg false), app_nil_r.
Qed.

Lemma holds_add_encrypted p l b : holds p l -> holds (add_encrypted_bytes b p) (l ++ b).
Proof.
  intros [Hi Hwf Hc Hs]. destruct b as [|x b]; [by rewrite app_nil_r|].
  cbn [add_encrypted_bytes]. generalize (x :: b). clear x b. intros c.
  split; simpl; rewrite length_app, ?Hi; try done.
  - by apply ranges_wf_grow.
  - rewrite mask_of_grow, choose_app, Hc by (try apply length_mask0; done).
    by rewrite (choose_replicate_neg true), app_nil_r.
  - rewrite mask_of_grow, choose_app, Hs by (try apply length_mask0; done).
    by rewrite choose_replicate.
Qed.
#[export] Hint Resolve holds_reset holds_add_unencrypted holds_add_encrypted : cacophony.

Lemma holds_set_ciphertext c p l : holds p l -> holds (set_ciphertext c p) l.
Proof. intros []. by split. Qed.

(** Splitting the frame held gives back the processor's bytes; reconstructing
    from a secret part of the same length gives a frame of the same length that
    splits into that part again. *)
Lemma holds_reconstruct {E} p l S :
  holds p l -> length S = length (encrypted_bytes p) ->
  exists out, reconstruct (E := E) (unencrypted_ranges p) (unencrypted_bytes p) S = Ok out /\
    length out = length l /\
    forall F, split (E := F) (unencrypted_ranges p) out = Ok (unencrypted_bytes p, S).
Proof.
  intros [Hi Hwf Hc Hs] HS. pose proof (length_mask0 _ _ Hwf) as Hm.
  destruct (length_choose _ _ Hm) as [H1 H2]. rewrite <- Hc, <- Hs in *.
  rewrite reconstruct_spec with (n := length l) by (done || lia).
  destruct (choose_merge (mask_of 0 (unencrypted_ranges p) (length l)) (unencrypted_bytes p) S)
    as (L & C1 & C2); [lia|lia|].
  eexists. split; [done|]. rewrite L, Hm. split; [done|]. intros F.
  rewrite split_spec by (by rewrite L, Hm). rewrite L, Hm, C1, C2. done.
Qed.

Lemma holds_reconstruct_self {E} p l :
  holds p l -> reconstruct (E := E) (unencrypted_ranges p) (unencrypted_bytes p) (encrypted_bytes p) = Ok l.
Proof.
  intros [Hi Hwf Hc Hs]. pose proof (length_mask0 _ _ Hwf) as Hm.
  destruct (length_choose _ _ Hm) as [H1 H2]. rewrite <- Hc, <- Hs in *.
  rewrite reconstruct_spec with (n := length l) by (done || lia).
  by rewrite Hc, Hs, merge_choose.
Qed.

End Processor.

(** ** Frame format: supplemental data, parser and frame cipher *)
Module FrameFormat.
Import Interleave Processor.
Import Uleb128.

(** [nonce_from_truncated] *)
Definition nonce_from_truncated (truncated_nonce : Z) : bytes :=
  replicate TRUNCATED_NONCE_OFFSET 0 ++ to_le 4 truncated_nonce.

(** [unencrypted_ranges_size] *)
Definition unencrypted_ranges_size (ranges : list UnencryptedRange) : nat :=
  sum_list ((fun r => encoded_len (Z.of_nat (offset r)) + encoded_len (Z.of_nat (Interleave.len r)))%nat <$> ranges).

(** [Uleb128::new(v).write_to(&mut output[a..b])] followed by [ok_or]. *)
Definition write_uleb_at (v : Z) (output : bytes) (a b : nat) : res EncryptError (nat * bytes) :=
  part ← slice output a b;
  match write_to v part with
  | (Some written, part) => Ok (written, take a output ++ part ++ drop b output)
  | (None, _) => Err FrameEncoding
  end.

Fixpoint write_ranges (ranges : list UnencryptedRange) (pos : nat) (output : bytes)
    : res EncryptError (nat * bytes) :=
  match ranges with
  | [] => Ok (pos, output)
  | r :: ranges =>
      '(written, output) ← write_uleb_at (Z.of_nat (offset r)) output pos (length output);
      let pos := (pos + written)%nat in
      '(written, output) ← write_uleb_at (Z.of_nat (Interleave.len r)) output pos (length output);
      write_ranges ranges (pos + written)%nat output
  end.

Definition write_supplemental_tail (truncated_nonce : Z) (ranges : list UnencryptedRange) (output : bytes)
    : res EncryptError bytes :=
  let nonce_size := encoded_len truncated_nonce in
  let ranges_size := unencrypted_ranges_size ranges in
  let supplemental_size := (TAG_BYTES + nonce_size + ranges_size + 1 + length MARKER)%nat in
  if (255 <? supplemental_size)%nat then Err SupplementalDataTooLarge
  else
    let start := length output in
    let output := output ++ replicate (nonce_size + ranges_size + 1 + length MARKER) 0 in
    '(_, output) ← write_uleb_at truncated_nonce output start (start + nonce_size);
    '(pos, output) ← write_ranges ranges (start + nonce_size)%nat output;
    _ ← index output pos;
    let output := <[pos := Z.of_nat supplemental_size]> output in
    tail ← slice output (pos + 1) (length output);
    if (length tail =? length MARKER)%nat then Ok (take (pos + 1) output ++ MARKER) else Panic.

Record ParsedFrame := {
  encrypted : bool;
  truncated_nonce : Z;
  interleaved_frame : bytes;
  ranges : list UnencryptedRange;
  tag : bytes;
}.

Definition plain_frame (frame : bytes) : ParsedFrame :=
  {| encrypted := false; truncated_nonce := 0; interleaved_frame := frame; ranges := []; tag := [] |}.

(** [parse_unencrypted_ranges]: every turn consumes at least two bytes. *)
Fixpoint parse_ranges_loop (fuel : nat) (b : bytes) (frame_len previous_end : nat)
    (acc : list UnencryptedRange) : res FrameDecryptError (list UnencryptedRange) :=
  match fuel with
  | O => Panic
  | S fuel =>
      match b with
      | [] => Ok acc
      | _ =>
          o ← ok_or MalformedFrame (read b);
          b ← slice b (Uleb128.len o) (length b);
          l ← ok_or MalformedFrame (read b);
          b ← slice b (Uleb128.len l) (length b);
          let off := value o in
          let n := value l in
          if off + n >=? u64_mod then Err MalformedFrame
          else if (off <? Z.of_nat previous_end) || (off + n >? Z.of_nat frame_len) then Err MalformedFrame
          else
            let r := {| offset := Z.to_nat off; Interleave.len := Z.to_nat n |} in
            parse_ranges_loop fuel b frame_len (range_end r) (acc ++ [r])
      end
  end.

Definition parse_unencrypted_ranges (b : bytes) (frame_len : nat) : res FrameDecryptError (list UnencryptedRange) :=
  parse_ranges_loop (S (length b)) b frame_len 0 [].

(** [FrameParseScratch::parse] *)
Definition parse (frame : bytes) : res FrameDecryptError ParsedFrame :=
  let n := length frame in
  if (n <? SUPPLEMENTAL_BASE_BYTES)%nat then Ok (plain_frame frame)
  else
    marker ← slice frame (n - length MARKER) n;
    if negb (bool_decide (marker = MARKER)) then Ok (plain_frame frame)
    else
      size_byte ← index frame (n - length MARKER - 1);
      let supplemental_size := Z.to_nat size_byte in
      if ((supplemental_size <? SUPPLEMENTAL_BASE_BYTES) || (n <? supplemental_size))%nat then Ok (plain_frame frame)
      else
        supplemental ← slice frame (n - supplemental_size) n;
        tag ← slice supplemental 0 TAG_BYTES;
        nonce_and_ranges ← slice supplemental TAG_BYTES (length supplemental - length MARKER - 1);
        match read nonce_and_ranges with
        | None => Ok (plain_frame frame)
        | Some nonce =>
            if value nonce >? u32_mod - 1 then Ok (plain_frame frame)
            else
              interleaved ← slice frame 0 (n - supplemental_size);
              range_bytes ← slice nonce_and_ranges (Uleb128.len nonce) (length nonce_and_ranges);
              match parse_unencrypted_ranges range_bytes (length interleaved) with
              | Ok rs => Ok {| encrypted := true; truncated_nonce := value nonce;
                               interleaved_frame := interleaved; ranges := rs; tag := tag |}
              | Err MalformedFrame => Ok (plain_frame frame)
              | Err e => Err e
              | Panic => Panic
              end
        end.

(** [FrameCipher] *)
Section Cipher.
Context `{A : FrameAead}.

Definition frame_cipher_new (key : bytes) : res FrameDecryptError aead :=
  if negb (length key =? KEY_BYTES)%nat then Err InvalidDecryptKey else Ok (aead_new key).

(** [encrypt_processed]: the encrypted frame, and the processor with its
    ciphertext buffer filled. *)
Definition encrypt_processed (c : aead) (nonce : Z) (p : OutboundFrameProcessor)
    : res EncryptError (bytes * OutboundFrameProcessor) :=
  let '(ct, tag) := aead_encrypt c (nonce_from_truncated nonce) (unencrypted_bytes p) (encrypted_bytes p) in
  let p := set_ciphertext ct p in
  output ← reconstruct_encrypted_frame p;
  output ← write_supplemental_tail nonce (unencrypted_ranges p) (output ++ tag);
  Ok (output, p).

Definition decrypt_contiguous_into (c : aead) (generation : Z) (pf : ParsedFrame) : res FrameDecryptError bytes :=
  ok_or (AeadFailed generation)
    (aead_decrypt c (nonce_from_truncated (truncated_nonce pf)) [] (interleaved_frame pf) (tag pf)).

Definition decrypt_into (c : aead) (generation : Z) (pf : ParsedFrame) : res FrameDecryptError bytes :=
  match ranges pf with
  | [] => decrypt_contiguous_into c generation pf
  | _ =>
      '(authenticated, secret) ← split (ranges pf) (interleaved_frame pf);
      plain ← ok_or (AeadFailed generation)
                (aead_decrypt c (nonce_from_truncated (truncated_nonce pf)) authenticated secret (tag pf));
      reconstruct (ranges pf) authenticated plain
  end.

End Cipher.

(** *** Lemmas: the supplemental tail *)
Definition ranges_bytes (rs : list UnencryptedRange) : bytes :=
  concat ((fun r => encode (Z.of_nat (offset r)) ++ encode (Z.of_nat (Interleave.len r))) <$> rs).

Definition range_u64 (r : UnencryptedRange) : Prop := Z.of_nat (range_end r) < u64_mod.

Lemma range_u64_parts r :
  range_u64 r -> is_u64 (Z.of_nat (offset r)) /\ is_u64 (Z.of_nat (Interleave.len r)).
Proof. unfold range_u64, range_end, is_u64. lia. Qed.

Lemma ranges_wf_u64 from rs n :
  ranges_wf from rs n -> Z.of_nat n < u64_mod -> Forall range_u64 rs.
Proof.
  revert from. induction rs as [|r rs IH]; intros from; simpl; [constructor|].
  intros [_ Hwf] Hn. pose proof (ranges_wf_le _ _ _ Hwf). constructor; [unfold range_u64; lia|eauto].
Qed.

Lemma unencrypted_ranges_size_spec rs :
  Forall range_u64 rs -> unencrypted_ranges_size rs = length (ranges_bytes rs).
Proof.
  unfold unencrypted_ranges_size, ranges_bytes.
  induction 1 as [|r rs [Ho Hl]%range_u64_parts Hrs IH]; [done|].
  rewrite !fmap_cons. cbn [sum_list concat]. rewrite IH, !length_app, !encoded_len_encode by done. done.
Qed.

Lemma write_uleb_at_ok v pre part post a b :
  is_u64 v -> (length (encode v) <= length part)%nat -> a = length pre -> b = (length pre + length part)%nat ->
  write_uleb_at v (pre ++ part ++ post) a b =
    Ok (length (encode v), pre ++ encode v ++ drop (length (encode v)) part ++ post).
Proof.
  intros Hv Hl -> ->. unfold write_uleb_at. rewrite slice_app by done. cbn [mbind res_mbind].
  rewrite write_to_encode by done. rewrite take_app_length.
  replace (drop (length pre + length part) (pre ++ part ++ post)) with post.
  - by rewrite <- app_assoc.
  - rewrite <- drop_drop, drop_app_length. by rewrite drop_app_length.
Qed.

Lemma write_ranges_ok rs pre rest :
  Forall range_u64 rs -> (length (ranges_bytes rs) <= length rest)%nat ->
  write_ranges rs (length pre) (pre ++ rest) =
    Ok ((length pre + length (ranges_bytes rs))%nat,
        pre ++ ranges_bytes rs ++ drop (length (ranges_bytes rs)) rest).
Proof.
  intros H. revert pre rest.
  induction H as [|r rs [Ho Hl]%range_u64_parts Hrs IH]; intros pre rest Hlen.
  - cbn. by rewrite Nat.add_0_r.
  - cbn [write_ranges]. change (ranges_bytes (r :: rs))
      with ((encode (Z.of_nat (offset r)) ++ encode (Z.of_nat (Interleave.len r))) ++ ranges_bytes rs) in *.
    rewrite !length_app in Hlen.
    pose proof (write_uleb_at_ok (Z.of_nat (offset r)) pre rest [] (length pre) (length (pre ++ rest)) Ho) as H1.
    rewrite !app_nil_r in H1. rewrite H1 by llia. cbn [mbind res_mbind].
    set (pre1 := pre ++ encode (Z.of_nat (offset r))).
    set (rest1 := drop (length (encode (Z.of_nat (offset r)))) rest).
    assert (length rest1 = length rest - length (encode (Z.of_nat (offset r))))%nat by (unfold rest1; llia).
    replace (pre ++ encode (Z.of_nat (offset r)) ++ rest1) with (pre1 ++ rest1) by (unfold pre1; by rewrite <- app_assoc).
    replace (length pre + length (encode (Z.of_nat (offset r))))%nat with (length pre1) by (unfold pre1; llia).
    pose proof (write_uleb_at_ok (Z.of_nat (Interleave.len r)) pre1 rest1 [] (length pre1) (length (pre1 ++ rest1)) Hl) as H2.
    rewrite !app_nil_r in H2. rewrite H2 by (rewrite ?length_app; lia). cbn [mbind res_mbind].
    rewrite app_assoc.
    replace (length pre1 + length (encode (Z.of_nat (Interleave.len r))))%nat
      with (length (pre1 ++ encode (Z.of_nat (Interleave.len r)))) by llia.
    rewrite IH by llia. unfold pre1, rest1. rewrite !length_app, !drop_drop, <- !app_assoc.
    f_equal. f_equal; [lia|]. by rewrite Nat.add_assoc.
Qed.

Definition supplemental_size (nonce : Z) (rs : list UnencryptedRange) : nat :=
  (TAG_BYTES + encoded_len nonce + unencrypted_ranges_size rs + 1 + length MARKER)%nat.

Definition supplemental_tail (nonce : Z) (rs : list UnencryptedRange) : bytes :=
  encode nonce ++ ranges_bytes rs ++ [Z.of_nat (supplemental_size nonce rs)] ++ MARKER.

Lemma length_supplemental_tail nonce rs :
  is_u32 nonce -> Forall range_u64 rs ->
  (TAG_BYTES + length (supplemental_tail nonce rs))%nat = supplemental_size nonce rs.
Proof.
  intros Hn Hrs. unfold supplemental_tail, supplemental_size. rewrite !length_app.
  rewrite encoded_len_encode, unencrypted_ranges_size_spec by (done || (unfold is_u32, is_u64, u32_mod, u64_mod in *; lia)).
  cbn [length]. lia.
Qed.

Lemma write_supplemental_tail_ok nonce rs output :
  is_u64 nonce -> Forall range_u64 rs -> (supplemental_size nonce rs <= 255)%nat ->
  write_supplemental_tail nonce rs output = Ok (output ++ supplemental_tail nonce rs).
Proof.
  intros Hn Hrs Hsz. unfold write_supplemental_tail, supplemental_tail. fold (supplemental_size nonce rs).
  rewrite (proj2 (Nat.ltb_ge _ _)) by done.
  rewrite encoded_len_encode, unencrypted_ranges_size_spec by done.
  replace (replicate (length (encode nonce) + length (ranges_bytes rs) + 1 + length MARKER) 0)
    with (replicate (length (encode nonce)) 0 ++ replicate (length (ranges_bytes rs) + 3) 0)
    by (rewrite <- replicate_add; f_equal; simpl; lia).
  rewrite write_uleb_at_ok by (rewrite ?length_replicate; done || lia). cbn [mbind res_mbind].
  rewrite (drop_ge (replicate _ _)) by (rewrite length_replicate; done). rewrite app_nil_l, app_assoc.
  replace (length output + length (encode nonce))%nat with (length (output ++ encode nonce)) by llia.
  rewrite write_ranges_ok by (rewrite ?length_replicate; done || lia). cbn [mbind res_mbind].
  replace (drop (length (ranges_bytes rs)) (replicate (length (ranges_bytes rs) + 3) 0)) with [0; 0; 0]
    by (rewrite drop_replicate; by replace (length (ranges_bytes rs) + 3 - length (ranges_bytes rs))%nat with 3%nat by lia).
  rewrite app_assoc. rewrite index_app by llia. cbn [mbind res_mbind].
  rewrite <- length_app, insert_app_r_alt, Nat.sub_diag by lia. cbn [insert list_insert].
  change (?x :: [0; 0]) with ([x] ++ [0; 0]). rewrite app_assoc.
  rewrite slice_app_r by llia. cbn [mbind res_mbind length MARKER Nat.eqb].
  rewrite take_app_length' by llia. by rewrite <- !app_assoc.
Qed.

(** *** Lemmas: the parser *)
Lemma parse_ranges_loop_ok fuel rs n prev acc :
  (length (ranges_bytes rs) < fuel)%nat -> Z.of_nat n < u64_mod -> ranges_wf prev rs n ->
  parse_ranges_loop fuel (ranges_bytes rs) n prev acc = Ok (acc ++ rs).
Proof.
  revert rs prev acc. induction fuel as [|fuel IH]; intros rs prev acc Hf Hn Hwf; [lia|].
  destruct rs as [|r rs]; [cbn; by rewrite app_nil_r|].
  pose proof (ranges_wf_u64 _ _ _ Hwf Hn) as [Hr Hrs]%Forall_cons.
  pose proof (range_u64_parts _ Hr) as [Ho Hl].
  destruct Hwf as [Hoff Hwf]. pose proof (ranges_wf_le _ _ _ Hwf) as Hle.
  change (ranges_bytes (r :: rs))
    with ((encode (Z.of_nat (offset r)) ++ encode (Z.of_nat (Interleave.len r))) ++ ranges_bytes rs) in *.
  set (eo := encode (Z.of_nat (offset r))) in *. set (el := encode (Z.of_nat (Interleave.len r))) in *.
  assert (0 < length eo)%nat by (unfold eo; rewrite <- encoded_len_encode by done; pose proof (encoded_len_pos (Z.of_nat (offset r))); lia).
  rewrite <- app_assoc. rewrite !length_app in Hf. cbn [parse_ranges_loop].
  destruct (eo ++ el ++ ranges_bytes rs) eqn:Hb.
  { apply (f_equal length) in Hb. rewrite length_app in Hb. simpl in Hb. lia. }
  rewrite <- Hb. assert (read (eo ++ el ++ ranges_bytes rs) = Some {| value := Z.of_nat (offset r); len := length eo |})
    as -> by by apply read_encode. cbn [ok_or mbind res_mbind Uleb128.len Uleb128.value].
  rewrite slice_app_r by llia. cbn [mbind res_mbind].
  assert (read (el ++ ranges_bytes rs) = Some {| value := Z.of_nat (Interleave.len r); len := length el |})
    as -> by by apply read_encode. cbn [ok_or mbind res_mbind Uleb128.len Uleb128.value].
  rewrite slice_app_r by llia. cbn [mbind res_mbind].
  unfold range_u64, range_end in *. rewrite Z.geb_leb, Z.gtb_ltb.
  rewrite (proj2 (Z.leb_gt _ _)), (proj2 (Z.ltb_ge _ _)), (proj2 (Z.ltb_ge _ _)) by lia. cbn [orb].
  rewrite !Nat2Z.id. replace {| offset := offset r; Interleave.len := Interleave.len r |} with r by by destruct r.
  rewrite IH by (done || lia). by rewrite <- app_assoc.
Qed.

(** The parser reads back a frame with a well-formed supplemental tail. *)
Lemma parse_frame body tag nonce rs :
  length tag = TAG_BYTES -> is_u32 nonce -> ranges_wf 0 rs (length body) ->
  Z.of_nat (length body) < u64_mod -> (supplemental_size nonce rs <= 255)%nat ->
  parse (body ++ tag ++ supplemental_tail nonce rs) =
    Ok {| encrypted := true; truncated_nonce := nonce; interleaved_frame := body;
          ranges := rs; FrameFormat.tag := tag |}.
Proof.
  intros Ht Hn Hwf Hb Hsz. pose proof (ranges_wf_u64 _ _ _ Hwf Hb) as Hrs.
  assert (Hn64 : is_u64 nonce) by (unfold is_u32, is_u64, u32_mod, u64_mod in *; lia).
  unfold parse, supplemental_tail.
  assert (Hsize : supplemental_size nonce rs = (8 + length (encode nonce) + length (ranges_bytes rs) + 3)%nat).
  { unfold supplemental_size. rewrite encoded_len_encode, unencrypted_ranges_size_spec by done. simpl. lia. }
  set (nr := encode nonce ++ ranges_bytes rs).
  set (supp := tag ++ nr ++ [Z.of_nat (supplemental_size nonce rs)] ++ MARKER).
  assert (Hf : body ++ tag ++ encode nonce ++ ranges_bytes rs ++ [Z.of_nat (supplemental_size nonce rs)] ++ MARKER
               = body ++ supp) by (unfold supp, nr; by rewrite <- !app_assoc).
  rewrite Hf. unfold TAG_BYTES in Ht.
  assert (Hls : length supp = supplemental_size nonce rs) by (unfold supp, nr; rewrite !length_app, Ht, Hsize; simpl; lia).
  rewrite length_app, Hls. unfold SUPPLEMENTAL_BASE_BYTES, TAG_BYTES.
  rewrite (proj2 (Nat.ltb_ge _ _)) by (simpl; lia).
  assert (Hm : body ++ supp = (body ++ tag ++ nr ++ [Z.of_nat (supplemental_size nonce rs)]) ++ MARKER)
    by (unfold supp; by rewrite <- !app_assoc).
  rewrite Hm, slice_app_r by (unfold nr; rewrite !length_app, Ht, Hsize; simpl; lia). cbn [mbind res_mbind].
  rewrite bool_decide_eq_true_2 by done. cbn [negb].
  replace ((body ++ tag ++ nr ++ [Z.of_nat (supplemental_size nonce rs)]) ++ MARKER)
    with ((body ++ tag ++ nr) ++ Z.of_nat (supplemental_size nonce rs) :: MARKER) by by rewrite <- !app_assoc.
  rewrite index_app by (unfold nr; rewrite !length_app, Ht, Hsize; simpl; lia). cbn [mbind res_mbind].
  rewrite Nat2Z.id. rewrite !(proj2 (Nat.ltb_ge _ _)) by (simpl; lia). cbn [orb].
  replace ((body ++ tag ++ nr) ++ Z.of_nat (supplemental_size nonce rs) :: MARKER) with (body ++ supp)
    by (unfold supp; by rewrite <- !app_assoc).
  rewrite (slice_app_r body supp _ (length body + supplemental_size nonce rs)) by (rewrite ?Hls; lia). cbn [mbind res_mbind].
  assert (slice (E := FrameDecryptError) supp 0 8 = Ok tag) as -> by (apply slice_app_l; lia).
  cbn [mbind res_mbind].
  assert (slice (E := FrameDecryptError) supp 8 (length supp - length MARKER - 1) = Ok nr) as ->
    by (apply slice_app; rewrite ?Hls, ?Ht, ?Hsize; unfold nr; rewrite ?length_app; simpl; lia).
  cbn [mbind res_mbind]. unfold nr. rewrite read_encode by done. cbn [Uleb128.value Uleb128.len].
  rewrite Z.gtb_ltb, (proj2 (Z.ltb_ge _ _)) by (unfold is_u32 in Hn; lia).
  rewrite slice_app_l by lia. cbn [mbind res_mbind].
  rewrite slice_app_r by (rewrite ?length_app; lia). cbn [mbind res_mbind].
  unfold parse_unencrypted_ranges. by rewrite parse_ranges_loop_ok by (done || lia).
Qed.

Lemma all_bytes_drop n (l : bytes) : all_bytes l -> all_bytes (drop n l).
Proof. apply Forall_drop. Qed.

Lemma all_bytes_take n (l : bytes) : all_bytes l -> all_bytes (take n l).
Proof. apply Forall_take. Qed.

(** The turn of the range loop, for any input. *)
Lemma parse_ranges_loop_sound fuel b n prev acc :
  (length b < fuel)%nat -> all_bytes b -> (prev <= n)%nat ->
  parse_ranges_loop fuel b n prev acc = Err MalformedFrame \/
  exists rs, parse_ranges_loop fuel b n prev acc = Ok (acc ++ rs) /\ ranges_wf prev rs n.
Proof.
  revert b prev acc. induction fuel as [|fuel IH]; intros b prev acc Hfu Hb Hp; cbn [parse_ranges_loop].
  { lia. }
  destruct b as [|x b'] eqn:Eb; [right; exists []; by rewrite app_nil_r|]. rewrite <- Eb in *. clear Eb x b'.
  destruct (read b) as [o|] eqn:Ho; [|by left]. cbn [ok_or mbind res_mbind].
  pose proof (read_value _ _ Hb Ho) as Vo. pose proof (read_len _ _ Ho).
  rewrite slice_ok by lia. cbn [mbind res_mbind].
  set (b1 := take _ _). assert (Hb1 : all_bytes b1) by (by apply all_bytes_take, all_bytes_drop).
  destruct (read b1) as [l|] eqn:Hl; [|by left]. cbn [ok_or mbind res_mbind].
  pose proof (read_value _ _ Hb1 Hl) as Vl. pose proof (read_len _ _ Hl).
  rewrite slice_ok by lia. cbn [mbind res_mbind]. unfold is_u64 in *.
  rewrite Z.geb_leb, Z.gtb_ltb.
  destruct (Z.leb_spec u64_mod (value o + value l)); [by left|].
  destruct (Z.ltb_spec (value o) (Z.of_nat prev)); [by left|].
  destruct (Z.ltb_spec (Z.of_nat n) (value o + value l)); [by left|]. cbn [orb].
  set (r := {| offset := _; Interleave.len := _ |}). set (b2 := take _ (drop _ b1)).
  destruct (IH b2 (range_end r) (acc ++ [r])) as [->|(rs & -> & Hwf)].
  - unfold b2, b1. rewrite !length_take, !length_drop. lia.
  - by apply all_bytes_take, all_bytes_drop.
  - unfold range_end, r. simpl. lia.
  - by left.
  - right. exists (r :: rs). rewrite <- app_assoc. split; [done|]. split; [unfold r; simpl; lia|done].
Qed.

(** What [parse] promises for arbitrary input. *)
Definition parsed_ok (frame : bytes) (pf : ParsedFrame) : Prop :=
  if encrypted pf then
    is_u32 (truncated_nonce pf) /\ length (tag pf) = TAG_BYTES /\
    ranges_wf 0 (ranges pf) (length (interleaved_frame pf)) /\
    exists tail, frame = interleaved_frame pf ++ tag pf ++ tail
  else pf = plain_frame frame.

Lemma parse_sound frame :
  all_bytes frame -> exists pf, parse frame = Ok pf /\ parsed_ok frame pf.
Proof.
  intros Hb. assert (Hplain : exists pf, Ok (E := FrameDecryptError) (plain_frame frame) = Ok pf /\ parsed_ok frame pf)
    by (by exists (plain_frame frame)).
  unfold parse. remember (length frame) as n eqn:Hlen.
  change SUPPLEMENTAL_BASE_BYTES with 11%nat. change (length MARKER) with 2%nat.
  destruct (Nat.ltb_spec n 11) as [|Hn]; [done|].
  rewrite slice_ok by lia. cbn [mbind res_mbind]. case_bool_decide; [|done]. cbn [negb].
  destruct (lookup_lt_is_Some_2 frame (n - 2 - 1)) as [sz Hsz]; [lia|].
  unfold index. rewrite Hsz. cbn [unwrap mbind res_mbind].
  set (ss := Z.to_nat sz). destruct (Nat.ltb_spec ss 11); [done|].
  destruct (Nat.ltb_spec n ss); [done|]. cbn [orb].
  rewrite (slice_ok frame (n - ss) n) by lia. cbn [mbind res_mbind].
  set (supp := take _ _). assert (Hls : length supp = ss) by (unfold supp; llia).
  assert (Hsupp : supp = drop (n - ss) frame) by (unfold supp; apply take_ge; llia).
  assert (Hbs : all_bytes supp) by (by apply all_bytes_take, all_bytes_drop).
  unfold TAG_BYTES. rewrite (slice_ok supp 0 8), (slice_ok supp 8) by lia. cbn [mbind res_mbind].
  set (nr := take _ (drop 8 supp)). assert (Hbn : all_bytes nr) by (by apply all_bytes_take, all_bytes_drop).
  destruct (read nr) as [d|] eqn:Hd; [|done].
  pose proof (read_value _ _ Hbn Hd) as Vd. pose proof (read_len _ _ Hd). unfold is_u64 in Vd.
  rewrite Z.gtb_ltb. destruct (Z.ltb_spec (u32_mod - 1) (value d)); [done|].
  rewrite (slice_ok frame 0), (slice_ok nr) by lia. cbn [mbind res_mbind].
  unfold parse_unencrypted_ranges.
  match goal with |- context [parse_ranges_loop ?f ?b ?m 0 []] =>
    destruct (parse_ranges_loop_sound f b m 0 []) as [->|(rs & -> & Hwf)] end.
  - lia.
  - by apply all_bytes_take, all_bytes_drop.
  - lia.
  - done.
  - eexists. split; [done|]. unfold parsed_ok. cbn [encrypted truncated_nonce interleaved_frame ranges tag].
    split; [unfold is_u32; lia|]. split; [rewrite length_take, length_drop; unfold TAG_BYTES; lia|].
    split; [exact Hwf|].
    exists (drop 8 supp). rewrite !drop_0, !Nat.sub_0_r, take_drop, Hsupp. by rewrite take_drop.
Qed.

(** *** The frame cipher *)
Section CipherProps.
Context `{A : FrameAead} {HA : FrameAeadLaws A}.

Lemma decrypt_into_split c gen pf clear secret :
  split (E := FrameDecryptError) (ranges pf) (interleaved_frame pf) = Ok (clear, secret) ->
  decrypt_into c gen pf =
    (plain ← ok_or (AeadFailed gen)
       (aead_decrypt c (nonce_from_truncated (truncated_nonce pf)) clear secret (tag pf));
     reconstruct (ranges pf) clear plain).
Proof.
  unfold decrypt_into, decrypt_contiguous_into. destruct (ranges pf) as [|r rs] eqn:Hr; [|by intros ->].
  unfold split, reconstruct. cbn [split_loop reconstruct_loop].
  assert (Hs : forall l : bytes, (if (0 <? length l)%nat then rest ← slice l 0 (length l); Ok ([], [] ++ rest) else Ok ([], []))
               = Ok (E := FrameDecryptError) ([] : bytes, l)).
  { intros l. rewrite slice_all. by destruct l. }
  rewrite Hs. intros [= <- <-].
  destruct (aead_decrypt c _ [] (interleaved_frame pf) (tag pf)) as [plain|]; [|done].
  cbn [ok_or mbind res_mbind]. rewrite slice_all. by destruct plain.
Qed.

(** Decrypting whatever the parser lets through cannot panic: the result is a
    frame of the length of the interleaved one, or an authentication failure. *)
Lemma decrypt_into_total c gen pf frame :
  parsed_ok frame pf -> encrypted pf = true ->
  decrypt_into c gen pf = Err (AeadFailed gen) \/
  exists plain, decrypt_into c gen pf = Ok plain /\ length plain = length (interleaved_frame pf).
Proof.
  unfold parsed_ok. intros H He. rewrite He in H. destruct H as (_ & _ & Hwf & _).
  pose proof (length_mask0 _ _ Hwf) as Hm. destruct (length_choose _ _ Hm) as [H1 H2].
  erewrite decrypt_into_split by by apply split_spec.
  destruct (aead_decrypt _ _ _ _ _) as [plain|] eqn:Hd; [|by left]. cbn [ok_or mbind res_mbind]. right.
  apply aead_decrypt_length in Hd.
  rewrite reconstruct_spec with (n := length (interleaved_frame pf)) by (done || lia).
  eexists. split; [done|]. etrans; [|exact Hm]. apply choose_merge; lia.
Qed.

(** A frame encrypted from a processor that holds [l] parses as an encrypted
    frame and decrypts to [l]. *)
Lemma encrypt_processed_roundtrip c nonce p l :
  holds p l -> is_u32 nonce -> Z.of_nat (length l) < u64_mod ->
  (supplemental_size nonce (unencrypted_ranges p) <= 255)%nat ->
  exists out ct pf,
    encrypt_processed c nonce p = Ok (out, set_ciphertext ct p) /\
    length out = (length l + supplemental_size nonce (unencrypted_ranges p))%nat /\
    parse out = Ok pf /\ parsed_ok out pf /\ encrypted pf = true /\ truncated_nonce pf = nonce /\
    forall gen, decrypt_into c gen pf = Ok l.
Proof.
  intros Hp Hn Hl Hsz. unfold encrypt_processed.
  destruct (aead_encrypt c (nonce_from_truncated nonce) (unencrypted_bytes p) (encrypted_bytes p)) as [ct tg] eqn:He.
  destruct (aead_length _ _ _ _ _ _ He) as [Hct Htg].
  destruct (holds_reconstruct (E := EncryptError) p l ct Hp Hct) as (body & Hrec & Hlb & Hsplit).
  unfold reconstruct_encrypted_frame. cbn [unencrypted_ranges unencrypted_bytes ciphertext set_ciphertext].
  rewrite Hrec. cbn [mbind res_mbind].
  assert (Hwf : ranges_wf 0 (unencrypted_ranges p) (length body)) by (rewrite Hlb; apply Hp).
  rewrite write_supplemental_tail_ok.
  2: { unfold is_u32, is_u64, u32_mod, u64_mod in *. lia. }
  2: { eapply ranges_wf_u64; [exact Hwf|lia]. }
  2: { done. }
  cbn [mbind res_mbind]. rewrite <- app_assoc.
  do 3 eexists. split; [done|].
  split.
  { rewrite !length_app, Htg, Hlb. f_equal. apply length_supplemental_tail; [done|].
    eapply ranges_wf_u64; [exact Hwf|lia]. }
  split; [apply parse_frame; done || lia|].
  split; [split; [done|]; split; [done|]; split; [done|]; by eexists|]. split; [done|]. split; [done|]. intros gen.
  erewrite decrypt_into_split by apply Hsplit.
  cbn [truncated_nonce tag ranges]. rewrite (aead_roundtrip _ _ _ _ _ _ He). cbn [ok_or mbind res_mbind].
  by apply holds_reconstruct_self.
Qed.

Lemma encrypt_processed_too_large c nonce p l :
  holds p l -> (255 < supplemental_size nonce (unencrypted_ranges p))%nat ->
  encrypt_processed c nonce p = Err SupplementalDataTooLarge.
Proof.
  intros Hp Hsz. unfold encrypt_processed.
  destruct (aead_encrypt _ _ _ _) as [ct tg] eqn:He. destruct (aead_length _ _ _ _ _ _ He) as [Hct Htg].
  destruct (holds_reconstruct (E := EncryptError) p l ct Hp Hct) as (body & Hrec & _).
  unfold reconstruct_encrypted_frame. cbn [unencrypted_ranges unencrypted_bytes ciphertext set_ciphertext].
  rewrite Hrec. cbn [mbind res_mbind]. unfold write_supplemental_tail.
  fold (supplemental_size nonce (unencrypted_ranges p)).
  by rewrite (proj2 (Nat.ltb_lt _ _)).
Qed.

(** Nothing a peer sends can make the receive path panic: arbitrary bytes
    parse, either as a plain frame (passed through whole) or as an encrypted
    frame with a 32-bit nonce, an 8-byte tag and ordered, disjoint clear ranges
    inside the interleaved frame; decrypting the latter gives a frame of the
    interleaved length or an authentication error for that generation. *)
Theorem receive_total (k : aead) gen frame :
  all_bytes frame ->
  exists pf, parse frame = Ok pf /\ parsed_ok frame pf /\
    (encrypted pf = true ->
     decrypt_into k gen pf = Err (AeadFailed gen) \/
     exists plain, decrypt_into k gen pf = Ok plain /\ length plain = length (interleaved_frame pf)).
Proof.
  intros Hb. destruct (parse_sound frame Hb) as (pf & ? & ?). exists pf. split; [done|]. split; [done|].
  intros He. by eapply decrypt_into_total.
Qed.

End CipherProps.

Import Sample.

Lemma receive_total_witness :
  exists pf, parse [1; 2; 3; 0; 0; 0; 0; 0; 0; 0; 0; 5; 0; 2; 14; 0xFA; 0xFA] = Ok pf /\
    parsed_ok [1; 2; 3; 0; 0; 0; 0; 0; 0; 0; 0; 5; 0; 2; 14; 0xFA; 0xFA] pf /\
    (encrypted pf = true ->
     decrypt_into (aead_new (replicate 16 7)) 3 pf = Err (AeadFailed 3) \/
     exists plain, decrypt_into (aead_new (replicate 16 7)) 3 pf = Ok plain /\
                   length plain = length (interleaved_frame pf)).
Proof. apply receive_total. solve_bytes. Defined.

End FrameFormat.
