(* ===== verification/FrameCodec.v ===== *)
(** * Per-codec frame processing (dave/src/frame.rs)

    Which bytes of an outbound frame stay in clear, codec by codec, the
    fallback that encrypts everything, and the check that an encrypted
    H.264/H.265 frame contains no start code made of ciphertext.  Every index and slice
    expression of the source is a panicking access here; [process_total] shows
    that none of them can fail. *)

From S2P Require Import Prelude Leb128 Codec Gcm Frame.
Import Interleave Processor AnnexB.

(** ** H.264 picture parameter set prefix *)
Definition EMULATION_PREVENTION_BYTE : Z := 0x03.

(** The loop of [bytes_covering_h264_pps].  [bit_index] grows on every turn, so
    [8 * length payload] turns are enough. *)
Fixpoint pps_loop {E} (fuel : nat) (payload : bytes) (bit_index zero_bit_count parsed_values : nat)
    : res E (option nat) :=
  match fuel with
  | O => Panic
  | S fuel =>
      if ((bit_index <? length payload * 8) && (parsed_values <? 3))%nat then
        let byte_index := (bit_index / 8)%nat in
        let intra_byte_index := (bit_index mod 8)%nat in
        payload_byte ← index payload byte_index;
        skip ← (if ((intra_byte_index =? 0) && (2 <=? byte_index))%nat && (payload_byte =? EMULATION_PREVENTION_BYTE)
                then b1 ← index payload (byte_index - 1);
                     if b1 =? 0 then b2 ← index payload (byte_index - 2); Ok (b2 =? 0) else Ok false
                else Ok false);
        if skip : bool then pps_loop fuel payload (bit_index + 8) zero_bit_count parsed_values
        else if Z.land payload_byte (Z.shiftl 1 (7 - Z.of_nat intra_byte_index)) =? 0 then
          if (32 <=? zero_bit_count + 1)%nat then Ok None
          else pps_loop fuel payload (bit_index + 1) (zero_bit_count + 1) parsed_values
        else pps_loop fuel payload (bit_index + (1 + zero_bit_count)) 0 (parsed_values + 1)
      else Ok (if (parsed_values =? 3)%nat then Some (bit_index / 8 + 1)%nat else None)
  end.

Definition bytes_covering_h264_pps {E} (payload : bytes) : res E (option nat) :=
  pps_loop (S (length payload * 8)) payload 0 0 0.

(** ** The H.26x codecs ([H26xFrameCodec]) *)
Class H26xFrameCodec := {
  NAL_HEADER_BYTES : nat;
  nal_type : Z -> Z;
  encrypted_payload_unencrypted_prefix : forall {E}, bytes -> res E (option nat);
  encrypts_payload : Z -> bool;
}.

Definition h264_prefix {E} (nalu : bytes) : res E (option nat) :=
  if (1 <=? length nalu)%nat then
    pps ← bytes_covering_h264_pps (drop 1 nalu);
    Ok (match pps with Some n => Some (1 + n)%nat | None => None end)
  else Ok None.

Definition H264_codec : H26xFrameCodec := {|
  NAL_HEADER_BYTES := 1;
  nal_type := fun header => Z.land header 0x1f;
  encrypted_payload_unencrypted_prefix := fun E nalu => h264_prefix nalu;
  encrypts_payload := fun t => (t =? 1) || (t =? 5);
|}.

Definition H265_codec : H26xFrameCodec := {|
  NAL_HEADER_BYTES := 2;
  nal_type := fun header => Z.shiftr (Z.land header 0x7e) 1;
  encrypted_payload_unencrypted_prefix := fun E nalu =>
    Ok (if (2 <=? length nalu)%nat then Some 2%nat else None);
  encrypts_payload := fun t => t <? 32;
|}.

(** The [while] loop of [process_h26x_frame]; [start nalu] grows on every turn. *)
Fixpoint process_h26x_loop {E} (C : H26xFrameCodec) (fuel : nat) (frame : bytes) (nalu : H26xNalu)
    (p : OutboundFrameProcessor) : res E (FrameProcessResult * OutboundFrameProcessor) :=
  match fuel with
  | O => Panic
  | S fuel =>
      if (start nalu <? length frame - 1)%nat then
        header ← index frame (start nalu);
        let p := add_unencrypted_bytes H26X_LONG_START_CODE p in
        nxt ← find_next_nalu frame (start nalu);
        let next_start := match nxt with
                          | Some n => (start n - start_code_len n)%nat
                          | None => length frame
                          end in
        '(result, p) ←
          (if encrypts_payload (nal_type header) then
             unit ← slice frame (start nalu) next_start;
             prefix ← encrypted_payload_unencrypted_prefix unit;
             match prefix with
             | None => Ok (FallbackAllEncrypted, p)
             | Some unencrypted =>
                 if (next_start <? start nalu + unencrypted)%nat then Ok (FallbackAllEncrypted, p)
                 else
                   clear ← slice frame (start nalu) (start nalu + unencrypted);
                   secret ← slice frame (start nalu + unencrypted) next_start;
                   Ok (Processed, add_encrypted_bytes secret (add_unencrypted_bytes clear p))
             end
           else
             clear ← slice frame (start nalu) next_start;
             Ok (Processed, add_unencrypted_bytes clear p));
        match result, nxt with
        | FallbackAllEncrypted, _ => Ok (FallbackAllEncrypted, p)
        | Processed, None => Ok (Processed, p)
        | Processed, Some n => process_h26x_loop C fuel frame n p
        end
      else Ok (Processed, p)
  end.

Definition process_h26x_frame {E} (C : H26xFrameCodec) (frame : bytes) (p : OutboundFrameProcessor)
    : res E (FrameProcessResult * OutboundFrameProcessor) :=
  if (length frame <? H26X_SHORT_START_SEQUENCE_BYTES + NAL_HEADER_BYTES)%nat then Ok (FallbackAllEncrypted, p)
  else
    first ← find_next_nalu frame 0;
    match first with
    | None => Ok (FallbackAllEncrypted, p)
    | Some nalu => process_h26x_loop C (S (length frame)) frame nalu p
    end.

Definition process_h264_frame {E} := process_h26x_frame (E := E) H264_codec.
Definition process_h265_frame {E} := process_h26x_frame (E := E) H265_codec.

(** ** Opus, VP9 and VP8 *)
Definition process_fully_encrypted_frame {E} (frame : bytes) (p : OutboundFrameProcessor)
    : res E (FrameProcessResult * OutboundFrameProcessor) :=
  Ok (Processed, add_encrypted_bytes frame p).

Definition process_vp8_frame {E} (frame : bytes) (p : OutboundFrameProcessor)
    : res E (FrameProcessResult * OutboundFrameProcessor) :=
  if (length frame =? 0)%nat then Ok (FallbackAllEncrypted, p)
  else
    b ← index frame 0;
    let unencrypted := if Z.land b 0x01 =? 0 then 10%nat else 1%nat in
    if (length frame <? unencrypted)%nat then Ok (FallbackAllEncrypted, p)
    else
      clear ← slice frame 0 unencrypted;
      secret ← slice frame unencrypted (length frame);
      Ok (Processed, add_encrypted_bytes secret (add_unencrypted_bytes clear p)).

(** ** AV1 *)
Definition OBU_HAS_EXTENSION : Z := 0x04.
Definition OBU_HAS_SIZE : Z := 0x02.
Definition OBU_TYPE_MASK : Z := 0x78.

Definition obu_type_of (header : Z) : Z := Z.shiftr (Z.land header OBU_TYPE_MASK) 3.

(** Temporal delimiter, tile list, padding. *)
Definition obu_dropped (obu_type : Z) : bool := (obu_type =? 2) || (obu_type =? 8) || (obu_type =? 15).

(** [obu_header &= !OBU_HAS_SIZE] *)
Definition clear_has_size (header : Z) : Z := Z.ldiff header OBU_HAS_SIZE.

(** The size field at [idx]: its length in bytes and its value; [None] when it
    cannot be read.  Without a size field the payload reaches the end of the
    frame. *)
Definition av1_payload_size {E} (frame : bytes) (idx : nat) (has_size : bool) : res E (option (nat * Z)) :=
  if has_size then
    rest ← slice frame idx (length frame);
    Ok (match Uleb128.read rest with
        | Some d => Some (Uleb128.len d, Uleb128.value d)
        | None => None
        end)
  else Ok (Some (O, Z.of_nat (length frame - idx))).

(** What the loop body adds to the processor for a unit that is kept; [index]
    is the position after the unit. *)
Definition av1_emit {E} (frame : bytes) (obu_header_index payload_index index : nat) (payload_size : Z)
    (has_extension has_size : bool) (obu_header : Z) (p : OutboundFrameProcessor)
    : res E (option OutboundFrameProcessor) :=
  let rewrite_without_size := (index =? length frame)%nat && has_size in
  let obu_header := if rewrite_without_size then clear_has_size obu_header else obu_header in
  let p := add_unencrypted_bytes [obu_header] p in
  p ← (if has_extension then
         ext ← slice frame (obu_header_index + 1) (obu_header_index + 2);
         Ok (add_unencrypted_bytes ext p)
       else Ok p);
  sized ← (if has_size && negb rewrite_without_size then
             match Uleb128.write_to payload_size (replicate 10 0) with
             | (None, _) => Ok None
             | (Some written, size_buffer) =>
                 w ← slice size_buffer 0 written;
                 Ok (Some (add_unencrypted_bytes w p))
             end
           else Ok (Some p));
  match sized with
  | None => Ok None
  | Some p =>
      payload ← slice frame payload_index (payload_index + Z.to_nat payload_size);
      Ok (Some (add_encrypted_bytes payload p))
  end.

Fixpoint process_av1_loop {E} (fuel : nat) (frame : bytes) (idx : nat) (p : OutboundFrameProcessor)
    : res E (FrameProcessResult * OutboundFrameProcessor) :=
  match fuel with
  | O => Panic
  | S fuel =>
      if (idx <? length frame)%nat then
        let obu_header_index := idx in
        match frame !! obu_header_index with
        | None => Ok (FallbackAllEncrypted, p)
        | Some obu_header =>
            let has_extension := has_bits obu_header OBU_HAS_EXTENSION in
            let has_size := has_bits obu_header OBU_HAS_SIZE in
            let obu_type := obu_type_of obu_header in
            let idx := (idx + 1 + if has_extension then 1 else 0)%nat in
            if (length frame <=? idx)%nat then Ok (FallbackAllEncrypted, p)
            else
              size ← av1_payload_size frame idx has_size;
              match size with
              | None => Ok (FallbackAllEncrypted, p)
              | Some (size_len, payload_size) =>
                  let payload_index := (idx + size_len)%nat in
                  if Z.of_nat payload_index + payload_size >=? u64_mod then Ok (FallbackAllEncrypted, p)
                  else if Z.of_nat payload_index + payload_size >? Z.of_nat (length frame)
                  then Ok (FallbackAllEncrypted, p)
                  else
                    let idx := (payload_index + Z.to_nat payload_size)%nat in
                    if obu_dropped obu_type then process_av1_loop fuel frame idx p
                    else
                      emitted ← av1_emit frame obu_header_index payload_index idx payload_size
                                  has_extension has_size obu_header p;
                      match emitted with
                      | None => Ok (FallbackAllEncrypted, p)
                      | Some p => process_av1_loop fuel frame idx p
                      end
              end
        end
      else Ok (Processed, p)
  end.

(** Every turn consumes the header byte at least. *)
Definition process_av1_frame {E} (frame : bytes) (p : OutboundFrameProcessor)
    : res E (FrameProcessResult * OutboundFrameProcessor) :=
  process_av1_loop (S (length frame)) frame 0 p.

(** ** Dispatch ([for_each_codec!]) *)
Definition process_frame {E} (c : MediaCodec) (frame : bytes) (p : OutboundFrameProcessor)
    : res E (FrameProcessResult * OutboundFrameProcessor) :=
  match c with
  | Opus | Vp9 => process_fully_encrypted_frame frame p
  | Vp8 => process_vp8_frame frame p
  | H264 => process_h264_frame frame p
  | H265 => process_h265_frame frame p
  | Av1 => process_av1_frame frame p
  end.

(** [OutboundFrameProcessor::process] *)
Definition process {E} (c : MediaCodec) (frame : bytes) : res E OutboundFrameProcessor :=
  '(result, p) ← process_frame c frame reset;
  let p := match result with
           | FallbackAllEncrypted => add_encrypted_bytes frame reset
           | Processed => p
           end in
  Ok (set_ciphertext (take (length (encrypted_bytes p)) (ciphertext p)
                      ++ replicate (length (encrypted_bytes p) - length (ciphertext p)) 0) p).

(** ** Validation of the encrypted frame *)
Definition PADDING : nat := H26X_SHORT_START_SEQUENCE_BYTES - 1.

Definition has_nalu {E} (window : bytes) : res E bool :=
  r ← find_next_nalu window 0; Ok (bool_decide (is_Some r)).

Fixpoint validate_loop {E} (ranges : list UnencryptedRange) (frame_index : nat) (encrypted_frame : bytes)
    (encrypted_section_start : nat) : res E bool :=
  match ranges with
  | [] =>
      if (encrypted_section_start =? frame_index)%nat then Ok true
      else
        window ← slice encrypted_frame (encrypted_section_start - PADDING) (length encrypted_frame);
        found ← has_nalu window;
        Ok (negb found)
  | r :: ranges =>
      if (encrypted_section_start =? offset r)%nat
      then validate_loop ranges frame_index encrypted_frame (encrypted_section_start + len r)
      else
        window ← slice encrypted_frame (encrypted_section_start - PADDING)
                       (Nat.min (offset r + PADDING) (length encrypted_frame));
        found ← has_nalu window;
        if found : bool then Ok false
        else validate_loop ranges frame_index encrypted_frame (range_end r)
  end.

Definition validate_h26x_encrypted_frame {E} (p : OutboundFrameProcessor) (encrypted_frame : bytes) : res E bool :=
  validate_loop (unencrypted_ranges p) (frame_index p) encrypted_frame 0.

Definition validate_processed {E} (c : MediaCodec) (p : OutboundFrameProcessor) (encrypted_frame : bytes) : res E bool :=
  match c with
  | H264 | H265 => validate_h26x_encrypted_frame p encrypted_frame
  | Opus | Vp8 | Vp9 | Av1 => Ok true
  end.

(** [MediaFrame::max_ciphertext_len] *)
Definition max_ciphertext_len (payload : bytes) : nat :=
  length payload + TAG_BYTES + Uleb128.encoded_len (u32_mod - 1) + 1 + length MARKER + TRANSFORM_PADDING_BYTES.

(** ** What processing keeps of a frame *)

(** The text after a start code, cut into NAL units.  A final unit of a single
    byte is dropped. *)
Inductive units_of : bytes -> list bytes -> Prop :=
| units_last u : (2 <= length u)%nat -> no_nalu u -> units_of u [u]
| units_short x : units_of [x] []
| units_next u c rest us :
    no_nalu u -> is_start_code c -> units_of rest us -> units_of (u ++ c ++ rest) (u :: us).

(** The NAL units behind a long start code each. *)
Definition annexb_frame (units : list bytes) : bytes :=
  mjoin ((fun u => H26X_LONG_START_CODE ++ u) <$> units).

Definition h26x_normalised (frame kept : bytes) : Prop :=
  exists junk c body units, frame = junk ++ c ++ body /\ is_start_code c /\
    units_of body units /\ kept = annexb_frame units.

(** An AV1 open bitstream unit as it occurs in a frame; [obu_size] is the size
    field as encoded. *)
Record Obu := { obu_header : Z; obu_ext : option Z; obu_size : option bytes; obu_payload : bytes }.

Definition obu_wf (o : Obu) : Prop :=
  has_bits (obu_header o) OBU_HAS_EXTENSION = bool_decide (is_Some (obu_ext o)) /\
  has_bits (obu_header o) OBU_HAS_SIZE = bool_decide (is_Some (obu_size o)) /\
  match obu_size o with
  | Some s => Uleb128.read s = Some {| Uleb128.value := Z.of_nat (length (obu_payload o)); Uleb128.len := length s |}
  | None => True
  end.

Definition obu_bytes (o : Obu) : bytes :=
  obu_header o :: option_list (obu_ext o) ++ default [] (obu_size o) ++ obu_payload o.

(** What is sent for a unit: its size field in canonical form, and no size field
    for the last unit of the frame. *)
Definition obu_kept (is_last : bool) (o : Obu) : bytes :=
  if obu_dropped (obu_type_of (obu_header o)) then []
  else
    (if is_last && bool_decide (is_Some (obu_size o)) then clear_has_size (obu_header o) else obu_header o)
    :: option_list (obu_ext o)
    ++ (if negb is_last && bool_decide (is_Some (obu_size o))
        then Uleb128.encode (Z.of_nat (length (obu_payload o))) else [])
    ++ obu_payload o.

Fixpoint obus_kept (os : list Obu) : bytes :=
  match os with
  | [] => []
  | o :: os => obu_kept (bool_decide (os = [])) o ++ obus_kept os
  end.

Definition av1_normalised (frame kept : bytes) : Prop :=
  exists os, Forall obu_wf os /\ frame = mjoin (obu_bytes <$> os) /\ kept = obus_kept os.

Definition kept_of (c : MediaCodec) (frame kept : bytes) : Prop :=
  match c with
  | Opus | Vp8 | Vp9 => kept = frame
  | H264 | H265 => kept = frame \/ h26x_normalised frame kept
  | Av1 => kept = frame \/ av1_normalised frame kept
  end.

(** ** Lemmas *)
Lemma index_lt {E} (l : bytes) i : (i < length l)%nat -> exists b, index (E := E) l i = Ok b.
Proof. intros H. destruct (index_ok (E := E) l i H) as (b & _ & ?). by exists b. Qed.

Lemma pps_loop_total {E} fuel payload bit zeros parsed :
  (length payload * 8 < fuel + bit)%nat -> (0 < fuel)%nat ->
  exists o, pps_loop (E := E) fuel payload bit zeros parsed = Ok o.
Proof.
  revert bit zeros parsed. induction fuel as [|fuel IH]; intros bit zeros parsed Hf H0; [lia|].
  cbn [pps_loop]. destruct (_ && _) eqn:Hg; [|eauto].
  apply andb_prop in Hg as [Hb%Nat.ltb_lt _].
  assert (bit / 8 < length payload)%nat by (apply Nat.Div0.div_lt_upper_bound; lia).
  destruct (index_lt (E := E) payload (bit / 8)) as [b ->]; [done|]. cbn [mbind res_mbind].
  match goal with |- context [mbind ?k ?m] => assert (exists sk, m = Ok sk) as [sk ->] end.
  { destruct (_ && _) eqn:Hs; [|eauto]. apply andb_prop in Hs as [[_ Hs%Nat.leb_le]%andb_prop _].
    destruct (index_lt (E := E) payload (bit / 8 - 1)) as [b1 ->]; [lia|]. cbn [mbind res_mbind].
    case_match; [|eauto]. destruct (index_lt (E := E) payload (bit / 8 - 2)) as [b2 ->]; [lia|]. eauto. }
  cbn [mbind res_mbind]. destruct sk; [apply IH; lia|]. case_match; [case_match; [eauto|]|]; apply IH; lia.
Qed.

Lemma prefix_total_264 {E} nalu : exists o, encrypted_payload_unencrypted_prefix (H26xFrameCodec := H264_codec) (E := E) nalu = Ok o.
Proof.
  cbn. unfold h264_prefix. case_match; [|eauto]. unfold bytes_covering_h264_pps.
  match goal with |- context [pps_loop ?f ?p 0 0 0] => destruct (pps_loop_total (E := E) f p 0 0 0) as [o ->]; [lia..|] end.
  eauto.
Qed.

Lemma prefix_total_265 {E} nalu : exists o, encrypted_payload_unencrypted_prefix (H26xFrameCodec := H265_codec) (E := E) nalu = Ok o.
Proof. eauto. Qed.

(** Clear ranges of a processed H.26x frame begin with a long start code. *)
Definition coded_ranges (p : OutboundFrameProcessor) (l : bytes) : Prop :=
  Forall (fun r => (2 <= len r)%nat /\ l !! (offset r + 1)%nat = Some 0) (unencrypted_ranges p).

Definition at_clear_end (p : OutboundFrameProcessor) : Prop :=
  exists r, last (unencrypted_ranges p) = Some r /\ range_end r = frame_index p.

Lemma coded_ranges_app p l b : coded_ranges p l -> coded_ranges p (l ++ b).
Proof. intros Hc. eapply Forall_impl; [exact Hc|]. intros r [? H]. split; [done|]. by apply lookup_app_l_Some. Qed.

Lemma coded_add_encrypted p l b : coded_ranges p l -> coded_ranges (add_encrypted_bytes b p) (l ++ b).
Proof. intros H%(coded_ranges_app _ _ b). by destruct b. Qed.

Lemma coded_add_clear p l b :
  coded_ranges p l -> at_clear_end p ->
  coded_ranges (add_unencrypted_bytes b p) (l ++ b) /\ at_clear_end (add_unencrypted_bytes b p).
Proof.
  intros H (r & Hl & He). destruct b as [|x b]; [rewrite app_nil_r; split; [done|by exists r]|].
  pose proof (coded_ranges_app _ _ (x :: b) H) as H'. unfold coded_ranges, at_clear_end, add_unencrypted_bytes, push_range in *.
  cbn [unencrypted_ranges frame_index]. destruct (unencrypted_ranges p) as [|r' rs _] using rev_ind; [done|].
  rewrite last_snoc in *. injection Hl as ->. rewrite He, Nat.eqb_refl.
  rewrite length_app. cbn [length]. rewrite Nat.add_sub, take_app_length. split.
  - apply Forall_app in H' as [H1 H2]. apply Forall_app. split; [done|]. apply Forall_cons in H2 as [[? ?] _].
    repeat constructor; cbn [offset len]; [lia|done].
  - eexists. rewrite last_snoc. split; [done|]. unfold range_end in *. cbn [offset len]. lia.
Qed.

Lemma coded_add_code p l :
  holds p l -> coded_ranges p l ->
  coded_ranges (add_unencrypted_bytes H26X_LONG_START_CODE p) (l ++ H26X_LONG_START_CODE) /\
  at_clear_end (add_unencrypted_bytes H26X_LONG_START_CODE p).
Proof.
  intros Hp H. destruct (last (unencrypted_ranges p)) as [r|] eqn:Hl.
  - destruct (decide (range_end r = frame_index p)) as [He|Hne]; [apply coded_add_clear; [done|by exists r]|].
    unfold coded_ranges, at_clear_end, add_unencrypted_bytes, push_range. cbn [unencrypted_ranges frame_index H26X_LONG_START_CODE].
    rewrite Hl. destruct (Nat.eqb_spec (range_end r) (frame_index p)); [done|]. split; [|eexists; rewrite last_snoc; done].
    apply Forall_app. split; [by apply coded_ranges_app|]. apply Forall_singleton. split; [cbn; lia|]; cbn [offset].
    rewrite (holds_index _ _ Hp), lookup_app_r by lia. by rewrite Nat.add_sub_swap, Nat.sub_diag by lia.
  - apply last_None in Hl. unfold coded_ranges, at_clear_end, add_unencrypted_bytes, push_range.
    cbn [unencrypted_ranges frame_index H26X_LONG_START_CODE]. rewrite Hl. cbn. split; [|eexists; done].
    apply Forall_singleton. split; [cbn; lia|]; cbn [offset].
    rewrite (holds_index _ _ Hp), lookup_app_r by lia. by rewrite Nat.add_sub_swap, Nat.sub_diag by lia.
Qed.

(** The processor holds [l], its clear ranges beginning with a start code. *)
Definition holds_coded (p : OutboundFrameProcessor) (l : bytes) : Prop := holds p l /\ coded_ranges p l.

Lemma holds_coded_reset : holds_coded reset [].
Proof. split; [apply holds_reset|by constructor]. Qed.

(** The treatment of one NAL unit. *)
Section H26x.
Context (C : H26xFrameCodec) {E : Type}.
Hypothesis prefix_total : forall nalu, exists o, encrypted_payload_unencrypted_prefix (E := E) nalu = Ok o.

Lemma process_unit (header : Z) frame a b p l :
  holds_coded p l -> at_clear_end p -> (a <= b <= length frame)%nat ->
  exists r p',
    (if encrypts_payload (nal_type header) then
       unit ← slice (E := E) frame a b;
       prefix ← encrypted_payload_unencrypted_prefix unit;
       match prefix with
       | None => Ok (FallbackAllEncrypted, p)
       | Some unencrypted =>
           if (b <? a + unencrypted)%nat then Ok (FallbackAllEncrypted, p)
           else clear ← slice frame a (a + unencrypted);
                secret ← slice frame (a + unencrypted) b;
                Ok (Processed, add_encrypted_bytes secret (add_unencrypted_bytes clear p))
       end
     else clear ← slice frame a b; Ok (Processed, add_unencrypted_bytes clear p)) = Ok (r, p') /\
    (r = Processed -> holds_coded p' (l ++ take (b - a) (drop a frame))).
Proof.
  intros [Hp Hc] He Hab. rewrite (slice_ok frame a b) by lia. cbn [mbind res_mbind].
  destruct (encrypts_payload _).
  2: { do 2 eexists. split; [done|]. intros _. split; [by apply holds_add_unencrypted|by apply coded_add_clear]. }
  destruct (prefix_total (take (b - a) (drop a frame))) as [[u|] ->]; cbn [mbind res_mbind]; [|do 2 eexists; by split].
  destruct (Nat.ltb_spec b (a + u)); [do 2 eexists; by split|].
  rewrite !slice_ok by lia. cbn [mbind res_mbind]. do 2 eexists. split; [done|]. intros _.
  assert (Hj : take (b - a) (drop a frame) = take (a + u - a) (drop a frame) ++ take (b - (a + u)) (drop (a + u) frame)).
  { rewrite <- drop_drop. replace (a + u - a)%nat with u by lia.
    replace (b - (a + u))%nat with (b - a - u)%nat by lia. replace (b - a)%nat with (u + (b - a - u))%nat at 1 by lia.
    by rewrite take_take_drop. }
  rewrite Hj, app_assoc. split; [by apply holds_add_encrypted, holds_add_unencrypted|].
  by apply coded_add_encrypted, coded_add_clear.
Qed.

Lemma process_h26x_loop_spec fuel frame s nalu p l :
  search_result frame s (Some nalu) -> holds_coded p l -> (length frame < fuel + start nalu)%nat ->
  exists r p', process_h26x_loop (E := E) C fuel frame nalu p = Ok (r, p') /\
    (r = Processed -> exists us, units_of (drop (start nalu) frame) us /\ holds_coded p' (l ++ annexb_frame us)).
Proof.
  revert s nalu p l. induction fuel as [|fuel IH]; intros s nalu p l Hs Hp Hf;
    pose proof (search_result_bounds _ _ _ Hs) as (Hb & _ & _); [lia|].
  cbn [process_h26x_loop]. destruct (Nat.ltb_spec (start nalu) (length frame - 1)) as [Hlt|Hge].
  2: { do 2 eexists. split; [done|]. intros _. exists []. rewrite app_nil_r. split; [|done].
       destruct (lookup_lt_is_Some_2 frame (start nalu)) as [x Hx]; [lia|].
       rewrite (drop_lookup_cons _ _ _ Hx), drop_ge by lia. constructor. }
  destruct (index_lt (E := E) frame (start nalu)) as [h ->]; [lia|]. cbn [mbind res_mbind].
  destruct (find_next_nalu_spec (E := E) frame (start nalu)) as (nxt & -> & Hn). cbn [mbind res_mbind].
  set (e := match nxt with Some n => _ | None => _ end).
  assert (He : (start nalu <= e <= length frame)%nat).
  { unfold e. destruct nxt as [n|]; [|lia]. pose proof (search_result_bounds _ _ _ Hn) as (? & ? & ?).
    split; [|lia]. eapply search_result_gap; eauto using search_result_prev; lia. }
  destruct (process_unit h frame (start nalu) e (add_unencrypted_bytes H26X_LONG_START_CODE p)
              (l ++ H26X_LONG_START_CODE)) as (r & p' & Hu & Hh);
    [split; [apply holds_add_unencrypted, Hp|by apply coded_add_code; apply Hp]|by apply (coded_add_code _ l); apply Hp|done|].
  cbv zeta. match goal with |- context [mbind _ ?m] => replace m with (Ok (E := E) (r, p')) by exact (eq_sym Hu) end.
  cbn [mbind res_mbind]. destruct r; [|do 2 eexists; split; [done|done]]. specialize (Hh eq_refl).
  destruct nxt as [n|].
  - pose proof (search_result_bounds _ _ _ Hn) as (? & ? & ?).
    destruct (IH (start nalu) n p' _ Hn Hh) as (r & p'' & -> & Hr); [lia|].
    do 2 eexists. split; [done|]. intros ->. destruct (Hr eq_refl) as (us & Hus & Hh'').
    destruct (search_result_code _ _ _ Hn) as (c & Hc & Hlc & Hd).
    exists (take (e - start nalu) (drop (start nalu) frame) :: us). split.
    + rewrite <- (take_drop (e - start nalu) (drop (start nalu) frame)) at 1.
      rewrite drop_drop. replace (start nalu + (e - start nalu))%nat with e by lia.
      unfold e. rewrite Hd. constructor; [|done|done].
      apply no_nalu_window. intros j Hj1 Hj2 Hnj. destruct Hn as (i & Hi & Hni & -> & Hmin).
      apply (Hmin j); [|done]. unfold nalu_of in Hj2. cbn in Hj2. destruct (decide _); lia.
    + unfold annexb_frame in *. cbn [fmap list_fmap mjoin list_join]. by rewrite <- !app_assoc in *.
  - do 2 eexists. split; [done|]. intros _. exists [drop (start nalu) frame]. split.
    + constructor; [llia|]. rewrite <- (take_ge (drop (start nalu) frame) (length frame - start nalu)) by llia.
      apply no_nalu_window. intros j Hj _. by apply Hn.
    + unfold annexb_frame. cbn [fmap list_fmap mjoin list_join]. rewrite app_nil_r, app_assoc.
      unfold e in Hh. by rewrite take_ge in Hh by llia.
Qed.

Lemma process_h26x_frame_spec frame p :
  holds_coded p [] ->
  exists r p', process_h26x_frame (E := E) C frame p = Ok (r, p') /\
    (r = Processed -> exists l, h26x_normalised frame l /\ holds_coded p' l).
Proof.
  intros Hp. unfold process_h26x_frame. case_match; [do 2 eexists; by split|].
  destruct (find_next_nalu_spec (E := E) frame 0) as ([n|] & -> & Hn); cbn [mbind res_mbind];
    [|do 2 eexists; by split].
  destruct (process_h26x_loop_spec (S (length frame)) frame 0 n p [] Hn Hp) as (r & p' & -> & Hr); [lia|].
  do 2 eexists. split; [done|]. intros ->. destruct (Hr eq_refl) as (us & Hus & Hh).
  destruct (search_result_code _ _ _ Hn) as (c & Hc & Hlc & Hd). eexists. split; [|exact Hh].
  exists (take (start n - start_code_len n) frame), c, (drop (start n) frame), us.
  rewrite <- Hd, take_drop. done.
Qed.

End H26x.

(** *** AV1 *)

(** Cutting one unit off a frame. *)
Lemma drop_obu (frame : bytes) idx h ext k size size_len n :
  frame !! idx = Some h ->
  k = (idx + 1 + length (option_list ext))%nat ->
  (forall x, ext = Some x -> frame !! (idx + 1)%nat = Some x) ->
  size = (if decide (size_len = 0)%nat then None else Some (take size_len (drop k frame))) ->
  (k + size_len + n <= length frame)%nat ->
  drop idx frame =
    obu_bytes {| obu_header := h; obu_ext := ext; obu_size := size;
                 obu_payload := take n (drop (k + size_len) frame) |} ++ drop (k + size_len + n) frame.
Proof.
  intros Hh Hk Hx Hs Hn. unfold obu_bytes. cbn [obu_header obu_ext obu_size obu_payload].
  rewrite (drop_lookup_cons _ _ _ Hh). cbn [app]. f_equal.
  assert (H1 : drop (S idx) frame = option_list ext ++ drop k frame).
  { subst k. destruct ext as [x|]; cbn [option_list length app].
    - rewrite <- Nat.add_1_r, (drop_lookup_cons _ _ _ (Hx x eq_refl)).
      by replace (S (idx + 1)) with (idx + 1 + 1)%nat by lia.
    - by replace (S idx) with (idx + 1 + 0)%nat by lia. }
  rewrite H1, <- !app_assoc. f_equal.
  rewrite <- (take_drop size_len (drop k frame)) at 1.
  assert (default [] size = take size_len (drop k frame)) as ->.
  { subst size. by destruct (decide _) as [->|]. }
  f_equal. rewrite drop_drop. rewrite <- (take_drop n (drop (k + size_len) frame)) at 1. by rewrite drop_drop.
Qed.

Lemma mjoin_obus_nil os : mjoin (obu_bytes <$> os) = [] <-> os = [].
Proof. destruct os; [done|]. by split. Qed.

Lemma av1_payload_size_spec {E} frame k sz :
  all_bytes frame -> (k <= length frame)%nat -> Z.of_nat (length frame) < u64_mod ->
  av1_payload_size (E := E) frame k sz = Ok None \/
  exists sl n, av1_payload_size (E := E) frame k sz = Ok (Some (sl, n)) /\ is_u64 n /\
    sz = negb (bool_decide (sl = 0)%nat) /\
    (if sz then Uleb128.read (take sl (drop k frame)) = Some {| Uleb128.value := n; Uleb128.len := sl |}
     else n = Z.of_nat (length frame - k)).
Proof.
  intros Hb Hk Hu. unfold av1_payload_size. destruct sz.
  - rewrite slice_ok by lia. rewrite take_ge by llia. cbn [mbind res_mbind].
    destruct (Uleb128.read (drop k frame)) as [d|] eqn:Hd; [|by left]. right.
    exists (Uleb128.len d), (Uleb128.value d). split; [done|].
    split; [eapply Uleb128.read_value; [|exact Hd]; by apply Forall_drop|].
    pose proof (Uleb128.read_len _ _ Hd). rewrite bool_decide_eq_false_2 by lia. split; [done|].
    rewrite (Uleb128.read_prefix _ _ Hd). by destruct d.
  - right. exists O, (Z.of_nat (length frame - k)). split; [done|]. unfold is_u64. split; [lia|done].
Qed.

Lemma av1_emit_spec {E} frame h ext idx pi index n (sz : bool) p l :
  holds p l -> (forall x, ext = Some x -> frame !! (idx + 1)%nat = Some x) ->
  is_u64 n -> (pi + Z.to_nat n <= length frame)%nat ->
  exists p', av1_emit (E := E) frame idx pi index n (bool_decide (is_Some ext)) sz h p = Ok (Some p') /\
    holds p' (l ++ (if (index =? length frame)%nat && sz then clear_has_size h else h)
      :: option_list ext ++ (if negb (index =? length frame)%nat && sz then Uleb128.encode n else [])
      ++ take (Z.to_nat n) (drop pi frame)).
Proof.
  intros Hp Hx Hn Hb. unfold av1_emit. cbv zeta. set (last := (index =? length frame)%nat).
  set (h' := if last && sz then _ else _).
  assert (Hp1 := holds_add_unencrypted _ _ [h'] Hp). revert Hp1.
  generalize (add_unencrypted_bytes [h'] p). clear p Hp. intros p Hp.
  match goal with |- context [mbind _ ?m] =>
    assert (exists p1, m = Ok p1 /\ holds p1 ((l ++ [h']) ++ option_list ext)) as (p1 & -> & Hp1) end.
  { destruct ext as [x|]; [rewrite bool_decide_eq_true_2 by eauto|rewrite bool_decide_eq_false_2 by (by intros [? ?]); cbn; rewrite app_nil_r; eauto].
    specialize (Hx x eq_refl). pose proof (lookup_lt_Some _ _ _ Hx).
    rewrite slice_ok by lia. cbn [mbind res_mbind]. eexists. split; [done|].
    rewrite (drop_lookup_cons _ _ _ Hx). replace (idx + 2 - (idx + 1))%nat with 1%nat by lia.
    rewrite firstn_cons, take_0. by apply holds_add_unencrypted. }
  cbn [mbind res_mbind].
  match goal with |- context [mbind _ ?m] =>
    assert (exists p2, m = Ok (Some p2) /\
      holds p2 (((l ++ [h']) ++ option_list ext) ++ (if negb last && sz then Uleb128.encode n else []))) as (p2 & -> & Hp2) end.
  { destruct last, sz; cbn [andb negb]; try (rewrite app_nil_r; eauto).
    pose proof (Uleb128.encoded_len_le n Hn) as Hl. rewrite Uleb128.encoded_len_encode in Hl by done.
    rewrite Uleb128.write_to_encode by (rewrite ?length_replicate; done).
    rewrite slice_app_l by done. cbn [mbind res_mbind]. eauto with cacophony. }
  cbn [mbind res_mbind]. rewrite slice_ok by lia. cbn [mbind res_mbind]. eexists. split; [done|].
  replace (pi + Z.to_nat n - pi)%nat with (Z.to_nat n) by lia.
  rewrite (app_assoc (option_list ext)), (app_comm_cons _ _ h'), app_assoc.
  apply holds_add_encrypted. by rewrite <- !app_assoc in *.
Qed.

(** A unit read off a frame at [idx]: it is well formed and starts the rest of
    the frame. *)
Lemma cut_obu frame idx h (ext : bool) k sl n :
  frame !! idx = Some h -> ext = has_bits h OBU_HAS_EXTENSION ->
  k = (idx + 1 + if ext then 1 else 0)%nat -> (k < length frame)%nat ->
  has_bits h OBU_HAS_SIZE = negb (bool_decide (sl = 0)%nat) ->
  (if has_bits h OBU_HAS_SIZE
   then Uleb128.read (take sl (drop k frame)) = Some {| Uleb128.value := n; Uleb128.len := sl |}
   else n = Z.of_nat (length frame - k)) ->
  is_u64 n -> (k + sl + Z.to_nat n <= length frame)%nat ->
  exists o, obu_wf o /\ obu_header o = h /\ has_bits h OBU_HAS_EXTENSION = bool_decide (is_Some (obu_ext o)) /\
    (forall x, obu_ext o = Some x -> frame !! (idx + 1)%nat = Some x) /\
    has_bits h OBU_HAS_SIZE = bool_decide (is_Some (obu_size o)) /\
    obu_payload o = take (Z.to_nat n) (drop (k + sl) frame) /\
    drop idx frame = obu_bytes o ++ drop (k + sl + Z.to_nat n) frame.
Proof.
  intros Hh He Hk Hlk Hsz Hread Hn Hle. unfold is_u64 in Hn.
  set (e := if ext then frame !! (idx + 1)%nat else None).
  assert (He1 : ext = bool_decide (is_Some e)).
  { unfold e. destruct ext; [|done]. symmetry. apply bool_decide_eq_true_2, lookup_lt_is_Some_2. lia. }
  assert (He2 : k = (idx + 1 + length (option_list e))%nat).
  { rewrite Hk, He1. destruct e; [by rewrite bool_decide_eq_true_2 by eauto|].
    by rewrite bool_decide_eq_false_2 by (by intros [? ?]). }
  assert (He3 : forall x, e = Some x -> frame !! (idx + 1)%nat = Some x) by (intros x; unfold e; by destruct ext).
  clearbody e.
  exists {| obu_header := h; obu_ext := e;
            obu_size := if decide (sl = 0)%nat then None else Some (take sl (drop k frame));
            obu_payload := take (Z.to_nat n) (drop (k + sl) frame) |}.
  assert (Hs : has_bits h OBU_HAS_SIZE =
    bool_decide (is_Some (if decide (sl = 0)%nat then None else Some (take sl (drop k frame))))).
  { rewrite Hsz. destruct (decide _) as [->|]; [done|]. by rewrite bool_decide_eq_false_2 by done. }
  unfold obu_wf. cbn [obu_header obu_ext obu_size obu_payload].
  rewrite <- He, <- He1, <- Hs. split; [|split_and!; try done; by apply drop_obu].
  split; [done|]. split; [done|].
  rewrite Hsz in Hread. destruct (decide (sl = 0)%nat) as [->|Hsl]; [done|].
  rewrite bool_decide_eq_false_2 in Hread by done. cbn [negb] in Hread. rewrite Hread.
  rewrite !length_take, !length_drop. repeat f_equal; lia.
Qed.

Lemma process_av1_loop_spec {E} fuel frame idx p l :
  all_bytes frame -> Z.of_nat (length frame) < u64_mod ->
  holds p l -> (idx <= length frame)%nat -> (length frame < fuel + idx)%nat ->
  exists r p', process_av1_loop (E := E) fuel frame idx p = Ok (r, p') /\
    (r = Processed -> exists os, Forall obu_wf os /\ drop idx frame = mjoin (obu_bytes <$> os) /\
                                 holds p' (l ++ obus_kept os)).
Proof.
  intros Hb Hu. revert idx p l. induction fuel as [|fuel IH]; intros idx p l Hp Hi Hf; [lia|].
  cbn [process_av1_loop]. destruct (Nat.ltb_spec idx (length frame)) as [Hlt|Hge].
  2: { do 2 eexists. split; [done|]. intros _. exists []. rewrite app_nil_r, drop_ge by lia. done. }
  destruct (lookup_lt_is_Some_2 frame idx) as [h Hh]; [done|]. rewrite Hh. cbv zeta.
  set (k := (idx + 1 + _)%nat).
  destruct (Nat.leb_spec (length frame) k) as [|Hk]; [do 2 eexists; by split|].
  destruct (av1_payload_size_spec (E := E) frame k (has_bits h OBU_HAS_SIZE)) as [->|(sl & n & -> & Hn & Hsl & Hr)];
    [done|lia|done|do 2 eexists; by split|].
  cbn [mbind res_mbind]. rewrite Z.geb_leb, Z.gtb_ltb. assert (Hn0 : 0 <= n) by apply Hn.
  destruct (Z.leb_spec u64_mod (Z.of_nat (k + sl) + n)); [do 2 eexists; by split|].
  destruct (Z.ltb_spec (Z.of_nat (length frame)) (Z.of_nat (k + sl) + n)); [do 2 eexists; by split|].
  destruct (cut_obu frame idx h _ k sl n Hh eq_refl eq_refl Hk Hsl Hr Hn) as (o & Hwf & Ho & Hext & Hx & Hsz & Hpay & Hd); [lia|].
  set (idx' := (k + sl + Z.to_nat n)%nat) in *.
  assert (Hlast : forall os, drop idx' frame = mjoin (obu_bytes <$> os) -> bool_decide (os = []) = (idx' =? length frame)%nat).
  { intros os Hos. rewrite (bool_decide_ext _ (drop idx' frame = [])) by (rewrite Hos; by rewrite mjoin_obus_nil).
    destruct (Nat.eqb_spec idx' (length frame)) as [->|]; [by rewrite drop_ge by lia|].
    apply bool_decide_eq_false_2. intros H'. pose proof (length_drop frame idx') as Hl. rewrite H' in Hl. cbn in Hl. lia. }
  destruct (obu_dropped (obu_type_of h)) eqn:Hdr.
  - destruct (IH idx' p l Hp) as (r & p' & -> & Hr'); [lia..|]. do 2 eexists. split; [done|]. intros ->.
    destruct (Hr' eq_refl) as (os & Hos & Hj & Hh'). exists (o :: os). split; [by constructor|].
    split; [by rewrite Hd, Hj|]. cbn [obus_kept]. unfold obu_kept. by rewrite Ho, Hdr.
  - rewrite Hext, Hsz. destruct (av1_emit_spec (E := E) frame h (obu_ext o) idx (k + sl) idx' n
      (bool_decide (is_Some (obu_size o))) p l Hp Hx Hn) as (p1 & -> & Hp1); [lia|].
    cbn [mbind res_mbind]. destruct (IH idx' p1 _ Hp1) as (r & p' & -> & Hr'); [lia..|]. do 2 eexists.
    split; [done|]. intros ->. destruct (Hr' eq_refl) as (os & Hos & Hj & Hh'). exists (o :: os). split; [by constructor|].
    split; [by rewrite Hd, Hj|]. cbn [obus_kept]. unfold obu_kept. rewrite Ho, Hdr, (Hlast os Hj), Hpay, length_take, length_drop.
    replace (Z.of_nat _) with n by lia. rewrite <- Hpay. by rewrite app_assoc, Hpay.
Qed.

(** *** Processing never fails and keeps the frame *)
Definition is_h26x (c : MediaCodec) : Prop := c = H264 \/ c = H265.

(** What the processor holds after processing [frame]. *)
Definition processed_ok (c : MediaCodec) (frame : bytes) (p : OutboundFrameProcessor) (kept : bytes) : Prop :=
  kept_of c frame kept /\ holds p kept /\ (is_h26x c -> coded_ranges p kept).

Lemma process_vp8_ok {E} frame :
  exists r p, process_vp8_frame (E := E) frame reset = Ok (r, p) /\ (r = Processed -> holds p frame).
Proof.
  unfold process_vp8_frame. destruct (Nat.eqb_spec (length frame) 0); [do 2 eexists; by split|].
  destruct (index_lt (E := E) frame 0) as [b ->]; [lia|]. cbn [mbind res_mbind].
  set (k := if _ =? 0 then _ else _). destruct (Nat.ltb_spec (length frame) k); [do 2 eexists; by split|].
  rewrite !slice_ok by lia. cbn [mbind res_mbind]. do 2 eexists. split; [done|]. intros _.
  rewrite drop_0, Nat.sub_0_r. rewrite (take_ge (drop k frame)) by llia.
  rewrite <- (take_drop k frame) at 3. apply holds_add_encrypted. exact (holds_add_unencrypted _ _ _ holds_reset).
Qed.

Lemma process_frame_spec {E} c frame :
  all_bytes frame -> Z.of_nat (length frame) < u64_mod ->
  exists r p, process_frame (E := E) c frame reset = Ok (r, p) /\
    (r = Processed -> exists kept, processed_ok c frame p kept).
Proof.
  intros Hb Hu. unfold processed_ok, is_h26x.
  destruct c; cbn [process_frame kept_of].
  1, 3: do 2 eexists; split; [done|]; intros _; exists frame; split; [done|];
        split; [exact (holds_add_encrypted _ _ frame holds_reset)|by intros []].
  - destruct (process_vp8_ok (E := E) frame) as (r & p & Hp & Hk). exists r, p. split; [done|].
    intros Hr. exists frame. split; [done|]. split; [by apply Hk|by intros []].
  - destruct (process_h26x_frame_spec H264_codec (E := E) prefix_total_264 frame reset holds_coded_reset) as (r & p & Hp & Hk).
    exists r, p. split; [done|]. intros ->. destruct (Hk eq_refl) as (l & ? & [? ?]). eauto 6.
  - destruct (process_h26x_frame_spec H265_codec (E := E) prefix_total_265 frame reset holds_coded_reset) as (r & p & Hp & Hk).
    exists r, p. split; [done|]. intros ->. destruct (Hk eq_refl) as (l & ? & [? ?]). eauto 6.
  - unfold process_av1_frame.
    destruct (process_av1_loop_spec (E := E) (S (length frame)) frame 0 reset [] Hb Hu holds_reset) as (r & p & Hp & Hk); [lia..|].
    exists r, p. split; [done|]. intros ->. destruct (Hk eq_refl) as (os & Hos & Hj & Hh).
    exists (obus_kept os). split; [right; by exists os|]. split; [done|by intros []].
Qed.

Lemma process_spec {E} c frame :
  all_bytes frame -> Z.of_nat (length frame) < u64_mod ->
  exists p kept, process (E := E) c frame = Ok p /\ processed_ok c frame p kept.
Proof.
  intros Hb Hu. unfold process.
  destruct (process_frame_spec (E := E) c frame Hb Hu) as (r & p & -> & Hk). cbn [mbind res_mbind].
  destruct r.
  - destruct (Hk eq_refl) as (kept & ? & ? & ?). do 2 eexists. split; [done|].
    split; [done|]. split; [by apply holds_set_ciphertext|done].
  - do 2 eexists. split; [done|]. split; [|split; [apply holds_set_ciphertext; exact (holds_add_encrypted _ _ frame holds_reset)|]].
    + destruct c; simpl; auto.
    + intros _. unfold coded_ranges. destruct frame; by constructor.
Qed.

(** *** The frame kept is at most twice as long *)
Lemma length_annexb_cons u us : length (annexb_frame (u :: us)) = (4 + length u + length (annexb_frame us))%nat.
Proof. unfold annexb_frame. cbn [fmap list_fmap mjoin list_join]. by rewrite !length_app. Qed.

Lemma length_units body us : units_of body us -> (length (annexb_frame us) <= 2 * length body + 4)%nat.
Proof.
  induction 1 as [u Hu _|x|u c rest us _ Hc Hr IH]; rewrite ?length_annexb_cons, ?length_app.
  - change (length (annexb_frame [])) with O. lia.
  - change (length (annexb_frame [])) with O. lia.
  - destruct Hc as [->| ->]; cbn [length]; lia.
Qed.

Lemma length_obu_kept last o : all_bytes (obu_bytes o) -> obu_wf o -> (length (obu_kept last o) <= length (obu_bytes o))%nat.
Proof.
  intros Hb (_ & _ & Hs). unfold obu_kept, obu_bytes in *. destruct (obu_dropped _); [cbn [length]; lia|].
  destruct (obu_size o) as [s|].
  - rewrite !(bool_decide_eq_true_2 (is_Some (Some s))) by eauto.
    apply Forall_cons in Hb as [_ (_ & [Hbs _]%Forall_app)%Forall_app].
    pose proof (Uleb128.encode_shortest _ _ Hbs Hs) as Hl. cbn [Uleb128.value Uleb128.len] in Hl.
    destruct last; cbn [negb andb length default from_option]; rewrite !length_app; cbn [length]; unfold id; lia.
  - rewrite !(bool_decide_eq_false_2 (is_Some None)) by (by intros [? ?]).
    rewrite !andb_false_r. cbn [length default from_option]. rewrite !length_app. cbn [length]. lia.
Qed.

Lemma length_obus_kept os :
  all_bytes (mjoin (obu_bytes <$> os)) -> Forall obu_wf os ->
  (length (obus_kept os) <= length (mjoin (obu_bytes <$> os)))%nat.
Proof.
  intros Hb H. induction H as [|o os Ho Hos IH]; [done|]. cbn [obus_kept].
  change (mjoin (obu_bytes <$> o :: os)) with (obu_bytes o ++ mjoin (obu_bytes <$> os)) in *.
  apply Forall_app in Hb as [Hb1 Hb2]. rewrite !length_app. specialize (IH Hb2).
  pose proof (length_obu_kept (bool_decide (os = [])) o Hb1 Ho). lia.
Qed.

Lemma length_kept c frame kept :
  all_bytes frame -> kept_of c frame kept -> (length kept <= 2 * length frame)%nat.
Proof.
  intros Hb. destruct c; simpl; [intros ->; lia..| | |].
  1, 2: intros [->|(junk & code & body & us & -> & Hc & Hu & ->)]; [lia|];
        pose proof (length_units _ _ Hu); rewrite !length_app; destruct Hc as [->| ->]; simpl; lia.
  intros [->|(os & Hos & -> & ->)]; [lia|]. pose proof (length_obus_kept os Hb Hos). lia.
Qed.

(** *** Start codes in the encrypted frame *)

(** Position [k] lies in a range that stays in clear. *)
Definition in_clear (ranges : list UnencryptedRange) (k : nat) : Prop :=
  exists r, r ∈ ranges /\ (offset r <= k < range_end r)%nat.

(** No start code of [enc] contains a secret byte of the first [n] ones. *)
Definition no_secret_start_code (ranges : list UnencryptedRange) (n : nat) (enc : bytes) : Prop :=
  forall j k, start_code_at enc j -> (j <= k < j + 3)%nat -> (k < n)%nat -> in_clear ranges k.

Lemma has_nalu_false {E} w : has_nalu (E := E) w = Ok false -> no_nalu w.
Proof.
  unfold has_nalu. destruct (find_next_nalu_spec (E := E) w 0) as ([n|] & -> & H); cbn [mbind res_mbind].
  - by rewrite bool_decide_eq_true_2 by eauto.
  - intros _ i. apply H. lia.
Qed.

Lemma has_nalu_total {E} w : exists b, has_nalu (E := E) w = Ok b.
Proof. unfold has_nalu. destruct (find_next_nalu_spec (E := E) w 0) as (r & -> & _). eauto. Qed.

Lemma window_start_code (enc : bytes) a b j :
  no_nalu (take (b - a) (drop a enc)) -> (b <= length enc)%nat ->
  start_code_at enc j -> (a <= j)%nat -> (j + 3 < b)%nat -> False.
Proof.
  intros Hn Hb (H0 & H1 & H2) Ha Hj. apply (Hn (j - a)%nat). split; [|rewrite length_take, length_drop; lia].
  repeat split; rewrite lookup_take_lt, lookup_drop by lia.
  - by replace (a + (j - a))%nat with j by lia.
  - by replace (a + (j - a + 1))%nat with (j + 1)%nat by lia.
  - by replace (a + (j - a + 2))%nat with (j + 2)%nat by lia.
Qed.

Lemma validate_loop_total {E} ranges n enc s :
  ranges_wf s ranges n -> (n <= length enc)%nat -> exists b, validate_loop (E := E) ranges n enc s = Ok b.
Proof.
  revert s. induction ranges as [|r rs IH]; intros s Hwf Hn; cbn [validate_loop ranges_wf] in *.
  - destruct (_ =? _)%nat; [eauto|]. unfold PADDING. rewrite slice_ok by lia. cbn [mbind res_mbind].
    match goal with |- context [has_nalu ?w] => destruct (has_nalu_total (E := E) w) as [b ->] end. eauto.
  - destruct Hwf as [Ho Hwf]. pose proof (ranges_wf_le _ _ _ Hwf). unfold range_end in *.
    destruct (Nat.eqb_spec s (offset r)) as [->|]; [by apply IH|].
    unfold PADDING. rewrite slice_ok by lia. cbn [mbind res_mbind].
    match goal with |- context [has_nalu ?w] => destruct (has_nalu_total (E := E) w) as [[] ->] end; cbn [mbind res_mbind]; [eauto|].
    by apply IH.
Qed.

Lemma validate_loop_sound {E} ranges n enc s :
  ranges_wf s ranges n -> (n + 3 <= length enc)%nat ->
  Forall (fun r => enc !! (offset r + 1)%nat <> Some 1) ranges ->
  validate_loop (E := E) ranges n enc s = Ok true ->
  forall j k, start_code_at enc j -> (j <= k < j + 3)%nat -> (s <= k < n)%nat -> in_clear ranges k.
Proof.
  revert s. induction ranges as [|r rs IH]; intros s Hwf Hn Hc; cbn [validate_loop ranges_wf] in *.
  - destruct (Nat.eqb_spec s n); [lia|]. unfold PADDING, H26X_SHORT_START_SEQUENCE_BYTES.
    rewrite slice_ok by lia. cbn [mbind res_mbind].
    match goal with |- context [has_nalu ?w] => destruct (has_nalu_total (E := E) w) as [[] Hw]; rewrite Hw end;
      cbn [mbind res_mbind]; [done|]. intros _ j k Hj Hk Hs. exfalso.
    eapply window_start_code; [eapply has_nalu_false; exact Hw|..]; [|exact Hj|..]; lia.
  - destruct Hwf as [Ho Hwf]. pose proof (ranges_wf_le _ _ _ Hwf) as Hre. apply Forall_cons in Hc as [Hc1 Hc].
    assert (Hrest : validate_loop (E := E) rs n enc (range_end r) = Ok true ->
      forall j k, start_code_at enc j -> (j <= k < j + 3)%nat -> (offset r <= k < n)%nat -> in_clear (r :: rs) k).
    { intros Hv j k Hj Hk Hs. destruct (Nat.lt_ge_cases k (range_end r)).
      - exists r. split; [by left|lia].
      - destruct (IH _ Hwf Hn Hc Hv j k Hj Hk) as (r' & Hr' & ?); [lia|]. exists r'. split; [by right|done]. }
    destruct (Nat.eqb_spec s (offset r)) as [->|]; [exact Hrest|].
    unfold PADDING, H26X_SHORT_START_SEQUENCE_BYTES. unfold range_end in Hre. rewrite slice_ok by lia. cbn [mbind res_mbind].
    match goal with |- context [has_nalu ?w] => destruct (has_nalu_total (E := E) w) as [[] Hw]; rewrite Hw end;
      cbn [mbind res_mbind]; [done|]. intros Hv j k Hj Hk Hs.
    destruct (Nat.lt_ge_cases k (offset r)) as [Hlt|]; [|apply (Hrest Hv j k); done || lia]. exfalso.
    destruct (decide (j + 2 = offset r + 1)%nat) as [Heq|]; [destruct Hj as (_ & _ & H2); by rewrite Heq in H2|].
    eapply window_start_code; [eapply has_nalu_false; exact Hw|..]; [|exact Hj|..]; lia.
Qed.


(** *** The bytes in clear survive encryption *)
Lemma mask_of_clear from ranges n k :
  ranges_wf from ranges n -> in_clear ranges k -> (from <= k)%nat /\ mask_of from ranges n !! (k - from)%nat = Some true.
Proof.
  revert from. induction ranges as [|r rs IH]; intros from Hwf (r' & Hr' & Hk); [by apply elem_of_nil in Hr'|].
  cbn [ranges_wf mask_of] in *. destruct Hwf as [Ho Hwf]. apply elem_of_cons in Hr' as [->|Hr'].
  - split; [lia|]. rewrite lookup_app_r by (rewrite length_replicate; lia). rewrite length_replicate.
    rewrite lookup_app_l by (rewrite length_replicate; unfold range_end in *; lia).
    apply lookup_replicate_2. unfold range_end in *. lia.
  - destruct (IH _ Hwf) as [Hle Hm]; [by exists r'|]. unfold range_end in *. split; [lia|].
    rewrite lookup_app_r by (rewrite length_replicate; lia). rewrite lookup_app_r by (rewrite !length_replicate; lia).
    rewrite !length_replicate. by replace (k - from - (offset r - from) - len r)%nat with (k - (offset r + len r))%nat by lia.
Qed.

Lemma choose_clear_eq mask a b k :
  length mask = length a -> length a = length b -> choose true mask a = choose true mask b ->
  mask !! k = Some true -> a !! k = b !! k.
Proof.
  revert a b k. induction mask as [|m mask IH]; intros [|x a] [|y b] k; simpl; try done; try lia.
  intros [= H1] [= H2]. destruct m, k as [|k]; simpl; try (intros [= ]; done).
  - intros [= -> _]. done.
  - intros [= _ H]. by apply IH.
  - by apply IH.
Qed.

Section Output.
Context `{A : FrameAead} {HA : FrameAeadLaws A}.

Lemma encrypt_processed_output c nonce p l out p' :
  holds p l -> Z.of_nat (length l) < u64_mod -> is_u32 nonce ->
  FrameFormat.encrypt_processed c nonce p = Ok (out, p') ->
  (length l + 3 <= length out)%nat /\
  forall k, in_clear (unencrypted_ranges p) k -> out !! k = l !! k.
Proof.
  intros Hp Hl Hn. unfold FrameFormat.encrypt_processed.
  destruct (aead_encrypt _ _ _ _) as [ct tg] eqn:He. destruct (aead_length _ _ _ _ _ _ He) as [Hct Htg].
  destruct (holds_reconstruct (E := EncryptError) p l ct Hp Hct) as (body & Hrec & Hlb & Hsplit).
  unfold reconstruct_encrypted_frame. cbn [unencrypted_ranges unencrypted_bytes ciphertext set_ciphertext].
  rewrite Hrec. cbn [mbind res_mbind]. pose proof (holds_wf _ _ Hp) as Hwf.
  destruct (decide (255 < FrameFormat.supplemental_size nonce (unencrypted_ranges p))%nat) as [Hbig|Hsmall].
  { unfold FrameFormat.write_supplemental_tail. fold (FrameFormat.supplemental_size nonce (unencrypted_ranges p)).
    by rewrite (proj2 (Nat.ltb_lt _ _)). }
  rewrite FrameFormat.write_supplemental_tail_ok.
  2: { unfold is_u32, is_u64, u32_mod, u64_mod in *. lia. }
  2: { eapply FrameFormat.ranges_wf_u64; [exact Hwf|done]. }
  2: lia.
  cbn [mbind res_mbind]. intros [= <- _]. rewrite <- app_assoc, length_app. split; [rewrite length_app; unfold TAG_BYTES in *; lia|].
  intros k Hk. destruct (mask_of_clear _ _ _ _ Hwf Hk) as [_ Hm]. rewrite Nat.sub_0_r in Hm.
  assert (k < length body)%nat by (rewrite Hlb; apply lookup_lt_Some in Hm; by rewrite length_mask0 in Hm).
  rewrite lookup_app_l by done.
  specialize (Hsplit EncryptError). rewrite split_spec in Hsplit by (by rewrite Hlb). injection Hsplit as Hs1 _.
  rewrite Hlb, (holds_clear _ _ Hp) in Hs1. eapply choose_clear_eq; [|done|exact Hs1|done].
  by rewrite length_mask0, Hlb.
Qed.

(** ** Properties *)

(** Processing an outbound frame never panics, for any codec and any bytes: the
    processor ends up holding a frame split into its clear and secret bytes.
    Opus, VP8 and VP9 frames are held unchanged.  H.264/H.265 frames are held
    unchanged or as their NAL units behind long start codes, AV1 frames
    unchanged or with dropped units removed, canonical size fields and no size
    field on the last unit. *)
Theorem process_total c frame :
  all_bytes frame -> Z.of_nat (length frame) < u64_mod ->
  exists p kept, process (E := Empty_set) c frame = Ok p /\ holds p kept /\ kept_of c frame kept.
Proof.
  intros Hb Hu. destruct (process_spec (E := Empty_set) c frame Hb Hu) as (p & kept & ? & ? & ? & ?). eauto.
Qed.

(** C15. End-to-end round trip of the frame transform.  For every codec, key and nonce, a
    processed frame is encrypted, or refused because its supplemental data
    exceeds 255 bytes; the encrypted frame parses as encrypted with the same
    nonce, and decrypting it with the same key gives the processed frame back. *)
Theorem frame_roundtrip c frame (k : aead) nonce gen :
  all_bytes frame -> Z.of_nat (length frame) < 2 ^ 63 -> is_u32 nonce ->
  exists p kept, process (E := EncryptError) c frame = Ok p /\ kept_of c frame kept /\
    match FrameFormat.encrypt_processed k nonce p with
    | Ok (out, _) => exists pf, FrameFormat.parse out = Ok pf /\ FrameFormat.encrypted pf = true /\
                                FrameFormat.truncated_nonce pf = nonce /\ FrameFormat.decrypt_into k gen pf = Ok kept
    | Err e => e = SupplementalDataTooLarge /\ (255 < FrameFormat.supplemental_size nonce (unencrypted_ranges p))%nat
    | Panic => False
    end.
Proof.
  intros Hb Hu Hn. destruct (process_spec (E := EncryptError) c frame Hb) as (p & kept & Hp & Hk & Hh & _); [unfold u64_mod; lia|].
  exists p, kept. split; [done|]. split; [done|].
  pose proof (length_kept c frame kept Hb Hk). assert (Z.of_nat (length kept) < u64_mod) by (unfold u64_mod; lia).
  destruct (decide (FrameFormat.supplemental_size nonce (unencrypted_ranges p) <= 255)%nat).
  - destruct (FrameFormat.encrypt_processed_roundtrip k nonce p kept) as (out & ct & pf & -> & _ & ? & _ & ? & ? & Hd); try done. eauto 6.
  - rewrite (FrameFormat.encrypt_processed_too_large k nonce p kept) by (done || lia). split; [done|lia].
Qed.

(** C16. An encrypted H.264/H.265 frame that passes validation has no Annex B
    start code that contains an encrypted byte, so a packetizer downstream cuts
    it at the clear start codes only. *)
Theorem validated_no_secret_start_code c frame (k : aead) nonce p out p' :
  all_bytes frame -> Z.of_nat (length frame) < 2 ^ 63 -> is_u32 nonce -> is_h26x c ->
  process (E := EncryptError) c frame = Ok p -> FrameFormat.encrypt_processed k nonce p = Ok (out, p') ->
  validate_processed (E := EncryptError) c p out = Ok true ->
  no_secret_start_code (unencrypted_ranges p) (frame_index p) out.
Proof.
  intros Hb Hu Hn Hc Hp He Hv.
  destruct (process_spec (E := EncryptError) c frame Hb) as (p1 & kept & Hp1 & Hk & Hh & Hco); [unfold u64_mod; lia|].
  assert (p1 = p) as -> by congruence. specialize (Hco Hc).
  pose proof (length_kept c frame kept Hb Hk).
  destruct (encrypt_processed_output k nonce p kept out p') as [Hlen Hcl]; try done; [unfold u64_mod; lia|].
  assert (Hv' : validate_h26x_encrypted_frame (E := EncryptError) p out = Ok true) by (destruct Hc as [->| ->]; exact Hv).
  intros j i Hj Hi Hin. unfold validate_h26x_encrypted_frame in Hv'. rewrite (holds_index _ _ Hh) in *.
  eapply (validate_loop_sound (unencrypted_ranges p) (length kept) out 0); [apply Hh|done| |done|done|done|lia].
  apply Forall_forall. intros r Hr. unfold coded_ranges in Hco. rewrite Forall_forall in Hco.
  destruct (Hco r Hr) as [Hl H0]. rewrite Hcl by (exists r; unfold range_end; split; [done|lia]). by rewrite H0.
Qed.

(** At most one clear range, short and at the start of the frame. *)
Lemma small_ranges c frame p :
  c = Opus \/ c = Vp8 \/ c = Vp9 -> process (E := EncryptError) c frame = Ok p ->
  unencrypted_ranges p = [] \/ exists n, (n <= 10)%nat /\ unencrypted_ranges p = [{| offset := 0; len := n |}].
Proof.
  unfold process. intros Hc.
  assert (Hf : unencrypted_ranges (add_encrypted_bytes frame reset) = []) by (by destruct frame).
  destruct Hc as [->|[->| ->]]; cbn [process_frame process_fully_encrypted_frame mbind res_mbind]; try (intros [= <-]; by left).
  unfold process_vp8_frame. destruct (Nat.eqb_spec (length frame) 0); [intros [= <-]; by left|].
  destruct (index_lt (E := EncryptError) frame 0) as [b ->]; [lia|]. cbn [mbind res_mbind].
  set (k := if _ =? 0 then _ else _). destruct (Nat.ltb_spec (length frame) k); [intros [= <-]; by left|].
  rewrite !slice_ok by lia. cbn [mbind res_mbind]. intros [= <-]. right. exists k.
  rewrite drop_0, Nat.sub_0_r. assert (length (take k frame) = k) as Hk by (rewrite length_take; lia).
  assert (1 <= k <= 10)%nat by (unfold k; case_match; lia). split; [lia|].
  destruct (take k frame) as [|x t] eqn:Ht; [simpl in Hk; lia|].
  destruct (take (length frame - k) (drop k frame)); cbn; by rewrite <- Hk.
Qed.

(** Opus, VP8 and VP9 frames are always encrypted, at the cost of at most 18
    more bytes, which fits the buffer of [max_ciphertext_len]; the receiver gets back exactly the frame
    that was sent. *)
Theorem plain_codec_roundtrip c frame (k : aead) nonce gen :
  c = Opus \/ c = Vp8 \/ c = Vp9 -> all_bytes frame -> Z.of_nat (length frame) < 2 ^ 63 -> is_u32 nonce ->
  exists p out p' pf,
    process (E := EncryptError) c frame = Ok p /\ FrameFormat.encrypt_processed k nonce p = Ok (out, p') /\
    (length out <= length frame + 18)%nat /\ (length out <= max_ciphertext_len frame)%nat /\
    FrameFormat.parse out = Ok pf /\ FrameFormat.truncated_nonce pf = nonce /\
    FrameFormat.decrypt_into k gen pf = Ok frame.
Proof.
  intros Hc Hb Hu Hn.
  destruct (process_spec (E := EncryptError) c frame Hb) as (p & kept & Hp & Hk & Hh & _); [unfold u64_mod; lia|].
  assert (kept = frame) as -> by (destruct Hc as [->|[->| ->]]; exact Hk).
  assert (Hsz : (FrameFormat.supplemental_size nonce (unencrypted_ranges p) <= 18)%nat).
  { pose proof (Uleb128.encoded_len_u32 nonce Hn). unfold FrameFormat.supplemental_size, FrameFormat.unencrypted_ranges_size, TAG_BYTES.
    change (length MARKER) with 2%nat.
    destruct (small_ranges c frame p Hc Hp) as [->|(n & Hn10 & ->)]; unfold id; cbn [fmap list_fmap sum_list_with offset len]; [lia|].
    pose proof (Uleb128.encoded_len_small (Z.of_nat n) 0) as H1. specialize (H1 ltac:(change (128 ^ Z.of_nat 1) with 128; lia) ltac:(unfold is_u64, u64_mod; lia)).
    change (Uleb128.encoded_len (Z.of_nat 0)) with 1%nat. lia. }
  destruct (FrameFormat.encrypt_processed_roundtrip k nonce p frame) as (out & ct & pf & He & Hl & ? & _ & ? & ? & Hd); try done; [unfold u64_mod; lia|lia|].
  exists p, out, (set_ciphertext ct p), pf. split_and!; try done; [lia|].
  unfold max_ciphertext_len, TAG_BYTES, TRANSFORM_PADDING_BYTES. lia.
Qed.

End Output.

(** ** Witnesses *)
Import Sample.

Definition sample_key : aead := aead_new (replicate 16 7).

Lemma frame_roundtrip_witness :
  exists p kept, process (E := EncryptError) Vp8 [0x01; 2; 3; 0xFA] = Ok p /\ kept_of Vp8 [0x01; 2; 3; 0xFA] kept /\
    match FrameFormat.encrypt_processed sample_key 300 p with
    | Ok (out, _) => exists pf, FrameFormat.parse out = Ok pf /\ FrameFormat.encrypted pf = true /\
                                FrameFormat.truncated_nonce pf = 300 /\
                                FrameFormat.decrypt_into sample_key 0 pf = Ok kept
    | Err e => e = SupplementalDataTooLarge /\ (255 < FrameFormat.supplemental_size 300 (unencrypted_ranges p))%nat
    | Panic => False
    end.
Proof.
  apply (frame_roundtrip Vp8 [0x01; 2; 3; 0xFA] sample_key 300 0);
    [solve_bytes | vm_compute; reflexivity | unfold is_u32, u32_mod; lia].
Defined.

Lemma plain_codec_roundtrip_witness :
  exists p out p' pf,
    process (E := EncryptError) Opus OPUS_SILENCE_FRAME = Ok p /\
    FrameFormat.encrypt_processed sample_key 1 p = Ok (out, p') /\
    (length out <= length OPUS_SILENCE_FRAME + 18)%nat /\ (length out <= max_ciphertext_len OPUS_SILENCE_FRAME)%nat /\
    FrameFormat.parse out = Ok pf /\ FrameFormat.truncated_nonce pf = 1 /\
    FrameFormat.decrypt_into sample_key 0 pf = Ok OPUS_SILENCE_FRAME.
Proof.
  apply (plain_codec_roundtrip Opus OPUS_SILENCE_FRAME sample_key 1 0);
    [by left | solve_bytes | vm_compute; reflexivity | unfold is_u32, u32_mod; lia].
Defined.

Lemma process_total_witness :
  exists p kept, process (E := Empty_set) H264 [0; 0; 1; 0x67; 9; 0; 0; 1; 0x65; 0xFF; 7; 8] = Ok p /\
    holds p kept /\ kept_of H264 [0; 0; 1; 0x67; 9; 0; 0; 1; 0x65; 0xFF; 7; 8] kept.
Proof. apply process_total; [solve_bytes | vm_compute; reflexivity]. Defined.

(** A concrete H.264 frame with one slice: all hypotheses of the start code
    theorem hold for it. *)
Definition sample_h264 : bytes := [0; 0; 1; 0x67; 9; 0; 0; 1; 0x65; 0xFF; 7; 8].

Definition sample_processed : OutboundFrameProcessor :=
  match process (E := EncryptError) H264 sample_h264 with Ok p => p | _ => reset end.

Definition sample_output : bytes * OutboundFrameProcessor :=
  match FrameFormat.encrypt_processed sample_key 300 sample_processed with
  | Ok x => x
  | _ => ([], reset)
  end.

Lemma validated_no_secret_start_code_witness :
  no_secret_start_code (unencrypted_ranges sample_processed) (frame_index sample_processed) sample_output.1.
Proof.
  apply (validated_no_secret_start_code H264 sample_h264
           sample_key 300 sample_processed sample_output.1 sample_output.2);
    [solve_bytes | vm_compute; reflexivity | unfold is_u32, u32_mod; lia | by left
    | vm_compute; reflexivity | vm_compute; reflexivity | vm_compute; reflexivity].
Defined.
