(* ===== verification/Ratchet.v ===== *)
(** * The hash ratchet (dave/src/ratchet.rs)

    HKDF-Expand over HMAC-SHA256, the MLS key derivation labels and
    [HashRatchet], which derives one key and nonce per generation, caches them
    and forgets them on [erase].  HMAC-SHA256 (crate hmac) and the TLS
    serialisation of [KdfLabel] (crates openmls and tls_codec) are parameters. *)

From stdpp Require Import strings.
From S2P Require Import Prelude.
#[local] Open Scope Z_scope.

(** The one variant of [UpdateRatchetsError] that ratchet.rs produces. *)
Inductive UpdateRatchetsError := DeriveSecret.

(** [hmac_sha256 key message] and [KdfLabel { length, label, context }]
    serialised. *)
Class RatchetPrimitives := {
  hmac_sha256 : bytes -> bytes -> bytes;
  kdf_label_serialize : Z -> bytes -> bytes -> option bytes;
}.

(** HMAC-SHA256 yields 32 bytes; labels and contexts far below the length limit
    of TLS vectors serialise. *)
Class RatchetLaws (P : RatchetPrimitives) : Prop := {
  hmac_length : forall k m, length (hmac_sha256 k m) = 32%nat;
  kdf_label_ok : forall n label context,
    (length label < 64)%nat -> (length context < 64)%nat -> is_Some (kdf_label_serialize n label context);
}.

Definition str_bytes (s : string) : bytes := (fun c => Z.of_N (Ascii.N_of_ascii c)) <$> String.list_ascii_of_string s.

Module HashRatchet.

Section Ratchet.
Context `{P : RatchetPrimitives}.

(** ** [hkdf_expand] *)

(** The [while] loop.  [counter] is a [u8] that starts at 1 and is incremented
    with [checked_add], so 255 turns are enough. *)
Fixpoint hkdf_loop (fuel : nat) (secret info : bytes) (length_ : nat) (okm block : bytes) (counter : Z)
    : res UpdateRatchetsError bytes :=
  match fuel with
  | O => Panic
  | S fuel =>
      if (length okm <? length_)%nat then
        let block := hmac_sha256 secret (block ++ info ++ [counter]) in
        let okm := okm ++ block in
        if counter + 1 >? u8_max then Err DeriveSecret
        else hkdf_loop fuel secret info length_ okm block (counter + 1)
      else Ok (take length_ okm)
  end.

Definition hkdf_expand (secret info : bytes) (length_ : nat) : res UpdateRatchetsError bytes :=
  hkdf_loop 256 secret info length_ [] [] 1.

(** ** [derive_tree_secret] *)
Definition derive_tree_secret (secret : bytes) (label : string) (generation : Z) (length_ : nat)
    : res UpdateRatchetsError bytes :=
  let label := str_bytes ("MLS 1.0 " +:+ label) in
  info ← ok_or DeriveSecret (kdf_label_serialize (Z.of_nat length_ mod u16_mod) label (to_be 4 generation));
  hkdf_expand secret info length_.

(** ** [HashRatchet] *)
Record RatchetGenerationSecrets := { key : bytes; nonce : bytes }.

Record HashRatchet := {
  next_secret : bytes;
  next_generation : Z;
  cache : gmap Z RatchetGenerationSecrets;
}.

Definition new (secret : bytes) : HashRatchet :=
  {| next_secret := secret; next_generation := 0; cache := ∅ |}.

(** [next]: nothing changes when a derivation fails. *)
Definition next (r : HashRatchet) : res UpdateRatchetsError HashRatchet :=
  let generation := next_generation r in
  k ← derive_tree_secret (next_secret r) "key" generation 16;
  n ← derive_tree_secret (next_secret r) "nonce" generation 12;
  s ← derive_tree_secret (next_secret r) "secret" generation 32;
  Ok {| next_secret := s;
        next_generation := wrapping_add u32_mod generation 1;
        cache := <[generation := {| key := k; nonce := n |}]> (cache r) |}.

(** [while self.next_generation <= generation { self.next()?; }] *)
Fixpoint advance_loop (fuel : nat) (r : HashRatchet) (generation : Z) : res UpdateRatchetsError unit * HashRatchet :=
  if next_generation r <=? generation then
    match fuel with
    | O => (Panic, r)
    | S fuel =>
        match next r with
        | Ok r => advance_loop fuel r generation
        | Err e => (Err e, r)
        | Panic => (Panic, r)
        end
    end
  else (Ok tt, r).

(** The result of [get] and the ratchet after the call. *)
Definition get (r : HashRatchet) (generation : Z) : res UpdateRatchetsError RatchetGenerationSecrets * HashRatchet :=
  let '(advanced, r) :=
    if bool_decide (is_Some (cache r !! generation)) then (Ok tt, r)
    else if next_generation r >? generation then (Err DeriveSecret, r)
    else advance_loop (Z.to_nat (generation - next_generation r + 1)) r generation in
  match advanced with
  | Ok _ => (ok_or DeriveSecret (cache r !! generation), r)
  | Err e => (Err e, r)
  | Panic => (Panic, r)
  end.

Definition erase (r : HashRatchet) (generation : Z) : HashRatchet :=
  {| next_secret := next_secret r; next_generation := next_generation r; cache := delete generation (cache r) |}.

(** ** Reference: HKDF-Expand of RFC 5869 and the chain of generation secrets *)

(** The blocks T(1), T(2), ... appended to what is there already. *)
Fixpoint hkdf_blocks (n : nat) (secret info : bytes) (block : bytes) (counter : Z) : bytes :=
  match n with
  | O => []
  | S n =>
      let block := hmac_sha256 secret (block ++ info ++ [counter]) in
      block ++ hkdf_blocks n secret info block (counter + 1)
  end.

Definition hkdf_spec (secret info : bytes) (length_ : nat) : bytes :=
  take length_ (hkdf_blocks 254 secret info [] 1).

Definition tree_secret (secret : bytes) (label : string) (generation : Z) (length_ : nat) : bytes :=
  hkdf_spec secret
    (default [] (kdf_label_serialize (Z.of_nat length_) (str_bytes ("MLS 1.0 " +:+ label)) (to_be 4 generation))) length_.

Fixpoint chain_secret (secret : bytes) (generation : nat) : bytes :=
  match generation with
  | O => secret
  | S g => tree_secret (chain_secret secret g) "secret" (Z.of_nat g) 32
  end.

Definition generation_secrets (secret : bytes) (g : nat) : RatchetGenerationSecrets :=
  {| key := tree_secret (chain_secret secret g) "key" (Z.of_nat g) 16;
     nonce := tree_secret (chain_secret secret g) "nonce" (Z.of_nat g) 12 |}.

(** The state invariant: everything in the ratchet is derived from [secret]. *)
Record ratchet_ok (secret : bytes) (r : HashRatchet) : Prop := {
  ratchet_next : exists g, next_generation r = Z.of_nat g /\ next_secret r = chain_secret secret g;
  ratchet_cache : forall g s, cache r !! g = Some s ->
    0 <= g < next_generation r /\ s = generation_secrets secret (Z.to_nat g);
}.

(** ** Lemmas *)
Context {HP : RatchetLaws P}.

Lemma length_hkdf_blocks n secret info block c : length (hkdf_blocks n secret info block c) = (32 * n)%nat.
Proof. revert block c. induction n as [|n IH]; intros; cbn [hkdf_blocks]; [done|]. rewrite length_app, hmac_length, IH. lia. Qed.

(** [m] blocks done, [n] more are possible before the counter overflows. *)
Lemma hkdf_loop_spec fuel n secret info len okm block c :
  (n < fuel)%nat -> c + Z.of_nat n = 255 -> 1 <= c ->
  length okm = (32 * (254 - n))%nat -> (n <= 254)%nat -> (len <= length okm + 32 * n)%nat ->
  hkdf_loop fuel secret info len okm block c = Ok (take len (okm ++ hkdf_blocks n secret info block c)).
Proof.
  revert n okm block c. induction fuel as [|fuel IH]; intros n okm block c Hf Hc Hc1 Ho Hn Hl; [lia|].
  cbn [hkdf_loop]. destruct (Nat.ltb_spec (length okm) len).
  - destruct n as [|n]; [lia|]. rewrite Z.gtb_ltb, (proj2 (Z.ltb_ge _ _)) by (unfold u8_max; lia).
    cbn [hkdf_blocks]. rewrite (IH n) by (rewrite ?length_app, ?hmac_length; lia). by rewrite <- app_assoc.
  - rewrite take_app_le by done. done.
Qed.

Lemma hkdf_loop_overflow fuel n secret info len okm block c :
  (n < fuel)%nat -> c + Z.of_nat n = 255 -> 1 <= c ->
  length okm = (32 * (254 - n))%nat -> (n <= 254)%nat -> (254 * 32 < len)%nat ->
  hkdf_loop fuel secret info len okm block c = Err DeriveSecret.
Proof.
  revert n okm block c. induction fuel as [|fuel IH]; intros n okm block c Hf Hc Hc1 Ho Hn Hl; [lia|].
  cbn [hkdf_loop]. destruct (Nat.ltb_spec (length okm) len); [|lia]. rewrite Z.gtb_ltb. unfold u8_max.
  destruct (Z.ltb_spec 255 (c + 1)); [done|]. destruct n as [|n]; [lia|].
  apply (IH n); rewrite ?length_app, ?hmac_length; lia.
Qed.

Lemma hkdf_expand_spec secret info len :
  (len <= 254 * 32)%nat -> hkdf_expand secret info len = Ok (hkdf_spec secret info len).
Proof. intros. unfold hkdf_expand, hkdf_spec. rewrite (hkdf_loop_spec 256 254); (done || simpl; lia). Qed.

Lemma length_hkdf_spec secret info len : (len <= 254 * 32)%nat -> length (hkdf_spec secret info len) = len.
Proof. intros. unfold hkdf_spec. rewrite length_take, length_hkdf_blocks. lia. Qed.

Lemma derive_tree_secret_spec secret label g len :
  (String.length label < 32)%nat -> (len <= 32)%nat ->
  derive_tree_secret secret label g len = Ok (tree_secret secret label g len) /\
  length (tree_secret secret label g len) = len.
Proof.
  intros Hlab Hl. unfold derive_tree_secret, tree_secret.
  rewrite Z.mod_small by (unfold u16_mod; lia).
  assert (Hlen : (length (str_bytes ("MLS 1.0 " +:+ label)) < 64)%nat).
  { unfold str_bytes. rewrite length_fmap. change (length (String.list_ascii_of_string ("MLS 1.0 " +:+ label))) with
      (8 + length (String.list_ascii_of_string label))%nat.
    enough (length (String.list_ascii_of_string label) = String.length label) by lia.
    induction label as [|c l IH]; simpl in *; [done|]. rewrite IH; lia. }
  destruct (kdf_label_ok (Z.of_nat len) (str_bytes ("MLS 1.0 " +:+ label)) (to_be 4 g) Hlen) as [i ->]; [rewrite length_to_be; lia|].
  cbn [ok_or mbind res_mbind default]. split; [apply hkdf_expand_spec; lia|apply length_hkdf_spec; lia].
Qed.

Lemma next_ok secret r :
  ratchet_ok secret r -> next_generation r < u32_mod - 1 ->
  exists r', next r = Ok r' /\ ratchet_ok secret r' /\ next_generation r' = next_generation r + 1 /\
    cache r' = <[next_generation r := generation_secrets secret (Z.to_nat (next_generation r))]> (cache r).
Proof.
  intros [(g & Hg & Hs) Hc] Hlt. unfold next.
  destruct (derive_tree_secret_spec (next_secret r) "key" (next_generation r) 16) as [-> _]; [simpl; lia..|].
  destruct (derive_tree_secret_spec (next_secret r) "nonce" (next_generation r) 12) as [-> _]; [simpl; lia..|].
  destruct (derive_tree_secret_spec (next_secret r) "secret" (next_generation r) 32) as [-> _]; [simpl; lia..|].
  cbn [mbind res_mbind]. rewrite Hg, Hs. unfold wrapping_add. rewrite Z.mod_small by lia.
  eexists. split; [done|]. cbn [cache next_generation]. rewrite Nat2Z.id.
  split; [|done]. split; cbn [next_generation next_secret cache].
  - exists (S g). split; [lia|done].
  - intros g' s. destruct (decide (g' = Z.of_nat g)) as [->|].
    + rewrite lookup_insert_eq. intros [= <-]. rewrite Nat2Z.id. split; [lia|done].
    + rewrite lookup_insert_ne by done. intros [? ->]%Hc. split; [lia|done].
Qed.

Lemma advance_loop_ok fuel secret r generation :
  ratchet_ok secret r -> 0 <= generation < u32_mod - 1 -> (Z.to_nat (generation - next_generation r + 1) <= fuel)%nat ->
  exists r', advance_loop fuel r generation = (Ok tt, r') /\ ratchet_ok secret r' /\
    next_generation r' = Z.max (next_generation r) (generation + 1) /\
    (forall g, next_generation r <= g <= generation -> cache r' !! g = Some (generation_secrets secret (Z.to_nat g))) /\
    (forall g, g < next_generation r -> cache r' !! g = cache r !! g).
Proof.
  revert r. induction fuel as [|fuel IH]; intros r Hr Hg Hf; cbn [advance_loop];
    destruct (Z.leb_spec (next_generation r) generation) as [Hle|Hgt]; try lia.
  1, 3: exists r; split; [done|]; split; [done|]; split; [lia|]; split; [lia|done].
  destruct (next_ok secret r Hr) as (r1 & -> & Hr1 & Hn1 & Hc1); [lia|].
  destruct (IH r1 Hr1 Hg) as (r' & -> & Hr' & Hn' & Hnew & Hold); [lia|].
  exists r'. split; [done|]. split; [done|]. split; [lia|]. split.
  - intros g Hg'. destruct (decide (g = next_generation r)) as [->|]; [|apply Hnew; lia].
    rewrite Hold, Hc1 by lia. apply lookup_insert_eq.
  - intros g Hg'. rewrite Hold, Hc1 by lia. apply lookup_insert_ne. lia.
Qed.

(** Which generations can still be obtained. *)
Definition available (r : HashRatchet) (g : Z) : Prop := is_Some (cache r !! g) \/ next_generation r <= g.

#[export] Instance available_dec r g : Decision (available r g).
Proof. unfold available. apply _. Defined.

Lemma get_spec secret r g :
  ratchet_ok secret r -> 0 <= g < u32_mod - 1 ->
  exists r', get r g = (if decide (available r g) then Ok (generation_secrets secret (Z.to_nat g)) else Err DeriveSecret, r') /\
    ratchet_ok secret r' /\ next_generation r <= next_generation r' /\
    (available r g -> g < next_generation r' /\ is_Some (cache r' !! g)) /\
    (forall g', g' < next_generation r -> cache r' !! g' = cache r !! g') /\
    (forall g', available r g' -> available r' g').
Proof.
  intros Hr Hg. unfold get.
  destruct (decide (is_Some (cache r !! g))) as [[s Hs]|Hs].
  - rewrite bool_decide_eq_true_2 by eauto. rewrite decide_True by (left; eauto). rewrite Hs. cbn [ok_or].
    destruct (ratchet_cache _ _ Hr _ _ Hs) as [? ->]. exists r. split; [done|]. split; [done|].
    split; [lia|]. split; [|done]. intros _. rewrite Hs. split; [lia|eauto].
  - rewrite bool_decide_eq_false_2 by done. rewrite Z.gtb_ltb.
    destruct (Z.ltb_spec g (next_generation r)) as [Hlt|Hge].
    + exists r. rewrite decide_False by (intros [?|?]; [done|lia]).
      split; [done|]. split; [done|]. split; [lia|]. split; [|done]. intros [?|?]; [done|lia].
    + destruct (advance_loop_ok (Z.to_nat (g - next_generation r + 1)) secret r g Hr Hg) as (r' & -> & Hr' & Hn & Hnew & Hold); [lia|].
      rewrite (Hnew g) by lia. rewrite decide_True by (right; lia). cbn [ok_or]. exists r'.
      split; [done|]. split; [done|]. split; [lia|].
      split; [intros _; split; [lia|]; rewrite Hnew by lia; eauto|]. split; [done|].
      intros g' Hg'. destruct (decide (next_generation r' <= g')); [by right|]. left.
      destruct (decide (next_generation r <= g')); [rewrite Hnew by lia; eauto|]. rewrite Hold by lia.
      destruct Hg' as [?|?]; [done|lia].
Qed.

Lemma new_ok secret : ratchet_ok secret (new secret).
Proof. split; [by exists O|]. cbn. intros g s. by rewrite lookup_empty. Qed.

Lemma erase_ok secret r g : ratchet_ok secret r -> ratchet_ok secret (erase r g).
Proof. intros [Hn Hc]. split; [done|]. cbn. intros g' s [_ H]%lookup_delete_Some. by apply Hc. Qed.

Lemma generation_secrets_length secret g :
  length (key (generation_secrets secret g)) = 16%nat /\ length (nonce (generation_secrets secret g)) = 12%nat.
Proof.
  unfold generation_secrets. cbn [key nonce]. split; apply derive_tree_secret_spec; simpl; lia.
Qed.

(** ** Sequences of calls *)
Inductive op := Get (g : Z) | Erase (g : Z).

Definition op_wf (o : op) : Prop := match o with Get g => 0 <= g < u32_mod - 1 | Erase _ => True end.

Definition run_op (r : HashRatchet) (o : op) : HashRatchet :=
  match o with Get g => (get r g).2 | Erase g => erase r g end.

Lemma run_ok secret r ops : ratchet_ok secret r -> Forall op_wf ops -> ratchet_ok secret (foldl run_op r ops).
Proof.
  intros Hr Hops. revert r Hr. induction Hops as [|o ops Ho Hops IH]; intros r Hr; [done|]. apply IH.
  destruct o as [g|g]; cbn; [|by apply erase_ok].
  by destruct (get_spec secret r g Hr Ho) as (r' & -> & ? & _).
Qed.

Lemma unavailable_stays secret r g ops :
  ratchet_ok secret r -> Forall op_wf ops -> ~ available r g -> ~ available (foldl run_op r ops) g.
Proof.
  intros Hr Hops. revert r Hr. induction Hops as [|o ops Ho Hops IH]; intros r Hr Hn; [done|].
  assert (Hr1 : ratchet_ok secret (run_op r o)) by (apply (run_ok secret r [o] Hr); auto).
  apply IH; [done|]. destruct o as [g'|g']; cbn.
  - destruct (get_spec secret r g' Hr Ho) as (r' & -> & _ & Hle & _ & Hold & _). cbn.
    intros [H|H]; apply Hn; [|right; lia]. left.
    destruct (decide (g < next_generation r)); [by rewrite <- Hold|]. exfalso. apply Hn. right. lia.
  - intros [[s H]|H]; apply Hn; [left|by right]. cbn in H. apply lookup_delete_Some in H as [_ H]. eauto.
Qed.

(** ** Properties *)

(** HKDF-Expand: up to 254 blocks of HMAC-SHA256 the result is the prefix of
    T(1) || T(2) || ... that RFC 5869 asks for; beyond that (one block before
    the RFC's limit, since the counter is incremented after the last block) the
    code returns an error.  It never loops without end. *)
Theorem hkdf_expand_correct secret info len :
  hkdf_expand secret info len =
    if (len <=? 254 * 32)%nat then Ok (hkdf_spec secret info len) else Err DeriveSecret.
Proof.
  destruct (Nat.leb_spec len (254 * 32)); [by apply hkdf_expand_spec|].
  unfold hkdf_expand. apply (hkdf_loop_overflow 256 254); (done || simpl; lia).
Qed.

(** For every sequence of [get] and [erase] calls on a ratchet started from
    [secret]: a later [get] of a generation returns exactly the key and nonce
    of that generation's link of the MLS secret chain (16 and 12 bytes), unless
    that generation has been passed and erased, in which case it returns
    [DeriveSecret]; and it never loops without end. *)
Theorem ratchet_get_correct secret ops g :
  Forall op_wf ops -> 0 <= g < u32_mod - 1 ->
  let r := foldl run_op (new secret) ops in
  (get r g).1 = (if decide (available r g) then Ok (generation_secrets secret (Z.to_nat g)) else Err DeriveSecret) /\
  length (key (generation_secrets secret (Z.to_nat g))) = 16%nat /\
  length (nonce (generation_secrets secret (Z.to_nat g))) = 12%nat.
Proof.
  intros Hops Hg r. pose proof (run_ok secret _ ops (new_ok secret) Hops) as Hr.
  destruct (get_spec secret r g Hr Hg) as (r' & -> & _). split; [done|]. apply generation_secrets_length.
Qed.

(** Forward secrecy of the key cache: once a generation that has been derived
    is erased, no later sequence of calls can make the ratchet return its key. *)
Theorem ratchet_erase_final secret before g after :
  Forall op_wf before -> Forall op_wf after -> 0 <= g < u32_mod - 1 ->
  g < next_generation (foldl run_op (new secret) before) ->
  (get (foldl run_op (erase (foldl run_op (new secret) before) g) after) g).1 = Err DeriveSecret.
Proof.
  intros Hb Ha Hg Hlt. set (r0 := foldl run_op (new secret) before) in *.
  assert (Hr0 : ratchet_ok secret r0) by (apply run_ok; [apply new_ok|done]).
  assert (Hn : ~ available (erase r0 g) g).
  { intros [[s H]|H]; [|by apply Z.nlt_ge in H]. cbn in H. by rewrite lookup_delete_eq in H. }
  pose proof (unavailable_stays secret _ g after (erase_ok _ _ g Hr0) Ha Hn) as Hn'.
  pose proof (run_ok secret _ after (erase_ok _ _ g Hr0) Ha) as Hr'.
  destruct (get_spec secret _ g Hr' Hg) as (r' & -> & _). by rewrite decide_False.
Qed.

End Ratchet.

(** ** Concrete primitives for the witnesses *)
Module SampleKdf.

(** A computable 32-byte digest, and a length-prefixed label. *)
#[export] Instance primitives : RatchetPrimitives := {|
  hmac_sha256 := fun k m => replicate 32 (foldl (fun acc b => (acc * 31 + b + 7) mod 256) 1 (k ++ m));
  kdf_label_serialize := fun n label context =>
    Some (to_be 2 n ++ [Z.of_nat (length label)] ++ label ++ [Z.of_nat (length context)] ++ context);
|}.

#[export] Instance laws : RatchetLaws primitives.
Proof. split; intros; cbn; eauto using length_replicate. Qed.

Lemma hkdf_expand_correct_witness :
  hkdf_expand [1] [2; 3] 40 = if (40 <=? 254 * 32)%nat then Ok (hkdf_spec [1] [2; 3] 40) else Err DeriveSecret.
Proof. apply (hkdf_expand_correct [1] [2; 3] 40). Defined.

Lemma ratchet_get_correct_witness :
  let r := foldl run_op (new [1; 2]) [Get 2; Erase 1] in
  (get r 2).1 = (if decide (available r 2) then Ok (generation_secrets [1; 2] (Z.to_nat 2)) else Err DeriveSecret) /\
  length (key (generation_secrets [1; 2] (Z.to_nat 2))) = 16%nat /\
  length (nonce (generation_secrets [1; 2] (Z.to_nat 2))) = 12%nat.
Proof.
  apply (ratchet_get_correct [1; 2] [Get 2; Erase 1] 2); [|unfold u32_mod; lia].
  repeat constructor; unfold u32_mod; lia.
Defined.

Lemma ratchet_erase_final_witness :
  (get (foldl run_op (erase (foldl run_op (new [1; 2]) [Get 2]) 1) [Get 3; Erase 0]) 1).1 = Err DeriveSecret.
Proof.
  apply (ratchet_erase_final [1; 2] [Get 2] 1 [Get 3; Erase 0]); [| |unfold u32_mod; lia|vm_compute; reflexivity];
    repeat constructor; unfold u32_mod; lia.
Defined.

End SampleKdf.

End HashRatchet.
