(* ===== verification/Cryptor.v ===== *)
(** * Sender and receiver cryptors (dave/src/ratchet.rs, dave/src/passthrough.rs)

    [Passthrough]: the plaintext passthrough window.  [Sender]: [Encryptor],
    its nonce and generation counters and the retry loop.  [MissingNonces]:
    the window of skipped nonces.  [Manager]: [CryptorManager], replay
    protection and key generations of one ratchet.  [Receiver]: [Decryptor],
    its list of managers.

    Time is an argument: [now] is the reading of the monotonic clock in
    nanoseconds, one reading per operation, and a [clock] of the source is the
    instant it was started. *)

From Stdlib Require Import Sorting.Sorted.
From S2P Require Import Prelude Leb128 Codec Gcm Frame FrameCodec Ratchet.
Import Interleave Processor.
#[local] Opaque HashRatchet.generation_secrets.

Definition NANOS_PER_SEC : Z := 1000000000.
Definition MAX_CIPHERTEXT_VALIDATION_RETRIES : nat := 10.
Definition RATCHET_GENERATION_SHIFT_BITS : Z := 8 * (Z.of_nat TRUNCATED_NONCE_BYTES - 1).
Definition GENERATION_WRAP : Z := Z.shiftl 1 8.
Definition CIPHER_EXPIRY : Z := 10 * NANOS_PER_SEC.
Definition RATCHET_EXPIRY : Z := 10 * NANOS_PER_SEC.
Definition MAX_GENERATION_GAP : Z := 250.
Definition MAX_MISSING_NONCES : Z := 1000.
Definition MAX_FRAMES_PER_SECOND : Z := 50 + 2 * 60.

(** [u32] arithmetic, with the wrap of a release build; [compute_wrapped_generation_exact]
    and the bound on the age of a ratchet keep it from happening. *)
Definition compute_wrapped_generation (oldest generation : Z) : Z :=
  let remainder := oldest mod GENERATION_WRAP in
  let factor := oldest / GENERATION_WRAP + (if generation <? remainder then 1 else 0) in
  (factor * GENERATION_WRAP + generation) mod u32_mod.

Definition wrapped_nonce (generation nonce : Z) : Z :=
  let masked := Z.land nonce (Z.shiftl 1 RATCHET_GENERATION_SHIFT_BITS - 1) in
  Z.lor (Z.shiftl generation RATCHET_GENERATION_SHIFT_BITS) masked.

(** *** Selecting from related lists *)
Lemma sublist_select {A B} (R : A -> B -> Prop) (l l' : list A) (k : list B) :
  l `sublist_of` l' -> Forall2 R l' k -> exists k', k' `sublist_of` k /\ Forall2 R l k'.
Proof.
  intros Hs. revert k. induction Hs as [|x l l' Hs IH|x l l' Hs IH]; intros k Hf.
  - apply Forall2_nil_inv_l in Hf as ->. by exists [].
  - apply Forall2_cons_inv_l in Hf as (y & k' & Hr & Hf & ->). destruct (IH k' Hf) as (k1 & ? & ?).
    exists (y :: k1). split; by constructor.
  - apply Forall2_cons_inv_l in Hf as (y & k' & Hr & Hf & ->). destruct (IH k' Hf) as (k1 & ? & ?).
    exists k1. split; [by constructor|done].
Qed.

Lemma forall_sublist {A} (Q : A -> Prop) (l k : list A) : l `sublist_of` k -> Forall Q k -> Forall Q l.
Proof. intros Hs Hk. rewrite Forall_forall in *. intros x Hx. by apply Hk, (elem_of_sublist l). Qed.

(** *** Generations and nonces *)
Lemma shift_bits : RATCHET_GENERATION_SHIFT_BITS = 24.
Proof. done. Qed.

(** The wire carries a generation modulo 256; it is recovered exactly as long as
    it lies within 256 of the oldest generation known. *)
Lemma compute_wrapped_generation_exact oldest g :
  0 <= oldest <= g -> g < oldest + 256 -> g < u32_mod ->
  compute_wrapped_generation oldest (g mod 256) = g.
Proof.
  intros Ho Hg Hm. unfold compute_wrapped_generation. change GENERATION_WRAP with 256.
  pose proof (Z.div_mod oldest 256 ltac:(lia)). pose proof (Z.mod_pos_bound oldest 256 ltac:(lia)).
  pose proof (Z.div_mod g 256 ltac:(lia)). pose proof (Z.mod_pos_bound g 256 ltac:(lia)).
  destruct (Z.ltb_spec (g mod 256) (oldest mod 256)).
  - assert (g / 256 = oldest / 256 + 1) by nia. rewrite Z.mod_small; nia.
  - assert (g / 256 = oldest / 256) by nia. rewrite Z.mod_small; nia.
Qed.

Lemma wrapped_nonce_eq g nonce : 0 <= nonce -> wrapped_nonce g nonce = g * 2 ^ 24 + nonce mod 2 ^ 24.
Proof.
  intros Hn. unfold wrapped_nonce. rewrite shift_bits. change (Z.shiftl 1 24 - 1) with (Z.ones 24).
  rewrite Z.land_ones by lia. rewrite Z.lor_comm, lor_shiftl_add; [lia|lia|]. apply Z.mod_pos_bound. lia.
Qed.

(** The frame counter [i] of a sender determines the truncated nonce and the
    generation, and can be read back from them. *)
Lemma counter_generation i : 0 <= i -> Z.shiftr (i mod u32_mod) RATCHET_GENERATION_SHIFT_BITS = (i / 2 ^ 24) mod 256.
Proof.
  intros Hi. rewrite shift_bits, Z.shiftr_div_pow2 by lia. unfold u32_mod.
  change (2 ^ 32) with (2 ^ 24 * 256). rewrite Z.rem_mul_r by lia.
  rewrite Z.mul_comm, Z.div_add by lia. rewrite Z.div_small by (apply Z.mod_pos_bound; lia). lia.
Qed.

Lemma wrapped_nonce_counter i : 0 <= i -> wrapped_nonce (i / 2 ^ 24) (i mod u32_mod) = i.
Proof.
  intros Hi. rewrite wrapped_nonce_eq by (apply Z.mod_pos_bound; done). unfold u32_mod.
  change (2 ^ 32) with (2 ^ 24 * 2 ^ 8). rewrite Z.rem_mul_r by lia. rewrite Z.mul_comm, Z.add_mod, Z.mul_mod by lia.
  rewrite Z.mod_same, Z.mul_0_l, Z.mod_0_l, Z.add_0_r, !Z.mod_mod by lia. pose proof (Z.div_mod i (2 ^ 24)). lia.
Qed.

(** ** Plaintext passthrough *)
Module Passthrough.

Inductive PassthroughMode := Enabled | DisabledAfter (transition_expiry : Z).

(** [until]: the instant passthrough ends, [None] while it is permanent. *)
Record PlaintextPassthrough := { until : option Z }.

Definition disabled (now : Z) : PlaintextPassthrough := {| until := Some now |}.

Definition from_until (u : option Z) : PlaintextPassthrough := {| until := u |}.

Definition apply (now : Z) (mode : PassthroughMode) (p : PlaintextPassthrough) : PlaintextPassthrough :=
  match mode with
  | Enabled => {| until := None |}
  | DisabledAfter transition_expiry =>
      let expiry := now + transition_expiry in
      {| until := Some (match until p with Some old => Z.min old expiry | None => expiry end) |}
  end.

Definition allows_plaintext (now : Z) (p : PlaintextPassthrough) : bool :=
  match until p with None => true | Some expiry => expiry >? now end.

(** Announcing the end of passthrough never opens it: after
    [DisabledAfter d], plaintext is accepted at a later instant only if it would
    have been accepted before, and never from [now + d] on, whatever
    [DisabledAfter] modes follow. *)
Theorem disabled_after_only_shrinks now d p later ds :
  allows_plaintext later (foldl (fun p d => apply d.1 (DisabledAfter d.2) p) (apply now (DisabledAfter d) p) ds) = true ->
  allows_plaintext later p = true /\ later < now + d.
Proof.
  assert (Hshrink : forall q t e, allows_plaintext later (apply t (DisabledAfter e) q) = true ->
            allows_plaintext later q = true /\ later < t + e).
  { intros q t e. unfold allows_plaintext, apply. cbn [until].
    destruct (until q) as [o|]; rewrite !Z.gtb_ltb, !Z.ltb_lt; [lia|]. intros. split; [done|lia]. }
  induction ds as [|[t e] ds IH] using rev_ind; [apply Hshrink|].
  rewrite foldl_snoc. intros [H _]%Hshrink. by apply IH.
Qed.

Lemma disabled_after_only_shrinks_witness :
  allows_plaintext 12 {| until := None |} = true /\ 12 < 10 + 5.
Proof. apply (disabled_after_only_shrinks 10 5 {| until := None |} 12 [(11, 3)]). vm_compute. reflexivity. Defined.

End Passthrough.

(** ** The sender *)
Module Sender.
Section Sender.
Context `{P : RatchetPrimitives} `{A : FrameAead}.
Import HashRatchet FrameFormat.

Record Encryptor := {
  active_ratchet : option HashRatchet;
  pending_ratchet : option HashRatchet;
  cipher : option aead;
  current_generation : Z;
  truncated_nonce : Z;
  frame_processor : OutboundFrameProcessor;
}.

Definition default_encryptor : Encryptor :=
  {| active_ratchet := None; pending_ratchet := None; cipher := None;
     current_generation := 0; truncated_nonce := 0; frame_processor := reset |}.

Definition stage_ratchet (r : HashRatchet) (e : Encryptor) : Encryptor :=
  {| active_ratchet := active_ratchet e; pending_ratchet := Some r; cipher := cipher e;
     current_generation := current_generation e; truncated_nonce := truncated_nonce e;
     frame_processor := frame_processor e |}.

Definition activate_pending (e : Encryptor) : bool * Encryptor :=
  match pending_ratchet e with
  | None => (false, e)
  | Some r =>
      (true, {| active_ratchet := Some r; pending_ratchet := None; cipher := None;
                current_generation := 0; truncated_nonce := 0; frame_processor := frame_processor e |})
  end.

Definition reset_encryptor (e : Encryptor) : Encryptor := default_encryptor.

Definition ready (e : Encryptor) : bool := match active_ratchet e with Some _ => true | None => false end.

Definition set_processor (p : OutboundFrameProcessor) (e : Encryptor) : Encryptor :=
  {| active_ratchet := active_ratchet e; pending_ratchet := pending_ratchet e; cipher := cipher e;
     current_generation := current_generation e; truncated_nonce := truncated_nonce e; frame_processor := p |}.

(** [advance_cipher]: the nonce for the next frame, and the encryptor after the
    call.  The nonce and the generation are updated before the key is
    fetched, also when that fails. *)
Definition advance_cipher (e : Encryptor) : res EncryptError Z * Encryptor :=
  match active_ratchet e with
  | None => (Err SenderNotReady, e)
  | Some ratchet =>
      let n := wrapping_add u32_mod (truncated_nonce e) 1 in
      let generation := compute_wrapped_generation (current_generation e) (Z.shiftr n RATCHET_GENERATION_SHIFT_BITS) in
      let with_state ratchet gen c :=
        {| active_ratchet := Some ratchet; pending_ratchet := pending_ratchet e; cipher := c;
           current_generation := gen; truncated_nonce := n; frame_processor := frame_processor e |} in
      if negb (generation =? current_generation e) || bool_decide (cipher e = None) then
        let '(got, ratchet) := get ratchet generation in
        match got with
        | Ok secrets =>
            match frame_cipher_new (key secrets) with
            | Ok c => (Ok n, with_state ratchet generation (Some c))
            | Err _ => (Err InvalidKey, with_state ratchet generation (cipher e))
            | Panic => (Panic, with_state ratchet generation (cipher e))
            end
        | Err _ => (Err MissingRatchetKey, with_state ratchet generation (cipher e))
        | Panic => (Panic, with_state ratchet generation (cipher e))
        end
      else (Ok n, with_state ratchet (current_generation e) (cipher e))
  end.

(** The [for] loop of [encrypt_into]; the output buffer on success. *)
Fixpoint encrypt_attempts (attempts : nat) (c : MediaCodec) (e : Encryptor) : res EncryptError bytes * Encryptor :=
  match attempts with
  | O => (Err TooManyAttempts, e)
  | S attempts =>
      match advance_cipher e with
      | (Ok nonce, e) =>
          match cipher e with
          | None => (Err MissingRatchetKey, e)
          | Some ciph =>
              match encrypt_processed ciph nonce (frame_processor e) with
              | Ok (output, p) =>
                  let e := set_processor p e in
                  match validate_processed c p output with
                  | Ok true => (Ok output, e)
                  | Ok false => encrypt_attempts attempts c e
                  | Err err => (Err err, e)
                  | Panic => (Panic, e)
                  end
              | Err err => (Err err, e)
              | Panic => (Panic, e)
              end
          end
      | (Err err, e) => (Err err, e)
      | (Panic, e) => (Panic, e)
      end
  end.

Definition encrypt_into (c : MediaCodec) (frame : bytes) (e : Encryptor) : res EncryptError bytes * Encryptor :=
  match process c frame with
  | Ok p => encrypt_attempts MAX_CIPHERTEXT_VALIDATION_RETRIES c (set_processor p e)
  | Err err => (Err err, e)
  | Panic => (Panic, e)
  end.

(** *** The sender as a frame counter

    [counted secret n e]: the encryptor was activated with a ratchet for
    [secret] and has used the nonces of frames 1 to [n]. *)
Definition frame_key (secret : bytes) (n : Z) : aead :=
  aead_new (key (generation_secrets secret (Z.to_nat (n / 2 ^ 24)))).

Record counted (secret : bytes) (n : Z) (e : Encryptor) : Prop := {
  counted_range : 0 <= n;
  counted_ratchet : exists r, active_ratchet e = Some r /\ ratchet_ok secret r /\
                              forall g, n / 2 ^ 24 <= g -> available r g;
  counted_nonce : truncated_nonce e = n mod u32_mod;
  counted_generation : current_generation e = n / 2 ^ 24;
  counted_cipher : cipher e = None \/ cipher e = Some (frame_key secret n);
}.

(** Generations stay below 2^32 - 1. *)
Definition max_frames : Z := 2 ^ 24 * (u32_mod - 1).

Context {HP : RatchetLaws P} {HA : FrameAeadLaws A}.

Lemma frame_cipher_new_ok secret n :
  frame_cipher_new (key (generation_secrets secret (Z.to_nat (n / 2 ^ 24)))) = Ok (frame_key secret n).
Proof.
  unfold frame_cipher_new. destruct (generation_secrets_length secret (Z.to_nat (n / 2 ^ 24))) as [-> _]. done.
Qed.

Lemma counted_activate secret e :
  pending_ratchet e = Some (new secret) -> counted secret 0 (activate_pending e).2.
Proof.
  intros He. unfold activate_pending. rewrite He. split; cbn; try done; [|by left].
  eexists. split; [done|]. split; [apply new_ok|]. intros g Hg. by right.
Qed.

Lemma advance_cipher_spec secret n e :
  counted secret n e -> n + 1 < max_frames ->
  exists e', advance_cipher e = (Ok ((n + 1) mod u32_mod), e') /\ counted secret (n + 1) e' /\
    cipher e' = Some (frame_key secret (n + 1)) /\ frame_processor e' = frame_processor e.
Proof.
  intros [Hn (r & Hr & Hok & Hav) Hnonce Hgen Hc] Hmax. unfold advance_cipher. rewrite Hr. cbv zeta.
  assert (Hw : wrapping_add u32_mod (truncated_nonce e) 1 = (n + 1) mod u32_mod).
  { unfold wrapping_add. rewrite Hnonce. apply Z.add_mod_idemp_l. done. }
  assert (Hstep : n / 2 ^ 24 <= (n + 1) / 2 ^ 24 < n / 2 ^ 24 + 2).
  { split; [apply Z.div_le_mono; lia|]. apply Z.div_lt_upper_bound; [lia|]. pose proof (Z.div_mod n (2 ^ 24)).
    pose proof (Z.mod_pos_bound n (2 ^ 24)). lia. }
  assert (Hlt : (n + 1) / 2 ^ 24 < u32_mod - 1) by (apply Z.div_lt_upper_bound; [lia|exact Hmax]).
  assert (0 <= n / 2 ^ 24) by (apply Z.div_pos; lia).
  rewrite Hw, counter_generation, Hgen, compute_wrapped_generation_exact by lia.
  destruct (negb _ || _) eqn:Hcond.
  - destruct (get_spec secret r ((n + 1) / 2 ^ 24) Hok) as (r' & -> & Hok' & _ & _ & _ & Hmono); [lia|].
    rewrite decide_True by (apply Hav; lia). rewrite frame_cipher_new_ok.
    eexists. split; [done|]. split; [|done]. split; cbn; try done; [lia| |by right].
    exists r'. split; [done|]. split; [done|]. intros g Hg. apply Hmono, Hav. lia.
  - apply orb_false_iff in Hcond as [Hsame%negb_false_iff%Z.eqb_eq Hnone%bool_decide_eq_false].
    eexists. split; [done|]. unfold frame_key in *. rewrite Hsame. destruct Hc as [?|Hc]; [done|].
    split; [|done]. split; cbn [active_ratchet truncated_nonce current_generation cipher].
    + lia.
    + exists r. split; [done|]. split; [done|]. intros g Hg. apply Hav. lia.
    + done.
    + done.
    + right. unfold frame_key. by rewrite Hsame.
Qed.

(** [out] is an encrypted frame with nonce [nonce] that the holder of [k]
    decrypts to [kept]. *)
Definition sent_as (k : aead) (nonce : Z) (kept out : bytes) : Prop :=
  exists pf, parse out = Ok pf /\ parsed_ok out pf /\ encrypted pf = true /\ FrameFormat.truncated_nonce pf = nonce /\
    forall gen, decrypt_into k gen pf = Ok kept.

Definition send_result (c : MediaCodec) (frame : bytes) (secret : bytes) (n : Z) (r : res EncryptError bytes) : Prop :=
  match r with
  | Ok out => exists kept, kept_of c frame kept /\ sent_as (frame_key secret n) (n mod u32_mod) kept out
  | Err e => e = SupplementalDataTooLarge \/ (e = TooManyAttempts /\ is_h26x c)
  | Panic => False
  end.

Lemma counted_set_processor secret n p e : counted secret n e -> counted secret n (set_processor p e).
Proof. by intros []. Qed.

Lemma validate_total c p kept out :
  holds p kept -> (length kept <= length out)%nat ->
  exists b, validate_processed (E := EncryptError) c p out = Ok b /\ (b = false -> is_h26x c).
Proof.
  intros Hp Hl. unfold is_h26x. destruct c; cbn [validate_processed]; try (eexists; by split).
  all: unfold validate_h26x_encrypted_frame; rewrite (holds_index _ _ Hp);
       destruct (validate_loop_total (E := EncryptError) (unencrypted_ranges p) (length kept) out 0) as [b ->];
         [apply Hp|done|]; exists b; by auto.
Qed.

Lemma encrypt_attempts_spec attempts c frame secret n e kept :
  counted secret n e -> n + Z.of_nat attempts < max_frames ->
  processed_ok c frame (frame_processor e) kept -> Z.of_nat (length kept) < u64_mod ->
  (attempts <> O \/ is_h26x c) ->
  exists n' r e', encrypt_attempts attempts c e = (r, e') /\ counted secret n' e' /\
    n <= n' <= n + Z.of_nat attempts /\ (attempts <> O -> n < n') /\ send_result c frame secret n' r.
Proof.
  revert n e. induction attempts as [|k IH]; intros n e Hc Hmax Hp Hl Hk; cbn [encrypt_attempts].
  { exists n. do 2 eexists. split; [done|]. split; [done|]. split; [lia|]. split; [done|]. right. destruct Hk as [[]|]; done. }
  destruct (advance_cipher_spec secret n e Hc) as (e1 & -> & Hc1 & -> & Hp1); [lia|].
  rewrite Hp1. destruct Hp as (Hkept & Hh & Hcoded).
  assert (Hu : is_u32 ((n + 1) mod u32_mod)) by (apply Z.mod_pos_bound; done).
  destruct (decide (supplemental_size ((n + 1) mod u32_mod) (unencrypted_ranges (frame_processor e)) <= 255)%nat) as [Hs|Hs].
  2: { rewrite (encrypt_processed_too_large _ _ _ kept) by (done || lia). exists (n + 1). do 2 eexists.
       split; [done|]. split; [done|]. split; [lia|]. split; [lia|]. by left. }
  destruct (encrypt_processed_roundtrip (frame_key secret (n + 1)) ((n + 1) mod u32_mod) (frame_processor e) kept)
    as (out & ct & pf & -> & Hlen & Hparse & Hpok & Henc & Hnon & Hdec); try done.
  assert (Hh' := holds_set_ciphertext ct _ _ Hh).
  destruct (validate_total c (set_ciphertext ct (frame_processor e)) kept out Hh') as (b & -> & Hb); [lia|].
  apply (counted_set_processor _ _ (set_ciphertext ct (frame_processor e))) in Hc1. destruct b.
  - exists (n + 1). do 2 eexists. split; [done|]. split; [done|]. split; [lia|]. split; [lia|]. exists kept. split; [done|]. by exists pf.
  - destruct (IH (n + 1) _ Hc1) as (n' & r & e' & -> & ? & ? & _ & ?); [lia| |done|right; by apply Hb|].
    { split; [done|]. split; [done|]. intros H. apply Hcoded in H. exact H. }
    exists n', r, e'. split; [done|]. split; [done|]. split; [lia|]. split; [lia|done].
Qed.

Lemma encrypt_into_spec c frame secret n e :
  counted secret n e -> n + 10 < max_frames -> all_bytes frame -> Z.of_nat (length frame) < 2 ^ 63 ->
  exists n' r e', encrypt_into c frame e = (r, e') /\ counted secret n' e' /\ n < n' <= n + 10 /\
    send_result c frame secret n' r.
Proof.
  intros Hc Hmax Hb Hl. unfold encrypt_into.
  destruct (process_spec (E := EncryptError) c frame Hb) as (p & kept & -> & Hp); [unfold u64_mod; lia|].
  pose proof (length_kept c frame kept Hb (proj1 Hp)).
  destruct (encrypt_attempts_spec MAX_CIPHERTEXT_VALIDATION_RETRIES c frame secret n (set_processor p e) kept)
    as (n' & r & e' & -> & ? & ? & Hlt & ?).
  - by apply counted_set_processor.
  - done.
  - done.
  - unfold u64_mod. lia.
  - by left.
  - exists n', r, e'. split; [done|]. split; [done|]. split; [|done].
    specialize (Hlt ltac:(done)). unfold MAX_CIPHERTEXT_VALIDATION_RETRIES in *. lia.
Qed.

(** *** A whole conversation *)
Fixpoint send_all (reqs : list (MediaCodec * bytes)) (e : Encryptor) : list (res EncryptError bytes) * Encryptor :=
  match reqs with
  | [] => ([], e)
  | (c, frame) :: reqs =>
      let '(r, e) := encrypt_into c frame e in
      let '(rs, e) := send_all reqs e in
      (r :: rs, e)
  end.

Lemma send_all_spec secret reqs n e :
  counted secret n e -> n + 10 * Z.of_nat (length reqs) < max_frames ->
  Forall (fun q => all_bytes q.2 /\ Z.of_nat (length q.2) < 2 ^ 63) reqs ->
  exists ns e', (send_all reqs e).2 = e' /\ Forall (fun m => n < m <= n + 10 * Z.of_nat (length reqs)) ns /\ StronglySorted Z.lt ns /\
    Forall3 (fun q r m => send_result q.1 q.2 secret m r) reqs (send_all reqs e).1 ns.
Proof.
  revert n e. induction reqs as [|[c frame] reqs IH]; intros n e Hc Hmax Hq; cbn [send_all].
  { exists [], e. repeat split; constructor. }
  apply Forall_cons in Hq as [[Hb Hl] Hq]. cbn [length] in Hmax.
  destruct (encrypt_into_spec c frame secret n e Hc) as (n' & r & e1 & -> & Hc1 & Hn & Hr); [lia|done|done|].
  destruct (IH n' e1 Hc1) as (ns & e2 & <- & Hlt & Hsort & H3); [lia|done|].
  destruct (send_all reqs e1) as [rs e3]. exists (n' :: ns), e3. split; [done|]. split.
  - cbn [length]. constructor; [lia|]. eapply Forall_impl; [exact Hlt|]. intros m Hm. cbn in Hm. lia.
  - split; [|by constructor]. constructor; [done|]. eapply Forall_impl; [exact Hlt|]. intros m Hm. cbn in Hm. lia.
Qed.

(** ** Properties of the sender *)

(** C4. No key/nonce pair is ever used twice.  However many frames an activated
    sender is asked to send (below 2^56), of whatever codecs, every frame that
    goes out is encrypted under a key generation and truncated nonce that no
    other frame used, and decrypts under that generation's key to the processed
    frame; sending fails only because the supplemental data does not fit or an
    H.26x frame kept failing validation, and never panics. *)
Theorem send_all_nonce_unique secret e reqs :
  pending_ratchet e = Some (new secret) -> 10 * Z.of_nat (length reqs) < max_frames ->
  Forall (fun q => all_bytes q.2 /\ Z.of_nat (length q.2) < 2 ^ 63) reqs ->
  exists ns, NoDup ((fun n => (n / 2 ^ 24, n mod u32_mod)) <$> ns) /\
    Forall3 (fun q r n => send_result q.1 q.2 secret n r) reqs (send_all reqs (activate_pending e).2).1 ns.
Proof.
  intros He Hmax Hq.
  destruct (send_all_spec secret reqs 0 (activate_pending e).2) as (ns & _ & _ & Hpos & Hsort & H3); try done.
  { by apply counted_activate. }
  exists ns. split; [|done]. apply NoDup_fmap_2_strong.
  - intros x y Hx Hy [= Hg Hn]. rewrite Forall_forall in Hpos. pose proof (Hpos x Hx). pose proof (Hpos y Hy).
    rewrite <- (wrapped_nonce_counter x), <- (wrapped_nonce_counter y) by lia. by rewrite Hg, Hn.
  - clear -Hsort. induction Hsort as [|x l Hs IH Hx]; constructor; [|done].
    intros Hin. rewrite Forall_forall in Hx. specialize (Hx x Hin). lia.
Qed.

End Sender.
End Sender.

(** ** Skipped nonces *)
Module MissingNonces.

Record MissingNonceWindow := { order : list Z; members : gset Z }.

Definition default_window : MissingNonceWindow := {| order := []; members := ∅ |}.

Definition contains (nonce : Z) (w : MissingNonceWindow) : bool := bool_decide (nonce ∈ members w).

(** The nonce stays in [order]. *)
Definition remove (nonce : Z) (w : MissingNonceWindow) : MissingNonceWindow :=
  {| order := order w; members := members w ∖ {[nonce]} |}.

Fixpoint prune_loop (oldest : Z) (order : list Z) (members : gset Z) : MissingNonceWindow :=
  match order with
  | nonce :: rest =>
      if nonce <? oldest then prune_loop oldest rest (members ∖ {[nonce]})
      else {| order := order; members := members |}
  | [] => {| order := []; members := members |}
  end.

Definition prune_before (oldest : Z) (w : MissingNonceWindow) : MissingNonceWindow :=
  prune_loop oldest (order w) (members w).

(** [members.insert] tells whether the nonce was new. *)
Definition push_back (w : MissingNonceWindow) (nonce : Z) : MissingNonceWindow :=
  if bool_decide (nonce ∈ members w) then w
  else {| order := order w ++ [nonce]; members := members w ∪ {[nonce]} |}.

(** [for missing in from..to { push_back(missing) }] *)
Definition push_missing (from to : Z) (w : MissingNonceWindow) : MissingNonceWindow :=
  foldl push_back w (seqZ from (to - from)).

(** The order is increasing and has every member in it; all are below [bound]. *)
Record window_ok (bound : Z) (w : MissingNonceWindow) : Prop := {
  window_sorted : StronglySorted Z.lt (order w);
  window_order : forall x, x ∈ members w -> x ∈ order w;
  window_bound : forall x, x ∈ order w -> x < bound;
}.

Lemma default_window_ok bound : window_ok bound default_window.
Proof. split; cbn; [constructor|set_solver|set_solver]. Qed.

Lemma remove_ok bound x w : window_ok bound w -> window_ok bound (remove x w).
Proof. intros [? Ho ?]. split; cbn; [done| |done]. intros y [Hy _]%elem_of_difference. by apply Ho. Qed.

Lemma prune_loop_spec oldest o ms bound :
  window_ok bound {| order := o; members := ms |} ->
  window_ok bound (prune_loop oldest o ms) /\
  forall x, x ∈ members (prune_loop oldest o ms) <-> x ∈ ms /\ oldest <= x.
Proof.
  revert ms. induction o as [|y o IH]; intros ms [Hs Ho Hb]; cbn [prune_loop order members] in *.
  { split; [by split|]. intros x. split; [|by intros []]. intros Hx. by apply Ho, elem_of_nil in Hx. }
  apply StronglySorted_inv in Hs as [Hs Hy]. rewrite Forall_forall in Hy.
  destruct (Z.ltb_spec y oldest).
  - destruct (IH (ms ∖ {[y]})) as [Hok Hin].
    { split; cbn; [done| |intros x Hx; apply Hb; by right].
      intros x [Hx Hne]%elem_of_difference. apply Ho, elem_of_cons in Hx as [->|?]; [set_solver|done]. }
    split; [done|]. intros x. rewrite Hin, elem_of_difference, elem_of_singleton.
    split; [intros [[? ?] ?]; by split|]. intros [? ?]. repeat split; [done| |done]. intros ->. lia.
  - split; [split; cbn; [by constructor; [|apply Forall_forall]|done|done]|]. cbn. intros x.
    split; [|by intros []]. intros Hx. split; [done|]. apply Ho, elem_of_cons in Hx as [->|Hx]; [done|].
    specialize (Hy x Hx). lia.
Qed.

Lemma prune_before_spec oldest w bound :
  window_ok bound w -> window_ok bound (prune_before oldest w) /\
  forall x, x ∈ members (prune_before oldest w) <-> x ∈ members w /\ oldest <= x.
Proof. destruct w. apply prune_loop_spec. Qed.

Lemma sorted_sublist (l k : list Z) : l `sublist_of` k -> StronglySorted Z.lt k -> StronglySorted Z.lt l.
Proof.
  induction 1 as [|x l k Hs IH|x l k Hs IH]; intros Hk; [done| |]; apply StronglySorted_inv in Hk as [Hk Hx].
  - constructor; [by apply IH|]. by eapply forall_sublist.
  - by apply IH.
Qed.

Lemma sorted_snoc (l : list Z) x : StronglySorted Z.lt l -> (forall y, y ∈ l -> y < x) -> StronglySorted Z.lt (l ++ [x]).
Proof.
  induction 1 as [|y l Hs IH Hy]; intros Hx; cbn; [repeat constructor|].
  constructor; [apply IH; intros z Hz; apply Hx; by right|].
  apply Forall_app. split; [done|]. constructor; [|done]. apply Hx. by left.
Qed.

Lemma push_missing_spec from to w :
  from <= to -> window_ok from w -> window_ok to (push_missing from to w) /\
  forall x, x ∈ members (push_missing from to w) <-> x ∈ members w \/ from <= x < to.
Proof.
  intros Hle Hw. unfold push_missing. assert (Hn : exists n, to = from + Z.of_nat n) by (exists (Z.to_nat (to - from)); lia).
  destruct Hn as [n ->]. replace (from + Z.of_nat n - from) with (Z.of_nat n) by lia. clear Hle.
  induction n as [|n IH].
  { rewrite Z.add_0_r. split; [done|]. intros x. split; [by left|]. intros [?|?]; [done|lia]. }
  rewrite seqZ_S, foldl_snoc. destruct IH as [[Hs Ho Hb] Hin].
  set (w' := foldl push_back w (seqZ from (Z.of_nat n))) in *.
  assert (Hnot : (from + Z.of_nat n) ∉ members w') by (intros H%Ho%Hb; lia).
  unfold push_back. rewrite bool_decide_eq_false_2 by done. split.
  - split; cbn [order members].
    + by apply sorted_snoc.
    + intros x Hx. rewrite elem_of_app, list_elem_of_singleton. apply elem_of_union in Hx as [Hx%Ho|Hx%elem_of_singleton]; [by left|by right].
    + intros x Hx. apply elem_of_app in Hx as [Hx%Hb|Hx]; [lia|]. apply list_elem_of_singleton in Hx as ->. lia.
  - intros x. cbn [members]. rewrite elem_of_union, Hin, elem_of_singleton.
    split; [intros [[?|?]|?]; [by left|right; lia..]|]. intros [?|?]; [by left; left|].
    destruct (decide (x = from + Z.of_nat n)); [by right|left; right; lia].
Qed.

End MissingNonces.

(** ** One ratchet of a remote sender *)
Module Manager.
Section Manager.
Context `{P : RatchetPrimitives} `{A : FrameAead}.
Import HashRatchet FrameFormat MissingNonces.

Record ExpiringCipher := { ec_cipher : aead; ec_expiry : option Z }.

Record CryptorManager := {
  clock : Z;
  ratchet : HashRatchet;
  ciphers : gmap Z ExpiringCipher;
  ratchet_created_at : Z;
  ratchet_expiry : option Z;
  oldest_generation : Z;
  newest_generation : Z;
  newest_nonce : option Z;
  missing_nonces : MissingNonceWindow;
}.

(** [clock.elapsed()] *)
Definition elapsed (now : Z) (m : CryptorManager) : Z := now - clock m.

Definition manager_new (now clk : Z) (r : HashRatchet) : CryptorManager :=
  {| clock := clk; ratchet := r; ciphers := ∅; ratchet_created_at := now - clk; ratchet_expiry := None;
     oldest_generation := 0; newest_generation := 0; newest_nonce := None; missing_nonces := default_window |}.

Definition update_expiry (expiry : Z) (m : CryptorManager) : CryptorManager :=
  {| clock := clock m; ratchet := ratchet m; ciphers := ciphers m; ratchet_created_at := ratchet_created_at m;
     ratchet_expiry := Some expiry; oldest_generation := oldest_generation m;
     newest_generation := newest_generation m; newest_nonce := newest_nonce m; missing_nonces := missing_nonces m |}.

Definition expired (now : Z) (m : CryptorManager) : bool :=
  match ratchet_expiry m with Some expiry => expiry <? elapsed now m | None => false end.

Definition max_lifetime_generation (now : Z) (m : CryptorManager) : Z :=
  let frames := MAX_FRAMES_PER_SECOND * ((elapsed now m - ratchet_created_at m) / NANOS_PER_SEC) in
  Z.shiftr frames RATCHET_GENERATION_SHIFT_BITS mod u32_mod.

Definition can_process_nonce (generation nonce : Z) (m : CryptorManager) : bool :=
  let wrapped := wrapped_nonce generation nonce in
  match newest_nonce m with
  | None => true
  | Some newest => (wrapped >? newest) || contains wrapped (missing_nonces m)
  end.

Definition set_keys (r : HashRatchet) (cs : gmap Z ExpiringCipher) (oldest : Z) (m : CryptorManager) : CryptorManager :=
  {| clock := clock m; ratchet := r; ciphers := cs; ratchet_created_at := ratchet_created_at m;
     ratchet_expiry := ratchet_expiry m; oldest_generation := oldest;
     newest_generation := newest_generation m; newest_nonce := newest_nonce m; missing_nonces := missing_nonces m |}.

(** The [while] loop of [cleanup_expired_ciphers].  It is given [newest - oldest]
    turns: after them its condition is false, and it ends as the code does. *)
Fixpoint erase_loop (fuel : nat) (newest : Z) (cs : gmap Z ExpiringCipher) (r : HashRatchet) (oldest : Z) : HashRatchet * Z :=
  match fuel with
  | O => (r, oldest)
  | S fuel =>
      if (oldest <? newest) && bool_decide (cs !! oldest = None)
      then erase_loop fuel newest cs (erase r oldest) (oldest + 1)
      else (r, oldest)
  end.

Definition cipher_live (elapsed : Z) (c : ExpiringCipher) : bool :=
  match ec_expiry c with Some expiry => expiry >? elapsed | None => true end.

Definition cleanup_expired_ciphers (now : Z) (m : CryptorManager) : CryptorManager :=
  let cs := filter (fun gc => Is_true (cipher_live (elapsed now m) gc.2)) (ciphers m) in
  let '(r, oldest) := erase_loop (Z.to_nat (newest_generation m - oldest_generation m)) (newest_generation m) cs
                        (ratchet m) (oldest_generation m) in
  set_keys r cs oldest m.

(** [CryptorManager::cipher] *)
Definition manager_cipher (now generation : Z) (m : CryptorManager) : res FrameDecryptError aead * CryptorManager :=
  let m := cleanup_expired_ciphers now m in
  if (generation <? oldest_generation m)
     || (generation >? wrapping_add u32_mod (newest_generation m) MAX_GENERATION_GAP)
     || (generation >? max_lifetime_generation now m)
  then (Err (MissingCryptor generation), m)
  else
    match ciphers m !! generation with
    | Some c => (Ok (ec_cipher c), m)
    | None =>
        let '(got, r) := get (ratchet m) generation in
        let m := set_keys r (ciphers m) (oldest_generation m) m in
        match got with
        | Err _ => (Err (MissingCryptor generation), m)
        | Panic => (Panic, m)
        | Ok secrets =>
            let expiry := if generation <? newest_generation m then Some (elapsed now m + CIPHER_EXPIRY) else None in
            match frame_cipher_new (key secrets) with
            | Ok c =>
                (Ok c, set_keys r (<[generation := {| ec_cipher := c; ec_expiry := expiry |}]> (ciphers m))
                                (oldest_generation m) m)
            | Err e => (Err e, m)
            | Panic => (Panic, m)
            end
        end
    end.

Definition set_nonces (newest : option Z) (w : MissingNonceWindow) (m : CryptorManager) : CryptorManager :=
  {| clock := clock m; ratchet := ratchet m; ciphers := ciphers m; ratchet_created_at := ratchet_created_at m;
     ratchet_expiry := ratchet_expiry m; oldest_generation := oldest_generation m;
     newest_generation := newest_generation m; newest_nonce := newest; missing_nonces := w |}.

(** The nonce part of [report_success]. *)
Definition note_nonce (wrapped : Z) (m : CryptorManager) : CryptorManager :=
  match newest_nonce m with
  | None => set_nonces (Some wrapped) (missing_nonces m) m
  | Some newest =>
      if wrapped >? newest then
        let oldest_missing := Z.max 0 (wrapped - MAX_MISSING_NONCES) in
        let w := prune_before oldest_missing (missing_nonces m) in
        set_nonces (Some wrapped) (push_missing (Z.max oldest_missing (newest + 1)) wrapped w) m
      else set_nonces (Some newest) (remove wrapped (missing_nonces m)) m
  end.

(** The generation part of [report_success]. *)
Definition note_generation (now generation : Z) (m : CryptorManager) : CryptorManager :=
  if (generation <=? newest_generation m) || bool_decide (ciphers m !! generation = None) then m
  else
    let expiry := elapsed now m + CIPHER_EXPIRY in
    {| clock := clock m; ratchet := ratchet m;
       ciphers := map_imap (fun g c => Some (if g <? generation then {| ec_cipher := ec_cipher c; ec_expiry := Some expiry |} else c))
                           (ciphers m);
       ratchet_created_at := ratchet_created_at m; ratchet_expiry := ratchet_expiry m;
       oldest_generation := oldest_generation m; newest_generation := generation;
       newest_nonce := newest_nonce m; missing_nonces := missing_nonces m |}.

Definition report_success (now generation nonce : Z) (m : CryptorManager) : CryptorManager :=
  note_generation now generation (note_nonce (wrapped_nonce generation nonce) m).

(** The generation a frame is taken to belong to. *)
Definition frame_generation (pf : ParsedFrame) (m : CryptorManager) : Z :=
  compute_wrapped_generation (oldest_generation m) (Z.shiftr (truncated_nonce pf) RATCHET_GENERATION_SHIFT_BITS).

(** [CryptorManager::decrypt] *)
Definition manager_decrypt (now : Z) (pf : ParsedFrame) (m : CryptorManager) : res FrameDecryptError bytes * CryptorManager :=
  let generation := frame_generation pf m in
  if negb (can_process_nonce generation (truncated_nonce pf) m) then (Err ReplayedNonce, m)
  else
    match manager_cipher now generation m with
    | (Ok c, m) =>
        match decrypt_into c generation pf with
        | Ok plain => (Ok plain, report_success now generation (truncated_nonce pf) m)
        | Err e => (Err e, m)
        | Panic => (Panic, m)
        end
    | (Err e, m) => (Err e, m)
    | (Panic, m) => (Panic, m)
    end.

(** *** Abstract replay window

    What a manager promises about nonces: the first one is accepted; afterwards
    everything newer than the newest, and every nonce skipped since the first,
    up to [MAX_MISSING_NONCES] behind the newest; each one once. *)
Record Window := { first : Z; newest : Z; accepted : gset Z }.

Definition admits (s : option Window) (w : Z) : Prop :=
  match s with
  | None => True
  | Some s => newest s < w \/
              (Z.max (first s + 1) (newest s - MAX_MISSING_NONCES) <= w < newest s /\ w ∉ accepted s)
  end.

Definition accept (w : Z) (s : option Window) : option Window :=
  match s with
  | None => Some {| first := w; newest := w; accepted := {[w]} |}
  | Some s => Some {| first := first s; newest := Z.max (newest s) w; accepted := accepted s ∪ {[w]} |}
  end.

Record window_rel_some (s : Window) (m : CryptorManager) : Prop := {
  rel_newest : newest_nonce m = Some (newest s);
  rel_window : window_ok (newest s) (missing_nonces m);
  rel_members : forall x, x ∈ members (missing_nonces m) <->
    Z.max (first s + 1) (newest s - MAX_MISSING_NONCES) <= x < newest s /\ x ∉ accepted s;
  rel_first : 0 <= first s <= newest s;
  rel_accepted : newest s ∈ accepted s /\ forall x, x ∈ accepted s -> x <= newest s;
}.

Definition window_rel (s : option Window) (m : CryptorManager) : Prop :=
  match s with
  | None => newest_nonce m = None /\ missing_nonces m = default_window
  | Some s => window_rel_some s m
  end.

(** The window depends on the nonce fields only. *)
Lemma window_rel_ext s m m' :
  newest_nonce m' = newest_nonce m -> missing_nonces m' = missing_nonces m -> window_rel s m -> window_rel s m'.
Proof.
  intros H1 H2. destruct s as [s|]; cbn; [|by rewrite H1, H2].
  intros [? ? ? ? ?]. split; rewrite ?H1, ?H2; done.
Qed.

Lemma can_process_nonce_spec s m g nonce :
  window_rel s m -> (can_process_nonce g nonce m = true <-> admits s (wrapped_nonce g nonce)).
Proof.
  unfold can_process_nonce. destruct s as [s|]; cbn; [|by intros [-> _]].
  intros [-> _ Hm _ _]. unfold contains. rewrite orb_true_iff, Z.gtb_ltb, Z.ltb_lt, bool_decide_eq_true, Hm. done.
Qed.

Lemma note_nonce_spec s m w :
  0 <= w -> window_rel s m -> admits s w -> window_rel (accept w s) (note_nonce w m).
Proof.
  intros Hw. unfold note_nonce. destruct s as [s|]; cbn [window_rel admits accept].
  2: { intros [-> Hm] _. split; cbn; rewrite ?Hm; [done|apply default_window_ok| |lia|set_solver by lia].
       intros x. cbn. split; [set_solver|lia]. }
  intros [Hn Hok Hm Hf [Ha Hle]] Had. rewrite Hn, Z.gtb_ltb. destruct (Z.ltb_spec (newest s) w) as [Hlt|Hge].
  - rewrite Z.max_r by lia.
    set (om := Z.max 0 (w - MAX_MISSING_NONCES)).
    destruct (prune_before_spec om _ _ Hok) as [Hok1 Hm1].
    assert (Hok2 : window_ok (Z.max om (newest s + 1)) (prune_before om (missing_nonces m))).
    { destruct Hok1 as [? ? Hb]. split; [done|done|]. intros x Hx%Hb. lia. }
    destruct (push_missing_spec (Z.max om (newest s + 1)) w _ ltac:(unfold om, MAX_MISSING_NONCES; lia) Hok2) as [Hok3 Hm3].
    split; cbn [newest_nonce missing_nonces set_nonces newest first accepted]; [done|done| |lia|].
    + intros x. rewrite Hm3, Hm1, Hm, not_elem_of_union, not_elem_of_singleton. unfold om, MAX_MISSING_NONCES in *.
      split.
      * intros [[[? ?] ?]|?]; [repeat split; try lia; done|]. repeat split; try lia. intros Hx%Hle. lia.
      * intros [? [Hx ?]]. destruct (decide (x = newest s)) as [->|]; [done|].
        destruct (decide (x < newest s)); [left; repeat split; try lia; done|right; lia].
    + split; [by apply elem_of_union_r, elem_of_singleton_2|]. intros x [Hx%Hle|Hx%elem_of_singleton]%elem_of_union; lia.
  - destruct Had as [?|[Hr Hna]]; [lia|]. rewrite Z.max_l by lia.
    split; cbn [newest_nonce missing_nonces set_nonces newest first accepted]; [done|by apply remove_ok| |lia|].
    + intros x. cbn [members remove]. rewrite elem_of_difference, elem_of_singleton, Hm, not_elem_of_union, not_elem_of_singleton.
      split; [intros [[? ?] ?]; repeat split; try lia; done|intros [? [? ?]]; repeat split; try lia; done].
    + split; [by apply elem_of_union_l|]. intros x [Hx%Hle|Hx%elem_of_singleton]%elem_of_union; lia.
Qed.

(** *** Keys *)

(** Every key of the manager belongs to [secret]'s chain, and no generation from
    [oldest_generation] on has been erased. *)
Record keys_ok (secret : bytes) (m : CryptorManager) : Prop := {
  keys_ratchet : ratchet_ok secret (ratchet m);
  keys_oldest : 0 <= oldest_generation m <= newest_generation m;
  keys_newest : newest_generation m < u32_mod - 256;
  keys_ciphers : forall g c, ciphers m !! g = Some c ->
    ec_cipher c = aead_new (key (generation_secrets secret (Z.to_nat g)));
  keys_available : forall g, oldest_generation m <= g -> available (ratchet m) g;
}.

(** The clock has been running for less than 2^63 nanoseconds since the ratchet
    was created, and not backwards. *)
Definition clock_ok (now : Z) (m : CryptorManager) : Prop := 0 <= elapsed now m - ratchet_created_at m < 2 ^ 63.

Context {HP : RatchetLaws P} {HA : FrameAeadLaws A}.

Lemma max_lifetime_bound now m : clock_ok now m -> 0 <= max_lifetime_generation now m < 2 ^ 18.
Proof.
  unfold clock_ok, max_lifetime_generation, MAX_FRAMES_PER_SECOND, NANOS_PER_SEC. intros H.
  set (t := elapsed now m - ratchet_created_at m) in *. rewrite shift_bits, Z.shiftr_div_pow2 by lia.
  assert (0 <= t / 1000000000 < 2 ^ 34) by (split; [apply Z.div_pos; lia|apply Z.div_lt_upper_bound; lia]).
  assert (0 <= (50 + 2 * 60) * (t / 1000000000) / 2 ^ 24 < 2 ^ 18)
    by (split; [apply Z.div_pos; lia|apply Z.div_lt_upper_bound; lia]).
  rewrite Z.mod_small; unfold u32_mod; lia.
Qed.

Lemma erase_loop_spec fuel secret newest cs r oldest :
  ratchet_ok secret r -> (forall g, oldest <= g -> available r g) -> 0 <= oldest <= newest ->
  (Z.to_nat (newest - oldest) <= fuel)%nat ->
  exists r' oldest', erase_loop fuel newest cs r oldest = (r', oldest') /\ ratchet_ok secret r' /\
    oldest <= oldest' <= newest /\ (forall g, oldest' <= g -> available r' g) /\
    (oldest' < newest -> is_Some (cs !! oldest')) /\ (forall g, oldest <= g < oldest' -> cs !! g = None).
Proof.
  revert r oldest. induction fuel as [|fuel IH]; intros r oldest Hr Hav Ho Hf; cbn [erase_loop].
  { exists r, oldest. split_and!; try done; intros; lia. }
  destruct (_ && _) eqn:Hg.
  - apply andb_prop in Hg as [Hlt%Z.ltb_lt Hnone%bool_decide_eq_true].
    destruct (IH (erase r oldest) (oldest + 1)) as (r' & o' & -> & Hr' & Ho' & Hav' & Hs & Hn); [by apply erase_ok| |lia|lia|].
    { intros g Hge. destruct (Hav g ltac:(lia)) as [Hc|?]; [left|by right]. cbn. by rewrite lookup_delete_ne by lia. }
    exists r', o'. split_and!; try done; try lia. intros g Hge.
    destruct (decide (g = oldest)) as [->|]; [done|]. apply Hn. lia.
  - exists r, oldest. split_and!; try done; try lia; intros Hlt.
    apply andb_false_iff in Hg as [Hg%Z.ltb_ge|Hg%bool_decide_eq_false]; [lia|].
    destruct (cs !! oldest); [eauto|done].
Qed.

(** What an operation on the keys leaves alone. *)
Definition same_nonces (m m' : CryptorManager) : Prop :=
  newest_nonce m' = newest_nonce m /\ missing_nonces m' = missing_nonces m /\
  clock m' = clock m /\ ratchet_created_at m' = ratchet_created_at m /\ newest_generation m' = newest_generation m.

Lemma cleanup_spec now secret m :
  keys_ok secret m ->
  keys_ok secret (cleanup_expired_ciphers now m) /\ same_nonces m (cleanup_expired_ciphers now m) /\
  oldest_generation m <= oldest_generation (cleanup_expired_ciphers now m) /\
  (forall g c, ciphers (cleanup_expired_ciphers now m) !! g = Some c <->
     ciphers m !! g = Some c /\ cipher_live (elapsed now m) c = true) /\
  (forall g, oldest_generation m <= g < oldest_generation (cleanup_expired_ciphers now m) ->
     ciphers (cleanup_expired_ciphers now m) !! g = None).
Proof.
  intros [Hr Ho Hnw Hc Hav]. unfold cleanup_expired_ciphers. set (cs := filter _ _).
  destruct (erase_loop_spec (Z.to_nat (newest_generation m - oldest_generation m)) secret (newest_generation m) cs
              (ratchet m) (oldest_generation m) Hr Hav Ho ltac:(lia)) as (r' & o' & -> & Hr' & Ho' & Hav' & _ & Hn).
  assert (Hcs : forall g c, cs !! g = Some c <-> ciphers m !! g = Some c /\ cipher_live (elapsed now m) c = true).
  { intros g c. unfold cs. rewrite map_lookup_filter_Some. cbn. by rewrite Is_true_true. }
  split; [split; cbn; try done; try lia; intros g c [H _]%Hcs; by apply Hc|].
  split; [done|]. cbn. split; [lia|]. split; [done|exact Hn].
Qed.

Lemma manager_cipher_spec now secret generation m :
  keys_ok secret m -> clock_ok now m ->
  exists m', keys_ok secret m' /\ same_nonces m m' /\
    (manager_cipher now generation m = (Err (MissingCryptor generation), m') \/
     (manager_cipher now generation m = (Ok (aead_new (key (generation_secrets secret (Z.to_nat generation)))), m') /\
      0 <= generation /\ generation <= max_lifetime_generation now m)) /\
    (oldest_generation (cleanup_expired_ciphers now m) <= generation ->
     generation <= newest_generation m + MAX_GENERATION_GAP -> generation <= max_lifetime_generation now m ->
     (manager_cipher now generation m).1 = Ok (aead_new (key (generation_secrets secret (Z.to_nat generation))))).
Proof.
  intros Hk Hclk. unfold manager_cipher.
  destruct (cleanup_spec now secret m Hk) as (Hk1 & Hsame & Hold & _ & _).
  set (m1 := cleanup_expired_ciphers now m) in *. destruct Hsame as (S1 & S2 & S3 & S4 & S5).
  assert (Hlife : max_lifetime_generation now m1 = max_lifetime_generation now m) by (unfold max_lifetime_generation, elapsed; by rewrite S3, S4).
  pose proof (max_lifetime_bound now m Hclk) as Hb. rewrite Hlife.
  destruct Hk1 as [Hr1 Ho1 Hn1 Hc1 Hav1].
  assert (Hgap : wrapping_add u32_mod (newest_generation m1) MAX_GENERATION_GAP = newest_generation m + MAX_GENERATION_GAP).
  { unfold wrapping_add, MAX_GENERATION_GAP in *. rewrite S5 in *. apply Z.mod_small. unfold u32_mod in *. lia. }
  rewrite Hgap, !Z.gtb_ltb. destruct (_ || _) eqn:Hg.
  { exists m1. split; [by split|]. split; [by split_and!|]. split; [by left|]. intros.
    exfalso. rewrite !orb_true_iff, !Z.ltb_lt in Hg. lia. }
  rewrite !orb_false_iff, !Z.ltb_ge in Hg. destruct Hg as [[Hg1 Hg2] Hg3].
  destruct (ciphers m1 !! generation) as [c|] eqn:Hci.
  { exists m1. split; [by split|]. split; [by split_and!|]. rewrite (Hc1 _ _ Hci). split; [right; split; [done|lia]|done]. }
  destruct (get_spec secret (ratchet m1) generation Hr1) as (r' & -> & Hr' & _ & _ & _ & Hmono); [unfold u32_mod; lia|].
  rewrite decide_True by (apply Hav1; lia).
  assert (frame_cipher_new (key (generation_secrets secret (Z.to_nat generation))) =
          Ok (aead_new (key (generation_secrets secret (Z.to_nat generation))))) as ->.
  { unfold frame_cipher_new. by rewrite (proj1 (generation_secrets_length secret _)). }
  eexists. split; [|split; [|split; [right; split; [reflexivity|lia]|intros; reflexivity]]].
  2: { unfold same_nonces. cbn [set_keys newest_nonce missing_nonces clock ratchet_created_at newest_generation]. tauto. }
  split; cbn [set_keys ratchet oldest_generation newest_generation ciphers]; [assumption|lia|lia| |].
  - intros g c'. destruct (decide (g = generation)) as [->|]; [rewrite lookup_insert_eq; intros [= <-]; reflexivity|].
    rewrite lookup_insert_ne by congruence. apply Hc1.
  - intros g Hge. apply Hmono, Hav1. exact Hge.
Qed.

Lemma note_generation_spec now generation secret m :
  keys_ok secret m -> generation < u32_mod - 256 ->
  keys_ok secret (note_generation now generation m) /\
  newest_nonce (note_generation now generation m) = newest_nonce m /\
  missing_nonces (note_generation now generation m) = missing_nonces m /\
  clock (note_generation now generation m) = clock m /\
  ratchet_created_at (note_generation now generation m) = ratchet_created_at m.
Proof.
  intros Hk Hg. unfold note_generation. destruct (_ || _) eqn:Hc; [done|].
  apply orb_false_iff in Hc as [Hc%Z.leb_gt _]. destruct Hk as [Hr Ho Hn Hci Hav].
  split; [|tauto]. split; cbn [ratchet oldest_generation newest_generation ciphers]; try assumption; try lia.
  intros g c. rewrite map_lookup_imap. destruct (ciphers m !! g) as [c0|] eqn:Hc0; [|done]. cbn.
  intros [= <-]. destruct (g <? generation); exact (Hci _ _ Hc0).
Qed.

Lemma note_nonce_keys w secret m :
  keys_ok secret m -> keys_ok secret (note_nonce w m) /\ clock (note_nonce w m) = clock m /\
    ratchet_created_at (note_nonce w m) = ratchet_created_at m.
Proof. intros [? ? ? ? ?]. unfold note_nonce. destruct (newest_nonce m); [case_match|]; (split; [by split|done]). Qed.

(** The manager implements the abstract window [s] for the keys of [secret]. *)
Definition implements (secret : bytes) (s : option Window) (m : CryptorManager) : Prop :=
  keys_ok secret m /\ window_rel s m.

(** The nonce a frame is taken to have, with its generation in the high bits. *)
Definition frame_nonce (pf : ParsedFrame) (m : CryptorManager) : Z :=
  wrapped_nonce (frame_generation pf m) (truncated_nonce pf).

Definition generation_key (secret : bytes) (g : Z) : aead := aead_new (key (generation_secrets secret (Z.to_nat g))).

Lemma implements_new secret now clk : implements secret None (manager_new now clk (new secret)).
Proof.
  split; [|done]. split; cbn; try done; try lia.
  - apply new_ok.
  - intros g Hg. by right.
Qed.

Lemma frame_nonce_nonneg pf m : is_u32 (truncated_nonce pf) -> 0 <= frame_nonce pf m.
Proof.
  intros [H _]. unfold frame_nonce. rewrite wrapped_nonce_eq by done.
  pose proof (Z.mod_pos_bound (truncated_nonce pf) (2 ^ 24) ltac:(lia)).
  assert (0 <= frame_generation pf m) by (apply Z.mod_pos_bound; done). lia.
Qed.

Lemma report_success_spec now generation nonce secret s m :
  implements secret s m -> generation < u32_mod - 256 -> 0 <= wrapped_nonce generation nonce ->
  admits s (wrapped_nonce generation nonce) ->
  implements secret (accept (wrapped_nonce generation nonce) s) (report_success now generation nonce m) /\
  clock (report_success now generation nonce m) = clock m /\
  ratchet_created_at (report_success now generation nonce m) = ratchet_created_at m.
Proof.
  intros [Hk Hw] Hg Hn Ha. unfold report_success. set (w := wrapped_nonce generation nonce) in *.
  destruct (note_nonce_keys w secret m Hk) as (Hk1 & E1 & E2).
  destruct (note_generation_spec now generation secret (note_nonce w m) Hk1 Hg) as (Hk2 & E3 & E4 & E5 & E6).
  split; [|split; congruence]. split; [done|].
  eapply window_rel_ext; [exact E3|exact E4|]. by apply note_nonce_spec.
Qed.

Lemma manager_decrypt_spec now pf frame secret s m :
  implements secret s m -> clock_ok now m -> parsed_ok frame pf -> encrypted pf = true ->
  exists r m', manager_decrypt now pf m = (r, m') /\ clock m' = clock m /\ ratchet_created_at m' = ratchet_created_at m /\
    match r with
    | Ok plain => admits s (frame_nonce pf m) /\ implements secret (accept (frame_nonce pf m) s) m' /\
                  decrypt_into (generation_key secret (frame_generation pf m)) (frame_generation pf m) pf = Ok plain
    | Err e => implements secret s m' /\
               ((e = ReplayedNonce /\ ~ admits s (frame_nonce pf m)) \/
                e = MissingCryptor (frame_generation pf m) \/ e = AeadFailed (frame_generation pf m))
    | Panic => False
    end.
Proof.
  intros [Hk Hw] Hclk Hp He.
  assert (Hu : is_u32 (truncated_nonce pf)) by (unfold parsed_ok in Hp; rewrite He in Hp; apply Hp).
  unfold manager_decrypt. cbv zeta. fold (frame_nonce pf m).
  pose proof (can_process_nonce_spec s m (frame_generation pf m) (truncated_nonce pf) Hw) as Hcan.
  fold (frame_nonce pf m) in Hcan.
  destruct (can_process_nonce (frame_generation pf m) (truncated_nonce pf) m); cbn [negb].
  2: { do 2 eexists. split; [done|]. split; [done|]. split; [done|]. split; [done|]. left. split; [done|].
       intros H. apply Hcan in H. done. }
  assert (Had : admits s (frame_nonce pf m)) by by apply Hcan.
  destruct (manager_cipher_spec now secret (frame_generation pf m) m Hk Hclk)
    as (m' & Hk' & (S1 & S2 & S3 & S4 & _) & [->|(-> & Hg0 & Hg1)] & _).
  { do 2 eexists. split; [done|]. split; [done|]. split; [done|].
    split; [split; [done|by eapply window_rel_ext]|by right; left]. }
  pose proof (max_lifetime_bound now m Hclk).
  assert (Hi' : implements secret s m') by (split; [done|by eapply window_rel_ext]).
  fold (generation_key secret (frame_generation pf m)).
  destruct (decrypt_into_total (generation_key secret (frame_generation pf m)) (frame_generation pf m) pf frame Hp He)
    as [Hd|(plain & Hd & _)]; rewrite Hd.
  - do 2 eexists. split; [done|]. split; [done|]. split; [done|]. split; [done|by right; right].
  - destruct (report_success_spec now (frame_generation pf m) (truncated_nonce pf) secret s m' Hi') as (Hi & E1 & E2).
    + unfold u32_mod. lia.
    + by apply frame_nonce_nonneg.
    + done.
    + do 2 eexists. split; [done|]. split; [congruence|]. split; [congruence|]. done.
Qed.

(** *** Runs of a manager *)

(** The frames of [inputs] with their arrival times go through the manager: the
    nonces accepted, in order, and the manager at the end. *)
Fixpoint run_manager (inputs : list (Z * ParsedFrame)) (m : CryptorManager) : list Z * CryptorManager :=
  match inputs with
  | [] => ([], m)
  | (now, pf) :: inputs =>
      match manager_decrypt now pf m with
      | (Ok _, m') => let '(acc, m'') := run_manager inputs m' in (frame_nonce pf m :: acc, m'')
      | (_, m') => run_manager inputs m'
      end
  end.

Definition input_ok (t : Z) (i : Z * ParsedFrame) : Prop :=
  t <= i.1 < t + 2 ^ 63 /\ encrypted i.2 = true /\ exists frame, parsed_ok frame i.2.

Definition fresh (s : option Window) (w : Z) : Prop := match s with None => True | Some s => w ∉ accepted s end.

Lemma admits_fresh secret s m w : implements secret s m -> admits s w -> fresh s w.
Proof.
  intros [_ Hw]. destruct s as [s|]; [|done]. destruct Hw as [_ _ _ _ [_ Hle]]. intros [Hlt|[_ ?]]; [|done].
  intros Hx%Hle. lia.
Qed.

Lemma fresh_accept s w x : fresh (accept w s) x -> fresh s x /\ x <> w.
Proof. destruct s as [s|]; cbn; rewrite ?not_elem_of_union, ?not_elem_of_singleton; tauto. Qed.

Lemma run_manager_spec t secret inputs s m :
  implements secret s m -> clock m + ratchet_created_at m = t -> Forall (input_ok t) inputs ->
  let '(acc, m') := run_manager inputs m in
  implements secret (foldl (fun s w => accept w s) s acc) m' /\ NoDup acc /\ Forall (fresh s) acc.
Proof.
  intros Hi Ht Hin. revert s m Hi Ht. induction Hin as [|[now pf] inputs (Htime & He & frame & Hp) Hin IH];
    intros s m Hi Ht; cbn [run_manager]; [split; [done|split; constructor]|]. cbn in Htime, He, Hp.
  destruct (manager_decrypt_spec now pf frame secret s m Hi) as (r & m1 & Hd & E1 & E2 & Hr); [unfold clock_ok, elapsed; lia|done|done|].
  rewrite Hd. assert (Ht1 : clock m1 + ratchet_created_at m1 = t) by congruence. destruct r as [plain|e|]; [| |done].
  - destruct Hr as (Had & Hi1 & _). specialize (IH _ m1 Hi1 Ht1). destruct (run_manager inputs m1) as [acc m2].
    destruct IH as (Hi2 & Hnd & Hfr). rewrite Forall_forall in Hfr. split; [done|]. split.
    + constructor; [|done]. intros Hx. destruct (fresh_accept _ _ _ (Hfr _ Hx)). done.
    + constructor; [by eapply admits_fresh|]. apply Forall_forall. intros x Hx. by destruct (fresh_accept _ _ _ (Hfr x Hx)).
  - destruct Hr as (Hi1 & _). apply (IH s m1 Hi1 Ht1).
Qed.

(** ** Properties of the replay protection *)

(** C5. A receiver accepts a nonce (with its key generation) at most once, over any
    sequence of frames, honest or not, arriving in any order. *)
Theorem replay_protection t clk secret inputs :
  Forall (input_ok t) inputs -> NoDup (run_manager inputs (manager_new t clk (new secret))).1.
Proof.
  intros Hin. pose proof (run_manager_spec t secret inputs None _ (implements_new secret t clk)) as H.
  destruct (run_manager inputs _) as [acc m']. apply H; [cbn; lia|done].
Qed.

(** C24. The window of skipped nonces is exact: after any sequence of frames the next
    nonce is let through if and only if the abstract window over the accepted
    nonces admits it, that is when it is newer than the newest, or lies after
    the first one and at most [MAX_MISSING_NONCES] behind the newest and has
    not been accepted. *)
Theorem replay_window_exact t clk secret inputs g nonce :
  Forall (input_ok t) inputs ->
  let '(acc, m) := run_manager inputs (manager_new t clk (new secret)) in
  can_process_nonce g nonce m = true <-> admits (foldl (fun s w => accept w s) None acc) (wrapped_nonce g nonce).
Proof.
  intros Hin. pose proof (run_manager_spec t secret inputs None _ (implements_new secret t clk)) as H.
  destruct (run_manager inputs _) as [acc m']. destruct H as ([_ Hw] & _); [cbn; lia|done|].
  by apply can_process_nonce_spec.
Qed.

(** *** A frame of the sender at the manager *)
Lemma manager_decrypt_frame now pf m :
  newest_generation (manager_decrypt now pf m).2 <= Z.max (newest_generation m) (frame_generation pf m) /\
  (clock (manager_decrypt now pf m).2, ratchet_expiry (manager_decrypt now pf m).2) = (clock m, ratchet_expiry m).
Proof.
  assert (Hcl : forall g, newest_generation (manager_cipher now g m).2 = newest_generation m /\
                          (clock (manager_cipher now g m).2, ratchet_expiry (manager_cipher now g m).2) = (clock m, ratchet_expiry m)).
  { intros g. unfold manager_cipher, cleanup_expired_ciphers. destruct (erase_loop _ _ _ _ _) as [r o].
    case_match; [done|]. case_match; [done|]. destruct (get _ _) as [[] ?]; [|done|done]. by case_match. }
  unfold manager_decrypt. case_match; [cbn; split; [lia|done]|]. specialize (Hcl (frame_generation pf m)).
  destruct (manager_cipher now (frame_generation pf m) m) as [[c| |] m1]; cbn in Hcl;
    destruct Hcl as [C1 C2]; [|cbn; split; [lia|done]..].
  destruct (decrypt_into _ _ _); [|cbn; split; [lia|done]..]. cbn [snd]. unfold report_success, note_generation.
  assert (Hnn : forall w, newest_generation (note_nonce w m1) = newest_generation m1 /\ (clock (note_nonce w m1), ratchet_expiry (note_nonce w m1)) = (clock m1, ratchet_expiry m1)).
  { intros w. unfold note_nonce. destruct (newest_nonce m1); [by case_match|done]. }
  destruct (Hnn (wrapped_nonce (frame_generation pf m) (truncated_nonce pf))) as [N1 N2].
  case_match; cbn [newest_generation ratchet_expiry clock]; (split; [lia|by rewrite N2]).
Qed.


(** Frame [n] of a sender is within reach of the manager: its generation is not
    behind the newest one seen, and neither too far ahead nor ahead of what the
    age of the ratchet allows. *)
Definition in_reach (now n : Z) (m : CryptorManager) : Prop :=
  newest_generation m <= n / 2 ^ 24 < oldest_generation m + 256 /\
  n / 2 ^ 24 <= newest_generation m + MAX_GENERATION_GAP /\ n / 2 ^ 24 <= max_lifetime_generation now m.

Lemma sent_frame_nonce now n pf m secret s :
  implements secret s m -> clock_ok now m -> 0 <= n -> truncated_nonce pf = n mod u32_mod -> in_reach now n m ->
  frame_generation pf m = n / 2 ^ 24 /\ frame_nonce pf m = n.
Proof.
  intros [Hk _] Hclk Hn Ht (H1 & H2 & H3). pose proof (max_lifetime_bound now m Hclk).
  assert (Hg : frame_generation pf m = n / 2 ^ 24).
  { unfold frame_generation. rewrite Ht, counter_generation by done. pose proof (keys_oldest _ _ Hk).
    apply compute_wrapped_generation_exact; unfold u32_mod; lia. }
  split; [done|]. unfold frame_nonce. rewrite Hg, Ht. by apply wrapped_nonce_counter.
Qed.

Lemma manager_decrypt_sent now n pf frame secret s m kept :
  implements secret s m -> clock_ok now m -> parsed_ok frame pf -> encrypted pf = true ->
  0 <= n -> truncated_nonce pf = n mod u32_mod -> in_reach now n m -> admits s n ->
  (forall gen, decrypt_into (Sender.frame_key secret n) gen pf = Ok kept) ->
  exists m', manager_decrypt now pf m = (Ok kept, m') /\ implements secret (accept n s) m' /\
    clock m' = clock m /\ ratchet_created_at m' = ratchet_created_at m /\
    newest_generation m' <= Z.max (newest_generation m) (n / 2 ^ 24) /\ ratchet_expiry m' = ratchet_expiry m.
Proof.
  intros Hi Hclk Hp He Hn Ht Hreach Had Hdec.
  destruct (sent_frame_nonce now n pf m secret s Hi Hclk Hn Ht Hreach) as [Hg Hw]. destruct Hreach as (R1 & R2 & R3).
  destruct (manager_decrypt_spec now pf frame secret s m Hi Hclk Hp He) as (r & m' & Hm & E1 & E2 & Hr).
  assert (Hok : (manager_decrypt now pf m).1 = Ok kept).
  { unfold manager_decrypt. cbv zeta. rewrite (proj2 (can_process_nonce_spec s m _ _ (proj2 Hi))) by (fold (frame_nonce pf m); by rewrite Hw).
    cbn [negb]. destruct Hi as [Hk Hwin].
    destruct (manager_cipher_spec now secret (frame_generation pf m) m Hk Hclk) as (m1 & _ & _ & _ & Hc).
    destruct (cleanup_spec now secret m Hk) as (Hk1 & (_ & _ & _ & _ & Hnw) & _). pose proof (keys_oldest _ _ Hk1).
    rewrite Hg in *. specialize (Hc ltac:(lia) ltac:(lia) ltac:(lia)).
    destruct (manager_cipher now (n / 2 ^ 24) m) as [rc mc]. cbn in Hc. subst rc.
    fold (Sender.frame_key secret n). by rewrite Hdec. }
  rewrite Hm in Hok. cbn in Hok. subst r. exists m'. rewrite Hw in Hr.
  destruct (manager_decrypt_frame now pf m) as [Hnw [= _ Hex]]. rewrite Hm in Hnw, Hex. cbn in Hnw, Hex. rewrite Hg in Hnw.
  split_and!; apply Hr || done.
Qed.

End Manager.
End Manager.

(** ** The receiver *)
Module Receiver.
Section Receiver.
Context `{P : RatchetPrimitives} `{A : FrameAead}.
Import HashRatchet FrameFormat Manager Passthrough.

(** [managers] is a queue: the newest ratchet is last. *)
Record Decryptor := {
  dec_clock : Z;
  managers : list CryptorManager;
  passthrough : PlaintextPassthrough;
}.

Definition default_decryptor (now : Z) : Decryptor :=
  {| dec_clock := now; managers := []; passthrough := disabled now |}.

Definition with_plaintext_passthrough (now : Z) (p : PlaintextPassthrough) : Decryptor :=
  {| dec_clock := now; managers := []; passthrough := p |}.

Definition set_managers (ms : list CryptorManager) (d : Decryptor) : Decryptor :=
  {| dec_clock := dec_clock d; managers := ms; passthrough := passthrough d |}.

Definition update_manager_expiry (now duration : Z) (d : Decryptor) : Decryptor :=
  let expiry := now - dec_clock d + duration in
  set_managers (update_expiry expiry <$> managers d) d.

Definition transition_to_ratchet (now : Z) (r : HashRatchet) (d : Decryptor) : Decryptor :=
  let d := update_manager_expiry now RATCHET_EXPIRY d in
  set_managers (managers d ++ [manager_new now (dec_clock d) r]) d.

Definition transition_to_passthrough (now : Z) (mode : PassthroughMode) (d : Decryptor) : Decryptor :=
  {| dec_clock := dec_clock d; managers := managers d; passthrough := apply now mode (passthrough d) |}.

(** [while front expired { pop_front }] *)
Fixpoint drop_expired (now : Z) (ms : list CryptorManager) : list CryptorManager :=
  match ms with
  | m :: rest => if expired now m then drop_expired now rest else ms
  | [] => []
  end.

Definition cleanup_expired_managers (now : Z) (d : Decryptor) : Decryptor := set_managers (drop_expired now (managers d)) d.

(** The [for] loop over the managers, given in the order they are tried; a
    manager keeps the changes of a failed attempt.  The error is the last one. *)
Fixpoint try_managers (now : Z) (pf : ParsedFrame) (ms : list CryptorManager) (last_error : option FrameDecryptError)
    : res (option FrameDecryptError) bytes * list CryptorManager :=
  match ms with
  | [] => (Err last_error, [])
  | m :: ms =>
      match manager_decrypt now pf m with
      | (Ok plain, m) => (Ok plain, m :: ms)
      | (Err e, m) => let '(r, ms) := try_managers now pf ms (Some e) in (r, m :: ms)
      | (Panic, m) => (Panic, m :: ms)
      end
  end.

(** The error reported when no manager could decrypt the frame. *)
Definition final_error (mt : MediaType) (encrypted_frame : bytes) (manager_count : nat)
    (last_error : option FrameDecryptError) : FrameDecryptError :=
  match last_error with
  | Some ((ReplayedNonce | MissingCryptor _ | AeadFailed _) as e) =>
      if (manager_count =? 1)%nat then e else NoValidCryptor mt (length encrypted_frame) manager_count
  | _ => NoValidCryptor mt (length encrypted_frame) manager_count
  end.

(** [Decryptor::decrypt] *)
Definition decrypt (now : Z) (mt : MediaType) (encrypted_frame : bytes) (d : Decryptor)
    : res FrameDecryptError bytes * Decryptor :=
  let d := cleanup_expired_managers now d in
  if bool_decide (mt = Audio) && bool_decide (encrypted_frame = OPUS_SILENCE_FRAME) then (Ok encrypted_frame, d)
  else
    match parse encrypted_frame with
    | Ok pf =>
        if negb (encrypted pf) then
          if allows_plaintext now (passthrough d) then (Ok encrypted_frame, d) else (Err PassthroughDisabled, d)
        else
          let manager_count := length (managers d) in
          match try_managers now pf (rev (managers d)) None with
          | (Ok plain, ms) => (Ok plain, set_managers (rev ms) d)
          | (Err last_error, ms) => (Err (final_error mt encrypted_frame manager_count last_error), set_managers (rev ms) d)
          | (Panic, ms) => (Panic, set_managers (rev ms) d)
          end
    | Err e => (Err e, d)
    | Panic => (Panic, d)
    end.

(** *** Invariant of the receiver *)
Context {HP : RatchetLaws P} {HA : FrameAeadLaws A}.

(** Every manager implements the keys and the replay window of some secret. *)
Definition manager_ok (now : Z) (m : CryptorManager) : Prop :=
  clock_ok now m /\ exists secret s, implements secret s m.

(** The frame is authentic for [m]: it decrypts to [plain] under its key, and its
    nonce was still admitted. *)
Definition authentic_for (m : CryptorManager) (pf : ParsedFrame) (plain : bytes) : Prop :=
  exists secret s, implements secret s m /\ admits s (frame_nonce pf m) /\
    decrypt_into (generation_key secret (frame_generation pf m)) (frame_generation pf m) pf = Ok plain.

(** The time the manager was given has not passed. *)
Definition unexpired (now : Z) (m : CryptorManager) : Prop := forall x, ratchet_expiry m = Some x -> now - clock m <= x.

(** It is authentic for one of the managers whose time has not passed. *)
Definition authentic (now : Z) (ms : list CryptorManager) (pf : ParsedFrame) (plain : bytes) : Prop :=
  exists m, m ∈ ms /\ unexpired now m /\ authentic_for m pf plain.

Lemma try_managers_spec now pf frame ms last_error :
  parsed_ok frame pf -> encrypted pf = true -> Forall (manager_ok now) ms ->
  exists r ms', try_managers now pf ms last_error = (r, ms') /\ Forall (manager_ok now) ms' /\ length ms' = length ms /\
    match r with
    | Ok plain => exists m, m ∈ ms /\ authentic_for m pf plain
    | Err e => (ms = [] /\ e = last_error) \/
        exists g, e = Some ReplayedNonce \/ e = Some (MissingCryptor g) \/ e = Some (AeadFailed g)
    | Panic => False
    end.
Proof.
  intros Hp He Hms. revert last_error. induction Hms as [|m ms (Hclk & secret & s & Hi) Hms IH]; intros le; cbn [try_managers].
  { do 2 eexists. split; [done|]. split; [constructor|]. split; [done|]. by left. }
  destruct (manager_decrypt_spec now pf frame secret s m Hi Hclk Hp He) as (r & m' & -> & E1 & E2 & Hr).
  assert (Hclk' : clock_ok now m') by (unfold clock_ok, elapsed; by rewrite E1, E2).
  destruct r as [plain|e|]; [| |done].
  - destruct Hr as (Had & Hi' & Hd). do 2 eexists. split; [done|]. split; [constructor; [split; eauto|done]|]. split; [done|].
    exists m. split; [by left|by exists secret, s].
  - destruct Hr as (Hi' & Hcase). destruct (IH (Some e)) as (r & ms' & -> & Hms' & Hlen & Hr).
    do 2 eexists. split; [done|]. split; [constructor; [split; eauto|done]|]. split; [cbn; by rewrite Hlen|].
    destruct r as [plain|e'|]; [| |done].
    + destruct Hr as (m1 & Hin & ?). exists m1. split; [by right|done].
    + right. destruct Hr as [[_ ->]|Hr]; [|done]. exists (frame_generation pf m).
      destruct Hcase as [[-> _]|[->| ->]]; auto.
Qed.

(** Decrypting does not touch the clocks, so it keeps the invariant at other
    instants, too. *)
Lemma try_managers_later now now' pf frame ms last_error :
  parsed_ok frame pf -> encrypted pf = true -> Forall (manager_ok now) ms -> Forall (manager_ok now') ms ->
  Forall (manager_ok now') (try_managers now pf ms last_error).2.
Proof.
  intros Hp He Hms. revert last_error. induction Hms as [|m ms (Hclk & secret & s & Hi) Hms IH]; intros le Hms'; [done|].
  apply Forall_cons in Hms' as [[Hclk' _] Hms']. cbn [try_managers].
  destruct (manager_decrypt_spec now pf frame secret s m Hi Hclk Hp He) as (r & m' & -> & E1 & E2 & Hr).
  assert (clock_ok now' m') as Hclk2 by (unfold clock_ok, elapsed; by rewrite E1, E2).
  destruct r as [plain|e|]; [| |done].
  - constructor; [|done]. split; [done|]. naive_solver.
  - specialize (IH (Some e) Hms'). destruct (try_managers now pf ms (Some e)) as [r ms']. constructor; [|done]. split; [done|]. naive_solver.
Qed.

Lemma drop_expired_sub now ms :
  exists dropped, ms = dropped ++ drop_expired now ms /\ Forall (fun m => expired now m = true) dropped /\
    match drop_expired now ms with m :: _ => expired now m = false | [] => True end.
Proof.
  induction ms as [|m ms IH]; [by exists []|]. cbn [drop_expired]. destruct (expired now m) eqn:He.
  - destruct IH as (d & Hd & Hf & Hh). exists (m :: d). split; [by rewrite Hd at 1|]. split; [by constructor|done].
  - exists []. split; [done|]. split; [constructor|done].
Qed.

Lemma map_rev_fmap {X Y} (f : X -> Y) l : f <$> rev l = rev (f <$> l).
Proof. apply map_rev. Qed.

(** What a manager keeps of its times. *)
Definition stamp (m : CryptorManager) : Z * option Z := (clock m, ratchet_expiry m).

(** The newest ratchet does not expire; the others do so together. *)
Definition expiry_ok (d : Decryptor) : Prop :=
  managers d = [] \/ exists k x, stamp <$> managers d = replicate k (dec_clock d, Some x) ++ [(dec_clock d, None)].

Record decryptor_ok (now : Z) (d : Decryptor) : Prop := {
  dec_managers : Forall (manager_ok now) (managers d);
  dec_expiry : expiry_ok d }.

Lemma try_managers_stamps now pf ms last_error : stamp <$> (try_managers now pf ms last_error).2 = stamp <$> ms.
Proof.
  revert last_error. induction ms as [|m ms IH]; intros le; [done|]. cbn [try_managers]. pose proof (proj2 (manager_decrypt_frame now pf m)) as Hm.
  destruct (manager_decrypt now pf m) as [[plain|e|] m']; cbn in Hm; [| |]; [cbn; f_equal; exact Hm| |cbn; f_equal; exact Hm].
  specialize (IH (Some e)). destruct (try_managers now pf ms (Some e)) as [r ms']. cbn in *. by f_equal.
Qed.

Lemma stamp_expired now m : expired now m = match (stamp m).2 with Some x => x <? now - (stamp m).1 | None => false end.
Proof. done. Qed.

Lemma drop_expired_stamps now clk k x ms : stamp <$> ms = replicate k (clk, Some x) ++ [(clk, None)] ->
  Forall (unexpired now) (drop_expired now ms) /\ exists k', stamp <$> drop_expired now ms = replicate k' (clk, Some x) ++ [(clk, None)].
Proof.
  revert ms. induction k as [|k IH]; intros ms Hs.
  - destruct ms as [|m [|? ?]]; [done| |done]. injection Hs as Hc Hx. cbn [drop_expired]. rewrite stamp_expired. cbn. rewrite Hx. split.
    + apply Forall_singleton. unfold unexpired. by rewrite Hx.
    + exists 0%nat. cbn. unfold stamp. by rewrite Hc, Hx.
  - destruct ms as [|m ms]; [done|]. injection Hs as Hc Hx Hs. assert (stamp m = (clk, Some x)) as Hm by (unfold stamp; by rewrite Hc, Hx). cbn [drop_expired]. rewrite stamp_expired, Hm. cbn [fst snd].
    destruct (Z.ltb_spec x (now - clk)) as [|Hlt]; [by apply IH|]. split; [|exists (S k); by rewrite fmap_cons, Hm; cbn; f_equal].
    assert (Forall (fun y => y = (clk, Some x) \/ y = (clk, None)) (stamp <$> m :: ms)) as Hall.
    { rewrite fmap_cons, Hm. constructor; [by left|]. change (stamp <$> ms) with (list_fmap _ _ stamp ms). rewrite Hs. apply Forall_app. split; [apply Forall_replicate; by left|by apply Forall_singleton; right]. }
    apply Forall_fmap in Hall. eapply Forall_impl; [exact Hall|]. intros y [Hy|Hy] z Hz; unfold stamp in Hy; injection Hy as Hcy Hxy; rewrite Hxy in Hz; [|done].
    injection Hz as <-. rewrite Hcy. lia.
Qed.

Lemma drop_expired_unexpired now d : expiry_ok d -> Forall (unexpired now) (drop_expired now (managers d)).
Proof. intros [->|(k & x & Hs)]; [constructor|]. by eapply drop_expired_stamps. Qed.

Lemma drop_expired_elem now m ms : m ∈ drop_expired now ms -> m ∈ ms.
Proof. destruct (drop_expired_sub now ms) as (dr & Hd & _). rewrite Hd at 2. intros Hm. apply elem_of_app. by right. Qed.

Lemma expiry_ok_cleanup now d : expiry_ok d -> expiry_ok (cleanup_expired_managers now d).
Proof.
  intros [Hd|(k & x & Hs)]; [left; cbn; by rewrite Hd|]. right. destruct (drop_expired_stamps now _ _ _ _ Hs) as [_ [k' Hk]]. by exists k', x.
Qed.

Lemma expiry_ok_same d d' : stamp <$> managers d' = stamp <$> managers d -> dec_clock d' = dec_clock d -> expiry_ok d -> expiry_ok d'.
Proof.
  unfold expiry_ok. intros Hs ->. rewrite Hs. intros [Hd|?]; [left|by right]. rewrite Hd in Hs. by apply fmap_nil_inv in Hs.
Qed.

Lemma expiry_ok_transition now r d : expiry_ok d -> expiry_ok (transition_to_ratchet now r d).
Proof.
  intros Hd. right. set (x := now - dec_clock d + RATCHET_EXPIRY). exists (length (managers d)), x. cbn. rewrite fmap_app. f_equal.
  rewrite <- list_fmap_compose. assert (Forall (fun m => clock m = dec_clock d) (managers d)) as Hc.
  { destruct Hd as [->|(k & y & Hs)]; [constructor|]. assert (Forall (fun s => s.1 = dec_clock d) (stamp <$> managers d)) as H; [|by apply Forall_fmap in H].
    rewrite Hs. apply Forall_app. split; [by apply Forall_replicate|by apply Forall_singleton]. }
  clear Hd. induction Hc as [|m ms Hm _ IH]; [done|]. cbn. f_equal; [|exact IH]. unfold stamp. cbn. by rewrite Hm.
Qed.

Lemma decryptor_ok_cleanup now now' d : decryptor_ok now' d -> decryptor_ok now' (cleanup_expired_managers now d).
Proof.
  intros [Hm He]. split; [|by apply expiry_ok_cleanup]. cbn. destruct (drop_expired_sub now (managers d)) as (dr & Hd & _). rewrite Hd in Hm.
  by apply Forall_app in Hm as [_ ?].
Qed.

(** A pass over the managers, newest first, and back. *)
Lemma decryptor_ok_tried now now' pf d last_error ms : decryptor_ok now' d -> (try_managers now pf (rev (managers d)) last_error).2 = ms ->
  Forall (manager_ok now') ms -> decryptor_ok now' (set_managers (rev ms) d).
Proof.
  intros [_ He] <- Hms. split; [by apply Forall_rev|]. apply (expiry_ok_same d); [|done|done]. cbn. rewrite map_rev_fmap, try_managers_stamps, map_rev_fmap. by rewrite rev_involutive.
Qed.

Lemma decrypt_keeps_ok now mt frame d :
  decryptor_ok now d -> all_bytes frame ->
  (decrypt now mt frame d).1 ≠ Panic /\ forall now', decryptor_ok now' d -> decryptor_ok now' (decrypt now mt frame d).2.
Proof.
  intros Hd Hb. pose proof (fun now' => decryptor_ok_cleanup now now' d) as Hc.
  unfold decrypt. cbv zeta. destruct (_ && _); [done|]. destruct (parse_sound frame Hb) as (pf & -> & Hp).
  destruct (encrypted pf) eqn:He; cbn [negb]; [|by destruct (allows_plaintext _ _)].
  pose proof (Forall_rev (dec_managers _ _ (Hc now Hd))) as Hnow. destruct (try_managers_spec now pf frame _ None Hp He Hnow) as (r & ms & Htry & _ & _ & Hr).
  assert (forall now', decryptor_ok now' d -> decryptor_ok now' (set_managers (rev ms) (cleanup_expired_managers now d))) as Hms.
  { intros now' Hn. apply (decryptor_ok_tried now now' pf _ None); [by apply Hc|by rewrite Htry|].
    pose proof (try_managers_later now now' pf frame _ None Hp He Hnow (Forall_rev (dec_managers _ _ (Hc now' Hn)))) as H. by rewrite Htry in H. }
  rewrite Htry. destruct r as [plain|e|]; [| |done]; (split; [done|]); exact Hms.
Qed.

Lemma decrypt_spec now mt frame d :
  decryptor_ok now d -> all_bytes frame ->
  let '(r, d') := decrypt now mt frame d in
  decryptor_ok now d' /\ passthrough d' = passthrough d /\
  match r with
  | Ok out => (out = frame /\ mt = Audio /\ frame = OPUS_SILENCE_FRAME) \/
              exists pf, parse frame = Ok pf /\
                ((out = frame /\ encrypted pf = false /\ allows_plaintext now (passthrough d) = true) \/
                 (encrypted pf = true /\ authentic now (managers d) pf out))
  | Err e => e = PassthroughDisabled \/ (e = ReplayedNonce \/ (exists g, e = MissingCryptor g \/ e = AeadFailed g)) \/
             exists n, e = NoValidCryptor mt (length frame) n
  | Panic => False
  end.
Proof.
  intros Hd Hb. pose proof (drop_expired_unexpired now d (dec_expiry _ _ Hd)) as Hun. apply (decryptor_ok_cleanup now) in Hd. unfold decrypt. cbv zeta.
  destruct (bool_decide (mt = Audio) && _) eqn:Hs.
  { apply andb_prop in Hs as [->%bool_decide_eq_true ->%bool_decide_eq_true]. split; [done|]. split; [done|]. by left. }
  destruct (parse_sound frame Hb) as (pf & -> & Hp). destruct (encrypted pf) eqn:He; cbn [negb].
  2: { cbn [passthrough cleanup_expired_managers set_managers]. destruct (allows_plaintext _ _) eqn:Ha.
       - split; [done|]. split; [done|]. right. exists pf. split; [done|]. by left.
       - split; [done|]. split; [done|]. by left. }
  destruct (try_managers_spec now pf frame (rev (managers (cleanup_expired_managers now d))) None Hp He)
    as (r & ms & Htry & Hms & Hlen & Hr); [apply Forall_rev, Hd|]. pose proof (decryptor_ok_tried now now pf _ None ms Hd ltac:(by rewrite Htry) Hms) as Hd'. rewrite Htry.
  destruct r as [plain|e|]; [| |done]; (split; [exact Hd'|]; split; [done|]).
  - right. exists pf. split; [done|]. right. split; [done|]. destruct Hr as (m & Hin & ?).
    assert (m ∈ drop_expired now (managers d)) as Hm by (apply list_elem_of_In in Hin; apply list_elem_of_In, in_rev, Hin).
    exists m. split; [by apply (drop_expired_elem now)|]. split; [|done]. rewrite Forall_forall in Hun. by apply Hun.
  - right. unfold final_error. destruct Hr as [[_ ->]|(g & [->|[->| ->]])]; [right; eauto| | |];
      (case_match; [left; eauto|right; eauto]).
Qed.

(** ** Properties of the receiver *)

(** C6. What the receiver delivers.  Decrypting arbitrary bytes never panics and keeps
    the receiver's invariant.  A frame is delivered only if it is the Opus
    silence frame on an audio stream, or it is plaintext while passthrough is
    open, or it is authentic for one of the ratchets whose expiry has not
    passed, with a nonce that was not accepted before; every other frame gives an
    error.  The invariant says that all ratchets but the newest expire at the
    same time, which is why dropping expired ones from the front drops all. *)
Theorem decrypt_gate now mt frame d :
  decryptor_ok now d -> all_bytes frame ->
  let '(r, d') := decrypt now mt frame d in
  decryptor_ok now d' /\ passthrough d' = passthrough d /\
  match r with
  | Ok out => (out = frame /\ mt = Audio /\ frame = OPUS_SILENCE_FRAME) \/
              exists pf, parse frame = Ok pf /\
                ((out = frame /\ encrypted pf = false /\ allows_plaintext now (passthrough d) = true) \/
                 (encrypted pf = true /\ exists m, m ∈ managers d /\ unexpired now m /\ authentic_for m pf out))
  | Err e => e = PassthroughDisabled \/ (e = ReplayedNonce \/ (exists g, e = MissingCryptor g \/ e = AeadFailed g)) \/
             exists n, e = NoValidCryptor mt (length frame) n
  | Panic => False
  end.
Proof. apply decrypt_spec. Qed.

Lemma decrypt_sent now mt secret s n out kept d ms m :
  drop_expired now (managers d) = ms ++ [m] -> implements secret s m -> clock_ok now m ->
  0 <= n -> in_reach now n m -> admits s n ->
  Sender.sent_as (Sender.frame_key secret n) (n mod u32_mod) kept out ->
  exists m', decrypt now mt out d = (Ok kept, set_managers (ms ++ [m']) d) /\ implements secret (accept n s) m' /\
    clock m' = clock m /\ ratchet_created_at m' = ratchet_created_at m /\
    newest_generation m' <= Z.max (newest_generation m) (n / 2 ^ 24) /\ ratchet_expiry m' = ratchet_expiry m.
Proof.
  intros Hms Hi Hclk Hn Hr Ha (pf & Hp & Hpok & He & Ht & Hd). unfold decrypt. cbv zeta.
  assert (Hsil : bool_decide (out = OPUS_SILENCE_FRAME) = false).
  { apply bool_decide_eq_false_2. intros ->. vm_compute in Hp. injection Hp as <-. done. }
  rewrite Hsil, andb_false_r, Hp, He. cbn [negb cleanup_expired_managers set_managers managers]. rewrite Hms, rev_app_distr.
  cbn [rev app try_managers].
  destruct (manager_decrypt_sent now n pf out secret s m kept Hi Hclk Hpok He Hn Ht Hr Ha Hd) as (m' & -> & Hi' & E).
  exists m'. cbn [rev]. by rewrite rev_involutive.
Qed.

(** *** A conversation *)
Fixpoint recv_all (arrivals : list (Z * (MediaType * bytes))) (d : Decryptor) : list (res FrameDecryptError bytes) :=
  match arrivals with
  | [] => []
  | (now, (mt, out)) :: arrivals => let '(r, d) := decrypt now mt out d in r :: recv_all arrivals d
  end.

(** A receiver whose newest ratchet does not expire and has seen frames up to
    [n]; older ratchets may still be kept before it. *)
Record listening (t : Z) (secret : bytes) (n : Z) (d : Decryptor) : Prop := {
  listen_manager : exists ms m s, managers d = ms ++ [m] /\ implements secret s m /\ clock m + ratchet_created_at m = t /\
    newest_generation m <= n / 2 ^ 24 /\ ratchet_expiry m = None /\ (forall w, s = Some w -> newest w <= n);
}.

(** The key generations that a ratchet made at [t] has reached at [now]. *)
Definition lifetime_generation (t now : Z) : Z := MAX_FRAMES_PER_SECOND * ((now - t) / NANOS_PER_SEC) / 2 ^ 24.

Lemma lifetime_generation_spec t now m : clock_ok now m -> clock m + ratchet_created_at m = t -> max_lifetime_generation now m = lifetime_generation t now.
Proof.
  intros Hclk <-. pose proof (max_lifetime_bound now m Hclk) as Hb. unfold max_lifetime_generation, lifetime_generation, elapsed in *. unfold clock_ok, elapsed in Hclk.
  rewrite Z.shiftr_div_pow2 by (vm_compute; discriminate). change (2 ^ RATCHET_GENERATION_SHIFT_BITS) with (2 ^ 24).
  replace (now - clock m - ratchet_created_at m) with (now - (clock m + ratchet_created_at m)) in * by lia.
  apply Z.mod_small. set (x := now - _) in *. assert (0 <= x / NANOS_PER_SEC < 2 ^ 34).
  { unfold NANOS_PER_SEC. split; [apply Z.div_pos; lia|apply Z.div_lt_upper_bound; lia]. }
  unfold MAX_FRAMES_PER_SECOND, u32_mod. split; [apply Z.div_pos; lia|apply Z.div_lt_upper_bound; lia].
Qed.

Lemma drop_expired_last now ms m : expired now m = false -> exists ms', drop_expired now (ms ++ [m]) = ms' ++ [m].
Proof.
  intros Hm. induction ms as [|x ms [ms' IH]]; cbn [drop_expired app]; [rewrite Hm; by exists []|].
  destruct (expired now x); [by exists ms'|by exists (x :: ms)].
Qed.

Lemma listening_step t secret n d now mt w out kept :
  listening t secret n d -> t <= now < t + 2 ^ 63 -> 0 <= n < w -> w < 250 * 2 ^ 24 -> w / 2 ^ 24 <= lifetime_generation t now ->
  Sender.sent_as (Sender.frame_key secret w) (w mod u32_mod) kept out ->
  exists d', decrypt now mt out d = (Ok kept, d') /\ listening t secret w d'.
Proof.
  intros [(ms & m & s & Hd & Hi & Ht & Hg & Hx & Ha)] Hnow Hn Hw Hlife Hs.
  assert (Hclk : clock_ok now m) by (unfold clock_ok, elapsed; lia).
  assert (Hz : n / 2 ^ 24 <= w / 2 ^ 24 < 250) by (split; [apply Z.div_le_mono; lia|apply Z.div_lt_upper_bound; lia]).
  pose proof (keys_oldest _ _ (proj1 Hi)). destruct (drop_expired_last now ms m) as [ms' Hms]; [unfold expired; by rewrite Hx|].
  destruct (decrypt_sent now mt secret s w out kept d ms' m) as (m' & Hdec & Hi' & E1 & E2 & E3 & E4); try done.
  - by rewrite Hd.
  - lia.
  - unfold in_reach, MAX_GENERATION_GAP. rewrite (lifetime_generation_spec t) by done. lia.
  - destruct s as [s|]; [|done]. left. specialize (Ha s eq_refl). lia.
  - eexists. split; [exact Hdec|]. constructor. exists ms', m', (accept w s). split; [done|]. split; [done|].
    split; [lia|]. split; [lia|]. split; [congruence|].
    destruct s as [s|]; intros x [= <-]; cbn; [|lia]. specialize (Ha s eq_refl). lia.
Qed.

Lemma recv_all_spec t secret n d arrivals kepts ns :
  listening t secret n d -> 0 <= n -> Forall (fun w => n < w < 250 * 2 ^ 24) ns -> StronglySorted Z.lt ns ->
  Forall2 (fun a w => t <= a.1 < t + 2 ^ 63 /\ w / 2 ^ 24 <= lifetime_generation t a.1) arrivals ns ->
  Forall3 (fun a kept w => Sender.sent_as (Sender.frame_key secret w) (w mod u32_mod) kept a.2.2) arrivals kepts ns ->
  recv_all arrivals d = Ok <$> kepts.
Proof.
  intros Hl Hn Hns Hsort Htimes H3. revert n d Hl Hn Hns Hsort Htimes.
  induction H3 as [|[now [mt out]] kept w arrivals kepts ns Hs H3 IH]; intros n d Hl Hn Hns Hsort Ht; [done|].
  apply Forall_cons in Hns as [Hw Hns]. apply Forall2_cons in Ht as [[Ht1 Hlife] Ht]. apply StronglySorted_inv in Hsort as [Hsort Hlt].
  destruct (listening_step t secret n d now mt w out kept Hl) as (d' & Hd & Hl'); [exact Ht1|lia|lia|exact Hlife|exact Hs|].
  cbn [recv_all fmap list_fmap]. rewrite Hd. f_equal. apply (IH w d' Hl'); [lia| |done|done].
  apply Forall_and. split; [done|]. eapply Forall_impl; [exact Hns|]. simpl. lia.
Qed.

Lemma listening_fresh t secret d : listening t secret 0 (transition_to_ratchet t (new secret) d).
Proof.
  constructor. exists (managers (update_manager_expiry t RATCHET_EXPIRY d)), (manager_new t (dec_clock d) (new secret)), None.
  split; [done|]. split; [apply implements_new|]. cbn. split; [lia|]. done.
Qed.

(** The requests that were encrypted, each with its ciphertext. *)
Definition sent_frames (reqs : list (MediaCodec * bytes)) (rs : list (res EncryptError bytes)) : list ((MediaCodec * bytes) * bytes) :=
  omap (fun qr => match qr.2 with Ok out => Some (qr.1, out) | _ => None end) (zip reqs rs).

(** A frame arrives when the ratchet, which the receiver made at [t], is old
    enough for the key generation the frame names. *)
Definition on_time (t now : Z) (out : bytes) : Prop :=
  t <= now < t + 2 ^ 63 /\ forall pf, parse out = Ok pf -> truncated_nonce pf / 2 ^ 24 <= lifetime_generation t now.

Definition on_time_b (t now : Z) (out : bytes) : bool :=
  (t <=? now) && (now <? t + 2 ^ 63) && match parse out with Ok pf => truncated_nonce pf / 2 ^ 24 <=? lifetime_generation t now | _ => true end.

Fixpoint all_on_time_b {T} (t : Z) (times : list Z) (arrivals : list (T * bytes)) : bool :=
  match times, arrivals with
  | [], [] => true
  | now :: times, a :: arrivals => on_time_b t now a.2 && all_on_time_b t times arrivals
  | _, _ => false
  end.

Lemma all_on_time {T} t times (arrivals : list (T * bytes)) : all_on_time_b t times arrivals = true -> Forall2 (fun now a => on_time t now a.2) times arrivals.
Proof.
  revert arrivals. induction times as [|now times IH]; intros [|a arrivals]; cbn; try done. intros [[[H1 H2]%andb_prop H3]%andb_prop H4]%andb_prop.
  constructor; [|by apply IH]. split; [lia|]. intros pf Hpf. rewrite Hpf in H3. lia.
Qed.

(** The kept frames and the nonces of what was sent. *)
Lemma sent_frames_select secret reqs rs ns :
  Forall3 (fun q r n => Sender.send_result q.1 q.2 secret n r) reqs rs ns ->
  exists kns : list (bytes * Z), kns.*2 `sublist_of` ns /\
    Forall2 (fun (a : (MediaCodec * bytes) * bytes) kn => kept_of a.1.1 a.1.2 kn.1 /\ Sender.sent_as (Sender.frame_key secret kn.2) (kn.2 mod u32_mod) kn.1 a.2)
      (sent_frames reqs rs) kns.
Proof.
  unfold sent_frames. induction 1 as [|q r n reqs rs ns Hr H3 (kns & Hsub & Hf)]; [by exists []|]. cbn. destruct r as [out|e|].
  - destruct Hr as (kept & Hk & Hs). exists ((kept, n) :: kns). split; [by constructor|]. by constructor.
  - exists kns. split; [by constructor|done].
  - exists kns. split; [by constructor|done].
Qed.

(** Any subsequence of what a sender sends reaches a listening receiver. *)
Lemma delivery_listening secret e t d reqs arrivals times :
  Sender.pending_ratchet e = Some (new secret) -> listening t secret 0 d -> 10 * Z.of_nat (length reqs) < 250 * 2 ^ 24 ->
  Forall (fun q => all_bytes q.2 /\ Z.of_nat (length q.2) < 2 ^ 63) reqs ->
  arrivals `sublist_of` sent_frames reqs (Sender.send_all reqs (Sender.activate_pending e).2).1 ->
  Forall2 (fun now a => on_time t now a.2) times arrivals ->
  exists kepts, Forall2 (fun a kept => kept_of a.1.1 a.1.2 kept) arrivals kepts /\
    recv_all (zip times ((fun a => (media_type a.1.1, a.2)) <$> arrivals)) d = Ok <$> kepts.
Proof.
  intros He Hlis Hmax Hq Hsub Ht.
  destruct (Sender.send_all_spec secret reqs 0 (Sender.activate_pending e).2) as (ns & _ & _ & Hns & Hsort & H3).
  { by apply Sender.counted_activate. }
  { unfold Sender.max_frames, u32_mod. lia. }
  { done. }
  destruct (sent_frames_select _ _ _ _ H3) as (kns0 & Hk0 & Hf). destruct (sublist_select _ _ _ _ Hsub Hf) as (kns & Hkns & Hf').
  assert (Hsnd : kns.*2 `sublist_of` ns) by (etrans; [by apply fmap_sublist|done]).
  assert (Hrange : Forall (fun w => 0 < w < 250 * 2 ^ 24) kns.*2).
  { eapply forall_sublist; [exact Hsnd|]. eapply Forall_impl; [exact Hns|]. intros m Hm. cbn in Hm. lia. }
  exists kns.*1. split.
  { apply Forall2_fmap_r. eapply Forall2_impl; [exact Hf'|]. by intros ? ? [? ?]. }
  eapply (recv_all_spec t secret 0 _ _ _ kns.*2); [exact Hlis|lia|exact Hrange|by eapply MissingNonces.sorted_sublist| |].
  - clear -Hf' Ht Hrange. revert times Ht. induction Hf' as [|a [k n] arr kns [_ Hs] Hf IH]; intros times Ht.
    { apply Forall2_nil_inv_r in Ht as ->. constructor. }
    apply Forall2_cons_inv_r in Ht as (now & times' & [Hnow Hlife] & Ht & ->). apply Forall_cons in Hrange as [Hn Hrange]. cbn.
    constructor; [|by apply IH]. split; [exact Hnow|]. destruct Hs as (pf & Hp & _ & _ & Hnonce & _). specialize (Hlife pf Hp). cbn in *.
    rewrite Hnonce, Z.mod_small in Hlife by (unfold u32_mod; lia). exact Hlife.
  - clear -Hf' Ht. revert times Ht. induction Hf' as [|a [k n] arr kns [_ Hs] Hf IH]; intros times Ht.
    { apply Forall2_nil_inv_r in Ht as ->. constructor. }
    apply Forall2_cons_inv_r in Ht as (now & times' & _ & Ht & ->). cbn. constructor; [done|by apply IH].
Qed.

(** C14. Delivery over a lossy link.  A sender activated with a secret encrypts any
    frames of any codecs, fewer than 2^24 * 25, through its key generations (a
    frame takes up to ten nonces, a generation has 2^24).  A receiver that
    switched to a ratchet for the same secret, whatever ratchets it had before,
    gets any subsequence of the frames that could be encrypted, in order, each
    when its ratchet is old enough for the generation of the frame (170 frames
    a second).  Every frame it gets decrypts to the frame the sender processed,
    so for Opus, VP8 and VP9 to exactly the frame sent. *)
Theorem lossy_delivery secret e d t reqs arrivals times :
  Sender.pending_ratchet e = Some (new secret) -> 10 * Z.of_nat (length reqs) < 250 * 2 ^ 24 ->
  Forall (fun q => all_bytes q.2 /\ Z.of_nat (length q.2) < 2 ^ 63) reqs ->
  arrivals `sublist_of` sent_frames reqs (Sender.send_all reqs (Sender.activate_pending e).2).1 ->
  Forall2 (fun now a => on_time t now a.2) times arrivals ->
  exists kepts, Forall2 (fun a kept => kept_of a.1.1 a.1.2 kept) arrivals kepts /\
    recv_all (zip times ((fun a => (media_type a.1.1, a.2)) <$> arrivals)) (transition_to_ratchet t (new secret) d) = Ok <$> kepts.
Proof. intros He. eapply delivery_listening; [exact He|]. apply listening_fresh. Qed.

End Receiver.
End Receiver.

(** ** Witnesses *)
Module CryptorSamples.
Import Gcm.Sample HashRatchet.SampleKdf.

Definition secret : bytes := [7; 7; 7].

Definition sender : Sender.Encryptor := Sender.stage_ratchet (HashRatchet.new secret) Sender.default_encryptor.

Definition requests : list (MediaCodec * bytes) := [(Opus, [1; 2]); (Vp8, [1; 3; 4]); (Opus, [5])].

Lemma requests_ok : Forall (fun q : MediaCodec * bytes => all_bytes q.2 /\ Z.of_nat (length q.2) < 2 ^ 63) requests.
Proof. repeat (apply Forall_cons; split; [cbn; split; [solve_bytes|lia]|]). apply Forall_nil. exact I. Defined.

Definition outputs : list bytes :=
  omap (fun r => match r with Ok out => Some out | _ => None end) (Sender.send_all requests (Sender.activate_pending sender).2).1.

Definition first_parsed : FrameFormat.ParsedFrame :=
  match FrameFormat.parse (default [] (head outputs)) with Ok pf => pf | _ => FrameFormat.plain_frame [] end.

Lemma send_all_nonce_unique_witness :
  exists ns, NoDup ((fun n => (n / 2 ^ 24, n mod u32_mod)) <$> ns) /\
    Forall3 (fun q r n => Sender.send_result q.1 q.2 secret n r) requests
            (Sender.send_all requests (Sender.activate_pending sender).2).1 ns.
Proof. apply Sender.send_all_nonce_unique; [reflexivity | vm_compute; reflexivity | exact requests_ok]. Defined.

Lemma first_input_ok : Forall (Manager.input_ok 0) [(1, first_parsed); (2, first_parsed)].
Proof.
  assert (H : forall now, 0 <= now < 3 -> Manager.input_ok 0 (now, first_parsed)).
  { intros now Hn. split; [cbn; lia|]. split; [vm_compute; reflexivity|]. exists (default [] (head outputs)).
    destruct (FrameFormat.parse_sound (default [] (head outputs))) as (pf & Hp & Hok); [compute_bytes|].
    replace first_parsed with pf; [exact Hok|]. unfold first_parsed. rewrite Hp. reflexivity. }
  repeat constructor; apply H; lia.
Qed.

Lemma replay_protection_witness :
  NoDup (Manager.run_manager [(1, first_parsed); (2, first_parsed)] (Manager.manager_new 0 0 (HashRatchet.new secret))).1.
Proof. apply Manager.replay_protection. exact first_input_ok. Defined.

Lemma replay_window_exact_witness :
  let '(acc, m) := Manager.run_manager [(1, first_parsed); (2, first_parsed)] (Manager.manager_new 0 0 (HashRatchet.new secret)) in
  Manager.can_process_nonce 0 1 m = true <->
  Manager.admits (foldl (fun s w => Manager.accept w s) None acc) (wrapped_nonce 0 1).
Proof. apply Manager.replay_window_exact. exact first_input_ok. Defined.

(** A receiver that switched to the secret of the sender while it still had the
    ratchet of an earlier epoch, and the first frame of the sender. *)
Definition earlier : Receiver.Decryptor := Receiver.transition_to_ratchet 0 (HashRatchet.new [9]) (Receiver.default_decryptor 0).
Definition switched : Receiver.Decryptor := Receiver.transition_to_ratchet 3 (HashRatchet.new secret) earlier.
Definition first_output : bytes := default [] (head outputs).

Lemma switched_ok : Receiver.decryptor_ok 5 switched.
Proof.
  split; [|apply Receiver.expiry_ok_transition, Receiver.expiry_ok_transition; by left].
  repeat (apply Forall_cons; split); [| |apply Forall_nil; exact I]; (split; [unfold Manager.clock_ok, Manager.elapsed; cbn; lia|]).
  - exists [9], None. pose proof (Manager.implements_new [9] 0 0) as [[K1 K2 K3 K4 K5] Hw].
    split; [split; [exact K1|exact K2|exact K3|exact K4|exact K5]|by apply (Manager.window_rel_ext None (Manager.manager_new 0 0 (HashRatchet.new [9])))].
  - exists secret, None. apply Manager.implements_new.
Qed.

Lemma decrypt_gate_witness :
  (Receiver.decrypt 5 Audio first_output switched).1 = Ok [1; 2] /\ length (Receiver.managers switched) = 2%nat /\
  let '(r, d') := Receiver.decrypt 5 Audio first_output switched in
  Receiver.decryptor_ok 5 d' /\ Receiver.passthrough d' = Receiver.passthrough switched /\
  match r with
  | Ok out => (out = first_output /\ Audio = Audio /\ first_output = OPUS_SILENCE_FRAME) \/
              exists pf, FrameFormat.parse first_output = Ok pf /\
                ((out = first_output /\ FrameFormat.encrypted pf = false /\
                  Passthrough.allows_plaintext 5 (Receiver.passthrough switched) = true) \/
                 (FrameFormat.encrypted pf = true /\ exists m, m ∈ Receiver.managers switched /\ Receiver.unexpired 5 m /\ Receiver.authentic_for m pf out))
  | Err e => e = PassthroughDisabled \/ (e = ReplayedNonce \/ (exists g, e = MissingCryptor g \/ e = AeadFailed g)) \/
             exists n, e = NoValidCryptor Audio (length first_output) n
  | Panic => False
  end.
Proof.
  split; [vm_compute; reflexivity|]. split; [reflexivity|].
  apply (Receiver.decrypt_gate 5 Audio first_output switched); [exact switched_ok|]. compute_bytes.
Defined.

Lemma lossy_delivery_witness :
  exists kepts, Forall2 (fun a kept => kept_of a.1.1 a.1.2 kept) (zip requests outputs) kepts /\
    Receiver.recv_all (zip [1; 2; 3] ((fun a => (media_type a.1.1, a.2)) <$> zip requests outputs))
      (Receiver.transition_to_ratchet 0 (HashRatchet.new secret) (Receiver.default_decryptor 0)) = Ok <$> kepts.
Proof.
  apply (Receiver.lossy_delivery secret sender (Receiver.default_decryptor 0) 0 requests (zip requests outputs) [1; 2; 3]).
  - reflexivity.
  - vm_compute. reflexivity.
  - exact requests_ok.
  - vm_compute. reflexivity.
  - apply Receiver.all_on_time. vm_compute. reflexivity.
Defined.

End CryptorSamples.
