(* ===== verification/Queue.v ===== *)
(** * Queues (cacophony/src/queue.rs)

    [BoundedDeque], [BucketQueue], [BucketDeadlineQueue], [DeadlineQueue] and
    [DeadlineSet].  Instants are [Z].  A [BTreeMap] is a [gmap] read in key
    order through [entries]; a [HashSet] is a [gset] whose iteration order is
    unspecified: [pick] stands for the element its iterator yields first.
    [DriverReply] wraps a oneshot channel and is not modelled. *)

From stdpp Require Import sorting.
From Stdlib Require Import Sorting.Sorted.
From S2P Require Import Prelude.
#[local] Open Scope Z_scope.

(** ** Ordered maps *)
Section Entries.
Context {A : Type}.

#[local] Instance key_le_dec : RelDecision (fun x y : Z * A => x.1 <= y.1).
Proof. intros x y. apply _. Defined.

#[local] Instance key_le_total : Total (fun x y : Z * A => x.1 <= y.1).
Proof. intros x y. lia. Qed.

#[local] Instance key_le_trans : Transitive (fun x y : Z * A => x.1 <= y.1).
Proof. intros x y z. lia. Qed.

(** The entries in key order, as a [BTreeMap] iterates. *)
Definition entries (m : gmap Z A) : list (Z * A) := merge_sort (fun x y => x.1 <= y.1) (map_to_list m).

Definition first_key_value (m : gmap Z A) : option (Z * A) := head (entries m).

Lemma elem_of_entries m k a : (k, a) ∈ entries m <-> m !! k = Some a.
Proof. unfold entries. by rewrite merge_sort_Permutation, elem_of_map_to_list. Qed.

Lemma entries_sorted m : StronglySorted (fun x y => x.1 <= y.1) (entries m).
Proof. apply StronglySorted_merge_sort; apply _. Qed.

Lemma first_key_value_Some m k a :
  first_key_value m = Some (k, a) -> m !! k = Some a /\ forall k' a', m !! k' = Some a' -> k <= k'.
Proof.
  unfold first_key_value. intros H. split.
  - apply elem_of_entries. destruct (entries m); [done|]. injection H as ->. by left.
  - intros k' a' H'%elem_of_entries. pose proof (entries_sorted m) as Hs. destruct (entries m) as [|e l]; [done|].
    injection H as ->. apply StronglySorted_inv in Hs as [_ Hs]. rewrite Forall_forall in Hs.
    apply elem_of_cons in H' as [[= -> ->]|H']; [done|]. exact (Hs _ H').
Qed.

Lemma first_key_value_None m : first_key_value m = None <-> m = ∅.
Proof.
  unfold first_key_value. split.
  - intros H. apply map_eq. intros k. rewrite lookup_empty. destruct (m !! k) as [a|] eqn:E; [|done].
    apply elem_of_entries in E. destruct (entries m); [by apply elem_of_nil in E|done].
  - intros ->. unfold entries. by rewrite map_to_list_empty.
Qed.

Lemma entries_strict m : StronglySorted (fun x y => x.1 < y.1) (entries m).
Proof.
  pose proof (entries_sorted m) as Hs.
  assert (Hnd : NoDup (entries m).*1) by (unfold entries; rewrite merge_sort_Permutation; apply NoDup_fst_map_to_list).
  induction Hs as [|x l Hs IH Hx]; [constructor|]. cbn in Hnd. apply NoDup_cons in Hnd as [Hn Hnd].
  constructor; [by apply IH|]. rewrite Forall_forall in *. intros y Hy. specialize (Hx y Hy).
  assert (x.1 <> y.1); [|lia]. intros He. apply Hn. rewrite He. by apply list_elem_of_fmap_2.
Qed.

Lemma strict_sorted_eq (l k : list (Z * A)) :
  StronglySorted (fun x y => x.1 < y.1) l -> StronglySorted (fun x y => x.1 < y.1) k ->
  (forall x, x ∈ l <-> x ∈ k) -> l = k.
Proof.
  intros Hl. revert k. induction Hl as [|x l Hl IH Hx]; intros [|y k] Hk Heq; [done| | |].
  - exfalso. apply (elem_of_nil y), Heq. by left.
  - exfalso. apply (elem_of_nil x), Heq. by left.
  - apply StronglySorted_inv in Hk as [Hk Hy]. rewrite Forall_forall in Hx, Hy.
    assert (x = y) as <-.
    { destruct (proj1 (elem_of_cons _ _ _) (proj1 (Heq x) (list_elem_of_here _ _))) as [|Hxk]; [done|].
      destruct (proj1 (elem_of_cons _ _ _) (proj2 (Heq y) (list_elem_of_here _ _))) as [|Hyl]; [done|].
      specialize (Hx _ Hyl). specialize (Hy _ Hxk). lia. }
    f_equal. apply IH; [done|]. intros z. split; intros Hz.
    + destruct (proj1 (elem_of_cons _ _ _) (proj1 (Heq z) (list_elem_of_further _ _ _ Hz))) as [->|]; [|done].
      specialize (Hx _ Hz). lia.
    + destruct (proj1 (elem_of_cons _ _ _) (proj2 (Heq z) (list_elem_of_further _ _ _ Hz))) as [->|]; [|done].
      specialize (Hy _ Hz). lia.
Qed.

(** A strictly sorted list with the entries of a map is its entry list. *)
Lemma entries_unique (m : gmap Z A) (l : list (Z * A)) :
  StronglySorted (fun x y => x.1 < y.1) l -> (forall k a, (k, a) ∈ l <-> m !! k = Some a) -> entries m = l.
Proof.
  intros Hl Hin. apply strict_sorted_eq; [apply entries_strict|done|]. intros [k a]. by rewrite elem_of_entries, Hin.
Qed.

End Entries.

(** ** [BoundedDeque] *)
Module Bounded.
Section Bounded.
Context {T : Type}.

Record BoundedDeque := { items : list T; capacity : nat }.

Definition bounded_new (capacity : nat) : BoundedDeque := {| items := []; capacity := capacity |}.

Definition set_items (l : list T) (q : BoundedDeque) : BoundedDeque := {| items := l; capacity := capacity q |}.

Definition bounded_pop_front (q : BoundedDeque) : option T * BoundedDeque :=
  match items q with
  | [] => (None, q)
  | x :: l => (Some x, set_items l q)
  end.

(** The item dropped to make room, and the queue. *)
Definition bounded_push_front (x : T) (q : BoundedDeque) : option T * BoundedDeque :=
  let '(dropped, l) :=
    if (capacity q <=? length (items q))%nat
    then (last (items q), take (length (items q) - 1) (items q))
    else (None, items q) in
  (dropped, set_items (x :: l) q).

Definition bounded_push_back (x : T) (q : BoundedDeque) : option T * BoundedDeque :=
  let '(dropped, l) :=
    if (capacity q <=? length (items q))%nat
    then (head (items q), tail (items q))
    else (None, items q) in
  (dropped, set_items (l ++ [x]) q).

Definition bounded_len (q : BoundedDeque) : nat := length (items q).

Definition has_capacity (q : BoundedDeque) : bool := (length (items q) <? capacity q)%nat.

Definition bounded_retain (keep : T -> bool) (q : BoundedDeque) : BoundedDeque :=
  set_items (List.filter keep (items q)) q.

Lemma length_tail_sub (l : list T) : length (tail l) = (length l - 1)%nat.
Proof. destruct l; simpl; lia. Qed.

Lemma bounded_push_back_len x q :
  (0 < capacity q)%nat -> (length (items q) <= capacity q)%nat ->
  (length (items (bounded_push_back x q).2) <= capacity q)%nat.
Proof.
  intros Hc Hl. unfold bounded_push_back. destruct (Nat.leb_spec (capacity q) (length (items q))); cbn;
    rewrite length_app; cbn; rewrite ?length_tail_sub; lia.
Qed.

(** The sequence of [push_back]s keeps the last [capacity] items. *)
Definition push_all (xs : list T) (q : BoundedDeque) : BoundedDeque := foldl (fun q x => (bounded_push_back x q).2) q xs.

Lemma drop_snoc_keep (l : list T) x n : (n <= length l)%nat -> drop n (l ++ [x]) = drop n l ++ [x].
Proof. intros. by rewrite drop_app_le. Qed.

Lemma push_all_items xs n :
  (0 < n)%nat -> items (push_all xs (bounded_new n)) = drop (length xs - n) xs /\ capacity (push_all xs (bounded_new n)) = n.
Proof.
  intros Hn. induction xs as [|x xs [IH1 IH2]] using rev_ind; [done|].
  unfold push_all in *. rewrite foldl_snoc. set (q := foldl _ _ xs) in *. rewrite length_app. cbn [length].
  unfold bounded_push_back. rewrite IH1, IH2, length_drop.
  destruct (Nat.leb_spec n (length xs - (length xs - n))) as [H|H]; cbn [snd items capacity set_items]; (split; [|done]).
  - replace (length xs + 1 - n)%nat with (S (length xs - n)) by lia.
    rewrite drop_snoc_keep by lia. f_equal.
    rewrite <- Nat.add_1_r, <- drop_drop. by destruct (drop (length xs - n) xs).
  - replace (length xs - n)%nat with O by lia. replace (length xs + 1 - n)%nat with O by lia. by rewrite !drop_0.
Qed.

End Bounded.
Arguments BoundedDeque T : clear implicits.

(** A bounded queue never exceeds its capacity and keeps exactly the newest
    items: after any sequence of [push_back] calls it holds the last
    [capacity] of them in order, and a further [push_back] reports the oldest
    one as dropped precisely when the queue is full. *)
Theorem bounded_keeps_newest {T} (xs : list T) x n :
  (0 < n)%nat ->
  let q := push_all xs (bounded_new n) in
  items q = drop (length xs - n) xs /\ (length (items q) <= n)%nat /\
  (bounded_push_back x q).1 = (if (n <=? length xs)%nat then xs !! (length xs - n)%nat else None).
Proof.
  intros Hn q. destruct (push_all_items xs n Hn) as [Hi Hc]. split; [done|].
  unfold q. rewrite Hi, length_drop. split; [lia|]. unfold bounded_push_back. rewrite Hi, Hc, length_drop.
  destruct (Nat.leb_spec n (length xs)), (Nat.leb_spec n (length xs - (length xs - n))); try lia; cbn; [|done].
  by rewrite head_lookup, lookup_drop, Nat.add_0_r.
Qed.

Lemma bounded_keeps_newest_witness :
  let q := push_all [1; 2; 3; 4] (bounded_new 3) in
  items q = drop (length [1; 2; 3; 4] - 3) [1; 2; 3; 4] /\ (length (items q) <= 3)%nat /\
  (bounded_push_back 5 q).1 = (if (3 <=? length [1; 2; 3; 4])%nat then [1; 2; 3; 4] !! (length [1; 2; 3; 4] - 3)%nat else None).
Proof. apply (bounded_keeps_newest [1; 2; 3; 4] 5 3). lia. Defined.

End Bounded.

(** ** [DeadlineSet] *)
Module Deadlines.
Section Deadlines.
Context {K : Type} `{Countable K}.

(** The element a [HashSet] iterator yields first, whatever the order is. *)
Class SetIter := { pick : gset K -> option K }.
Class SetIterLaws (I : SetIter) : Prop := {
  pick_elem : forall s k, pick s = Some k -> k ∈ s;
  pick_none : forall s, pick s = None -> s = ∅;
}.
Context `{I : SetIter}.

Record DeadlineSet := { keys : gmap K Z; deadlines : gmap Z (gset K) }.

Definition deadline_set_default : DeadlineSet := {| keys := ∅; deadlines := ∅ |}.

Definition remove_from_deadline (k : K) (d : Z) (ds : gmap Z (gset K)) : gmap Z (gset K) :=
  match ds !! d with
  | None => ds
  | Some ks =>
      let ks := ks ∖ {[k]} in
      if bool_decide (ks = ∅) then delete d ds else <[d := ks]> ds
  end.

Definition deadline_insert (k : K) (d : Z) (s : DeadlineSet) : DeadlineSet :=
  let add ds := <[d := default ∅ (ds !! d) ∪ {[k]}]> ds in
  match keys s !! k with
  | Some old =>
      if old =? d then {| keys := <[k := d]> (keys s); deadlines := deadlines s |}
      else {| keys := <[k := d]> (keys s); deadlines := add (remove_from_deadline k old (deadlines s)) |}
  | None => {| keys := <[k := d]> (keys s); deadlines := add (deadlines s) |}
  end.

Definition deadline_remove (k : K) (s : DeadlineSet) : bool * DeadlineSet :=
  match keys s !! k with
  | None => (false, s)
  | Some d => (true, {| keys := delete k (keys s); deadlines := remove_from_deadline k d (deadlines s) |})
  end.

Definition next_deadline (s : DeadlineSet) : option Z := fst <$> first_key_value (deadlines s).

(** [expect] panics on an empty set of keys. *)
Definition deadline_pop_expired {E} (now : Z) (s : DeadlineSet) : res E (option K * DeadlineSet) :=
  match first_key_value (deadlines s) with
  | None => Ok (None, s)
  | Some (d, _) =>
      if d >? now then Ok (None, s)
      else
        k ← unwrap (ks ← deadlines s !! d; pick ks);
        Ok (Some k, (deadline_remove k s).2)
  end.

(** [values().find_map(|keys| keys.iter().find(include))] *)
Fixpoint first_in (include : K -> bool) (l : list (Z * gset K)) : option K :=
  match l with
  | [] => None
  | (_, ks) :: l =>
      match pick (filter (fun k => Is_true (include k)) ks) with
      | Some k => Some k
      | None => first_in include l
      end
  end.

Definition first_matching (include : K -> bool) (s : DeadlineSet) : option K := first_in include (entries (deadlines s)).

(** *** The two indices agree *)
Record consistent (s : DeadlineSet) : Prop := {
  consistent_keys : forall k d, keys s !! k = Some d <-> exists ks, deadlines s !! d = Some ks /\ k ∈ ks;
  consistent_nonempty : forall d ks, deadlines s !! d = Some ks -> ks <> ∅;
}.

Lemma consistent_default : consistent deadline_set_default.
Proof.
  split; cbn; intros ? ?.
  - rewrite lookup_empty. split; [done|]. intros (? & Hl & _). by rewrite lookup_empty in Hl.
  - by rewrite lookup_empty.
Qed.

(** Who is in the index after a removal. *)
Lemma remove_from_deadline_spec s k d :
  consistent s -> keys s !! k = Some d ->
  (forall k' d', (exists ks, remove_from_deadline k d (deadlines s) !! d' = Some ks /\ k' ∈ ks) <->
     keys s !! k' = Some d' /\ k' <> k) /\
  (forall d' ks, remove_from_deadline k d (deadlines s) !! d' = Some ks -> ks <> ∅).
Proof.
  intros [Hk Hne] Hkd. pose proof (proj1 (Hk k d) Hkd) as (ks & Hks & Hin).
  unfold remove_from_deadline. rewrite Hks.
  assert (Huniq : forall d' ks', deadlines s !! d' = Some ks' -> k ∈ ks' -> d' = d).
  { intros d' ks' H1 H2. assert (keys s !! k = Some d') by (apply Hk; eauto). congruence. }
  assert (Hother : forall k' d', keys s !! k' = Some d' /\ k' <> k <->
            exists ks', deadlines s !! d' = Some ks' /\ k' ∈ ks' /\ k' <> k).
  { intros k' d'. rewrite Hk. naive_solver. }
  case_bool_decide as He; split.
  - intros k' d'. rewrite Hother. split.
    + intros (ks' & [Hd Hl]%lookup_delete_Some & Hk'). exists ks'. split; [done|]. split; [done|]. intros ->.
      apply Hd. symmetry. by eapply Huniq.
    + intros (ks' & Hl & Hk' & Hn). exists ks'. split; [|done]. apply lookup_delete_Some. split; [|done]. intros <-.
      assert (k' ∈ ks ∖ {[k]}) by (apply elem_of_difference; split; [congruence|by rewrite elem_of_singleton]). set_solver.
  - intros d' ks' [_ Hl]%lookup_delete_Some. by eapply Hne.
  - intros k' d'. rewrite Hother. destruct (decide (d' = d)) as [->|Hd].
    + rewrite lookup_insert_eq. split.
      * intros (ks' & [= <-] & Hk'). apply elem_of_difference in Hk' as [? Hn]. rewrite elem_of_singleton in Hn. eauto.
      * intros (ks' & Hl & Hk' & Hn). eexists. split; [done|]. apply elem_of_difference. rewrite elem_of_singleton. split; [congruence|done].
    + rewrite lookup_insert_ne by done. split; [|naive_solver]. intros (ks' & Hl & Hk'). exists ks'.
      split; [done|]. split; [done|]. intros ->. apply Hd. by eapply Huniq.
  - intros d' ks'. destruct (decide (d' = d)) as [->|Hd].
    + rewrite lookup_insert_eq. by intros [= <-].
    + rewrite lookup_insert_ne by done. by apply Hne.
Qed.

Lemma deadline_remove_spec k s :
  consistent s -> consistent (deadline_remove k s).2 /\ keys (deadline_remove k s).2 = delete k (keys s) /\
  (deadline_remove k s).1 = bool_decide (is_Some (keys s !! k)).
Proof.
  intros Hs. unfold deadline_remove. destruct (keys s !! k) as [d|] eqn:Hk; cbn [fst snd keys].
  - destruct (remove_from_deadline_spec s k d Hs Hk) as [H1 H2]. split; [|split; [done|by rewrite bool_decide_eq_true_2 by eauto]].
    split; cbn; [|done]. intros k' d'. rewrite H1, lookup_delete_Some. naive_solver.
  - split; [done|]. split; [by rewrite delete_id|]. by rewrite bool_decide_eq_false_2 by (by intros [? ?]).
Qed.

(** Adding a key to an index that does not have it. *)
Lemma add_consistent k d ks ds :
  (forall k' d', (exists s, ds !! d' = Some s /\ k' ∈ s) <-> ks !! k' = Some d' /\ k' <> k) ->
  (forall d' s, ds !! d' = Some s -> s <> ∅) ->
  consistent {| keys := <[k := d]> ks; deadlines := <[d := default ∅ (ds !! d) ∪ {[k]}]> ds |}.
Proof.
  intros H1 H2. split; cbn.
  - intros k' d'. destruct (decide (k' = k)) as [->|Hk].
    + rewrite lookup_insert_eq. split.
      * intros [= <-]. rewrite lookup_insert_eq. eexists. split; [done|]. apply elem_of_union_r, elem_of_singleton. done.
      * intros (s & Hl & Hin). destruct (decide (d' = d)) as [->|]; [done|]. rewrite lookup_insert_ne in Hl by done.
        exfalso. assert (ks !! k = Some d' /\ k <> k) as [_ ?] by (apply H1; eauto). done.
    + rewrite lookup_insert_ne by done. destruct (decide (d' = d)) as [->|Hd].
      * rewrite lookup_insert_eq. split.
        -- intros Hl. destruct (proj2 (H1 k' d)) as (s & Hs & Hin); [done|]. eexists. split; [done|].
           rewrite Hs. by apply elem_of_union_l.
        -- intros (s & [= <-] & [Hin|Hin]%elem_of_union); [|by apply elem_of_singleton in Hin].
           destruct (ds !! d) as [s|] eqn:Hs; cbn in Hin; [|by apply elem_of_empty in Hin]. apply (proj1 (H1 k' d)). eauto.
      * rewrite lookup_insert_ne by done. rewrite H1. naive_solver.
  - intros d' s. destruct (decide (d' = d)) as [->|Hd].
    + rewrite lookup_insert_eq. intros [= <-] He. assert (k ∈ (∅ : gset K)) by (rewrite <- He; apply elem_of_union_r, elem_of_singleton; done). set_solver.
    + rewrite lookup_insert_ne by done. apply H2.
Qed.

Lemma deadline_insert_spec k d s :
  consistent s -> consistent (deadline_insert k d s) /\ keys (deadline_insert k d s) = <[k := d]> (keys s).
Proof.
  intros Hs. unfold deadline_insert. destruct (keys s !! k) as [old|] eqn:Hk.
  - destruct (Z.eqb_spec old d) as [->|Hne].
    + rewrite insert_id by done. split; [|done]. by destruct s.
    + split; [|done]. destruct (remove_from_deadline_spec s k old Hs Hk) as [H1 H2]. by apply add_consistent.
  - split; [|done]. destruct Hs as [H1 H2]. apply add_consistent; [|done]. intros k' d'. rewrite <- H1.
    split; [|tauto]. intros Hl. split; [done|]. congruence.
Qed.

Context {HI : SetIterLaws I}.

(** The smallest deadline of the abstract map. *)
Definition min_deadline (m : gmap K Z) (d : Z) : Prop :=
  (exists k, m !! k = Some d) /\ forall k' d', m !! k' = Some d' -> d <= d'.

Lemma next_deadline_spec s :
  consistent s ->
  match next_deadline s with
  | Some d => min_deadline (keys s) d
  | None => keys s = ∅
  end.
Proof.
  intros [H1 H2]. unfold next_deadline. destruct (first_key_value (deadlines s)) as [[d ks]|] eqn:Hf; cbn.
  - apply first_key_value_Some in Hf as [Hd Hmin]. pose proof (H2 _ _ Hd) as Hne.
    apply set_choose_L in Hne as [k Hk]. split; [exists k; apply H1; eauto|].
    intros k' d' Hk'. apply H1 in Hk' as (ks' & Hks' & _). by eapply Hmin.
  - apply first_key_value_None in Hf. apply map_eq. intros k. rewrite lookup_empty.
    destruct (keys s !! k) as [d|] eqn:Hk; [|done]. apply H1 in Hk as (ks & Hks & _). by rewrite Hf, lookup_empty in Hks.
Qed.

Lemma deadline_pop_expired_spec {E} now s :
  consistent s ->
  exists o s', deadline_pop_expired (E := E) now s = Ok (o, s') /\ consistent s' /\
    match o with
    | Some k => exists d, keys s !! k = Some d /\ d <= now /\ min_deadline (keys s) d /\ keys s' = delete k (keys s)
    | None => s' = s /\ forall k d, keys s !! k = Some d -> now < d
    end.
Proof.
  intros Hs. pose proof (next_deadline_spec s Hs) as Hn. unfold next_deadline in Hn. unfold deadline_pop_expired.
  destruct (first_key_value (deadlines s)) as [[d ks]|] eqn:Hf; cbn in Hn.
  - rewrite Z.gtb_ltb. destruct (Z.ltb_spec now d).
    + do 2 eexists. split; [done|]. split; [done|]. split; [done|]. intros k d' Hk. apply (proj2 Hn) in Hk. lia.
    + apply first_key_value_Some in Hf as [Hd _]. rewrite Hd. cbn.
      destruct (pick ks) as [k|] eqn:Hp; [|by apply pick_none in Hp; destruct (consistent_nonempty _ Hs _ _ Hd)].
      apply pick_elem in Hp. assert (Hk : keys s !! k = Some d) by (apply Hs; eauto).
      destruct (deadline_remove_spec k s Hs) as (Hc & Hkeys & _). do 2 eexists. split; [done|]. split; [done|]. eauto.
  - do 2 eexists. split; [done|]. split; [done|]. split; [done|]. intros k d' Hk. by rewrite Hn, lookup_empty in Hk.
Qed.

(** A key with the smallest deadline among those [include] selects. *)
Lemma first_matching_spec include s :
  consistent s ->
  match first_matching include s with
  | Some k => exists d, keys s !! k = Some d /\ include k = true /\
                forall k' d', keys s !! k' = Some d' -> include k' = true -> d <= d'
  | None => forall k d, keys s !! k = Some d -> include k = false
  end.
Proof.
  intros [H1 H2]. unfold first_matching.
  assert (Hall : forall d ks, (d, ks) ∈ entries (deadlines s) <-> deadlines s !! d = Some ks) by (intros; apply elem_of_entries).
  assert (Hgen : forall l, StronglySorted (fun x y => x.1 <= y.1) l ->
    match first_in include l with
    | Some k => exists d ks, (d, ks) ∈ l /\ k ∈ ks /\ include k = true /\
                  forall d' ks' k', (d', ks') ∈ l -> k' ∈ ks' -> include k' = true -> d <= d'
    | None => forall d ks k, (d, ks) ∈ l -> k ∈ ks -> include k = false
    end).
  { induction l as [|[d ks] l IH]; intros Hs; cbn [first_in]; [by intros ? ? ? ?%elem_of_nil|].
    apply StronglySorted_inv in Hs as [Hs Hhd]. rewrite Forall_forall in Hhd. specialize (IH Hs).
    destruct (pick (filter _ ks)) as [k|] eqn:Hp.
    - apply pick_elem, elem_of_filter in Hp as [Hi Hk]. exists d, ks. split; [by left|]. split; [done|].
      split; [by apply Is_true_true|]. intros d' ks' k' [[= -> ->]|Hin]%elem_of_cons _ _; [done|]. exact (Hhd _ Hin).
    - apply pick_none in Hp.
      assert (Hno : forall k, k ∈ ks -> include k = false).
      { intros k Hk. destruct (include k) eqn:Hi; [|done]. assert (Hf : k ∈ (∅ : gset K)).
        { rewrite <- Hp. apply elem_of_filter. split; [by apply Is_true_true|done]. } by apply elem_of_empty in Hf. }
      destruct (first_in include l) as [k|].
      + destruct IH as (d1 & ks1 & Hin & Hk & Hi & Hmin). exists d1, ks1. split; [by right|]. split; [done|]. split; [done|].
        intros d' ks' k' [[= -> ->]|Hin']%elem_of_cons Hk' Hi'; [by rewrite Hno in Hi'|]. by eapply Hmin.
      + intros d' ks' k' [[= -> ->]|Hin']%elem_of_cons Hk'; [by apply Hno|]. by eapply IH. }
  specialize (Hgen _ (entries_sorted (deadlines s))). destruct (first_in include (entries (deadlines s))) as [k|].
  - destruct Hgen as (d & ks & Hin & Hk & Hi & Hmin). exists d. split; [apply H1; exists ks; by rewrite <- Hall|].
    split; [done|]. intros k' d' (ks' & Hl & Hk')%H1 Hi'. apply Hall in Hl. by eapply Hmin.
  - intros k d (ks & Hl & Hk)%H1. apply Hall in Hl. by eapply Hgen.
Qed.

(** The states a sequence of calls can produce. *)
Inductive reachable : DeadlineSet -> Prop :=
| reach_default : reachable deadline_set_default
| reach_insert k d s : reachable s -> reachable (deadline_insert k d s)
| reach_remove k s : reachable s -> reachable (deadline_remove k s).2
| reach_pop now s o s' : reachable s -> deadline_pop_expired (E := Empty_set) now s = Ok (o, s') -> reachable s'.

Lemma reachable_consistent s : reachable s -> consistent s.
Proof.
  induction 1 as [|k d s _ IH|k s _ IH|now s o s' _ IH Hp].
  - apply consistent_default.
  - by apply deadline_insert_spec.
  - by apply deadline_remove_spec.
  - destruct (deadline_pop_expired_spec (E := Empty_set) now s IH) as (o' & s'' & Hp' & Hc & _). congruence.
Qed.

(** The two indices of a deadline set agree in every reachable state, and
    [pop_expired] never hits its [expect]: it removes and returns a key with
    the smallest deadline of all if that deadline has passed, and returns
    nothing exactly when every deadline lies in the future; [next_deadline] is
    the smallest deadline. *)
Theorem deadline_set_earliest s now :
  reachable s ->
  exists o s', deadline_pop_expired (E := Empty_set) now s = Ok (o, s') /\
    match o with
    | Some k => exists d, keys s !! k = Some d /\ d <= now /\ next_deadline s = Some d /\
                          min_deadline (keys s) d /\ keys s' = delete k (keys s)
    | None => s' = s /\ forall k d, keys s !! k = Some d -> now < d
    end.
Proof.
  intros Hr%reachable_consistent. destruct (deadline_pop_expired_spec (E := Empty_set) now s Hr) as (o & s' & -> & _ & Ho).
  exists o, s'. split; [done|]. destruct o as [k|]; [|done]. destruct Ho as (d & Hk & Hd & Hmin & Hkeys).
  exists d. split_and!; try done. pose proof (next_deadline_spec s Hr) as Hn. destruct (next_deadline s) as [d'|].
  - f_equal. apply Z.le_antisymm; [by apply (proj2 Hn) in Hk|]. destruct Hn as [[k' Hk'] _]. by apply (proj2 Hmin) in Hk'.
  - by rewrite Hn, lookup_empty in Hk.
Qed.

End Deadlines.

(** An iteration order for the witness. *)
Module SampleIter.
#[export] Instance sample_iter : SetIter (K := Z) := {| pick := fun s => head (elements s) |}.

#[export] Instance sample_iter_laws : SetIterLaws sample_iter.
Proof.
  split; cbn; intros s.
  - intros k Hk. apply elem_of_elements. destruct (elements s); [done|]. injection Hk as ->. left.
  - intros Hk. apply leibniz_equiv, elements_empty_iff. by destruct (elements s).
Qed.

Lemma deadline_set_earliest_witness :
  let s := deadline_insert 2 20 (deadline_insert 1 10 deadline_set_default) in
  exists o s', deadline_pop_expired (E := Empty_set) 15 s = Ok (o, s') /\
    match o with
    | Some k => exists d, keys s !! k = Some d /\ d <= 15 /\ next_deadline s = Some d /\
                          min_deadline (keys s) d /\ keys s' = delete k (keys s)
    | None => s' = s /\ forall k d, keys s !! k = Some d -> 15 < d
    end.
Proof.
  apply deadline_set_earliest. apply reach_insert, reach_insert, reach_default.
Defined.
End SampleIter.
End Deadlines.

(** ** [BucketQueue] and [BucketDeadlineQueue] *)
Module Buckets.
Import Deadlines.
Section Buckets.
Context {B : Type} `{Countable B} {T : Type} {I : SetIter (K := B)}.

(** [QueueBucket] for an array of [N] buckets. *)
Class QueueBucket := { bucket_index : B -> nat; bucket_count : nat }.
Class QueueBucketLaws (Q : QueueBucket) : Prop := {
  bucket_index_lt : forall b, (bucket_index b < bucket_count)%nat;
  bucket_index_inj : forall a b, bucket_index a = bucket_index b -> a = b;
}.
Context `{Q : QueueBucket}.

Abbreviation BucketQueue A := (list (list A)).

Definition bucket_default {A} : BucketQueue A := replicate bucket_count [].

(** [self.buckets[bucket.index()]] *)
Definition bucket {E A} (b : B) (q : BucketQueue A) : res E (list A) := index q (bucket_index b).

Definition set_bucket {A} (b : B) (l : list A) (q : BucketQueue A) : BucketQueue A := <[bucket_index b := l]> q.

Definition bucket_len {A} (q : BucketQueue A) : nat := sum_list (length <$> q).

Definition bucket_front {E A} (b : B) (q : BucketQueue A) : res E (option A) := l ← bucket b q; Ok (head l).

Definition bucket_back {E A} (b : B) (q : BucketQueue A) : res E (option A) := l ← bucket b q; Ok (last l).

Definition bucket_push_back {E A} (b : B) (x : A) (q : BucketQueue A) : res E (BucketQueue A) :=
  l ← bucket b q; Ok (set_bucket b (l ++ [x]) q).

(** [VecDeque::insert] panics when the index is past the end. *)
Definition bucket_insert {E A} (b : B) (i : nat) (x : A) (q : BucketQueue A) : res E (BucketQueue A) :=
  l ← bucket b q;
  if (i <=? length l)%nat then Ok (set_bucket b (take i l ++ x :: drop i l) q) else Panic.

Definition bucket_pop_front {E A} (b : B) (q : BucketQueue A) : res E (option A * BucketQueue A) :=
  l ← bucket b q;
  Ok (match l with [] => (None, q) | x :: l => (Some x, set_bucket b l q) end).

Fixpoint position {A} (predicate : A -> bool) (l : list A) : option nat :=
  match l with
  | [] => None
  | x :: l => if predicate x then Some O else match position predicate l with Some n => Some (S n) | None => None end
  end.

Definition bucket_position {E A} (b : B) (predicate : A -> bool) (q : BucketQueue A) : res E (option nat) :=
  l ← bucket b q; Ok (position predicate l).

Definition bucket_retain {E A} (b : B) (keep : A -> bool) (q : BucketQueue A) : res E (BucketQueue A) :=
  l ← bucket b q; Ok (set_bucket b (List.filter keep l) q).

(** *** [BucketDeadlineQueue] *)
Record DeadlineValue := { deadline : Z; value : T }.

Record BucketDeadlineQueue := { buckets : BucketQueue DeadlineValue; bucket_deadlines : DeadlineSet (K := B) }.

Definition bdq_default : BucketDeadlineQueue := {| buckets := bucket_default; bucket_deadlines := deadline_set_default |}.

Definition bdq_len (q : BucketDeadlineQueue) : nat := bucket_len (buckets q).

Definition refresh_bucket_deadline {E} (b : B) (q : BucketDeadlineQueue) : res E BucketDeadlineQueue :=
  front ← bucket_front b (buckets q);
  Ok {| buckets := buckets q;
        bucket_deadlines := match front with
                            | Some item => deadline_insert b (deadline item) (bucket_deadlines q)
                            | None => (deadline_remove b (bucket_deadlines q)).2
                            end |}.

Definition bdq_push {E} (b : B) (v : T) (d : Z) (q : BucketDeadlineQueue) : res E BucketDeadlineQueue :=
  back ← bucket_back b (buckets q);
  let item := {| deadline := d; value := v |} in
  let in_order := match back with None => true | Some queued => deadline queued <=? d end in
  bs ← (if in_order : bool then bucket_push_back b item (buckets q)
        else
          i ← bucket_position b (fun queued => deadline queued >? d) (buckets q);
          i ← unwrap i;
          bucket_insert b i item (buckets q));
  refresh_bucket_deadline b {| buckets := bs; bucket_deadlines := bucket_deadlines q |}.

Definition pop_bucket_front {E} (b : B) (q : BucketDeadlineQueue) : res E (option T * BucketDeadlineQueue) :=
  '(item, bs) ← bucket_pop_front b (buckets q);
  let q := {| buckets := bs; bucket_deadlines := bucket_deadlines q |} in
  match item with
  | None => Ok (None, q)
  | Some item => q ← refresh_bucket_deadline b q; Ok (Some (value item), q)
  end.

Definition bdq_pop_expired {E} (now : Z) (q : BucketDeadlineQueue) : res E (option T * BucketDeadlineQueue) :=
  '(b, ds) ← deadline_pop_expired now (bucket_deadlines q);
  let q := {| buckets := buckets q; bucket_deadlines := ds |} in
  match b with
  | None => Ok (None, q)
  | Some b => pop_bucket_front b q
  end.

Definition bdq_pop_matching {E} (include : B -> bool) (q : BucketDeadlineQueue) : res E (option T * BucketDeadlineQueue) :=
  match first_matching include (bucket_deadlines q) with
  | None => Ok (None, q)
  | Some b => pop_bucket_front b q
  end.

Definition bdq_next_deadline (q : BucketDeadlineQueue) : option Z := next_deadline (bucket_deadlines q).

Definition bdq_retain {E} (b : B) (keep : T -> bool) (q : BucketDeadlineQueue) : res E BucketDeadlineQueue :=
  bs ← bucket_retain b (fun item => keep (value item)) (buckets q);
  refresh_bucket_deadline b {| buckets := bs; bucket_deadlines := bucket_deadlines q |}.

(** *** Invariant *)
Definition by_deadline (l : list DeadlineValue) : Prop := StronglySorted (fun x y => deadline x <= deadline y) l.

(** The contents of a bucket; total because the array has every bucket. *)
Definition content (q : BucketDeadlineQueue) (b : B) : list DeadlineValue := default [] (buckets q !! bucket_index b).

(** Every bucket is in deadline order; the deadline set holds the deadline of
    the first item of every non-empty bucket, [except] one possibly. *)
Record bdq_ok_except (x : option B) (q : BucketDeadlineQueue) : Prop := {
  bdq_length : length (buckets q) = bucket_count;
  bdq_sorted : forall b, by_deadline (content q b);
  bdq_consistent : consistent (bucket_deadlines q);
  bdq_front : forall b, Some b <> x -> keys (bucket_deadlines q) !! b = deadline <$> head (content q b);
}.

Definition bdq_ok (q : BucketDeadlineQueue) : Prop := bdq_ok_except None q.

Context {HI : SetIterLaws I} {HQ : QueueBucketLaws Q}.

Lemma bucket_content {E} b q : length (buckets q) = bucket_count -> bucket (E := E) b (buckets q) = Ok (content q b).
Proof.
  intros Hl. unfold bucket, content, index. destruct (lookup_lt_is_Some_2 (buckets q) (bucket_index b)) as [l ->]; [|done].
  rewrite Hl. apply bucket_index_lt.
Qed.

Lemma content_set b b' l bs ds :
  length bs = bucket_count ->
  content {| buckets := set_bucket b l bs; bucket_deadlines := ds |} b' =
    if decide (b = b') then l else default [] (bs !! bucket_index b').
Proof.
  intros Hl. unfold content, set_bucket. cbn. destruct (decide (b = b')) as [->|Hne].
  - rewrite list_lookup_insert_eq by (rewrite Hl; apply bucket_index_lt). done.
  - rewrite list_lookup_insert_ne; [done|]. intros Heq. by apply Hne, bucket_index_inj.
Qed.

(** Replacing a bucket leaves its deadline to be refreshed. *)
Lemma set_bucket_ok b l q :
  bdq_ok_except None q \/ bdq_ok_except (Some b) q -> by_deadline l ->
  bdq_ok_except (Some b) {| buckets := set_bucket b l (buckets q); bucket_deadlines := bucket_deadlines q |}.
Proof.
  intros Hq Hl. assert (Hq' : bdq_ok_except (Some b) q) by (destruct Hq as [[? ? ? Hf]|]; [split; try done; intros; by apply Hf|done]).
  destruct Hq' as [H1 H2 H3 H4]. split; cbn.
  - unfold set_bucket. by rewrite length_insert.
  - intros b'. rewrite content_set by done. destruct (decide _); [done|apply H2].
  - done.
  - intros b' Hb'. rewrite content_set by done. destruct (decide (b = b')) as [->|]; [done|]. by apply H4.
Qed.

Lemma refresh_spec {E} b q :
  bdq_ok_except (Some b) q ->
  exists q', refresh_bucket_deadline (E := E) b q = Ok q' /\ bdq_ok q' /\ buckets q' = buckets q.
Proof.
  intros [H1 H2 H3 H4]. unfold refresh_bucket_deadline, bucket_front. rewrite bucket_content by done. cbn [mbind res_mbind].
  eexists. split; [done|]. split; [|done].
  assert (Hds : consistent (match head (content q b) with
                            | Some item => deadline_insert b (deadline item) (bucket_deadlines q)
                            | None => (deadline_remove b (bucket_deadlines q)).2 end) /\
    forall b', keys (match head (content q b) with
                     | Some item => deadline_insert b (deadline item) (bucket_deadlines q)
                     | None => (deadline_remove b (bucket_deadlines q)).2 end) !! b' = deadline <$> head (content q b')).
  { destruct (head (content q b)) as [item|] eqn:Hh.
    - destruct (deadline_insert_spec b (deadline item) _ H3) as [Hc Hk]. split; [done|]. intros b'. rewrite Hk.
      destruct (decide (b = b')) as [<-|]; [by rewrite lookup_insert_eq, Hh|].
      rewrite lookup_insert_ne by done. apply H4. congruence.
    - destruct (deadline_remove_spec b _ H3) as (Hc & Hk & _). split; [done|]. intros b'. rewrite Hk.
      destruct (decide (b = b')) as [<-|]; [by rewrite lookup_delete_eq, Hh|].
      rewrite lookup_delete_ne by done. apply H4. congruence. }
  destruct Hds as [Hc Hk]. split; [done|exact H2|done|]. intros b' _. apply Hk.
Qed.

(** Where an item with deadline [d] goes: behind everything due no later. *)
Definition place (d : Z) (item : DeadlineValue) (l : list DeadlineValue) : list DeadlineValue :=
  List.filter (fun x => deadline x <=? d) l ++ item :: List.filter (fun x => deadline x >? d) l.

Lemma filter_all (f : DeadlineValue -> bool) l : (forall x, x ∈ l -> f x = true) -> List.filter f l = l.
Proof. induction l as [|x l IH]; intros Hf; cbn; [done|]. rewrite Hf by by left. f_equal. apply IH. intros y Hy. apply Hf. by right. Qed.

Lemma filter_none (f : DeadlineValue -> bool) l : (forall x, x ∈ l -> f x = false) -> List.filter f l = [].
Proof. induction l as [|x l IH]; intros Hf; cbn; [done|]. rewrite Hf by by left. apply IH. intros y Hy. apply Hf. by right. Qed.

Lemma by_deadline_last l item : by_deadline l -> last l = Some item -> forall x, x ∈ l -> deadline x <= deadline item.
Proof.
  intros Hs. induction Hs as [|y l Hs IH Hy]; [done|]. rewrite last_cons. intros Hl x Hx.
  destruct (last l) as [z|] eqn:Hz.
  - injection Hl as ->. apply elem_of_cons in Hx as [->|Hx]; [|by apply IH]. rewrite Forall_forall in Hy. apply Hy.
    apply list_elem_of_In. apply last_Some in Hz as [l' ->]. apply list_elem_of_In, elem_of_app. right. by left.
  - injection Hl as ->. apply last_None in Hz as ->. apply list_elem_of_singleton in Hx as ->. done.
Qed.

Lemma position_place d l item :
  by_deadline l ->
  match position (fun x => deadline x >? d) l with
  | Some i => (i <= length l)%nat /\ take i l ++ item :: drop i l = place d item l
  | None => forall x, x ∈ l -> deadline x <= d
  end.
Proof.
  unfold place. induction 1 as [|x l Hs IH Hx]; cbn [position List.filter]; [by intros ? ?%elem_of_nil|].
  rewrite Forall_forall in Hx. rewrite !Z.gtb_ltb. destruct (Z.ltb_spec d (deadline x)) as [Hlt|Hge].
  - split; [lia|]. rewrite (proj2 (Z.leb_gt _ _)) by lia. cbn.
    rewrite (filter_none (fun x => deadline x <=? d)), (filter_all (fun x => deadline x >? d)); [done| |].
    + intros y Hy. specialize (Hx y Hy). rewrite Z.gtb_ltb. apply Z.ltb_lt. lia.
    + intros y Hy. specialize (Hx y Hy). apply Z.leb_gt. lia.
  - rewrite (proj2 (Z.leb_le _ _)) by lia. destruct (position _ l) as [i|].
    + destruct IH as [? IH]. split; [cbn; lia|]. cbn. by rewrite IH.
    + intros y [->|Hy]%elem_of_cons; [done|by apply IH].
Qed.

Lemma place_sorted d item l : by_deadline l -> deadline item = d -> by_deadline (place d item l).
Proof.
  intros Hs <-. unfold place. induction Hs as [|x l Hs IH Hx]; cbn; [repeat constructor|].
  rewrite Z.gtb_ltb. rewrite Forall_forall in Hx. destruct (Z.leb_spec (deadline x) (deadline item)), (Z.ltb_spec (deadline item) (deadline x)); try lia.
  - cbn. constructor; [done|]. apply Forall_forall. intros y Hy. apply elem_of_app in Hy as [Hy|[->|Hy]%elem_of_cons]; [|done|];
      apply list_elem_of_In, filter_In in Hy as [Hy _]; apply Hx; by apply list_elem_of_In.
  - rewrite (filter_none (fun x => deadline x <=? deadline item)), (filter_all (fun x => deadline x >? deadline item)).
    + cbn. constructor; [by constructor; [|apply Forall_forall]|]. constructor; [lia|]. apply Forall_forall. intros y Hy. specialize (Hx y Hy). lia.
    + intros y Hy. specialize (Hx y Hy). rewrite Z.gtb_ltb. apply Z.ltb_lt. lia.
    + intros y Hy. specialize (Hx y Hy). apply Z.leb_gt. lia.
Qed.

Lemma bdq_push_spec {E} b v d q :
  bdq_ok q ->
  exists q', bdq_push (E := E) b v d q = Ok q' /\ bdq_ok q' /\
    forall b', content q' b' = if decide (b = b') then place d {| deadline := d; value := v |} (content q b) else content q b'.
Proof.
  intros Hq. pose proof (bdq_length _ _ Hq) as Hlen. pose proof (bdq_sorted _ _ Hq b) as Hs.
  unfold bdq_push, bucket_back. rewrite bucket_content by done. cbn [mbind res_mbind]. set (item := {| deadline := d; value := v |}).
  match goal with |- context [mbind _ ?m] => assert (Hm : m = Ok (set_bucket b (place d item (content q b)) (buckets q))) end.
  { pose proof (position_place d (content q b) item Hs) as Hpos.
    unfold bucket_push_back, bucket_position, bucket_insert. rewrite bucket_content by done. cbn [mbind res_mbind].
    assert (Hend : (forall x, x ∈ content q b -> deadline x <= d) -> place d item (content q b) = content q b ++ [item]).
    { intros Hall. unfold place. rewrite filter_all, filter_none; [done| |].
      - intros x Hx%Hall. rewrite Z.gtb_ltb. apply Z.ltb_ge. lia.
      - intros x Hx%Hall. by apply Z.leb_le. }
    destruct (last (content q b)) as [queued|] eqn:Hl.
    - destruct (Z.leb_spec (deadline queued) d).
      + rewrite Hend; [done|]. intros x Hx. pose proof (by_deadline_last _ _ Hs Hl x Hx). lia.
      + destruct (position _ _) as [i|]; cbn [unwrap mbind res_mbind].
        * destruct Hpos as [Hi <-]. by rewrite (proj2 (Nat.leb_le _ _)).
        * exfalso. assert (Hin : queued ∈ content q b). { apply last_Some in Hl as [l' ->]. apply elem_of_app. right. by left. }
          specialize (Hpos _ Hin). lia.
    - apply last_None in Hl. rewrite Hend; [done|]. intros x Hx. by rewrite Hl in Hx; apply elem_of_nil in Hx. }
  rewrite Hm. cbn [mbind res_mbind].
  assert (Hex := set_bucket_ok b (place d item (content q b)) q (or_introl Hq) (place_sorted _ item _ Hs eq_refl)).
  destruct (refresh_spec (E := E) b _ Hex) as (q' & -> & Hok & Hb). exists q'. split; [done|]. split; [done|].
  intros b'. unfold content at 1. rewrite Hb. fold (content {| buckets := set_bucket b (place d item (content q b)) (buckets q); bucket_deadlines := bucket_deadlines q |} b').
  by rewrite content_set by done.
Qed.

Lemma pop_bucket_front_spec {E} b q :
  bdq_ok_except None q \/ bdq_ok_except (Some b) q -> content q b <> [] ->
  exists item l q', content q b = item :: l /\ pop_bucket_front (E := E) b q = Ok (Some (value item), q') /\ bdq_ok q' /\
    forall b', content q' b' = if decide (b = b') then l else content q b'.
Proof.
  intros Hq Hne. assert (Hlen : length (buckets q) = bucket_count) by (destruct Hq as [[]|[]]; done).
  assert (Hs : by_deadline (content q b)) by (destruct Hq as [[]|[]]; done).
  unfold pop_bucket_front, bucket_pop_front. rewrite bucket_content by done. cbn [mbind res_mbind].
  destruct (content q b) as [|item l] eqn:Hc; [done|]. exists item, l.
  apply StronglySorted_inv in Hs as [Hs _].
  destruct (refresh_spec (E := E) b _ (set_bucket_ok b l q Hq Hs)) as (q' & -> & Hok & Hb).
  exists q'. split; [done|]. split; [done|]. split; [done|].
  intros b'. unfold content at 1. rewrite Hb. fold (content {| buckets := set_bucket b l (buckets q); bucket_deadlines := bucket_deadlines q |} b').
  by rewrite content_set by done.
Qed.

(** The states a sequence of calls can produce. *)
Inductive bdq_reachable : BucketDeadlineQueue -> Prop :=
| bdq_reach_default : bdq_reachable bdq_default
| bdq_reach_push b v d q q' : bdq_reachable q -> bdq_push (E := Empty_set) b v d q = Ok q' -> bdq_reachable q'
| bdq_reach_pop now q o q' : bdq_reachable q -> bdq_pop_expired (E := Empty_set) now q = Ok (o, q') -> bdq_reachable q'
| bdq_reach_pop_matching include q o q' :
    bdq_reachable q -> bdq_pop_matching (E := Empty_set) include q = Ok (o, q') -> bdq_reachable q'
| bdq_reach_retain b keep q q' : bdq_reachable q -> bdq_retain (E := Empty_set) b keep q = Ok q' -> bdq_reachable q'.

Lemma bdq_default_ok : bdq_ok bdq_default.
Proof.
  assert (Hc : forall b, content bdq_default b = []).
  { intros b. unfold content. cbn. unfold bucket_default. rewrite lookup_replicate_2 by apply bucket_index_lt. done. }
  split.
  - apply length_replicate.
  - intros b. rewrite Hc. constructor.
  - apply consistent_default.
  - intros b _. rewrite Hc. cbn. apply lookup_empty.
Qed.

(** Popping takes the earliest item of all. *)
Lemma bdq_pop_expired_spec {E} now q :
  bdq_ok q ->
  exists o q', bdq_pop_expired (E := E) now q = Ok (o, q') /\ bdq_ok q' /\
    match o with
    | Some v => exists b item l, content q b = item :: l /\ value item = v /\ deadline item <= now /\
        (forall b' x, x ∈ content q b' -> deadline item <= deadline x) /\
        (forall b', content q' b' = if decide (b = b') then l else content q b')
    | None => (forall b, content q' b = content q b) /\ forall b x, x ∈ content q b -> now < deadline x
    end.
Proof.
  intros [H1 H2 H3 H4]. unfold bdq_pop_expired.
  destruct (deadline_pop_expired_spec (E := E) now _ H3) as (o & ds & -> & Hc & Ho). cbn [mbind res_mbind].
  assert (Hfirst : forall b x, x ∈ content q b -> exists d, keys (bucket_deadlines q) !! b = Some d /\ d <= deadline x).
  { intros b x Hx. rewrite H4 by done. specialize (H2 b). destruct (content q b) as [|item l]; [by apply elem_of_nil in Hx|].
    exists (deadline item). split; [done|]. apply StronglySorted_inv in H2 as [_ H2]. rewrite Forall_forall in H2.
    apply elem_of_cons in Hx as [->|Hx]; [done|by apply H2]. }
  destruct o as [b|].
  - destruct Ho as (d & Hk & Hd & [_ Hmin] & Hkeys). rewrite H4 in Hk by done.
    assert (Hex : bdq_ok_except (Some b) {| buckets := buckets q; bucket_deadlines := ds |}).
    { split; [done|exact H2|done|]. intros b' Hb'. cbn. rewrite Hkeys, lookup_delete_ne by congruence. by apply H4. }
    destruct (pop_bucket_front_spec (E := E) b _ (or_intror Hex)) as (item & l & q' & Hcont & -> & Hok & Hq').
    { intros He. change (content q b = []) in He. by rewrite He in Hk. }
    change (content q b = item :: l) in Hcont. rewrite Hcont in Hk. injection Hk as <-.
    do 2 eexists. split; [done|]. split; [done|]. exists b, item, l. split_and!; try done.
    intros b' x (d' & Hk' & Hle)%Hfirst. apply Hmin in Hk'. lia.
  - destruct Ho as [-> Hall]. do 2 eexists. split; [done|]. split; [by destruct q|]. split; [done|].
    intros b x (d & Hk & Hle)%Hfirst. apply Hall in Hk. lia.
Qed.

(** Popping takes the earliest item of the buckets asked for. *)
Lemma bdq_pop_matching_spec {E} include q :
  bdq_ok q ->
  exists o q', bdq_pop_matching (E := E) include q = Ok (o, q') /\ bdq_ok q' /\
    match o with
    | Some v => exists b item l, content q b = item :: l /\ value item = v /\ include b = true /\
        (forall b' x, include b' = true -> x ∈ content q b' -> deadline item <= deadline x) /\
        (forall b', content q' b' = if decide (b = b') then l else content q b')
    | None => q' = q /\ forall b, include b = true -> content q b = []
    end.
Proof.
  intros Hq. unfold bdq_pop_matching. pose proof (first_matching_spec include _ (bdq_consistent _ _ Hq)) as Hf.
  destruct (first_matching _ _) as [b|].
  - destruct Hf as (d & Hk & Hi & Hmin). rewrite (bdq_front _ _ Hq) in Hk by done.
    destruct (pop_bucket_front_spec (E := E) b q (or_introl Hq)) as (item & l & q' & Hc & -> & Hok & Hq'); [by intros He; rewrite He in Hk|].
    rewrite Hc in Hk. injection Hk as <-. do 2 eexists. split; [done|]. split; [done|]. exists b, item, l. split_and!; try done.
    intros b' x Hi' Hx. pose proof (bdq_sorted _ _ Hq b') as Hs. destruct (content q b') as [|y l'] eqn:Hc'; [by apply elem_of_nil in Hx|].
    transitivity (deadline y); [apply (Hmin b'); [|done]; by rewrite (bdq_front _ _ Hq), Hc'|].
    apply StronglySorted_inv in Hs as [_ Hs]. rewrite Forall_forall in Hs. apply elem_of_cons in Hx as [->|Hx]; [done|by apply Hs].
  - do 2 eexists. split; [done|]. split; [done|]. split; [done|]. intros b Hi. destruct (content q b) as [|item l] eqn:Hc; [done|].
    rewrite (Hf b (deadline item)) in Hi; [done|]. by rewrite (bdq_front _ _ Hq), Hc.
Qed.

Lemma bdq_retain_spec {E} b keep q :
  bdq_ok q -> exists q', bdq_retain (E := E) b keep q = Ok q' /\ bdq_ok q' /\
    forall b', content q' b' = if decide (b = b') then List.filter (fun item => keep (value item)) (content q b) else content q b'.
Proof.
  intros Hq. unfold bdq_retain, bucket_retain. rewrite bucket_content by apply Hq. cbn [mbind res_mbind].
  set (l := List.filter (fun item => keep (value item)) (content q b)).
  assert (Hs : by_deadline l).
  { unfold l. pose proof (bdq_sorted _ _ Hq b) as Hs. induction Hs as [|x l0 Hs IH Hx]; cbn; [constructor|]. destruct (keep (value x)); [|done].
    constructor; [done|]. rewrite Forall_forall in *. intros y Hy. apply list_elem_of_In, filter_In in Hy as [Hy _].
    apply Hx. by apply list_elem_of_In. }
  destruct (refresh_spec (E := E) b _ (set_bucket_ok b _ q (or_introl Hq) Hs)) as (q' & -> & Hok & Hb).
  exists q'. split; [done|]. split; [done|]. intros b'. unfold content at 1. rewrite Hb.
  fold (content {| buckets := set_bucket b l (buckets q); bucket_deadlines := bucket_deadlines q |} b').
  by rewrite content_set by apply Hq.
Qed.

Lemma bdq_reachable_ok q : bdq_reachable q -> bdq_ok q.
Proof.
  induction 1 as [|b v d q q' _ IH Hp|now q o q' _ IH Hp|include q o q' _ IH Hp|b keep q q' _ IH Hp].
  - apply bdq_default_ok.
  - destruct (bdq_push_spec (E := Empty_set) b v d q IH) as (q1 & Hq1 & ? & _). congruence.
  - destruct (bdq_pop_expired_spec (E := Empty_set) now q IH) as (o1 & q1 & Hq1 & ? & _). congruence.
  - destruct (bdq_pop_matching_spec (E := Empty_set) include q IH) as (o1 & q1 & Hq1 & ? & _). congruence.
  - destruct (bdq_retain_spec (E := Empty_set) b keep q IH) as (q1 & Hq1 & ? & _). congruence.
Qed.

(** The bucketed deadline queue is one priority queue.  In every reachable state no
    operation panics; a pushed item goes behind the items of its bucket due no
    later and in front of the others; and [pop_expired] returns an item whose
    deadline is the smallest over all buckets, if it has passed, taking just
    that item out, and nothing exactly when every item is due later. *)
Theorem bucket_queue_earliest q b v d now :
  bdq_reachable q ->
  (exists q', bdq_push (E := Empty_set) b v d q = Ok q' /\
     forall b', content q' b' = if decide (b = b') then place d {| deadline := d; value := v |} (content q b) else content q b') /\
  (exists o q', bdq_pop_expired (E := Empty_set) now q = Ok (o, q') /\
    match o with
    | Some v => exists b item l, content q b = item :: l /\ value item = v /\ deadline item <= now /\
        (forall b' x, x ∈ content q b' -> deadline item <= deadline x) /\
        (forall b', content q' b' = if decide (b = b') then l else content q b')
    | None => (forall b, content q' b = content q b) /\ forall b x, x ∈ content q b -> now < deadline x
    end).
Proof.
  intros Hq%bdq_reachable_ok. split.
  - destruct (bdq_push_spec (E := Empty_set) b v d q Hq) as (q' & ? & _ & ?). eauto.
  - destruct (bdq_pop_expired_spec (E := Empty_set) now q Hq) as (o & q' & ? & _ & ?). eauto.
Qed.

End Buckets.

(** Two buckets, for the witness. *)
Module SampleBuckets.
#[export] Instance bool_iter : SetIter (K := bool) := {| pick := fun s => head (elements s) |}.
#[export] Instance bool_bucket : QueueBucket (B := bool) := {| bucket_index := fun b : bool => if b then 1%nat else 0%nat; bucket_count := 2 |}.

#[export] Instance bool_iter_laws : SetIterLaws bool_iter.
Proof.
  split; cbn; intros s.
  - intros k Hk. apply elem_of_elements. destruct (elements s); [done|]. injection Hk as ->. left.
  - intros Hk. apply leibniz_equiv, elements_empty_iff. by destruct (elements s).
Qed.

#[export] Instance bool_bucket_laws : QueueBucketLaws bool_bucket.
Proof. split; [intros []; cbn; lia|intros [] [] He; done]. Qed.

Definition sample_queue : BucketDeadlineQueue (B := bool) (T := Z) := bdq_default.

Lemma bucket_queue_earliest_witness :
  (exists q', bdq_push (T := Z) (E := Empty_set) true 7 3 sample_queue = Ok q' /\
     forall b', content q' b' = if decide (true = b') then place 3 {| deadline := 3; value := 7 |} (content sample_queue true) else content sample_queue b') /\
  (exists o q', bdq_pop_expired (T := Z) (E := Empty_set) 5 sample_queue = Ok (o, q') /\
    match o with
    | Some v => exists b item l, content sample_queue b = item :: l /\ value item = v /\ deadline item <= 5 /\
        (forall b' x, x ∈ content sample_queue b' -> deadline item <= deadline x) /\
        (forall b', content q' b' = if decide (b = b') then l else content sample_queue b')
    | None => (forall b, content q' b = content sample_queue b) /\ forall b x, x ∈ content sample_queue b -> 5 < deadline x
    end).
Proof. apply (bucket_queue_earliest (T := Z) sample_queue true 7 3 5). apply bdq_reach_default. Defined.
End SampleBuckets.
End Buckets.

(** ** [DeadlineQueue] *)
Module Timers.
Section Timers.
Context {T : Type}.

Record DeadlineQueue := { queue_items : gmap Z (list T); queue_len : nat }.

Definition timers_default : DeadlineQueue := {| queue_items := ∅; queue_len := 0 |}.

Definition timers_push (v : T) (d : Z) (q : DeadlineQueue) : DeadlineQueue :=
  {| queue_items := <[d := default [] (queue_items q !! d) ++ [v]]> (queue_items q); queue_len := S (queue_len q) |}.

Definition timers_next_deadline (q : DeadlineQueue) : option Z := fst <$> first_key_value (queue_items q).

(** The two [expect]s panic, as does [self.len -= 1] at zero. *)
Definition timers_pop_expired {E} (now : Z) (q : DeadlineQueue) : res E (option T * DeadlineQueue) :=
  match first_key_value (queue_items q) with
  | None => Ok (None, q)
  | Some (d, _) =>
      if d >? now then Ok (None, q)
      else
        queue ← unwrap (queue_items q !! d);
        v ← unwrap (head queue);
        let queue := tail queue in
        let items := match queue with [] => delete d (queue_items q) | _ => <[d := queue]> (queue_items q) end in
        match queue_len q with
        | O => Panic
        | S n => Ok (Some v, {| queue_items := items; queue_len := n |})
        end
  end.

(** The values [drain] is called with, in order. *)
Definition drain_all (q : DeadlineQueue) : list T * DeadlineQueue :=
  (mjoin (snd <$> entries (queue_items q)), timers_default).

(** [while let Some(value) = pop_expired(now) { expire(value) }]; every turn
    takes one item out, so [queue_len] turns and one more are enough. *)
Fixpoint drain_expired_loop {E} (fuel : nat) (now : Z) (q : DeadlineQueue) : res E (list T * DeadlineQueue) :=
  match fuel with
  | O => Panic
  | S fuel =>
      '(o, q) ← timers_pop_expired now q;
      match o with
      | None => Ok ([], q)
      | Some v => '(vs, q) ← drain_expired_loop fuel now q; Ok (v :: vs, q)
      end
  end.

Definition drain_expired {E} (now : Z) (q : DeadlineQueue) : res E (list T * DeadlineQueue) :=
  drain_expired_loop (S (queue_len q)) now q.

(** *** Invariant *)
Record timers_ok (q : DeadlineQueue) : Prop := {
  timers_nonempty : forall d l, queue_items q !! d = Some l -> l <> [];
  timers_total : queue_len q = map_sum length (queue_items q);
}.

Lemma timers_default_ok : timers_ok timers_default.
Proof. split; cbn; [intros d l; by rewrite lookup_empty|done]. Qed.

Lemma timers_push_ok v d q : timers_ok q -> timers_ok (timers_push v d q).
Proof.
  intros [H1 H2]. split; cbn.
  - intros d' l. destruct (decide (d' = d)) as [->|]; [|rewrite lookup_insert_ne by done; apply H1].
    rewrite lookup_insert_eq. intros [= <-]. by destruct (default [] _).
  - rewrite map_sum_insert, length_app, H2. cbn. destruct (queue_items q !! d) as [l|] eqn:Hl; cbn.
    + rewrite (map_sum_delete _ _ _ _ Hl). lia.
    + rewrite delete_id by done. lia.
Qed.

Lemma entries_head_delete (m : gmap Z (list T)) d l rest : entries m = (d, l) :: rest -> entries (delete d m) = rest.
Proof.
  intros He. pose proof (entries_strict m) as Hs. rewrite He in Hs. apply StronglySorted_inv in Hs as [Hs Hd].
  apply entries_unique; [done|]. intros k a. rewrite lookup_delete_Some, <- elem_of_entries, He, elem_of_cons.
  rewrite Forall_forall in Hd. split.
  - intros Hin. specialize (Hd _ Hin). cbn in Hd. split; [lia|by right].
  - intros [Hne [[= -> ->]|?]]; done.
Qed.

Lemma entries_head_insert (m : gmap Z (list T)) d l l' rest : entries m = (d, l) :: rest -> entries (<[d := l']> m) = (d, l') :: rest.
Proof.
  intros He. pose proof (entries_strict m) as Hs. rewrite He in Hs. apply StronglySorted_inv in Hs as [Hs Hd].
  apply entries_unique; [by constructor|]. intros k a. rewrite elem_of_cons.
  destruct (decide (k = d)) as [->|Hne].
  - rewrite lookup_insert_eq. split; [|intros [= ->]; by left]. intros [[= ->]|Hin]; [done|].
    rewrite Forall_forall in Hd. specialize (Hd _ Hin). cbn in Hd. lia.
  - rewrite lookup_insert_ne by done. rewrite <- elem_of_entries, He, elem_of_cons. split; [|intros [[= ? ?]|?]; [done|by right]].
    intros [[= ? ?]|?]; [done|by right].
Qed.

(** What is left of the front of the queue after taking an item. *)
Definition pop_entry (es : list (Z * list T)) : list (Z * list T) :=
  match es with
  | (d, _ :: ((_ :: _) as l)) :: rest => (d, l) :: rest
  | _ :: rest => rest
  | [] => []
  end.

Lemma timers_pop_expired_spec {E} now q :
  timers_ok q ->
  exists o q', timers_pop_expired (E := E) now q = Ok (o, q') /\ timers_ok q' /\
    match entries (queue_items q) with
    | (d, x :: xs) :: rest =>
        if d <=? now then o = Some x /\ entries (queue_items q') = pop_entry (entries (queue_items q)) /\ queue_len q = S (queue_len q')
        else o = None /\ q' = q
    | _ => o = None /\ q' = q
    end.
Proof.
  intros [H1 H2]. unfold timers_pop_expired, first_key_value.
  destruct (entries (queue_items q)) as [|[d l] rest] eqn:He; cbn [head].
  { do 2 eexists. split; [done|]. split; [by split|done]. }
  assert (Hl : queue_items q !! d = Some l) by (apply elem_of_entries; rewrite He; by left).
  destruct l as [|x xs]; [by destruct (H1 _ _ Hl)|].
  rewrite Z.gtb_ltb. destruct (Z.ltb_spec now d), (Z.leb_spec d now); try lia.
  { do 2 eexists. split; [done|]. split; [by split|done]. }
  rewrite Hl. cbn [unwrap head tail mbind res_mbind]. pose proof (map_sum_delete length _ _ _ Hl) as Ht. cbn [length] in Ht.
  destruct (queue_len q) as [|n] eqn:Hn; [lia|]. do 2 eexists. split; [done|]. split.
  - split; cbn.
    + intros d' l'. destruct xs as [|y ys].
      * rewrite lookup_delete_Some. intros [_ ?]. by eapply H1.
      * destruct (decide (d' = d)) as [->|]; [rewrite lookup_insert_eq; by intros [= <-]|rewrite lookup_insert_ne by done; apply H1].
    + destruct xs as [|y ys]; [|rewrite map_sum_insert]; cbn [length] in *; lia.
  - split; [done|]. split; [|done]. cbn. destruct xs as [|y ys]; [by eapply entries_head_delete|by eapply entries_head_insert].
Qed.

Definition due (now : Z) (e : Z * list T) : bool := e.1 <=? now.

Lemma filter_not_due now l :
  StronglySorted (fun x y : Z * list T => x.1 < y.1) l -> (forall e, head l = Some e -> now < e.1) ->
  List.filter (due now) l = [] /\ List.filter (fun e => negb (due now e)) l = l.
Proof.
  intros Hs Hh. assert (Hall : forall e, e ∈ l -> now < e.1).
  { destruct Hs as [|x l Hs Hx]; [by intros e ?%elem_of_nil|]. specialize (Hh x eq_refl). rewrite Forall_forall in Hx.
    intros e [->|He]%elem_of_cons; [done|]. specialize (Hx e He). lia. }
  clear Hs Hh. unfold due. induction l as [|x l IH]; [done|]. cbn.
  rewrite (proj2 (Z.leb_gt _ _)) by (apply Hall; by left). cbn.
  destruct IH as [-> ->]; [intros e He; apply Hall; by right|done].
Qed.

Lemma drain_expired_loop_spec {E} fuel now q :
  timers_ok q -> (queue_len q < fuel)%nat ->
  exists q', drain_expired_loop (E := E) fuel now q =
      Ok (mjoin (snd <$> List.filter (due now) (entries (queue_items q))), q') /\
    timers_ok q' /\ entries (queue_items q') = List.filter (fun e => negb (due now e)) (entries (queue_items q)).
Proof.
  revert q. induction fuel as [|fuel IH]; intros q Hq Hf; [lia|]. cbn [drain_expired_loop].
  destruct (timers_pop_expired_spec (E := E) now q Hq) as (o & q1 & -> & Hq1 & Hs). cbn [mbind res_mbind].
  pose proof (entries_strict (queue_items q)) as Hst.
  destruct (entries (queue_items q)) as [|[d [|x xs]] rest] eqn:He.
  - destruct Hs as [-> ->]. exists q. by rewrite He.
  - exfalso. eapply (timers_nonempty _ Hq d []); [|done]. apply elem_of_entries. rewrite He. by left.
  - destruct (Z.leb_spec d now) as [Hle|Hgt].
    + destruct Hs as (-> & He1 & Hlen). destruct (IH q1 Hq1) as (q2 & -> & Hq2 & He2); [lia|]. cbn [mbind res_mbind].
      exists q2. rewrite He2, He1. unfold due. cbn [pop_entry List.filter fst]. rewrite (proj2 (Z.leb_le _ _)) by done. cbn [negb].
      destruct xs as [|y ys]; cbn [tail List.filter fst fmap list_fmap mjoin list_join snd app]; [done|].
      rewrite (proj2 (Z.leb_le d now)) by done. done.
    + destruct Hs as [-> ->]. exists q. rewrite He.
      destruct (filter_not_due now ((d, x :: xs) :: rest) Hst) as [-> ->]; [by intros e [= <-]|done].
Qed.

(** The states a sequence of calls can produce. *)
Inductive timers_reachable : DeadlineQueue -> Prop :=
| timers_reach_default : timers_reachable timers_default
| timers_reach_push v d q : timers_reachable q -> timers_reachable (timers_push v d q)
| timers_reach_pop now q o q' : timers_reachable q -> timers_pop_expired (E := Empty_set) now q = Ok (o, q') -> timers_reachable q'.

Lemma timers_reachable_ok q : timers_reachable q -> timers_ok q.
Proof.
  induction 1 as [|v d q _ IH|now q o q' _ IH Hp].
  - apply timers_default_ok.
  - by apply timers_push_ok.
  - destruct (timers_pop_expired_spec (E := Empty_set) now q IH) as (o1 & q1 & Hp1 & ? & _). congruence.
Qed.

(** Draining a timer queue terminates without a panic and hands over exactly the
    values whose deadline has passed, in deadline order and for one deadline
    in the order of its queue; the others stay, untouched. *)
Theorem drain_expired_exact now q :
  timers_reachable q ->
  exists q', drain_expired (E := Empty_set) now q =
      Ok (mjoin (snd <$> List.filter (due now) (entries (queue_items q))), q') /\
    entries (queue_items q') = List.filter (fun e => negb (due now e)) (entries (queue_items q)) /\
    queue_len q' = map_sum length (queue_items q').
Proof.
  intros Hq%timers_reachable_ok. unfold drain_expired. destruct (drain_expired_loop_spec (E := Empty_set) (S (queue_len q)) now q Hq) as (q' & -> & Hok & He); [lia|].
  exists q'. split; [done|]. split; [done|]. apply Hok.
Qed.

End Timers.

Lemma drain_expired_exact_witness :
  let q := timers_push 7 20 (timers_push 6 10 (timers_push 5 10 timers_default)) in
  exists q', drain_expired (E := Empty_set) 15 q =
      Ok (mjoin (snd <$> List.filter (due 15) (entries (queue_items q))), q') /\
    entries (queue_items q') = List.filter (fun e => negb (due 15 e)) (entries (queue_items q)) /\
    queue_len q' = map_sum length (queue_items q').
Proof. apply drain_expired_exact. repeat apply timers_reach_push. apply timers_reach_default. Defined.

End Timers.
