(* ===== verification/Stats.v ===== *)
(** * Sliding statistics (cacophony/src/stats.rs)

    [SlidingStats] over durations in nanoseconds: the samples of the last
    [capacity] observations in arrival order, and the same samples sorted. *)

From Stdlib Require Import Sorting.Sorted.
From S2P Require Import Prelude.
#[local] Open Scope Z_scope.

Module Sliding.

Definition DEFAULT_DURATION_STATS_WINDOW : nat := 512.

Record SlidingStats := { order : list Z; sorted : list Z; capacity : nat }.

Definition stats_new (capacity : nat) : SlidingStats := {| order := []; sorted := []; capacity := capacity |}.

(** [sorted.binary_search(&v)] on a sorted slice: an index of [v] if there is
    one.  The library leaves open which one; they all hold [v]. *)
Fixpoint find_index (v : Z) (l : list Z) : option nat :=
  match l with
  | [] => None
  | x :: l => if x =? v then Some O else match find_index v l with Some n => Some (S n) | None => None end
  end.

(** [sorted.partition_point(|sample| *sample <= v)] *)
Fixpoint partition_point (v : Z) (l : list Z) : nat :=
  match l with
  | [] => O
  | x :: l => if x <=? v then S (partition_point v l) else O
  end.

Definition observe (v : Z) (s : SlidingStats) : SlidingStats :=
  if (capacity s =? 0)%nat then s
  else
    let '(order, sorted) :=
      if (length (order s) =? capacity s)%nat then
        match order s with
        | removed :: rest =>
            (rest, match find_index removed (sorted s) with
                   | Some i => take i (sorted s) ++ drop (S i) (sorted s)
                   | None => sorted s
                   end)
        | [] => (order s, sorted s)
        end
      else (order s, sorted s) in
    let i := partition_point v sorted in
    {| order := order ++ [v]; sorted := take i sorted ++ v :: drop i sorted; capacity := capacity s |}.

Definition percentile (p : nat) (s : SlidingStats) : option Z :=
  sorted s !! ((length (sorted s) - 1) * p / 100)%nat.

Definition stats_max (s : SlidingStats) : option Z := last (sorted s).

Definition stats_len (s : SlidingStats) : nat := length (sorted s).

Definition stats_is_empty (s : SlidingStats) : bool := match sorted s with [] => true | _ => false end.

Definition duration_stats_default : SlidingStats := stats_new DEFAULT_DURATION_STATS_WINDOW.

Record DurationDistribution := { count : nat; min : option Z; avg : option Z; p95 : option Z; max : option Z }.

Definition duration_div (duration : Z) (divisor : nat) : Z := (duration / Z.of_nat divisor) mod u64_mod.

(** [DurationStats::finish] *)
Definition finish (s : SlidingStats) : DurationDistribution :=
  if stats_is_empty s then {| count := 0; min := None; avg := None; p95 := None; max := None |}
  else
    let total := foldl (fun total value => total + value) 0 (sorted s) in
    {| count := stats_len s; min := head (sorted s); avg := Some (duration_div total (stats_len s));
       p95 := percentile 95 s; max := stats_max s |}.

(** ** Invariant *)
Record stats_ok (s : SlidingStats) : Prop := {
  stats_sorted : StronglySorted Z.le (sorted s);
  stats_perm : sorted s ≡ₚ order s;
  stats_bound : (length (order s) <= capacity s)%nat;
}.

Lemma find_index_perm v l :
  v ∈ l -> StronglySorted Z.le l ->
  exists i, find_index v l = Some i /\ l ≡ₚ v :: (take i l ++ drop (S i) l) /\ StronglySorted Z.le (take i l ++ drop (S i) l).
Proof.
  intros Hin Hs. induction Hs as [|x l Hs IH Hx]; [by apply elem_of_nil in Hin|]. cbn [find_index].
  destruct (Z.eqb_spec x v) as [->|Hne].
  - exists O. cbn. by rewrite drop_0.
  - apply elem_of_cons in Hin as [->|Hin]; [done|]. destruct (IH Hin) as (i & -> & Hp & Hs'). exists (S i). split; [done|].
    cbn. split.
    + rewrite Permutation_swap. by rewrite <- Hp.
    + constructor; [done|]. rewrite Forall_forall in *. intros y Hy. apply Hx. rewrite Hp. by right.
Qed.

Lemma partition_point_sorted v l :
  StronglySorted Z.le l -> StronglySorted Z.le (take (partition_point v l) l ++ v :: drop (partition_point v l) l).
Proof.
  induction 1 as [|x l Hs IH Hx]; cbn; [repeat constructor|].
  destruct (Z.leb_spec x v); cbn.
  - constructor; [done|]. rewrite Forall_forall in *. intros y Hy. rewrite <- (take_drop (partition_point v l) l) in Hx.
    apply elem_of_app in Hy as [Hy|[->|Hy]%elem_of_cons]; [|done|]; apply Hx, elem_of_app; auto.
  - constructor; [by constructor|]. constructor; [lia|]. rewrite Forall_forall in *. intros y Hy. specialize (Hx y Hy). lia.
Qed.

Lemma insert_perm v i (l : list Z) : take i l ++ v :: drop i l ≡ₚ v :: l.
Proof. by rewrite <- Permutation_middle, take_drop. Qed.

Lemma observe_spec v s :
  stats_ok s -> (0 < capacity s)%nat ->
  stats_ok (observe v s) /\ capacity (observe v s) = capacity s /\
  order (observe v s) = drop (length (order s) + 1 - capacity s) (order s ++ [v]).
Proof.
  intros [Hs Hp Hb] Hc. unfold observe. destruct (Nat.eqb_spec (capacity s) 0); [lia|].
  destruct (Nat.eqb_spec (length (order s)) (capacity s)) as [Hl|Hl].
  - destruct (order s) as [|removed rest] eqn:Ho; [cbn in Hl; lia|].
    destruct (find_index_perm removed (sorted s)) as (i & -> & Hp' & Hs'); [rewrite Hp; by left|done|].
    set (srt := take i (sorted s) ++ drop (S i) (sorted s)) in *. rewrite Hp' in Hp. apply Permutation_cons_inv in Hp.
    split; [|split; [done|cbn [order]; rewrite Hl; replace (capacity s + 1 - capacity s)%nat with 1%nat by lia; done]].
    split; cbn [sorted order capacity].
    + by apply partition_point_sorted.
    + rewrite insert_perm, Hp. apply Permutation_cons_append.
    + rewrite length_app. cbn in *. lia.
  - split; [|split; [done|cbn [order]; by replace (length (order s) + 1 - capacity s)%nat with O by lia]].
    split; cbn [sorted order capacity].
    + by apply partition_point_sorted.
    + rewrite insert_perm, Hp. apply Permutation_cons_append.
    + rewrite length_app. cbn. lia.
Qed.

Definition observe_all (vs : list Z) (s : SlidingStats) : SlidingStats := foldl (fun s v => observe v s) s vs.

Lemma observe_all_spec vs n :
  (0 < n)%nat ->
  let s := observe_all vs (stats_new n) in
  stats_ok s /\ capacity s = n /\ order s = drop (length vs - n) vs.
Proof.
  intros Hn. induction vs as [|v vs (Hok & Hc & Ho)] using rev_ind.
  { cbn. split; [split; cbn; [constructor|done|lia]|done]. }
  cbn in *. unfold observe_all in *. rewrite foldl_snoc. set (s := foldl _ _ vs) in *.
  destruct (observe_spec v s Hok) as (Hok' & Hc' & Ho'); [lia|]. split; [done|]. split; [lia|].
  rewrite Ho', Ho, Hc, length_drop, length_app. cbn [length].
  destruct (Nat.le_gt_cases n (length vs)).
  - replace (length vs + 1 - n)%nat with (S (length vs - n)) by lia.
    replace (length vs - (length vs - n) + 1 - n)%nat with 1%nat by lia.
    rewrite drop_app_le by (rewrite length_drop; lia). rewrite drop_drop.
    rewrite drop_app_le by lia. by replace (length vs - n + 1)%nat with (S (length vs - n)) by lia.
  - replace (length vs - n)%nat with O by lia. rewrite drop_0.
    replace (length vs - 0 + 1 - n)%nat with (length vs + 1 - n)%nat by lia. done.
Qed.

Lemma sorted_last_max l m : StronglySorted Z.le l -> last l = Some m -> forall x, x ∈ l -> x <= m.
Proof.
  induction 1 as [|y l Hs IH Hy]; [done|]. rewrite last_cons. intros Hl x Hx. rewrite Forall_forall in Hy.
  destruct (last l) as [z|] eqn:Hz.
  - injection Hl as ->. apply elem_of_cons in Hx as [->|Hx]; [|by apply IH]. apply Hy.
    apply last_Some in Hz as [l' ->]. apply elem_of_app. right. by left.
  - injection Hl as ->. apply last_None in Hz as ->. apply list_elem_of_singleton in Hx as ->. done.
Qed.

(** ** Properties *)

(** Sliding statistics are exact.  After any sequence of observations, the sorted
    samples are a sorted permutation of the last [capacity] observed values and
    never more than [capacity]; the reported count, minimum, maximum and
    95th percentile are those of exactly that window: minimum and maximum bound
    every sample in it, and the percentile is the sample at rank
    [(count - 1) * 95 / 100] in sorted order. *)
Theorem sliding_stats_exact vs n :
  (0 < n)%nat ->
  let s := observe_all vs (stats_new n) in
  let window := drop (length vs - n) vs in
  let d := finish s in
  StronglySorted Z.le (sorted s) /\ sorted s ≡ₚ window /\ count d = length window /\ (count d <= n)%nat /\
  (window <> [] ->
   exists lo p hi, min d = Some lo /\ p95 d = Some p /\ max d = Some hi /\
     lo ∈ window /\ hi ∈ window /\ (forall x, x ∈ window -> lo <= x <= hi) /\
     sorted s !! ((length window - 1) * 95 / 100)%nat = Some p).
Proof.
  intros Hn s window d. destruct (observe_all_spec vs n Hn) as ([Hs Hp Hb] & Hc & Ho).
  fold s in Hs, Hp, Hb, Hc, Ho. fold window in Ho. rewrite Ho in Hp, Hb. split; [done|]. split; [done|].
  pose proof (Permutation_length Hp) as Hlen. unfold d, finish, stats_is_empty, stats_len, percentile, stats_max.
  destruct (sorted s) as [|lo l] eqn:He.
  { apply Permutation_nil in Hp. rewrite Hp in *. split; [done|]. split; [cbn; lia|]. done. }
  cbn [count min p95 max head]. split; [done|]. split; [lia|]. intros _. rewrite Hlen.
  destruct (lookup_lt_is_Some_2 (lo :: l) ((length window - 1) * 95 / 100)) as [p Hp95].
  { rewrite Hlen. cbn in Hlen. apply Nat.Div0.div_lt_upper_bound. lia. }
  destruct (last (lo :: l)) as [hi|] eqn:Hhi; [|by apply last_None in Hhi].
  exists lo, p, hi. split_and!; try done.
  - rewrite <- Hp. by left.
  - rewrite <- Hp. apply last_Some in Hhi as [l' ->]. apply elem_of_app. right. by left.
  - intros x Hx. rewrite <- Hp in Hx. split; [|by eapply sorted_last_max].
    apply StronglySorted_inv in Hs as [_ Hs]. rewrite Forall_forall in Hs. apply elem_of_cons in Hx as [->|Hx]; [done|by apply Hs].
Qed.

Lemma sliding_stats_exact_witness :
  let s := observe_all [5; 3; 9; 4] (stats_new 3) in
  let window := drop (length [5; 3; 9; 4] - 3) [5; 3; 9; 4] in
  let d := finish s in
  StronglySorted Z.le (sorted s) /\ sorted s ≡ₚ window /\ count d = length window /\ (count d <= 3)%nat /\
  (window <> [] ->
   exists lo p hi, min d = Some lo /\ p95 d = Some p /\ max d = Some hi /\
     lo ∈ window /\ hi ∈ window /\ (forall x, x ∈ window -> lo <= x <= hi) /\
     sorted s !! ((length window - 1) * 95 / 100)%nat = Some p).
Proof. apply (sliding_stats_exact [5; 3; 9; 4] 3). lia. Defined.

End Sliding.
