(* ===== verification/Rtp.v ===== *)
(** * RTP headers and the transport encryption of voice packets

    [rtp.rs] and the packet half of [media.rs]: the 7-bit payload type, the
    RTP header reader and writer, the classification of raw UDP packets, the
    "rtpsize" transport encryption (the clear RTP header is authenticated, the
    encrypted body is followed by a 16-byte tag and a 4-byte nonce suffix) and
    the per-stream sender state.  The two AEAD ciphers come from the
    [aes-gcm] and [chacha20poly1305] crates; they are the parameters of the
    class [TransportAead]. *)

From Stdlib Require Import String.
From S2P Require Import Prelude Frame.
#[local] Open Scope Z_scope.

Module Rtp.

Definition AEAD_TAG_LEN : nat := 16.
Definition RTPSIZE_NONCE_LEN : nat := 4.
Definition RTP_VERSION : Z := 2.
Definition JS_MAX_SAFE_INTEGER : Z := 2 ^ 53 - 1.

(** ** Payload types *)
Definition RtpPayloadType := Z.

Definition PAYLOAD_TYPE_MAX : Z := 0x7f.

Definition payload_type_new (value : Z) : option RtpPayloadType :=
  if value <=? PAYLOAD_TYPE_MAX then Some value else None.

Definition from_marker_byte (byte : Z) : RtpPayloadType := Z.land byte PAYLOAD_TYPE_MAX.

Definition marker_byte (pt : RtpPayloadType) (marker : bool) : Z := Z.lor pt (if marker then 0x80 else 0).

(** ** Errors *)
Inductive RtpError :=
| PacketTooShort (len : nat)
| UnsupportedVersion (version : Z)
| TruncatedCsrcList (len expected_header_len : nat)
| TruncatedExtensionHeader (len expected_header_len : nat)
| TruncatedExtensionPayload (len expected_header_len : nat)
| TruncatedEncryptedExtension
| EmptyPaddedPayload
| InvalidPadding (padding payload_len : nat)
| PayloadTooLarge (codec : MediaCodec) (payload_len max_payload_len : nat)
| MalformedPayload (codec : MediaCodec) (reason : string).

Inductive TransportCryptoError :=
| InvalidSecretKeyLen (len : nat)
| MissingRtpSizeNonce (packet_len min_len : nat)
| NonceRandomnessUnavailable
| InvalidAesGcmKey
| InvalidXChaCha20Poly1305Key
| AesGcmDecryptFailed
| AesGcmEncryptFailed
| XChaCha20Poly1305DecryptFailed
| XChaCha20Poly1305EncryptFailed.

(** The part of [errors::Error] the packet path can return. *)
Inductive Error :=
| ERtp (e : RtpError)
| ETransportCrypto (e : TransportCryptoError)
| EEmptyPayload (codec : MediaCodec).

(** ** Headers *)
Record RtpHeader := {
  version : Z; padding : bool; extension : bool; marker : bool; payload_type : RtpPayloadType;
  seq : Z; timestamp : Z; ssrc : Z; header_len : nat; encrypted_body_offset : nat }.

Record RtpFixedHeader := {
  fixed_version : Z; fixed_padding : bool; fixed_extension : bool; fixed_marker : bool;
  fixed_payload_type : RtpPayloadType; fixed_csrc_count : Z;
  fixed_seq : Z; fixed_timestamp : Z; fixed_ssrc : Z }.

Definition fixed_header_parse {E} (bytes : bytes) : res E (option RtpFixedHeader) :=
  if (length bytes <? 12)%nat then Ok None
  else
    b0 ← index bytes 0; b1 ← index bytes 1; b2 ← index bytes 2; b3 ← index bytes 3;
    b4 ← index bytes 4; b5 ← index bytes 5; b6 ← index bytes 6; b7 ← index bytes 7;
    b8 ← index bytes 8; b9 ← index bytes 9; b10 ← index bytes 10; b11 ← index bytes 11;
    Ok (Some {|
      fixed_version := Z.shiftr b0 6;
      fixed_padding := has_bits b0 0x20;
      fixed_extension := has_bits b0 0x10;
      fixed_marker := has_bits b1 0x80;
      fixed_payload_type := from_marker_byte b1;
      fixed_csrc_count := Z.land b0 0x0f;
      fixed_seq := from_be [b2; b3];
      fixed_timestamp := from_be [b4; b5; b6; b7];
      fixed_ssrc := from_be [b8; b9; b10; b11] |}).

(** The header length after the extension, if the extension bit is set; the
    pair is [(header_len, encrypted_body_offset)]. *)
Definition parse_extension (bytes : bytes) (has_extension : bool) (hlen : nat) : res RtpError (nat * nat) :=
  if has_extension then
    if (length bytes <? hlen + 4)%nat then Err (TruncatedExtensionHeader (length bytes) (hlen + 4))
    else
      b2 ← index bytes (hlen + 2); b3 ← index bytes (hlen + 3);
      let extension_words := Z.to_nat (from_be [b2; b3]) in
      let hlen' := (hlen + (4 + extension_words * 4))%nat in
      if (length bytes <? hlen')%nat then Err (TruncatedExtensionPayload (length bytes) hlen')
      else Ok (hlen', (hlen + 4)%nat)
  else Ok (hlen, hlen).

Definition header_parse (bytes : bytes) : res RtpError RtpHeader :=
  o ← fixed_header_parse bytes;
  fixed ← ok_or (PacketTooShort (length bytes)) o;
  if negb (fixed_version fixed =? RTP_VERSION) then Err (UnsupportedVersion (fixed_version fixed))
  else
    let hlen := (12 + Z.to_nat (fixed_csrc_count fixed) * 4)%nat in
    if (length bytes <? hlen)%nat then Err (TruncatedCsrcList (length bytes) hlen)
    else
      '(hlen', body) ← parse_extension bytes (fixed_extension fixed) hlen;
      Ok {| version := fixed_version fixed; padding := fixed_padding fixed; extension := fixed_extension fixed;
            marker := fixed_marker fixed; payload_type := fixed_payload_type fixed; seq := fixed_seq fixed;
            timestamp := fixed_timestamp fixed; ssrc := fixed_ssrc fixed;
            header_len := hlen'; encrypted_body_offset := body |}.

Record RtpHeaderFields := { hf_seq : Z; hf_timestamp : Z; hf_ssrc : Z; hf_payload_type : RtpPayloadType }.

Record RtpHeaderBuilder := { hb_fields : RtpHeaderFields; hb_marker : bool }.

Definition builder_new (fields : RtpHeaderFields) : RtpHeaderBuilder := {| hb_fields := fields; hb_marker := false |}.

Definition builder_marker (m : bool) (b : RtpHeaderBuilder) : RtpHeaderBuilder :=
  {| hb_fields := hb_fields b; hb_marker := m |}.

Definition header_write_to (b : RtpHeaderBuilder) (packet : bytes) : bytes * RtpHeader :=
  let f := hb_fields b in
  (packet ++ [Z.shiftl RTP_VERSION 6 mod 256; marker_byte (hf_payload_type f) (hb_marker b)]
     ++ to_be 2 (hf_seq f) ++ to_be 4 (hf_timestamp f) ++ to_be 4 (hf_ssrc f),
   {| version := RTP_VERSION; padding := false; extension := false; marker := hb_marker b;
      payload_type := hf_payload_type f; seq := hf_seq f; timestamp := hf_timestamp f; ssrc := hf_ssrc f;
      header_len := 12; encrypted_body_offset := 12 |}).

(** ** Raw packets *)
Record RawUdpPacketInfo := {
  info_version : option Z; raw_payload_type : option Z; info_payload_type : option RtpPayloadType;
  info_seq : option Z; info_timestamp : option Z; info_ssrc : option Z }.

Definition info_from_bytes {E} (bytes : bytes) : res E RawUdpPacketInfo :=
  let raw := bytes !! 1%nat in
  o ← fixed_header_parse bytes;
  Ok match o with
     | Some header =>
         {| info_version := Some (fixed_version header); raw_payload_type := raw;
            info_payload_type := Some (fixed_payload_type header); info_seq := Some (fixed_seq header);
            info_timestamp := Some (fixed_timestamp header); info_ssrc := Some (fixed_ssrc header) |}
     | None =>
         {| info_version := None; raw_payload_type := raw; info_payload_type := from_marker_byte <$> raw;
            info_seq := None; info_timestamp := None; info_ssrc := None |}
     end.

Definition is_rtcp (i : RawUdpPacketInfo) : bool :=
  match raw_payload_type i with Some pt => (192 <=? pt) && (pt <=? 223) | None => false end.

Record RtcpHeader := {
  rtcp_version : Z; rtcp_padding : bool; report_count : Z; packet_type : Z; length_words : Z; rtcp_ssrc : option Z }.

Definition rtcp_header {E} (i : RawUdpPacketInfo) (bytes : bytes) : res E (option RtcpHeader) :=
  if negb (is_rtcp i) || (length bytes <? 4)%nat then Ok None
  else
    b0 ← index bytes 0; b1 ← index bytes 1; b2 ← index bytes 2; b3 ← index bytes 3;
    s ← (if (8 <=? length bytes)%nat then
           b4 ← index bytes 4; b5 ← index bytes 5; b6 ← index bytes 6; b7 ← index bytes 7;
           Ok (Some (from_be [b4; b5; b6; b7]))
         else Ok None);
    Ok (Some {| rtcp_version := Z.shiftr b0 6; rtcp_padding := has_bits b0 0x20; report_count := Z.land b0 0x1f;
                packet_type := b1; length_words := from_be [b2; b3]; rtcp_ssrc := s |}).

(** ** Transport encryption *)
Inductive EncryptionMode := AeadAes256GcmRtpSize | AeadXChaCha20Poly1305RtpSize.

(** The AEAD ciphers of the two crates.  [aead_new] is [KeyInit::new_from_slice],
    the other two are [AeadInPlace]'s detached operations (the payload buffer
    is rewritten in place, so the new buffer is returned). *)
Class TransportAead := {
  aead_cipher : EncryptionMode -> Type;
  aead_new : forall m, bytes -> option (aead_cipher m);
  aead_encrypt : forall m, aead_cipher m -> bytes -> bytes -> bytes -> option (bytes * bytes);
  aead_decrypt : forall m, aead_cipher m -> bytes -> bytes -> bytes -> bytes -> option bytes }.

(** What their documentation promises: 32-byte keys are accepted, payloads
    below 4 GiB are encrypted, the ciphertext has the payload's length and a
    16-byte tag, and decryption accepts exactly the encryptions and turns bytes
    into bytes. *)
Class TransportAeadLaws (A : TransportAead) : Prop := {
  aead_new_ok : forall m k, length k = 32%nat -> is_Some (aead_new m k);
  aead_encrypt_ok : forall m c n a p, Z.of_nat (length p) < 2 ^ 32 -> is_Some (aead_encrypt m c n a p);
  aead_encrypt_len : forall m c n a p ct tag, aead_encrypt m c n a p = Some (ct, tag) ->
    length ct = length p /\ length tag = AEAD_TAG_LEN /\ (all_bytes p -> all_bytes ct) /\ all_bytes tag;
  aead_decrypt_iff : forall m c n a ct tag p, length tag = AEAD_TAG_LEN ->
    aead_decrypt m c n a ct tag = Some p <-> aead_encrypt m c n a p = Some (ct, tag);
  aead_decrypt_bytes : forall m c n a ct tag p, aead_decrypt m c n a ct tag = Some p -> all_bytes ct -> all_bytes p }.

Section Transport.
Context {AEAD : TransportAead}.

Definition RtpSizeNonceSuffix := Z.

Definition suffix_from_be_bytes (b : bytes) : RtpSizeNonceSuffix := from_be b.
Definition suffix_to_be_bytes (s : RtpSizeNonceSuffix) : bytes := to_be 4 s.

(** [getrandom::fill] gives [random], or fails. *)
Definition suffix_initial (random : option bytes) : res Error RtpSizeNonceSuffix :=
  b ← ok_or (ETransportCrypto NonceRandomnessUnavailable) random;
  Ok (suffix_from_be_bytes b).

Definition suffix_increment (s : RtpSizeNonceSuffix) : RtpSizeNonceSuffix := wrapping_add u32_mod s 1.

Record TransportCryptoConfig := { config_mode : EncryptionMode; secret_key : bytes }.

Definition config_new (mode : EncryptionMode) (key : bytes) : res Error TransportCryptoConfig :=
  if (length key =? 32)%nat then Ok {| config_mode := mode; secret_key := key |}
  else Err (ETransportCrypto (InvalidSecretKeyLen (length key))).

Record TransportCrypto := { mode : EncryptionMode; cipher : aead_cipher mode }.

(** [N] is 12 for AES-GCM and 24 for XChaCha20-Poly1305. *)
Definition nonce_size (m : EncryptionMode) : nat :=
  match m with AeadAes256GcmRtpSize => 12 | AeadXChaCha20Poly1305RtpSize => 24 end.

Definition rtpsize_nonce (n : nat) (s : RtpSizeNonceSuffix) : bytes :=
  suffix_to_be_bytes s ++ drop RTPSIZE_NONCE_LEN (replicate n 0).

Definition from_config (config : TransportCryptoConfig) : res Error TransportCrypto :=
  match aead_new (config_mode config) (secret_key config) with
  | Some c => Ok {| mode := config_mode config; cipher := c |}
  | None => Err (ETransportCrypto match config_mode config with
                                  | AeadAes256GcmRtpSize => InvalidAesGcmKey
                                  | AeadXChaCha20Poly1305RtpSize => InvalidXChaCha20Poly1305Key
                                  end)
  end.

Definition cipher_decrypt_in_place_detached (t : TransportCrypto) (s : RtpSizeNonceSuffix) (aad payload tag : bytes)
    : res Error bytes :=
  match aead_decrypt (mode t) (cipher t) (rtpsize_nonce (nonce_size (mode t)) s) aad payload tag with
  | Some p => Ok p
  | None => Err (ETransportCrypto match mode t with
                                  | AeadAes256GcmRtpSize => AesGcmDecryptFailed
                                  | AeadXChaCha20Poly1305RtpSize => XChaCha20Poly1305DecryptFailed
                                  end)
  end.

Definition cipher_encrypt_in_place_detached (t : TransportCrypto) (s : RtpSizeNonceSuffix) (aad payload : bytes)
    : res Error (bytes * bytes) :=
  match aead_encrypt (mode t) (cipher t) (rtpsize_nonce (nonce_size (mode t)) s) aad payload with
  | Some r => Ok r
  | None => Err (ETransportCrypto match mode t with
                                  | AeadAes256GcmRtpSize => AesGcmEncryptFailed
                                  | AeadXChaCha20Poly1305RtpSize => XChaCha20Poly1305EncryptFailed
                                  end)
  end.

Definition strip_decrypted_rtp_payload (payload : bytes) (opus_offset : nat) (rtp : RtpHeader) : res RtpError bytes :=
  if (length payload <? opus_offset)%nat then Err TruncatedEncryptedExtension
  else
    let payload := drop opus_offset payload in
    if padding rtp then
      l ← ok_or EmptyPaddedPayload (last payload);
      let pad := Z.to_nat l in
      if ((pad =? 0) || (length payload <? pad))%nat then Err (InvalidPadding pad (length payload))
      else Ok (take (length payload - pad) payload)
    else Ok payload.

(** [a - b] on [usize]. *)
Definition usize_sub {E} (a b : nat) : res E nat := if (b <=? a)%nat then Ok (a - b)%nat else Panic.

Definition decrypt_payload_into (t : TransportCrypto) (packet : bytes) (rtp : RtpHeader) : res Error bytes :=
  let body := encrypted_body_offset rtp in
  let min_len := (body + AEAD_TAG_LEN + RTPSIZE_NONCE_LEN)%nat in
  if (length packet <? min_len)%nat then
    Err (ETransportCrypto (MissingRtpSizeNonce (length packet) min_len))
  else
    nonce_suffix_offset ← usize_sub (length packet) RTPSIZE_NONCE_LEN;
    tag_offset ← usize_sub nonce_suffix_offset AEAD_TAG_LEN;
    nonce ← slice packet nonce_suffix_offset (length packet);
    tag ← slice packet tag_offset nonce_suffix_offset;
    aad ← slice packet 0 body;
    output ← slice packet body tag_offset;
    opus_offset ← usize_sub (header_len rtp) body;
    output ← cipher_decrypt_in_place_detached t (suffix_from_be_bytes nonce) aad output tag;
    map_err ERtp (strip_decrypted_rtp_payload output opus_offset rtp).

Record OutboundEncryptParams := { op_header : RtpHeaderFields; op_marker : bool; op_nonce_suffix : RtpSizeNonceSuffix }.

(** The packet and the header it carries. *)
Definition encrypt_payload (t : TransportCrypto) (params : OutboundEncryptParams) (frame : bytes)
    : res Error (bytes * RtpHeader) :=
  let '(packet, rtp) := header_write_to (builder_marker (op_marker params) (builder_new (op_header params))) [] in
  '(payload, tag) ← cipher_encrypt_in_place_detached t (op_nonce_suffix params) packet frame;
  Ok (packet ++ payload ++ tag ++ suffix_to_be_bytes (op_nonce_suffix params), rtp).
End Transport.

(** ** Reading a header *)
Lemma index_in_range {E A} (l : list A) i : (i < length l)%nat -> exists x, index (E := E) l i = Ok x /\ l !! i = Some x.
Proof. intros Hi. destruct (lookup_lt_is_Some_2 l i Hi) as [x Hx]. exists x. unfold index. by rewrite Hx. Qed.

(** A byte string of at least twelve bytes, byte by byte. *)
Lemma twelve_bytes (l : bytes) : (12 <= length l)%nat ->
  exists b0 b1 b2 b3 b4 b5 b6 b7 b8 b9 b10 b11 rest,
    l = [b0; b1; b2; b3; b4; b5; b6; b7; b8; b9; b10; b11] ++ rest.
Proof. intros Hl. do 12 (destruct l as [|? l]; [simpl in Hl; lia|]). repeat eexists. Qed.

(** The fixed header of twelve bytes. *)
Definition fixed_of (b0 b1 : Z) (s t c : bytes) : RtpFixedHeader :=
  {| fixed_version := Z.shiftr b0 6; fixed_padding := has_bits b0 0x20; fixed_extension := has_bits b0 0x10;
     fixed_marker := has_bits b1 0x80; fixed_payload_type := from_marker_byte b1; fixed_csrc_count := Z.land b0 0x0f;
     fixed_seq := from_be s; fixed_timestamp := from_be t; fixed_ssrc := from_be c |}.

Lemma fixed_header_parse_app {E} b0 b1 s t c rest :
  length s = 2%nat -> length t = 4%nat -> length c = 4%nat ->
  fixed_header_parse (E := E) (b0 :: b1 :: s ++ t ++ c ++ rest) = Ok (Some (fixed_of b0 b1 s t c)).
Proof.
  intros Hs Ht Hc.
  repeat (destruct s as [|? s]; simpl in Hs; try lia).
  repeat (destruct t as [|? t]; simpl in Ht; try lia).
  repeat (destruct c as [|? c]; simpl in Hc; try lia). reflexivity.
Qed.

Lemma fixed_header_parse_short {E} l : (length l < 12)%nat -> fixed_header_parse (E := E) l = Ok None.
Proof. intros Hl. unfold fixed_header_parse. by rewrite (proj2 (Nat.ltb_lt _ _) Hl). Qed.

Lemma fixed_header_parse_long {E} l : (12 <= length l)%nat -> exists b0 b1 s t c rest,
  l = b0 :: b1 :: s ++ t ++ c ++ rest /\ length s = 2%nat /\ length t = 4%nat /\ length c = 4%nat /\
  fixed_header_parse (E := E) l = Ok (Some (fixed_of b0 b1 s t c)).
Proof.
  intros Hl. destruct (twelve_bytes l Hl) as (b0&b1&b2&b3&b4&b5&b6&b7&b8&b9&b10&b11&rest&->).
  exists b0, b1, [b2; b3], [b4; b5; b6; b7], [b8; b9; b10; b11], rest. repeat split.
Qed.

(** The reader against RFC 3550: the offsets of the parts of a packet. *)
Record header_shape (l : bytes) (h : RtpHeader) : Prop := {
  shape_body : (12 <= encrypted_body_offset h)%nat;
  shape_order : (encrypted_body_offset h <= header_len h)%nat;
  shape_len : (header_len h <= length l)%nat;
  shape_version : version h = 2;
  shape_payload_type : 0 <= payload_type h < 128;
  shape_seq : is_u16 (seq h);
  shape_timestamp : is_u32 (timestamp h);
  shape_ssrc : is_u32 (ssrc h) }.

Lemma from_be_u16 (s : bytes) : all_bytes s -> length s = 2%nat -> is_u16 (from_be s).
Proof. intros Hs Hl. pose proof (from_be_bound s Hs) as Hb. rewrite Hl in Hb. exact Hb. Qed.

Lemma from_be_u32 (s : bytes) : all_bytes s -> length s = 4%nat -> is_u32 (from_be s).
Proof. intros Hs Hl. pose proof (from_be_bound s Hs) as Hb. rewrite Hl in Hb. exact Hb. Qed.

Lemma parse_extension_cases l x n :
  parse_extension l x n = Ok (n, n) \/
  (exists k, parse_extension l x n = Ok (k, n + 4)%nat /\ (n + 4 <= k <= length l)%nat) \/
  exists e, parse_extension l x n = Err e.
Proof.
  unfold parse_extension. destruct x; [|by left]. right.
  destruct (Nat.ltb_spec (length l) (n + 4)); [right; by eexists|].
  destruct (index_in_range (E := RtpError) l (n + 2)) as (b2&->&_); [lia|].
  destruct (index_in_range (E := RtpError) l (n + 3)) as (b3&->&_); [lia|]. simpl.
  match goal with |- context [Nat.ltb ?a ?b] => destruct (Nat.ltb_spec a b) end; [right; by eexists|].
  left. eexists. split; [done|lia].
Qed.

Lemma header_parse_shape l :
  all_bytes l -> (exists h, header_parse l = Ok h /\ header_shape l h) \/ exists e, header_parse l = Err e.
Proof.
  intros Hl. unfold header_parse. destruct (Nat.lt_ge_cases (length l) 12).
  { rewrite fixed_header_parse_short by done. right. by eexists. }
  destruct (fixed_header_parse_long (E := RtpError) l) as (b0&b1&s&t&c&rest&Heq&Hs&Ht&Hc&->); [done|].
  cbn [mbind res_mbind ok_or].
  destruct (Z.eqb_spec (fixed_version (fixed_of b0 b1 s t c)) RTP_VERSION) as [Hv|]; cbn [negb]; [|right; by eexists].
  destruct (Nat.ltb_spec (length l) (12 + Z.to_nat (fixed_csrc_count (fixed_of b0 b1 s t c)) * 4)); [right; by eexists|].
  assert (all_bytes s /\ all_bytes t /\ all_bytes c) as (Hbs&Hbt&Hbc).
  { rewrite Heq in Hl. apply Forall_cons in Hl as [_ [_ Hl]%Forall_cons]. rewrite !Forall_app in Hl. tauto. }
  assert (0 <= from_marker_byte b1 < 128).
  { unfold from_marker_byte, PAYLOAD_TYPE_MAX. rewrite land_7f. apply Z.mod_pos_bound. lia. }
  destruct (parse_extension_cases l (fixed_extension (fixed_of b0 b1 s t c))
    (12 + Z.to_nat (fixed_csrc_count (fixed_of b0 b1 s t c)) * 4)) as [->|[(k&->&Hk)|[e ->]]];
    [left|left|right; by eexists]; eexists; (split; [reflexivity|]);
    split; simpl in *; auto using from_be_u16, from_be_u32; lia.
Qed.

(** ** Writing and reading back *)
Definition fields_ok (f : RtpHeaderFields) : Prop :=
  is_u16 (hf_seq f) /\ is_u32 (hf_timestamp f) /\ is_u32 (hf_ssrc f) /\ 0 <= hf_payload_type f < 128.

Lemma marker_byte_add pt m : 0 <= pt < 128 -> marker_byte pt m = pt + (if m then 128 else 0).
Proof.
  intros Hp. unfold marker_byte. destruct m; [|by rewrite Z.lor_0_r, Z.add_0_r].
  change 0x80 with (Z.shiftl 1 7). by rewrite lor_shiftl_add by lia.
Qed.

Lemma marker_byte_read pt m : 0 <= pt < 128 ->
  from_marker_byte (marker_byte pt m) = pt /\ has_bits (marker_byte pt m) 0x80 = m.
Proof.
  intros Hp. unfold from_marker_byte, PAYLOAD_TYPE_MAX. rewrite land_7f, marker_byte_add by done.
  split; [destruct m; Z.div_mod_to_equations; lia|].
  rewrite (has_bits_pow2 _ 7), Z.testbit_odd, shiftr_7 by lia.
  destruct m; [replace ((pt + 128) / 128) with 1 by (Z.div_mod_to_equations; lia)
              |replace ((pt + 0) / 128) with 0 by (Z.div_mod_to_equations; lia)]; done.
Qed.

Lemma from_to_be_u16 v : is_u16 v -> from_be (to_be 2 v) = v.
Proof. intros Hv. by apply from_to_be_small. Qed.

Lemma from_to_be_u32 v : is_u32 v -> from_be (to_be 4 v) = v.
Proof. intros Hv. by apply from_to_be_small. Qed.

Lemma header_parse_written f m rest :
  fields_ok f ->
  header_parse ((header_write_to (builder_marker m (builder_new f)) []).1 ++ rest) =
    Ok (header_write_to (builder_marker m (builder_new f)) []).2.
Proof.
  intros (Hs&Ht&Hc&Hp). unfold header_write_to. cbn [fst snd hb_fields hb_marker builder_marker builder_new app].
  unfold header_parse. rewrite <- !app_assoc.
  rewrite fixed_header_parse_app by apply length_to_be.
  destruct (marker_byte_read (hf_payload_type f) m Hp) as [Hpt Hm].
  cbn [mbind res_mbind ok_or fixed_of fixed_version fixed_csrc_count fixed_extension fixed_padding fixed_marker
       fixed_payload_type fixed_seq fixed_timestamp fixed_ssrc].
  change (Z.shiftl RTP_VERSION 6 mod 256) with 128.
  change (Z.shiftr 128 6) with 2. change (has_bits 128 0x10) with false. change (has_bits 128 0x20) with false.
  change (Z.land 128 0x0f) with 0. change (Z.to_nat 0) with 0%nat. cbn [Z.eqb negb RTP_VERSION Pos.eqb Nat.mul Nat.add].
  rewrite Hpt, Hm, from_to_be_u16, !from_to_be_u32 by assumption.
  destruct (Nat.ltb_spec (length (128 :: marker_byte (hf_payload_type f) m :: to_be 2 (hf_seq f) ++
    to_be 4 (hf_timestamp f) ++ to_be 4 (hf_ssrc f) ++ rest)) 12) as [Hlt|_]; [|done].
  simpl in Hlt. lia.
Qed.

(** ** Transport encryption *)
Section TransportTheory.
Context {AEAD : TransportAead} {Laws : TransportAeadLaws AEAD}.
Implicit Types (t : TransportCrypto) (h : RtpHeader).

Lemma length_written f m : length (header_write_to (builder_marker m (builder_new f)) []).1 = 12%nat.
Proof. done. Qed.

(** A packet in the rtpsize layout, cut where the code cuts it. *)
Lemma decrypt_layout t h aad ct tag sfx :
  length aad = encrypted_body_offset h -> length tag = AEAD_TAG_LEN -> length sfx = RTPSIZE_NONCE_LEN ->
  (encrypted_body_offset h <= header_len h)%nat ->
  decrypt_payload_into t (aad ++ ct ++ tag ++ sfx) h =
    (output ← cipher_decrypt_in_place_detached t (suffix_from_be_bytes sfx) aad ct tag;
     map_err ERtp (strip_decrypted_rtp_payload output (header_len h - encrypted_body_offset h) h)).
Proof.
  intros Ha Ht Hs Hh. unfold decrypt_payload_into.
  assert (length (aad ++ ct ++ tag ++ sfx) = (length aad + length ct + 16 + 4)%nat) as Hlen
    by (rewrite !length_app, Ht, Hs; unfold AEAD_TAG_LEN, RTPSIZE_NONCE_LEN; lia).
  unfold AEAD_TAG_LEN, RTPSIZE_NONCE_LEN in *. rewrite Hlen.
  set (n := (length aad + length ct)%nat). rewrite (proj2 (Nat.ltb_ge _ _)) by lia.
  unfold usize_sub. rewrite (proj2 (Nat.leb_le 4 (n + 16 + 4))) by lia. cbn [mbind res_mbind].
  replace (n + 16 + 4 - 4)%nat with (n + 16)%nat by lia.
  rewrite (proj2 (Nat.leb_le 16 (n + 16))) by lia. cbn [mbind res_mbind].
  replace (n + 16 - 16)%nat with n by lia.
  assert (forall E, slice (E := E) (aad ++ ct ++ tag ++ sfx) (n + 16) (n + 16 + 4) = Ok sfx) as ->.
  { intros. rewrite !app_assoc. apply slice_app_r; rewrite ?length_app; lia. }
  assert (forall E, slice (E := E) (aad ++ ct ++ tag ++ sfx) n (n + 16) = Ok tag) as ->.
  { intros. rewrite (app_assoc aad). apply slice_app; rewrite ?length_app; lia. }
  cbn [mbind res_mbind]. rewrite (slice_app_l aad (ct ++ tag ++ sfx)) by lia. cbn [mbind res_mbind].
  rewrite (slice_app aad ct) by lia. cbn [mbind res_mbind]. by rewrite (proj2 (Nat.leb_le _ _)) by lia.
Qed.

Lemma strip_safe payload n h : safe (strip_decrypted_rtp_payload payload n h) (fun p => all_bytes payload -> all_bytes p).
Proof.
  unfold strip_decrypted_rtp_payload. destruct (length payload <? n)%nat; [done|]. destruct (padding h); [|intros H; by apply Forall_drop].
  destruct (last _); cbn [ok_or mbind res_mbind]; [|done].
  match goal with |- context [if ?b then _ else _] => destruct b end; [done|]. intros H. by apply Forall_take, Forall_drop.
Qed.

Lemma decrypt_safe t l h : header_shape l h -> safe (decrypt_payload_into t l h) (fun p => all_bytes l -> all_bytes p).
Proof.
  intros Hh. pose proof (shape_order _ _ Hh). destruct (Nat.lt_ge_cases (length l) (encrypted_body_offset h + 20)).
  { unfold decrypt_payload_into, AEAD_TAG_LEN, RTPSIZE_NONCE_LEN. by rewrite (proj2 (Nat.ltb_lt _ _)) by lia. }
  set (aad := take (encrypted_body_offset h) l). set (body := drop (encrypted_body_offset h) l).
  set (n := (length l - encrypted_body_offset h - 20)%nat). set (ct := take n body).
  assert (l = aad ++ ct ++ take 16 (drop n body) ++ drop 16 (drop n body)) as Hl.
  { unfold aad, ct. rewrite (take_drop 16), (take_drop n). unfold body. by rewrite take_drop. }
  assert (all_bytes l -> all_bytes ct) as Hct by (intros; by apply Forall_take, Forall_drop).
  rewrite Hl at 1. rewrite decrypt_layout by (unfold aad, body, n, AEAD_TAG_LEN, RTPSIZE_NONCE_LEN; rewrite ?length_take, ?length_drop; lia).
  unfold cipher_decrypt_in_place_detached. destruct (aead_decrypt _ _ _ _ _ _) as [p|] eqn:Hd; [|done].
  pose proof (aead_decrypt_bytes _ _ _ _ _ _ _ Hd) as Hdb. cbn [mbind res_mbind].
  pose proof (strip_safe p (header_len h - encrypted_body_offset h) h) as Hs. destruct (strip_decrypted_rtp_payload _ _ _) as [a|e|]; [|done|done].
  intros Hb. exact (Hs (Hdb (Hct Hb))).
Qed.

(** Describing a datagram never panics. *)
Lemma info_total {E} l : exists i, info_from_bytes (E := E) l = Ok i.
Proof.
  unfold info_from_bytes. destruct (Nat.lt_ge_cases (length l) 12).
  - rewrite fixed_header_parse_short by done. by eexists.
  - destruct (fixed_header_parse_long (E := E) l) as (b0&b1&s&t&c&rest&_&_&_&_&->); [done|]. by eexists.
Qed.

Lemma rtcp_header_total {E} i l : exists o, rtcp_header (E := E) i l = Ok o.
Proof.
  unfold rtcp_header. destruct (_ || _) eqn:Hc; [by eexists|]. apply orb_false_iff in Hc as [_ Hlen%Nat.ltb_ge].
  destruct l as [|b0 [|b1 [|b2 [|b3 l]]]]; simpl in Hlen; try lia. cbn [index unwrap lookup list_lookup mbind res_mbind].
  destruct (Nat.leb_spec 8 (length (b0 :: b1 :: b2 :: b3 :: l))) as [H8|H8]; [|by eexists].
  destruct l as [|b4 [|b5 [|b6 [|b7 l]]]]; simpl in H8; try lia. by eexists.
Qed.

(** What the receiver does with an arbitrary datagram: reading the header
    never panics; a header that is accepted has version 2, fields of their
    widths and offsets inside the packet in the order fixed header, encrypted
    body, media; and decrypting the body under any key never panics, it gives
    a payload or an error. *)
Theorem rtp_receive_total t l :
  all_bytes l ->
  (exists e, header_parse l = Err e) \/
  exists h, header_parse l = Ok h /\ header_shape l h /\
    ((exists p, decrypt_payload_into t l h = Ok p) \/ exists e, decrypt_payload_into t l h = Err e).
Proof.
  intros Hl. destruct (header_parse_shape l Hl) as [(h&Hp&Hh)|He]; [right|by left].
  exists h. split; [done|]. split; [done|]. pose proof (decrypt_safe t l h Hh) as Hs. destruct (decrypt_payload_into t l h); eauto. done.
Qed.

(** ** The packet format

    A reference encoder for the packets the gateway's other clients send: an
    RFC 3550 header with any contributing sources and an optional extension,
    of which the profile and length stay clear and the words are encrypted,
    the media, and optional padding. *)
Record PacketSpec := {
  spec_fields : RtpHeaderFields; spec_marker : bool; spec_csrcs : list Z;
  spec_extension : option (Z * bytes); spec_media : bytes; spec_padding : option nat }.

Definition spec_ok (s : PacketSpec) : Prop :=
  fields_ok (spec_fields s) /\ (length (spec_csrcs s) < 16)%nat /\
  match spec_extension s with
  | Some (_, words) => exists n, length words = (4 * n)%nat /\ Z.of_nat n < u16_mod
  | None => True
  end /\
  match spec_padding s with Some n => (0 < n < 256)%nat | None => True end /\
  Z.of_nat (length (spec_media s)) < 2 ^ 30.

Definition spec_byte0 (s : PacketSpec) : Z :=
  128 + (if is_some (spec_padding s) then 32 else 0) + (if is_some (spec_extension s) then 16 else 0) + Z.of_nat (length (spec_csrcs s)).

(** The part that is sent in clear and authenticated. *)
Definition spec_clear (s : PacketSpec) : bytes :=
  let f := spec_fields s in
  [spec_byte0 s; marker_byte (hf_payload_type f) (spec_marker s)]
    ++ to_be 2 (hf_seq f) ++ to_be 4 (hf_timestamp f) ++ to_be 4 (hf_ssrc f)
    ++ concat (to_be 4 <$> spec_csrcs s)
    ++ match spec_extension s with
       | Some (profile, words) => to_be 2 profile ++ to_be 2 (Z.of_nat (length words / 4))
       | None => []
       end.

Definition spec_words (s : PacketSpec) : bytes := match spec_extension s with Some (_, w) => w | None => [] end.

(** The part that is encrypted. *)
Definition spec_body (s : PacketSpec) : bytes :=
  spec_words s ++ spec_media s
    ++ match spec_padding s with Some n => replicate (n - 1) 0 ++ [Z.of_nat n] | None => [] end.

Definition spec_header (s : PacketSpec) : RtpHeader :=
  let f := spec_fields s in
  {| version := 2; padding := is_some (spec_padding s);
     extension := is_some (spec_extension s); marker := spec_marker s;
     payload_type := hf_payload_type f; seq := hf_seq f; timestamp := hf_timestamp f; ssrc := hf_ssrc f;
     header_len := length (spec_clear s) + length (spec_words s); encrypted_body_offset := length (spec_clear s) |}.

Lemma spec_byte0_bits s : (length (spec_csrcs s) < 16)%nat ->
  Z.shiftr (spec_byte0 s) 6 = 2 /\ has_bits (spec_byte0 s) 0x20 = is_some (spec_padding s) /\
  has_bits (spec_byte0 s) 0x10 = (is_some (spec_extension s)) /\
  Z.to_nat (Z.land (spec_byte0 s) 0x0f) = length (spec_csrcs s).
Proof.
  intros Hc. unfold spec_byte0. set (n := Z.of_nat (length (spec_csrcs s))).
  change 0x0f with (Z.ones 4). rewrite Z.land_ones, (has_bits_pow2 _ 5), (has_bits_pow2 _ 4), !Z.testbit_odd,
    !Z.shiftr_div_pow2 by lia.
  destruct (spec_padding s), (spec_extension s); cbn [is_some];
    repeat split; try (apply Nat2Z.inj; rewrite Z2Nat.id by (apply Z.mod_pos_bound; lia));
    try (Z.div_mod_to_equations; lia).
  all: match goal with |- Z.odd (?a / ?b) = _ =>
    first [ replace (a / b) with 3 by (Z.div_mod_to_equations; lia)
          | replace (a / b) with 4 by (Z.div_mod_to_equations; lia)
          | replace (a / b) with 5 by (Z.div_mod_to_equations; lia)
          | replace (a / b) with 8 by (Z.div_mod_to_equations; lia)
          | replace (a / b) with 9 by (Z.div_mod_to_equations; lia)
          | replace (a / b) with 10 by (Z.div_mod_to_equations; lia)
          | replace (a / b) with 11 by (Z.div_mod_to_equations; lia) ] end; reflexivity.
Qed.

Lemma length_csrcs (l : list Z) : length (concat (to_be 4 <$> l)) = (length l * 4)%nat.
Proof. induction l as [|x l IH]; [done|]. rewrite fmap_cons. change (concat (to_be 4 x :: (to_be 4 <$> l))) with (to_be 4 x ++ concat (to_be 4 <$> l)). rewrite length_app, length_to_be, IH. simpl. lia. Qed.

Lemma length_spec_clear s :
  length (spec_clear s) = (12 + length (spec_csrcs s) * 4 + (if is_some (spec_extension s) then 4 else 0))%nat.
Proof.
  unfold spec_clear. rewrite !length_app, !length_to_be, length_csrcs. simpl.
  destruct (spec_extension s) as [[? ?]|]; rewrite ?length_app, ?length_to_be; simpl; lia.
Qed.

Lemma parse_extension_spec s rest :
  spec_ok s -> (length (spec_words s) <= length rest)%nat ->
  parse_extension (spec_clear s ++ rest) (is_some (spec_extension s)) (12 + length (spec_csrcs s) * 4) =
    Ok ((length (spec_clear s) + length (spec_words s))%nat, length (spec_clear s)).
Proof.
  intros (_&_&He&_) Hr. rewrite length_spec_clear. unfold parse_extension, spec_words in *.
  destruct (spec_extension s) as [[profile words]|] eqn:Hx.
  2: { do 2 f_equal; simpl; lia. }
  destruct He as (n&Hn&Hu). rewrite length_app, length_spec_clear, Hx. cbn [is_some].
  rewrite (proj2 (Nat.ltb_ge _ _)) by lia.
  set (pre := [spec_byte0 s; marker_byte (hf_payload_type (spec_fields s)) (spec_marker s)]
    ++ to_be 2 (hf_seq (spec_fields s)) ++ to_be 4 (hf_timestamp (spec_fields s)) ++ to_be 4 (hf_ssrc (spec_fields s))
    ++ concat (to_be 4 <$> spec_csrcs s)).
  assert (length pre = (12 + length (spec_csrcs s) * 4)%nat) as Hpre
    by (unfold pre; rewrite !length_app, !length_to_be, length_csrcs; simpl; lia).
  assert (exists b0 b1 b2 b3, spec_clear s ++ rest = pre ++ [b0; b1; b2; b3] ++ rest /\
    from_be [b2; b3] = Z.of_nat n) as (b0&b1&b2&b3&->&Hbe).
  { replace n with (length words / 4)%nat
      by (rewrite Hn, Nat.mul_comm; apply Nat.div_mul; lia).
    unfold spec_clear. rewrite Hx. unfold pre. do 4 eexists. split; [by rewrite <- !app_assoc|].
    etransitivity; [apply (from_to_be_u16 (Z.of_nat (length words / 4)))|done].
    rewrite Hn, Nat.mul_comm, Nat.div_mul by lia. split; lia. }
  rewrite <- Hpre. unfold index. 
  rewrite (lookup_app_r pre _ (length pre + 2)), (lookup_app_r pre _ (length pre + 3)) by lia.
  replace (length pre + 2 - length pre)%nat with 2%nat by lia.
  replace (length pre + 3 - length pre)%nat with 3%nat by lia. cbn [app lookup list_lookup unwrap mbind res_mbind].
  rewrite Hbe, Nat2Z.id. rewrite (proj2 (Nat.ltb_ge _ _)) by lia. f_equal. f_equal; lia.
Qed.

Lemma header_parse_spec s rest :
  spec_ok s -> (length (spec_words s) <= length rest)%nat ->
  header_parse (spec_clear s ++ rest) = Ok (spec_header s).
Proof.
  intros Hok Hr. pose proof Hok as ((Hs&Ht&Hc&Hp)&Hn&_).
  unfold header_parse.
  assert (fixed_header_parse (E := RtpError) (spec_clear s ++ rest) =
    Ok (Some (fixed_of (spec_byte0 s) (marker_byte (hf_payload_type (spec_fields s)) (spec_marker s))
      (to_be 2 (hf_seq (spec_fields s))) (to_be 4 (hf_timestamp (spec_fields s))) (to_be 4 (hf_ssrc (spec_fields s)))))) as ->.
  { unfold spec_clear. cbn [app]. rewrite <- !app_assoc. apply fixed_header_parse_app; apply length_to_be. }
  destruct (spec_byte0_bits s Hn) as (Hv&Hpad&Hext&Hcc). destruct (marker_byte_read _ (spec_marker s) Hp) as [Hpt Hm].
  cbn [mbind res_mbind ok_or fixed_of fixed_version fixed_csrc_count fixed_extension fixed_padding fixed_marker
       fixed_payload_type fixed_seq fixed_timestamp fixed_ssrc].
  rewrite Hv, Hpad, Hext, Hcc, Hpt, Hm, from_to_be_u16, !from_to_be_u32 by assumption.
  cbn [Z.eqb negb RTP_VERSION Pos.eqb].
  rewrite (proj2 (Nat.ltb_ge _ _)) by (rewrite length_app, length_spec_clear; lia).
  by rewrite parse_extension_spec.
Qed.

Lemma strip_spec s : spec_ok s ->
  strip_decrypted_rtp_payload (spec_body s) (length (spec_words s)) (spec_header s) = Ok (spec_media s).
Proof.
  intros (_&_&_&Hp&_). unfold strip_decrypted_rtp_payload, spec_body.
  rewrite (proj2 (Nat.ltb_ge _ _)) by (rewrite length_app; lia).
  rewrite drop_app_length. cbn [spec_header padding].
  destruct (spec_padding s) as [n|]; [|by rewrite app_nil_r].
  rewrite app_assoc, last_snoc. cbn [ok_or mbind res_mbind]. rewrite Nat2Z.id.
  assert (length ((spec_media s ++ replicate (n - 1) 0) ++ [Z.of_nat n]) = (length (spec_media s) + n)%nat) as Hlen
    by (rewrite !length_app, length_replicate; simpl; lia).
  rewrite Hlen. rewrite (proj2 (Nat.eqb_neq _ _)), (proj2 (Nat.ltb_ge _ _)) by lia. cbn [orb].
  replace (length (spec_media s) + n - n)%nat with (length (spec_media s)) by lia.
  by rewrite <- app_assoc, take_app_length.
Qed.

Lemma length_spec_body s : spec_ok s -> Z.of_nat (length (spec_body s)) < 2 ^ 32.
Proof.
  intros (_&_&He&Hp&Hm). unfold spec_body, spec_words. rewrite !length_app.
  assert (length (match spec_padding s with Some n => replicate (n - 1) 0%Z ++ [Z.of_nat n] | None => [] end) < 256)%nat
    by (destruct (spec_padding s); rewrite ?length_app, ?length_replicate; simpl; lia).
  assert (Z.of_nat (length (match spec_extension s with Some (_, w) => w | None => [] end)) < 2 ^ 18)
    by (destruct (spec_extension s) as [[? ?]|]; simpl; [destruct He as (?&->&?); unfold u16_mod in *|]; lia).
  lia.
Qed.

(** Every packet of the format is received. *)
Lemma packet_spec_received t s suffix :
  spec_ok s -> is_u32 suffix ->
  exists ct tag,
    aead_encrypt (mode t) (cipher t) (rtpsize_nonce (nonce_size (mode t)) suffix) (spec_clear s) (spec_body s) = Some (ct, tag) /\
    let packet := spec_clear s ++ ct ++ tag ++ to_be 4 suffix in
    header_parse packet = Ok (spec_header s) /\
    decrypt_payload_into t packet (spec_header s) = Ok (spec_media s).
Proof.
  intros Hok Hsfx.
  destruct (aead_encrypt_ok (mode t) (cipher t) (rtpsize_nonce (nonce_size (mode t)) suffix) (spec_clear s) (spec_body s)
    (length_spec_body s Hok)) as [[ct tag] Henc].
  exists ct, tag. split; [done|]. destruct (aead_encrypt_len _ _ _ _ _ _ _ Henc) as (Hct&Htag&_).
  split; [apply header_parse_spec; [done|]|].
  { rewrite !length_app, Hct. unfold spec_body. rewrite length_app. lia. }
  rewrite decrypt_layout by (rewrite ?length_to_be; simpl; done || lia).
  unfold cipher_decrypt_in_place_detached, suffix_from_be_bytes. rewrite from_to_be_u32 by done.
  rewrite (proj2 (aead_decrypt_iff _ _ _ _ _ _ _ Htag) Henc). cbn [mbind res_mbind spec_header header_len encrypted_body_offset].
  replace (length (spec_clear s) + length (spec_words s) - length (spec_clear s))%nat with (length (spec_words s)) by lia.
  fold (spec_header s). by rewrite strip_spec.
Qed.

(** Reception of the rtpsize packet format: for every header, list of
    contributing sources, header extension, padding and media payload, a
    sender holding the same key can encrypt the packet under any nonce suffix,
    and the receiver then reads back exactly the header fields and offsets and
    decrypts exactly the media, without the extension words and the padding. *)
Theorem rtpsize_packet_received t s suffix :
  spec_ok s -> is_u32 suffix ->
  exists ct tag,
    aead_encrypt (mode t) (cipher t) (rtpsize_nonce (nonce_size (mode t)) suffix) (spec_clear s) (spec_body s) = Some (ct, tag) /\
    let packet := spec_clear s ++ ct ++ tag ++ to_be 4 suffix in
    header_parse packet = Ok (spec_header s) /\
    decrypt_payload_into t packet (spec_header s) = Ok (spec_media s).
Proof. apply packet_spec_received. Qed.
End TransportTheory.
End Rtp.

(** ** A concrete cipher, for the witnesses: the payload is kept and the tag
    repeats a byte of the key and of the nonce. *)
Module SampleAead.
Import Rtp.

Definition sample_tag (k : Z) (n : bytes) : bytes := replicate 16 ((k + default 0 (n !! 3%nat)) mod 256).

#[export] Instance sample_aead : TransportAead := {
  aead_cipher _ := Z;
  aead_new _ k := if (length k =? 32)%nat then head k else None;
  aead_encrypt _ c n _ p := Some (p, sample_tag c n);
  aead_decrypt _ c n _ ct tag := if bool_decide (tag = sample_tag c n) then Some ct else None }.

#[export] Instance sample_aead_laws : TransportAeadLaws sample_aead.
Proof.
  split; simpl.
  - intros _ k Hk. rewrite Hk. destruct k; [done|by eexists].
  - by eexists.
  - intros _ c n _ p ct tag [= <- <-]. repeat split; [done|]. apply Forall_replicate, mod256_byte.
  - intros _ c n _ ct tag p _. case_bool_decide; naive_solver.
  - intros _ c n _ ct tag p. case_bool_decide; naive_solver.
Qed.

Definition sample_transport : TransportCrypto := {| mode := AeadAes256GcmRtpSize; cipher := 7%Z : aead_cipher AeadAes256GcmRtpSize |}.

Definition sample_packet : bytes := [0x90; 0xf8; 0; 1; 0; 0; 3; 192; 0; 0; 0; 9; 0xbe; 0xde; 0; 1; 42; 43].

Lemma rtp_receive_total_witness :
  (exists e, header_parse sample_packet = Err e) \/
  exists h, header_parse sample_packet = Ok h /\ header_shape sample_packet h /\
    ((exists p, decrypt_payload_into sample_transport sample_packet h = Ok p) \/
     exists e, decrypt_payload_into sample_transport sample_packet h = Err e).
Proof. apply (rtp_receive_total sample_transport sample_packet). compute_bytes. Defined.

Definition sample_spec : PacketSpec := {|
  spec_fields := {| hf_seq := 65535; hf_timestamp := 960; hf_ssrc := 9; hf_payload_type := 120 |};
  spec_marker := true; spec_csrcs := [3; 4]; spec_extension := Some (0xbede, [1; 2; 3; 4]); spec_media := [10; 11; 12];
  spec_padding := Some 4%nat |}.

Lemma rtpsize_packet_received_witness :
  exists ct tag,
    aead_encrypt (mode sample_transport) (cipher sample_transport) (rtpsize_nonce (nonce_size (mode sample_transport)) 5)
      (spec_clear sample_spec) (spec_body sample_spec) = Some (ct, tag) /\
    let packet := spec_clear sample_spec ++ ct ++ tag ++ to_be 4 5 in
    header_parse packet = Ok (spec_header sample_spec) /\
    decrypt_payload_into sample_transport packet (spec_header sample_spec) = Ok (spec_media sample_spec).
Proof.
  apply (rtpsize_packet_received sample_transport sample_spec 5).
  - repeat split; simpl; try (by exists 1%nat); lia.
  - split; [lia|reflexivity].
Defined.
End SampleAead.
