(* ===== verification/Codecs.v ===== *)
(** * Codec descriptors, payload type negotiation and the outbound RTP streams

    [codecs.rs] (with the [DESCRIPTOR] constants of [rtp_payload.rs] and the
    codec preferences of [state.rs]) and the sender half of [media.rs]:
    [OutboundCodecBinding], [OutboundRtpState] and [timestamp_increment]. *)

From Stdlib Require Import String Ascii.
From S2P Require Import Prelude Frame Rtp.
#[local] Open Scope Z_scope.
Import Rtp.

Module Codecs.

Definition VIDEO_CLOCK_RATE_HZ : Z := 90000.

Record DiscordCodecDescriptor := {
  codec : MediaCodec; wire_name : string; desc_payload_type : RtpPayloadType;
  rtx_payload_type : option RtpPayloadType; clock_rate_hz : Z }.

Definition desc_media_type (d : DiscordCodecDescriptor) : MediaType := media_type (codec d).

(** [visit_discord] with [DescriptorVisitor]: the [DESCRIPTOR] of each codec. *)
Definition descriptor (c : MediaCodec) : DiscordCodecDescriptor :=
  match c with
  | Opus => {| codec := Opus; wire_name := "opus"; desc_payload_type := 120; rtx_payload_type := None; clock_rate_hz := 48000 |}
  | Vp8 => {| codec := Vp8; wire_name := "VP8"; desc_payload_type := 107; rtx_payload_type := Some 108;
              clock_rate_hz := VIDEO_CLOCK_RATE_HZ |}
  | Vp9 => {| codec := Vp9; wire_name := "VP9"; desc_payload_type := 109; rtx_payload_type := Some 110;
              clock_rate_hz := VIDEO_CLOCK_RATE_HZ |}
  | H264 => {| codec := H264; wire_name := "H264"; desc_payload_type := 103; rtx_payload_type := Some 104;
               clock_rate_hz := VIDEO_CLOCK_RATE_HZ |}
  | H265 => {| codec := H265; wire_name := "H265"; desc_payload_type := 105; rtx_payload_type := Some 106;
               clock_rate_hz := VIDEO_CLOCK_RATE_HZ |}
  | Av1 => {| codec := Av1; wire_name := "AV1"; desc_payload_type := 101; rtx_payload_type := Some 102;
              clock_rate_hz := VIDEO_CLOCK_RATE_HZ |}
  end.

Definition DISCORD_CODECS : list DiscordCodecDescriptor := descriptor <$> [Opus; Av1; H265; H264; Vp8; Vp9].

Definition video_codecs : list MediaCodec :=
  codec <$> List.filter (fun d => bool_decide (desc_media_type d = Video)) DISCORD_CODECS.

Definition payload_type_of (c : MediaCodec) : RtpPayloadType := desc_payload_type (descriptor c).

Definition codec_for_payload_type (pt : RtpPayloadType) : option MediaCodec :=
  codec <$> List.find (fun d => desc_payload_type d =? pt) DISCORD_CODECS.

(** [str::eq_ignore_ascii_case] *)
Definition lower (a : ascii) : ascii :=
  let n := nat_of_ascii a in if ((65 <=? n) && (n <=? 90))%nat then ascii_of_nat (n + 32) else a.

Fixpoint eq_ignore_ascii_case (a b : string) : bool :=
  match a, b with
  | EmptyString, EmptyString => true
  | String x a, String y b => Ascii.eqb (lower x) (lower y) && eq_ignore_ascii_case a b
  | _, _ => false
  end.

Definition codec_named (mt : MediaType) (name : string) : option MediaCodec :=
  codec <$> List.find (fun d => bool_decide (desc_media_type d = mt) && eq_ignore_ascii_case name (wire_name d)) DISCORD_CODECS.

Definition audio_codec (name : string) : option MediaCodec := codec_named Audio name.
Definition video_codec (name : string) : option MediaCodec := codec_named Video name.

(** ** Codec preferences *)
Inductive PreferenceError :=
| VideoCodecPreferenceNotVideo (c : MediaCodec)
| DuplicateVideoCodecPreference (c : MediaCodec).

Fixpoint validate_video_codecs_loop (seen : list MediaCodec) (l : list MediaCodec) : res PreferenceError () :=
  match l with
  | [] => Ok ()
  | c :: l =>
      if bool_decide (media_type c ≠ Video) then Err (VideoCodecPreferenceNotVideo c)
      else if bool_decide (c ∈ seen) then Err (DuplicateVideoCodecPreference c)
      else validate_video_codecs_loop (c :: seen) l
  end.

Definition validate_video_codecs (l : list MediaCodec) : res PreferenceError () := validate_video_codecs_loop [] l.

Definition preferences_new (l : list MediaCodec) : res PreferenceError (list MediaCodec) :=
  _ ← validate_video_codecs l; Ok l.

(** ** The payload type map of a session *)
Inductive UnsupportedCodecError :=
| UnsupportedAudioCodec (name : string)
| UnsupportedVideoCodec (name : string)
| UnexpectedRtpPayloadCodec (pt : RtpPayloadType) (c : MediaCodec) (expected : list RtpPayloadType)
| UnsupportedRtpPayloadType (pt : RtpPayloadType) (expected : list RtpPayloadType).

Record DiscordRtpCodecMap := { payload_codecs : list (option MediaCodec); expected_payload_types : list RtpPayloadType }.

(** Assignment to an array slot: out of range is a panic. *)
Definition array_set {E A} (l : list A) (i : nat) (x : A) : res E (list A) :=
  if (i <? length l)%nat then Ok (<[i := x]> l) else Panic.

Definition insert_codec {E} (c : MediaCodec) (m : DiscordRtpCodecMap) : res E DiscordRtpCodecMap :=
  let pt := payload_type_of c in
  codecs ← array_set (payload_codecs m) (Z.to_nat pt) (Some c);
  Ok {| payload_codecs := codecs; expected_payload_types := expected_payload_types m ++ [pt] |}.

Fixpoint insert_codecs {E} (l : list MediaCodec) (m : DiscordRtpCodecMap) : res E DiscordRtpCodecMap :=
  match l with [] => Ok m | c :: l => m ← insert_codec c m; insert_codecs l m end.

(** The negotiated codec names of the session description. *)
Definition codec_map_new (session_audio session_video : option string) (preferences : list MediaCodec)
    : res UnsupportedCodecError DiscordRtpCodecMap :=
  audio ← match session_audio with
          | None => Ok Opus
          | Some name => ok_or (UnsupportedAudioCodec name) (audio_codec name)
          end;
  _ ← match session_video with
      | None => Ok ()
      | Some name => _ ← ok_or (UnsupportedVideoCodec name) (video_codec name); Ok ()
      end;
  m ← insert_codec audio {| payload_codecs := replicate 128 None; expected_payload_types := [] |};
  insert_codecs preferences m.

Definition detect (m : DiscordRtpCodecMap) (pt : RtpPayloadType) : res UnsupportedCodecError MediaCodec :=
  match payload_codecs m !! Z.to_nat pt with
  | Some (Some c) => Ok c
  | _ =>
      match codec_for_payload_type pt with
      | Some c => Err (UnexpectedRtpPayloadCodec pt c (expected_payload_types m))
      | None => Err (UnsupportedRtpPayloadType pt (expected_payload_types m))
      end
  end.

(** ** Lemmas *)
Lemma payload_type_inj c d : payload_type_of c = payload_type_of d -> c = d.
Proof. by destruct c, d. Qed.

Lemma payload_type_range c : 0 <= payload_type_of c < 128.
Proof. destruct c; vm_compute; split; congruence. Qed.

Lemma codec_for_payload_type_iff pt c : codec_for_payload_type pt = Some c <-> payload_type_of c = pt.
Proof.
  split.
  - unfold codec_for_payload_type. destruct (List.find _ _) as [d|] eqn:Hf; [|done].
    apply List.find_some in Hf as [Hin Hpt%Z.eqb_eq]. intros [= <-]. rewrite <- Hpt.
    simpl in Hin. destruct_or! Hin; simplify_eq; done.
  - intros <-. by destruct c.
Qed.

Lemma audio_codec_opus name c : audio_codec name = Some c -> c = Opus.
Proof.
  unfold audio_codec, codec_named. simpl. destruct (eq_ignore_ascii_case _ _); simpl; [congruence|done].
Qed.

Lemma preferences_new_ok l l' :
  preferences_new l = Ok l' -> l' = l /\ NoDup l /\ Forall (fun c => media_type c = Video) l.
Proof.
  unfold preferences_new, validate_video_codecs. intros (u&Hv&[= ->])%bind_Ok_inv. split; [done|].
  enough (forall seen, validate_video_codecs_loop seen l' = Ok u ->
    NoDup l' /\ Forall (fun c => media_type c = Video) l' /\ Forall (fun c => c ∉ seen) l') as H
    by (specialize (H [] Hv); tauto).
  clear Hv. induction l' as [|c l IH]; intros seen; simpl; [repeat constructor|].
  case_bool_decide; [done|]. case_bool_decide; [done|]. intros (Hn&Hv&Hs)%IH.
  rewrite Forall_forall in Hs. repeat split.
  - constructor; [|done]. intros Hc. by apply Hs in Hc; apply Hc; left.
  - constructor; [by destruct (media_type c)|done].
  - constructor; [done|]. apply Forall_forall. intros d Hd Hin. apply (Hs d Hd). by right.
Qed.

(** The map holds exactly the codecs of [l] at their payload types. *)
Definition map_of (l : list MediaCodec) (m : DiscordRtpCodecMap) : Prop :=
  length (payload_codecs m) = 128%nat /\ expected_payload_types m = payload_type_of <$> l /\
  forall i c, payload_codecs m !! i = Some (Some c) <-> c ∈ l /\ i = Z.to_nat (payload_type_of c).

Lemma insert_codec_map {E} l m c : map_of l m -> exists m', insert_codec (E := E) c m = Ok m' /\ map_of (l ++ [c]) m'.
Proof.
  intros (Hlen&Hexp&Hm). pose proof (payload_type_range c) as Hr. unfold insert_codec, array_set.
  rewrite (proj2 (Nat.ltb_lt _ _)) by (rewrite Hlen; lia). eexists. split; [reflexivity|]. split; [|split]; simpl.
  - by rewrite length_insert.
  - by rewrite Hexp, fmap_app.
  - intros i d. rewrite elem_of_app, list_elem_of_singleton. destruct (decide (i = Z.to_nat (payload_type_of c))) as [->|Hi].
    + rewrite list_lookup_insert_eq by (rewrite Hlen; lia). split; [intros [= <-]; auto|].
      intros [_ Heq]. do 2 f_equal. apply payload_type_inj. pose proof (payload_type_range d). lia.
    + rewrite list_lookup_insert_ne by done. rewrite Hm. naive_solver.
Qed.

Lemma insert_codecs_map {E} l k m :
  map_of l m -> exists m', insert_codecs (E := E) k m = Ok m' /\ map_of (l ++ k) m'.
Proof.
  revert l m. induction k as [|c k IH]; intros l m Hm; simpl; [by rewrite app_nil_r; eauto|].
  destruct (insert_codec_map (E := E) l m c Hm) as (m1&->&Hm1). cbn [mbind res_mbind].
  destruct (IH _ _ Hm1) as (m2&->&Hm2). exists m2. by rewrite <- app_assoc in Hm2.
Qed.

Lemma map_of_empty : map_of [] {| payload_codecs := replicate 128 None; expected_payload_types := [] |}.
Proof.
  split; [done|split; [done|]]. intros i c. cbn [payload_codecs].
  split; [intros [[=] _]%lookup_replicate|intros [H%elem_of_nil _]; done].
Qed.

Lemma codec_map_new_no_panic sa sv prefs : codec_map_new sa sv prefs ≠ Panic.
Proof.
  unfold codec_map_new. destruct (match sa with None => _ | Some _ => _ end) as [a|e|] eqn:Ha; cbn [mbind res_mbind];
    [|done|destruct sa as [name|]; [by destruct (audio_codec name)|done]].
  destruct (match sv with None => _ | Some _ => _ end) as [u|e|] eqn:Hv; cbn [mbind res_mbind];
    [|done|destruct sv as [name|]; [by destruct (video_codec name)|done]].
  destruct (insert_codec_map (E := UnsupportedCodecError) _ _ a map_of_empty) as (m1&->&Hm1). cbn [mbind res_mbind].
  by destruct (insert_codecs_map (E := UnsupportedCodecError) _ prefs _ Hm1) as (m&->&_).
Qed.

(** Payload type negotiation: with validated video preferences and codec
    names the session accepts, [DiscordRtpCodecMap::new] succeeds, and [detect]
    maps a 7-bit payload type to a codec exactly when that codec is Opus or a
    preferred video codec carrying this payload type; for any other payload
    type it names the Discord codec that owns it, or reports it as unknown.
    A name that is no audio (video) codec is the error of that name. *)
Theorem codec_map_detect preferences prefs sa sv pt :
  preferences_new preferences = Ok prefs -> 0 <= pt < 128 ->
  (forall name, sa = Some name -> audio_codec name ≠ None) ->
  (forall name, sv = Some name -> video_codec name ≠ None) ->
  exists m, codec_map_new sa sv prefs = Ok m /\
    (forall c, detect m pt = Ok c <-> payload_type_of c = pt /\ (c = Opus \/ c ∈ preferences)) /\
    (forall e, detect m pt = Err e ->
       e = match codec_for_payload_type pt with
           | Some c => UnexpectedRtpPayloadCodec pt c (payload_type_of <$> Opus :: preferences)
           | None => UnsupportedRtpPayloadType pt (payload_type_of <$> Opus :: preferences)
           end).
Proof.
  intros (->&_&_)%preferences_new_ok Hpt Ha Hv. unfold codec_map_new.
  assert (match sa with None => Ok Opus | Some name => ok_or (UnsupportedAudioCodec name) (audio_codec name) end = Ok Opus) as ->.
  { destruct sa as [name|]; [|done]. destruct (audio_codec name) as [c|] eqn:Hc; [|by destruct (Ha name)].
    by rewrite (audio_codec_opus _ _ Hc). }
  assert (match sv with None => Ok () | Some name => _ ← ok_or (UnsupportedVideoCodec name) (video_codec name); Ok () end = Ok ()) as ->.
  { destruct sv as [name|]; [|done]. destruct (video_codec name) eqn:Hc; [done|by destruct (Hv name)]. }
  cbn [mbind res_mbind].
  destruct (insert_codec_map (E := UnsupportedCodecError) _ _ Opus map_of_empty) as (m1&->&Hm1).
  cbn [mbind res_mbind].
  destruct (insert_codecs_map (E := UnsupportedCodecError) _ preferences _ Hm1) as (m&->&Hlen&Hexp&Hm).
  exists m. split; [done|]. unfold detect. simpl app in *. rewrite Hexp.
  destruct (payload_codecs m !! Z.to_nat pt) as [[c|]|] eqn:Hl.
  - split; [|done]. apply Hm in Hl as [Hin Heq]. pose proof (payload_type_range c).
    intros d. split.
    + intros [= <-]. split; [lia|]. by apply elem_of_cons in Hin as [->|?]; [left|right].
    + intros [Hd _]. f_equal. apply payload_type_inj. lia.
  - split; [|destruct (codec_for_payload_type pt); naive_solver]. intros c.
    split; [by destruct (codec_for_payload_type pt)|]. intros [<- Hin]. exfalso.
    assert (payload_codecs m !! Z.to_nat (payload_type_of c) = Some (Some c)) as H
      by (apply Hm; split; [apply elem_of_cons|]; done). congruence.
  - apply lookup_ge_None in Hl. lia.
Qed.

Lemma codec_map_detect_witness :
  exists m, codec_map_new (Some "OPUS"%string) (Some "h264"%string) [H264; Av1] = Ok m /\
    (forall c, detect m 103 = Ok c <-> payload_type_of c = 103 /\ (c = Opus \/ c ∈ [H264; Av1])) /\
    (forall e, detect m 103 = Err e ->
       e = match codec_for_payload_type 103 with
           | Some c => UnexpectedRtpPayloadCodec 103 c (payload_type_of <$> Opus :: [H264; Av1])
           | None => UnsupportedRtpPayloadType 103 (payload_type_of <$> Opus :: [H264; Av1])
           end).
Proof. apply (codec_map_detect [H264; Av1]); [reflexivity|lia|..]; intros name [= <-]; discriminate. Defined.
End Codecs.
