(* ===== verification/Outbound.v ===== *)
(** * The outbound RTP streams

    The sender half of [media.rs]: [OutboundCodecBinding],
    [OutboundRtpState::build_packet], [timestamp_increment], the heartbeat
    nonce, and the ordering of the resolved voice addresses. *)

From S2P Require Import Prelude Frame Rtp Codecs.
Import Rtp Codecs.

Module Outbound.

(** [Duration] is a number of nanoseconds below 2^64 seconds, so the product
    below stays within the [u128] of the source. *)
Definition timestamp_increment (sample_rate duration : Z) : Z :=
  let samples := (sample_rate * duration) / 1000000000 in
  Z.min (Z.max samples 1) (u32_mod - 1).

Record OutboundCodecBinding := { bind_ssrc : Z; bind_descriptor : DiscordCodecDescriptor }.

Definition binding_new (c : MediaCodec) (ssrc : Z) : OutboundCodecBinding :=
  {| bind_ssrc := ssrc; bind_descriptor := descriptor c |}.

Definition binding_codec (b : OutboundCodecBinding) : MediaCodec := codec (bind_descriptor b).
Definition binding_media_type (b : OutboundCodecBinding) : MediaType := desc_media_type (bind_descriptor b).
Definition binding_payload_type (b : OutboundCodecBinding) : RtpPayloadType := desc_payload_type (bind_descriptor b).
Definition sample_rate (b : OutboundCodecBinding) : Z := clock_rate_hz (bind_descriptor b).

Record OutboundRtpState := {
  out_seq : Z; out_timestamp : Z; nonce_suffix : RtpSizeNonceSuffix; binding : OutboundCodecBinding }.

Definition outbound_new (random : option bytes) (b : OutboundCodecBinding) : res Error OutboundRtpState :=
  s ← suffix_initial random;
  Ok {| out_seq := 0; out_timestamp := 0; nonce_suffix := s; binding := b |}.

Definition update_binding (b : OutboundCodecBinding) (st : OutboundRtpState) : OutboundRtpState :=
  {| out_seq := out_seq st; out_timestamp := out_timestamp st; nonce_suffix := nonce_suffix st; binding := b |}.

Record OutboundPacket := {
  packet_rtp : RtpHeader; packet_nonce_suffix : RtpSizeNonceSuffix; payload_bytes : nat; packet_bytes : nat }.

Section Build.
Context {AEAD : TransportAead}.

(** The new state, the packet description and the packet itself.  On an error
    the source returns before it changes the state. *)
Definition build_packet (t : TransportCrypto) (frame : bytes) (marker : bool) (duration : Z) (st : OutboundRtpState)
    : res Error (OutboundRtpState * OutboundPacket * bytes) :=
  match frame with
  | [] => Err (EEmptyPayload (binding_codec (binding st)))
  | _ =>
      '(packet, rtp) ← encrypt_payload t
        {| op_header := {| hf_seq := out_seq st; hf_timestamp := out_timestamp st; hf_ssrc := bind_ssrc (binding st);
                           hf_payload_type := binding_payload_type (binding st) |};
           op_marker := marker; op_nonce_suffix := nonce_suffix st |} frame;
      let timestamp :=
        if bool_decide (binding_media_type (binding st) = Audio) || marker
        then wrapping_add u32_mod (out_timestamp st) (timestamp_increment (sample_rate (binding st)) duration)
        else out_timestamp st in
      Ok ({| out_seq := wrapping_add u16_mod (out_seq st) 1; out_timestamp := timestamp;
             nonce_suffix := suffix_increment (nonce_suffix st); binding := binding st |},
          {| packet_rtp := rtp; packet_nonce_suffix := nonce_suffix st; payload_bytes := length frame;
             packet_bytes := length packet |},
          packet)
  end.

(** A run of [build_packet] over the payloads of a stream, stopping at the
    first error as [send_ready_media_frame] does. *)
Fixpoint build_all (t : TransportCrypto) (l : list (bytes * bool * Z)) (st : OutboundRtpState)
    : res Error (OutboundRtpState * list (OutboundPacket * bytes)) :=
  match l with
  | [] => Ok (st, [])
  | (frame, marker, duration) :: l =>
      '(st, o, packet) ← build_packet t frame marker duration st;
      '(st, out) ← build_all t l st;
      Ok (st, (o, packet) :: out)
  end.
End Build.

(** ** Heartbeat nonces *)
Definition heartbeat_initial (random : option bytes) : res Error Z :=
  b ← ok_or (ETransportCrypto NonceRandomnessUnavailable) random;
  Ok (from_be b mod JS_MAX_SAFE_INTEGER).

(** The new nonce, which is also the value returned. *)
Definition heartbeat_next (n : Z) : Z := wrapping_add u64_mod n 1 mod JS_MAX_SAFE_INTEGER.

(** ** Resolved addresses *)
Section Addresses.
Context {Addr : Type} `{EqDecision Addr} (is_ipv4 : Addr -> bool).

Fixpoint ordered_loop (l v4 v6 : list Addr) : list Addr :=
  match l with
  | [] => v4 ++ v6
  | a :: l =>
      if is_ipv4 a then ordered_loop l (if bool_decide (a ∈ v4) then v4 else v4 ++ [a]) v6
      else ordered_loop l v4 (if bool_decide (a ∈ v6) then v6 else v6 ++ [a])
  end.

Definition ordered_voice_socket_addrs (l : list Addr) : list Addr := ordered_loop l [] [].
End Addresses.

(** ** Lemmas *)
Lemma timestamp_increment_range r d : 1 <= timestamp_increment r d < u32_mod.
Proof. unfold timestamp_increment, u32_mod. lia. Qed.

(** 20 ms of 48 kHz audio are 960 samples. *)
Example timestamp_increment_opus : timestamp_increment 48000 20000000 = 960.
Proof. reflexivity. Qed.

Definition binding_ok (b : OutboundCodecBinding) : Prop := exists c ssrc, is_u32 ssrc /\ b = binding_new c ssrc.

Definition state_ok (st : OutboundRtpState) : Prop :=
  is_u16 (out_seq st) /\ is_u32 (out_timestamp st) /\ is_u32 (nonce_suffix st) /\ binding_ok (binding st).

Definition sendable (p : bytes) : Prop := p ≠ [] /\ Z.of_nat (length p) < 2 ^ 30.

(** The header a stream writes next. *)
Definition next_fields (st : OutboundRtpState) : RtpHeaderFields :=
  {| hf_seq := out_seq st; hf_timestamp := out_timestamp st; hf_ssrc := bind_ssrc (binding st);
     hf_payload_type := binding_payload_type (binding st) |}.

Definition plain_spec (st : OutboundRtpState) (frame : bytes) (marker : bool) : PacketSpec :=
  {| spec_fields := next_fields st; spec_marker := marker; spec_csrcs := []; spec_extension := None;
     spec_media := frame; spec_padding := None |}.

Lemma next_fields_ok st : state_ok st -> fields_ok (next_fields st).
Proof.
  intros (Hs&Ht&_&(c&ssrc&Hc&Hb)). repeat split; simpl; try apply Hs; try apply Ht; rewrite Hb; try apply Hc; apply payload_type_range.
Qed.

Lemma plain_spec_ok st frame marker : state_ok st -> sendable frame -> spec_ok (plain_spec st frame marker).
Proof. intros Hst [_ Hf]. split; [by apply next_fields_ok|]. simpl. repeat split; [lia|done]. Qed.

Section Theory.
Context {AEAD : TransportAead} {Laws : TransportAeadLaws AEAD}.
Implicit Types (t : TransportCrypto) (st : OutboundRtpState).

(** The timestamp after a packet. *)
Definition timestamp_after (st : OutboundRtpState) (marker : bool) (duration : Z) : Z :=
  if bool_decide (binding_media_type (binding st) = Audio) || marker
  then wrapping_add u32_mod (out_timestamp st) (timestamp_increment (sample_rate (binding st)) duration)
  else out_timestamp st.

Lemma build_packet_ok t frame marker duration st :
  state_ok st -> sendable frame ->
  exists st' o packet, build_packet t frame marker duration st = Ok (st', o, packet) /\ state_ok st' /\
    out_seq st' = wrapping_add u16_mod (out_seq st) 1 /\
    out_timestamp st' = timestamp_after st marker duration /\
    nonce_suffix st' = suffix_increment (nonce_suffix st) /\ binding st' = binding st /\
    packet_nonce_suffix o = nonce_suffix st /\ packet_rtp o = spec_header (plain_spec st frame marker) /\
    length packet = (32 + length frame)%nat /\ packet_bytes o = length packet /\ payload_bytes o = length frame /\
    header_parse packet = Ok (packet_rtp o) /\ decrypt_payload_into t packet (packet_rtp o) = Ok frame.
Proof.
  intros Hst Hf. pose proof Hst as (Hs&Ht&Hn&Hb).
  destruct (packet_spec_received t (plain_spec st frame marker) (nonce_suffix st) (plain_spec_ok _ _ _ Hst Hf) Hn)
    as (ct&tag&Henc&Hparse&Hdec).
  unfold build_packet. destruct frame as [|b frame]; [by destruct Hf as [[] _]|]. set (fr := b :: frame) in *.
  unfold encrypt_payload. cbn [header_write_to builder_marker builder_new hb_fields hb_marker op_header op_marker op_nonce_suffix].
  cbn [app]. unfold cipher_encrypt_in_place_detached.
  assert (spec_clear (plain_spec st fr marker) = Z.shiftl RTP_VERSION 6 mod 256 ::
    marker_byte (binding_payload_type (binding st)) marker :: to_be 2 (out_seq st) ++ to_be 4 (out_timestamp st) ++
    to_be 4 (bind_ssrc (binding st))) as Hclear.
  { reflexivity. }
  assert (spec_body (plain_spec st fr marker) = fr) as Hbody by (unfold spec_body; simpl; by rewrite app_nil_r).
  rewrite Hclear, Hbody in Henc. cbn [hf_seq hf_timestamp hf_ssrc hf_payload_type]. rewrite Henc.
  cbn [mbind res_mbind].
  destruct (aead_encrypt_len _ _ _ _ _ _ _ Henc) as (Hct&Htag&_).
  do 3 eexists. split; [reflexivity|]. cbn [out_seq out_timestamp nonce_suffix binding packet_rtp packet_nonce_suffix payload_bytes packet_bytes].
  rewrite Hclear in Hparse, Hdec.
  split; [|split; [|split; [|split; [|split; [|split; [|split; [|split; [|split; [|split; [|split]]]]]]]]]]; try done.
  - repeat split; try (apply wrapping_add_range; unfold u16_mod, u32_mod; lia); try done;
      case_match; try apply Ht; apply wrapping_add_range; unfold u32_mod; lia.
  - cbn [app length]. rewrite !length_app, !length_to_be, Hct, Htag. unfold AEAD_TAG_LEN, suffix_to_be_bytes. rewrite length_to_be. lia.
Qed.

(** ** Runs of a stream *)
Definition clock_advance (b : OutboundCodecBinding) (e : bytes * bool * Z) : Z :=
  if bool_decide (binding_media_type b = Audio) || e.1.2 then timestamp_increment (sample_rate b) e.2 else 0.

Definition clock_total (b : OutboundCodecBinding) (l : list (bytes * bool * Z)) : Z :=
  foldr (fun e acc => clock_advance b e + acc) 0 l.

(** What the [i]-th packet of a run must be. *)
Definition delivered (t : TransportCrypto) (st : OutboundRtpState) (l : list (bytes * bool * Z)) (i : nat)
    (o : OutboundPacket) (packet : bytes) : Prop :=
  exists frame m d, l !! i = Some (frame, m, d) /\
    packet_nonce_suffix o = wrapping_add u32_mod (nonce_suffix st) (Z.of_nat i) /\
    seq (packet_rtp o) = wrapping_add u16_mod (out_seq st) (Z.of_nat i) /\
    timestamp (packet_rtp o) = wrapping_add u32_mod (out_timestamp st) (clock_total (binding st) (take i l)) /\
    marker (packet_rtp o) = m /\ ssrc (packet_rtp o) = bind_ssrc (binding st) /\
    header_parse packet = Ok (packet_rtp o) /\ decrypt_payload_into t packet (packet_rtp o) = Ok frame.

Lemma wrapping_add_0 m a : 0 <= a < m -> wrapping_add m a 0 = a.
Proof. intros. unfold wrapping_add. rewrite Z.add_0_r. by apply Z.mod_small. Qed.

Lemma wrapping_add_assoc m a b c : m ≠ 0 -> wrapping_add m (wrapping_add m a b) c = wrapping_add m a (b + c).
Proof. intros. unfold wrapping_add. rewrite Zplus_mod_idemp_l. f_equal. lia. Qed.

Lemma timestamp_after_advance st frame m d : state_ok st ->
  timestamp_after st m d = wrapping_add u32_mod (out_timestamp st) (clock_advance (binding st) (frame, m, d)).
Proof.
  intros (_&Ht&_). unfold timestamp_after, clock_advance. cbn [fst snd].
  case_match; [done|]. symmetry. by apply wrapping_add_0.
Qed.

Lemma build_all_delivers t l st :
  state_ok st -> Forall (fun e => sendable e.1.1) l ->
  exists st' out, build_all t l st = Ok (st', out) /\ state_ok st' /\ length out = length l /\
    forall i o packet, out !! i = Some (o, packet) -> delivered t st l i o packet.
Proof.
  revert st. induction l as [|[[frame m] d] l IH]; intros st Hst Hl.
  { exists st, []. repeat split; [apply Hst..|]. intros i o packet. by rewrite lookup_nil. }
  apply Forall_cons in Hl as [Hf Hl].
  destruct (build_packet_ok t frame m d st Hst Hf) as (st1&o&packet&Hb&Hst1&Hseq&Hts&Hn&Hbind&Hon&Hrtp&_&_&_&Hp&Hd).
  destruct (IH st1 Hst1 Hl) as (st'&out&Hall&Hst'&Hlen&Hout).
  exists st', ((o, packet) :: out). simpl. rewrite Hb. cbn [mbind res_mbind]. rewrite Hall. cbn [mbind res_mbind].
  split; [done|]. split; [done|]. split; [simpl; lia|]. intros [|i] o' packet'; simpl.
  - intros [= <- <-]. exists frame, m, d. pose proof Hst as (Hs&Ht&Hsf&_). rewrite !wrapping_add_0 by done.
    rewrite Hrtp in *. repeat split; auto.
  - intros (f'&m'&d'&Hi&Hn'&Hs'&Ht'&Hm'&Hss'&Hp'&Hd')%Hout. exists f', m', d'. split; [done|].
    rewrite Hn', Hs', Ht', Hn, Hseq, Hts, Hss', Hbind, (timestamp_after_advance st frame) by done.
    unfold suffix_increment. rewrite !wrapping_add_assoc by done.
    repeat split; auto; f_equal; lia.
Qed.

Lemma rtpsize_nonce_inj n a b : is_u32 a -> is_u32 b -> rtpsize_nonce n a = rtpsize_nonce n b -> a = b.
Proof.
  intros Ha Hb Heq%(f_equal (fun l => from_be (take 4 l))). unfold rtpsize_nonce, suffix_to_be_bytes in Heq.
  rewrite !take_app_length' in Heq by (by rewrite length_to_be). by rewrite !from_to_be_u32 in Heq.
Qed.

(** C17. One outbound stream: from any state, a run over up to 2^32 non-empty
    payloads succeeds; packet [i] carries sequence number [seq + i] mod 2^16,
    the stream's source, and a timestamp advanced by the durations of the
    audio packets (for video: of the frames already ended by a marker); the
    receiver reads its header back and decrypts exactly its payload; and no
    two packets of the run are encrypted under the same nonce. *)
Theorem outbound_stream t l st :
  state_ok st -> Forall (fun e => sendable e.1.1) l -> Z.of_nat (length l) <= 2 ^ 32 ->
  exists st' out, build_all t l st = Ok (st', out) /\ length out = length l /\
    (forall i o packet, out !! i = Some (o, packet) -> delivered t st l i o packet) /\
    NoDup ((fun e : OutboundPacket * bytes => rtpsize_nonce (nonce_size (mode t)) (packet_nonce_suffix e.1)) <$> out).
Proof.
  intros Hst Hl Hn. destruct (build_all_delivers t l st Hst Hl) as (st'&out&Hall&_&Hlen&Hout).
  exists st', out. repeat split; [done..|]. apply NoDup_alt. intros i j x Hi Hj.
  apply list_lookup_fmap_Some in Hi as ([oi pi]&->&Hi). apply list_lookup_fmap_Some in Hj as ([oj pj]&Heq&Hj).
  pose proof (lookup_lt_Some _ _ _ Hi). pose proof (lookup_lt_Some _ _ _ Hj).
  apply Hout in Hi as (?&?&?&_&Hni&_). apply Hout in Hj as (?&?&?&_&Hnj&_). simpl in Heq.
  apply rtpsize_nonce_inj in Heq; [|rewrite ?Hni, ?Hnj; apply wrapping_add_range; unfold u32_mod; lia..].
  rewrite Hni, Hnj in Heq. unfold wrapping_add in Heq. destruct Hst as (_&_&Hs&_). unfold is_u32, u32_mod in *.
  Z.div_mod_to_equations. lia.
Qed.

(** C40. The streams of a connection do not share a nonce sequence: the audio
    and the video stream start at independent random suffixes and encrypt
    under the same transport key, so for every two states the first stream
    reaches a packet whose nonce is the one the second stream uses for its
    next packet. *)
Theorem streams_share_nonces t l sa sv frame m d :
  state_ok sa -> state_ok sv -> Forall (fun e => sendable e.1.1) l -> sendable frame ->
  Z.of_nat (length l) = wrapping_sub u32_mod (nonce_suffix sv) (nonce_suffix sa) + 1 ->
  exists sa' out oa pa sv' ov pv, build_all t l sa = Ok (sa', out) /\ last out = Some (oa, pa) /\
    build_packet t frame m d sv = Ok (sv', ov, pv) /\
    rtpsize_nonce (nonce_size (mode t)) (packet_nonce_suffix oa) =
      rtpsize_nonce (nonce_size (mode t)) (packet_nonce_suffix ov).
Proof.
  intros Hsa Hsv Hl Hf Hlen. destruct (build_all_delivers t l sa Hsa Hl) as (sa'&out&Hall&_&Hout&Hd).
  destruct (build_packet_ok t frame m d sv Hsv Hf) as (sv'&ov&pv&Hb&_&_&_&_&_&Hnv&_).
  pose proof (wrapping_sub_range u32_mod (nonce_suffix sv) (nonce_suffix sa) ltac:(done)) as Hr.
  destruct (lookup_lt_is_Some_2 out (pred (length out))) as [[oa pa] Hlast]; [lia|].
  exists sa', out, oa, pa, sv', ov, pv. rewrite last_lookup. split; [done|]. split; [done|]. split; [done|].
  apply Hd in Hlast as (?&?&?&_&->&_). rewrite Hnv. f_equal. rewrite Hout.
  replace (Z.of_nat (pred (length l))) with (wrapping_sub u32_mod (nonce_suffix sv) (nonce_suffix sa)) by lia.
  unfold wrapping_add, wrapping_sub. rewrite Zplus_mod_idemp_r. replace (nonce_suffix sa + _) with (nonce_suffix sv) by lia.
  apply Z.mod_small. apply Hsv.
Qed.
End Theory.

(** ** Heartbeats and addresses *)

(** The nonce stays a safe integer of a JavaScript peer and changes with every
    heartbeat. *)
Lemma heartbeat_next_safe n :
  0 <= n < JS_MAX_SAFE_INTEGER -> 0 <= heartbeat_next n < JS_MAX_SAFE_INTEGER /\ heartbeat_next n ≠ n.
Proof.
  unfold heartbeat_next, wrapping_add, JS_MAX_SAFE_INTEGER, u64_mod. intros Hn.
  rewrite (Z.mod_small (n + 1)) by lia. split; [apply Z.mod_pos_bound; lia|]. Z.div_mod_to_equations. lia.
Qed.

Section AddressTheory.
Context {Addr : Type} `{EqDecision Addr} (is_ipv4 : Addr -> bool).

(** The two buckets of the loop. *)
Definition bucket_ok (v4 v6 : list Addr) : Prop :=
  NoDup v4 /\ NoDup v6 /\ Forall (fun a => is_ipv4 a = true) v4 /\ Forall (fun a => is_ipv4 a = false) v6.

Lemma NoDup_snoc_fresh (l : list Addr) a : NoDup l -> a ∉ l -> NoDup (l ++ [a]).
Proof. intros Hl Ha. apply NoDup_app. repeat split; [done| |apply NoDup_singleton]. set_solver. Qed.

Lemma ordered_loop_split l v4 v6 : bucket_ok v4 v6 ->
  exists w4 w6, ordered_loop is_ipv4 l v4 v6 = w4 ++ w6 /\ bucket_ok w4 w6 /\
    forall a, a ∈ w4 ++ w6 <-> a ∈ l \/ a ∈ v4 ++ v6.
Proof.
  revert v4 v6. induction l as [|a l IH]; intros v4 v6 Hb; simpl; [exists v4, v6; set_solver|].
  destruct Hb as (H4&H6&F4&F6). destruct (is_ipv4 a) eqn:Ha; case_bool_decide as Hin.
  1, 3: destruct (IH v4 v6 ltac:(done)) as (w4&w6&->&Hw&Hel); exists w4, w6; set_solver.
  - destruct (IH (v4 ++ [a]) v6) as (w4&w6&->&Hw&Hel); [|exists w4, w6; set_solver].
    repeat split; auto using NoDup_snoc_fresh. apply Forall_app. auto.
  - destruct (IH v4 (v6 ++ [a])) as (w4&w6&->&Hw&Hel); [|exists w4, w6; set_solver].
    repeat split; auto using NoDup_snoc_fresh. apply Forall_app. auto.
Qed.

(** The connection attempts try each resolved address once, all IPv4
    addresses before the IPv6 ones. *)
Theorem ordered_addrs_exact l :
  exists v4 v6, ordered_voice_socket_addrs is_ipv4 l = v4 ++ v6 /\ NoDup (v4 ++ v6) /\
    (forall a, a ∈ v4 <-> a ∈ l /\ is_ipv4 a = true) /\ (forall a, a ∈ v6 <-> a ∈ l /\ is_ipv4 a = false).
Proof.
  destruct (ordered_loop_split l [] []) as (v4&v6&Heq&(H4&H6&F4&F6)&Hel); [repeat split; constructor|].
  exists v4, v6. rewrite Forall_forall in F4, F6. split; [done|]. split; [|split].
  - apply NoDup_app. repeat split; [done| |done]. intros a Ha%F4 Hb%F6. congruence.
  - intros a. specialize (Hel a). rewrite elem_of_app in Hel. specialize (F4 a). specialize (F6 a).
    destruct (is_ipv4 a); set_solver.
  - intros a. specialize (Hel a). rewrite elem_of_app in Hel. specialize (F4 a). specialize (F6 a).
    destruct (is_ipv4 a); set_solver.
Qed.
End AddressTheory.

(** ** Witnesses *)
Module OutboundSamples.
Import SampleAead.

Definition audio_state : OutboundRtpState :=
  {| out_seq := 65535; out_timestamp := 0; nonce_suffix := 4294967295; binding := binding_new Opus 9 |}.
Definition video_state : OutboundRtpState :=
  {| out_seq := 3; out_timestamp := 0; nonce_suffix := 0; binding := binding_new H264 10 |}.
Definition audio_frames : list (bytes * bool * Z) := [([1; 2], false, 20000000); ([3], false, 20000000)].

Lemma audio_state_ok : state_ok audio_state.
Proof. split; [done|split; [done|split; [done|]]]. exists Opus, 9. by split. Qed.

Lemma video_state_ok : state_ok video_state.
Proof. split; [done|split; [done|split; [done|]]]. exists H264, 10. by split. Qed.

Lemma audio_frames_ok : Forall (fun e : bytes * bool * Z => sendable e.1.1) audio_frames.
Proof. repeat constructor; done. Qed.

Lemma outbound_stream_witness :
  exists st' out, build_all sample_transport audio_frames audio_state = Ok (st', out) /\ length out = length audio_frames /\
    (forall i o packet, out !! i = Some (o, packet) -> delivered sample_transport audio_state audio_frames i o packet) /\
    NoDup ((fun e : OutboundPacket * bytes => rtpsize_nonce (nonce_size (mode sample_transport)) (packet_nonce_suffix e.1)) <$> out).
Proof.
  apply (outbound_stream sample_transport audio_frames audio_state); [apply audio_state_ok|apply audio_frames_ok|simpl; lia].
Defined.

Lemma streams_share_nonces_witness :
  exists sa' out oa pa sv' ov pv, build_all sample_transport audio_frames audio_state = Ok (sa', out) /\ last out = Some (oa, pa) /\
    build_packet sample_transport [7] true 33000000 video_state = Ok (sv', ov, pv) /\
    rtpsize_nonce (nonce_size (mode sample_transport)) (packet_nonce_suffix oa) =
      rtpsize_nonce (nonce_size (mode sample_transport)) (packet_nonce_suffix ov).
Proof.
  apply (streams_share_nonces sample_transport audio_frames audio_state video_state [7] true 33000000);
    [apply audio_state_ok|apply video_state_ok|apply audio_frames_ok|by split|reflexivity].
Defined.
End OutboundSamples.
End Outbound.
