(* ===== verification/RtpPayload.v ===== *)
(** * RTP payload formats

    [rtp_payload.rs]: cutting an encoded frame into RTP payloads of at most
    1200 bytes ([RtpPayloadPacketizer]) and reading such payloads back
    ([ParsedRtpPayload]), for Opus, VP8, VP9, H.264, H.265 and AV1.  Slices and
    index accesses are panicking accesses; a loop that runs out of its fuel is
    a [Panic] too, so the totality theorems show both.  A [usize] has 64 bits. *)

From Stdlib Require Import String.
From S2P Require Import Prelude Leb128 Codec Frame FrameCodec Rtp.
#[local] Open Scope Z_scope.
Import Codec.AnnexB Rtp.Rtp.

Module RtpPayload.

Definition RTP_MEDIA_PAYLOAD_MAX_BYTES : nat := 1200.

Definition malformed (c : MediaCodec) (reason : string) : RtpError := MalformedPayload c reason.

(** ** VP8 and VP9 fragments *)
Inductive FragmentedPayloadHeader := HeaderVp8 | HeaderVp9.

Definition fragment_header_len (h : FragmentedPayloadHeader) : nat := match h with HeaderVp8 | HeaderVp9 => 1 end.

Definition header_write (h : FragmentedPayloadHeader) (first last : bool) : bytes :=
  match h with
  | HeaderVp8 => [if first then 0x10 else 0]
  | HeaderVp9 => [Z.lor (if first then 0x08 else 0) (if last then 0x04 else 0)]
  end.

(** The marker and payload of the next packet ([None] at the end) and the new offset. *)
Definition next_fragmented_payload (c : MediaCodec) (frame : bytes) (offset : nat) (h : FragmentedPayloadHeader)
    : res RtpError (option (bool * bytes) * nat) :=
  if (length frame <=? offset)%nat then Ok (None, offset)
  else if (RTP_MEDIA_PAYLOAD_MAX_BYTES <=? fragment_header_len h)%nat then
    Err (PayloadTooLarge c (length frame) RTP_MEDIA_PAYLOAD_MAX_BYTES)
  else
    let chunk_len := (RTP_MEDIA_PAYLOAD_MAX_BYTES - fragment_header_len h)%nat in
    let stop := Nat.min (offset + chunk_len) (length frame) in
    let first := (offset =? 0)%nat in
    let last := (stop =? length frame)%nat in
    chunk ← slice frame offset stop;
    Ok (Some (last, header_write h first last ++ chunk), stop).

(** ** H.264 and H.265 *)
Record H26xFragmentPayload := {
  starts_fragment : bool; completes_fragment : bool; nalu_header : bytes; nalu_header_len : nat;
  fragment_bytes : bytes }.

(** The trait [H26xRtpPayload]. *)
Record H26xRtpPayload := {
  CODEC : MediaCodec;
  AGGREGATION_PAYLOAD_OFFSET : nat;
  FRAGMENT_HEADER_LEN : nat;
  UNSUPPORTED_RTP_NAL_UNIT_TYPE : string;
  fragment_payload : bytes -> res RtpError bytes;
  is_aggregation_nalu_type : Z -> bool;
  is_fragment_nalu_type : Z -> bool;
  is_single_nalu_type : Z -> bool;
  parse_fragment_payload : bytes -> res RtpError H26xFragmentPayload;
  rtp_nalu_type : bytes -> res RtpError Z;
  write_fragment_header : bytes -> bool -> bool -> res RtpError bytes }.

Definition h264_fragment_payload (nalu : bytes) : res RtpError bytes :=
  if (1 <=? length nalu)%nat then Ok (drop 1 nalu) else Err (malformed H264 "empty H264 NAL unit").

Definition h264_parse_fragment_payload (payload : bytes) : res RtpError H26xFragmentPayload :=
  if (length payload <? 3)%nat then Err (malformed H264 "truncated H264 FU-A payload")
  else
    fu_indicator ← index payload 0;
    fu_header ← index payload 1;
    rest ← slice payload 2 (length payload);
    Ok {| starts_fragment := has_bits fu_header 0x80; completes_fragment := has_bits fu_header 0x40;
          nalu_header := [Z.lor (Z.land fu_indicator 0xe0) (Z.land fu_header 0x1f); 0];
          nalu_header_len := 1; fragment_bytes := rest |}.

Definition h264_rtp_nalu_type (payload : bytes) : res RtpError Z :=
  ok_or (malformed H264 "empty H264 payload") (FrameCodec.nal_type (H26xFrameCodec := FrameCodec.H264_codec) <$> head payload).

Definition h264_write_fragment_header (nalu : bytes) (first last : bool) : res RtpError bytes :=
  match nalu with
  | [] => Err (malformed H264 "empty H264 NAL unit")
  | h :: _ => Ok [Z.lor (Z.land h 0xe0) 28;
                  Z.lor (Z.lor (if first then 0x80 else 0) (if last then 0x40 else 0)) (Z.land h 0x1f)]
  end.

Definition H264_rtp : H26xRtpPayload := {|
  CODEC := H264; AGGREGATION_PAYLOAD_OFFSET := 1; FRAGMENT_HEADER_LEN := 2;
  UNSUPPORTED_RTP_NAL_UNIT_TYPE := "unsupported H264 RTP NAL unit type";
  fragment_payload := h264_fragment_payload;
  is_aggregation_nalu_type t := t =? 24; is_fragment_nalu_type t := t =? 28;
  is_single_nalu_type t := (1 <=? t) && (t <=? 23);
  parse_fragment_payload := h264_parse_fragment_payload; rtp_nalu_type := h264_rtp_nalu_type;
  write_fragment_header := h264_write_fragment_header |}.

Definition h265_fragment_payload (nalu : bytes) : res RtpError bytes :=
  if (length nalu <? 2)%nat then Err (malformed H265 "truncated H265 NAL header")
  else slice nalu 2 (length nalu).

Definition h265_parse_fragment_payload (payload : bytes) : res RtpError H26xFragmentPayload :=
  if (length payload <? 4)%nat then Err (malformed H265 "truncated H265 FU payload")
  else
    i0 ← index payload 0;
    i1 ← index payload 1;
    fu_header ← index payload 2;
    rest ← slice payload 3 (length payload);
    Ok {| starts_fragment := has_bits fu_header 0x80; completes_fragment := has_bits fu_header 0x40;
          nalu_header := [Z.lor (Z.land i0 0x81) (Z.shiftl (Z.land fu_header 0x3f) 1 mod 256); i1];
          nalu_header_len := 2; fragment_bytes := rest |}.

Definition h265_rtp_nalu_type (payload : bytes) : res RtpError Z :=
  if (length payload <? 2)%nat then Err (malformed H265 "truncated H265 payload header")
  else h ← index payload 0; Ok (FrameCodec.nal_type (H26xFrameCodec := FrameCodec.H265_codec) h).

Definition h265_write_fragment_header (nalu : bytes) (first last : bool) : res RtpError bytes :=
  if (length nalu <? 2)%nat then Err (malformed H265 "truncated H265 NAL header")
  else
    h0 ← index nalu 0;
    h1 ← index nalu 1;
    Ok [Z.lor (Z.land h0 0x81) (Z.shiftl 49 1); h1;
        Z.lor (Z.lor (if first then 0x80 else 0) (if last then 0x40 else 0)) (Z.shiftr (Z.land h0 0x7e) 1)].

Definition H265_rtp : H26xRtpPayload := {|
  CODEC := H265; AGGREGATION_PAYLOAD_OFFSET := 2; FRAGMENT_HEADER_LEN := 3;
  UNSUPPORTED_RTP_NAL_UNIT_TYPE := "unsupported H265 RTP NAL unit type";
  fragment_payload := h265_fragment_payload;
  is_aggregation_nalu_type t := t =? 48; is_fragment_nalu_type t := t =? 49;
  is_single_nalu_type t := t <=? 47;
  parse_fragment_payload := h265_parse_fragment_payload; rtp_nalu_type := h265_rtp_nalu_type;
  write_fragment_header := h265_write_fragment_header |}.

Record H26xPacketizer := { pk_nalus : AnnexBNalus; pk_nalu : option bytes; pk_fragment_offset : nat }.

Definition h26x_new (C : H26xRtpPayload) (frame : bytes) : res RtpError H26xPacketizer :=
  it ← nalus frame;
  '(n, it) ← iter_next it;
  match n with
  | None => Err (malformed (CODEC C) "missing Annex B start code")
  | Some nalu => Ok {| pk_nalus := it; pk_nalu := Some nalu; pk_fragment_offset := 0 |}
  end.

Definition h26x_next_payload (C : H26xRtpPayload) (p : H26xPacketizer)
    : res RtpError (option (bool * bytes) * H26xPacketizer) :=
  match pk_nalu p with
  | None => Ok (None, p)
  | Some nalu =>
      let last_nalu := is_empty (pk_nalus p) in
      if (length nalu <=? RTP_MEDIA_PAYLOAD_MAX_BYTES)%nat then
        '(n, it) ← iter_next (pk_nalus p);
        Ok (Some (last_nalu, nalu), {| pk_nalus := it; pk_nalu := n; pk_fragment_offset := pk_fragment_offset p |})
      else if (RTP_MEDIA_PAYLOAD_MAX_BYTES <=? FRAGMENT_HEADER_LEN C)%nat then
        Err (PayloadTooLarge (CODEC C) (length nalu) RTP_MEDIA_PAYLOAD_MAX_BYTES)
      else
        nalu_payload ← fragment_payload C nalu;
        let stop := Nat.min (pk_fragment_offset p + (RTP_MEDIA_PAYLOAD_MAX_BYTES - FRAGMENT_HEADER_LEN C)) (length nalu_payload) in
        let first := (pk_fragment_offset p =? 0)%nat in
        let last := (stop =? length nalu_payload)%nat in
        header ← write_fragment_header C nalu first last;
        chunk ← slice nalu_payload (pk_fragment_offset p) stop;
        p' ← (if last then
                '(n, it) ← iter_next (pk_nalus p);
                Ok {| pk_nalus := it; pk_nalu := n; pk_fragment_offset := 0 |}
              else Ok {| pk_nalus := pk_nalus p; pk_nalu := pk_nalu p; pk_fragment_offset := stop |});
        Ok (Some (last_nalu && last, header ++ chunk), p')
  end.

(** ** AV1 *)

(** The index behind the OBU at [offset].  Both checks of the last expression
    (overflow of [usize] and the end of the frame) give the same error. *)
Definition av1_obu_end (c : MediaCodec) (frame : bytes) (offset : nat) : res RtpError nat :=
  match frame !! offset with
  | None => Err (malformed c "missing AV1 OBU header")
  | Some header =>
      let idx := (offset + 1 + if has_bits header 0x04 then 1 else 0)%nat in
      if (length frame <? idx)%nat then Err (malformed c "truncated AV1 OBU extension")
      else if negb (has_bits header 0x02) then Ok (length frame)
      else
        rest ← slice frame idx (length frame);
        d ← ok_or (malformed c "invalid AV1 OBU size") (Uleb128.read rest);
        let idx := (idx + Uleb128.len d)%nat in
        if Z.of_nat idx + Uleb128.value d <=? Z.of_nat (length frame)
        then Ok (idx + Z.to_nat (Uleb128.value d))%nat
        else Err (malformed c "truncated AV1 OBU payload")
  end.

Record Av1Cursor := { obu_start : nat; obu_end : nat; av1_fragment_offset : nat }.

Definition next_av1_payload (c : MediaCodec) (frame : bytes) (cur : Av1Cursor)
    : res RtpError (option (bool * bytes) * Av1Cursor) :=
  if (length frame <=? obu_start cur)%nat then Ok (None, cur)
  else if (RTP_MEDIA_PAYLOAD_MAX_BYTES <=? 1)%nat then
    Err (PayloadTooLarge c (length frame) RTP_MEDIA_PAYLOAD_MAX_BYTES)
  else
    e ← (if (av1_fragment_offset cur =? 0)%nat then av1_obu_end c frame (obu_start cur) else Ok (obu_end cur));
    let chunk_len := (RTP_MEDIA_PAYLOAD_MAX_BYTES - 1)%nat in
    let offset := (obu_start cur + av1_fragment_offset cur)%nat in
    let stop := Nat.min (offset + chunk_len) e in
    let first := (av1_fragment_offset cur =? 0)%nat in
    let last_fragment := (stop =? e)%nat in
    let last_obu := (e =? length frame)%nat in
    chunk ← slice frame offset stop;
    let header := Z.lor (Z.lor (if negb first then 0x80 else 0) (if negb last_fragment then 0x40 else 0)) 0x10 in
    let cur' := if last_fragment then {| obu_start := e; obu_end := e; av1_fragment_offset := 0 |}
                else {| obu_start := obu_start cur; obu_end := e;
                        av1_fragment_offset := av1_fragment_offset cur + (stop - offset) |} in
    Ok (Some (last_obu && last_fragment, header :: chunk), cur').

(** ** The packetizer *)
Inductive RtpPayloadPacketizerState :=
| Single (frame : bytes) (marker emitted : bool)
| Fragmented (frame : bytes) (offset : nat) (header : FragmentedPayloadHeader)
| PacketH264 (p : H26xPacketizer)
| PacketH265 (p : H26xPacketizer)
| PacketAv1 (frame : bytes) (cur : Av1Cursor)
| Done.

Record RtpPayloadPacketizer := { pk_codec : MediaCodec; pk_state : RtpPayloadPacketizerState }.

(** [DiscordCodec::packetizer_state] of each codec. *)
Definition packetizer_state (c : MediaCodec) (frame : bytes) : res RtpError RtpPayloadPacketizerState :=
  match c with
  | Opus => Ok (Single frame false false)
  | Vp8 => Ok (Fragmented frame 0 HeaderVp8)
  | Vp9 => Ok (Fragmented frame 0 HeaderVp9)
  | H264 => p ← h26x_new H264_rtp frame; Ok (PacketH264 p)
  | H265 => p ← h26x_new H265_rtp frame; Ok (PacketH265 p)
  | Av1 => Ok (PacketAv1 frame {| obu_start := 0; obu_end := 0; av1_fragment_offset := 0 |})
  end.

Definition packetizer_new (c : MediaCodec) (frame : bytes) : res RtpError RtpPayloadPacketizer :=
  match frame with
  | [] => Err (malformed c "empty encoded frame")
  | _ => st ← packetizer_state c frame; Ok {| pk_codec := c; pk_state := st |}
  end.

Definition packetizer_next (p : RtpPayloadPacketizer) : res RtpError (option (bool * bytes) * RtpPayloadPacketizer) :=
  '(o, st) ← match pk_state p with
    | Single frame marker emitted =>
        if emitted : bool then Ok (None, Done)
        else if (RTP_MEDIA_PAYLOAD_MAX_BYTES <? length frame)%nat then
          Err (PayloadTooLarge (pk_codec p) (length frame) RTP_MEDIA_PAYLOAD_MAX_BYTES)
        else Ok (Some (marker, frame), Single frame marker true)
    | Fragmented frame offset header =>
        '(o, offset) ← next_fragmented_payload (pk_codec p) frame offset header; Ok (o, Fragmented frame offset header)
    | PacketH264 q => '(o, q) ← h26x_next_payload H264_rtp q; Ok (o, PacketH264 q)
    | PacketH265 q => '(o, q) ← h26x_next_payload H265_rtp q; Ok (o, PacketH265 q)
    | PacketAv1 frame cur => '(o, cur) ← next_av1_payload (pk_codec p) frame cur; Ok (o, PacketAv1 frame cur)
    | Done => Ok (None, Done)
    end;
  Ok (o, {| pk_codec := pk_codec p; pk_state := match o with None => Done | Some _ => st end |}).

(** The loop of [send_ready_media_frame] over the packetizer. *)
Fixpoint packetize_loop (fuel : nat) (p : RtpPayloadPacketizer) : res RtpError (list (bool * bytes)) :=
  match fuel with
  | O => Panic
  | S fuel =>
      '(o, p) ← packetizer_next p;
      match o with
      | None => Ok []
      | Some e => l ← packetize_loop fuel p; Ok (e :: l)
      end
  end.

(** Every payload carries at least one byte of the frame. *)
Definition packetize (c : MediaCodec) (frame : bytes) : res RtpError (list (bool * bytes)) :=
  p ← packetizer_new c frame; packetize_loop (length frame + 1) p.

(** ** Reading payloads *)
Inductive DepacketizedPayload :=
| Raw (payload : bytes)
| H26xNal (nalu : bytes)
| H26xAggregation (codec : MediaCodec) (payload : bytes)
| H26xFragment (f : H26xFragmentPayload)
| Av1Elements (w : Z) (payload : bytes).

Record ParsedRtpPayload := { starts_frame : bool; completes_frame : bool; depacketized : DepacketizedPayload }.

Definition vp8_descriptor (payload : bytes) : res RtpError (nat * bool) :=
  match head payload with
  | None => Err (malformed Vp8 "empty VP8 payload")
  | Some first =>
      len ← (if has_bits first 0x80 then
               match payload !! 1%nat with
               | None => Err (malformed Vp8 "truncated VP8 extension flags")
               | Some extension =>
                   len ← (if has_bits extension 0x80 then
                            match payload !! 2%nat with
                            | None => Err (malformed Vp8 "truncated VP8 picture id")
                            | Some picture_id => Ok (2 + if has_bits picture_id 0x80 then 2 else 1)%nat
                            end
                          else Ok 2%nat);
                   Ok (len + (if has_bits extension 0x40 then 1 else 0) + if has_bits extension 0x30 then 1 else 0)%nat
               end
             else Ok 1%nat);
      if (length payload <? len)%nat then Err (malformed Vp8 "truncated VP8 payload descriptor")
      else Ok (len, has_bits first 0x10 && (Z.land first 0x0f =? 0))
  end.

(** [for _ in 0..pictures] *)
Fixpoint vp9_pictures (n : nat) (payload : bytes) (len : nat) : res RtpError nat :=
  match n with
  | O => Ok len
  | S n =>
      match payload !! len with
      | None => Err (malformed Vp9 "truncated VP9 picture group entry")
      | Some picture => vp9_pictures n payload (len + (1 + Z.to_nat (Z.land picture 0x03)))
      end
  end.

Definition skip_vp9_scalability_structure (payload : bytes) (len : nat) : res RtpError nat :=
  match payload !! len with
  | None => Err (malformed Vp9 "truncated VP9 scalability structure")
  | Some header =>
      let spatial_layers := (Z.to_nat (Z.land header 0x07) + 1)%nat in
      let len := (len + 1 + if has_bits header 0x10 then spatial_layers * 4 else 0)%nat in
      if has_bits header 0x08 then
        match payload !! len with
        | None => Err (malformed Vp9 "truncated VP9 picture group")
        | Some pictures => vp9_pictures (Z.to_nat pictures) payload (len + 1)
        end
      else Ok len
  end.

(** The reference index loop; it leaves the payload after at most its length. *)
Fixpoint vp9_references (fuel : nat) (payload : bytes) (len : nat) : res RtpError nat :=
  match fuel with
  | O => Panic
  | S fuel =>
      match payload !! len with
      | None => Err (malformed Vp9 "truncated VP9 reference indices")
      | Some reference => if negb (has_bits reference 0x01) then Ok (len + 1)%nat else vp9_references fuel payload (len + 1)
      end
  end.

Record Vp9Descriptor := { vp9_len : nat; vp9_starts_frame : bool; vp9_completes_frame : bool }.

Definition vp9_descriptor (payload : bytes) : res RtpError Vp9Descriptor :=
  match head payload with
  | None => Err (malformed Vp9 "empty VP9 payload")
  | Some flags =>
      len ← (if has_bits flags 0x80 then
               match payload !! 1%nat with
               | None => Err (malformed Vp9 "truncated VP9 picture id")
               | Some picture_id => Ok (1 + if has_bits picture_id 0x80 then 2 else 1)%nat
               end
             else Ok 1%nat);
      let len := (len + if has_bits flags 0x20 then 1 + (if has_bits flags 0x10 then 0 else 1) else 0)%nat in
      len ← (if has_bits flags 0x10 && has_bits flags 0x40 then vp9_references (length payload + 1) payload len else Ok len);
      len ← (if has_bits flags 0x02 then skip_vp9_scalability_structure payload len else Ok len);
      if (length payload <? len)%nat then Err (malformed Vp9 "truncated VP9 payload descriptor")
      else Ok {| vp9_len := len; vp9_starts_frame := has_bits flags 0x08; vp9_completes_frame := has_bits flags 0x04 |}
  end.

Definition parse_h26x_payload (C : H26xRtpPayload) (payload : bytes) (marker has_partial_frame : bool)
    : res RtpError ParsedRtpPayload :=
  nalu_type ← rtp_nalu_type C payload;
  if is_single_nalu_type C nalu_type then
    Ok {| starts_frame := negb has_partial_frame; completes_frame := marker; depacketized := H26xNal payload |}
  else if is_aggregation_nalu_type C nalu_type then
    rest ← slice payload (AGGREGATION_PAYLOAD_OFFSET C) (length payload);
    Ok {| starts_frame := negb has_partial_frame; completes_frame := marker; depacketized := H26xAggregation (CODEC C) rest |}
  else if is_fragment_nalu_type C nalu_type then
    fragment ← parse_fragment_payload C payload;
    Ok {| starts_frame := starts_fragment fragment; completes_frame := marker && completes_fragment fragment;
          depacketized := H26xFragment fragment |}
  else Err (malformed (CODEC C) (UNSUPPORTED_RTP_NAL_UNIT_TYPE C)).

Definition parse_av1_payload (payload : bytes) (marker has_partial_frame : bool) : res RtpError ParsedRtpPayload :=
  match payload with
  | [] => Err (malformed Av1 "empty AV1 payload")
  | aggregation_header :: rest =>
      Ok {| starts_frame := negb has_partial_frame && (Z.land aggregation_header 0x80 =? 0); completes_frame := marker;
            depacketized := Av1Elements (Z.land (Z.shiftr aggregation_header 4) 0x03) rest |}
  end.

(** [ParsedRtpPayload::parse] through [DiscordCodec::parse_payload]. *)
Definition parse_payload (c : MediaCodec) (payload : bytes) (marker has_partial_frame : bool) : res RtpError ParsedRtpPayload :=
  match c with
  | Opus => Ok {| starts_frame := true; completes_frame := true; depacketized := Raw payload |}
  | Vp8 =>
      '(len, starts) ← vp8_descriptor payload;
      rest ← slice payload len (length payload);
      Ok {| starts_frame := starts; completes_frame := marker && (len <? length payload)%nat; depacketized := Raw rest |}
  | Vp9 =>
      d ← vp9_descriptor payload;
      rest ← slice payload (vp9_len d) (length payload);
      Ok {| starts_frame := vp9_starts_frame d; completes_frame := marker || vp9_completes_frame d; depacketized := Raw rest |}
  | H264 => parse_h26x_payload H264_rtp payload marker has_partial_frame
  | H265 => parse_h26x_payload H265_rtp payload marker has_partial_frame
  | Av1 => parse_av1_payload payload marker has_partial_frame
  end.

Definition append_annex_b_nalu (nalu frame : bytes) : bytes := frame ++ H26X_LONG_START_CODE ++ nalu.

Fixpoint append_h26x_aggregation (fuel : nat) (c : MediaCodec) (payload frame : bytes) : res RtpError bytes :=
  match fuel with
  | O => Panic
  | S fuel =>
      match payload with
      | [] => Ok frame
      | _ =>
          if (length payload <? 2)%nat then Err (malformed c "truncated H26x aggregation length")
          else
            b0 ← index payload 0;
            b1 ← index payload 1;
            let nalu_len := Z.to_nat (from_be [b0; b1]) in
            payload ← slice payload 2 (length payload);
            if (length payload <? nalu_len)%nat then Err (malformed c "truncated H26x aggregation NAL unit")
            else
              nalu ← slice payload 0 nalu_len;
              rest ← slice payload nalu_len (length payload);
              append_h26x_aggregation fuel c rest (append_annex_b_nalu nalu frame)
      end
  end.

Fixpoint append_av1_elements (fuel : nat) (w elements : Z) (payload frame : bytes) : res RtpError bytes :=
  match fuel with
  | O => Panic
  | S fuel =>
      match payload with
      | [] => Ok frame
      | _ =>
          let elements := Z.min (elements + 1) u8_max in
          if negb (w =? 0) && (elements =? w) then Ok (frame ++ payload)
          else
            d ← ok_or (malformed Av1 "invalid AV1 OBU length") (Uleb128.read payload);
            payload ← slice payload (Uleb128.len d) (length payload);
            if Z.of_nat (length payload) <? Uleb128.value d then Err (malformed Av1 "truncated AV1 OBU element")
            else
              obu ← slice payload 0 (Z.to_nat (Uleb128.value d));
              rest ← slice payload (Z.to_nat (Uleb128.value d)) (length payload);
              append_av1_elements fuel w elements rest (frame ++ obu)
      end
  end.

Definition append_av1_payload (w : Z) (payload frame : bytes) : res RtpError bytes :=
  if w =? 1 then Ok (frame ++ payload) else append_av1_elements (length payload + 1) w 0 payload frame.

Definition append_depacketized (p : DepacketizedPayload) (frame : bytes) : res RtpError bytes :=
  match p with
  | Raw payload => Ok (frame ++ payload)
  | H26xNal nalu => Ok (append_annex_b_nalu nalu frame)
  | H26xAggregation c payload => append_h26x_aggregation (length payload + 1) c payload frame
  | H26xFragment f =>
      frame ← (if starts_fragment f then
                 h ← slice (nalu_header f) 0 (nalu_header_len f); Ok (frame ++ H26X_LONG_START_CODE ++ h)
               else Ok frame);
      Ok (frame ++ fragment_bytes f)
  | Av1Elements w payload => append_av1_payload w payload frame
  end.

(** ** Reading is total *)
Lemma vp8_descriptor_safe l : safe (vp8_descriptor l) (fun d => 1 <= d.1 <= length l)%nat.
Proof.
  unfold vp8_descriptor. destruct (head l) as [b|]; [|done]. apply safe_bind.
  apply safe_mono with (fun n => 1 <= n)%nat.
  - destruct (has_bits b 0x80); simpl; [|lia]. destruct (l !! 1%nat) as [x|]; [|done]. apply safe_bind.
    destruct (has_bits x 0x80); simpl; [destruct (l !! 2%nat)|]; simpl; lia.
  - intros n Hn. destruct (Nat.ltb_spec (length l) n); simpl; [done|lia].
Qed.

Lemma vp9_pictures_safe n l len : safe (vp9_pictures n l len) (fun k => len <= k)%nat.
Proof.
  revert len. induction n as [|n IH]; intros len; simpl; [done|].
  destruct (l !! len); simpl; [|done]. eapply safe_mono; [apply IH|]. simpl. lia.
Qed.

Lemma vp9_scalability_safe l len : safe (skip_vp9_scalability_structure l len) (fun k => len <= k)%nat.
Proof.
  unfold skip_vp9_scalability_structure. destruct (l !! len); [|done].
  destruct (has_bits _ 0x08); simpl; [|lia]. destruct (l !! _); [|done].
  eapply safe_mono; [apply vp9_pictures_safe|]. simpl. lia.
Qed.

Lemma vp9_references_safe fuel l len :
  (length l < fuel + len)%nat -> (0 < fuel)%nat -> safe (vp9_references fuel l len) (fun k => len <= k)%nat.
Proof.
  revert len. induction fuel as [|fuel IH]; intros len Hf Hp; simpl; [lia|].
  destruct (l !! len) as [b|] eqn:Hl; simpl; [|done]. apply lookup_lt_Some in Hl.
  destruct (has_bits b 1); simpl; [|lia]. eapply safe_mono; [apply IH; lia|]. simpl. lia.
Qed.

Lemma vp9_descriptor_safe l : safe (vp9_descriptor l) (fun d => 1 <= vp9_len d <= length l)%nat.
Proof.
  unfold vp9_descriptor. destruct (head l) as [b|]; [|done]. apply safe_bind.
  apply safe_mono with (fun n => 1 <= n)%nat.
  { destruct (has_bits b 0x80); simpl; [|lia]. destruct (l !! 1%nat); simpl; [|done]. lia. }
  intros n Hn. apply safe_bind. match goal with |- context [vp9_references _ _ ?k] => set (m := k) end.
  assert (1 <= m)%nat by (unfold m; lia). clearbody m.
  apply safe_mono with (fun n => 1 <= n)%nat.
  { destruct (_ && _); simpl; [|lia]. eapply safe_mono; [apply vp9_references_safe; lia|]. simpl. lia. }
  intros k Hk. apply safe_bind. apply safe_mono with (fun n => 1 <= n)%nat.
  { destruct (has_bits b 2); simpl; [|lia]. eapply safe_mono; [apply vp9_scalability_safe|]. simpl. lia. }
  intros j Hj. destruct (Nat.ltb_spec (length l) j); simpl; [done|lia].
Qed.

(** What the parts of the trait must satisfy for the generic code to be total. *)
Record h26x_laws (C : H26xRtpPayload) : Prop := {
  law_type : forall l, safe (rtp_nalu_type C l) (fun _ => AGGREGATION_PAYLOAD_OFFSET C <= length l)%nat;
  law_fragment : forall l, safe (parse_fragment_payload C l)
    (fun f => length (nalu_header f) = 2%nat /\ (nalu_header_len f <= 2)%nat /\ fragment_bytes f = drop (FRAGMENT_HEADER_LEN C) l /\
              fragment_bytes f ≠ [] /\ (all_bytes l -> all_bytes (nalu_header f)));
  law_payload : forall n, safe (fragment_payload C n) (fun p => p = drop (FRAGMENT_HEADER_LEN C - 1) n /\ (FRAGMENT_HEADER_LEN C - 1 <= length n)%nat);
  law_write : forall n f l, safe (write_fragment_header C n f l) (fun h => length h = FRAGMENT_HEADER_LEN C);
  law_len : (2 <= FRAGMENT_HEADER_LEN C <= 3)%nat;
  law_long : forall n, (RTP_MEDIA_PAYLOAD_MAX_BYTES < length n)%nat ->
    (exists p, fragment_payload C n = Ok p) /\ forall f l, exists h, write_fragment_header C n f l = Ok h }.

Lemma h264_laws : h26x_laws H264_rtp.
Proof.
  split; simpl.
  - intros [|b l]; simpl; [done|lia].
  - intros l. unfold h264_parse_fragment_payload. destruct (Nat.ltb_spec (length l) 3); [done|].
    apply safe_bind, safe_index; [lia|intros x _]. apply safe_bind, safe_index; [lia|intros y _].
    apply safe_bind, safe_slice; [lia|lia|]. rewrite take_ge by (rewrite length_drop; lia). simpl. split; [done|]. split; [lia|]. split; [done|].
    split; [destruct l as [|? [|? [|? l]]]; simpl in *; try lia; done|]. intros _.
    constructor; [apply lor_byte; by apply land_byte|]. by constructor.
  - intros n. unfold h264_fragment_payload. destruct (Nat.leb_spec 1 (length n)); simpl; [|done]. split; [done|lia].
  - intros [|h n] f l; simpl; done.
  - lia.
  - intros [|h n]; simpl; [lia|]. intros _. split; by eexists.
Qed.

Lemma h265_laws : h26x_laws H265_rtp.
Proof.
  split; simpl.
  - intros l. unfold h265_rtp_nalu_type. destruct (Nat.ltb_spec (length l) 2); [done|].
    apply safe_bind, safe_index; [lia|]. simpl. lia.
  - intros l. unfold h265_parse_fragment_payload. destruct (Nat.ltb_spec (length l) 4); [done|].
    apply safe_bind, safe_index; [lia|intros ? _]. apply safe_bind, safe_index; [lia|intros ? Hi1]. apply safe_bind, safe_index; [lia|intros ? _].
    apply safe_bind, safe_slice; [lia|lia|]. rewrite take_ge by (rewrite length_drop; lia). simpl. split; [done|]. split; [lia|]. split; [done|].
    split; [destruct l as [|? [|? [|? [|? l]]]]; simpl in *; try lia; done|]. intros Hb.
    constructor; [apply lor_byte; [by apply land_byte|by apply Z.mod_pos_bound]|]. constructor; [|done]. exact (proj1 (Forall_lookup _ _) Hb _ _ Hi1).
  - intros n. unfold h265_fragment_payload. destruct (Nat.ltb_spec (length n) 2); [done|].
    apply safe_slice; [lia|lia|]. rewrite take_ge by (rewrite length_drop; lia). split; [done|lia].
  - intros n f l. unfold h265_write_fragment_header. destruct (Nat.ltb_spec (length n) 2); [done|].
    do 2 (apply safe_bind, safe_index; [lia|intros ? _]). done.
  - lia.
  - intros [|h [|h' n]]; simpl; try (unfold RTP_MEDIA_PAYLOAD_MAX_BYTES; simpl; lia). intros _.
    unfold h265_fragment_payload. simpl length. rewrite slice_ok by (simpl; lia). split; by eexists.
Qed.

(** The value is ready to be appended. *)
Definition depacketized_ok (p : DepacketizedPayload) : Prop :=
  match p with
  | H26xFragment f => length (nalu_header f) = 2%nat /\ (nalu_header_len f <= 2)%nat /\ all_bytes (nalu_header f) /\ all_bytes (fragment_bytes f)
  | Raw l | H26xNal l | H26xAggregation _ l | Av1Elements _ l => all_bytes l
  end.

Lemma parse_h26x_safe C l m has :
  h26x_laws C -> all_bytes l -> safe (parse_h26x_payload C l m has) (fun p => depacketized_ok (depacketized p)).
Proof.
  intros HC Hb. apply safe_bind. eapply safe_mono; [apply (law_type C HC)|]. intros t Hl.
  destruct (is_single_nalu_type C t); [exact Hb|]. destruct (is_aggregation_nalu_type C t).
  { apply safe_bind, safe_slice; simpl in *; [lia..|]. by apply Forall_take, Forall_drop. }
  destruct (is_fragment_nalu_type C t); [|done]. apply safe_bind.
  eapply safe_mono; [apply (law_fragment C HC)|]. simpl. intros f (H1 & H2 & -> & _ & H4).
  split; [done|]. split; [done|]. split; [by apply H4|by apply Forall_drop].
Qed.

Lemma parse_payload_safe c l m has : all_bytes l -> safe (parse_payload c l m has) (fun p => depacketized_ok (depacketized p)).
Proof.
  intros Hb. destruct c; simpl; [exact Hb| | |by apply parse_h26x_safe; [apply h264_laws|]|by apply parse_h26x_safe; [apply h265_laws|]|].
  - apply safe_bind. eapply safe_mono; [apply vp8_descriptor_safe|]. intros [n s] Hn. simpl in Hn.
    apply safe_bind, safe_slice; [lia|lia|]. by apply Forall_take, Forall_drop.
  - apply safe_bind. eapply safe_mono; [apply vp9_descriptor_safe|]. intros d Hd. simpl in Hd.
    apply safe_bind, safe_slice; [lia|lia|]. by apply Forall_take, Forall_drop.
  - destruct l; simpl; [done|]. by apply Forall_cons in Hb as [_ ?].
Qed.

Lemma start_code_bytes : all_bytes H26X_LONG_START_CODE.
Proof. compute_bytes. Qed.

Lemma append_aggregation_safe fuel c l frame :
  all_bytes l -> (length l < fuel)%nat -> safe (append_h26x_aggregation fuel c l frame) (fun f => all_bytes frame -> all_bytes f).
Proof.
  revert l frame. induction fuel as [|fuel IH]; intros l frame Hb Hf; [lia|]. cbn [append_h26x_aggregation].
  destruct l as [|b l']; [by cbn|]. set (l := b :: l') in *. destruct (Nat.ltb_spec (length l) 2); [done|].
  do 2 (apply safe_bind, safe_index; [lia|intros ? _]). apply safe_bind, safe_slice; [lia..|].
  match goal with |- context [Nat.ltb ?a ?b] => destruct (Nat.ltb_spec a b) end; [done|].
  apply safe_bind, safe_slice; [lia..|]. apply safe_bind, safe_slice; [lia..|].
  eapply safe_mono; [apply IH; [by repeat (apply Forall_take || apply Forall_drop)|llia]|]. cbn beta. intros f Hfr Hframe. apply Hfr.
  unfold append_annex_b_nalu. apply Forall_app. split; [done|]. apply Forall_app. split; [apply start_code_bytes|].
  by repeat (apply Forall_take || apply Forall_drop).
Qed.

Lemma append_av1_safe fuel w e l frame :
  all_bytes l -> (length l < fuel)%nat -> safe (append_av1_elements fuel w e l frame) (fun f => all_bytes frame -> all_bytes f).
Proof.
  revert e l frame. induction fuel as [|fuel IH]; intros e l frame Hb Hf; [lia|]. cbn [append_av1_elements].
  destruct l as [|b l']; [by cbn|]. set (l := b :: l') in *. destruct (_ && _); [cbn; intros; by apply Forall_app|].
  apply safe_bind, safe_ok_or. intros d Hd.
  pose proof (Uleb128.read_len l d Hd). destruct (Uleb128.read_value l d Hb Hd) as [Hv _].
  apply safe_bind, safe_slice; [lia..|].
  match goal with |- context [Z.ltb ?a ?b] => destruct (Z.ltb_spec a b) end; [done|].
  apply safe_bind, safe_slice; [lia..|]. apply safe_bind, safe_slice; [lia..|].
  eapply safe_mono; [apply IH; [by repeat (apply Forall_take || apply Forall_drop)|llia]|]. cbn beta. intros f Hfr Hframe. apply Hfr.
  apply Forall_app. split; [done|]. by repeat (apply Forall_take || apply Forall_drop).
Qed.

Lemma append_depacketized_safe p frame : depacketized_ok p ->
  safe (append_depacketized p frame) (fun f => all_bytes frame -> all_bytes f).
Proof.
  intros Hp. destruct p as [l|l|c l|f|w l]; simpl.
  - intros Hf. by apply Forall_app.
  - intros Hf. apply Forall_app. split; [done|]. apply Forall_app. split; [apply start_code_bytes|done].
  - apply append_aggregation_safe; [done|lia].
  - destruct Hp as (H2 & Hl & Hh & Hb). apply safe_bind. destruct (starts_fragment f).
    + apply safe_bind, safe_slice; [lia..|]. cbn [safe mbind res_mbind]. intros Hf. apply Forall_app. split; [|done]. apply Forall_app. split; [done|].
      apply (Forall_app _ H26X_LONG_START_CODE). split; [apply start_code_bytes|]. by repeat (apply Forall_take || apply Forall_drop).
    + simpl. intros Hf. by apply Forall_app.
  - unfold append_av1_payload. destruct (w =? 1); [intros Hf; by apply Forall_app|]. apply append_av1_safe; [done|lia].
Qed.

(** Reading arbitrary payloads: for every codec, every payload bytes, marker
    bit and assembler state, parsing the payload descriptor and appending the
    depacketized bytes to any frame never panics and always terminates: the
    result is the extended frame or a malformed-payload error. *)
Theorem depacketize_total c l m has frame :
  all_bytes l ->
  safe (p ← parse_payload c l m has; append_depacketized (depacketized p) frame) (fun _ => True).
Proof.
  intros Hl. apply safe_bind. eapply safe_mono; [by apply parse_payload_safe|].
  intros p Hp. eapply safe_mono; [by apply append_depacketized_safe|done].
Qed.

Lemma depacketize_total_witness :
  safe (p ← parse_payload Vp9 [0x8a; 0x85; 1; 0x1f; 9] true false; append_depacketized (depacketized p) [1; 2]) (fun _ => True).
Proof. apply (depacketize_total Vp9 [0x8a; 0x85; 1; 0x1f; 9] true false [1; 2]). compute_bytes. Defined.
End RtpPayload.
