(* ===== verification/Packetize.v ===== *)
(** * Packetizing and reading back

    What the packetizers of [rtp_payload.rs] produce, codec by codec, and that
    the payload readers give back the frame.  [frame_reads] is the interface to
    the frame assembler: a list of payloads of which the first starts a frame,
    the last completes it, and whose depacketized bytes join to the frame. *)

From S2P Require Import Prelude Leb128 Codec Frame FrameCodec Rtp RtpPayload.
Import Codec.AnnexB Rtp.Rtp RtpPayload.RtpPayload.

Module Packetize.

(** ** Reading a frame from its payloads *)
Definition payload_reads (c : MediaCodec) (has : bool) (e : bool * bytes) (completes : bool) (part : bytes) : Prop :=
  exists p, parse_payload c e.2 e.1 has = Ok p /\ starts_frame p = negb has /\ completes_frame p = completes /\
    forall acc, append_depacketized (depacketized p) acc = Ok (acc ++ part).

Inductive frame_reads (c : MediaCodec) : bool -> list (bool * bytes) -> bytes -> Prop :=
| reads_last has e part : payload_reads c has e true part -> frame_reads c has [e] part
| reads_more has e part l frame :
    payload_reads c has e false part -> frame_reads c true l frame -> frame_reads c has (e :: l) (part ++ frame).

(** A payload list as it goes on the wire: non-empty payloads of at most 1200
    bytes, the marker on the last one only (never for audio). *)
Inductive wire_payloads (final : bool) : list (bool * bytes) -> Prop :=
| wire_last p : (1 <= length p <= RTP_MEDIA_PAYLOAD_MAX_BYTES)%nat -> wire_payloads final [(final, p)]
| wire_more p l : (1 <= length p <= RTP_MEDIA_PAYLOAD_MAX_BYTES)%nat -> wire_payloads final l -> wire_payloads final ((false, p) :: l).

(** ** VP8 and VP9 *)
Fixpoint emit_fragments (h : FragmentedPayloadHeader) (first : bool) (chunks : list bytes) : list (bool * bytes) :=
  match chunks with
  | [] => []
  | [k] => [(true, header_write h first true ++ k)]
  | k :: ks => (false, header_write h first false ++ k) :: emit_fragments h false ks
  end.

Definition chunks_of (n : nat) (body : bytes) (chunks : list bytes) : Prop :=
  chunks ≠ [] /\ concat chunks = body /\ Forall (fun k => 1 <= length k <= n)%nat chunks.

(** A first chunk in front of the chunks of what follows it. *)
Lemma chunks_extend n (body : bytes) off stop chunks :
  (off <= stop)%nat -> (1 <= length (take (stop - off) (drop off body)) <= n)%nat ->
  chunks_of n (drop stop body) chunks -> chunks_of n (drop off body) (take (stop - off) (drop off body) :: chunks).
Proof.
  intros Hle Hk (_&Hc&Hl). split; [done|]. split; [|by constructor].
  change (concat (take (stop - off) (drop off body) :: chunks)) with (take (stop - off) (drop off body) ++ concat chunks).
  rewrite Hc. replace (drop stop body) with (drop (stop - off) (drop off body)) by (rewrite drop_drop; f_equal; lia).
  apply take_drop.
Qed.

Lemma chunks_single n (body : bytes) off stop :
  stop = length body -> (1 <= length (take (stop - off) (drop off body)) <= n)%nat ->
  chunks_of n (drop off body) [take (stop - off) (drop off body)].
Proof.
  intros -> Hk. split; [done|]. split; [|constructor; [exact Hk|constructor]].
  simpl. rewrite app_nil_r. apply take_ge. llia.
Qed.

Lemma packetize_loop_S fuel p :
  packetize_loop (S fuel) p =
    ('(o, p) ← packetizer_next p; match o with None => Ok [] | Some e => l ← packetize_loop fuel p; Ok (e :: l) end).
Proof. done. Qed.

Lemma next_fragmented_step c frame off h :
  (off < length frame)%nat ->
  let stop := Nat.min (off + 1199) (length frame) in
  next_fragmented_payload c frame off h =
    Ok (Some ((stop =? length frame)%nat,
              header_write h (off =? 0)%nat (stop =? length frame)%nat ++ take (stop - off) (drop off frame)), stop).
Proof.
  intros Hoff stop. unfold next_fragmented_payload. rewrite (proj2 (Nat.leb_gt _ _)) by lia.
  replace (RTP_MEDIA_PAYLOAD_MAX_BYTES <=? fragment_header_len h)%nat with false by (by destruct h).
  replace (RTP_MEDIA_PAYLOAD_MAX_BYTES - fragment_header_len h)%nat with 1199%nat by (by destruct h).
  by rewrite slice_ok by lia.
Qed.

Lemma fragmented_loop fuel c frame off h :
  (off < length frame)%nat -> (length frame - off < fuel)%nat ->
  exists chunks, packetize_loop fuel {| pk_codec := c; pk_state := Fragmented frame off h |} =
      Ok (emit_fragments h (off =? 0)%nat chunks) /\ chunks_of 1199 (drop off frame) chunks.
Proof.
  revert off. induction fuel as [|fuel IH]; intros off Hoff Hf; [lia|].
  rewrite packetize_loop_S. unfold packetizer_next. cbn [pk_state pk_codec].
  rewrite next_fragmented_step by done. cbn [mbind res_mbind].
  set (stop := Nat.min (off + 1199) (length frame)).
  assert (1 <= length (take (stop - off) (drop off frame)) <= 1199)%nat as Hk by llia.
  destruct (Nat.eqb_spec stop (length frame)) as [Hs|Hs].
  - exists [take (stop - off) (drop off frame)]. split.
    + destruct fuel as [|fuel]; [lia|]. rewrite packetize_loop_S. unfold packetizer_next. cbn [pk_state pk_codec].
      unfold next_fragmented_payload. rewrite (proj2 (Nat.leb_le _ _)) by lia. done.
    + by apply chunks_single.
  - destruct (IH stop) as (chunks&->&Hc); [lia..|].
    exists (take (stop - off) (drop off frame) :: chunks). cbn [mbind res_mbind].
    replace (stop =? 0)%nat with false by (symmetry; apply Nat.eqb_neq; lia). split.
    + destruct chunks; [by destruct Hc|done].
    + apply chunks_extend; [lia|done|done].
Qed.

Lemma vp8_descriptor_plain (first : bool) b k : vp8_descriptor ((if first then 0x10 else 0) :: b :: k) = Ok (1%nat, first).
Proof. by destruct first. Qed.

Lemma vp9_descriptor_plain (first fin : bool) b k :
  vp9_descriptor (Z.lor (if first then 0x08 else 0) (if fin then 0x04 else 0) :: b :: k) =
    Ok {| vp9_len := 1; vp9_starts_frame := first; vp9_completes_frame := fin |}.
Proof. by destruct first, fin. Qed.

Lemma vp_payload_reads c h has first fin k :
  (c = Vp8 /\ h = HeaderVp8) \/ (c = Vp9 /\ h = HeaderVp9) -> first = negb has -> (1 <= length k)%nat ->
  payload_reads c has (fin, header_write h first fin ++ k) fin k.
Proof.
  intros Hc -> Hk. destruct k as [|b k]; [simpl in Hk; lia|]. clear Hk. unfold payload_reads.
  assert (forall x, slice (E := RtpError) (x :: b :: k) 1 (length (x :: b :: k)) = Ok (b :: k)) as Hs.
  { intros x. apply (slice_app_r [x] (b :: k)); simpl; lia. }
  destruct Hc as [[-> ->]|[-> ->]]; cbn [header_write app fst snd parse_payload].
  - rewrite vp8_descriptor_plain. cbn [mbind res_mbind]. rewrite Hs. eexists. split; [reflexivity|].
    split; [done|]. split; [|done]. by rewrite andb_true_r.
  - rewrite vp9_descriptor_plain. cbn [mbind res_mbind vp9_len]. rewrite Hs. eexists. split; [reflexivity|].
    split; [done|]. split; [|done]. by destruct fin.
Qed.

Lemma emit_fragments_reads c h has chunks body n :
  (c = Vp8 /\ h = HeaderVp8) \/ (c = Vp9 /\ h = HeaderVp9) -> chunks_of n body chunks ->
  frame_reads c has (emit_fragments h (negb has) chunks) body.
Proof.
  intros Hc (Hne&<-&Hl). revert has Hne. induction Hl as [|k ks Hk Hks IH]; intros has Hne; [done|].
  destruct ks as [|k' ks].
  - simpl. rewrite app_nil_r. constructor. apply vp_payload_reads; [done..|lia].
  - change (concat (k :: k' :: ks)) with (k ++ concat (k' :: ks)).
    change (emit_fragments h (negb has) (k :: k' :: ks)) with
      ((false, header_write h (negb has) false ++ k) :: emit_fragments h (negb true) (k' :: ks)).
    constructor; [apply vp_payload_reads; [done..|lia]|by apply IH].
Qed.

Lemma emit_fragments_wire h first chunks body :
  chunks_of 1199 body chunks -> wire_payloads true (emit_fragments h first chunks).
Proof.
  intros (Hne&_&Hl). revert first Hne. induction Hl as [|k ks Hk Hks IH]; intros first Hne; [done|].
  assert (forall a b, 1 <= length (header_write h a b ++ k) <= RTP_MEDIA_PAYLOAD_MAX_BYTES)%nat as Hw
    by (intros; unfold RTP_MEDIA_PAYLOAD_MAX_BYTES; destruct h; simpl; lia).
  destruct ks as [|k' ks]; [by constructor|].
  change (emit_fragments h first (k :: k' :: ks)) with ((false, header_write h first false ++ k) :: emit_fragments h false (k' :: ks)).
  constructor; [apply Hw|by apply IH].
Qed.

(** ** AV1 *)
Definition av1_header (first last_fragment : bool) : Z :=
  Z.lor (Z.lor (if negb first then 0x80 else 0) (if negb last_fragment then 0x40 else 0)) 0x10.

Fixpoint emit_obu (last_obu first : bool) (chunks : list bytes) : list (bool * bytes) :=
  match chunks with
  | [] => []
  | [k] => [(last_obu, av1_header first true :: k)]
  | k :: ks => (false, av1_header first false :: k) :: emit_obu last_obu false ks
  end.

Fixpoint emit_obus (obus : list (list bytes)) : list (bool * bytes) :=
  match obus with
  | [] => []
  | [o] => emit_obu true true o
  | o :: os => emit_obu false true o ++ emit_obus os
  end.

Lemma emit_obus_cons o os : os ≠ [] -> emit_obus (o :: os) = emit_obu false true o ++ emit_obus os.
Proof. by destruct os. Qed.

Definition obus_of (body : bytes) (obus : list (list bytes)) : Prop :=
  concat (concat obus) = body /\ Forall (fun o => o ≠ [] /\ Forall (fun k => 1 <= length k <= 1199)%nat o) obus.

Lemma obus_of_nil body obus : obus_of body obus -> body = [] <-> obus = [].
Proof.
  intros [Hc Hf]. split; [|intros ->; by rewrite <- Hc]. intros ->. destruct obus as [|o os]; [done|].
  apply Forall_cons in Hf as [[Ho Hk] _]. destruct o as [|k ks]; [done|]. apply Forall_cons in Hk as [Hk _].
  apply (f_equal length) in Hc. simpl in Hc. rewrite length_app in Hc. lia.
Qed.

Lemma av1_obu_end_safe c frame off : all_bytes frame -> (off < length frame)%nat ->
  safe (av1_obu_end c frame off) (fun e => off < e <= length frame)%nat.
Proof.
  intros Hb Hoff. unfold av1_obu_end. destruct (frame !! off) as [b|]; [|done].
  set (i := (off + 1 + _)%nat). assert (off < i)%nat by (unfold i; lia). clearbody i.
  destruct (Nat.ltb_spec (length frame) i); [done|]. destruct (has_bits b 2); simpl; [|lia].
  apply safe_bind, safe_slice; [lia..|]. apply safe_bind, safe_ok_or. intros d Hd.
  apply Uleb128.read_value in Hd as [Hv _]; [|by apply Forall_take, Forall_drop].
  match goal with |- context [Z.leb ?a ?b] => destruct (Z.leb_spec a b) end; simpl; [lia|done].
Qed.

(** One step: the chunk written and the cursor behind it. *)
Lemma next_av1_step c frame cur e :
  (obu_start cur + av1_fragment_offset cur < e)%nat -> (e <= length frame)%nat ->
  (if (av1_fragment_offset cur =? 0)%nat then av1_obu_end c frame (obu_start cur) else Ok (obu_end cur)) = Ok e ->
  let off := (obu_start cur + av1_fragment_offset cur)%nat in
  let stop := Nat.min (off + 1199) e in
  next_av1_payload c frame cur =
    Ok (Some ((e =? length frame)%nat && (stop =? e)%nat,
              av1_header (av1_fragment_offset cur =? 0)%nat (stop =? e)%nat :: take (stop - off) (drop off frame)),
        if (stop =? e)%nat then {| obu_start := e; obu_end := e; av1_fragment_offset := 0 |}
        else {| obu_start := obu_start cur; obu_end := e; av1_fragment_offset := av1_fragment_offset cur + (stop - off) |}).
Proof.
  intros Hlt Hle He off stop. unfold next_av1_payload. rewrite (proj2 (Nat.leb_gt _ _)) by lia.
  change (RTP_MEDIA_PAYLOAD_MAX_BYTES <=? 1)%nat with false. cbv iota. rewrite He. cbn [mbind res_mbind].
  by rewrite slice_ok by lia.
Qed.

(** What the loop emits from a cursor: the rest of the current OBU, then the
    following OBUs. *)
Definition av1_emitted (frame : bytes) (cur : Av1Cursor) (l : list (bool * bytes)) : Prop :=
  if (av1_fragment_offset cur =? 0)%nat
  then exists obus, obus_of (drop (obu_start cur) frame) obus /\ l = emit_obus obus
  else exists k obus, k ≠ [] /\ Forall (fun k => 1 <= length k <= 1199)%nat k /\
         concat k = take (obu_end cur - (obu_start cur + av1_fragment_offset cur)) (drop (obu_start cur + av1_fragment_offset cur) frame) /\
         obus_of (drop (obu_end cur) frame) obus /\
         l = emit_obu (obu_end cur =? length frame)%nat false k ++ emit_obus obus.

Definition cursor_ok (frame : bytes) (cur : Av1Cursor) : Prop :=
  (obu_start cur <= length frame)%nat /\
  ((0 < av1_fragment_offset cur)%nat -> (obu_start cur + av1_fragment_offset cur < obu_end cur <= length frame)%nat).

(** Glueing the chunk of one step to what follows it. *)
Lemma av1_emitted_step frame cur e l :
  let off := (obu_start cur + av1_fragment_offset cur)%nat in
  let stop := Nat.min (off + 1199) e in
  (off < e <= length frame)%nat -> ((0 < av1_fragment_offset cur)%nat -> e = obu_end cur) ->
  av1_emitted frame (if (stop =? e)%nat then {| obu_start := e; obu_end := e; av1_fragment_offset := 0 |}
    else {| obu_start := obu_start cur; obu_end := e; av1_fragment_offset := av1_fragment_offset cur + (stop - off) |}) l ->
  av1_emitted frame cur
    (((e =? length frame)%nat && (stop =? e)%nat,
      av1_header (av1_fragment_offset cur =? 0)%nat (stop =? e)%nat :: take (stop - off) (drop off frame)) :: l).
Proof.
  intros off stop He Hfr Hem. set (k0 := take (stop - off) (drop off frame)).
  assert (1 <= length k0 <= 1199)%nat as Hk0 by (unfold k0; llia).
  (* the chunks of the rest of the current OBU, starting with [k0] *)
  assert (exists ks obus, Forall (fun k => 1 <= length k <= 1199)%nat (k0 :: ks) /\
    concat (k0 :: ks) = take (e - off) (drop off frame) /\ obus_of (drop e frame) obus /\
    forall first, first = (av1_fragment_offset cur =? 0)%nat ->
      ((e =? length frame)%nat && (stop =? e)%nat, av1_header first (stop =? e)%nat :: k0) :: l =
        emit_obu (e =? length frame)%nat first (k0 :: ks) ++ emit_obus obus) as (ks&obus&Hks&Hcat&Hob&Hl).
  { destruct (Nat.eqb_spec stop e) as [Hs|Hs]; unfold av1_emitted in Hem; cbn [av1_fragment_offset obu_start obu_end] in Hem.
    - destruct Hem as (obus&Hob&->). exists [], obus. split; [by constructor|]. split; [|split; [done|]].
      + simpl. rewrite app_nil_r. unfold k0. by rewrite Hs.
      + intros first ->. rewrite andb_true_r. done.
    - rewrite (proj2 (Nat.eqb_neq _ _)) in Hem by lia. destruct Hem as (ks&obus&Hne&Hks&Hcat&Hob&->). exists ks, obus.
      split; [by constructor|]. split; [|split; [done|]].
      + change (concat (k0 :: ks)) with (k0 ++ concat ks). rewrite Hcat. unfold k0.
        replace (obu_start cur + (av1_fragment_offset cur + (stop - off)))%nat with (off + (stop - off))%nat by lia.
        rewrite <- drop_drop. replace (e - (off + (stop - off)))%nat with ((e - off) - (stop - off))%nat by lia.
        rewrite <- (take_drop (stop - off) (take (e - off) (drop off frame))) at 1.
        rewrite take_take, skipn_firstn_comm. f_equal. f_equal. lia.
      + intros first _. rewrite andb_false_r. by destruct ks. }
  unfold av1_emitted. destruct (Nat.eqb_spec (av1_fragment_offset cur) 0) as [H0|H0].
  - exists ((k0 :: ks) :: obus). rewrite (Hl true eq_refl). split.
    + destruct Hob as [Hoc Hof]. split; [|by constructor].
      change (concat ((k0 :: ks) :: obus)) with ((k0 :: ks) ++ concat obus). rewrite concat_app, Hcat, Hoc.
      replace off with (obu_start cur) by lia.
      replace (drop e frame) with (drop (e - obu_start cur) (drop (obu_start cur) frame)) by (rewrite drop_drop; f_equal; lia).
      apply take_drop.
    + destruct (obus_of_nil _ _ Hob) as [Hn1 Hn2]. destruct (Nat.eqb_spec e (length frame)) as [->|Hne].
      * rewrite Hn1 by (apply drop_ge; lia). simpl. by rewrite app_nil_r.
      * rewrite emit_obus_cons; [done|]. intros ->. assert (length (drop e frame) = 0%nat) as Hz by (by rewrite Hn2). llia.
  - exists (k0 :: ks), obus. rewrite <- Hfr by lia. split; [done|]. split; [done|]. split; [done|]. split; [done|].
    apply Hl. by destruct (av1_fragment_offset cur).
Qed.

Lemma av1_loop fuel c frame cur :
  all_bytes frame -> cursor_ok frame cur -> (length frame - (obu_start cur + av1_fragment_offset cur) < fuel)%nat ->
  safe (packetize_loop fuel {| pk_codec := c; pk_state := PacketAv1 frame cur |}) (av1_emitted frame cur).
Proof.
  revert cur. induction fuel as [|fuel IH]; intros cur Hb [Hst Hfr] Hf; [lia|].
  rewrite packetize_loop_S. unfold packetizer_next. cbn [pk_state pk_codec].
  destruct (Nat.le_gt_cases (length frame) (obu_start cur)) as [Hend|Hlt].
  { unfold next_av1_payload. rewrite (proj2 (Nat.leb_le _ _)) by lia. simpl.
    assert (av1_fragment_offset cur = 0)%nat as H0 by lia. unfold av1_emitted. rewrite H0. simpl.
    exists []. split; [|done]. split; [|done]. simpl. symmetry. apply drop_ge. lia. }
  assert (safe (if (av1_fragment_offset cur =? 0)%nat then av1_obu_end c frame (obu_start cur) else Ok (obu_end cur))
    (fun e => obu_start cur + av1_fragment_offset cur < e <= length frame /\
              ((0 < av1_fragment_offset cur)%nat -> e = obu_end cur))%nat) as Hsafe.
  { destruct (Nat.eqb_spec (av1_fragment_offset cur) 0) as [H0|H0]; [|simpl; lia].
    eapply safe_mono; [by apply av1_obu_end_safe|]. simpl. lia. }
  destruct (if (av1_fragment_offset cur =? 0)%nat then av1_obu_end c frame (obu_start cur) else Ok (obu_end cur)) as [e| |] eqn:He.
  - destruct Hsafe as [Hse Hfe]. rewrite (next_av1_step c frame cur e) by (done || lia). cbn [mbind res_mbind].
    set (stop := Nat.min (obu_start cur + av1_fragment_offset cur + 1199) e).
    apply safe_bind. eapply safe_mono; [apply IH; [done| |]|].
    + destruct (Nat.eqb_spec stop e); split; simpl; lia.
    + destruct (Nat.eqb_spec stop e); simpl; lia.
    + intros l Hem. by apply av1_emitted_step.
  - unfold next_av1_payload. rewrite (proj2 (Nat.leb_gt _ _)) by lia.
    change (RTP_MEDIA_PAYLOAD_MAX_BYTES <=? 1)%nat with false. cbv iota. by rewrite He.
  - done.
Qed.

Lemma av1_payload_reads has first lastf m k :
  (first = false -> has = true) ->
  payload_reads Av1 has (m, av1_header first lastf :: k) m k.
Proof.
  intros Hh. eexists. split; [reflexivity|]. cbn [starts_frame completes_frame depacketized]. split; [|split; [done|]].
  - destruct has; [done|]. destruct first; [by destruct lastf|]. by specialize (Hh eq_refl).
  - intros acc. by destruct first, lastf.
Qed.

Lemma emit_obu_more last_obu first k ks :
  ks ≠ [] -> emit_obu last_obu first (k :: ks) = (false, av1_header first false :: k) :: emit_obu last_obu false ks.
Proof. by destruct ks. Qed.

Lemma emit_obu_last_reads has first chunks :
  chunks ≠ [] -> (first = false -> has = true) -> frame_reads Av1 has (emit_obu true first chunks) (concat chunks).
Proof.
  revert has first. induction chunks as [|k ks IH]; intros has first Hne Hh; [done|].
  destruct (decide (ks = [])) as [->|Hks].
  - simpl. rewrite app_nil_r. constructor. by apply av1_payload_reads.
  - rewrite emit_obu_more by done. simpl. constructor; [by apply av1_payload_reads|by apply IH].
Qed.

Lemma emit_obu_reads has first chunks rest f :
  chunks ≠ [] -> (first = false -> has = true) -> frame_reads Av1 true rest f ->
  frame_reads Av1 has (emit_obu false first chunks ++ rest) (concat chunks ++ f).
Proof.
  revert has first. induction chunks as [|k ks IH]; intros has first Hne Hh Hr; [done|].
  destruct (decide (ks = [])) as [->|Hks].
  - simpl. rewrite app_nil_r. constructor; [by apply av1_payload_reads|done].
  - rewrite emit_obu_more by done. simpl. rewrite <- app_assoc. constructor; [by apply av1_payload_reads|by apply IH].
Qed.

Lemma emit_obus_reads has body obus :
  obus ≠ [] -> obus_of body obus -> frame_reads Av1 has (emit_obus obus) body.
Proof.
  intros Hne [<- Hf]. revert has Hne. induction Hf as [|o os [Ho _] Hos IH]; intros has Hne; [done|].
  change (concat (o :: os)) with (o ++ concat os). rewrite concat_app.
  destruct (decide (os = [])) as [->|Hn].
  - simpl. rewrite app_nil_r. by apply emit_obu_last_reads.
  - rewrite emit_obus_cons by done. apply emit_obu_reads; [done..|by apply IH].
Qed.

Lemma emit_obu_wire final first chunks rest :
  chunks ≠ [] -> Forall (fun k => 1 <= length k <= 1199)%nat chunks ->
  (final = true -> rest = []) -> (final = false -> wire_payloads true rest) ->
  wire_payloads true (emit_obu final first chunks ++ rest).
Proof.
  intros Hne Hl Ht Hf. revert first Hne. induction Hl as [|k ks Hk Hks IH]; intros first Hne; [done|].
  assert (forall b, 1 <= length (b :: k) <= RTP_MEDIA_PAYLOAD_MAX_BYTES)%nat as Hw
    by (intros; unfold RTP_MEDIA_PAYLOAD_MAX_BYTES; simpl; lia).
  destruct (decide (ks = [])) as [->|Hn].
  - simpl. destruct final; [rewrite Ht by done|]; constructor; auto.
  - rewrite emit_obu_more by done. simpl. constructor; [apply Hw|by apply IH].
Qed.

Lemma emit_obus_wire body obus : obus ≠ [] -> obus_of body obus -> wire_payloads true (emit_obus obus).
Proof.
  intros Hne [_ Hf]. induction Hf as [|o os [Ho Hk] Hos IH]; [done|]. destruct (decide (os = [])) as [->|Hn].
  - simpl. rewrite <- (app_nil_r (emit_obu _ _ _)). by apply emit_obu_wire.
  - rewrite emit_obus_cons by done. apply emit_obu_wire; auto. done.
Qed.

(** ** The NAL unit iterator *)

(** The units an iterator still yields. *)
Inductive iterates : AnnexBNalus -> list bytes -> Prop :=
| iterates_done it : next it = None -> iterates it []
| iterates_more it u it' us :
    is_empty it = false -> (forall E, iter_next (E := E) it = Ok (Some u, it')) -> u ≠ [] -> iterates it' us -> iterates it (u :: us).

Lemma iter_next_none {E} it : next it = None -> iter_next (E := E) it = Ok (None, it).
Proof. intros Hn. unfold iter_next. cbn [next_loop]. by rewrite Hn. Qed.

Definition iterator_ok (it : AnnexBNalus) : Prop :=
  match next it with Some n => (start n < length (frame it))%nat | None => True end.

(** Bytes from the unit found last to the end of the frame. *)
Definition remaining (it : AnnexBNalus) : nat :=
  match next it with Some n => length (frame it) - start n | None => 0 end.

Lemma next_loop_some fuel it n :
  next it = Some n -> (start n < length (frame it))%nat -> (length (frame it) < fuel + start n)%nat ->
  exists u it', (forall E, next_loop (E := E) fuel it = Ok (Some u, it')) /\ u ≠ [] /\ iterator_ok it' /\
    (length u + remaining it' <= remaining it)%nat.
Proof.
  revert it n. induction fuel as [|fuel IH]; intros it n Hn Hlt Hf; [lia|].
  assert (exists r, (forall E, find_next_nalu (E := E) (frame it) (start n) = Ok r) /\ search_result (frame it) (start n) r)
    as (r&Hr&Hs).
  { destruct (find_next_nalu_spec (E := Empty_set) (frame it) (start n)) as (r&Hr&Hs). exists r. split; [|done].
    intros E. by apply (find_next_nalu_ok (E := Empty_set)). }
  set (stop := match r with Some m => (start m - start_code_len m)%nat | None => length (frame it) end).
  set (it1 := {| frame := frame it; next := r |}).
  assert (stop <= length (frame it) /\ iterator_ok it1 /\ stop + remaining it1 <= length (frame it) /\
    match r with Some m => start n < start m | None => True end)%nat as (Hstop&Hok&Hrem&Hadv).
  { unfold stop, it1, iterator_ok, remaining. cbn [next frame]. destruct r as [m|]; [|lia].
    pose proof (search_result_bounds _ _ _ Hs). lia. }
  destruct (Nat.ltb_spec (start n) stop) as [Hst|Hst].
  - exists (take (stop - start n) (drop (start n) (frame it))), it1. split.
    { intros E. cbn [next_loop]. rewrite Hn, Hr. cbn [mbind res_mbind]. fold stop it1.
      rewrite (proj2 (Nat.ltb_lt _ _)) by done. cbn [frame it1]. by rewrite slice_ok by lia. }
    assert (length (take (stop - start n) (drop (start n) (frame it))) = stop - start n)%nat as Hl by llia.
    split; [intros H0; rewrite H0 in Hl; simpl in Hl; lia|]. split; [done|]. rewrite Hl. unfold remaining at 2. rewrite Hn. lia.
  - unfold stop in Hst. destruct r as [m|]; [|lia].
    destruct (IH it1 m eq_refl) as (u&it'&Hu&Hne&Hok'&Hle); [apply Hok|simpl; lia|].
    exists u, it'. split; [|split; [done|split; [done|]]].
    + intros E. cbn [next_loop]. rewrite Hn, Hr. cbn [mbind res_mbind]. rewrite (proj2 (Nat.ltb_ge _ _)) by done. apply Hu.
    + unfold remaining in Hle at 2. unfold remaining at 2. rewrite Hn. simpl in Hle. lia.
Qed.

Lemma iterates_total it : iterator_ok it -> exists us, iterates it us /\ (length (concat us) <= remaining it)%nat.
Proof.
  remember (remaining it) as k eqn:Hk. revert it Hk. induction k as [k IH] using lt_wf_ind. intros it -> Hok.
  destruct (next it) as [n|] eqn:Hn; [|exists []; split; [by constructor|simpl; lia]].
  unfold iterator_ok in Hok. rewrite Hn in Hok.
  destruct (next_loop_some (S (length (frame it))) it n Hn Hok) as (u&it'&Hu&Hne&Hok'&Hle); [lia|].
  assert (1 <= length u)%nat by (destruct u; [done|simpl; lia]).
  destruct (IH (remaining it') ltac:(lia) it' eq_refl Hok') as (us&Hus&Hl).
  exists (u :: us). split; [|simpl; rewrite length_app; lia].
  econstructor; [unfold is_empty; by rewrite Hn|apply Hu|done|done].
Qed.

Lemma nalus_ok {E} f : exists it, nalus (E := E) f = Ok it /\ iterator_ok it /\ frame it = f /\ (remaining it <= length f)%nat.
Proof.
  unfold nalus. destruct (find_next_nalu_spec (E := E) f 0) as (r&->&Hs). eexists. split; [reflexivity|].
  unfold iterator_ok, remaining. cbn [next frame]. split; [|split; [done|destruct r; simpl; lia]].
  destruct r; [|done]. apply search_result_bounds in Hs. lia.
Qed.

Lemma iterates_empty it us : iterates it us -> is_empty it = bool_decide (us = []).
Proof. intros Hit. destruct Hit as [it Hn|it u it' us He _ _ _]; [unfold is_empty; by rewrite Hn|]. rewrite He. by rewrite bool_decide_eq_false_2. Qed.

(** The next unit, for every error type. *)
Lemma iterates_next it us : iterates it us ->
  exists n it', (forall E, iter_next (E := E) it = Ok (n, it')) /\
    match us with
    | [] => n = None
    | u :: us' => n = Some u /\ u ≠ [] /\ iterates it' us'
    end.
Proof.
  intros Hit. destruct Hit as [it Hn|it u it' us He Hi Hne Hus].
  - exists None, it. split; [|done]. intros E. by apply iter_next_none.
  - exists (Some u), it'. auto.
Qed.

(** ** H.264 and H.265 *)

(** A payload of a frame: the marker is on the last unit's last payload. *)
Definition fragment_header (C : H26xRtpPayload) (u : bytes) (first lastf : bool) : bytes :=
  match write_fragment_header C u first lastf with Ok h => h | _ => [] end.

Definition unit_body (C : H26xRtpPayload) (u : bytes) : bytes := drop (FRAGMENT_HEADER_LEN C - 1) u.

Fixpoint emit_unit_fragments (C : H26xRtpPayload) (u : bytes) (last_nalu first : bool) (chunks : list bytes) : list (bool * bytes) :=
  match chunks with
  | [] => []
  | [k] => [(last_nalu, fragment_header C u first true ++ k)]
  | k :: ks => (false, fragment_header C u first false ++ k) :: emit_unit_fragments C u last_nalu false ks
  end.

Definition emit_unit (C : H26xRtpPayload) (last_nalu : bool) (e : bytes * list bytes) : list (bool * bytes) :=
  if (length e.1 <=? RTP_MEDIA_PAYLOAD_MAX_BYTES)%nat then [(last_nalu, e.1)] else emit_unit_fragments C e.1 last_nalu true e.2.

Fixpoint emit_units (C : H26xRtpPayload) (l : list (bytes * list bytes)) : list (bool * bytes) :=
  match l with
  | [] => []
  | e :: l => emit_unit C (bool_decide (l = [])) e ++ emit_units C l
  end.

(** The units with the chunks the long ones are cut into. *)
Definition cut_units (C : H26xRtpPayload) (us : list bytes) (l : list (bytes * list bytes)) : Prop :=
  l.*1 = us /\
  Forall (fun e => (RTP_MEDIA_PAYLOAD_MAX_BYTES < length e.1)%nat ->
                   chunks_of (RTP_MEDIA_PAYLOAD_MAX_BYTES - FRAGMENT_HEADER_LEN C) (unit_body C e.1) e.2) l.

Lemma cut_units_nil C us l : cut_units C us l -> bool_decide (l = []) = bool_decide (us = []).
Proof. intros [<- _]. by destruct l. Qed.

Section H26xLoop.
Context (C : H26xRtpPayload) (HC : h26x_laws C) (K : H26xPacketizer -> RtpPayloadPacketizerState).
Context (HK : forall c q, packetizer_next {| pk_codec := c; pk_state := K q |} =
  ('(o, q) ← h26x_next_payload C q;
   Ok (o, {| pk_codec := c; pk_state := match o with None => Done | Some _ => K q end |}))).

(** What the loop emits from the unit [u] at [off], the units [us] following. *)
Definition h26x_emitted (u : bytes) (off : nat) (us : list bytes) (l : list (bool * bytes)) : Prop :=
  if (off =? 0)%nat then exists cut, cut_units C (u :: us) cut /\ l = emit_units C cut
  else exists ks cut, chunks_of (RTP_MEDIA_PAYLOAD_MAX_BYTES - FRAGMENT_HEADER_LEN C) (drop off (unit_body C u)) ks /\
         cut_units C us cut /\ l = emit_unit_fragments C u (bool_decide (us = [])) false ks ++ emit_units C cut.

(** The whole long unit: a first fragment and the rest. *)
Lemma h26x_step q u :
  pk_nalu q = Some u -> (RTP_MEDIA_PAYLOAD_MAX_BYTES < length u)%nat ->
  (pk_fragment_offset q < length (unit_body C u))%nat ->
  forall us, iterates (pk_nalus q) us ->
  let off := pk_fragment_offset q in
  let stop := Nat.min (off + (RTP_MEDIA_PAYLOAD_MAX_BYTES - FRAGMENT_HEADER_LEN C)) (length (unit_body C u)) in
  let lastf := (stop =? length (unit_body C u))%nat in
  exists q', h26x_next_payload C q =
    Ok (Some (bool_decide (us = []) && lastf,
              fragment_header C u (off =? 0)%nat lastf ++ take (stop - off) (drop off (unit_body C u))), q') /\
    if lastf then
      pk_fragment_offset q' = 0%nat /\
      match us with
      | [] => pk_nalu q' = None
      | v :: vs => pk_nalu q' = Some v /\ v ≠ [] /\ iterates (pk_nalus q') vs
      end
    else pk_fragment_offset q' = stop /\ pk_nalu q' = Some u /\ pk_nalus q' = pk_nalus q.
Proof.
  intros Hu Hlong Hoff us Hit off stop lastf. unfold h26x_next_payload. rewrite Hu.
  rewrite (proj2 (Nat.leb_gt _ _)) by done. destruct HC as [_ _ Hp Hw Hhl].
  rewrite (proj2 (Nat.leb_gt _ _)) by (unfold RTP_MEDIA_PAYLOAD_MAX_BYTES; lia).
  rewrite (iterates_empty _ _ Hit).
  assert (fragment_payload C u = Ok (unit_body C u) /\ forall a b, write_fragment_header C u a b = Ok (fragment_header C u a b))
    as [Hfp Hwr].
  { split.
    - specialize (Hp u). destruct (fragment_payload C u) eqn:Hf; simpl in Hp; [by destruct Hp as [-> _]| |done]. exfalso.
      by apply (law_long C HC u) in Hlong as [[? Hx] _]; rewrite Hx in Hf.
    - intros a b. unfold fragment_header. specialize (Hw u a b). destruct (write_fragment_header C u a b) eqn:Hf; simpl in Hw; [done| |done].
      exfalso. apply (law_long C HC u) in Hlong as [_ Hx]. destruct (Hx a b) as [? Hy]. congruence. }
  rewrite Hfp. cbn [mbind res_mbind]. fold off stop lastf. rewrite Hwr. cbn [mbind res_mbind].
  rewrite slice_ok by lia. cbn [mbind res_mbind].
  destruct lastf; cbn [mbind res_mbind].
  - destruct (iterates_next _ _ Hit) as (n&it'&Hn&Hus). rewrite Hn. cbn [mbind res_mbind]. eexists. split; [reflexivity|].
    simpl. split; [done|]. by destruct us as [|v vs].
  - eexists. split; [reflexivity|]. done.
Qed.

Definition resumes (us : list bytes) (q : H26xPacketizer) : Prop :=
  pk_fragment_offset q = 0%nat /\
  match us with
  | [] => pk_nalu q = None
  | v :: vs => pk_nalu q = Some v /\ v ≠ [] /\ iterates (pk_nalus q) vs
  end.

Lemma emit_fragments_glue u lastn (lastf first : bool) k0 ks :
  (lastf = true <-> ks = []) ->
  (lastn && lastf, fragment_header C u first lastf ++ k0) ::
    match ks with [] => [] | _ => emit_unit_fragments C u lastn false ks end =
  emit_unit_fragments C u lastn first (k0 :: ks).
Proof.
  intros Hks. destruct lastf.
  - rewrite (proj1 Hks eq_refl), andb_true_r. done.
  - destruct ks as [|k1 ks]; [by discriminate (proj2 Hks eq_refl)|]. by rewrite andb_false_r.
Qed.

Lemma h26x_loop fuel c q u us :
  pk_nalu q = Some u -> u ≠ [] -> iterates (pk_nalus q) us ->
  ((0 < pk_fragment_offset q)%nat -> (RTP_MEDIA_PAYLOAD_MAX_BYTES < length u /\ pk_fragment_offset q < length (unit_body C u))%nat) ->
  (length (concat (u :: us)) - pk_fragment_offset q < fuel)%nat ->
  exists l, packetize_loop fuel {| pk_codec := c; pk_state := K q |} = Ok l /\ h26x_emitted u (pk_fragment_offset q) us l.
Proof.
  revert q u us. induction fuel as [|fuel IH]; intros q u us Hu Hne Hit Hfr Hf; [lia|].
  assert (1 <= length u)%nat by (destruct u; [done|simpl; lia]).
  assert (length (unit_body C u) <= length u)%nat by (unfold unit_body; llia).
  change (concat (u :: us)) with (u ++ concat us) in Hf. rewrite length_app in Hf.
  assert (forall q', resumes us q' -> (length (concat us) < fuel)%nat ->
    exists cut, packetize_loop fuel {| pk_codec := c; pk_state := K q' |} = Ok (emit_units C cut) /\ cut_units C us cut) as Hrest.
  { intros q' [Hz Hq] Hfu. destruct us as [|v vs].
    - exists []. split; [|by split]. destruct fuel; [lia|]. rewrite packetize_loop_S, HK.
      unfold h26x_next_payload. by rewrite Hq.
    - destruct Hq as (Hv&Hvn&Hvs). destruct (IH q' v vs Hv Hvn Hvs) as (l&->&Hem); [lia|lia|].
      rewrite Hz in Hem. destruct Hem as (cut&Hcut&->). by exists cut. }
  rewrite packetize_loop_S, HK. destruct (Nat.le_gt_cases (length u) RTP_MEDIA_PAYLOAD_MAX_BYTES) as [Hshort|Hlong].
  - unfold h26x_next_payload at 1. rewrite Hu. rewrite (proj2 (Nat.leb_le _ _)) by done.
    destruct (iterates_next _ _ Hit) as (n&it'&Hn&Hus). rewrite Hn, (iterates_empty _ _ Hit). cbn [mbind res_mbind].
    assert (pk_fragment_offset q = 0)%nat as Hz by lia. rewrite Hz.
    destruct (Hrest {| pk_nalus := it'; pk_nalu := n; pk_fragment_offset := 0 |}) as (cut&->&Hcut); [|lia|].
    { split; [done|]. by destruct us. }
    cbn [mbind res_mbind]. eexists. split; [reflexivity|]. exists ((u, []) :: cut). split.
    + destruct Hcut as [Hc1 Hc2]. split; [by rewrite <- Hc1|]. constructor; [simpl; lia|done].
    + simpl. rewrite (cut_units_nil _ _ _ Hcut). unfold emit_unit. cbn [fst snd]. by rewrite (proj2 (Nat.leb_le _ _)) by done.
  - assert (pk_fragment_offset q < length (unit_body C u))%nat as Hoff.
    { destruct (decide (pk_fragment_offset q = 0)%nat) as [->|]; [|apply Hfr; lia].
      destruct HC. unfold unit_body. rewrite length_drop. unfold RTP_MEDIA_PAYLOAD_MAX_BYTES in Hlong. lia. }
    destruct (h26x_step q u Hu Hlong Hoff us Hit) as (q'&->&Hq'). cbn [mbind res_mbind].
    set (off := pk_fragment_offset q) in *. set (n := (RTP_MEDIA_PAYLOAD_MAX_BYTES - FRAGMENT_HEADER_LEN C)%nat) in *.
    set (stop := Nat.min (off + n) (length (unit_body C u))) in *. set (k0 := take (stop - off) (drop off (unit_body C u))).
    assert (2 <= n)%nat by (destruct HC; unfold n, RTP_MEDIA_PAYLOAD_MAX_BYTES; lia).
    assert (1 <= length k0 <= n)%nat as Hk0 by (unfold k0; llia).
    assert (exists ks cut, packetize_loop fuel {| pk_codec := c; pk_state := K q' |} =
        Ok (match ks with [] => [] | _ => emit_unit_fragments C u (bool_decide (us = [])) false ks end ++ emit_units C cut) /\
      (stop = length (unit_body C u) <-> ks = []) /\
      chunks_of n (drop off (unit_body C u)) (k0 :: ks) /\ cut_units C us cut) as (ks&cut&Hloop&Hks&Hch&Hcut).
    { destruct (Nat.eqb_spec stop (length (unit_body C u))) as [Hs|Hs].
      - destruct (Hrest q' Hq') as (cut&->&Hcut); [lia|]. exists [], cut. split; [done|]. split; [done|]. split; [|done].
        by apply chunks_single.
      - destruct Hq' as (Ho&Hu'&Hi'). destruct (IH q' u us Hu' Hne) as (l&->&Hem).
        { by rewrite Hi'. } { rewrite Ho. intros _. lia. }
        { change (concat (u :: us)) with (u ++ concat us). rewrite length_app, Ho. lia. }
        unfold h26x_emitted in Hem. rewrite Ho, (proj2 (Nat.eqb_neq _ _)) in Hem by lia.
        destruct Hem as (ks&cut&Hkc&Hcut&->). exists ks, cut. assert (ks ≠ []) by apply Hkc. split; [by destruct ks|].
        split; [by split; intros; subst|]. split; [|done]. apply chunks_extend; [lia|done|done]. }
    rewrite Hloop. cbn [mbind res_mbind]. eexists. split; [reflexivity|].
    rewrite app_comm_cons, emit_fragments_glue by (by rewrite Nat.eqb_eq). unfold h26x_emitted. destruct (Nat.eqb_spec off 0) as [Hz|Hz].
    + exists ((u, k0 :: ks) :: cut). split.
      * destruct Hcut as [Hc1 Hc2]. split; [by rewrite <- Hc1|]. constructor; [|done]. intros _. by rewrite Hz, drop_0 in Hch.
      * simpl emit_units. rewrite (cut_units_nil _ _ _ Hcut). unfold emit_unit. cbn [fst snd].
        by rewrite (proj2 (Nat.leb_gt _ _)) by done.
    + by exists (k0 :: ks), cut.
Qed.
End H26xLoop.

(** *** Reading units back *)

(** What a reader of fragments must undo. *)
Definition fragment_read_law (C : H26xRtpPayload) : Prop :=
  forall u first lastf k m has, all_bytes u -> (RTP_MEDIA_PAYLOAD_MAX_BYTES < length u)%nat -> k ≠ [] ->
  exists h, parse_h26x_payload C (fragment_header C u first lastf ++ k) m has =
      Ok {| starts_frame := first; completes_frame := m && lastf;
            depacketized := H26xFragment {| starts_fragment := first; completes_fragment := lastf; nalu_header := h;
                                            nalu_header_len := FRAGMENT_HEADER_LEN C - 1; fragment_bytes := k |} |} /\
    length h = 2%nat /\ take (FRAGMENT_HEADER_LEN C - 1) h = take (FRAGMENT_HEADER_LEN C - 1) u.

Definition h264_fu (h : Z) (first lastf : bool) : Z :=
  Z.lor (Z.lor (if first then 0x80 else 0) (if lastf then 0x40 else 0)) (Z.land h 0x1f).

Lemma h264_bits h first lastf : is_byte h ->
  Z.land (Z.lor (Z.land h 0xe0) 28) 0x1f = 28 /\ has_bits (h264_fu h first lastf) 0x80 = first /\
  has_bits (h264_fu h first lastf) 0x40 = lastf /\
  Z.lor (Z.land (Z.lor (Z.land h 0xe0) 28) 0xe0) (Z.land (h264_fu h first lastf) 0x1f) = h.
Proof.
  revert h. apply byte_cases.
  destruct first, lastf; apply (bool_decide_unpack _); vm_compute; exact I.
Qed.

Lemma h264_read_law : fragment_read_law H264_rtp.
Proof.
  intros u first lastf k m has Hb Hlong Hk. destruct u as [|h u]; [simpl in Hlong; lia|].
  apply Forall_cons in Hb as [Hh _]. destruct (h264_bits h first lastf Hh) as (Ht&Hf&Hl&Hr).
  destruct k as [|k0 k]; [done|]. exists [h; 0]. split; [|done].
  unfold fragment_header. change (write_fragment_header H264_rtp (h :: u)) with (h264_write_fragment_header (h :: u)).
  cbn [h264_write_fragment_header app].
  fold (h264_fu h first lastf). unfold parse_h26x_payload.
  change (rtp_nalu_type H264_rtp ?l) with (h264_rtp_nalu_type l). unfold h264_rtp_nalu_type.
  change (fmap ?f (head (?x :: ?l))) with (Some (Z.land x 0x1f)). cbn [ok_or mbind res_mbind]. rewrite Ht.
  change (is_single_nalu_type H264_rtp 28) with false. change (is_aggregation_nalu_type H264_rtp 28) with false.
  change (is_fragment_nalu_type H264_rtp 28) with true. cbv iota.
  change (parse_fragment_payload H264_rtp) with h264_parse_fragment_payload. unfold h264_parse_fragment_payload.
  rewrite (proj2 (Nat.ltb_ge _ _)) by (simpl; lia).
  cbn [index lookup list_lookup unwrap mbind res_mbind]. unfold index. cbn [lookup list_lookup unwrap mbind res_mbind].
  rewrite (slice_app_r [Z.lor (Z.land h 224) 28; h264_fu h first lastf] (k0 :: k)) by (simpl; lia).
  cbn [mbind res_mbind starts_fragment completes_fragment]. by rewrite Hf, Hl, Hr.
Qed.

Definition h265_fu (h : Z) (first lastf : bool) : Z :=
  Z.lor (Z.lor (if first then 0x80 else 0) (if lastf then 0x40 else 0)) (Z.shiftr (Z.land h 0x7e) 1).

Lemma h265_bits h first lastf : is_byte h ->
  Z.shiftr (Z.land (Z.lor (Z.land h 0x81) (Z.shiftl 49 1)) 0x7e) 1 = 49 /\ has_bits (h265_fu h first lastf) 0x80 = first /\
  has_bits (h265_fu h first lastf) 0x40 = lastf /\
  Z.lor (Z.land (Z.lor (Z.land h 0x81) (Z.shiftl 49 1)) 0x81) (Z.shiftl (Z.land (h265_fu h first lastf) 0x3f) 1 mod 256) = h.
Proof.
  revert h. apply byte_cases.
  destruct first, lastf; apply (bool_decide_unpack _); vm_compute; exact I.
Qed.

Lemma h265_read_law : fragment_read_law H265_rtp.
Proof.
  intros u first lastf k m has Hb Hlong Hk. destruct u as [|h [|h1 u]]; [simpl in Hlong; unfold RTP_MEDIA_PAYLOAD_MAX_BYTES in Hlong; lia..|].
  apply Forall_cons in Hb as [Hh _]. destruct (h265_bits h first lastf Hh) as (Ht&Hf&Hl&Hr).
  destruct k as [|k0 k]; [done|]. exists [h; h1]. split; [|done].
  unfold fragment_header. change (write_fragment_header H265_rtp) with h265_write_fragment_header.
  unfold h265_write_fragment_header.
  rewrite (proj2 (Nat.ltb_ge _ _)) by (simpl; lia). unfold index. cbn [lookup list_lookup unwrap mbind res_mbind app].
  fold (h265_fu h first lastf). unfold parse_h26x_payload.
  change (rtp_nalu_type H265_rtp) with h265_rtp_nalu_type. unfold h265_rtp_nalu_type.
  rewrite (proj2 (Nat.ltb_ge _ _)) by (simpl; lia). unfold index. cbn [lookup list_lookup unwrap mbind res_mbind].
  change (FrameCodec.nal_type ?x) with (Z.shiftr (Z.land x 0x7e) 1). rewrite Ht.
  change (is_single_nalu_type H265_rtp 49) with false. change (is_aggregation_nalu_type H265_rtp 49) with false.
  change (is_fragment_nalu_type H265_rtp 49) with true. cbv iota.
  change (parse_fragment_payload H265_rtp) with h265_parse_fragment_payload. unfold h265_parse_fragment_payload.
  rewrite (proj2 (Nat.ltb_ge _ _)) by (simpl; lia). unfold index. cbn [lookup list_lookup unwrap mbind res_mbind].
  rewrite (slice_app_r [Z.lor (Z.land h 0x81) (Z.shiftl 49 1); h1; h265_fu h first lastf] (k0 :: k)) by (simpl; lia).
  cbn [mbind res_mbind starts_fragment completes_fragment]. by rewrite Hf, Hl, Hr.
Qed.

(** The frame has exactly these units: each is non-empty and holds no start code. *)
Definition unit_ok (u : bytes) : Prop := u ≠ [] /\ forall i, ~ start_code_at u i.

Lemma search_result_unique f s r1 r2 : search_result f s r1 -> search_result f s r2 -> r1 = r2.
Proof.
  destruct r1 as [n|], r2 as [m|]; simpl; try done.
  - intros (i & Hi & Ni & -> & Mi) (j & Hj & Nj & -> & Mj). do 2 f_equal.
    destruct (Nat.lt_trichotomy i j) as [?|[?|?]]; [|done|]; exfalso; [by apply (Mj i)|by apply (Mi j)].
  - intros (i & Hi & Ni & _) H. by destruct (H i).
  - intros H (i & Hi & Ni & _). by destruct (H i).
Qed.

Lemma find_next_is {E} f s r : search_result f s r -> find_next_nalu (E := E) f s = Ok r.
Proof.
  intros Hr. destruct (find_next_nalu_spec (E := E) f s) as (r'&->&Hr'). f_equal. by eapply search_result_unique.
Qed.

(** Around a long start code, only the code itself is found. *)
Lemma start_code_around (p : bytes) u tail j :
  (forall i, ~ start_code_at u i) ->
  (length p <= j < length p + length u + 1)%nat -> ~ start_code_at (p ++ u ++ H26X_LONG_START_CODE ++ tail) j.
Proof.
  intros Hu Hj (H0&H1&H2).
  destruct (Nat.lt_ge_cases (j + 2) (length p + length u)) as [Hin|Hout].
  - apply (Hu (j - length p)%nat). unfold start_code_at.
    rewrite lookup_app_r, lookup_app_l in H0, H1, H2 by lia.
    replace (j + 1 - length p)%nat with (j - length p + 1)%nat in H1 by lia.
    by replace (j + 2 - length p)%nat with (j - length p + 2)%nat in H2 by lia.
  - rewrite lookup_app_r, lookup_app_r in H2 by lia.
    assert (j + 2 - length p - length u = 0 \/ j + 2 - length p - length u = 1 \/ j + 2 - length p - length u = 2)%nat
      as [Hk|[Hk|Hk]] by lia; rewrite Hk in H2; done.
Qed.

Lemma find_code {E} (p : bytes) u tail :
  (forall i, ~ start_code_at u i) -> tail ≠ [] ->
  find_next_nalu (E := E) (p ++ u ++ H26X_LONG_START_CODE ++ tail) (length p) =
    Ok (Some {| start := length p + length u + 4; start_code_len := 4 |}).
Proof.
  intros Hu Ht. apply find_next_is. exists (length p + length u + 1)%nat. split; [lia|].
  assert (forall k, (p ++ u ++ H26X_LONG_START_CODE ++ tail) !! (length p + length u + k)%nat = (H26X_LONG_START_CODE ++ tail) !! k) as Hk.
  { intros k. rewrite app_assoc, lookup_app_r by (rewrite length_app; lia). f_equal. rewrite length_app. lia. }
  split; [split|split].
  - unfold start_code_at. replace (length p + length u + 1 + 1)%nat with (length p + length u + 2)%nat by lia.
    replace (length p + length u + 1 + 2)%nat with (length p + length u + 3)%nat by lia. by rewrite !Hk.
  - rewrite !length_app. destruct tail; [done|simpl; lia].
  - unfold nalu_of. rewrite decide_True; [f_equal; lia|]. split; [lia|].
    replace (length p + length u + 1 - 1)%nat with (length p + length u + 0)%nat by lia. by rewrite Hk.
  - intros j Hj [Hs _]. by apply start_code_around in Hs.
Qed.

Lemma find_none {E} (p : bytes) u : (forall i, ~ start_code_at u i) -> find_next_nalu (E := E) (p ++ u) (length p) = Ok None.
Proof.
  intros Hu. apply find_next_is. intros j Hj [(H0&H1&H2) _]. apply (Hu (j - length p)%nat). unfold start_code_at.
  rewrite lookup_app_r in H0, H1, H2 by lia.
  replace (j + 1 - length p)%nat with (j - length p + 1)%nat in H1 by lia.
  by replace (j + 2 - length p)%nat with (j - length p + 2)%nat in H2 by lia.
Qed.

Lemma annexb_cons u us : annexb_frame (u :: us) = H26X_LONG_START_CODE ++ u ++ annexb_frame us.
Proof. done. Qed.

Lemma annexb_iterates us (p : bytes) : Forall unit_ok us -> us ≠ [] ->
  iterates {| frame := p ++ annexb_frame us; next := Some {| start := length p + 4; start_code_len := 4 |} |} us.
Proof.
  intros Hus. revert p. induction Hus as [|u us [Hne Hu] Hus IH]; intros p Hn; [done|].
  set (q := p ++ H26X_LONG_START_CODE).
  assert (length q = (length p + 4)%nat) as Hq by (unfold q; rewrite length_app; done).
  assert (p ++ annexb_frame (u :: us) = q ++ u ++ annexb_frame us) as -> by (unfold q; by rewrite annexb_cons, <- !app_assoc).
  rewrite <- Hq. set (f := q ++ u ++ annexb_frame us).
  set (nxt := match us with [] => None | _ => Some {| start := length q + length u + 4; start_code_len := 4 |} end).
  assert (forall E, find_next_nalu (E := E) f (length q) = Ok nxt) as Hfind.
  { intros E. unfold f, nxt. destruct us as [|v us]; [unfold annexb_frame; simpl; rewrite app_nil_r; by apply find_none|].
    rewrite annexb_cons. apply find_code; [done|]. apply Forall_cons in Hus as [[Hv _] _]. by destruct v. }
  apply iterates_more with {| frame := f; next := nxt |}; [done| |done|].
  - intros E. unfold iter_next. cbn [next_loop frame next start start_code_len]. rewrite Hfind. cbn [mbind res_mbind].
    assert (match nxt with Some n => start n - start_code_len n | None => length f end = length q + length u)%nat as ->.
    { unfold nxt, f. destruct us; [unfold annexb_frame; simpl; rewrite app_nil_r, length_app; done|simpl; lia]. }
    rewrite (proj2 (Nat.ltb_lt _ _)) by (destruct u; [done|simpl; lia]).
    unfold f. by rewrite (slice_app q u) by done.
  - unfold nxt, f. destruct us as [|v us]; [by constructor|].
    replace (length q + length u + 4)%nat with (length (q ++ u) + 4)%nat by (rewrite length_app; lia).
    rewrite app_assoc. by apply IH.
Qed.

Lemma nalus_annexb us : Forall unit_ok us -> us ≠ [] ->
  exists it, (forall E, nalus (E := E) (annexb_frame us) = Ok it) /\ iterates it us.
Proof.
  intros Hus Hne. exists {| frame := annexb_frame us; next := Some {| start := 4; start_code_len := 4 |} |}.
  split; [|by apply (annexb_iterates us [])]. intros E. unfold nalus.
  destruct us as [|u us]; [done|]. apply Forall_cons in Hus as [[Hu _] _].
  assert (find_next_nalu (E := E) (annexb_frame (u :: us)) 0 = Ok (Some {| start := 4; start_code_len := 4 |})) as ->; [|done].
  apply (find_code (E := E) [] [] (u ++ annexb_frame us)); [|by destruct u].
  intros i (H0&_). by rewrite lookup_nil in H0.
Qed.

(** A unit that a receiver reads from a single payload: its type is that of a
    NAL unit, not of an RTP aggregation or fragment. *)
Definition sent_whole (C : H26xRtpPayload) (u : bytes) : Prop :=
  exists ty, rtp_nalu_type C u = Ok ty /\ is_single_nalu_type C ty = true.

Section H26xReads.
Context (C : H26xRtpPayload) (HC : h26x_laws C) (HR : fragment_read_law C) (c : MediaCodec).
Context (Hparse : forall l m has, parse_payload c l m has = parse_h26x_payload C l m has).

Lemma whole_payload_reads has m u :
  sent_whole C u -> payload_reads c has (m, u) m (H26X_LONG_START_CODE ++ u).
Proof.
  intros (ty&Hty&Hs). eexists. cbn [fst snd]. rewrite Hparse. unfold parse_h26x_payload. rewrite Hty. cbn [mbind res_mbind].
  rewrite Hs. split; [reflexivity|]. done.
Qed.

Lemma fragment_payload_reads has m lastf u k :
  all_bytes u -> (RTP_MEDIA_PAYLOAD_MAX_BYTES < length u)%nat -> k ≠ [] ->
  payload_reads c has (m, fragment_header C u (negb has) lastf ++ k) (m && lastf)
    ((if has then [] else H26X_LONG_START_CODE ++ take (FRAGMENT_HEADER_LEN C - 1) u) ++ k).
Proof.
  intros Hb Hl Hk. destruct (HR u (negb has) lastf k m has Hb Hl Hk) as (h&Hp&H2&Hh).
  eexists. cbn [fst snd]. rewrite Hparse. split; [exact Hp|]. split; [done|]. split; [done|]. intros acc.
  cbn [depacketized append_depacketized starts_fragment nalu_header nalu_header_len fragment_bytes].
  destruct has; cbn [negb mbind res_mbind]; [done|].
  pose proof (law_len C HC). rewrite slice_ok by lia. cbn [mbind res_mbind]. rewrite drop_0, Nat.sub_0_r, Hh.
  by rewrite <- !app_assoc.
Qed.

Lemma unit_fragments_read u has chunks (final : bool) rest fr :
  all_bytes u -> (RTP_MEDIA_PAYLOAD_MAX_BYTES < length u)%nat -> chunks ≠ [] -> Forall (fun k => 1 <= length k)%nat chunks ->
  (final = true -> rest = [] /\ fr = []) -> (final = false -> frame_reads c true rest fr) ->
  frame_reads c has (emit_unit_fragments C u final (negb has) chunks ++ rest)
    ((if has then [] else H26X_LONG_START_CODE ++ take (FRAGMENT_HEADER_LEN C - 1) u) ++ concat chunks ++ fr).
Proof.
  intros Hb Hl Hne Hk Ht Hf. revert has Hne. induction Hk as [|k ks Hk Hks IH]; intros has Hne; [done|].
  assert (k ≠ []) as Hk' by (by destruct k; simpl in Hk; [lia|]).
  destruct (decide (ks = [])) as [->|Hn].
  - cbn [emit_unit_fragments concat]. rewrite app_nil_r. simpl app. rewrite app_assoc. destruct final.
    + destruct (Ht eq_refl) as [-> ->]. rewrite app_nil_r. constructor. by apply fragment_payload_reads.
    + constructor; [by apply fragment_payload_reads|by apply Hf].
  - assert (emit_unit_fragments C u final (negb has) (k :: ks) =
      (false, fragment_header C u (negb has) false ++ k) :: emit_unit_fragments C u final false ks) as -> by (by destruct ks).
    change (concat (k :: ks)) with (k ++ concat ks). rewrite <- app_assoc, app_assoc. simpl app.
    constructor; [by apply fragment_payload_reads|]. by apply (IH true).
Qed.

Lemma whole_units_read has us cut :
  cut_units C us cut -> us ≠ [] -> Forall (fun u => sent_whole C u /\ (length u <= RTP_MEDIA_PAYLOAD_MAX_BYTES)%nat) us ->
  frame_reads c has (emit_units C cut) (annexb_frame us).
Proof.
  intros [<- _] Hne Hw. revert has Hne. induction cut as [|[u ks] cut IH]; intros has Hne; [done|].
  rewrite fmap_cons in *. apply Forall_cons in Hw as [[Hw Hs] Hws]. rewrite annexb_cons, app_assoc.
  cbn [emit_units]. unfold emit_unit. cbn [fst snd] in *. rewrite (proj2 (Nat.leb_le _ _)) by done.
  destruct cut as [|e cut].
  - cbn [emit_units app fmap list_fmap]. change (annexb_frame []) with ([] : bytes). rewrite app_nil_r. constructor.
    by apply whole_payload_reads.
  - rewrite (bool_decide_eq_false_2 (e :: cut = [])) by done.
    apply (reads_more c has (false, u) (H26X_LONG_START_CODE ++ u)); [by apply whole_payload_reads|by apply IH].
Qed.

Lemma units_read u us cut :
  cut_units C (u :: us) cut -> Forall unit_ok (u :: us) -> all_bytes u ->
  ((RTP_MEDIA_PAYLOAD_MAX_BYTES < length u)%nat \/ sent_whole C u) ->
  Forall (fun u => sent_whole C u /\ (length u <= RTP_MEDIA_PAYLOAD_MAX_BYTES)%nat) us ->
  frame_reads c false (emit_units C cut) (annexb_frame (u :: us)).
Proof.
  intros Hcut Hok Hb Hu Hus. destruct (Nat.le_gt_cases (length u) RTP_MEDIA_PAYLOAD_MAX_BYTES) as [Hs|Hl].
  { eapply whole_units_read; [done..|]. constructor; [split; [destruct Hu; [lia|done]|done]|done]. }
  destruct cut as [|[v ks] cut]; destruct Hcut as [Hc1 Hc2]; [done|]. rewrite fmap_cons in Hc1. injection Hc1 as -> Hc1.
  apply Forall_cons in Hc2 as [Hch Hc2]. cbn [fst snd] in Hch. destruct (Hch Hl) as (Hne&Hcat&Hks).
  rewrite annexb_cons. cbn [emit_units]. unfold emit_unit. cbn [fst snd]. rewrite (proj2 (Nat.leb_gt _ _)) by done.
  assert (u ++ annexb_frame us = take (FRAGMENT_HEADER_LEN C - 1) u ++ concat ks ++ annexb_frame us) as ->.
  { rewrite Hcat. unfold unit_body. by rewrite (app_assoc (take _ _)), take_drop. }
  rewrite app_assoc. apply (unit_fragments_read u false ks (bool_decide (cut = []))); [done..| | |].
  - eapply Forall_impl; [exact Hks|]. simpl. lia.
  - intros ->%bool_decide_eq_true_1. by rewrite <- Hc1.
  - intros Hn%bool_decide_eq_false_1. apply (whole_units_read true us cut); [by split| |done].
    rewrite <- Hc1. by destruct cut.
Qed.
End H26xReads.

Section H26xWire.
Context (C : H26xRtpPayload) (HC : h26x_laws C).

Lemma fragment_header_length u a b : (RTP_MEDIA_PAYLOAD_MAX_BYTES < length u)%nat -> length (fragment_header C u a b) = FRAGMENT_HEADER_LEN C.
Proof.
  intros Hl. destruct (law_long C HC u Hl) as [_ Hw]. destruct (Hw a b) as [h Hh]. pose proof (law_write C HC u a b) as Hs.
  unfold fragment_header. rewrite Hh in *. exact Hs.
Qed.

Lemma unit_fragments_wire u (final first : bool) chunks rest :
  (RTP_MEDIA_PAYLOAD_MAX_BYTES < length u)%nat -> chunks ≠ [] ->
  Forall (fun k => 1 <= length k <= RTP_MEDIA_PAYLOAD_MAX_BYTES - FRAGMENT_HEADER_LEN C)%nat chunks ->
  (final = true -> rest = []) -> (final = false -> wire_payloads true rest) ->
  wire_payloads true (emit_unit_fragments C u final first chunks ++ rest).
Proof.
  intros Hl Hne Hk Ht Hf. revert first Hne. induction Hk as [|k ks Hk Hks IH]; intros first Hne; [done|].
  assert (forall a b, 1 <= length (fragment_header C u a b ++ k) <= RTP_MEDIA_PAYLOAD_MAX_BYTES)%nat as Hw.
  { intros a b. rewrite length_app, fragment_header_length by done. pose proof (law_len C HC). lia. }
  destruct (decide (ks = [])) as [->|Hn].
  - cbn [emit_unit_fragments app]. destruct final; [rewrite Ht by done|]; constructor; auto.
  - assert (emit_unit_fragments C u final first (k :: ks) =
      (false, fragment_header C u first false ++ k) :: emit_unit_fragments C u final false ks) as -> by (by destruct ks).
    constructor; [apply Hw|by apply IH].
Qed.

Lemma emit_units_wire us cut :
  cut_units C us cut -> us ≠ [] -> Forall (fun u => u ≠ []) us -> wire_payloads true (emit_units C cut).
Proof.
  intros [<- Hc] Hne Hu. induction Hc as [|[u ks] cut Hk Hc IH]; [done|].
  rewrite fmap_cons in Hu. apply Forall_cons in Hu as [Hun Hu]. cbn [fst snd] in *. cbn [emit_units].
  assert (bool_decide (cut = []) = true -> emit_units C cut = []) as Ht by (by intros ->%bool_decide_eq_true_1).
  assert (bool_decide (cut = []) = false -> wire_payloads true (emit_units C cut)) as Hf.
  { intros Hn%bool_decide_eq_false_1. apply IH; [by destruct cut|done]. }
  unfold emit_unit. cbn [fst snd]. destruct (Nat.leb_spec (length u) RTP_MEDIA_PAYLOAD_MAX_BYTES) as [Hs|Hl].
  - assert (1 <= length u <= RTP_MEDIA_PAYLOAD_MAX_BYTES)%nat by (destruct u; [done|simpl in *; lia]).
    cbn [app]. destruct (bool_decide (cut = [])); [rewrite Ht by done|]; constructor; auto.
  - destruct (Hk Hl) as (Hkn&_&Hkf). by apply unit_fragments_wire.
Qed.
End H26xWire.

Lemma h264_next c q : packetizer_next {| pk_codec := c; pk_state := PacketH264 q |} =
  ('(o, q) ← h26x_next_payload H264_rtp q;
   Ok (o, {| pk_codec := c; pk_state := match o with None => Done | Some _ => PacketH264 q end |})).
Proof. unfold packetizer_next. cbn [pk_state pk_codec]. by destruct (h26x_next_payload H264_rtp q) as [[[|] ?]| |]. Qed.

Lemma h265_next c q : packetizer_next {| pk_codec := c; pk_state := PacketH265 q |} =
  ('(o, q) ← h26x_next_payload H265_rtp q;
   Ok (o, {| pk_codec := c; pk_state := match o with None => Done | Some _ => PacketH265 q end |})).
Proof. unfold packetizer_next. cbn [pk_state pk_codec]. by destruct (h26x_next_payload H265_rtp q) as [[[|] ?]| |]. Qed.

(** The packetizer of a frame whose iterator yields the units [us]. *)
Lemma h26x_packetize C K c f us it :
  h26x_laws C ->
  (forall c q, packetizer_next {| pk_codec := c; pk_state := K q |} =
    ('(o, q) ← h26x_next_payload C q; Ok (o, {| pk_codec := c; pk_state := match o with None => Done | Some _ => K q end |}))) ->
  (forall E, nalus (E := E) f = Ok it) -> iterates it us -> us ≠ [] -> (length (concat us) <= length f)%nat ->
  exists cut, cut_units C us cut /\
    (q ← h26x_new C f; packetize_loop (length f + 1) {| pk_codec := c; pk_state := K q |}) = Ok (emit_units C cut).
Proof.
  intros HC HK Hit Hus Hne Hlen. unfold h26x_new. rewrite Hit. cbn [mbind res_mbind].
  destruct (iterates_next _ _ Hus) as (n&it'&Hn&Hm). rewrite Hn. cbn [mbind res_mbind].
  destruct us as [|u us]; [done|]. destruct Hm as (->&Hu&Hus'). cbn [mbind res_mbind].
  destruct (h26x_loop C HC K HK (length f + 1) c {| pk_nalus := it'; pk_nalu := Some u; pk_fragment_offset := 0 |} u us)
    as (l&->&cut&Hcut&->); [done..|simpl; lia|cbn [pk_fragment_offset]; lia|]. by exists cut.
Qed.

Lemma h26x_packetize_wire C K c f :
  h26x_laws C ->
  (forall c q, packetizer_next {| pk_codec := c; pk_state := K q |} =
    ('(o, q) ← h26x_next_payload C q; Ok (o, {| pk_codec := c; pk_state := match o with None => Done | Some _ => K q end |}))) ->
  safe (q ← h26x_new C f; packetize_loop (length f + 1) {| pk_codec := c; pk_state := K q |}) (wire_payloads true).
Proof.
  intros HC HK. destruct (nalus_ok (E := Empty_set) f) as (it&Hit&Hok&_&Hrem).
  destruct (iterates_total it Hok) as (us&Hus&Hlen).
  assert (forall E, nalus (E := E) f = Ok it) as Hall.
  { intros E. unfold nalus in *. apply bind_Ok_inv in Hit as (r&Hr&[= <-]). by rewrite (find_next_nalu_ok (F := E) _ _ _ Hr). }
  destruct (decide (us = [])) as [->|Hne].
  - unfold h26x_new. rewrite Hall. cbn [mbind res_mbind]. destruct (iterates_next _ _ Hus) as (n&it'&Hn&->). by rewrite Hn.
  - destruct (h26x_packetize C K c f us it HC HK Hall Hus Hne ltac:(lia)) as (cut&Hcut&->).
    apply (emit_units_wire C HC us); [done..|]. clear -Hus. induction Hus; by constructor.
Qed.

(** Every frame is cut into payloads that fit, or refused. *)
Lemma packetize_ok c frame :
  all_bytes frame ->
  safe (packetize c frame) (wire_payloads (bool_decide (media_type c = Video))).
Proof.
  intros Hb. unfold packetize, packetizer_new. destruct frame as [|b fr]; [done|]. set (f := b :: fr) in *.
  assert (1 <= length f)%nat as Hf by (simpl; lia).
  destruct c; cbn [packetizer_state mbind res_mbind].
  - rewrite Nat.add_comm. cbn [Nat.add]. rewrite packetize_loop_S. unfold packetizer_next. cbn [pk_state pk_codec].
    destruct (Nat.ltb_spec RTP_MEDIA_PAYLOAD_MAX_BYTES (length f)); [done|]. cbn [mbind res_mbind].
    destruct (length f) as [|n] eqn:Hl; [lia|]. simpl. constructor. lia.
  - destruct (fragmented_loop (length f + 1) Vp8 f 0 HeaderVp8) as (ch&->&Hch); [lia..|]. by eapply emit_fragments_wire.
  - destruct (fragmented_loop (length f + 1) Vp9 f 0 HeaderVp9) as (ch&->&Hch); [lia..|]. by eapply emit_fragments_wire.
  - pose proof (h26x_packetize_wire H264_rtp PacketH264 H264 f h264_laws h264_next) as Hw. by destruct (h26x_new H264_rtp f).
  - pose proof (h26x_packetize_wire H265_rtp PacketH265 H265 f h265_laws h265_next) as Hw. by destruct (h26x_new H265_rtp f).
  - eapply safe_mono; [apply av1_loop; [done|split; simpl; lia|simpl; lia]|].
    intros l (obus&Hob&->). eapply emit_obus_wire; [|exact Hob]. intros ->. by apply obus_of_nil in Hob as [_ Hn]; specialize (Hn eq_refl).
Qed.

(** Packetizing any frame: for every codec and every frame bytes the
    packetizer loop terminates without panicking, with an error or with a
    non-empty list of payloads of 1 to 1200 bytes; the marker bit is set on the
    last payload of a video frame and on no other payload. *)
Theorem packetize_wire c frame :
  all_bytes frame ->
  safe (packetize c frame) (wire_payloads (bool_decide (media_type c = Video))).
Proof. apply packetize_ok. Qed.

Lemma packetize_wire_witness : safe (packetize H264 [0; 0; 1; 0x67; 9; 0; 0; 1; 0x65; 1; 2; 3]) (wire_payloads true).
Proof. apply (packetize_wire H264 [0; 0; 1; 0x67; 9; 0; 0; 1; 0x65; 1; 2; 3]). compute_bytes. Defined.

(** Frames of the other codecs read back exactly. *)
Lemma packetize_reads c frame l :
  c ≠ H264 -> c ≠ H265 -> all_bytes frame -> packetize c frame = Ok l -> frame_reads c false l frame.
Proof.
  intros Hc1 Hc2 Hb. unfold packetize, packetizer_new. destruct frame as [|b fr]; [done|]. set (f := b :: fr) in *.
  assert (1 <= length f)%nat as Hf by (simpl; lia).
  destruct c; try done; cbn [packetizer_state mbind res_mbind].
  - rewrite Nat.add_comm. cbn [Nat.add]. rewrite packetize_loop_S. unfold packetizer_next. cbn [pk_state pk_codec].
    destruct (Nat.ltb_spec RTP_MEDIA_PAYLOAD_MAX_BYTES (length f)); [done|]. cbn [mbind res_mbind].
    destruct (length f) as [|n] eqn:Hl; [lia|]. simpl. intros [= <-]. constructor. eexists. split; [reflexivity|]. done.
  - destruct (fragmented_loop (length f + 1) Vp8 f 0 HeaderVp8) as (ch&->&Hch); [lia..|]. intros [= <-].
    apply (emit_fragments_reads Vp8 HeaderVp8 false ch f 1199); auto.
  - destruct (fragmented_loop (length f + 1) Vp9 f 0 HeaderVp9) as (ch&->&Hch); [lia..|]. intros [= <-].
    apply (emit_fragments_reads Vp9 HeaderVp9 false ch f 1199); auto.
  - pose proof (av1_loop (length f + 1) Av1 f {| obu_start := 0; obu_end := 0; av1_fragment_offset := 0 |} Hb) as Hs.
    intros Heq. rewrite Heq in Hs. destruct Hs as (obus&Hob&->); [split; simpl; lia|simpl; lia|].
    apply emit_obus_reads; [|done]. intros ->. by apply obus_of_nil in Hob as [_ Hn]; specialize (Hn eq_refl).
Qed.

(** H.26x frames of which at most the first unit is fragmented read back. *)
Lemma h26x_packetize_reads C K c u us :
  h26x_laws C -> fragment_read_law C ->
  (forall c q, packetizer_next {| pk_codec := c; pk_state := K q |} =
    ('(o, q) ← h26x_next_payload C q; Ok (o, {| pk_codec := c; pk_state := match o with None => Done | Some _ => K q end |}))) ->
  (forall l m has, parse_payload c l m has = parse_h26x_payload C l m has) ->
  (forall f, packetizer_state c f = (q ← h26x_new C f; Ok (K q))) ->
  Forall unit_ok (u :: us) -> all_bytes u ->
  ((RTP_MEDIA_PAYLOAD_MAX_BYTES < length u)%nat \/ sent_whole C u) ->
  Forall (fun u => sent_whole C u /\ (length u <= RTP_MEDIA_PAYLOAD_MAX_BYTES)%nat) us ->
  exists l, packetize c (annexb_frame (u :: us)) = Ok l /\ frame_reads c false l (annexb_frame (u :: us)).
Proof.
  intros HC HR HK Hparse Hst Hok Hb Hu Hus. destruct (nalus_annexb (u :: us) Hok) as (it&Hit&Hits); [done|].
  destruct (h26x_packetize C K c (annexb_frame (u :: us)) (u :: us) it HC HK Hit Hits) as (cut&Hcut&Hl); [done| |].
  { clear. induction (u :: us) as [|v vs IH]; [done|]. rewrite annexb_cons. simpl concat. rewrite !length_app. lia. }
  exists (emit_units C cut). split; [|by apply (units_read C HC HR c Hparse)].
  unfold packetize, packetizer_new. rewrite annexb_cons in *. cbn [app H26X_LONG_START_CODE] in *.
  rewrite Hst. by destruct (h26x_new C _).
Qed.
End Packetize.
