(* ===== verification/Assembler.v ===== *)
(** * The RTP frame assembler

    [RtpFrameAssembler] and [PartialRtpFrame] of [media.rs], with
    [PendingMediaPacket] and [PendingMediaFrame] of [state.rs]: packets of one
    stream, handed over in sequence order, are joined to media frames.  Every
    operation returns the assembler also when it fails, because the source
    changes it before it returns an error. *)

From S2P Require Import Prelude Leb128 Codec Frame FrameCodec Rtp RtpPayload Packetize.
Import Rtp.Rtp RtpPayload.RtpPayload Packetize.Packetize.

Module Assembler.

(** The trait [FrameRaw]. *)
Class FrameRaw := { raw_packet : Type; raw_frame : Type; from_rtp_packets : list raw_packet -> raw_frame }.

Inductive DavePendingMediaReason :=
| MissingUser | SessionNotReady | GatewayPending | DecryptStatePending | NoValidCryptorPending
| StableDecryptFailure | Expired.

Section Assembler.
Context {R : FrameRaw}.

Record PendingMediaPacket := {
  pkt_raw : raw_packet; pkt_rtp : RtpHeader; pkt_user_id : option Z; pkt_codec : MediaCodec;
  encrypted_payload : bytes; pkt_dave : bool }.

Record PendingMediaFrame := {
  frame_raw : raw_frame; frame_rtp : RtpHeader; frame_user_id : option Z; frame_codec : MediaCodec;
  encrypted_frame : bytes; frame_dave : bool; enqueued_at : Z; reason : DavePendingMediaReason; was_pending : bool }.

Record PartialRtpFrame := {
  raw_packets : list raw_packet; part_rtp : RtpHeader; part_user_id : option Z; part_codec : MediaCodec;
  part_frame : bytes; part_dave : bool; last_seq : Z }.

Record RtpFrameAssembler := { partial : option PartialRtpFrame; completed : list PendingMediaFrame }.

Definition assembler_default : RtpFrameAssembler := {| partial := None; completed := [] |}.

Definition partial_new (p : PendingMediaPacket) : PartialRtpFrame :=
  {| raw_packets := []; part_rtp := pkt_rtp p; part_user_id := pkt_user_id p; part_codec := pkt_codec p;
     part_frame := []; part_dave := pkt_dave p; last_seq := seq (pkt_rtp p) |}.

Definition matches_context (t : PartialRtpFrame) (p : PendingMediaPacket) : bool :=
  (ssrc (part_rtp t) =? ssrc (pkt_rtp p)) && bool_decide (part_codec t = pkt_codec p) && Bool.eqb (part_dave t) (pkt_dave p).

Definition accepts_next (t : PartialRtpFrame) (p : PendingMediaPacket) : bool :=
  matches_context t p && (seq (pkt_rtp p) =? wrapping_add u16_mod (last_seq t) 1).

Definition should_complete_before (t : PartialRtpFrame) (p : PendingMediaPacket) : bool :=
  bool_decide (part_codec t = Av1) && matches_context t p && negb (timestamp (part_rtp t) =? timestamp (pkt_rtp p)).

Definition append_payload (t : PartialRtpFrame) (sq : Z) (payload : ParsedRtpPayload) : res RtpError PartialRtpFrame :=
  f ← append_depacketized (depacketized payload) (part_frame t);
  Ok {| raw_packets := raw_packets t; part_rtp := part_rtp t; part_user_id := part_user_id t; part_codec := part_codec t;
        part_frame := f; part_dave := part_dave t; last_seq := sq |}.

Definition push_raw_packet (t : PartialRtpFrame) (r : raw_packet) : PartialRtpFrame :=
  {| raw_packets := raw_packets t ++ [r]; part_rtp := part_rtp t; part_user_id := part_user_id t; part_codec := part_codec t;
     part_frame := part_frame t; part_dave := part_dave t; last_seq := last_seq t |}.

Definition into_pending (now : Z) (t : PartialRtpFrame) : PendingMediaFrame :=
  {| frame_raw := from_rtp_packets (raw_packets t); frame_rtp := part_rtp t; frame_user_id := part_user_id t;
     frame_codec := part_codec t; encrypted_frame := part_frame t; frame_dave := part_dave t; enqueued_at := now;
     reason := DecryptStatePending; was_pending := false |}.

Definition partial_is (f : PartialRtpFrame -> bool) (a : RtpFrameAssembler) : bool :=
  match partial a with Some t => f t | None => false end.

Definition has_matching_partial (p : PendingMediaPacket) (a : RtpFrameAssembler) : bool := partial_is (fun t => matches_context t p) a.
Definition has_contiguous_partial (p : PendingMediaPacket) (a : RtpFrameAssembler) : bool := partial_is (fun t => accepts_next t p) a.
Definition partial_should_complete_before (p : PendingMediaPacket) (a : RtpFrameAssembler) : bool :=
  partial_is (fun t => should_complete_before t p) a.

Definition set_partial (t : option PartialRtpFrame) (a : RtpFrameAssembler) : RtpFrameAssembler :=
  {| partial := t; completed := completed a |}.

Definition push_completed (f : PendingMediaFrame) (a : RtpFrameAssembler) : RtpFrameAssembler :=
  {| partial := partial a; completed := completed a ++ [f] |}.

Definition pop_completed (a : RtpFrameAssembler) : option PendingMediaFrame * RtpFrameAssembler :=
  match completed a with
  | [] => (None, a)
  | f :: l => (Some f, {| partial := partial a; completed := l |})
  end.

Definition has_completed_frame (a : RtpFrameAssembler) : bool := match completed a with [] => false | _ => true end.

Definition clear (a : RtpFrameAssembler) : RtpFrameAssembler := assembler_default.

(** Returning [self.completed.pop_front()]. *)
Definition finish (a : RtpFrameAssembler) : res RtpError (option PendingMediaFrame) * RtpFrameAssembler :=
  let '(f, a) := pop_completed a in (Ok f, a).

(** The first two statements of [push_packet]: an AV1 frame ends where the
    timestamp changes, and a gap drops the frame in progress. *)
Definition end_on_timestamp (now : Z) (p : PendingMediaPacket) (a : RtpFrameAssembler) : RtpFrameAssembler :=
  if partial_should_complete_before p a then
    match partial a with Some t => push_completed (into_pending now t) (set_partial None a) | None => a end
  else a.

Definition drop_on_gap (p : PendingMediaPacket) (a : RtpFrameAssembler) : RtpFrameAssembler :=
  if negb (has_contiguous_partial p a) && has_matching_partial p a then set_partial None a else a.

(** [now] is [Instant::now()] of [into_pending]. *)
Definition push_packet (now : Z) (p : PendingMediaPacket) (a : RtpFrameAssembler)
    : res RtpError (option PendingMediaFrame) * RtpFrameAssembler :=
  let a := end_on_timestamp now p a in
  let continues_partial := has_contiguous_partial p a in
  let a := drop_on_gap p a in
  match parse_payload (pkt_codec p) (encrypted_payload p) (marker (pkt_rtp p)) continues_partial with
  | Err e => (Err e, a)
  | Panic => (Panic, a)
  | Ok payload =>
      if negb continues_partial && negb (starts_frame payload) then finish a
      else
        let '(o, a) :=
          if continues_partial && negb (starts_frame payload) then (partial a, set_partial None a)
          else (Some (partial_new p), a) in
        match o with
        | None => (Panic, a)
        | Some t =>
            match append_payload t (seq (pkt_rtp p)) payload with
            | Err e => (Err e, a)
            | Panic => (Panic, a)
            | Ok t =>
                let t := push_raw_packet t (pkt_raw p) in
                finish (if completes_frame payload then push_completed (into_pending now t) a else set_partial (Some t) a)
            end
        end
  end.

(** Pushing the packets of a list; [times] are the clock readings. *)
Fixpoint push_all (l : list (Z * PendingMediaPacket)) (a : RtpFrameAssembler)
    : list (res RtpError (option PendingMediaFrame)) * RtpFrameAssembler :=
  match l with
  | [] => ([], a)
  | (now, p) :: l =>
      let '(r, a) := push_packet now p a in
      let '(rs, a) := push_all l a in (r :: rs, a)
  end.

(** ** Invariant: frames are built from consecutive packets *)
Context (seq_of : raw_packet -> Z).

Definition consecutive (first : Z) (l : list raw_packet) : Prop :=
  forall i r, l !! i = Some r -> seq_of r = wrapping_add u16_mod first (Z.of_nat i).

Record partial_ok (t : PartialRtpFrame) : Prop := {
  ok_seq : is_u16 (seq (part_rtp t));
  ok_consecutive : consecutive (seq (part_rtp t)) (raw_packets t);
  ok_last : last_seq t = wrapping_add u16_mod (seq (part_rtp t)) (Z.of_nat (length (raw_packets t)) - 1);
  ok_nonempty : raw_packets t ≠ [] }.

(** A frame as it may be handed over: its packets have consecutive sequence
    numbers, starting with the frame's own. *)
Definition frame_ok (f : PendingMediaFrame) : Prop :=
  exists l, l ≠ [] /\ frame_raw f = from_rtp_packets l /\ consecutive (seq (frame_rtp f)) l.

Definition assembler_ok (a : RtpFrameAssembler) : Prop :=
  (forall t, partial a = Some t -> partial_ok t) /\ Forall frame_ok (completed a).

Definition packet_ok (p : PendingMediaPacket) : Prop :=
  all_bytes (encrypted_payload p) /\ is_u16 (seq (pkt_rtp p)) /\ seq_of (pkt_raw p) = seq (pkt_rtp p).

Lemma into_pending_ok now t : partial_ok t -> frame_ok (into_pending now t).
Proof. intros [_ Hc _ Hn]. by exists (raw_packets t). Qed.

Lemma assembler_ok_default : assembler_ok assembler_default.
Proof. by split. Qed.

Lemma set_partial_ok t a : assembler_ok a -> (forall x, t = Some x -> partial_ok x) -> assembler_ok (set_partial t a).
Proof. intros [_ Hc] Ht. by split. Qed.

Lemma push_completed_ok f a : assembler_ok a -> frame_ok f -> assembler_ok (push_completed f a).
Proof. intros [Hp Hc] Hf. split; [done|]. apply Forall_app. auto. Qed.

Lemma finish_ok a : assembler_ok a ->
  exists f a', finish a = (Ok f, a') /\ assembler_ok a' /\ (forall x, f = Some x -> frame_ok x).
Proof.
  intros [Hp Hc]. unfold finish, pop_completed. destruct (completed a) as [|f l] eqn:Hl; (do 2 eexists; split; [reflexivity|]).
  - split; [|done]. split; [done|by rewrite Hl].
  - apply Forall_cons in Hc as [Hf Hc]. split; [by split|]. naive_solver.
Qed.

Lemma end_on_timestamp_ok now p a : assembler_ok a -> assembler_ok (end_on_timestamp now p a).
Proof.
  intros Ha. unfold end_on_timestamp. destruct (partial_should_complete_before p a); [|done].
  destruct (partial a) as [t|] eqn:Ht; [|done]. apply push_completed_ok; [by apply set_partial_ok|].
  apply into_pending_ok. by apply Ha.
Qed.

Lemma drop_on_gap_ok p a : assembler_ok a -> assembler_ok (drop_on_gap p a).
Proof. intros Ha. unfold drop_on_gap. destruct (_ && _); [by apply set_partial_ok|done]. Qed.

(** The partial frame a packet continues survives the gap check. *)
Lemma contiguous_kept p a : has_contiguous_partial p a = true ->
  exists t, partial (drop_on_gap p a) = Some t /\ partial a = Some t /\ accepts_next t p = true.
Proof.
  intros Hc. unfold drop_on_gap. rewrite Hc. simpl. unfold has_contiguous_partial, partial_is in Hc.
  destruct (partial a) as [t|]; [|done]. by exists t.
Qed.

(** Appending a packet to a partial frame it continues. *)
Lemma extend_ok t p sq f :
  partial_ok t -> seq (pkt_rtp p) = sq -> sq = wrapping_add u16_mod (last_seq t) 1 -> packet_ok p ->
  partial_ok {| raw_packets := raw_packets t ++ [pkt_raw p]; part_rtp := part_rtp t; part_user_id := part_user_id t;
                part_codec := part_codec t; part_frame := f; part_dave := part_dave t; last_seq := sq |}.
Proof.
  intros [Hs Hc Hl Hn] Hsq Hnext (_&_&Hraw).
  assert (sq = wrapping_add u16_mod (seq (part_rtp t)) (Z.of_nat (length (raw_packets t)))) as Hsq'.
  { rewrite Hnext, Hl. unfold wrapping_add. rewrite Zplus_mod_idemp_l. f_equal. lia. }
  split; cbn [part_rtp raw_packets last_seq]; [done| | |by destruct (raw_packets t)].
  - intros i r Hi. apply lookup_app_Some in Hi as [Hi|[Hge Hi]]; [by apply Hc|].
    apply list_lookup_singleton_Some in Hi as [Hi <-]. rewrite Hraw, Hsq, Hsq'. do 2 f_equal. lia.
  - rewrite Hsq'. do 2 f_equal. rewrite length_app. simpl. lia.
Qed.

Lemma fresh_ok p f : packet_ok p ->
  partial_ok {| raw_packets := [pkt_raw p]; part_rtp := pkt_rtp p; part_user_id := pkt_user_id p; part_codec := pkt_codec p;
                part_frame := f; part_dave := pkt_dave p; last_seq := seq (pkt_rtp p) |}.
Proof.
  intros (_&Hs&Hraw). split; cbn [part_rtp raw_packets last_seq]; [done| | |done].
  - intros i r Hi. apply list_lookup_singleton_Some in Hi as [-> <-]. rewrite Hraw. unfold wrapping_add. rewrite Z.add_0_r.
    by rewrite Z.mod_small.
  - unfold is_u16 in Hs. unfold wrapping_add. simpl length. rewrite Z.mod_small; lia.
Qed.

Lemma push_packet_ok now p a :
  assembler_ok a -> packet_ok p ->
  exists r a', push_packet now p a = (r, a') /\ r ≠ Panic /\ assembler_ok a' /\ (forall f, r = Ok (Some f) -> frame_ok f).
Proof.
  intros Ha Hp. unfold push_packet. pose proof (end_on_timestamp_ok now p a Ha) as Ha1.
  set (a1 := end_on_timestamp now p a) in *. pose proof (drop_on_gap_ok p a1 Ha1) as Ha2.
  pose proof (parse_payload_safe (pkt_codec p) (encrypted_payload p) (marker (pkt_rtp p)) (has_contiguous_partial p a1) (proj1 Hp)) as Hs.
  destruct (parse_payload _ _ _ _) as [payload|e|]; [|by do 2 eexists|done]. simpl in Hs.
  assert (forall a', assembler_ok a' -> exists r a'', finish a' = (r, a'') /\ r ≠ Panic /\ assembler_ok a'' /\
    (forall f, r = Ok (Some f) -> frame_ok f)) as Hfin.
  { intros a' Ha'. destruct (finish_ok a' Ha') as (f&a''&->&Hok&Hf). do 2 eexists. split; [done|]. split; [done|].
    split; [done|]. intros x [= ->]. by apply Hf. }
  destruct (_ && _) eqn:Hskip; [by apply Hfin|].
  assert (forall t a', assembler_ok a' ->
    (forall f, partial_ok (push_raw_packet {| raw_packets := raw_packets t; part_rtp := part_rtp t; part_user_id := part_user_id t;
       part_codec := part_codec t; part_frame := f; part_dave := part_dave t; last_seq := seq (pkt_rtp p) |} (pkt_raw p))) ->
    exists r a'', match append_payload t (seq (pkt_rtp p)) payload with
      | Err e => (Err e, a') | Panic => (Panic, a')
      | Ok t => finish (if completes_frame payload then push_completed (into_pending now (push_raw_packet t (pkt_raw p))) a'
                        else set_partial (Some (push_raw_packet t (pkt_raw p))) a')
      end = (r, a'') /\ r ≠ Panic /\ assembler_ok a'' /\ (forall f, r = Ok (Some f) -> frame_ok f)) as Happ.
  { intros t a' Ha' Ht. unfold append_payload. pose proof (append_depacketized_safe _ (part_frame t) Hs) as Hap.
    destruct (append_depacketized _ _) as [fb|e|]; [|by do 2 eexists|done]. cbn [mbind res_mbind]. apply Hfin.
    destruct (completes_frame payload); [apply push_completed_ok; [done|by apply into_pending_ok]|].
    apply set_partial_ok; [done|]. by intros x [= <-]. }
  destruct (has_contiguous_partial p a1 && negb (starts_frame payload)) eqn:Hcont.
  - apply andb_true_iff in Hcont as [Hc _]. destruct (contiguous_kept p a1 Hc) as (t&Ht&Ht1&Hacc). rewrite Ht.
    apply Happ; [by apply set_partial_ok|]. intros f. apply andb_true_iff in Hacc as [_ Hq%Z.eqb_eq].
    exact (extend_ok t p (seq (pkt_rtp p)) f (proj1 Ha1 t Ht1) eq_refl Hq Hp).
  - apply Happ; [done|]. intros f. exact (fresh_ok p f Hp).
Qed.

(** Frame integrity: whatever packets are pushed (of any streams, in any
    order, with any payload bytes), the assembler never panics, and every
    frame it hands over was built from packets with consecutive sequence
    numbers, the first being the packet whose header the frame carries: a frame
    with a lost packet in it is never delivered. *)
Theorem assembler_frames_contiguous l a :
  assembler_ok a -> Forall (fun e => packet_ok e.2) l ->
  let '(rs, a') := push_all l a in
  assembler_ok a' /\ Forall (fun r => r ≠ Panic /\ forall f, r = Ok (Some f) -> frame_ok f) rs.
Proof.
  intros Ha Hl. revert a Ha. induction Hl as [|[now p] l Hp Hl IH]; intros a Ha; simpl; [by split|].
  destruct (push_packet_ok now p a Ha Hp) as (r&a1&->&Hr&Ha1&Hf).
  specialize (IH a1 Ha1). destruct (push_all l a1) as [rs a2]. destruct IH as [Ha2 Hrs]. split; [done|]. by constructor.
Qed.
End Assembler.

(** ** Delivery of packetized frames *)
Section Delivery.
Context {R : FrameRaw}.

(** A packet that carries one payload of a frame. *)
Definition carries (c : MediaCodec) (sr ts : Z) (d : bool) (e : bool * bytes) (p : PendingMediaPacket) : Prop :=
  pkt_codec p = c /\ encrypted_payload p = e.2 /\ marker (pkt_rtp p) = e.1 /\ ssrc (pkt_rtp p) = sr /\
  timestamp (pkt_rtp p) = ts /\ pkt_dave p = d.

(** The packets of a frame, numbered from [s]. *)
Fixpoint frame_packets (c : MediaCodec) (sr ts : Z) (d : bool) (s : Z) (l : list (bool * bytes)) (ps : list (Z * PendingMediaPacket)) : Prop :=
  match l, ps with
  | [], [] => True
  | e :: l, (_, p) :: ps => carries c sr ts d e p /\ seq (pkt_rtp p) = s /\ frame_packets c sr ts d (wrapping_add u16_mod s 1) l ps
  | _, _ => False
  end.

Definition emitted (rs : list (res RtpError (option PendingMediaFrame))) : list PendingMediaFrame :=
  omap (fun r => match r with Ok o => o | _ => None end) rs.

Definition accepted (rs : list (res RtpError (option PendingMediaFrame))) : Prop := Forall (fun r => exists o, r = Ok o) rs.

(** The next packet of the frame in progress. *)
Lemma push_next now p t c sr ts d e completes part :
  carries c sr ts d e p -> ssrc (part_rtp t) = sr -> part_codec t = c -> part_dave t = d -> timestamp (part_rtp t) = ts ->
  seq (pkt_rtp p) = wrapping_add u16_mod (last_seq t) 1 -> payload_reads c true e completes part ->
  let t' := push_raw_packet {| raw_packets := raw_packets t; part_rtp := part_rtp t; part_user_id := part_user_id t;
    part_codec := part_codec t; part_frame := part_frame t ++ part; part_dave := part_dave t; last_seq := seq (pkt_rtp p) |} (pkt_raw p) in
  push_packet now p {| partial := Some t; completed := [] |} =
    if completes then (Ok (Some (into_pending now t')), assembler_default) else (Ok None, {| partial := Some t'; completed := [] |}).
Proof.
  intros (Hc&Hp&Hm&Hs&Hts&Hd) Hs' Hc' Hd' Hts' Hsq (q&Hq&Hst&Hco&Hap) t'.
  assert (matches_context t p = true) as Hmatch.
  { unfold matches_context. rewrite Hs, Hs', Hc, Hc', Hd, Hd', Z.eqb_refl, bool_decide_eq_true_2, Bool.eqb_reflx by done. done. }
  unfold push_packet.
  assert (end_on_timestamp now p {| partial := Some t; completed := [] |} = {| partial := Some t; completed := [] |}) as ->.
  { unfold end_on_timestamp, partial_should_complete_before, partial_is. cbn [partial]. unfold should_complete_before.
    rewrite Hmatch, Hts, Hts', Z.eqb_refl, andb_false_r. done. }
  assert (has_contiguous_partial p {| partial := Some t; completed := [] |} = true) as Hcont.
  { unfold has_contiguous_partial, partial_is. cbn [partial]. unfold accepts_next. by rewrite Hmatch, Hsq, Z.eqb_refl. }
  unfold drop_on_gap. rewrite Hcont. cbn [negb andb]. rewrite Hc, Hp, Hm, Hq, Hst. cbn [negb andb partial].
  unfold append_payload. rewrite Hap. cbn [mbind res_mbind]. rewrite Hco. fold t'. by destruct completes.
Qed.

(** The first packet of a frame. *)
Lemma push_first now p c sr ts d e completes part :
  carries c sr ts d e p -> payload_reads c false e completes part ->
  let t' := {| raw_packets := [pkt_raw p]; part_rtp := pkt_rtp p; part_user_id := pkt_user_id p; part_codec := pkt_codec p;
               part_frame := part; part_dave := pkt_dave p; last_seq := seq (pkt_rtp p) |} in
  push_packet now p assembler_default =
    if completes then (Ok (Some (into_pending now t')), assembler_default) else (Ok None, {| partial := Some t'; completed := [] |}).
Proof.
  intros (Hc&Hp&Hm&_) (q&Hq&Hst&Hco&Hap) t'. unfold push_packet.
  change (end_on_timestamp now p assembler_default) with assembler_default.
  change (has_contiguous_partial p assembler_default) with false. change (drop_on_gap p assembler_default) with assembler_default.
  rewrite Hc, Hp, Hm, Hq, Hst. cbn [negb andb]. unfold append_payload. cbn [partial_new part_frame]. rewrite Hap.
  cbn [mbind res_mbind app]. rewrite Hco. by destruct completes.
Qed.

(** What the rest of a frame's packets gives. *)
Definition delivers (rs : list (res RtpError (option PendingMediaFrame))) (h : RtpHeader) (c : MediaCodec) (d : bool)
    (raws : list raw_packet) (frame : bytes) : Prop :=
  accepted rs /\ exists f, emitted rs = [f] /\ frame_rtp f = h /\ frame_codec f = c /\ frame_dave f = d /\
    frame_raw f = from_rtp_packets raws /\ encrypted_frame f = frame.

Lemma delivers_last f h c d raws frame :
  frame_rtp f = h -> frame_codec f = c -> frame_dave f = d -> frame_raw f = from_rtp_packets raws -> encrypted_frame f = frame ->
  delivers [Ok (Some f)] h c d raws frame.
Proof. intros. split; [constructor; [by eexists|done]|]. by exists f. Qed.

Lemma delivers_more rs h c d raws frame : delivers rs h c d raws frame -> delivers (Ok None :: rs) h c d raws frame.
Proof. intros [Ha (f&He&Hf)]. split; [constructor; [by eexists|done]|]. exists f. by split. Qed.

Lemma push_rest c sr ts d l fr :
  frame_reads c true l fr -> forall ps t,
  frame_packets c sr ts d (wrapping_add u16_mod (last_seq t) 1) l ps ->
  ssrc (part_rtp t) = sr -> part_codec t = c -> part_dave t = d -> timestamp (part_rtp t) = ts ->
  exists rs, push_all ps {| partial := Some t; completed := [] |} = (rs, assembler_default) /\
    delivers rs (part_rtp t) c d (raw_packets t ++ (pkt_raw <$> ps.*2)) (part_frame t ++ fr).
Proof.
  intros Hr. remember true as has eqn:Hhas. induction Hr as [has e part Hp|has e part l fr Hp Hr IH]; subst has;
    intros [|[now p] ps] t; simpl frame_packets; try done; intros (Hcar&Hsq&Hps) Hs Hc Hd Hts.
  - destruct ps; [|done]. cbn [push_all]. rewrite (push_next now p t c sr ts d e true part) by done.
    eexists. split; [reflexivity|]. apply delivers_last; done.
  - cbn [push_all]. rewrite (push_next now p t c sr ts d e false part) by done. rewrite <- Hsq in Hps.
    match goal with |- context [push_all ps {| partial := Some ?x; completed := [] |}] =>
      destruct (IH eq_refl ps x Hps Hs Hc Hd Hts) as (rs&Hrs&Hdel) end. rewrite Hrs. eexists. split; [reflexivity|].
    apply delivers_more. cbn [push_raw_packet raw_packets part_frame part_rtp] in Hdel. rewrite <- !app_assoc in Hdel. exact Hdel.
Qed.

Lemma push_frame c sr ts d s l fr ps :
  frame_reads c false l fr -> frame_packets c sr ts d s l ps ->
  exists rs h, push_all ps assembler_default = (rs, assembler_default) /\
    (forall x, head ps = Some x -> h = pkt_rtp x.2) /\ delivers rs h c d (pkt_raw <$> ps.*2) fr.
Proof.
  intros Hr. remember false as has eqn:Hhas. destruct Hr as [has e part Hp|has e part l fr Hp Hr]; subst has;
    destruct ps as [|[now p] ps]; simpl frame_packets; try done; intros (Hcar&Hsq&Hps).
  - destruct ps; [|done]. cbn [push_all]. rewrite (push_first now p c sr ts d e true part) by done.
    destruct Hcar as (Hc&_&_&_&_&Hd). eexists _, (pkt_rtp p). split; [reflexivity|]. split; [by intros x [= <-]|].
    apply delivers_last; done.
  - cbn [push_all]. rewrite (push_first now p c sr ts d e false part) by done. destruct Hcar as (Hc&_&_&Hs&Hts&Hd).
    rewrite <- Hsq in Hps.
    destruct (push_rest c sr ts d l fr Hr ps {| raw_packets := [pkt_raw p]; part_rtp := pkt_rtp p; part_user_id := pkt_user_id p;
      part_codec := pkt_codec p; part_frame := part; part_dave := pkt_dave p; last_seq := seq (pkt_rtp p) |} Hps Hs Hc Hd Hts)
      as (rs&Hrs&Hdel).
    rewrite Hrs. eexists _, (pkt_rtp p). split; [reflexivity|]. split; [by intros x [= <-]|]. by apply delivers_more.
Qed.

(** Frames the receiver can read back: for H.264 and H.265, Annex B frames with
    start codes of four bytes, of which only the first NAL unit may be longer
    than a payload, and every unit that is sent whole has a plain NAL unit type.
    Frames of other codecs are not restricted. *)
Definition h26x_readable (C : H26xRtpPayload) (frame : bytes) : Prop :=
  exists u us, frame = annexb_frame (u :: us) /\ Forall unit_ok (u :: us) /\
    ((RTP_MEDIA_PAYLOAD_MAX_BYTES < length u)%nat \/ sent_whole C u) /\
    Forall (fun u => sent_whole C u /\ (length u <= RTP_MEDIA_PAYLOAD_MAX_BYTES)%nat) us.

Definition readable (c : MediaCodec) (frame : bytes) : Prop :=
  match c with
  | H264 => h26x_readable H264_rtp frame
  | H265 => h26x_readable H265_rtp frame
  | _ => True
  end.

Lemma annexb_first_bytes u us : all_bytes (annexb_frame (u :: us)) -> all_bytes u.
Proof. rewrite annexb_cons. intros [_ [Hu _]%Forall_app]%Forall_app. done. Qed.

Lemma readable_reads c frame l :
  readable c frame -> all_bytes frame -> packetize c frame = Ok l -> frame_reads c false l frame.
Proof.
  intros Hr Hb Hl. destruct c; try (by apply packetize_reads); destruct Hr as (u&us&->&Hok&Hu&Hus).
  - destruct (h26x_packetize_reads H264_rtp PacketH264 H264 u us h264_laws h264_read_law h264_next) as (l'&Hl'&Hfr);
      [done|done|done|by eapply annexb_first_bytes|done|done|]. rewrite Hl in Hl'. by injection Hl' as <-.
  - destruct (h26x_packetize_reads H265_rtp PacketH265 H265 u us h265_laws h265_read_law h265_next) as (l'&Hl'&Hfr);
      [done|done|done|by eapply annexb_first_bytes|done|done|]. rewrite Hl in Hl'. by injection Hl' as <-.
Qed.

(** The packets of one frame: its payloads under one source and timestamp,
    numbered consecutively. *)
Definition sent_frame (e : bytes * list (Z * PendingMediaPacket)) : Prop :=
  exists c sr ts d s l, readable c e.1 /\ all_bytes e.1 /\ packetize c e.1 = Ok l /\ frame_packets c sr ts d s l e.2.

Lemma push_all_app l1 l2 a :
  push_all (l1 ++ l2) a =
    let '(rs1, a1) := push_all l1 a in let '(rs2, a2) := push_all l2 a1 in (rs1 ++ rs2, a2).
Proof.
  revert a. induction l1 as [|[now p] l1 IH]; intros a; simpl.
  - by destruct (push_all l2 a).
  - destruct (push_packet now p a) as [r a1]. rewrite IH. destruct (push_all l1 a1) as [rs1 a2].
    by destruct (push_all l2 a2).
Qed.

(** C10. Media delivery: any sequence of frames, of any codecs, cut by the
    packetizer and pushed in order, comes out of the assembler as exactly these
    frames, in order, without an error, and leaves the assembler empty.  Frames
    of H.264 and H.265 are [readable]: the units have start codes of four bytes,
    only the first may be longer than a payload, and a unit that is sent whole
    has a plain NAL unit type. *)
Theorem frames_delivered frames :
  Forall sent_frame frames ->
  exists rs, push_all (concat frames.*2) assembler_default = (rs, assembler_default) /\ accepted rs /\
    encrypted_frame <$> emitted rs = frames.*1.
Proof.
  induction 1 as [|[frame ps] frames (c&sr&ts&d&s&l&Hr&Hb&Hl&Hps) Hfs IH].
  { exists []. by repeat constructor. }
  destruct (push_frame c sr ts d s l frame ps (readable_reads c frame l Hr Hb Hl) Hps) as (rs1&h&Hrs1&_&Hacc1&f&Hem1&_&_&_&_&Hf).
  destruct IH as (rs2&Hrs2&Hacc2&Hem2). exists (rs1 ++ rs2). rewrite fmap_cons. cbn [snd concat].
  change (concat (ps :: frames.*2)) with (ps ++ concat frames.*2). rewrite push_all_app, Hrs1, Hrs2.
  split; [done|]. split; [by apply Forall_app|]. unfold emitted in *. rewrite omap_app, fmap_app, Hem1, Hem2. simpl. by rewrite Hf.
Qed.

(** ** Fragmented units behind the first one *)

(** A packet whose payload starts a frame restarts the frame in progress, even
    if it continues it. *)
Lemma push_restart now p t e q part :
  pkt_codec p = H264 -> encrypted_payload p = e.2 -> marker (pkt_rtp p) = e.1 ->
  accepts_next t p = true -> part_codec t = H264 ->
  parse_payload H264 e.2 e.1 true = Ok q -> starts_frame q = true -> completes_frame q = false ->
  append_depacketized (depacketized q) [] = Ok part ->
  push_packet now p {| partial := Some t; completed := [] |} =
    (Ok None, {| partial := Some {| raw_packets := [pkt_raw p]; part_rtp := pkt_rtp p; part_user_id := pkt_user_id p;
       part_codec := pkt_codec p; part_frame := part; part_dave := pkt_dave p; last_seq := seq (pkt_rtp p) |}; completed := [] |}).
Proof.
  intros Hc Hp Hm Hacc Htc Hq Hst Hco Hap. unfold push_packet.
  assert (end_on_timestamp now p {| partial := Some t; completed := [] |} = {| partial := Some t; completed := [] |}) as ->.
  { unfold end_on_timestamp, partial_should_complete_before, partial_is. cbn [partial]. unfold should_complete_before.
    by rewrite Htc. }
  assert (has_contiguous_partial p {| partial := Some t; completed := [] |} = true) as Hcont by exact Hacc.
  unfold drop_on_gap. rewrite Hcont. cbn [negb andb].
  assert (parse_payload (pkt_codec p) (encrypted_payload p) (marker (pkt_rtp p)) true = Ok q) as -> by (by rewrite Hc, Hp, Hm).
  rewrite Hst. cbn [negb andb partial].
  unfold append_payload. cbn [partial_new part_frame]. rewrite Hap. cbn [mbind res_mbind]. rewrite Hco. done.
Qed.

(** The payloads of a short and a long unit. *)
Lemma packetize_short_long u0 u1 l :
  unit_ok u0 -> unit_ok u1 -> (length u0 <= RTP_MEDIA_PAYLOAD_MAX_BYTES)%nat -> (RTP_MEDIA_PAYLOAD_MAX_BYTES < length u1)%nat ->
  packetize H264 (annexb_frame [u0; u1]) = Ok l ->
  exists k0 k1 ks, chunks_of 1198 (unit_body H264_rtp u1) (k0 :: k1 :: ks) /\
    l = (false, u0) :: (false, fragment_header H264_rtp u1 true false ++ k0) ::
        emit_unit_fragments H264_rtp u1 true false (k1 :: ks).
Proof.
  intros Hu0 Hu1 Hs Hl Hpk.
  destruct (nalus_annexb [u0; u1]) as (it&Hit&Hits); [constructor; [done|constructor; [done|constructor]]|done|].
  destruct (h26x_packetize H264_rtp PacketH264 H264 (annexb_frame [u0; u1]) [u0; u1] it h264_laws h264_next Hit Hits)
    as (cut&[Hc1 Hc2]&Hcut); [done| |].
  { rewrite !annexb_cons. simpl concat. rewrite !length_app. simpl. lia. }
  assert (Ok l = Ok (E := RtpError) (emit_units H264_rtp cut)) as [= ->].
  { rewrite <- Hpk, <- Hcut. unfold packetize, packetizer_new. rewrite annexb_cons. cbn [app Codec.AnnexB.H26X_LONG_START_CODE].
    cbn [packetizer_state]. by destruct (h26x_new H264_rtp _). }
  destruct cut as [|[v0 c0] [|[v1 c1] [|? ?]]]; try done. injection Hc1 as -> ->.
  apply Forall_cons in Hc2 as [_ [Hch _]%Forall_cons]. specialize (Hch Hl). cbn [fst snd] in Hch.
  destruct c1 as [|k0 [|k1 ks]]; [by destruct Hch| |].
  { destruct Hch as (_&Hcat&Hk). apply Forall_cons in Hk as [Hk _]. apply (f_equal length) in Hcat. simpl concat in Hcat.
    rewrite app_nil_r in Hcat. unfold unit_body in Hcat. rewrite length_drop in Hcat.
    unfold RTP_MEDIA_PAYLOAD_MAX_BYTES in *. simpl in Hk, Hcat. lia. }
  exists k0, k1, ks. split; [exact Hch|]. cbn [emit_units]. unfold emit_unit. cbn [fst snd].
  rewrite (proj2 (Nat.leb_le _ _)), (proj2 (Nat.leb_gt _ _)) by done. simpl. by rewrite app_nil_r.
Qed.

(** A frame of a short H.264 NAL unit followed by one longer than a
    payload, cut by the packetizer and pushed in order, is delivered without
    its first unit: the reader takes the start bit of the fragmented unit for
    the start of a frame. *)
Theorem fragmented_unit_drops_earlier u0 u1 sr ts d s l ps :
  unit_ok u0 -> unit_ok u1 -> all_bytes u1 -> sent_whole H264_rtp u0 ->
  (length u0 <= RTP_MEDIA_PAYLOAD_MAX_BYTES)%nat -> (RTP_MEDIA_PAYLOAD_MAX_BYTES < length u1)%nat ->
  packetize H264 (annexb_frame [u0; u1]) = Ok l -> frame_packets H264 sr ts d s l ps ->
  exists rs f, push_all ps assembler_default = (rs, assembler_default) /\ emitted rs = [f] /\
    encrypted_frame f = annexb_frame [u1] /\ encrypted_frame f ≠ annexb_frame [u0; u1].
Proof.
  intros Hu0 Hu1 Hb1 Hw Hs Hl Hpk Hps.
  destruct (packetize_short_long u0 u1 l Hu0 Hu1 Hs Hl Hpk) as (k0&k1&ks&Hch&->).
  destruct ps as [|[n0 p0] [|[n1 p1] ps]]; [done|by destruct Hps as (_&_&[])|]. cbn [frame_packets] in Hps.
  destruct Hps as (Hcar0&Hsq0&Hcar1&Hsq1&Hps).
  destruct Hch as (_&Hcat&Hk). apply Forall_cons in Hk as [Hk0 Hk]. 
  assert (k0 ≠ []) as Hk0n by (by intros ->; simpl in Hk0; lia).
  (* the first packet *)
  cbn [push_all]. pose proof (whole_payload_reads H264_rtp H264 (fun _ _ _ => eq_refl) false false u0 Hw) as Hr0.
  rewrite (push_first n0 p0 H264 sr ts d _ _ _ Hcar0 Hr0). 
  (* the first fragment restarts the frame *)
  destruct (h264_read_law u1 true false k0 false true Hb1 Hl Hk0n) as (h&Hq&Hh2&Hht).
  destruct Hcar1 as (Hc1&Hp1&Hm1&Hs1&Ht1&Hd1). destruct Hcar0 as (Hc0&Hp0&Hm0&Hs0&Ht0&Hd0).
  erewrite (push_restart n1 p1 _ (false, fragment_header H264_rtp u1 true false ++ k0)); [|done..| | |exact Hq|done|done|].
  2: { unfold accepts_next, matches_context. cbn [part_rtp part_codec part_dave last_seq].
       by rewrite Hs0, Hs1, Hc0, Hc1, Hd0, Hd1, Hsq1, Hsq0, !Z.eqb_refl, Bool.eqb_reflx. }
  2: exact Hc0.
  2: { cbn [depacketized append_depacketized starts_fragment nalu_header nalu_header_len fragment_bytes].
       rewrite slice_ok by (rewrite ?Hh2; simpl; lia). cbn [mbind res_mbind]. rewrite drop_0, Nat.sub_0_r, Hht. reflexivity. }
  (* the remaining fragments complete it *)
  pose proof (unit_fragments_read H264_rtp h264_laws h264_read_law H264 (fun _ _ _ => eq_refl) u1 true (k1 :: ks) true [] []
    Hb1 Hl ltac:(done) ltac:(eapply Forall_impl; [exact Hk|simpl; lia]) ltac:(done) ltac:(done)) as Hrest.
  rewrite app_nil_r in Hrest. rewrite <- Hsq1 in Hps.
  match goal with |- context [push_all ps {| partial := Some ?x; completed := [] |}] =>
    destruct (push_rest H264 sr ts d _ _ Hrest ps x Hps) as (rs&Hrs&_&f&Hem&_&_&_&_&Hf); [done..|] end.
  rewrite Hrs. eexists _, f. split; [reflexivity|]. split; [done|].
  assert (encrypted_frame f = annexb_frame [u1]) as ->.
  { rewrite Hf. cbn [part_frame]. rewrite annexb_cons, app_nil_r. cbn [app]. rewrite <- !app_assoc.
    change (k0 ++ concat (k1 :: ks)) with (concat (k0 :: k1 :: ks)). rewrite Hcat. unfold unit_body.
    rewrite take_drop. change (annexb_frame []) with ([] : bytes). by rewrite app_nil_r. }
  split; [done|]. rewrite !annexb_cons. intros Heq%(f_equal length). rewrite !length_app in Heq. simpl in Heq. lia.
Qed.
End Delivery.

(** ** Witnesses *)
Module AssemblerSamples.

#[local] Instance sample_raw : FrameRaw := {| raw_packet := Z; raw_frame := list Z; from_rtp_packets := fun l => l |}.

Definition sample_seq : @raw_packet sample_raw -> Z := fun z : Z => z.

Definition sample_packet (c : MediaCodec) (s ts : Z) (e : bool * bytes) : PendingMediaPacket :=
  {| pkt_raw := s : raw_packet;
     pkt_rtp := {| version := 2; padding := false; extension := false; marker := e.1; payload_type := 107; seq := s;
                   timestamp := ts; ssrc := 5; header_len := 12; encrypted_body_offset := 12 |};
     pkt_user_id := None; pkt_codec := c; encrypted_payload := e.2; pkt_dave := true |}.

Fixpoint sample_packets (c : MediaCodec) (s ts : Z) (l : list (bool * bytes)) : list (Z * PendingMediaPacket) :=
  match l with [] => [] | e :: l => (0, sample_packet c s ts e) :: sample_packets c (wrapping_add u16_mod s 1) ts l end.

Lemma sample_packets_ok c s ts l : frame_packets c 5 ts true s l (sample_packets c s ts l).
Proof. revert s. induction l as [|e l IH]; intros s; simpl; [done|]. repeat split. apply IH. Qed.

Definition payloads (c : MediaCodec) (frame : bytes) : list (bool * bytes) :=
  match packetize c frame with Ok l => l | _ => [] end.

Definition vp8_frame : bytes := replicate 2500 9.

Lemma assembler_frames_contiguous_witness :
  let '(rs, a') := push_all (sample_packets Vp8 65535 1 (payloads Vp8 vp8_frame)) assembler_default in
  assembler_ok sample_seq a' /\ Forall (fun r => r ≠ Panic /\ forall f, r = Ok (Some f) -> frame_ok sample_seq f) rs.
Proof.
  apply (assembler_frames_contiguous sample_seq
    (sample_packets Vp8 65535 1 (payloads Vp8 vp8_frame)) assembler_default (assembler_ok_default _)).
  assert (payloads Vp8 vp8_frame = [(false, 16 :: replicate 1199 9); (false, 0 :: replicate 1199 9); (true, 0 :: replicate 102 9)]) as ->
    by (vm_compute; reflexivity).
  repeat (apply Forall_cons; split); try apply Forall_nil; try exact I; (split; [|split; [split; [discriminate|reflexivity]|reflexivity]]);
    (apply Forall_cons; split; [done|]); apply Forall_replicate; done.
Defined.

Definition h264_frame : bytes := annexb_frame [[0x67; 9; 8]; [0x65; 1; 2; 3]].

Lemma frames_delivered_witness :
  exists rs, push_all (concat [(vp8_frame, sample_packets Vp8 65534 1 (payloads Vp8 vp8_frame));
                               (h264_frame, sample_packets H264 7 3000 (payloads H264 h264_frame))].*2) assembler_default
             = (rs, assembler_default) /\ accepted rs /\ encrypted_frame <$> emitted rs = [vp8_frame; h264_frame].
Proof.
  apply (frames_delivered [(vp8_frame, sample_packets Vp8 65534 1 (payloads Vp8 vp8_frame));
                           (h264_frame, sample_packets H264 7 3000 (payloads H264 h264_frame))]).
  apply Forall_cons; split; [|apply Forall_cons; split; [|apply Forall_nil; exact I]].
  - exists Vp8, 5, 1, true, 65534, (payloads Vp8 vp8_frame). split; [exact I|]. split; [by apply Forall_replicate|].
    split; [vm_compute; reflexivity|apply sample_packets_ok].
  - exists H264, 5, 3000, true, 7, (payloads H264 h264_frame). split; [|split; [compute_bytes|split; [vm_compute; reflexivity|apply sample_packets_ok]]].
    exists [0x67; 9; 8], [[0x65; 1; 2; 3]]. split; [reflexivity|].
    assert (forall u, 0 ∉ u -> u ≠ [] -> unit_ok u) as Hok.
    { intros u Hu Hn. split; [done|]. intros i [H0 _]. apply Hu. by apply list_elem_of_lookup_2 in H0. }
    split; [constructor; [apply Hok; set_solver|constructor; [apply Hok; set_solver|constructor]]|].
    split; [right; by exists 7|]. constructor; [|constructor]. split; [by exists 5|]. vm_compute. lia.
Defined.

Definition long_unit : bytes := 0x65 :: replicate 1300 7.

Lemma long_unit_ok : unit_ok long_unit.
Proof.
  split; [done|]. intros i [H0 _]. apply list_elem_of_lookup_2 in H0. apply elem_of_cons in H0 as [H0|H0]; [done|].
  by apply elem_of_replicate in H0 as [H0 _].
Qed.

Lemma fragmented_unit_drops_earlier_witness :
  exists rs f, push_all (sample_packets H264 10 3000 (payloads H264 (annexb_frame [[0x67; 9; 8]; long_unit]))) assembler_default
      = (rs, assembler_default) /\ emitted rs = [f] /\
    encrypted_frame f = annexb_frame [long_unit] /\ encrypted_frame f ≠ annexb_frame [[0x67; 9; 8]; long_unit].
Proof.
  apply (fragmented_unit_drops_earlier [0x67; 9; 8] long_unit 5 3000 true 10
    (payloads H264 (annexb_frame [[0x67; 9; 8]; long_unit]))).
  - split; [done|]. intros i [H0 _]. apply list_elem_of_lookup_2 in H0. set_solver.
  - apply long_unit_ok.
  - apply Forall_cons; split; [done|]. by apply Forall_replicate.
  - by exists 7.
  - vm_compute. lia.
  - apply Nat.ltb_lt. vm_compute. reflexivity.
  - vm_compute. reflexivity.
  - apply sample_packets_ok.
Defined.
End AssemblerSamples.
End Assembler.
