(* ===== verification/Reorder.v ===== *)
(** * Per-source reordering of received packets

    [ReceiveSsrcState] of [state.rs]: packets of one source are handed to the
    frame assembler in sequence order; packets that arrive early wait in
    [pending_media], the sequence numbers before them are recorded in [missing],
    and a gap that stays open for the reorder time is given up.

    The assembler is used through the interface [FrameAssembler], so that the
    theorems here hold for any implementation of it that keeps
    [FrameAssemblerLaws]; [rtp_frame_assembler_laws] shows that
    [RtpFrameAssembler] of Assembler.v does.  The ordering theorems speak about
    [Logged A], the assembler [A] with a log of the packets it is given and of
    the times it is cleared, which changes nothing else ([forget_log_run]).  Telemetry
    events are returned as a list.  Instants and durations are in nanoseconds. *)

From S2P Require Import Prelude Tuning Frame Rtp RtpPayload Stats Assembler.
Import Stats.Sliding Tuning.Tuning.

Module Reorder.

(** What the receive path needs from a frame assembler. *)
Class FrameAssembler (P F E : Type) := {
  asm : Type;
  asm_default : asm;
  asm_push : Z -> P -> asm -> res E (option F) * asm;
  asm_pop_completed : asm -> option F * asm;
  asm_has_completed : asm -> bool;
  asm_clear : asm -> asm }.

#[export] Instance rtp_frame_assembler {R : Assembler.FrameRaw} :
    FrameAssembler Assembler.PendingMediaPacket Assembler.PendingMediaFrame Rtp.RtpError := {|
  asm := Assembler.RtpFrameAssembler;
  asm_default := Assembler.assembler_default;
  asm_push := Assembler.push_packet;
  asm_pop_completed := Assembler.pop_completed;
  asm_has_completed := Assembler.has_completed_frame;
  asm_clear := Assembler.clear |}.

(** What the receive path relies on: operations on a fine assembler do not
    panic, a packet completes at most two frames, and a completed frame can be
    taken. *)
Class FrameAssemblerLaws {P F E} (A : FrameAssembler P F E) := {
  packet_fine : P -> Prop;
  frame_fine : F -> Prop;
  asm_fine : asm -> Prop;
  asm_frames : asm -> nat;
  asm_default_fine : asm_fine asm_default;
  asm_default_frames : asm_frames asm_default = 0%nat;
  asm_push_fine now p a : packet_fine p -> asm_fine a ->
    exists r a', asm_push now p a = (r, a') /\ r ≠ Panic /\ asm_fine a' /\
      ((match r with Ok (Some _) => 1 | _ => 0 end) + asm_frames a' <= asm_frames a + 2)%nat /\ (forall f, r = Ok (Some f) -> frame_fine f);
  asm_pop_fine a : asm_fine a ->
    match asm_pop_completed a with
    | (Some f, a') => asm_has_completed a = true /\ asm_fine a' /\ asm_frames a = S (asm_frames a') /\ frame_fine f
    | (None, a') => asm_has_completed a = false /\ a' = a
    end;
  asm_clear_fine a : asm_fine a -> asm_fine (asm_clear a) /\ asm_frames (asm_clear a) = 0%nat }.

Section RtpAssembler.
Context {R : Assembler.FrameRaw} (seq_of : Assembler.raw_packet -> Z).

Lemma push_packet_frames now p (a : Assembler.RtpFrameAssembler) :
  let '(r, a') := Assembler.push_packet now p a in
  ((match r with Ok (Some _) => 1 | _ => 0 end) + length (Assembler.completed a') <= length (Assembler.completed a) + 2)%nat.
Proof.
  assert (forall b, let '(r, a') := Assembler.finish b in
    ((match r with Ok (Some _) => 1 | _ => 0 end) + length (Assembler.completed a') <= length (Assembler.completed b))%nat) as Hfin.
  { intros b. unfold Assembler.finish, Assembler.pop_completed. destruct (Assembler.completed b) eqn:Hb; simpl; [by rewrite Hb|lia]. }
  unfold Assembler.push_packet. set (a1 := Assembler.end_on_timestamp now p a).
  assert (length (Assembler.completed a1) <= length (Assembler.completed a) + 1)%nat as H1.
  { unfold a1, Assembler.end_on_timestamp. destruct (Assembler.partial_should_complete_before p a); [|lia].
    destruct (Assembler.partial a); [|lia]. cbn. rewrite length_app. simpl. lia. }
  assert (Assembler.completed (Assembler.drop_on_gap p a1) = Assembler.completed a1) as H2
    by (unfold Assembler.drop_on_gap; by destruct (_ && _)).
  rewrite <- H2 in H1. set (a2 := Assembler.drop_on_gap p a1) in *. clearbody a2.
  destruct (RtpPayload.parse_payload _ _ _ _) as [payload| |]; [|lia|lia].
  destruct (_ && _); [specialize (Hfin a2); destruct (Assembler.finish a2); lia|].
  assert (forall t b, Assembler.completed b = Assembler.completed a2 ->
    let '(r, a') := match Assembler.append_payload t (Rtp.seq (Assembler.pkt_rtp p)) payload with
      | Err e => (Err e, b) | Panic => (Panic, b)
      | Ok t => Assembler.finish (if RtpPayload.completes_frame payload
                  then Assembler.push_completed (Assembler.into_pending now (Assembler.push_raw_packet t (Assembler.pkt_raw p))) b
                  else Assembler.set_partial (Some (Assembler.push_raw_packet t (Assembler.pkt_raw p))) b)
      end in
    ((match r with Ok (Some _) => 1 | _ => 0 end) + length (Assembler.completed a') <= length (Assembler.completed a) + 2)%nat) as Happ.
  { intros t b Hb. destruct (Assembler.append_payload _ _ _) as [t'| |]; [|rewrite Hb; lia|rewrite Hb; lia].
    match goal with |- context [Assembler.finish ?x] => specialize (Hfin x); assert (length (Assembler.completed x) <= S (length (Assembler.completed b)))%nat;
      [|destruct (Assembler.finish x); rewrite Hb in *; lia] end.
    destruct (RtpPayload.completes_frame payload); cbn; [rewrite length_app; simpl; lia|lia]. }
  destruct (_ && _); [destruct (Assembler.partial a2); [by apply Happ|simpl; lia]|by apply Happ].
Qed.

#[export, refine] Instance rtp_frame_assembler_laws : FrameAssemblerLaws rtp_frame_assembler := {
  packet_fine := Assembler.packet_ok seq_of;
  frame_fine := Assembler.frame_ok seq_of;
  asm_fine := Assembler.assembler_ok seq_of;
  asm_frames a := length (Assembler.completed a);
  asm_default_fine := Assembler.assembler_ok_default seq_of;
  asm_default_frames := eq_refl }.
Proof.
  - intros now p a Hp Ha. destruct (Assembler.push_packet_ok seq_of now p a Ha Hp) as (r&a'&Hpush&Hr&Ha'&Hfr).
    exists r, a'. pose proof (push_packet_frames now p a) as Hf. rewrite Hpush in Hf. done.
  - intros a [Hp Hc]. cbn. unfold Assembler.pop_completed, Assembler.has_completed_frame. destruct (Assembler.completed a) as [|f l] eqn:Hl; [done|].
    apply Forall_cons in Hc as [Hf Hc]. done.
  - intros a _. split; [apply Assembler.assembler_ok_default|done].
Defined.

End RtpAssembler.

(** The header fields of a packet that reordering looks at. *)
Class SequencedPacket (P : Type) := {
  p_seq : P -> Z; p_ssrc : P -> Z; p_timestamp : P -> Z; p_user_id : P -> option Z; p_payload_len : P -> nat }.

#[export] Instance pending_media_packet {R : Assembler.FrameRaw} : SequencedPacket Assembler.PendingMediaPacket := {|
  p_seq p := Rtp.seq (Assembler.pkt_rtp p);
  p_ssrc p := Rtp.ssrc (Assembler.pkt_rtp p);
  p_timestamp p := Rtp.timestamp (Assembler.pkt_rtp p);
  p_user_id := Assembler.pkt_user_id;
  p_payload_len p := length (Assembler.encrypted_payload p) |}.

Record MissingRtpPacket := { missing_user_id : option Z; detected_at : Z }.

Inductive ReceiveEvent :=
| ReceiveRtpPacketEvent (ev_ssrc : Z) (ev_user_id : option Z) (ev_seq ev_timestamp : Z) (payload_bytes : nat)
    (interarrival_us interarrival_p95_us interarrival_max_us : option Z)
| ReceiveRtpPacketLossEvent (ev_ssrc : Z) (ev_user_id : option Z) (first_seq last_seq missing_packets age_ms : Z).

Definition duration_us (d : Z) : Z := Z.min (d / 1000) (u64_mod - 1).
Definition duration_ms (d : Z) : Z := Z.min (d / 1000000) (u64_mod - 1).

(** [Instant::duration_since], which saturates at zero. *)
Definition duration_since (now earlier : Z) : Z := Z.max 0 (now - earlier).

Section Reorder.
Context {P F E : Type} {A : FrameAssembler P F E} {SP : SequencedPacket P}.

Record ReceiveSsrcState := {
  tuning : ConnectionRuntimeTuning;
  last_arrival : option Z;
  next_seq : option Z;
  missing : gmap Z MissingRtpPacket;
  pending_media : gmap Z P;
  interarrival : SlidingStats;
  assembler : asm }.

Definition ssrc_state_new (t : ConnectionRuntimeTuning) : ReceiveSsrcState :=
  {| tuning := t; last_arrival := None; next_seq := None; missing := ∅; pending_media := ∅;
     interarrival := stats_new (receive_interarrival_window t); assembler := asm_default |}.

(** The mutable fields of the ordering, with the rest kept. *)
Definition with_order (n : option Z) (m : gmap Z MissingRtpPacket) (pm : gmap Z P) (a : asm) (st : ReceiveSsrcState) : ReceiveSsrcState :=
  {| tuning := tuning st; last_arrival := last_arrival st; next_seq := n; missing := m; pending_media := pm;
     interarrival := interarrival st; assembler := a |}.

Definition seq_add (s k : Z) : Z := wrapping_add u16_mod s k.

(** [telemetry] is [O::ENABLE_RECEIVE_TELEMETRY]. *)
Definition record_arrival (telemetry : bool) (now : Z) (p : P) (st : ReceiveSsrcState) : ReceiveSsrcState * list ReceiveEvent :=
  if telemetry then
    let us := (fun last => duration_us (duration_since now last)) <$> last_arrival st in
    let stats := match us with Some v => observe v (interarrival st) | None => interarrival st end in
    ({| tuning := tuning st; last_arrival := Some now; next_seq := next_seq st; missing := missing st;
        pending_media := pending_media st; interarrival := stats; assembler := assembler st |},
     [ReceiveRtpPacketEvent (p_ssrc p) (p_user_id p) (p_seq p) (p_timestamp p) (p_payload_len p) us
        (percentile 95 stats) (stats_max stats)])
  else (st, []).

(** [for offset in 0..forward]: entries that exist are kept. *)
Fixpoint mark_missing (n : nat) (sq : Z) (user : option Z) (now : Z) (m : gmap Z MissingRtpPacket) : gmap Z MissingRtpPacket :=
  match n with
  | O => m
  | S n =>
      let m := match m !! sq with
               | Some _ => m
               | None => <[sq := {| missing_user_id := user; detected_at := now |}]> m
               end in
      mark_missing n (seq_add sq 1) user now m
  end.

Definition has_ready_buffered_media (st : ReceiveSsrcState) : bool :=
  asm_has_completed (assembler st) ||
  match next_seq st with Some sq => is_some (pending_media st !! sq) | None => false end.

Definition pop_ready_buffered_frame (now : Z) (st : ReceiveSsrcState) : res E (option F) * ReceiveSsrcState :=
  match asm_pop_completed (assembler st) with
  | (Some f, a) => (Ok (Some f), with_order (next_seq st) (missing st) (pending_media st) a st)
  | (None, a) =>
      match next_seq st with
      | None => (Ok None, with_order (next_seq st) (missing st) (pending_media st) a st)
      | Some sq =>
          match pending_media st !! sq with
          | None => (Ok None, with_order (next_seq st) (missing st) (pending_media st) a st)
          | Some p =>
              let '(r, a) := asm_push now p a in
              (r, with_order (Some (seq_add sq 1)) (delete sq (missing st)) (delete sq (pending_media st)) a st)
          end
      end
  end.

Definition pending_reorder_deadline (st : ReceiveSsrcState) : option Z :=
  sq ← next_seq st; m ← missing st !! sq; Some (detected_at m + rtp_reorder_ttl (tuning st)).

(** Whether an entry is still within the reorder time. *)
Definition waiting (force : bool) (now ttl : Z) (m : MissingRtpPacket) : bool := negb force && (now <? detected_at m + ttl).

(** The [while] loop of [expire_missing_head]; every turn removes an entry of
    [missing], so its size bounds the turns.  The result is the new position,
    the entries left, the last sequence number given up, the count and the user. *)
Fixpoint expire_loop (fuel : nat) (force : bool) (now ttl : Z) (m : gmap Z MissingRtpPacket) (sq lastq count : Z) (user : option Z)
    : res E (Z * gmap Z MissingRtpPacket * Z * Z * option Z) :=
  match fuel with
  | O => Panic
  | S fuel =>
      match m !! sq with
      | Some e =>
          if waiting force now ttl e then Ok (sq, m, lastq, count, user)
          else expire_loop fuel force now ttl (delete sq m) (seq_add sq 1) sq (Z.min (count + 1) (u16_mod - 1))
                 (match user with Some u => Some u | None => missing_user_id e end)
      | None => Ok (sq, m, lastq, count, user)
      end
  end.

(** Returns whether packets were given up, the new state and the loss event. *)
Definition expire_missing_head (telemetry : bool) (ssrc now : Z) (force : bool) (st : ReceiveSsrcState)
    : res E (bool * ReceiveSsrcState * list ReceiveEvent) :=
  match next_seq st with
  | None => Ok (false, st, [])
  | Some sq =>
      match missing st !! sq with
      | None => Ok (false, st, [])
      | Some first =>
          if waiting force now (rtp_reorder_ttl (tuning st)) first then Ok (false, st, [])
          else
            '(sq', m, lastq, count, user) ←
              expire_loop (S (size (missing st))) force now (rtp_reorder_ttl (tuning st)) (missing st) sq sq 0 (missing_user_id first);
            if count =? 0 then Ok (false, st, [])
            else
              Ok (true, with_order (Some sq') m (pending_media st) (asm_clear (assembler st)) st,
                  if telemetry then [ReceiveRtpPacketLossEvent ssrc user sq lastq count (duration_ms (duration_since now (detected_at first)))]
                  else [])
      end
  end.

(** Handing a packet to the assembler and moving past it. *)
Definition hand_over (now : Z) (p : P) (m : gmap Z MissingRtpPacket) (pm : gmap Z P) (a : asm) (st : ReceiveSsrcState)
    : res E (option F) * ReceiveSsrcState :=
  let '(r, a) := asm_push now p a in (r, with_order (Some (seq_add (p_seq p) 1)) m pm a st).

Definition push_media_packet (telemetry : bool) (now : Z) (p : P) (st : ReceiveSsrcState)
    : res E (option F) * ReceiveSsrcState * list ReceiveEvent :=
  let '(st, ev) := record_arrival telemetry now p st in
  let sq := p_seq p in
  match next_seq st with
  | None => let '(r, st) := hand_over now p (missing st) (pending_media st) (assembler st) st in (r, st, ev)
  | Some expected =>
      if sq =? expected then
        let '(r, st) := hand_over now p (delete sq (missing st)) (delete sq (pending_media st)) (assembler st) st in (r, st, ev)
      else
        let forward := wrapping_sub u16_mod sq expected in
        if forward <? 0x8000 then
          if (rtp_reorder_buffer_max_frames (tuning st) <? Z.to_nat forward)%nat then
            let loss := if telemetry then
                          [ReceiveRtpPacketLossEvent (p_ssrc p) (p_user_id p) expected (wrapping_sub u16_mod sq 1) forward 0]
                        else [] in
            let '(r, st) := hand_over now p ∅ ∅ (asm_clear (assembler st)) st in (r, st, ev ++ loss)
          else
            let m := mark_missing (Z.to_nat forward) expected (p_user_id p) now (missing st) in
            let pm := match pending_media st !! sq with Some _ => pending_media st | None => <[sq := p]> (pending_media st) end in
            let st := with_order (next_seq st) m pm (assembler st) st in
            match (if (rtp_reorder_buffer_max_frames (tuning st) <? size pm)%nat
                   then expire_missing_head telemetry (p_ssrc p) now true st else Ok (false, st, [])) with
            | Ok (_, st, loss) => let '(r, st) := pop_ready_buffered_frame now st in (r, st, ev ++ loss)
            | Err e => (Err e, st, ev)
            | Panic => (Panic, st, ev)
            end
        else (Ok None, st, ev)
  end.

(** ** Steps: what [ReceiveState] does to the state of a source *)
Inductive rx_op :=
| RxPush (now : Z) (p : P)
| RxPop (now : Z)
| RxExpire (ssrc now : Z).

Definition rx_step (telemetry : bool) (op : rx_op) (st : ReceiveSsrcState) : res E (option F) * ReceiveSsrcState * list ReceiveEvent :=
  match op with
  | RxPush now p => push_media_packet telemetry now p st
  | RxPop now => let '(r, st) := pop_ready_buffered_frame now st in (r, st, [])
  | RxExpire ssrc now =>
      match expire_missing_head telemetry ssrc now false st with
      | Ok (_, st, ev) => (Ok None, st, ev)
      | Err e => (Err e, st, [])
      | Panic => (Panic, st, [])
      end
  end.

Fixpoint rx_run (telemetry : bool) (ops : list rx_op) (st : ReceiveSsrcState)
    : list (res E (option F)) * ReceiveSsrcState * list ReceiveEvent :=
  match ops with
  | [] => ([], st, [])
  | op :: ops =>
      let '(r, st, ev) := rx_step telemetry op st in
      let '(rs, st, evs) := rx_run telemetry ops st in (r :: rs, st, ev ++ evs)
  end.

(** ** The expiry loop *)
Lemma expire_loop_total fuel force now ttl m sq lastq count user :
  (size m < fuel)%nat ->
  exists sq' m' lastq' count' user',
    expire_loop fuel force now ttl m sq lastq count user = Ok (sq', m', lastq', count', user').
Proof.
  revert m sq lastq count user. induction fuel as [|fuel IH]; intros m sq lastq count user Hf; [lia|]. simpl.
  destruct (m !! sq) as [e|] eqn:He; [|by repeat eexists]. destruct (waiting force now ttl e); [by repeat eexists|].
  apply IH. assert (size m ≠ 0%nat) by (intros ->%map_size_empty_inv; by rewrite lookup_empty in He).
  rewrite map_size_delete, He. simpl. lia.
Qed.

Lemma expire_total telemetry ssrc now force st :
  exists b st' ev, expire_missing_head telemetry ssrc now force st = Ok (b, st', ev) /\ pending_media st' = pending_media st /\
    ((b = false /\ st' = st) \/ (b = true /\ assembler st' = asm_clear (assembler st))).
Proof.
  unfold expire_missing_head. destruct (next_seq st) as [sq|]; [|by do 3 eexists; auto].
  destruct (missing st !! sq) as [e|]; [|by do 3 eexists; auto].
  destruct (waiting _ _ _ _); [by do 3 eexists; auto|].
  destruct (expire_loop_total (S (size (missing st))) force now (rtp_reorder_ttl (tuning st)) (missing st) sq sq 0 (missing_user_id e))
    as (sq'&m'&lastq'&count'&user'&->); [lia|]. cbn [mbind res_mbind].
  destruct (count' =? 0); do 3 eexists; (split; [reflexivity|]); auto.
Qed.
End Reorder.
Arguments ReceiveSsrcState P F E {A}.

(** ** The calls the assembler receives *)
Inductive call (P : Type) := Handed (p : P) | Cleared.
Arguments Handed {P} p.
Arguments Cleared {P}.

Section Logged.
Context {P F E : Type} {A : FrameAssembler P F E} {SP : SequencedPacket P}.

(** The assembler with a log of the packets it is given and of its clears. *)
#[local] Instance Logged : FrameAssembler P F E := {|
  asm := asm (FrameAssembler := A) * list (call P);
  asm_default := (asm_default, []);
  asm_push now p a := let '(r, b) := asm_push now p a.1 in (r, (b, a.2 ++ [Handed p]));
  asm_pop_completed a := let '(o, b) := asm_pop_completed a.1 in (o, (b, a.2));
  asm_has_completed a := asm_has_completed a.1;
  asm_clear a := (asm_clear a.1, a.2 ++ [Cleared]) |}.

Abbreviation source := (ReceiveSsrcState P F E (A := Logged)).

Definition log (st : source) : list (call P) := (assembler st).2.

(** *** The log changes nothing *)
Definition forget_log (st : source) : ReceiveSsrcState P F E (A := A) :=
  {| tuning := tuning st; last_arrival := last_arrival st; next_seq := next_seq st; missing := missing st; pending_media := pending_media st;
     interarrival := interarrival st; assembler := (assembler st).1 |}.

Lemma erase_pop now (st : source) :
  pop_ready_buffered_frame (A := A) now (forget_log st) = let '(r, st') := pop_ready_buffered_frame now st in (r, forget_log st').
Proof.
  unfold pop_ready_buffered_frame. cbn [forget_log assembler asm_pop_completed asm_push Logged next_seq pending_media missing].
  destruct (asm_pop_completed (assembler st).1) as [[f|] b]; [done|]. destruct (next_seq st) as [sq|]; [|done].
  destruct (pending_media st !! sq) as [p|]; [|done]. cbn [fst snd]. by destruct (asm_push now p b).
Qed.

Lemma erase_hand now p m pm a (st : source) :
  hand_over (A := A) now p m pm a.1 (forget_log st) = let '(r, st') := hand_over now p m pm a st in (r, forget_log st').
Proof. unfold hand_over. cbn [asm_push Logged]. by destruct (asm_push now p a.1). Qed.

Lemma erase_expire telemetry ssrc now force (st : source) :
  expire_missing_head (A := A) telemetry ssrc now force (forget_log st) =
    ('(b, st', ev) ← expire_missing_head telemetry ssrc now force st; Ok (b, forget_log st', ev)).
Proof.
  unfold expire_missing_head. cbn [forget_log next_seq missing tuning pending_media assembler]. destruct (next_seq st) as [sq|]; [|done].
  destruct (missing st !! sq) as [first|]; [|done]. destruct (waiting _ _ _ _); [done|].
  destruct (expire_loop _ _ _ _ _ _ _ _ _) as [[[[[sq' m] lastq] count] user]|e|]; [|done|done]. cbn [mbind res_mbind]. by destruct (count =? 0).
Qed.

Lemma erase_arrival telemetry now p (st : source) :
  record_arrival (A := A) telemetry now p (forget_log st) = let '(st', ev) := record_arrival telemetry now p st in (forget_log st', ev).
Proof. unfold record_arrival. by destruct telemetry. Qed.

Lemma erase_push telemetry now p (st : source) :
  push_media_packet (A := A) telemetry now p (forget_log st) = let '(r, st', ev) := push_media_packet telemetry now p st in (r, forget_log st', ev).
Proof.
  unfold push_media_packet. rewrite erase_arrival. destruct (record_arrival telemetry now p st) as [st1 ev].
  cbn [forget_log next_seq missing tuning pending_media assembler]. destruct (next_seq st1) as [expected|].
  2: { pose proof (erase_hand now p (missing st1) (pending_media st1) (assembler st1) st1) as H. cbn [forget_log] in H. rewrite H.
       by destruct (hand_over _ _ _ _ _ st1). }
  destruct (p_seq p =? expected).
  { rewrite (erase_hand now p _ _ (assembler st1) st1). by destruct (hand_over _ _ _ _ _ st1). }
  destruct (_ <? 0x8000); [|done]. destruct (Nat.ltb _ (Z.to_nat _)).
  { rewrite (erase_hand now p ∅ ∅ (asm_clear (assembler st1)) st1). by destruct (hand_over _ _ _ _ _ st1). }
  set (m := mark_missing _ _ _ _ _). set (pm := match pending_media st1 !! p_seq p with Some _ => _ | None => _ end).
  set (st2 := with_order (A := Logged) _ m pm (assembler st1) st1). change (with_order (A := A) _ m pm _ _) with (forget_log st2).
  cbn [with_order tuning]. destruct (Nat.ltb _ (size pm)).
  - rewrite erase_expire. destruct (expire_missing_head telemetry (p_ssrc p) now true st2) as [[[b st3] loss]|e|]; cbn [mbind res_mbind]; [|done|done].
    rewrite erase_pop. by destruct (pop_ready_buffered_frame now st3).
  - rewrite erase_pop. by destruct (pop_ready_buffered_frame now st2).
Qed.

Lemma erase_step telemetry op (st : source) :
  rx_step (A := A) telemetry op (forget_log st) = let '(r, st', ev) := rx_step telemetry op st in (r, forget_log st', ev).
Proof.
  destruct op as [now p|now|ssrc now]; cbn [rx_step].
  - apply erase_push.
  - rewrite erase_pop. by destruct (pop_ready_buffered_frame now st).
  - rewrite erase_expire. by destruct (expire_missing_head telemetry ssrc now false st) as [[[b st'] ev]|e|].
Qed.

Lemma forget_log_run telemetry ops (st : source) :
  rx_run (A := A) telemetry ops (forget_log st) = let '(rs, st', ev) := rx_run telemetry ops st in (rs, forget_log st', ev).
Proof.
  revert st. induction ops as [|op ops IH]; intros st; cbn [rx_run]; [done|]. rewrite erase_step. destruct (rx_step telemetry op st) as [[r st1] ev].
  rewrite IH. by destruct (rx_run telemetry ops st1) as [[rs st2] evs].
Qed.

(** *** The order of the packets *)
Context {L : FrameAssemblerLaws A}.

(** Consecutive hand-overs are consecutive packets. *)
Definition contiguous (l : list (call P)) : Prop :=
  forall i p q, l !! i = Some (Handed p) -> l !! S i = Some (Handed q) -> p_seq q = seq_add (p_seq p) 1.

Record order_ok (st : source) : Prop := {
  order_log : contiguous (log st);
  order_last : forall p, last (log st) = Some (Handed p) -> next_seq st = Some (seq_add (p_seq p) 1);
  order_pending : forall k p, pending_media st !! k = Some p -> p_seq p = k /\ packet_fine p;
  order_fine : asm_fine (assembler st).1 }.

Lemma contiguous_snoc l c :
  contiguous l -> (forall p q, last l = Some (Handed p) -> c = Handed q -> p_seq q = seq_add (p_seq p) 1) -> contiguous (l ++ [c]).
Proof.
  intros Hl Hc i p q Hi Hq. destruct (Nat.lt_ge_cases (S i) (length l)) as [Hlt|Hge].
  - rewrite lookup_app_l in Hi, Hq by lia. by apply (Hl i).
  - assert (i < length l)%nat as Hil.
    { apply lookup_lt_Some in Hq. rewrite length_app in Hq. simpl in Hq. lia. }
    rewrite lookup_app_l in Hi by done. rewrite lookup_app_r in Hq by done.
    apply list_lookup_singleton_Some in Hq as [Hz Hq]. apply (Hc p q); [|done].
    rewrite last_lookup. by replace (pred (length l)) with i by lia.
Qed.

(** Pushing a packet logs it, whatever the assembler answers. *)
Lemma logged_push now p (a : asm (FrameAssembler := Logged)) : packet_fine p -> asm_fine a.1 ->
  exists r b, asm_push now p a = (r, (b, a.2 ++ [Handed p])) /\ r ≠ Panic /\ asm_fine b /\ (asm_frames b <= asm_frames a.1 + 2)%nat.
Proof.
  intros Hp Ha. destruct (asm_push_fine now p a.1 Hp Ha) as (r & b & Hr & Hnp & Hb & Hf & _). exists r, b. cbn [asm_push Logged]. rewrite Hr.
  split; [done|]. split; [done|]. split; [done|]. lia.
Qed.

(** Handing over a packet that follows the last one, or after a clear. *)
Lemma hand_over_ok now p m pm a (st : source) r st' :
  packet_fine p -> asm_fine a.1 -> contiguous a.2 -> (forall q, last a.2 = Some (Handed q) -> p_seq p = seq_add (p_seq q) 1) ->
  (forall k q, pm !! k = Some q -> p_seq q = k /\ packet_fine q) ->
  hand_over now p m pm a st = (r, st') -> order_ok st' /\ r ≠ Panic.
Proof.
  intros Hp Hf Ha Hl Hpm. unfold hand_over. destruct (logged_push now p a Hp Hf) as (r0 & b & -> & Hr & Hb & _). intros [= <- <-]. split; [|done].
  split; cbn [with_order next_seq pending_media]; [| |done|done].
  - apply contiguous_snoc; [done|]. intros q p' Hq [= <-]. by apply Hl.
  - intros q. unfold log. cbn [with_order assembler snd]. rewrite last_snoc. by intros [= <-].
Qed.

Lemma order_with_missing st n m pm : order_ok st -> n = next_seq st ->
  (forall k q, pm !! k = Some q -> p_seq q = k /\ packet_fine q) -> order_ok (with_order n m pm (assembler st) st).
Proof. intros [Hc Hl Hp Hf] -> Hpm. by split. Qed.

(** A pop takes a completed frame, or finds none. *)
Lemma logged_pop (a : asm (FrameAssembler := Logged)) : asm_fine a.1 ->
  (exists f b, asm_pop_completed a = (Some f, (b, a.2)) /\ asm_fine b /\ asm_frames a.1 = S (asm_frames b)) \/
  (asm_pop_completed a = (None, a) /\ asm_has_completed a = false).
Proof.
  intros Ha. pose proof (asm_pop_fine a.1 Ha) as Hp. cbn [asm_pop_completed asm_has_completed Logged]. destruct (asm_pop_completed a.1) as [[f|] b].
  - left. exists f, b. by destruct Hp as (_ & ? & ? & _).
  - right. destruct Hp as [Hh ->]. by destruct a.
Qed.

Lemma pop_ready_ok now st r st' : order_ok st -> pop_ready_buffered_frame now st = (r, st') -> order_ok st' /\ r ≠ Panic.
Proof.
  intros Hok. pose proof Hok as [Hc Hl Hk Hf]. unfold pop_ready_buffered_frame.
  destruct (logged_pop (assembler st) Hf) as [(f & b & -> & Hb & _)|[-> _]]; [intros [= <- <-]; by split; [split|]|].
  destruct (next_seq st) as [sq|] eqn:Hn; [destruct (pending_media st !! sq) as [p|] eqn:Hp|].
  - destruct (Hk _ _ Hp) as [<- Hpf].
    apply (hand_over_ok now p (delete (p_seq p) (missing st)) (delete (p_seq p) (pending_media st)) (assembler st) st); [done|done|done| |].
    + intros q Hq. apply Hl in Hq. congruence.
    + intros k q [_ Hq]%lookup_delete_Some. by apply Hk.
  - intros [= <- <-]. split; [|done]. by apply order_with_missing.
  - intros [= <- <-]. split; [|done]. by apply order_with_missing.
Qed.

Lemma clear_ok (st st' : source) :
  order_ok st -> pending_media st' = pending_media st -> assembler st' = asm_clear (assembler st) -> order_ok st'.
Proof.
  intros [Hc Hl Hk Hf] Hp Ha. split; unfold log in *; rewrite ?Ha, ?Hp; cbn [asm_clear Logged fst snd].
  - apply contiguous_snoc; [done|]. by intros.
  - by rewrite last_snoc.
  - done.
  - by apply asm_clear_fine.
Qed.

Lemma expire_ok telemetry ssrc now force (st : source) : order_ok st ->
  exists b st' ev, expire_missing_head telemetry ssrc now force st = Ok (b, st', ev) /\ order_ok st'.
Proof.
  intros Hok. destruct (expire_total telemetry ssrc now force st) as (b&st'&ev&->&Hp&Hcase). do 3 eexists. split; [done|].
  destruct Hcase as [[_ ->]|[_ Ha]]; [done|]. by eapply clear_ok.
Qed.

Lemma record_arrival_order telemetry now p (st : source) :
  order_ok st -> order_ok (record_arrival telemetry now p st).1.
Proof. intros [Hc Hl Hk Hf]. unfold record_arrival. destruct telemetry; [by split|done]. Qed.

Lemma push_media_packet_ok telemetry now p st :
  order_ok st -> packet_fine p -> exists r st' ev, push_media_packet telemetry now p st = (r, st', ev) /\ order_ok st' /\ r ≠ Panic.
Proof.
  intros Hok Hp. unfold push_media_packet. apply (record_arrival_order telemetry now p) in Hok.
  destruct (record_arrival telemetry now p st) as [st1 ev]. cbn [fst] in Hok. clear st. pose proof Hok as [Hc Hl Hk Hf].
  destruct (next_seq st1) as [expected|] eqn:Hn.
  2: { destruct (hand_over _ _ _ _ _ _) as [r st'] eqn:Hh. apply hand_over_ok in Hh as [Hok' Hr]; [by do 3 eexists|done|done|done| |done].
       intros q Hq. by apply Hl in Hq. }
  destruct (Z.eqb_spec (p_seq p) expected) as [Heq|Hne].
  { destruct (hand_over _ _ _ _ _ _) as [r st'] eqn:Hh. apply hand_over_ok in Hh as [Hok' Hr]; [by do 3 eexists|done|done|done| |].
    - intros q Hq. apply Hl in Hq. congruence.
    - intros k q [_ Hq]%lookup_delete_Some. by apply Hk. }
  destruct (_ <? 0x8000); [|by do 3 eexists]. destruct (Nat.ltb _ _).
  { destruct (hand_over _ _ _ _ _ _) as [r st'] eqn:Hh. apply hand_over_ok in Hh as [Hok' Hr]; [by do 3 eexists|done| | | |done].
    - by apply asm_clear_fine.
    - apply contiguous_snoc; [done|]. by intros.
    - cbn [asm_clear Logged snd]. rewrite last_snoc. done. }
  set (pm := match pending_media st1 !! p_seq p with Some _ => pending_media st1 | None => <[p_seq p := p]> (pending_media st1) end).
  assert (forall k q, pm !! k = Some q -> p_seq q = k /\ packet_fine q) as Hpm.
  { unfold pm. destruct (pending_media st1 !! p_seq p); [done|]. intros k q [[<- <-]|[_ Hq]]%lookup_insert_Some; [done|by apply Hk]. }
  set (st2 := with_order _ _ pm (assembler st1) st1). assert (order_ok st2) as Hok2 by (by apply order_with_missing).
  clearbody st2. destruct (Nat.ltb _ _); [destruct (expire_ok telemetry (p_ssrc p) now true st2 Hok2) as (b&st3&loss&->&Hok3)|].
  - destruct (pop_ready_buffered_frame now st3) as [r st'] eqn:Hpop. apply pop_ready_ok in Hpop as [Hok' Hr]; [|done]. by do 3 eexists.
  - destruct (pop_ready_buffered_frame now st2) as [r st'] eqn:Hpop. apply pop_ready_ok in Hpop as [Hok' Hr]; [|done]. by do 3 eexists.
Qed.

(** Packets that the assembler can take. *)
Definition op_fine (op : rx_op (P := P)) : Prop := match op with RxPush _ p => packet_fine p | _ => True end.

Lemma rx_step_ok telemetry op st : order_ok st -> op_fine op -> exists r st' ev, rx_step telemetry op st = (r, st', ev) /\ order_ok st' /\ r ≠ Panic.
Proof.
  intros Hok Hop. destruct op as [now p|now|ssrc now]; cbn [rx_step].
  - by apply push_media_packet_ok.
  - destruct (pop_ready_buffered_frame now st) as [r st1] eqn:Hp. apply pop_ready_ok in Hp as [? ?]; [|done]. by do 3 eexists.
  - destruct (expire_ok telemetry ssrc now false st Hok) as (b&st1&ev&->&?). by do 3 eexists.
Qed.

Lemma rx_run_ok telemetry ops st : order_ok st -> Forall op_fine ops ->
  exists rs st' ev, rx_run telemetry ops st = (rs, st', ev) /\ order_ok st' /\ Forall (fun r => r ≠ Panic) rs.
Proof.
  intros Hok Hops. revert st Hok. induction Hops as [|op ops Hop _ IH]; intros st Hok; cbn [rx_run]; [by do 3 eexists|].
  destruct (rx_step_ok telemetry op st Hok Hop) as (r & st1 & ev & -> & Hok1 & Hr). destruct (IH st1 Hok1) as (rs & st2 & evs & -> & Hok2 & Hrs).
  do 3 eexists. split; [done|]. split; [done|]. by constructor.
Qed.

Lemma order_ok_new t : order_ok (ssrc_state_new t).
Proof. split; cbn; [by intros []|done|intros k p; by rewrite lookup_empty|apply asm_default_fine]. Qed.


(** ** Reordering within the window *)
Definition no_loss (e : ReceiveEvent) : Prop :=
  match e with ReceiveRtpPacketLossEvent _ _ _ _ _ _ => False | _ => True end.

Section Window.
Context (telemetry : bool) (t : ConnectionRuntimeTuning) (s : Z) (n : nat) (packets : nat -> P).
Context (Hn : (n <= rtp_reorder_buffer_max_frames t)%nat) (Hw : Z.of_nat n < 0x8000).
Context (Hseq : forall k, p_seq (packets k) = seq_add s (Z.of_nat k)) (Hfine : forall k, packet_fine (packets k)).

Lemma seq_add_inj i j : (i <= n)%nat -> (j <= n)%nat -> seq_add s (Z.of_nat i) = seq_add s (Z.of_nat j) -> i = j.
Proof. unfold seq_add, wrapping_add, u16_mod. intros. Z.div_mod_to_equations. lia. Qed.

Lemma seq_add_forward i j : (i <= j)%nat -> (j <= n)%nat ->
  wrapping_sub u16_mod (seq_add s (Z.of_nat j)) (seq_add s (Z.of_nat i)) = Z.of_nat (j - i).
Proof. unfold wrapping_sub, seq_add, wrapping_add, u16_mod. intros. Z.div_mod_to_equations. lia. Qed.

Lemma seq_add_succ k : seq_add (seq_add s (Z.of_nat k)) 1 = seq_add s (Z.of_nat (S k)).
Proof. unfold seq_add, wrapping_add. rewrite Zplus_mod_idemp_l. f_equal. lia. Qed.

(** The packets of [got] from [h] on wait in the buffer. *)
Definition waits (got : gset nat) (h : nat) (pm : gmap Z P) : Prop :=
  forall sq p, pm !! sq = Some p <->
    exists k, (h <= k)%nat /\ k ∈ got /\ sq = seq_add s (Z.of_nat k) /\ p = packets k.

(** What is left to do: packets to hand over, each of which completes at most two
    frames, and frames to take. *)
Definition work (h : nat) (a : asm (FrameAssembler := A)) : nat := (3 * (S n - h) + asm_frames a)%nat.

(** After the arrivals [got], the first [h] packets have been handed over and
    the others wait. *)
Record window_ok (got : gset nat) (h : nat) (st : source) : Prop := {
  win_tuning : tuning st = t;
  win_next : next_seq st = Some (seq_add s (Z.of_nat h));
  win_handed : forall k, (k < h)%nat -> k ∈ got;
  win_range : forall k, k ∈ got -> (k <= n)%nat;
  win_h : (0 < h)%nat;
  win_log : log st = Handed <$> (packets <$> seq 0 h);
  win_pending : waits got h (pending_media st);
  win_fine : asm_fine (assembler st).1;
  win_work : (work h (assembler st).1 <= 3 * n + 2)%nat }.

Lemma window_log_snoc h : (Handed <$> (packets <$> seq 0 h)) ++ [Handed (packets h)] = Handed <$> (packets <$> seq 0 (S h)).
Proof. rewrite seq_S, !fmap_app. done. Qed.

(** The buffer never overflows. *)
Lemma window_size (got : gset nat) h pm :
  (0 < h)%nat -> (forall k, k ∈ got -> (k <= n)%nat) -> waits got h pm -> (size pm <= n)%nat.
Proof.
  intros Hh Hr Hpm. rewrite <- size_dom.
  transitivity (size (list_to_set ((fun k => seq_add s (Z.of_nat k)) <$> seq 1 n) : gset Z)).
  - apply subseteq_size. intros sq [p Hp]%elem_of_dom. apply Hpm in Hp as (k&Hk&Hg&->&_). apply Hr in Hg.
    apply elem_of_list_to_set, list_elem_of_fmap. exists k. split; [done|]. apply elem_of_seq. lia.
  - rewrite size_list_to_set; [by rewrite length_fmap, length_seq|]. apply NoDup_fmap_2_strong; [|apply NoDup_seq].
    intros i j Hi%elem_of_seq Hj%elem_of_seq. apply seq_add_inj; lia.
Qed.

Lemma waits_delete got got' h pm :
  waits got h pm -> (forall k, k ≠ h -> k ∈ got' <-> k ∈ got) -> (forall k, k ∈ got' -> (k <= n)%nat) -> (h <= n)%nat ->
  waits got' (S h) (delete (p_seq (packets h)) pm).
Proof.
  intros Hpm Hgot Hr Hh sq p. rewrite lookup_delete_Some, (Hpm sq p), Hseq. split.
  - intros [Hne (k&Hk&Hkg&->&->)]. assert (k ≠ h) by (by intros ->). exists k. rewrite Hgot by done. repeat split; [lia|done].
  - intros (k&Hk&Hkg&->&->). split; [|exists k; rewrite <- Hgot by lia; repeat split; [lia|done]].
    intros Heq%seq_add_inj; [lia|done|by apply Hr].
Qed.

Lemma waits_insert got h k pm :
  waits got h pm -> k ∉ got -> (h <= k <= n)%nat -> (forall i, i ∈ got -> (i <= n)%nat) ->
  pm !! p_seq (packets k) = None /\ waits ({[k]} ∪ got) h (<[p_seq (packets k) := packets k]> pm).
Proof.
  intros Hpm Hk Hkn Hr. rewrite Hseq. assert (pm !! seq_add s (Z.of_nat k) = None) as Hnone.
  { destruct (pm !! seq_add s (Z.of_nat k)) as [p|] eqn:Hp; [|done]. apply Hpm in Hp as (i&Hi&Hg&Heq&_).
    apply seq_add_inj in Heq as ->; [done|lia|by apply Hr]. }
  split; [done|]. intros sq p. rewrite lookup_insert_Some, (Hpm sq p). split.
  - intros [[<- <-]|[Hne (i&Hi&Hg&->&->)]]; [exists k; set_solver by lia|exists i; set_solver].
  - intros (i&Hi&[->%elem_of_singleton|Hg]%elem_of_union&->&->); [by left|]. right. split; [|by exists i].
    intros Heq%seq_add_inj; [by subst|lia|by apply Hr].
Qed.

(** Handing over packet [h], whether it has just arrived or was waiting. *)
Lemma window_hand got h now m pm st r st' :
  tuning st = t -> log st = Handed <$> (packets <$> seq 0 h) -> (forall k, (k <= h)%nat -> k ∈ got) ->
  (forall k, k ∈ got -> (k <= n)%nat) -> waits got (S h) pm -> asm_fine (assembler st).1 ->
  (if decide (h = 0)%nat then asm_frames (assembler st).1 = 0%nat else work h (assembler st).1 <= 3 * n + 2)%nat ->
  hand_over now (packets h) m pm (assembler st) st = (r, st') ->
  window_ok got (S h) st' /\ r ≠ Panic /\ (work (S h) (assembler st').1 < work h (assembler st).1)%nat.
Proof.
  intros Ht Hl Hh Hr Hpm Hf Hwk. unfold hand_over. destruct (logged_push now (packets h) (assembler st) (Hfine h) Hf) as (r0 & b & -> & Hnp & Hb & Hle).
  intros [= <- <-]. assert (h <= n)%nat as Hhn by (apply Hr, Hh; lia). unfold work in *.
  split; [|split; [done|cbn [with_order assembler fst]; lia]].
  split; cbn [with_order tuning next_seq pending_media assembler fst]; try done.
  - by rewrite Hseq, seq_add_succ.
  - intros k Hk. apply Hh. lia.
  - lia.
  - unfold log in *. cbn [with_order assembler snd]. rewrite Hl. apply window_log_snoc.
  - unfold work. case_decide; lia.
Qed.

(** A drain hands over the next packet or takes a frame, if there is one. *)
Lemma window_pop got h now st r st' :
  window_ok got h st -> pop_ready_buffered_frame now st = (r, st') ->
  r ≠ Panic /\ exists h', window_ok got h' st' /\ (h <= h')%nat /\
    (if has_ready_buffered_media st then work h' (assembler st').1 < work h (assembler st).1 else st' = st)%nat.
Proof.
  intros [Ht Hnx Hh Hr Hp Hl Hpm Hf Hwk]. unfold pop_ready_buffered_frame, has_ready_buffered_media. rewrite Hnx.
  destruct (logged_pop (assembler st) Hf) as [(f & b & Hpop & Hb & Hfr)|[Hpop Hc]]; rewrite Hpop.
  { intros [= <- <-]. split; [done|]. exists h. assert (asm_has_completed (assembler st) = true) as ->.
    { pose proof (asm_pop_fine _ Hf) as Hq. cbn [asm_has_completed asm_pop_completed Logged] in *. destruct (asm_pop_completed (assembler st).1) as [[f'|] b']; [apply Hq|done]. }
    cbn [orb with_order assembler fst]. unfold work in *. split; [|split; [lia|lia]]. split; cbn [with_order tuning next_seq pending_media assembler fst]; try done. unfold work. lia. }
  rewrite Hc. cbn [orb]. destruct (pending_media st !! seq_add s (Z.of_nat h)) as [p|] eqn:Hlk; cbn [is_some].
  - apply Hpm in Hlk as (k&Hk&Hkg&Heq&->). apply seq_add_inj in Heq as <-; [|apply Hr in Hkg; lia|by apply Hr].
    rewrite <- (Hseq h). intros Hpop'.
    apply (window_hand got h now (delete (p_seq (packets h)) (missing st)) (delete (p_seq (packets h)) (pending_media st)) st)
      in Hpop' as (Hw' & Hnp & Hlt); [|done|done| |done| |done|].
    + split; [done|]. exists (S h). split; [done|]. split; [lia|done].
    + intros k Hk'. destruct (decide (k = h)) as [->|]; [done|apply Hh; lia].
    + apply (waits_delete got got); [done..|by apply Hr].
    + rewrite decide_False by lia. done.
  - intros [= <- <-]. split; [done|]. exists h. split; [by split|]. split; [lia|]. rewrite <- Hnx. by destruct st.
Qed.

(** The arrival of a new packet of the window. *)
Lemma window_push got h now k st :
  window_ok got h st -> k ∉ got -> (k <= n)%nat ->
  exists r h' st' ev, push_media_packet telemetry now (packets k) st = (r, st', ev) /\ r ≠ Panic /\
    window_ok ({[k]} ∪ got) h' st' /\ (h <= h')%nat /\ Forall no_loss ev.
Proof.
  intros Hwin Hk Hkn. unfold push_media_packet.
  assert (window_ok got h (record_arrival telemetry now (packets k) st).1 /\
    Forall no_loss (record_arrival telemetry now (packets k) st).2) as [Hwin1 Hev].
  { destruct Hwin. unfold record_arrival. destruct telemetry; (split; [by split|]); [by constructor|constructor]. }
  destruct (record_arrival telemetry now (packets k) st) as [st1 ev]. cbn [fst snd] in *. clear Hwin st.
  pose proof Hwin1 as [Ht Hnx Hh Hr Hp Hl Hpm Hf Hwk].
  assert (h <= k)%nat as Hhk. { destruct (Nat.le_gt_cases h k); [done|]. by destruct Hk; apply Hh. }
  rewrite Hnx. destruct (Z.eqb_spec (p_seq (packets k)) (seq_add s (Z.of_nat h))) as [Heq|Hne].
  - rewrite Hseq in Heq. apply seq_add_inj in Heq as ->; [|done|lia].
    destruct (hand_over _ _ _ _ _ _) as [r st'] eqn:Hho.
    apply (window_hand ({[h]} ∪ got) h) in Hho as (Hw' & Hnp & _); [|done|done| | | |done|rewrite decide_False by lia; done].
    + exists r, (S h), st', ev. split; [done|]. split; [done|]. split; [done|]. split; [lia|done].
    + intros i Hi. destruct (decide (i = h)) as [->|]; [set_solver|]. apply elem_of_union. right. apply Hh. lia.
    + set_solver.
    + apply (waits_delete got); [done|set_solver|set_solver|done].
  - assert (h < k)%nat as Hlt. { destruct (decide (h = k)) as [->|]; [by rewrite Hseq in Hne|lia]. }
    rewrite Hseq, seq_add_forward by lia. rewrite (proj2 (Z.ltb_lt _ _)) by lia.
    rewrite Ht, (proj2 (Nat.ltb_ge _ _)) by lia. rewrite <- (Hseq k).
    destruct (waits_insert got h k (pending_media st1) Hpm Hk ltac:(lia) Hr) as [-> Hpm'].
    set (pm := <[p_seq (packets k) := packets k]> (pending_media st1)) in *. set (m := mark_missing _ _ _ _ _).
    cbn [with_order tuning]. rewrite Ht.
    assert (forall i, i ∈ ({[k]} ∪ got : gset nat) -> (i <= n)%nat) as Hr' by set_solver.
    assert (size pm <= n)%nat as Hsize by (eapply window_size; [exact Hp|exact Hr'|exact Hpm']).
    rewrite (proj2 (Nat.ltb_ge _ _)) by lia.
    destruct (pop_ready_buffered_frame _ _) as [r st'] eqn:Hpop. apply (window_pop ({[k]} ∪ got) h) in Hpop as (Hnp & h' & Hw' & Hle & _).
    + exists r, h', st', (ev ++ []). split; [reflexivity|]. split; [done|]. rewrite app_nil_r. split; [exact Hw'|]. by split.
    + split; cbn [with_order tuning next_seq pending_media]; try done. intros i Hi. apply elem_of_union. right. by apply Hh.
Qed.

(** Arrivals of packets of the window, with drains in between. *)
Definition window_op (e : Z * option nat) : rx_op :=
  match e.2 with Some k => RxPush e.1 (packets k) | None => RxPop e.1 end.

Definition arrivals (ops : list (Z * option nat)) : list nat := omap snd ops.

Lemma rx_run_app ops1 ops2 (st : source) :
  rx_run telemetry (ops1 ++ ops2) st =
    let '(rs1, st1, ev1) := rx_run telemetry ops1 st in
    let '(rs2, st2, ev2) := rx_run telemetry ops2 st1 in (rs1 ++ rs2, st2, ev1 ++ ev2).
Proof.
  revert st. induction ops1 as [|op ops1 IH]; intros st; simpl.
  - by destruct (rx_run telemetry ops2 st) as [[? ?] ?].
  - destruct (rx_step telemetry op st) as [[r st1] ev]. rewrite IH. destruct (rx_run telemetry ops1 st1) as [[rs1 st2] ev1].
    destruct (rx_run telemetry ops2 st2) as [[rs2 st3] ev2]. by rewrite app_assoc.
Qed.

Lemma window_run ops got h st :
  window_ok got h st -> NoDup (arrivals ops) -> (forall k, k ∈ arrivals ops -> (k ∉ got) /\ (k <= n)%nat) ->
  exists h' rs st' ev, rx_run telemetry (window_op <$> ops) st = (rs, st', ev) /\
    window_ok (list_to_set (arrivals ops) ∪ got) h' st' /\ Forall (fun r => r ≠ Panic) rs /\ Forall no_loss ev.
Proof.
  revert got h st. induction ops as [|[now [k|]] ops IH]; intros got h st Hwin Hnd Hin.
  - exists h, [], st, []. split; [done|]. split; [|done]. by replace (list_to_set (arrivals []) ∪ got) with got by set_solver.
  - change (arrivals ((now, Some k) :: ops)) with (k :: arrivals ops) in *. apply NoDup_cons in Hnd as [Hk Hnd].
    destruct (Hin k ltac:(left)) as [Hkg Hkn].
    destruct (window_push got h now k st Hwin Hkg Hkn) as (r&h1&st1&ev1&Hstep&Hr&Hwin1&_&Hev1).
    destruct (IH ({[k]} ∪ got) h1 st1 Hwin1 Hnd) as (h'&rs&st'&ev&Hrun&Hwin'&Hrs&Hev).
    { intros i Hi. destruct (Hin i ltac:(by right)) as [? ?]. set_solver. }
    exists h', (r :: rs), st', (ev1 ++ ev). rewrite fmap_cons. cbn [rx_run window_op rx_step snd fst]. rewrite Hstep, Hrun.
    split; [done|]. split; [|split; [by constructor|by apply Forall_app]].
    by replace (list_to_set (k :: arrivals ops) ∪ got) with (list_to_set (arrivals ops) ∪ ({[k]} ∪ got)) by set_solver.
  - change (arrivals ((now, None) :: ops)) with (arrivals ops) in *.
    destruct (pop_ready_buffered_frame now st) as [r st1] eqn:Hpop. destruct (window_pop got h now st r st1 Hwin Hpop) as (Hr&h1&Hwin1&_).
    destruct (IH got _ st1 Hwin1 Hnd Hin) as (h'&rs&st'&ev&Hrun&Hwin'&Hrs&Hev).
    exists h', (r :: rs), st', ev. rewrite fmap_cons. cbn [rx_run window_op rx_step snd fst]. rewrite Hpop, Hrun.
    split; [done|]. split; [done|]. split; [by constructor|done].
Qed.

Lemma idle_drain times got h st : window_ok got h st -> has_ready_buffered_media st = false ->
  exists rs, rx_run telemetry (RxPop <$> times) st = (rs, st, []) /\ Forall (fun r => r ≠ Panic) rs.
Proof.
  intros Hwin Hrd. induction times as [|now times IH]; [by exists []|]. rewrite fmap_cons. cbn [rx_run rx_step].
  destruct (pop_ready_buffered_frame now st) as [r st1] eqn:Hpop. destruct (window_pop got h now st r st1 Hwin Hpop) as (Hr&h'&_&_&Hst).
  rewrite Hrd in Hst. subst st1. destruct IH as (rs&->&Hrs). exists (r :: rs). split; [done|by constructor].
Qed.

(** As long as something is ready, a drain makes progress. *)
Lemma window_drain times got h st :
  window_ok got h st -> (work h (assembler st).1 <= length times)%nat ->
  exists rs st' h', rx_run telemetry (RxPop <$> times) st = (rs, st', []) /\
    window_ok got h' st' /\ has_ready_buffered_media st' = false /\ Forall (fun r => r ≠ Panic) rs.
Proof.
  revert h st. induction times as [|now times IH]; intros h st Hwin Hlen.
  - exists [], st, h. split; [done|]. split; [done|]. split; [|done]. destruct (has_ready_buffered_media st) eqn:Hrd; [|done].
    destruct (pop_ready_buffered_frame 0 st) as [r st1] eqn:Hpop. destruct (window_pop got h 0 st r st1 Hwin Hpop) as (_&h'&_&_&Hlt).
    rewrite Hrd in Hlt. cbn [length] in Hlen. lia.
  - rewrite fmap_cons. cbn [rx_run rx_step]. destruct (pop_ready_buffered_frame now st) as [r st1] eqn:Hpop.
    destruct (window_pop got h now st r st1 Hwin Hpop) as (Hr&h1&Hwin1&_&Hstep). destruct (has_ready_buffered_media st) eqn:Hrd.
    + destruct (IH h1 st1 Hwin1 ltac:(cbn [length] in Hlen; lia)) as (rs&st'&h'&Hrun&Hwin'&Hrd'&Hrs).
      exists (r :: rs), st', h'. rewrite Hrun. split; [done|]. split; [done|]. split; [done|by constructor].
    + subst st1. destruct (idle_drain times got h st Hwin Hrd) as (rs&Hrun&Hrs).
      exists (r :: rs), st, h. rewrite Hrun. split; [done|]. split; [done|]. split; [done|by constructor].
Qed.

(** When all packets have arrived and nothing is ready, all are handed over. *)
Lemma window_idle got h st :
  window_ok got h st -> (forall k, k ∈ got <-> (k <= n)%nat) -> has_ready_buffered_media st = false -> h = S n /\ pending_media st = ∅.
Proof.
  intros [_ Hnx Hh Hr _ _ Hpm _ _] Hgot Hrd. unfold has_ready_buffered_media in Hrd. rewrite Hnx in Hrd. apply orb_false_iff in Hrd as [_ Hrd].
  assert (h = S n) as ->.
  { destruct (decide (h <= n)%nat) as [Hle|Hgt].
    - assert (pending_media st !! seq_add s (Z.of_nat h) = Some (packets h)) as Hp by (apply Hpm; exists h; split; [lia|]; split; [by apply Hgot|done]). by rewrite Hp in Hrd.
    - destruct (decide (S n < h)%nat) as [Hlt|]; [|lia]. specialize (Hh (S n) Hlt). apply Hgot in Hh. lia. }
  split; [done|]. apply map_eq. intros sq. rewrite lookup_empty. destruct (pending_media st !! sq) as [p|] eqn:Hp; [|done].
  apply Hpm in Hp as (k&Hk&Hg%Hgot&_). lia.
Qed.

Lemma window_first now :
  exists r st ev, rx_step telemetry (RxPush now (packets 0)) (ssrc_state_new t) = (r, st, ev) /\ r ≠ Panic /\
    window_ok {[0%nat]} 1 st /\ Forall no_loss ev /\ missing st = ∅.
Proof.
  cbn [rx_step]. unfold push_media_packet.
  assert (exists st1 ev, record_arrival telemetry now (packets 0) (ssrc_state_new t) = (st1, ev) /\ tuning st1 = t /\
    next_seq st1 = None /\ pending_media st1 = ∅ /\ assembler st1 = asm_default /\ Forall no_loss ev /\ missing st1 = ∅)
    as (st1&ev&->&Ht&Hnx&Hpm&Ha&Hev&Hmi).
  { unfold record_arrival. destruct telemetry; do 2 eexists; (split; [reflexivity|]); repeat split; by repeat constructor. }
  rewrite Hnx. destruct (hand_over _ _ _ _ _ _) as [r st'] eqn:Hho. assert (missing st' = ∅) as Hmi' by (unfold hand_over in Hho; destruct (asm_push _ _ _); by injection Hho as _ <-).
  apply (window_hand {[0%nat]} 0) in Hho as (Hw' & Hnp & _); [by exists r, st', ev|done|by unfold log; rewrite Ha| | | |rewrite Ha; apply asm_default_fine|rewrite Ha; apply asm_default_frames].
  - intros k Hk. set_solver by lia.
  - intros k Hk. set_solver by lia.
  - rewrite Hpm. intros sq p. rewrite lookup_empty. split; [done|]. intros (k&Hk&->%elem_of_singleton&_). lia.
Qed.

(** A packet that has to wait: the state differs in the buffer and the marks. *)
Lemma window_buffered got h now k st :
  window_ok got h st -> k ∉ got -> (h < k <= n)%nat -> h ∉ got ->
  exists r st' ev, push_media_packet telemetry now (packets k) st = (r, st', ev) /\ r ≠ Panic /\ window_ok ({[k]} ∪ got) h st' /\
    missing st' = mark_missing (k - h) (seq_add s (Z.of_nat h)) (p_user_id (packets k)) now (missing st).
Proof.
  intros Hwin Hk Hhk Hh. unfold push_media_packet.
  assert (window_ok got h (record_arrival telemetry now (packets k) st).1 /\
    missing (record_arrival telemetry now (packets k) st).1 = missing st) as [Hwin1 Hmi].
  { destruct Hwin. unfold record_arrival. destruct telemetry; (split; [by split|done]). }
  destruct (record_arrival telemetry now (packets k) st) as [st1 ev]. cbn [fst] in *. rewrite <- Hmi. clear Hwin Hmi st.
  pose proof Hwin1 as [Ht Hnx Hh' Hr Hp Hl Hpm Hf Hwk]. rewrite Hnx.
  rewrite (proj2 (Z.eqb_neq _ _)) by (rewrite Hseq; intros Heq%seq_add_inj; lia).
  rewrite Hseq, seq_add_forward by lia. rewrite (proj2 (Z.ltb_lt _ _)) by lia.
  rewrite Ht, (proj2 (Nat.ltb_ge _ _)) by lia. rewrite <- (Hseq k).
  destruct (waits_insert got h k (pending_media st1) Hpm Hk ltac:(lia) Hr) as [-> Hpm'].
  set (pm := <[p_seq (packets k) := packets k]> (pending_media st1)) in *. cbn [with_order tuning]. rewrite Ht.
  assert (forall i, i ∈ ({[k]} ∪ got : gset nat) -> (i <= n)%nat) as Hr' by set_solver by lia.
  rewrite (proj2 (Nat.ltb_ge _ _)) by (pose proof (window_size _ _ pm Hp Hr' Hpm'); lia).
  assert (pm !! seq_add s (Z.of_nat h) = None) as Hnone.
  { destruct (pm !! seq_add s (Z.of_nat h)) as [p|] eqn:Hlk; [|done]. apply Hpm' in Hlk as (i&Hi&Hg&Heq&_).
    apply seq_add_inj in Heq as <-; [|lia|by apply Hr']. apply elem_of_union in Hg as [->%elem_of_singleton|]; [lia|done]. }
  assert (forall i, (i < h)%nat -> i ∈ ({[k]} ∪ got : gset nat)) as Hh2 by (intros i Hi; apply elem_of_union; right; by apply Hh').
  rewrite Nat2Z.id. unfold pop_ready_buffered_frame. cbn [with_order next_seq pending_media assembler].
  destruct (logged_pop (assembler st1) Hf) as [(f & b & -> & Hb & Hfr)|[-> _]]; [|rewrite Hnone]; do 3 eexists; (split; [reflexivity|]); (split; [done|]); (split; [|done]);
    split; cbn [with_order tuning next_seq pending_media assembler fst]; try done. unfold work in *. lia.
Qed.

Lemma mark_missing_keeps m0 e k sq user now (m : gmap Z MissingRtpPacket) :
  m !! m0 = Some e -> mark_missing k sq user now m !! m0 = Some e.
Proof.
  revert sq m. induction k as [|k IH]; intros sq m Hm; simpl; [done|]. apply IH.
  destruct (m !! sq) eqn:Hsq; [done|]. rewrite lookup_insert_ne; [done|]. congruence.
Qed.

End Window.

(** C27. Reordering is repaired.  When the packets following a first packet
    arrive in any order, all within the reorder buffer's size and with drains
    at any points in between, then after 3n + 2 more drains the assembler,
    whichever frames it completes and packets it refuses, has been given exactly
    all the packets, each once, in sequence order and without being cleared;
    nothing waits any more, no completed frame is left, no operation panicked
    and no loss was reported. *)
Theorem reordered_packets_recovered telemetry t s n (packets : nat -> P) now ops times :
  (n <= rtp_reorder_buffer_max_frames t)%nat -> Z.of_nat n < 0x8000 ->
  (forall k, p_seq (packets k) = seq_add s (Z.of_nat k)) -> (forall k, packet_fine (packets k)) ->
  Permutation (arrivals ops) (seq 1 n) -> (3 * n + 2 <= length times)%nat ->
  let run := RxPush now (packets 0%nat) :: (window_op packets <$> ops) ++ (RxPop <$> times) in
  exists rs st ev,
    rx_run (A := Logged) telemetry run (ssrc_state_new t) = (rs, st, ev) /\ rx_run (A := A) telemetry run (ssrc_state_new t) = (rs, forget_log st, ev) /\
    log st = Handed <$> (packets <$> seq 0 (S n)) /\ pending_media st = ∅ /\ has_ready_buffered_media st = false /\
    Forall (fun r => r ≠ Panic) rs /\ Forall no_loss ev.
Proof.
  intros Hn Hw Hseq Hfine Hperm Htimes run.
  enough (exists rs st ev, rx_run (A := Logged) telemetry run (ssrc_state_new t) = (rs, st, ev) /\
    log st = Handed <$> (packets <$> seq 0 (S n)) /\ pending_media st = ∅ /\ has_ready_buffered_media st = false /\
    Forall (fun r => r ≠ Panic) rs /\ Forall no_loss ev) as (rs & st & ev & Hrun & Hrest).
  { exists rs, st, ev. split; [done|]. split; [|done]. pose proof (forget_log_run telemetry run (ssrc_state_new t)) as He. by rewrite Hrun in He. }
  destruct (window_first telemetry t s n packets Hn Hw Hseq Hfine now) as (r0&st0&ev0&Hstep&Hr0&Hwin0&Hev0&_).
  assert (forall k, k ∈ arrivals ops <-> (1 <= k <= n)%nat) as Hin by (intros k; rewrite Hperm, elem_of_seq; lia).
  destruct (window_run telemetry t s n packets Hn Hw Hseq Hfine ops {[0%nat]} 1 st0 Hwin0) as (h&rs1&st1&ev1&Hrun1&Hwin1&Hrs1&Hev1).
  { rewrite Hperm. apply NoDup_seq. } { intros k Hk%Hin. set_solver by lia. }
  assert (forall k, k ∈ (list_to_set (arrivals ops) ∪ {[0%nat]} : gset nat) <-> (k <= n)%nat) as Hgot.
  { intros k. rewrite elem_of_union, elem_of_list_to_set, Hin, elem_of_singleton. lia. }
  destruct (window_drain telemetry t s n packets Hn Hw Hseq Hfine times _ h st1 Hwin1) as (rs2&st2&h2&Hrun2&Hwin2&Hrd&Hrs2).
  { pose proof (win_work _ _ _ _ _ _ _ Hwin1). lia. }
  exists (r0 :: rs1 ++ rs2), st2, (ev0 ++ ev1 ++ []). unfold run. cbn [rx_run]. rewrite Hstep, rx_run_app, Hrun1, Hrun2.
  destruct (window_idle t s n packets Hn _ h2 st2 Hwin2 Hgot Hrd) as [-> Hpm]. destruct Hwin2 as [_ _ _ _ _ Hl _ _ _].
  split; [done|]. split; [done|]. split; [done|]. split; [done|]. split.
  - constructor; [done|by apply Forall_app].
  - apply Forall_app. split; [done|]. by rewrite app_nil_r.
Qed.

(** C39. A buffered packet can be given up although it arrived: if packet 1 of a
    stream is lost and packets 3 and 2 arrive, in this order, then after the
    reorder time packet 2, which waits in the buffer, is given up together with
    packet 1 and reported lost; the assembler, whatever it does with packets,
    gets packet 3 next, and packet 2 stays in the buffer behind the position it
    is waited for. *)
Theorem buffered_packet_given_up t s (packets : nat -> P) t0 t3 t2 now ssrc :
  (3 <= rtp_reorder_buffer_max_frames t)%nat -> t3 + rtp_reorder_ttl t <= now ->
  (forall k, p_seq (packets k) = seq_add s (Z.of_nat k)) -> (forall k, packet_fine (packets k)) ->
  exists rs st ev ev1 user age,
    rx_run (A := Logged) true [RxPush t0 (packets 0%nat); RxPush t3 (packets 3%nat); RxPush t2 (packets 2%nat); RxExpire ssrc now; RxPop now]
      (ssrc_state_new t) = (rs, st, ev) /\
    log st = [Handed (packets 0%nat); Cleared; Handed (packets 3%nat)] /\
    next_seq st = Some (seq_add s 4) /\ pending_media st !! p_seq (packets 2%nat) = Some (packets 2%nat) /\
    ev = ev1 ++ [ReceiveRtpPacketLossEvent ssrc user (seq_add s 1) (seq_add s 2) 2 age].
Proof.
  intros Hmax Hnow Hseq Hfine. assert (Z.of_nat 3 < 0x8000) as Hw by lia.
  destruct (window_first true t s 3 packets Hmax Hw Hseq Hfine t0) as (r0&st0&ev0&Hs0&_&Hwin0&_&Hm0).
  destruct (window_buffered true t s 3 packets Hmax Hw Hseq Hfine {[0%nat]} 1 t3 3 st0 Hwin0) as (r1&st1&ev1&Hs1&_&Hwin1&Hm1); [set_solver|lia|set_solver|].
  destruct (window_buffered true t s 3 packets Hmax Hw Hseq Hfine _ 1 t2 2 st1 Hwin1) as (r2&st2&ev2&Hs2&_&Hwin2&Hm2); [set_solver|lia|set_solver|].
  set (a := seq_add s (Z.of_nat 1)) in *. set (b := seq_add s (Z.of_nat 2)). set (c := seq_add s (Z.of_nat 3)).
  assert (a ≠ b /\ b ≠ c /\ a ≠ c) as (Hab&Hbc&Hac) by (repeat split; intros Heq%(seq_add_inj t s 3 Hmax Hw); lia).
  assert (seq_add a 1 = b) as Hb by apply (seq_add_succ t s 3 Hmax 1).
  assert (seq_add b 1 = c) as Hc by apply (seq_add_succ t s 3 Hmax 2).
  set (e := {| missing_user_id := p_user_id (packets 3%nat); detected_at := t3 |}).
  assert (missing st2 = <[b := e]> (<[a := e]> ∅)) as Hm.
  { rewrite Hm2, Hm1, Hm0. cbn [Nat.sub mark_missing]. rewrite lookup_empty, Hb, lookup_insert_ne, lookup_empty by done.
    fold e. by rewrite lookup_insert_ne, lookup_insert_eq by done. }
  pose proof Hwin2 as [Ht Hnx _ _ _ Hl Hpm Hf _]. fold a in Hnx.
  assert (waiting false now (rtp_reorder_ttl t) e = false) as Hwait
    by (unfold waiting; cbn [detected_at e negb andb]; apply Z.ltb_ge; lia).
  assert (expire_missing_head (A := Logged) true ssrc now false st2 =
    Ok (true, with_order (Some c) ∅ (pending_media st2) (asm_clear (assembler st2)) st2,
        [ReceiveRtpPacketLossEvent ssrc
           (match match missing_user_id e with Some u => Some u | None => missing_user_id e end with Some u => Some u | None => missing_user_id e end)
           a b 2 (duration_ms (duration_since now t3))])) as Hexp.
  { unfold expire_missing_head. rewrite Hnx, Hm, Ht, lookup_insert_ne, lookup_insert_eq, Hwait by done.
    replace (size (<[b:=e]> (<[a:=e]> (∅ : gmap Z MissingRtpPacket)))) with 2%nat
      by (rewrite !map_size_insert_None; [by rewrite map_size_empty|by rewrite lookup_empty|by rewrite lookup_insert_ne]).
    cbn [expire_loop]. rewrite lookup_insert_ne, lookup_insert_eq, Hwait, Hb by done.
    rewrite delete_insert_ne, delete_insert_id by done || (by rewrite lookup_empty).
    rewrite lookup_insert_eq, Hwait, Hc, delete_insert_id by (by rewrite lookup_empty). rewrite lookup_empty. done. }
  cbn [rx_run]. rewrite Hs0. cbn [rx_step]. rewrite Hs1, Hs2, Hexp.
  unfold pop_ready_buffered_frame. cbn [with_order next_seq pending_media assembler].
  destruct (asm_clear_fine (assembler st2).1 Hf) as [Hcf Hc0]. set (cleared := asm_clear (assembler st2)).
  assert (asm_pop_completed cleared = (None, cleared)) as -> by (destruct (logged_pop cleared Hcf) as [(f & d & _ & _ & Hfr)|[? _]]; [cbn in Hfr; lia|done]).
  assert (pending_media st2 !! c = Some (packets 3%nat)) as ->. { apply Hpm. exists 3%nat. set_solver by lia. }
  destruct (logged_push now (packets 3%nat) cleared (Hfine 3%nat) Hcf) as (r & d & -> & _).
  do 6 eexists. split; [reflexivity|]. cbn [with_order next_seq pending_media]. split; [|split; [|split]].
  - unfold log in *. cbn [assembler with_order snd cleared asm_clear Logged]. rewrite Hl. done.
  - f_equal. apply (seq_add_succ t s 3 Hmax 3).
  - rewrite lookup_delete_ne by (rewrite Hseq; fold b; done). apply Hpm. exists 2%nat. rewrite Hseq. set_solver by lia.
  - rewrite app_nil_r, !app_assoc. reflexivity.
Qed.
End Logged.
End Reorder.

(** ** Witnesses: Opus packets across the wrap-around, with the assembler of the
    receive path *)
Module ReorderSamples.
Import Reorder.
#[local] Existing Instance Assembler.AssemblerSamples.sample_raw.

Definition sample_tuning : ConnectionRuntimeTuning :=
  {| dave_pending_media_ttl := 1000; receive_interarrival_window := 8; rtp_reorder_ttl := 100; rtp_reorder_buffer_max_frames := 4;
     udp_receive_buffer_bytes := 65535; ready_frame_buffer_max := 4; media_queue_capacity := 4 |}.

Definition sample_packets (k : nat) : Assembler.PendingMediaPacket :=
  Assembler.AssemblerSamples.sample_packet Opus (seq_add 65534 (Z.of_nat k)) 0 (true, [1; 2; 3]).

#[local] Instance sample_laws : FrameAssemblerLaws rtp_frame_assembler := rtp_frame_assembler_laws Assembler.AssemblerSamples.sample_seq.

Lemma sample_packets_fine k : packet_fine (sample_packets k).
Proof.
  split; [by repeat constructor|]. split; [|done]. cbn. unfold is_u16, seq_add, wrapping_add. apply Z.mod_pos_bound. done.
Qed.

Abbreviation rtp_run := (rx_run (A := rtp_frame_assembler)).
Abbreviation logged_run := (rx_run (A := Logged (A := rtp_frame_assembler))).

(** Packets 2 and 3 come before packet 1. *)
Definition reordered : list rx_op := [RxPush 0 (sample_packets 0); RxPush 1 (sample_packets 2); RxPush 2 (sample_packets 3); RxPop 3; RxPush 4 (sample_packets 1)].

(** Four packets go in and four frames come out. *)
Definition frames_of (rs : list (res Rtp.RtpError (option Assembler.PendingMediaFrame))) : list bytes :=
  omap (fun r => match r with Ok (Some f) => Some (Assembler.encrypted_frame f) | _ => None end) rs.

Example reordered_frames : frames_of (rtp_run true (reordered ++ replicate 11 (RxPop 5)) (ssrc_state_new sample_tuning)).1.1 = replicate 4 [1; 2; 3].
Proof. vm_compute. reflexivity. Qed.


Lemma reordered_packets_recovered_witness :
  exists rs st ev,
    logged_run true (reordered ++ replicate 11 (RxPop 5)) (ssrc_state_new sample_tuning) = (rs, st, ev) /\
    rtp_run true (reordered ++ replicate 11 (RxPop 5)) (ssrc_state_new sample_tuning) = (rs, forget_log st, ev) /\
    log st = [Handed (sample_packets 0); Handed (sample_packets 1); Handed (sample_packets 2); Handed (sample_packets 3)] /\ pending_media st = ∅ /\
    has_ready_buffered_media st = false /\ Forall (fun r => r ≠ Panic) rs /\ Forall no_loss ev.
Proof.
  apply (reordered_packets_recovered true sample_tuning 65534 3 sample_packets 0
    [(1, Some 2%nat); (2, Some 3%nat); (3, None); (4, Some 1%nat)] (replicate 11 5)).
  - simpl. lia.
  - lia.
  - done.
  - apply sample_packets_fine.
  - change (Permutation [2%nat; 3%nat; 1%nat] [1%nat; 2%nat; 3%nat]). solve_Permutation.
  - simpl. lia.
Defined.

Lemma buffered_packet_given_up_witness :
  exists rs st ev ev1 user age,
    logged_run true [RxPush 0 (sample_packets 0); RxPush 10 (sample_packets 3); RxPush 20 (sample_packets 2); RxExpire 5 200; RxPop 200] (ssrc_state_new sample_tuning) =
      (rs, st, ev) /\
    log st = [Handed (sample_packets 0); Cleared; Handed (sample_packets 3)] /\ next_seq st = Some 2 /\
    pending_media st !! p_seq (sample_packets 2) = Some (sample_packets 2) /\
    ev = ev1 ++ [ReceiveRtpPacketLossEvent 5 user 65535 0 2 age].
Proof. apply (buffered_packet_given_up sample_tuning 65534 sample_packets 0 10 20 200 5); [simpl; lia|simpl; lia|done|apply sample_packets_fine]. Defined.
End ReorderSamples.
