(* ===== verification/PendingMedia.v ===== *)
(** * Frames waiting to be decrypted

    [DavePendingMediaBucket], [DavePendingMediaRetry] and
    [PendingDaveMediaQueues] of [state.rs]: frames that cannot be decrypted yet
    wait in one of four buckets, by the reason; a state change retries some of
    the buckets, and a frame that waited for the time to live is dropped.

    The frames are abstract ([QueuedMedia] gives the fields the queues look
    at).  Instants and durations are in nanoseconds. *)

From S2P Require Import Prelude Queue Frame Rtp Assembler.
Import Queue.Deadlines Queue.Buckets.

Module PendingMedia.

Class QueuedMedia (F : Type) := {
  f_ssrc : F -> Z; f_reason : F -> Assembler.DavePendingMediaReason; f_enqueued_at : F -> Z }.

#[export] Instance queued_media_frame {R : Assembler.FrameRaw} : QueuedMedia Assembler.PendingMediaFrame := {|
  f_ssrc f := Rtp.ssrc (Assembler.frame_rtp f); f_reason := Assembler.reason; f_enqueued_at := Assembler.enqueued_at |}.

Inductive DavePendingMediaBucket := MissingUser | SessionNotReady | GatewayPending | DecryptStatePending.

#[export] Instance bucket_eq_dec : EqDecision DavePendingMediaBucket.
Proof. solve_decision. Defined.

(** [DavePendingMediaBucket::ALL] *)
Definition all_buckets : list DavePendingMediaBucket := [MissingUser; SessionNotReady; GatewayPending; DecryptStatePending].

Definition media_bucket_index (b : DavePendingMediaBucket) : nat :=
  match b with MissingUser => 0 | SessionNotReady => 1 | GatewayPending => 2 | DecryptStatePending => 3 end.

#[export] Instance bucket_countable : Countable DavePendingMediaBucket.
Proof.
  refine (inj_countable' media_bucket_index
    (fun n => match n with O => MissingUser | 1%nat => SessionNotReady | 2%nat => GatewayPending | _ => DecryptStatePending end) _).
  by intros [].
Defined.

#[export] Instance media_bucket : QueueBucket (B := DavePendingMediaBucket) := {|
  bucket_index := media_bucket_index; bucket_count := length all_buckets |}.

#[export] Instance media_bucket_laws : QueueBucketLaws media_bucket.
Proof. split; [intros []; simpl; lia|by intros [] []]. Qed.

Definition bit (b : DavePendingMediaBucket) : Z :=
  match b with
  | MissingUser => Z.shiftl 1 0 | SessionNotReady => Z.shiftl 1 1
  | GatewayPending => Z.shiftl 1 2 | DecryptStatePending => Z.shiftl 1 3
  end.

Definition from_reason (r : Assembler.DavePendingMediaReason) : option DavePendingMediaBucket :=
  match r with
  | Assembler.MissingUser => Some MissingUser
  | Assembler.SessionNotReady => Some SessionNotReady
  | Assembler.GatewayPending => Some GatewayPending
  | Assembler.DecryptStatePending | Assembler.NoValidCryptorPending => Some DecryptStatePending
  | Assembler.StableDecryptFailure | Assembler.Expired => None
  end.

(** ** [DavePendingMediaRetry] *)
Record DavePendingMediaRetry := { bits : Z }.

Definition retry_default : DavePendingMediaRetry := {| bits := 0 |}.

Definition retry_dave_state : DavePendingMediaRetry :=
  {| bits := Z.lor (Z.lor (bit SessionNotReady) (bit GatewayPending)) (bit DecryptStatePending) |}.

Definition retry_missing_user : DavePendingMediaRetry := {| bits := bit MissingUser |}.

Definition retry_is_empty (r : DavePendingMediaRetry) : bool := bits r =? 0.

Definition retry_include (retry r : DavePendingMediaRetry) : DavePendingMediaRetry := {| bits := Z.lor (bits r) (bits retry) |}.

Definition includes (r : DavePendingMediaRetry) (b : DavePendingMediaBucket) : bool := negb (Z.land (bits r) (bit b) =? 0).

(** ** [PendingDaveMediaQueues] *)
Section Queues.
Context {F : Type} {Q : QueuedMedia F} {I : SetIter (K := DavePendingMediaBucket)}.

Record PendingDaveMediaQueues := { ttl : Z; media_buckets : BucketDeadlineQueue (B := DavePendingMediaBucket) (T := F) }.

Definition pending_new (d : Z) : PendingDaveMediaQueues := {| ttl := d; media_buckets := bdq_default |}.

Definition pending_len (q : PendingDaveMediaQueues) : nat := bdq_len (media_buckets q).

(** [expect] panics for a reason that has no bucket. *)
Definition pending_push {E} (media : F) (q : PendingDaveMediaQueues) : res E (nat * PendingDaveMediaQueues) :=
  b ← unwrap (from_reason (f_reason media));
  bs ← bdq_push b media (f_enqueued_at media + ttl q) (media_buckets q);
  let q := {| ttl := ttl q; media_buckets := bs |} in Ok (pending_len q, q).

Definition pop_retry {E} (retry : DavePendingMediaRetry) (q : PendingDaveMediaQueues) : res E (option F * PendingDaveMediaQueues) :=
  '(o, bs) ← bdq_pop_matching (includes retry) (media_buckets q); Ok (o, {| ttl := ttl q; media_buckets := bs |}).

Definition pending_pop_expired {E} (now : Z) (q : PendingDaveMediaQueues) : res E (option F * PendingDaveMediaQueues) :=
  '(o, bs) ← bdq_pop_expired now (media_buckets q); Ok (o, {| ttl := ttl q; media_buckets := bs |}).

Definition pending_deadline (q : PendingDaveMediaQueues) : option Z := bdq_next_deadline (media_buckets q).

(** The loop over [ALL]. *)
Fixpoint prune_buckets {E} (removed : gset Z) (l : list DavePendingMediaBucket) (bs : BucketDeadlineQueue) : res E BucketDeadlineQueue :=
  match l with
  | [] => Ok bs
  | b :: l => bs ← bdq_retain b (fun media => negb (bool_decide (f_ssrc media ∈ removed))) bs; prune_buckets removed l bs
  end.

Definition pending_prune_ssrcs {E} (removed : gset Z) (q : PendingDaveMediaQueues) : res E PendingDaveMediaQueues :=
  bs ← prune_buckets removed all_buckets (media_buckets q); Ok {| ttl := ttl q; media_buckets := bs |}.

(** ** The queues as one collection of frames *)
Context {HI : SetIterLaws I}.

(** Every frame is in the bucket of its reason and has the deadline of its age. *)
Record pending_ok (q : PendingDaveMediaQueues) : Prop := {
  pending_bdq : bdq_ok (media_buckets q);
  pending_item : forall b x, x ∈ content (media_buckets q) b ->
    from_reason (f_reason (value x)) = Some b /\ deadline x = f_enqueued_at (value x) + ttl q }.

(** The frames that wait. *)
Definition frames (q : PendingDaveMediaQueues) : list F := value <$> (all_buckets ≫= content (media_buckets q)).

Lemma all_buckets_complete b : b ∈ all_buckets.
Proof. destruct b; set_solver. Qed.

Lemma elem_of_frames q f : f ∈ frames q <-> exists b x, x ∈ content (media_buckets q) b /\ value x = f.
Proof.
  unfold frames. rewrite list_elem_of_fmap. split.
  - intros (x & -> & (b & Hx & _)%list_elem_of_bind). eauto.
  - intros (b & x & Hx & <-). exists x. split; [done|]. apply list_elem_of_bind. exists b. split; [done|apply all_buckets_complete].
Qed.

(** A bucket changes, the others stay. *)
Lemma bind_update (g g' : DavePendingMediaBucket -> list (DeadlineValue (T := F))) b l d :
  g b ≡ₚ d ++ l -> (forall b', g' b' = if decide (b = b') then l else g b') -> all_buckets ≫= g ≡ₚ d ++ (all_buckets ≫= g').
Proof.
  intros Hb Hg. unfold all_buckets. cbn [mbind list_bind]. rewrite !Hg. destruct b; rewrite Hb; repeat case_decide; try done; solve_Permutation.
Qed.

Lemma place_Permutation d item (l : list (DeadlineValue (T := F))) : place d item l ≡ₚ item :: l.
Proof.
  unfold place. rewrite <- Permutation_middle. constructor. induction l as [|x l IH]; [done|]. simpl. rewrite Z.gtb_ltb.
  destruct (Z.leb_spec (deadline x) d), (Z.ltb_spec d (deadline x)); try lia; simpl; [by rewrite IH|]. by rewrite <- Permutation_middle, IH.
Qed.

Lemma bdq_len_frames q : bdq_ok (media_buckets q) -> pending_len q = length (frames q).
Proof.
  intros Hq. unfold frames, pending_len, bdq_len, bucket_len. rewrite length_fmap. unfold all_buckets. cbn [mbind list_bind].
  rewrite !length_app. unfold content. pose proof (bdq_length _ _ Hq) as Hlen. destruct (media_buckets q) as [bs ds]. simpl in *.
  destruct bs as [|l0 [|l1 [|l2 [|l3 [|]]]]]; try done.
Qed.

Lemma pending_new_ok d : pending_ok (pending_new d) /\ frames (pending_new d) = [].
Proof.
  assert (forall b, content (media_buckets (pending_new d)) b = []) as Hc by (by intros []).
  split; [split; [apply bdq_default_ok|intros b x; rewrite Hc; by intros ?%elem_of_nil]|]. done.
Qed.

Lemma pending_push_spec {E} media q :
  pending_ok q -> is_Some (from_reason (f_reason media)) ->
  exists q', pending_push (E := E) media q = Ok (length (frames q'), q') /\ pending_ok q' /\ ttl q' = ttl q /\ frames q' ≡ₚ media :: frames q.
Proof.
  intros [Hb Hi] [b Hr]. unfold pending_push. rewrite Hr. cbn [unwrap mbind res_mbind].
  destruct (bdq_push_spec (E := E) b media (f_enqueued_at media + ttl q) _ Hb) as (bs & -> & Hok & Hc). cbn [mbind res_mbind].
  eexists. split; [by rewrite bdq_len_frames|]. split; [|split; [done|]].
  - split; [done|]. cbn [media_buckets ttl]. intros b' x. rewrite Hc. destruct (decide (b = b')) as [<-|]; [|apply Hi].
    rewrite place_Permutation. intros [->|Hx]%elem_of_cons; [done|by apply Hi].
  - unfold frames. cbn [media_buckets].
    rewrite (bind_update _ (content (media_buckets q)) b (content (media_buckets q) b) [{| deadline := f_enqueued_at media + ttl q; value := media |}]).
    + done.
    + rewrite Hc, decide_True by done. apply place_Permutation.
    + intros b'. rewrite Hc. by destruct (decide (b = b')) as [<-|].
Qed.

(** Taking the first item of a bucket out. *)
Lemma pending_pop_front q b item l bs :
  pending_ok q -> bdq_ok bs -> content (media_buckets q) b = item :: l ->
  (forall b', content bs b' = if decide (b = b') then l else content (media_buckets q) b') ->
  let q' := {| ttl := ttl q; media_buckets := bs |} in
  pending_ok q' /\ frames q ≡ₚ value item :: frames q'.
Proof.
  intros [Hb Hi] Hbs Hc Hc' q'. split.
  - split; [done|]. cbn [media_buckets ttl q']. intros b' x. rewrite Hc'. destruct (decide (b = b')) as [<-|]; [|apply Hi].
    intros Hx. apply Hi. rewrite Hc. by right.
  - unfold frames. cbn [media_buckets q']. rewrite (bind_update (content (media_buckets q)) (content bs) b l [item]); [done|by rewrite Hc|done].
Qed.

Definition retried (retry : DavePendingMediaRetry) (f : F) : bool :=
  match from_reason (f_reason f) with Some b => includes retry b | None => false end.

Lemma pop_retry_spec {E} retry q :
  pending_ok q ->
  exists o q', pop_retry (E := E) retry q = Ok (o, q') /\ pending_ok q' /\ ttl q' = ttl q /\
    match o with
    | Some f => frames q ≡ₚ f :: frames q' /\ retried retry f = true /\
        (forall g, g ∈ frames q -> retried retry g = true -> f_enqueued_at f <= f_enqueued_at g)
    | None => q' = q /\ forall g, g ∈ frames q -> retried retry g = false
    end.
Proof.
  intros Hq. pose proof Hq as [Hb Hi]. unfold pop_retry.
  destruct (bdq_pop_matching_spec (E := E) (includes retry) _ Hb) as (o & bs & -> & Hok & Ho). cbn [mbind res_mbind].
  do 2 eexists. split; [done|]. destruct o as [f|].
  - destruct Ho as (b & item & l & Hc & <- & Hinc & Hmin & Hc'). destruct (pending_pop_front q b item l bs Hq Hok Hc Hc') as [Hq' Hf].
    split; [done|]. split; [done|]. split; [done|].
    destruct (Hi b item) as [Hr Hd]; [rewrite Hc; by left|]. unfold retried. rewrite Hr. split; [done|].
    intros g (b' & x & Hx & <-)%elem_of_frames Hg. destruct (Hi b' x Hx) as [Hr' Hd']. rewrite Hr' in Hg. specialize (Hmin b' x Hg Hx). lia.
  - destruct Ho as [-> Hno]. destruct q. split; [done|]. split; [done|]. split; [done|].
    intros g (b' & x & Hx & <-)%elem_of_frames. destruct (Hi b' x Hx) as [Hr' _]. unfold retried. rewrite Hr'.
    destruct (includes retry b') eqn:Hinc; [|done]. rewrite (Hno b' Hinc) in Hx. by apply elem_of_nil in Hx.
Qed.

Lemma pending_pop_expired_spec {E} now q :
  pending_ok q ->
  exists o q', pending_pop_expired (E := E) now q = Ok (o, q') /\ pending_ok q' /\ ttl q' = ttl q /\
    match o with
    | Some f => frames q ≡ₚ f :: frames q' /\ f_enqueued_at f + ttl q <= now /\
        (forall g, g ∈ frames q -> f_enqueued_at f <= f_enqueued_at g)
    | None => frames q' = frames q /\ forall g, g ∈ frames q -> now < f_enqueued_at g + ttl q
    end.
Proof.
  intros Hq. pose proof Hq as [Hb Hi]. unfold pending_pop_expired.
  destruct (bdq_pop_expired_spec (E := E) now _ Hb) as (o & bs & -> & Hok & Ho). cbn [mbind res_mbind].
  do 2 eexists. split; [done|]. destruct o as [f|].
  - destruct Ho as (b & item & l & Hc & <- & Hdue & Hmin & Hc'). destruct (pending_pop_front q b item l bs Hq Hok Hc Hc') as [Hq' Hf].
    split; [done|]. split; [done|]. split; [done|]. destruct (Hi b item) as [Hr Hd]; [rewrite Hc; by left|]. split; [lia|].
    intros g (b' & x & Hx & <-)%elem_of_frames. destruct (Hi b' x Hx) as [_ Hd']. specialize (Hmin b' x Hx). lia.
  - destruct Ho as [Hsame Hno]. split; [split; [done|]|split; [done|split]].
    + cbn [media_buckets ttl]. intros b x. rewrite Hsame. apply Hi.
    + unfold frames, all_buckets. cbn [media_buckets mbind list_bind]. by rewrite !Hsame.
    + intros g (b' & x & Hx & <-)%elem_of_frames. destruct (Hi b' x Hx) as [_ Hd']. specialize (Hno b' x Hx). lia.
Qed.

Lemma filter_value (keep : F -> bool) (l : list DeadlineValue) :
  value <$> List.filter (fun item => keep (value item)) l = List.filter keep (value <$> l).
Proof. induction l as [|x l IH]; [done|]. cbn. destruct (keep (value x)); cbn; [f_equal; exact IH|exact IH]. Qed.

Lemma pending_prune_spec {E} removed q :
  pending_ok q ->
  exists q', pending_prune_ssrcs (E := E) removed q = Ok q' /\ pending_ok q' /\ ttl q' = ttl q /\
    frames q' = List.filter (fun f => negb (bool_decide (f_ssrc f ∈ removed))) (frames q).
Proof.
  intros [Hb Hi]. unfold pending_prune_ssrcs. set (keep := fun f => negb (bool_decide (f_ssrc f ∈ removed))).
  assert (forall l bs, bdq_ok bs -> NoDup l -> exists bs', prune_buckets (E := E) removed l bs = Ok bs' /\ bdq_ok bs' /\
    forall b, content bs' b = if decide (b ∈ l) then List.filter (fun item => keep (value item)) (content bs b) else content bs b) as Hl.
  { induction l as [|b l IH]; intros bs Hbs Hnd; [by exists bs|]. apply NoDup_cons in Hnd as [Hbl Hnd]. cbn [prune_buckets].
    destruct (bdq_retain_spec (E := E) b keep bs Hbs) as (bs1 & Hbs1 & Hok1 & Hc1). fold keep. rewrite Hbs1. cbn [mbind res_mbind].
    destruct (IH bs1 Hok1 Hnd) as (bs' & -> & Hok' & Hc'). exists bs'. split; [done|]. split; [done|]. intros b'. rewrite Hc', !Hc1.
    destruct (decide (b = b')) as [<-|Hne]; [by rewrite decide_False, decide_True by set_solver|].
    destruct (decide (b' ∈ l)); [by rewrite decide_True by set_solver|by rewrite decide_False by set_solver]. }
  destruct (Hl all_buckets (media_buckets q) Hb) as (bs & -> & Hok & Hc); [apply (bool_decide_unpack _); by vm_compute|].
  cbn [mbind res_mbind]. assert (forall b, content bs b = List.filter (fun item => keep (value item)) (content (media_buckets q) b)) as Hc'
    by (intros b; by rewrite Hc, decide_True by apply all_buckets_complete).
  eexists. split; [done|]. split; [|split; [done|]].
  - split; [done|]. cbn [media_buckets ttl]. intros b x. rewrite Hc'. intros Hx. apply Hi. apply list_elem_of_In, filter_In in Hx as [Hx _].
    by apply list_elem_of_In.
  - unfold frames. cbn [media_buckets]. rewrite <- filter_value. f_equal. unfold all_buckets. cbn [mbind list_bind]. rewrite !Hc', !List.filter_app. done.
Qed.

(** The states a sequence of calls can produce. *)
Inductive pending_reachable (d : Z) : PendingDaveMediaQueues -> Prop :=
| pending_reach_new : pending_reachable d (pending_new d)
| pending_reach_push media q n q' : pending_reachable d q -> is_Some (from_reason (f_reason media)) ->
    pending_push (E := Empty_set) media q = Ok (n, q') -> pending_reachable d q'
| pending_reach_retry retry q o q' : pending_reachable d q -> pop_retry (E := Empty_set) retry q = Ok (o, q') -> pending_reachable d q'
| pending_reach_expired now q o q' : pending_reachable d q -> pending_pop_expired (E := Empty_set) now q = Ok (o, q') -> pending_reachable d q'
| pending_reach_prune removed q q' : pending_reachable d q -> pending_prune_ssrcs (E := Empty_set) removed q = Ok q' -> pending_reachable d q'.

Lemma pending_reachable_ok d q : pending_reachable d q -> pending_ok q /\ ttl q = d.
Proof.
  induction 1 as [|media q n q' _ [IH Ht] Hr Hp|retry q o q' _ [IH Ht] Hp|now q o q' _ [IH Ht] Hp|removed q q' _ [IH Ht] Hp].
  - split; [apply pending_new_ok|done].
  - destruct (pending_push_spec (E := Empty_set) media q IH Hr) as (q1 & Hq1 & ? & ? & _). naive_solver congruence.
  - destruct (pop_retry_spec (E := Empty_set) retry q IH) as (o1 & q1 & Hq1 & ? & ? & _). naive_solver congruence.
  - destruct (pending_pop_expired_spec (E := Empty_set) now q IH) as (o1 & q1 & Hq1 & ? & ? & _). naive_solver congruence.
  - destruct (pending_prune_spec (E := Empty_set) removed q IH) as (q1 & Hq1 & ? & ? & _). naive_solver congruence.
Qed.
End Queues.
Arguments PendingDaveMediaQueues F : clear implicits.

(** The bits of a retry are a set of buckets. *)
Lemma includes_include r r' b : includes (retry_include r' r) b = includes r b || includes r' b.
Proof.
  assert (forall r, includes r b = has_bits (bits r) (2 ^ Z.of_nat (media_bucket_index b))) as Hb by (by destruct b).
  rewrite !Hb. cbn [retry_include bits]. rewrite !has_bits_pow2 by lia. apply Z.lor_spec.
Qed.

Lemma includes_constants b :
  includes retry_default b = false /\ includes retry_missing_user b = bool_decide (b = MissingUser) /\
  includes retry_dave_state b = negb (bool_decide (b = MissingUser)).
Proof. by destruct b. Qed.

(** C35. The pending frames are one collection, ordered by age.  In every
    reachable state no call panics: a pushed frame is added and the number of
    waiting frames returned; [pop_retry] takes out the oldest of the frames
    whose reason the retry covers, and finds nothing exactly when there is
    none; [pop_expired] takes out the oldest frame of all once it has waited
    for the time to live, and finds nothing exactly when no frame has; pruning
    removes exactly the frames of the removed sources. *)
Theorem pending_media_refines {F} {Q : QueuedMedia F} {I : SetIter} (HI : SetIterLaws I) d q media retry now removed :
  pending_reachable d q -> is_Some (from_reason (f_reason media)) ->
  (exists q', pending_push (E := Empty_set) media q = Ok (length (frames q'), q') /\ frames q' ≡ₚ media :: frames q) /\
  (exists o q', pop_retry (E := Empty_set) retry q = Ok (o, q') /\
    match o with
    | Some f => frames q ≡ₚ f :: frames q' /\ retried retry f = true /\
        (forall g, g ∈ frames q -> retried retry g = true -> f_enqueued_at f <= f_enqueued_at g)
    | None => q' = q /\ forall g, g ∈ frames q -> retried retry g = false
    end) /\
  (exists o q', pending_pop_expired (E := Empty_set) now q = Ok (o, q') /\
    match o with
    | Some f => frames q ≡ₚ f :: frames q' /\ f_enqueued_at f + d <= now /\
        (forall g, g ∈ frames q -> f_enqueued_at f <= f_enqueued_at g)
    | None => frames q' = frames q /\ forall g, g ∈ frames q -> now < f_enqueued_at g + d
    end) /\
  (exists q', pending_prune_ssrcs (E := Empty_set) removed q = Ok q' /\
    frames q' = List.filter (fun f => negb (bool_decide (f_ssrc f ∈ removed))) (frames q)).
Proof.
  intros [Hq <-]%pending_reachable_ok Hr. split_and!.
  - destruct (pending_push_spec (E := Empty_set) media q Hq Hr) as (q' & ? & _ & _ & ?). eauto.
  - destruct (pop_retry_spec (E := Empty_set) retry q Hq) as (o & q' & ? & _ & _ & ?). eauto.
  - destruct (pending_pop_expired_spec (E := Empty_set) now q Hq) as (o & q' & ? & _ & _ & ?). eauto.
  - destruct (pending_prune_spec (E := Empty_set) removed q Hq) as (q' & ? & _ & _ & ?). eauto.
Qed.

(** ** Witness *)
Module PendingSamples.
#[export] Instance sample_bucket_iter : SetIter (K := DavePendingMediaBucket) := {| pick := fun s => head (elements s) |}.

#[export] Instance sample_bucket_iter_laws : SetIterLaws sample_bucket_iter.
Proof.
  split; cbn; intros s.
  - intros k Hk. apply elem_of_elements. destruct (elements s); [done|]. injection Hk as ->. left.
  - intros Hk. apply leibniz_equiv, elements_empty_iff. by destruct (elements s).
Qed.

(** A frame is its source, the reason it waits for and its age. *)
#[export] Instance sample_media : QueuedMedia (Z * Assembler.DavePendingMediaReason * Z) := {|
  f_ssrc f := f.1.1; f_reason f := f.1.2; f_enqueued_at f := f.2 |}.

Definition sample_frame : Z * Assembler.DavePendingMediaReason * Z := (5, Assembler.NoValidCryptorPending, 3).

Lemma pending_media_refines_witness :
  exists q, frames q = [(5, Assembler.NoValidCryptorPending, 3)] /\
  (exists o q', pop_retry (E := Empty_set) retry_dave_state q = Ok (o, q') /\
    match o with
    | Some f => frames q ≡ₚ f :: frames q' /\ retried retry_dave_state f = true /\
        (forall g, g ∈ frames q -> retried retry_dave_state g = true -> f_enqueued_at f <= f_enqueued_at g)
    | None => q' = q /\ forall g, g ∈ frames q -> retried retry_dave_state g = false
    end).
Proof.
  destruct (pending_push (E := Empty_set) sample_frame (pending_new 10)) as [[n q]|e|] eqn:Hq; [|by vm_compute in Hq|by vm_compute in Hq].
  exists q. split; [vm_compute in Hq; injection Hq as _ <-; by vm_compute|].
  apply (pending_media_refines sample_bucket_iter_laws 10 q sample_frame retry_dave_state 20 ∅); [|by eexists].
  apply (pending_reach_push 10 sample_frame (pending_new 10) n q); [constructor|by eexists|done].
Defined.
End PendingSamples.
End PendingMedia.
