(* ===== verification/Receive.v ===== *)
(** * The receive state of a connection

    [ReceiveState] of [state.rs]: one [ReceiveSsrcState] per media source,
    the queue of sources that have media ready, the deadlines of the gaps, and
    [PendingDaveMediaQueues], which holds frames that wait until they can be
    decrypted.

    What the receive state needs from a frame assembler is the interface
    [FrameAssemblerLaws] of Reorder.v.  The order in which a hash set is iterated is
    a parameter ([SetIter]).  [now] is the clock reading of a call. *)

From S2P Require Import Prelude Tuning Frame Rtp RtpPayload Stats Queue Assembler Reorder PendingMedia.
Import Tuning.Tuning Reorder.Reorder Queue.Deadlines PendingMedia.PendingMedia.

(** ** The assembler and the flag that says a frame is encrypted *)
Section RtpAssembler.
Context {R : Assembler.FrameRaw}.

(** The flag [dave], which says whether a frame is to be decrypted, comes from
    the packets of the frame; and a frame of bytes is built from bytes. *)
Context (flag : bool -> Prop).

Definition partial_flagged (t : Assembler.PartialRtpFrame) : Prop := flag (Assembler.part_dave t) /\ all_bytes (Assembler.part_frame t).
Definition frame_flagged (f : Assembler.PendingMediaFrame) : Prop := flag (Assembler.frame_dave f) /\ all_bytes (Assembler.encrypted_frame f).

Record assembler_flagged (a : Assembler.RtpFrameAssembler) : Prop := {
  flagged_partial : forall t, Assembler.partial a = Some t -> partial_flagged t;
  flagged_completed : Forall frame_flagged (Assembler.completed a) }.

Lemma set_partial_flagged t a : assembler_flagged a -> (forall x, t = Some x -> partial_flagged x) -> assembler_flagged (Assembler.set_partial t a).
Proof. by intros [_ Hc]. Qed.

Lemma push_completed_flagged f a : assembler_flagged a -> frame_flagged f -> assembler_flagged (Assembler.push_completed f a).
Proof. intros [Hp Hc] Hf. split; [done|]. apply Forall_app. auto. Qed.

Lemma finish_flagged a : assembler_flagged a ->
  exists r a', Assembler.finish a = (r, a') /\ r ≠ Panic /\ assembler_flagged a' /\ (forall f, r = Ok (Some f) -> frame_flagged f).
Proof.
  intros [Hp Hc]. unfold Assembler.finish, Assembler.pop_completed. destruct (Assembler.completed a) as [|f l] eqn:Hl.
  - do 2 eexists. split; [done|]. split; [done|]. split; [|done]. split; [done|by rewrite Hl].
  - apply Forall_cons in Hc as [Hf Hc]. do 2 eexists. split; [done|]. split; [done|]. split; [done|]. by intros x [= <-].
Qed.

Lemma push_packet_flagged now p a :
  assembler_flagged a -> all_bytes (Assembler.encrypted_payload p) -> flag (Assembler.pkt_dave p) ->
  exists r a', Assembler.push_packet now p a = (r, a') /\ r ≠ Panic /\ assembler_flagged a' /\
    (forall f, r = Ok (Some f) -> frame_flagged f).
Proof.
  intros Ha Hb Hp. unfold Assembler.push_packet. set (a1 := Assembler.end_on_timestamp now p a).
  assert (assembler_flagged a1) as Ha1.
  { unfold a1, Assembler.end_on_timestamp. destruct (Assembler.partial_should_complete_before p a); [|done].
    destruct (Assembler.partial a) as [t|] eqn:Ht; [|done]. apply push_completed_flagged; [by apply set_partial_flagged|].
    exact (flagged_partial _ Ha t Ht). }
  assert (assembler_flagged (Assembler.drop_on_gap p a1)) as Ha2
    by (unfold Assembler.drop_on_gap; destruct (_ && _); [by apply set_partial_flagged|done]).
  pose proof (RtpPayload.parse_payload_safe (Assembler.pkt_codec p) _ (Rtp.marker (Assembler.pkt_rtp p)) (Assembler.has_contiguous_partial p a1) Hb) as Hs.
  destruct (RtpPayload.parse_payload _ _ _ _) as [payload|e|]; [|by do 2 eexists|done]. simpl in Hs.
  destruct (_ && _); [by apply finish_flagged|].
  assert (forall t a', assembler_flagged a' -> partial_flagged t ->
    exists r a'', match Assembler.append_payload t (Rtp.seq (Assembler.pkt_rtp p)) payload with
      | Err e => (Err e, a') | Panic => (Panic, a')
      | Ok t => Assembler.finish (if RtpPayload.completes_frame payload
                  then Assembler.push_completed (Assembler.into_pending now (Assembler.push_raw_packet t (Assembler.pkt_raw p))) a'
                  else Assembler.set_partial (Some (Assembler.push_raw_packet t (Assembler.pkt_raw p))) a')
      end = (r, a'') /\ r ≠ Panic /\ assembler_flagged a'' /\ (forall f, r = Ok (Some f) -> frame_flagged f)) as Happ.
  { intros t a' Ha' Ht. unfold Assembler.append_payload. pose proof (RtpPayload.append_depacketized_safe _ (Assembler.part_frame t) Hs) as Hap.
    destruct (RtpPayload.append_depacketized _ _) as [fb|e|]; [|by do 2 eexists|done]. cbn [mbind res_mbind]. apply finish_flagged.
    cbn in Hap. destruct Ht as [Ht1 Ht2]. specialize (Hap Ht2).
    destruct (RtpPayload.completes_frame payload); [by apply push_completed_flagged|]. apply set_partial_flagged; [done|]. by intros x [= <-]. }
  destruct (Assembler.has_contiguous_partial p a1 && negb (RtpPayload.starts_frame payload)) eqn:Hcont; [|by apply Happ; [|split; [done|constructor]]].
  apply andb_true_iff in Hcont as [Hc _]. destruct (Assembler.contiguous_kept p a1 Hc) as (t&Ht&Ht1&_). rewrite Ht.
  apply Happ; [by apply set_partial_flagged|]. exact (flagged_partial _ Ha1 t Ht1).
Qed.

#[local, refine] Instance rtp_assembler_flag_laws : FrameAssemblerLaws rtp_frame_assembler := {
  packet_fine p := all_bytes (Assembler.encrypted_payload p) /\ flag (Assembler.pkt_dave p);
  frame_fine := frame_flagged;
  asm_fine := assembler_flagged;
  asm_frames a := length (Assembler.completed a);
  asm_default_frames := eq_refl }.
Proof.
  - split; [done|by constructor].
  - intros now p a [Hb Hp] Ha. destruct (push_packet_flagged now p a Ha Hb Hp) as (r&a'&Hpush&Hr&Ha'&Hfr).
    exists r, a'. pose proof (push_packet_frames now p a) as Hf. rewrite Hpush in Hf. done.
  - intros a [Hp Hc]. cbn. unfold Assembler.pop_completed, Assembler.has_completed_frame. destruct (Assembler.completed a) as [|f l] eqn:Hl; [done|].
    apply Forall_cons in Hc as [Hf Hc]. done.
  - intros a _. split; [|done]. split; [done|by constructor].
Defined.
End RtpAssembler.

(** ** Sources: no panic, and what an operation consumes *)
Section Sources.
Context {P F E : Type} {A : FrameAssembler P F E} {SP : SequencedPacket P}.
Abbreviation source := (ReceiveSsrcState P F E).

(** The packets that wait and the gaps before them. *)
Definition backlog (st : source) : nat := (size (pending_media st) + size (missing st))%nat.

Context {L : FrameAssemblerLaws A}.

Record source_fine (st : source) : Prop := {
  fine_asm : asm_fine (assembler st);
  fine_pending : map_Forall (fun _ p => packet_fine p) (pending_media st) }.

(** What drains can still take from a source. *)
Definition source_weight (st : source) : nat :=
  (3 * size (pending_media st) + size (missing st) + asm_frames (assembler st))%nat.

Lemma source_fine_new t : source_fine (ssrc_state_new t).
Proof. split; [apply asm_default_fine|apply map_Forall_empty]. Qed.

Definition hands_fine (r : res E (option F)) : Prop := forall f, r = Ok (Some f) -> frame_fine f.

Lemma hand_over_fine now p m pm a st r st' :
  hand_over now p m pm a st = (r, st') -> packet_fine p -> asm_fine a -> map_Forall (fun _ p => packet_fine p) pm ->
  r ≠ Panic /\ source_fine st' /\ hands_fine r.
Proof.
  unfold hand_over. intros Hho Hp Ha Hpm. destruct (asm_push_fine now p a Hp Ha) as (r0&a'&Hpush&Hr&Ha'&_&Hf).
  rewrite Hpush in Hho. injection Hho as <- <-. done.
Qed.

Lemma pop_ready_fine now st r st' :
  pop_ready_buffered_frame now st = (r, st') -> source_fine st ->
  r ≠ Panic /\ source_fine st' /\ hands_fine r /\
  (if has_ready_buffered_media st then source_weight st' < source_weight st /\ (r = Ok None -> backlog st' < backlog st)
   else r = Ok None /\ source_weight st' = source_weight st)%nat.
Proof.
  intros Hpop [Ha Hpm]. pose proof (asm_pop_fine _ Ha) as Hc. unfold pop_ready_buffered_frame in Hpop. unfold has_ready_buffered_media.
  destruct (asm_pop_completed (assembler st)) as [[f|] a'].
  - destruct Hc as (-> & Ha' & Hn & Hf). injection Hpop as <- <-. split; [done|]. split; [done|]. split; [by intros f' [= <-]|].
    split; [|done]. unfold source_weight. cbn [pending_media missing assembler with_order orb]. lia.
  - destruct Hc as [-> ->]. cbn [orb]. destruct (next_seq st) as [sq|]; [|by injection Hpop as <- <-].
    destruct (pending_media st !! sq) as [p|] eqn:Hp; [|by injection Hpop as <- <-]. cbn [is_some].
    destruct (asm_push_fine now p (assembler st) (Hpm _ _ Hp) Ha) as (r0&a2&Hpush&Hr&Ha2&Hle&Hf). rewrite Hpush in Hpop. injection Hpop as <- <-.
    split; [done|]. split; [by split; [done|apply map_Forall_delete]|]. split; [done|]. unfold source_weight, backlog. cbn [pending_media missing assembler with_order].
    pose proof (map_size_delete_Some sq (pending_media st) (mk_is_Some _ _ Hp)) as Hd. assert (size (pending_media st) ≠ 0%nat).
    { intros H0%map_size_empty_inv. by rewrite H0, lookup_empty in Hp. }
    assert (size (delete sq (missing st)) <= size (missing st))%nat by (rewrite map_size_delete; destruct (missing st !! sq); simpl; lia).
    lia.
Qed.

Lemma expire_loop_shrinks fuel force now ttl m sq lastq count user r :
  expire_loop (E := E) fuel force now ttl m sq lastq count user = Ok r -> 0 <= count <= u16_mod - 1 ->
  let '(_, m', _, count', _) := r in (size m' <= size m)%nat /\ count <= count' <= u16_mod - 1.
Proof.
  revert m sq lastq count user. induction fuel as [|fuel IH]; intros m sq lastq count user Hl Hc; [done|]. simpl in Hl.
  destruct (m !! sq) as [e|] eqn:He; [|injection Hl as <-; split; [done|lia]].
  destruct (waiting force now ttl e); [injection Hl as <-; split; [done|lia]|].
  apply IH in Hl; [|lia]. destruct r as [[[[sq' m'] lastq'] count'] user']. rewrite map_size_delete, He in Hl. simpl in Hl. lia.
Qed.

Lemma expire_fine telemetry ssrc now force (st : source) :
  source_fine st ->
  exists b st' ev, expire_missing_head telemetry ssrc now force st = Ok (b, st', ev) /\ source_fine st' /\
    if b then (source_weight st' < source_weight st)%nat /\ (backlog st' < backlog st)%nat /\ exists d, pending_reorder_deadline st = Some d /\ (force = true \/ d <= now)
    else st' = st /\ forall d, pending_reorder_deadline st = Some d -> force = false /\ now < d.
Proof.
  intros [Ha Hpm]. unfold expire_missing_head, pending_reorder_deadline.
  destruct (next_seq st) as [sq|]; [|by do 3 eexists]. cbn [mbind option_bind].
  destruct (missing st !! sq) as [e|] eqn:He; [|by do 3 eexists]. cbn [mbind option_bind].
  destruct (waiting force now _ e) eqn:Hw.
  { apply andb_true_iff in Hw as [Hf%negb_true_iff Hn%Z.ltb_lt]. do 3 eexists. split; [done|]. split; [done|]. split; [done|]. by intros d [= <-]. }
  destruct (expire_loop_total (E := E) (S (size (missing st))) force now (rtp_reorder_ttl (tuning st)) (missing st) sq sq 0 (missing_user_id e))
    as (sq'&m'&lastq'&count'&user'&Hloop); [lia|]. rewrite Hloop. cbn [mbind res_mbind].
  simpl in Hloop. rewrite He, Hw in Hloop. apply expire_loop_shrinks in Hloop as [Hsz Hcnt]; [|unfold u16_mod; lia].
  rewrite (proj2 (Z.eqb_neq _ _)) by (unfold u16_mod in Hcnt; lia). destruct (asm_clear_fine _ Ha) as [Hca Hcf].
  rewrite map_size_delete, He in Hsz. simpl in Hsz.
  assert (size (missing st) ≠ 0%nat) by (intros H0%map_size_empty_inv; by rewrite H0, lookup_empty in He).
  do 3 eexists. split; [done|]. split; [done|].
  unfold source_weight, backlog. cbn [pending_media missing assembler with_order]. rewrite Hcf. split; [lia|]. split; [lia|].
  eexists. split; [done|]. unfold waiting in Hw. destruct force; [by left|right]. apply Z.ltb_ge in Hw. lia.
Qed.

Lemma push_media_fine telemetry now p st :
  source_fine st -> packet_fine p ->
  exists r st' ev, push_media_packet telemetry now p st = (r, st', ev) /\ r ≠ Panic /\ source_fine st' /\ hands_fine r.
Proof.
  intros [Ha Hpm] Hp. unfold push_media_packet. destruct (record_arrival telemetry now p st) as [st1 ev] eqn:Hrec.
  assert (assembler st1 = assembler st /\ pending_media st1 = pending_media st) as [Ha1 Hpm1]
    by (unfold record_arrival in Hrec; destruct telemetry; by injection Hrec as <- _).
  rewrite <- Ha1 in Ha. rewrite <- Hpm1 in Hpm. clear Ha1 Hpm1.
  assert (forall m pm a, asm_fine a -> map_Forall (fun _ p => packet_fine p) pm -> forall ev' : list ReceiveEvent,
    exists r st' ev0, (let '(r, st') := hand_over now p m pm a st1 in (r, st', ev')) = (r, st', ev0) /\ r ≠ Panic /\ source_fine st' /\ hands_fine r) as Hh.
  { intros m pm a Ha' Hpm' ev'. destruct (hand_over now p m pm a st1) as [r st'] eqn:Hho.
    destruct (hand_over_fine _ _ _ _ _ _ _ _ Hho Hp Ha' Hpm') as (? & ? & ?). by do 3 eexists. }
  destruct (next_seq st1) as [expected|]; [|by apply Hh].
  destruct (_ =? _); [apply Hh; [done|by apply map_Forall_delete]|]. destruct (_ <? _); [|by do 3 eexists].
  destruct (_ <? _)%nat; [apply Hh; [by apply asm_clear_fine|apply map_Forall_empty]|].
  set (pm := match pending_media st1 !! p_seq p with Some _ => _ | None => _ end).
  assert (map_Forall (fun _ p => packet_fine p) pm) as Hpm'
    by (unfold pm; destruct (pending_media st1 !! p_seq p); [done|by apply map_Forall_insert_2]).
  match goal with |- context [with_order ?n ?m pm ?a st1] => set (st2 := with_order n m pm a st1) end. assert (source_fine st2) as Hst2 by done.
  assert (exists b st3 loss, (if (rtp_reorder_buffer_max_frames (tuning st2) <? size pm)%nat
    then expire_missing_head telemetry (p_ssrc p) now true st2 else Ok (false, st2, [])) = Ok (b, st3, loss) /\ source_fine st3)
    as (b&st3&loss&->&Hst3).
  { destruct (_ <? _)%nat; [|by do 3 eexists].
    destruct (expire_fine telemetry (p_ssrc p) now true st2 Hst2) as (b&st3&loss&Hex&Hf&_). by do 3 eexists. }
  destruct (pop_ready_buffered_frame now st3) as [r st'] eqn:Hpop. apply pop_ready_fine in Hpop as (Hr&Hf&Hh'&_); [|done]. by do 3 eexists.
Qed.
End Sources.

(** ** [ReceiveState] *)
Module Receive.
Section Receive.
Context {P F E : Type} {A : FrameAssembler P F E} {SP : SequencedPacket P} {Q : QueuedMedia F}.
Context {IS : SetIter (K := Z)} {IB : SetIter (K := DavePendingMediaBucket)}.

Record ReceiveState := {
  rs_tuning : ConnectionRuntimeTuning;
  pending_dave_media : PendingDaveMediaQueues F;
  ssrcs : gmap Z (ReceiveSsrcState P F E);
  ready_ssrcs : list Z;
  queued_ready_ssrcs : gset Z;
  rtp_reorder_deadlines : DeadlineSet (K := Z) }.

Definition receive_new (t : ConnectionRuntimeTuning) : ReceiveState :=
  {| rs_tuning := t; pending_dave_media := pending_new (dave_pending_media_ttl t); ssrcs := ∅; ready_ssrcs := [];
     queued_ready_ssrcs := ∅; rtp_reorder_deadlines := deadline_set_default |}.

Definition set_ssrc (s : Z) (state : ReceiveSsrcState P F E) (st : ReceiveState) : ReceiveState :=
  {| rs_tuning := rs_tuning st; pending_dave_media := pending_dave_media st; ssrcs := <[s := state]> (ssrcs st);
     ready_ssrcs := ready_ssrcs st; queued_ready_ssrcs := queued_ready_ssrcs st; rtp_reorder_deadlines := rtp_reorder_deadlines st |}.

Definition set_ready (ready : list Z) (queued : gset Z) (st : ReceiveState) : ReceiveState :=
  {| rs_tuning := rs_tuning st; pending_dave_media := pending_dave_media st; ssrcs := ssrcs st; ready_ssrcs := ready;
     queued_ready_ssrcs := queued; rtp_reorder_deadlines := rtp_reorder_deadlines st |}.

Definition set_deadlines (ds : DeadlineSet (K := Z)) (st : ReceiveState) : ReceiveState :=
  {| rs_tuning := rs_tuning st; pending_dave_media := pending_dave_media st; ssrcs := ssrcs st; ready_ssrcs := ready_ssrcs st;
     queued_ready_ssrcs := queued_ready_ssrcs st; rtp_reorder_deadlines := ds |}.

Definition set_pending (q : PendingDaveMediaQueues F) (st : ReceiveState) : ReceiveState :=
  {| rs_tuning := rs_tuning st; pending_dave_media := q; ssrcs := ssrcs st; ready_ssrcs := ready_ssrcs st;
     queued_ready_ssrcs := queued_ready_ssrcs st; rtp_reorder_deadlines := rtp_reorder_deadlines st |}.

Definition pending_dave_media_deadline (st : ReceiveState) : option Z := pending_deadline (pending_dave_media st).

Definition pending_rtp_reorder_deadline (st : ReceiveState) : option Z := next_deadline (rtp_reorder_deadlines st).

Definition refresh_ssrc_schedules (s : Z) (st : ReceiveState) : ReceiveState :=
  match ssrcs st !! s with
  | None => st
  | Some state =>
      let st := if has_ready_buffered_media state && negb (bool_decide (s ∈ queued_ready_ssrcs st))
                then set_ready (ready_ssrcs st ++ [s]) ({[s]} ∪ queued_ready_ssrcs st) st else st in
      match pending_reorder_deadline state with
      | Some d => set_deadlines (deadline_insert s d (rtp_reorder_deadlines st)) st
      | None => set_deadlines (deadline_remove s (rtp_reorder_deadlines st)).2 st
      end
  end.

Definition receive_push (telemetry : bool) (now : Z) (p : P) (st : ReceiveState)
    : res E (option F) * ReceiveState * list ReceiveEvent :=
  let s := p_ssrc p in
  let '(r, state, ev) := push_media_packet telemetry now p (default (ssrc_state_new (rs_tuning st)) (ssrcs st !! s)) in
  (r, refresh_ssrc_schedules s (set_ssrc s state st), ev).

(** [pop_ready_buffered_ssrc]: the source found, and what is left of the queue. *)
Fixpoint pop_ready_loop (m : gmap Z (ReceiveSsrcState P F E)) (ready : list Z) (queued : gset Z) : option Z * list Z * gset Z :=
  match ready with
  | [] => (None, [], queued)
  | s :: ready =>
      let queued := queued ∖ {[s]} in
      if match m !! s with Some state => has_ready_buffered_media state | None => false end then (Some s, ready, queued)
      else pop_ready_loop m ready queued
  end.

Definition pop_ready_buffered_ssrc (st : ReceiveState) : option Z * ReceiveState :=
  let '(o, ready, queued) := pop_ready_loop (ssrcs st) (ready_ssrcs st) (queued_ready_ssrcs st) in (o, set_ready ready queued st).

(** [expired_missing_ssrc]; every turn removes a key of the deadline set. *)
Fixpoint expired_loop (fuel : nat) (now : Z) (m : gmap Z (ReceiveSsrcState P F E)) (ds : DeadlineSet (K := Z))
    : res E (option Z * DeadlineSet (K := Z)) :=
  match fuel with
  | O => Panic
  | S fuel =>
      '(o, ds) ← deadline_pop_expired now ds;
      match o with
      | None => Ok (None, ds)
      | Some s =>
          if match (state ← m !! s; pending_reorder_deadline state) with Some d => d <=? now | None => false end then Ok (Some s, ds)
          else expired_loop fuel now m ds
      end
  end.

Definition expired_missing_ssrc (now : Z) (st : ReceiveState) : res E (option Z * ReceiveState) :=
  '(o, ds) ← expired_loop (S (size (keys (rtp_reorder_deadlines st)))) now (ssrcs st) (rtp_reorder_deadlines st);
  Ok (o, set_deadlines ds st).

(** The [loop] of [drain_ordered_media]: [Ok None] is its [None]. *)
Fixpoint drain_loop (fuel : nat) (telemetry : bool) (now : Z) (st : ReceiveState)
    : res E (option F) * ReceiveState * list ReceiveEvent :=
  match fuel with
  | O => (Panic, st, [])
  | S fuel =>
      match pop_ready_buffered_ssrc st with
      | (Some s, st) =>
          match ssrcs st !! s with
          | None => drain_loop fuel telemetry now st
          | Some state =>
              let '(r, state) := pop_ready_buffered_frame now state in
              let st := refresh_ssrc_schedules s (set_ssrc s state st) in
              match r with
              | Ok None => drain_loop fuel telemetry now st
              | _ => (r, st, [])
              end
          end
      | (None, st) =>
          match expired_missing_ssrc now st with
          | Ok (Some s, st) =>
              match (match ssrcs st !! s with
                     | Some state =>
                         '(_, state, ev) ← expire_missing_head telemetry s now false state; Ok (set_ssrc s state st, ev)
                     | None => Ok (st, [])
                     end) with
              | Ok (st, ev) =>
                  let '(r, st, evs) := drain_loop fuel telemetry now (refresh_ssrc_schedules s st) in (r, st, ev ++ evs)
              | Err e => (Err e, st, [])
              | Panic => (Panic, st, [])
              end
          | Ok (None, st) => (Ok None, st, [])
          | Err e => (Err e, st, [])
          | Panic => (Panic, st, [])
          end
      end
  end.

(** Every turn that goes on hands over a waiting packet or gives up a gap. *)
Definition drain_ordered_media (telemetry : bool) (now : Z) (st : ReceiveState)
    : res E (option F) * ReceiveState * list ReceiveEvent :=
  drain_loop (S (map_sum backlog (ssrcs st))) telemetry now st.

Definition prune_ssrcs (removed : gset Z) (st : ReceiveState) : res E ReceiveState :=
  if bool_decide (removed = ∅) then Ok st
  else
    let ds := foldl (fun ds s => (deadline_remove s ds).2) (rtp_reorder_deadlines st) (elements removed) in
    q ← pending_prune_ssrcs removed (pending_dave_media st);
    Ok {| rs_tuning := rs_tuning st; pending_dave_media := q;
          ssrcs := filter (fun e => e.1 ∉ removed) (ssrcs st);
          ready_ssrcs := filter (fun s => s ∉ removed) (ready_ssrcs st);
          queued_ready_ssrcs := filter (fun s => s ∉ removed) (queued_ready_ssrcs st);
          rtp_reorder_deadlines := ds |}.

(** ** Invariant: the schedules cover the sources *)
Context {L : FrameAssemblerLaws A} {LS : SetIterLaws IS} {LB : SetIterLaws IB}.

(** The ready queue has every source with media ready, and the deadline set the
    deadline of every gap, [except] those of one source possibly. *)
Record sched_ok_except (x : option Z) (st : ReceiveState) : Prop := {
  sched_nodup : NoDup (ready_ssrcs st);
  sched_queue : forall s, s ∈ ready_ssrcs st <-> s ∈ queued_ready_ssrcs st;
  sched_ready : forall s state, Some s ≠ x -> ssrcs st !! s = Some state -> has_ready_buffered_media state = true -> s ∈ ready_ssrcs st;
  sched_consistent : consistent (rtp_reorder_deadlines st);
  sched_deadline : forall s, Some s ≠ x -> keys (rtp_reorder_deadlines st) !! s = (state ← ssrcs st !! s; pending_reorder_deadline state);
  sched_sources : map_Forall (fun _ state => source_fine state) (ssrcs st);
  sched_pending : pending_ok (pending_dave_media st) }.

Definition sched_ok (st : ReceiveState) : Prop := sched_ok_except None st.

Lemma sched_ok_new t : sched_ok (receive_new t).
Proof.
  split; cbn.
  - by apply NoDup_nil.
  - set_solver.
  - intros s state _. by rewrite lookup_empty.
  - apply consistent_default.
  - intros s _. by rewrite !lookup_empty.
  - apply map_Forall_empty.
  - apply pending_new_ok.
Qed.

(** Replacing the state of a source leaves its schedules to be refreshed. *)
Lemma set_ssrc_ok x s state st :
  sched_ok_except x st -> x = None \/ x = Some s -> source_fine state -> sched_ok_except (Some s) (set_ssrc s state st).
Proof.
  intros [H1 H2 H3 H4 H5 H6 H7] Hx Hf. assert (forall s', Some s' ≠ Some s -> Some s' ≠ x) as Hne by (destruct Hx as [->| ->]; naive_solver).
  split; cbn [set_ssrc ready_ssrcs queued_ready_ssrcs rtp_reorder_deadlines ssrcs pending_dave_media]; try done.
  - intros s' state' Hs. rewrite lookup_insert_ne by congruence. eauto.
  - intros s' Hs. rewrite lookup_insert_ne by congruence. eauto.
  - by apply map_Forall_insert_2.
Qed.

Lemma refresh_ok s st :
  sched_ok_except (Some s) st -> is_Some (ssrcs st !! s) ->
  sched_ok (refresh_ssrc_schedules s st) /\ ssrcs (refresh_ssrc_schedules s st) = ssrcs st /\
  pending_dave_media (refresh_ssrc_schedules s st) = pending_dave_media st.
Proof.
  intros [H1 H2 H3 H4 H5 H6 H7] [state Hs]. unfold refresh_ssrc_schedules. rewrite Hs.
  set (st1 := if _ && _ then _ else st).
  assert (sched_ok_except (Some s) st1 /\ (has_ready_buffered_media state = true -> s ∈ ready_ssrcs st1) /\ ssrcs st1 = ssrcs st /\
    pending_dave_media st1 = pending_dave_media st) as ([H1' H2' H3' H4' H5' H6' H7'] & Hr & Hss & Hp).
  { unfold st1. destruct (has_ready_buffered_media state) eqn:Hready; [|by split; [split|]].
    destruct (bool_decide_reflect (s ∈ queued_ready_ssrcs st)) as [Hq|Hq]; [split; [by split|]; split; [|done]; intros _; by apply H2|].
    cbn [negb andb]. split; [split; cbn; try done|split; [|done]].
    - apply NoDup_app. split; [done|]. split; [|apply NoDup_singleton]. intros y Hy Hys. apply list_elem_of_singleton in Hys as ->.
      by apply Hq, H2.
    - intros s'. rewrite elem_of_app, list_elem_of_singleton, elem_of_union, elem_of_singleton, H2. tauto.
    - intros s' state' Hs' Hlk Hrd. apply elem_of_app. left. eauto.
    - intros _. apply elem_of_app. right. by apply list_elem_of_singleton. }
  clearbody st1. assert (forall ds, consistent ds -> (forall s', Some s' ≠ Some s -> keys ds !! s' = keys (rtp_reorder_deadlines st1) !! s') ->
    keys ds !! s = pending_reorder_deadline state -> sched_ok (set_deadlines ds st1)) as Hds.
  { intros ds Hc Hk Hks. split; cbn; try done.
    - intros s' state' _ Hlk Hrd. destruct (decide (s' = s)) as [->|]; [|eapply H3'; naive_solver].
      rewrite Hss, Hs in Hlk. injection Hlk as <-. by apply Hr.
    - intros s' _. destruct (decide (s' = s)) as [->|]; [by rewrite Hks, Hss, Hs|]. rewrite Hk by congruence. apply H5'. congruence. }
  destruct (pending_reorder_deadline state) as [d|] eqn:Hd; (split; [|done]); apply Hds.
  - by apply deadline_insert_spec.
  - intros s' Hne. destruct (deadline_insert_spec s d _ H4') as [_ ->]. by rewrite lookup_insert_ne by congruence.
  - destruct (deadline_insert_spec s d _ H4') as [_ ->]. apply lookup_insert_eq.
  - by apply deadline_remove_spec.
  - intros s' Hne. destruct (deadline_remove_spec s _ H4') as (_ & -> & _). by rewrite lookup_delete_ne by congruence.
  - destruct (deadline_remove_spec s _ H4') as (_ & -> & _). apply lookup_delete_eq.
Qed.

Lemma receive_push_ok telemetry now p st :
  sched_ok st -> packet_fine p ->
  exists r st' ev, receive_push telemetry now p st = (r, st', ev) /\ r ≠ Panic /\ sched_ok st' /\ pending_dave_media st' = pending_dave_media st /\ hands_fine r.
Proof.
  intros Hok Hp. unfold receive_push. set (state0 := default _ _).
  assert (source_fine state0) as Hf.
  { unfold state0. destruct (ssrcs st !! p_ssrc p) as [state|] eqn:Hs; [exact (sched_sources _ _ Hok _ _ Hs)|apply source_fine_new]. }
  destruct (push_media_fine telemetry now p state0 Hf Hp) as (r & state & ev & -> & Hr & Hf' & Hh).
  destruct (refresh_ok (p_ssrc p) (set_ssrc (p_ssrc p) state st)) as (Hok' & _ & Hpe).
  - apply (set_ssrc_ok None); auto.
  - eexists. apply lookup_insert_eq.
  - do 3 eexists. split; [done|]. split; [done|]. split; [done|]. by rewrite Hpe.
Qed.

Definition source_ready (m : gmap Z (ReceiveSsrcState P F E)) (s : Z) : Prop :=
  exists state, m !! s = Some state /\ has_ready_buffered_media state = true.

Lemma pop_ready_loop_spec m ready queued :
  NoDup ready -> (forall s, s ∈ ready <-> s ∈ queued) -> (forall s, source_ready m s -> s ∈ ready) ->
  let '(o, ready', queued') := pop_ready_loop m ready queued in
  NoDup ready' /\ (forall s, s ∈ ready' <-> s ∈ queued') /\ (forall s, Some s ≠ o -> source_ready m s -> s ∈ ready') /\
  match o with Some s => source_ready m s | None => forall s, ~ source_ready m s end.
Proof.
  revert queued. induction ready as [|s ready IH]; intros queued Hnd Hq Hr; cbn [pop_ready_loop].
  - split; [done|]. split; [done|]. split; [intros s _; apply Hr|]. intros s Hs%Hr. by apply elem_of_nil in Hs.
  - apply NoDup_cons in Hnd as [Hs Hnd].
    assert (forall y, y ∈ ready <-> y ∈ queued ∖ {[s]}) as Hq'.
    { intros y. rewrite elem_of_difference, <- Hq, elem_of_cons, elem_of_singleton. split; [intros; split; [auto|congruence]|tauto]. }
    destruct (match m !! s with Some state => has_ready_buffered_media state | None => false end) eqn:Hm.
    + split; [done|]. split; [done|]. split.
      * intros y Hy Hrd%Hr. apply elem_of_cons in Hrd as [->|]; done.
      * destruct (m !! s) as [state|] eqn:Hms; [|done]. by exists state.
    + apply IH; [done|done|]. intros y Hy. pose proof (Hr y Hy) as Hin. apply elem_of_cons in Hin as [->|]; [|done].
      destruct Hy as (state & Hms & Hrd). by rewrite Hms, Hrd in Hm.
Qed.

Lemma pop_ready_ssrc_ok st :
  sched_ok st ->
  exists o st', pop_ready_buffered_ssrc st = (o, st') /\ sched_ok_except o st' /\ ssrcs st' = ssrcs st /\
    pending_dave_media st' = pending_dave_media st /\
    match o with Some s => source_ready (ssrcs st) s | None => forall s, ~ source_ready (ssrcs st) s end.
Proof.
  intros [H1 H2 H3 H4 H5 H6 H7]. unfold pop_ready_buffered_ssrc.
  pose proof (pop_ready_loop_spec (ssrcs st) (ready_ssrcs st) (queued_ready_ssrcs st) H1 H2) as Hl.
  destruct (pop_ready_loop _ _ _) as [[o ready] queued]. destruct Hl as (Hnd & Hq & Hr & Ho).
  { intros s (state & Hs & Hrd). by apply (H3 s state). }
  do 2 eexists. split; [done|]. split; [|done]. split; cbn; try done.
  - intros s state Hne Hs Hrd. apply Hr; [done|]. by exists state.
  - intros s _. by apply H5.
Qed.

Definition overdue (m : gmap Z (ReceiveSsrcState P F E)) (now s : Z) : Prop :=
  exists state d, m !! s = Some state /\ pending_reorder_deadline state = Some d /\ d <= now.

Lemma expired_ssrc_ok now st :
  sched_ok st ->
  exists o st', expired_missing_ssrc now st = Ok (o, st') /\ sched_ok_except o st' /\ ssrcs st' = ssrcs st /\
    pending_dave_media st' = pending_dave_media st /\
    match o with Some s => overdue (ssrcs st) now s | None => forall s, ~ overdue (ssrcs st) now s end.
Proof.
  intros [H1 H2 H3 H4 H5 H6 H7]. unfold expired_missing_ssrc. cbn [expired_loop].
  destruct (deadline_pop_expired_spec (E := E) now _ H4) as (o & ds & -> & Hc & Ho). cbn [mbind res_mbind].
  destruct o as [s|].
  - destruct Ho as (d & Hk & Hd & _ & Hks). rewrite H5 in Hk by done. rewrite Hk, (proj2 (Z.leb_le _ _)) by done. cbn [mbind res_mbind].
    do 2 eexists. split; [done|]. split; [|split; [done|split; [done|]]].
    + split; cbn; try done; [intros; by eapply H3|]. intros s' Hne. rewrite Hks, lookup_delete_ne by congruence. by apply H5.
    + destruct (ssrcs st !! s) as [state|] eqn:Hs; [|done]. by exists state, d.
  - destruct Ho as [-> Hno]. cbn [mbind res_mbind]. do 2 eexists. split; [done|]. split; [by split|]. split; [done|]. split; [done|].
    intros s (state & d & Hs & Hd & Hle). specialize (Hno s d). rewrite H5, Hs in Hno by done. specialize (Hno Hd). lia.
Qed.

(** A state replaced by a lighter one. *)
Lemma map_sum_lighter {B} (w : B -> nat) (m : gmap Z B) s a b :
  m !! s = Some a -> (w b < w a)%nat -> (map_sum w (<[s := b]> m) < map_sum w m)%nat.
Proof. intros Hs Hw. rewrite map_sum_insert, (map_sum_delete w m s a Hs). lia. Qed.

Lemma map_sum_le {B} (w : B -> nat) (m : gmap Z B) s a b :
  m !! s = Some a -> (w b <= w a)%nat -> (map_sum w (<[s := b]> m) <= map_sum w m)%nat.
Proof. intros Hs Hw. rewrite map_sum_insert, (map_sum_delete w m s a Hs). lia. Qed.

(** What drains can still take from all sources. *)
Definition receive_weight (st : ReceiveState) : nat := map_sum source_weight (ssrcs st).

(** Nothing is left to do at [now]. *)
Definition drained (now : Z) (st : ReceiveState) : Prop :=
  (forall s, ~ source_ready (ssrcs st) s) /\ forall s, ~ overdue (ssrcs st) now s.

Lemma drain_loop_ok fuel telemetry now st :
  sched_ok st -> (map_sum backlog (ssrcs st) < fuel)%nat ->
  exists r st' ev, drain_loop fuel telemetry now st = (r, st', ev) /\ r ≠ Panic /\ sched_ok st' /\
    pending_dave_media st' = pending_dave_media st /\ hands_fine r /\
    match r with
    | Ok None => drained now st' /\ (receive_weight st' <= receive_weight st)%nat
    | _ => (receive_weight st' < receive_weight st)%nat
    end.
Proof.
  revert st. induction fuel as [|fuel IH]; intros st Hok Hfuel; [lia|]. cbn [drain_loop].
  destruct (pop_ready_ssrc_ok st Hok) as (o & st1 & -> & Hok1 & Hs1 & Hp1 & Ho). destruct o as [s|].
  - destruct Ho as (state & Hs & Hrd). rewrite Hs1, Hs.
    destruct (pop_ready_buffered_frame now state) as [r state'] eqn:Hpop.
    apply pop_ready_fine in Hpop as (Hr & Hf & Hh & Hw); [|exact (sched_sources _ _ Hok _ _ Hs)]. rewrite Hrd in Hw. destruct Hw as [Hw Hb].
    destruct (refresh_ok s (set_ssrc s state' st1)) as (Hok2 & Hs2 & Hp2).
    { apply (set_ssrc_ok (Some s)); auto. } { eexists. apply lookup_insert_eq. }
    set (st2 := refresh_ssrc_schedules s (set_ssrc s state' st1)) in *. cbn [set_ssrc ssrcs pending_dave_media] in Hs2, Hp2. rewrite Hs1 in Hs2.
    assert (receive_weight st2 < receive_weight st)%nat as Hw2 by (unfold receive_weight; rewrite Hs2; by eapply map_sum_lighter).
    destruct r as [[f|]|e|]; [by do 3 eexists; rewrite Hp2| |by do 3 eexists; rewrite Hp2|done].
    destruct (IH st2 Hok2) as (r & st' & ev & Hd & Hr' & Hok' & Hp' & Hh' & Hres).
    { rewrite Hs2. pose proof (map_sum_lighter backlog (ssrcs st) s state state' Hs (Hb eq_refl)). lia. }
    do 3 eexists. split; [done|]. split; [done|]. split; [done|]. rewrite Hp', Hp2. split; [done|]. split; [done|].
    destruct r as [[f|]|e|]; try lia. destruct Hres as [? ?]. split; [done|lia].
  - destruct (expired_ssrc_ok now st1 Hok1) as (o & st2 & -> & Hok2 & Hs2 & Hp2 & Ho2). destruct o as [s|].
    + destruct Ho2 as (state & d & Hs & Hd & Hle). rewrite Hs2, Hs.
      destruct (expire_fine telemetry s now false state) as (b & state' & ev & -> & Hf & Hb).
      { eapply (sched_sources _ _ Hok1). exact Hs. }
      cbn [mbind res_mbind]. destruct b; [|destruct Hb as [_ Hb]; specialize (Hb d Hd) as [_ ?]; lia]. destruct Hb as (Hw & Hbl & _).
      destruct (refresh_ok s (set_ssrc s state' st2)) as (Hok3 & Hs3 & Hp3).
      { apply (set_ssrc_ok (Some s)); auto. } { eexists. apply lookup_insert_eq. }
      set (st3 := refresh_ssrc_schedules s (set_ssrc s state' st2)) in *. cbn [set_ssrc ssrcs pending_dave_media] in Hs3, Hp3.
      rewrite Hs1 in Hs2, Hs. rewrite Hs2 in Hs3.
      assert (receive_weight st3 < receive_weight st)%nat as Hw3 by (unfold receive_weight; rewrite Hs3; by eapply map_sum_lighter).
      destruct (IH st3 Hok3) as (r & st' & ev' & Hdr & Hr' & Hok' & Hp' & Hh' & Hres).
      { rewrite Hs3. pose proof (map_sum_lighter backlog (ssrcs st) s state state' Hs Hbl). lia. }
      rewrite Hdr. do 3 eexists. split; [done|]. split; [done|]. split; [done|]. rewrite Hp', Hp3, Hp2. split; [done|]. split; [done|].
      destruct r as [[f|]|e|]; try lia. destruct Hres as [? ?]. split; [done|lia].
    + do 3 eexists. split; [done|]. split; [done|]. split; [done|]. split; [congruence|]. split; [done|]. unfold drained, receive_weight. rewrite Hs2.
      split; [|by rewrite Hs1]. split; [by rewrite Hs1|done].
Qed.

Lemma drain_ok telemetry now st :
  sched_ok st ->
  exists r st' ev, drain_ordered_media telemetry now st = (r, st', ev) /\ r ≠ Panic /\ sched_ok st' /\
    pending_dave_media st' = pending_dave_media st /\ hands_fine r /\
    match r with
    | Ok None => drained now st' /\ (receive_weight st' <= receive_weight st)%nat
    | _ => (receive_weight st' < receive_weight st)%nat
    end.
Proof. intros Hok. apply drain_loop_ok; [done|lia]. Qed.

Lemma remove_all_spec (l : list Z) ds :
  consistent ds ->
  let ds' := foldl (fun ds s => (deadline_remove s ds).2) ds l in
  consistent ds' /\ forall s, keys ds' !! s = if decide (s ∈ l) then None else keys ds !! s.
Proof.
  revert ds. induction l as [|x l IH]; intros ds Hc; cbn [foldl]; [done|].
  destruct (deadline_remove_spec x ds Hc) as (Hc' & Hk & _). destruct (IH _ Hc') as [Hc2 Hk2]. split; [done|]. intros s. rewrite Hk2, Hk.
  destruct (decide (s ∈ l)); [by rewrite decide_True by set_solver|]. destruct (decide (s = x)) as [->|].
  - by rewrite lookup_delete_eq, decide_True by set_solver.
  - by rewrite lookup_delete_ne, decide_False by set_solver.
Qed.

Lemma prune_ok removed st :
  sched_ok st ->
  exists st', prune_ssrcs removed st = Ok st' /\ sched_ok st' /\
    (forall s, ssrcs st' !! s = if decide (s ∈ removed) then None else ssrcs st !! s) /\
    frames (pending_dave_media st') = List.filter (fun f => negb (bool_decide (f_ssrc f ∈ removed))) (frames (pending_dave_media st)).
Proof.
  intros Hok. pose proof Hok as [H1 H2 H3 H4 H5 H6 H7]. unfold prune_ssrcs. destruct (bool_decide_reflect (removed = ∅)) as [->|Hne].
  - exists st. split; [done|]. split; [done|]. split; [intros s; by rewrite decide_False by set_solver|].
    induction (frames (pending_dave_media st)) as [|f l IH]; [done|]. simpl. rewrite bool_decide_eq_false_2 by set_solver. simpl. by f_equal.
  - destruct (pending_prune_spec (E := E) removed _ H7) as (q & -> & Hq & _ & Hfr). cbn [mbind res_mbind].
    destruct (remove_all_spec (elements removed) _ H4) as [Hc Hk].
    assert (forall s, filter (fun e => e.1 ∉ removed) (ssrcs st) !! s = if decide (s ∈ removed) then None else ssrcs st !! s) as Hlk.
    { intros s. rewrite map_lookup_filter. destruct (ssrcs st !! s) as [state|]; cbn; [|by destruct (decide _)].
      destruct (decide (s ∈ removed)); [by rewrite option_guard_False by tauto|by rewrite option_guard_True]. }
    eexists. split; [done|]. split; [|done]. split; cbn [ready_ssrcs queued_ready_ssrcs ssrcs rtp_reorder_deadlines pending_dave_media].
    + by apply NoDup_filter.
    + intros s. rewrite list_elem_of_filter, elem_of_filter, H2. done.
    + intros s state _. rewrite Hlk. destruct (decide (s ∈ removed)); [done|]. intros Hs Hrd. apply list_elem_of_filter. eauto.
    + done.
    + intros s _. rewrite Hk, Hlk, H5 by done. destruct (decide (s ∈ removed)) as [Hin|Hin].
      * by rewrite decide_True by (by apply elem_of_elements).
      * by rewrite decide_False by (by rewrite elem_of_elements).
    + intros s state. rewrite Hlk. destruct (decide (s ∈ removed)); [done|]. apply H6.
    + done.
Qed.

(** The states a sequence of calls can produce; the pending queues are used by
    the receive pipeline directly. *)
Inductive receive_reachable (t : ConnectionRuntimeTuning) : ReceiveState -> Prop :=
| receive_reach_new : receive_reachable t (receive_new t)
| receive_reach_push telemetry now p st r st' ev : receive_reachable t st -> packet_fine p ->
    receive_push telemetry now p st = (r, st', ev) -> receive_reachable t st'
| receive_reach_drain telemetry now st r st' ev : receive_reachable t st ->
    drain_ordered_media telemetry now st = (r, st', ev) -> receive_reachable t st'
| receive_reach_prune removed st st' : receive_reachable t st -> prune_ssrcs removed st = Ok st' -> receive_reachable t st'
| receive_reach_pending q st : receive_reachable t st -> pending_ok q -> receive_reachable t (set_pending q st).

Lemma receive_reachable_ok t st : receive_reachable t st -> sched_ok st.
Proof.
  induction 1 as [|telemetry now p st r st' ev _ IH Hp Hpush|telemetry now st r st' ev _ IH Hd|removed st st' _ IH Hpr|q st _ IH Hq].
  - apply sched_ok_new.
  - destruct (receive_push_ok telemetry now p st IH Hp) as (r1 & st1 & ev1 & He & _ & Hok & _). congruence.
  - destruct (drain_ok telemetry now st IH) as (r1 & st1 & ev1 & He & _ & Hok & _). congruence.
  - destruct (prune_ok removed st IH) as (st1 & He & Hok & _). congruence.
  - by destruct IH.
Qed.

(** Calls of [drain_ordered_media] at successive instants, up to the first that finds nothing. *)
Fixpoint drain_calls (telemetry : bool) (times : list Z) (st : ReceiveState) : list (res E (option F)) * ReceiveState :=
  match times with
  | [] => ([], st)
  | now :: times =>
      let '(r, st, _) := drain_ordered_media telemetry now st in
      match r with
      | Ok None => ([r], st)
      | _ => let '(rs, st) := drain_calls telemetry times st in (r :: rs, st)
      end
  end.

Lemma drain_calls_ok telemetry times st :
  sched_ok st -> (receive_weight st < length times)%nat ->
  exists rs st' now, drain_calls telemetry times st = (rs ++ [Ok None], st') /\ now ∈ times /\ sched_ok st' /\ drained now st' /\
    Forall (fun r => r ≠ Panic) rs /\ (length rs <= receive_weight st)%nat.
Proof.
  revert st. induction times as [|now times IH]; intros st Hok Hl; simpl in Hl; [lia|]. cbn [drain_calls].
  destruct (drain_ok telemetry now st Hok) as (r & st1 & ev & -> & Hr & Hok1 & _ & _ & Hres).
  assert ((receive_weight st1 < receive_weight st)%nat -> exists rs st' now0,
    (let '(rs, st0) := drain_calls telemetry times st1 in (r :: rs, st0)) = (rs ++ [Ok None], st') /\ now0 ∈ now :: times /\ sched_ok st' /\
    drained now0 st' /\ Forall (fun r => r ≠ Panic) rs /\ (length rs <= receive_weight st)%nat) as Hgo.
  { intros Hw. destruct (IH st1 Hok1) as (rs & st' & now0 & -> & Hin & Hok' & Hdr & Hrs & Hlen); [lia|].
    exists (r :: rs), st', now0. split; [done|]. split; [by right|]. split; [done|]. split; [done|]. split; [by constructor|simpl; lia]. }
  destruct r as [[f|]|e|]; [by apply Hgo| |by apply Hgo|done]. destruct Hres as [Hdr _].
  exists [], st1, now. split; [done|]. split; [by left|]. split; [done|]. split; [done|]. split; [done|simpl; lia].
Qed.

(** No source is forgotten.  In every reachable receive state, the ready
    queue holds every source that has a completed frame or the next packet
    waiting, once each; and the reorder deadline the driver sleeps until is the
    earliest deadline of all open gaps, and absent exactly when there is none. *)
Theorem schedules_cover_sources t st :
  receive_reachable t st ->
  NoDup (ready_ssrcs st) /\
  (forall s state, ssrcs st !! s = Some state -> has_ready_buffered_media state = true -> s ∈ ready_ssrcs st) /\
  match pending_rtp_reorder_deadline st with
  | Some d => (exists s state, ssrcs st !! s = Some state /\ pending_reorder_deadline state = Some d) /\
              forall s state d', ssrcs st !! s = Some state -> pending_reorder_deadline state = Some d' -> d <= d'
  | None => forall s state, ssrcs st !! s = Some state -> pending_reorder_deadline state = None
  end.
Proof.
  intros [H1 H2 H3 H4 H5 H6 H7]%receive_reachable_ok. split; [done|]. split; [intros s state; by apply H3|].
  unfold pending_rtp_reorder_deadline. pose proof (next_deadline_spec _ H4) as Hn. destruct (next_deadline _) as [d|].
  - destruct Hn as [[s Hs] Hmin]. split.
    + rewrite H5 in Hs by done. destruct (ssrcs st !! s) as [state|] eqn:Hst; [|done]. by exists s, state.
    + intros s' state d' Hs' Hd'. apply (Hmin s'). by rewrite H5, Hs'.
  - intros s state Hs. specialize (H5 s). rewrite Hn, lookup_empty, Hs in H5. symmetry. by apply H5.
Qed.

(** Draining terminates and is exhaustive: in every reachable state
    [drain_ordered_media] returns without panicking, and when it returns
    nothing then no source has a completed frame or its next packet waiting and
    no gap is older than the reorder time. *)
Theorem drain_terminates t telemetry now st :
  receive_reachable t st ->
  exists r st' ev, drain_ordered_media telemetry now st = (r, st', ev) /\ r ≠ Panic /\
    (r = Ok None -> (forall s state, ssrcs st' !! s = Some state -> has_ready_buffered_media state = false /\
       forall d, pending_reorder_deadline state = Some d -> now < d)).
Proof.
  intros Hok%receive_reachable_ok. destruct (drain_ok telemetry now st Hok) as (r & st' & ev & -> & Hr & _ & _ & _ & Hres).
  do 3 eexists. split; [done|]. split; [done|]. intros -> s state Hs. destruct Hres as [[Hd1 Hd2] _]. split.
  - apply not_true_is_false. intros Hrd. apply (Hd1 s). by exists state.
  - intros d Hd. apply Z.nle_gt. intros Hle. apply (Hd2 s). by exists state, d.
Qed.

(** Everything ready comes out: whatever the clock does in between, after
    at most as many calls as there are completed frames, gaps and (three times)
    waiting packets, [drain_ordered_media] finds nothing more, and then no
    source has a completed frame or its next packet waiting. *)
Theorem drains_exhaust t telemetry times st :
  receive_reachable t st -> (receive_weight st < length times)%nat ->
  exists rs st', drain_calls telemetry times st = (rs ++ [Ok None], st') /\ Forall (fun r => r ≠ Panic) rs /\
    (length rs <= receive_weight st)%nat /\
    forall s state, ssrcs st' !! s = Some state -> has_ready_buffered_media state = false.
Proof.
  intros Hok%receive_reachable_ok Hl. destruct (drain_calls_ok telemetry times st Hok Hl) as (rs & st' & now & -> & _ & _ & [Hd _] & Hrs & Hlen).
  do 2 eexists. split; [done|]. split; [done|]. split; [done|]. intros s state Hs. apply not_true_is_false. intros Hrd. apply (Hd s). by exists state.
Qed.
End Receive.
Arguments ReceiveState P F E {A}.

(** ** Witnesses: Opus packets *)
Module ReceiveSamples.
Import ReorderSamples Deadlines.SampleIter PendingSamples.
#[local] Existing Instance Assembler.AssemblerSamples.sample_raw.
#[local] Existing Instance sample_laws.

(** Packet 1 is lost; 3 and 2 wait behind it. *)
Definition sample_pushed : ReceiveState Assembler.PendingMediaPacket Assembler.PendingMediaFrame Rtp.RtpError :=
  foldl (fun st p => (receive_push true p.1 (sample_packets p.2) st).1.2) (receive_new sample_tuning) [(0, 0%nat); (10, 3%nat); (20, 2%nat)].

Lemma sample_pushed_reachable : receive_reachable sample_tuning sample_pushed.
Proof.
  unfold sample_pushed. cbn [foldl].
  repeat match goal with |- receive_reachable _ (receive_push ?t ?n ?p ?st).1.2 =>
    apply (receive_reach_push _ t n p st (receive_push t n p st).1.1 _ (receive_push t n p st).2); [|apply sample_packets_fine|by destruct (receive_push t n p st) as [[? ?] ?]] end.
  constructor.
Qed.

Lemma schedules_cover_sources_witness :
  NoDup (ready_ssrcs sample_pushed) /\
  (forall s state, ssrcs sample_pushed !! s = Some state -> has_ready_buffered_media state = true -> s ∈ ready_ssrcs sample_pushed) /\
  match pending_rtp_reorder_deadline sample_pushed with
  | Some d => (exists s state, ssrcs sample_pushed !! s = Some state /\ pending_reorder_deadline state = Some d) /\
              forall s state d', ssrcs sample_pushed !! s = Some state -> pending_reorder_deadline state = Some d' -> d <= d'
  | None => forall s state, ssrcs sample_pushed !! s = Some state -> pending_reorder_deadline state = None
  end.
Proof. apply (schedules_cover_sources sample_tuning), sample_pushed_reachable. Defined.

Lemma drain_terminates_witness :
  exists r st' ev, drain_ordered_media true 500 sample_pushed = (r, st', ev) /\ r ≠ Panic /\
    (r = Ok None -> (forall s state, ssrcs st' !! s = Some state -> has_ready_buffered_media state = false /\
       forall d, pending_reorder_deadline state = Some d -> 500 < d)).
Proof. apply (drain_terminates sample_tuning), sample_pushed_reachable. Defined.

Lemma drains_exhaust_witness :
  exists rs st', drain_calls true (replicate 20 500) sample_pushed = (rs ++ [Ok None], st') /\ Forall (fun r => r ≠ Panic) rs /\
    (length rs <= receive_weight sample_pushed)%nat /\
    forall s state, ssrcs st' !! s = Some state -> has_ready_buffered_media state = false.
Proof. apply (drains_exhaust sample_tuning); [apply sample_pushed_reachable|vm_compute; lia]. Defined.
End ReceiveSamples.
End Receive.
