(* ===== verification/DaveGateway.v ===== *)
(** * The DAVE state announced by the gateway

    [DaveProtocolState], [DaveActiveMediaState], [DaveGatewayPhase],
    [DaveMlsSlots] and [DaveInternalState] of [state.rs], with the predicates on
    [DaveInternalState] and [DaveState] of [dave.rs].  The gateway's events
    drive this state; the coordinator reads it.  Versions and transition ids are
    16-bit, epochs and their counter 64-bit integers. *)

From S2P Require Import Prelude.

Module DaveGateway.

Inductive DaveProtocolState := UnknownProtocol | Transport | Dave (protocol_version : Z).

#[export] Instance DaveProtocolState_eq_dec : EqDecision DaveProtocolState.
Proof. solve_decision. Defined.

Definition from_prepared (v : Z) : DaveProtocolState := if v =? 0 then Transport else Dave v.

Definition from_gateway (v : option Z) : DaveProtocolState :=
  match v with Some v => from_prepared v | None => UnknownProtocol end.

Definition gateway_version (p : DaveProtocolState) : option Z :=
  match p with UnknownProtocol => None | Transport => Some 0 | Dave v => Some v end.

Definition is_dave (p : DaveProtocolState) : bool := match p with Dave _ => true | _ => false end.

Definition is_transport_or_unknown (p : DaveProtocolState) : bool := negb (is_dave p).

Record DaveActiveMediaState := { send : DaveProtocolState; receive : DaveProtocolState }.

Definition active_default : DaveActiveMediaState := {| send := UnknownProtocol; receive := UnknownProtocol |}.

Definition set_both (p : DaveProtocolState) (a : DaveActiveMediaState) : DaveActiveMediaState := {| send := p; receive := p |}.

Definition send_protocol (a : DaveActiveMediaState) : option Z := gateway_version (send a).
Definition receive_protocol (a : DaveActiveMediaState) : option Z := gateway_version (receive a).
Definition send_active (a : DaveActiveMediaState) : bool := is_dave (send a).
Definition receive_active (a : DaveActiveMediaState) : bool := is_dave (receive a).

Inductive DaveGatewayPhase :=
| UnknownPhase
| SessionPhase (protocol : DaveProtocolState)
| PreparedTransition (transition_id : Z) (protocol : DaveProtocolState)
| PreparedEpoch (protocol : DaveProtocolState) (epoch seq : Z) (transition_id : option Z).

Definition phase_protocol (p : DaveGatewayPhase) : DaveProtocolState :=
  match p with
  | UnknownPhase => UnknownProtocol
  | SessionPhase protocol | PreparedTransition _ protocol | PreparedEpoch protocol _ _ _ => protocol
  end.

Definition phase_protocol_version (p : DaveGatewayPhase) : option Z := gateway_version (phase_protocol p).

Definition phase_transition_id (p : DaveGatewayPhase) : option Z :=
  match p with
  | PreparedTransition t _ => Some t
  | PreparedEpoch _ _ _ t => t
  | UnknownPhase | SessionPhase _ => None
  end.

Definition phase_epoch (p : DaveGatewayPhase) : option Z := match p with PreparedEpoch _ e _ _ => Some e | _ => None end.

Definition phase_prepare_epoch_seq (p : DaveGatewayPhase) : Z := match p with PreparedEpoch _ _ s _ => s | _ => 0 end.

Definition phase_passthrough (p : DaveGatewayPhase) : bool :=
  match p with
  | UnknownPhase => false
  | SessionPhase protocol | PreparedTransition _ protocol | PreparedEpoch protocol _ _ _ => is_transport_or_unknown protocol
  end.

Definition with_transition_id (t : Z) (p : DaveGatewayPhase) : DaveGatewayPhase :=
  match p with
  | PreparedEpoch protocol e s _ => PreparedEpoch protocol e s (Some t)
  | UnknownPhase | SessionPhase _ | PreparedTransition _ _ => PreparedTransition t (phase_protocol p)
  end.

Definition without_transition (t : Z) (p : DaveGatewayPhase) : DaveGatewayPhase :=
  if bool_decide (phase_transition_id p = Some t) then
    match p with
    | PreparedEpoch protocol e s _ => PreparedEpoch protocol e s None
    | PreparedTransition _ protocol => SessionPhase protocol
    | UnknownPhase | SessionPhase _ => p
    end
  else p.

(** ** MLS messages *)
Inductive DaveMlsMessageKind := Commit | Welcome.

#[export] Instance DaveMlsMessageKind_eq_dec : EqDecision DaveMlsMessageKind.
Proof. solve_decision. Defined.

Record DaveMlsMessageIdentity := { kind : DaveMlsMessageKind; mls_seq : Z; mls_transition_id : Z }.

Record PendingDaveMlsMessage := { identity : DaveMlsMessageIdentity; payload : bytes }.

#[export] Instance DaveMlsMessageIdentity_eq_dec : EqDecision DaveMlsMessageIdentity.
Proof. solve_decision. Defined.
#[export] Instance PendingDaveMlsMessage_eq_dec : EqDecision PendingDaveMlsMessage.
Proof. solve_decision. Defined.

Record DaveMlsSlots (T : Type) := { commit : option T; welcome : option T }.
Arguments commit {T} _.
Arguments welcome {T} _.

Definition slots_default {T} : DaveMlsSlots T := {| commit := None; welcome := None |}.

Definition slots_is_empty {T} (s : DaveMlsSlots T) : bool := negb (is_some (commit s)) && negb (is_some (welcome s)).

Definition slots_clear {T} (s : DaveMlsSlots T) : DaveMlsSlots T := {| commit := None; welcome := None |}.

Definition slots_get {T} (k : DaveMlsMessageKind) (s : DaveMlsSlots T) : option T :=
  match k with Commit => commit s | Welcome => welcome s end.

Definition slots_set {T} (k : DaveMlsMessageKind) (v : T) (s : DaveMlsSlots T) : DaveMlsSlots T :=
  match k with
  | Commit => {| commit := Some v; welcome := welcome s |}
  | Welcome => {| commit := commit s; welcome := Some v |}
  end.

Definition welcome_then_commit {T} (s : DaveMlsSlots T) : list T := option_list (welcome s) ++ option_list (commit s).

Definition set_message (m : PendingDaveMlsMessage) (s : DaveMlsSlots PendingDaveMlsMessage) : DaveMlsSlots PendingDaveMlsMessage :=
  slots_set (kind (identity m)) m s.

(** ** [DaveInternalState] *)
Record DaveInternalState := {
  phase : DaveGatewayPhase;
  active : DaveActiveMediaState;
  external_sender : option bytes;
  proposals : list bytes;
  pending_mls : DaveMlsSlots PendingDaveMlsMessage }.

Definition dave_default : DaveInternalState :=
  {| phase := UnknownPhase; active := active_default; external_sender := None; proposals := []; pending_mls := slots_default |}.

Definition with_phase (p : DaveGatewayPhase) (d : DaveInternalState) : DaveInternalState :=
  {| phase := p; active := active d; external_sender := external_sender d; proposals := proposals d; pending_mls := pending_mls d |}.

Definition with_active (a : DaveActiveMediaState) (d : DaveInternalState) : DaveInternalState :=
  {| phase := phase d; active := a; external_sender := external_sender d; proposals := proposals d; pending_mls := pending_mls d |}.

Definition protocol_version (d : DaveInternalState) : option Z := phase_protocol_version (phase d).
Definition active_send_protocol_version (d : DaveInternalState) : option Z := send_protocol (active d).
Definition active_receive_protocol_version (d : DaveInternalState) : option Z := receive_protocol (active d).
Definition transition_id (d : DaveInternalState) : option Z := phase_transition_id (phase d).
Definition dave_epoch (d : DaveInternalState) : option Z := phase_epoch (phase d).
Definition prepare_epoch_seq (d : DaveInternalState) : Z := phase_prepare_epoch_seq (phase d).
Definition dave_passthrough (d : DaveInternalState) : bool := phase_passthrough (phase d).

Definition clear_pending_mls (d : DaveInternalState) : DaveInternalState :=
  {| phase := phase d; active := active d; external_sender := external_sender d; proposals := []; pending_mls := slots_clear (pending_mls d) |}.

Definition set_session_protocol (v : option Z) (d : DaveInternalState) : DaveInternalState :=
  let protocol := from_gateway v in
  let d := if bool_decide (phase_protocol (phase d) = protocol) then d else clear_pending_mls d in
  let d := with_phase (SessionPhase protocol) d in
  if is_transport_or_unknown protocol then with_active (set_both protocol (active d)) d else d.

Definition execute_transition (t : Z) (d : DaveInternalState) : DaveInternalState :=
  let d := if bool_decide (transition_id d = Some t) then
             let d := with_active (set_both (phase_protocol (phase d)) (active d)) d in
             with_phase (without_transition t (phase d)) d
           else d in
  clear_pending_mls d.

Definition prepare_transition (t v : Z) (d : DaveInternalState) : DaveInternalState :=
  let d := if bool_decide (transition_id d = Some t) then d else clear_pending_mls d in
  let protocol := from_prepared v in
  let d := with_phase (match phase d with
                       | PreparedEpoch _ e s _ => PreparedEpoch protocol e s (Some t)
                       | UnknownPhase | SessionPhase _ | PreparedTransition _ _ => PreparedTransition t protocol
                       end) d in
  if bool_decide (dave_epoch d = Some 1) && (t =? 0) && is_dave protocol then execute_transition t d else d.

Definition prepare_epoch (v e : Z) (d : DaveInternalState) : DaveInternalState :=
  let seq := Z.min (prepare_epoch_seq d + 1) (u64_mod - 1) in
  let d := if (e =? 1) || negb (bool_decide (dave_epoch d = Some e)) then clear_pending_mls d else d in
  with_phase (PreparedEpoch (from_prepared v) e seq (transition_id d)) d.

Definition set_pending_mls_message (m : PendingDaveMlsMessage) (d : DaveInternalState) : DaveInternalState :=
  let d := if bool_decide (transition_id d = Some (mls_transition_id (identity m))) then d else clear_pending_mls d in
  let d := with_phase (with_transition_id (mls_transition_id (identity m)) (phase d)) d in
  {| phase := phase d; active := active d; external_sender := external_sender d; proposals := proposals d;
     pending_mls := set_message m (pending_mls d) |}.

(** ** Public state *)
Record DavePendingMlsState := { pending_proposals : nat; pending_commit : bool; pending_welcome : bool }.
Record DaveMlsState := { has_external_sender : bool; mls_pending : DavePendingMlsState }.
Record DaveState := {
  public_protocol_version : option Z; public_active_send : option Z; public_active_receive : option Z; public_transition_id : option Z;
  public_epoch : option Z; public_prepare_epoch_seq : Z; public_passthrough : bool; public_mls : DaveMlsState }.

Definition mls_state (d : DaveInternalState) : DaveMlsState :=
  {| has_external_sender := is_some (external_sender d);
     mls_pending := {| pending_proposals := length (proposals d); pending_commit := is_some (commit (pending_mls d));
                       pending_welcome := is_some (welcome (pending_mls d)) |} |}.

Definition public_state (d : DaveInternalState) : DaveState :=
  {| public_protocol_version := protocol_version d; public_active_send := active_send_protocol_version d;
     public_active_receive := active_receive_protocol_version d; public_transition_id := transition_id d; public_epoch := dave_epoch d;
     public_prepare_epoch_seq := prepare_epoch_seq d; public_passthrough := dave_passthrough d; public_mls := mls_state d |}.

(** ** The predicates of [dave.rs] *)
Definition version_or_zero (v : option Z) : Z := default 0 v.

Definition gateway_media_ready (d : DaveInternalState) : bool :=
  negb (is_some (transition_id d)) && slots_is_empty (pending_mls d) && match proposals d with [] => true | _ => false end.

Definition transition_zero_dave_pending (d : DaveInternalState) : bool :=
  bool_decide (transition_id d = Some 0) && (version_or_zero (protocol_version d) >? 0).

Definition initial_dave_negotiation_pending (d : DaveInternalState) : bool :=
  negb (is_some (active_send_protocol_version d)) && (version_or_zero (protocol_version d) >? 0).

Definition send_requires_dave (d : DaveInternalState) : bool :=
  send_active (active d) || transition_zero_dave_pending d || initial_dave_negotiation_pending d.

Definition receive_transform_active (d : DaveInternalState) : bool :=
  receive_active (active d) || transition_zero_dave_pending d || initial_dave_negotiation_pending d.

Definition transition_zero_media_ready (transition_ready : option Z) (d : DaveInternalState) : bool :=
  bool_decide (transition_id d = Some 0) && bool_decide (transition_ready = Some 0).

(** [DaveState::send_requires_dave] *)
Definition public_send_requires_dave (s : DaveState) : bool :=
  (version_or_zero (public_active_send s) >? 0)
  || (negb (is_some (public_active_send s)) && (version_or_zero (public_protocol_version s) >? 0))
  || (bool_decide (public_transition_id s = Some 0) && (version_or_zero (public_protocol_version s) >? 0)).

(** ** Gateway events *)
Inductive dave_event :=
| SessionProtocol (v : option Z)
| PrepareTransition (t v : Z)
| PrepareEpoch (v e : Z)
| ExecuteTransition (t : Z)
| MlsMessage (m : PendingDaveMlsMessage)
| Proposals (b : bytes)
| ExternalSender (b : bytes).

Definition dave_step (ev : dave_event) (d : DaveInternalState) : DaveInternalState :=
  match ev with
  | SessionProtocol v => set_session_protocol v d
  | PrepareTransition t v => prepare_transition t v d
  | PrepareEpoch v e => prepare_epoch v e d
  | ExecuteTransition t => execute_transition t d
  | MlsMessage m => set_pending_mls_message m d
  | Proposals b =>
      {| phase := phase d; active := active d; external_sender := external_sender d; proposals := proposals d ++ [b];
         pending_mls := pending_mls d |}
  | ExternalSender b =>
      {| phase := phase d; active := active d; external_sender := Some b; proposals := proposals d; pending_mls := pending_mls d |}
  end.

Definition dave_run (evs : list dave_event) (d : DaveInternalState) : DaveInternalState := foldl (fun d ev => dave_step ev d) d evs.

(** The versions an event carries are unsigned. *)
Definition event_ok (ev : dave_event) : Prop :=
  match ev with
  | SessionProtocol (Some v) | PrepareTransition _ v | PrepareEpoch v _ => 0 <= v
  | _ => True
  end.

(** ** Invariant *)
Definition canonical (p : DaveProtocolState) : Prop := match p with Dave v => 0 < v | _ => True end.

Record dave_ok (d : DaveInternalState) : Prop := {
  ok_protocol : canonical (phase_protocol (phase d));
  ok_active : canonical (send (active d));
  ok_both : receive (active d) = send (active d);
  ok_slots : forall k m, slots_get k (pending_mls d) = Some m -> kind (identity m) = k;
  ok_pending : forall k m, slots_get k (pending_mls d) = Some m ->
    transition_id d = Some (mls_transition_id (identity m)) \/ exists p, phase d = SessionPhase p }.

Lemma from_prepared_canonical v : 0 <= v -> canonical (from_prepared v).
Proof. unfold from_prepared. destruct (Z.eqb_spec v 0); simpl; [done|lia]. Qed.

Lemma from_gateway_canonical v : (forall n, v = Some n -> 0 <= n) -> canonical (from_gateway v).
Proof. destruct v as [n|]; [|done]. intros Hv. by apply from_prepared_canonical, Hv. Qed.

Lemma slots_get_clear {T} k (s : DaveMlsSlots T) : slots_get k (slots_clear s) = None.
Proof. by destruct k. Qed.

Lemma slots_get_set {T} k k' (v : T) s : slots_get k (slots_set k' v s) = if decide (k = k') then Some v else slots_get k s.
Proof. by destruct k, k'. Qed.

(** With nothing pending, only the protocols matter. *)
Lemma dave_ok_cleared d p a :
  canonical (phase_protocol p) -> canonical (send a) -> receive a = send a -> dave_ok (with_phase p (with_active a (clear_pending_mls d))).
Proof. intros Hp Ha Hb. split; cbn [with_phase with_active clear_pending_mls phase active pending_mls]; try done; intros k m; by rewrite slots_get_clear. Qed.

Lemma execute_transition_ok t d : dave_ok d -> dave_ok (execute_transition t d).
Proof.
  intros [H1 H2 H3 H4 H5]. unfold execute_transition. destruct (bool_decide_reflect (transition_id d = Some t)) as [Ht|Ht].
  - apply (dave_ok_cleared d (without_transition t (phase d)) (set_both (phase_protocol (phase d)) (active d))); [|done|done].
    unfold without_transition. destruct (bool_decide _); [|done]. by destruct (phase d).
  - exact (dave_ok_cleared d (phase d) (active d) H1 H2 H3).
Qed.

Lemma dave_step_ok ev d : dave_ok d -> event_ok ev -> dave_ok (dave_step ev d).
Proof.
  intros Hok Hev. pose proof Hok as [H1 H2 H3 H4 H5]. destruct ev as [v|t v|v e|t|m|b|b]; cbn [dave_step].
  - assert (canonical (from_gateway v)) as Hc by (apply from_gateway_canonical; by intros n ->).
    unfold set_session_protocol. destruct (bool_decide _), (is_transport_or_unknown _); split; cbn; try done; try (intros k m; by rewrite slots_get_clear);
      intros k m Hm; right; by eexists.
  - pose proof (from_prepared_canonical v Hev) as Hc. unfold prepare_transition.
    match goal with |- dave_ok (if _ then execute_transition t ?d else _) => assert (dave_ok d) as Hd end.
    { destruct (bool_decide_reflect (transition_id d = Some t)) as [Ht|Ht].
      - split; cbn; try done; [by destruct (phase d)|]. intros k m Hm. left. destruct (H5 k m Hm) as [He|[p Hp]].
        + rewrite Ht in He. injection He as <-. by destruct (phase d).
        + unfold transition_id in Ht. by rewrite Hp in Ht.
      - split; cbn; try done; [by destruct (phase d)| |]; intros k m; by rewrite slots_get_clear. }
    destruct (_ && _); [by apply execute_transition_ok|done].
  - pose proof (from_prepared_canonical v Hev) as Hc. unfold prepare_epoch. destruct (_ || negb _) eqn:Hclear.
    + split; cbn; try done; intros k m; by rewrite slots_get_clear.
    + split; cbn; try done. intros k m Hm. left. destruct (H5 k m Hm) as [He|[p Hp]]; [done|].
      apply orb_false_iff in Hclear as [_ Hc'%negb_false_iff%bool_decide_eq_true]. unfold dave_epoch in Hc'. by rewrite Hp in Hc'.
  - by apply execute_transition_ok.
  - unfold set_pending_mls_message. destruct (bool_decide_reflect (transition_id d = Some (mls_transition_id (identity m)))) as [Ht|Ht].
    + split; cbn; [by destruct (phase d)|done|done| |]; unfold set_message; intros k m'; rewrite slots_get_set.
      * destruct (decide _); [naive_solver|apply H4].
      * assert (phase_transition_id (with_transition_id (mls_transition_id (identity m)) (phase d)) = Some (mls_transition_id (identity m))) as Hw
          by (by destruct (phase d)).
        destruct (decide _); [intros [= <-]; by left|]. intros Hm. left. unfold transition_id. cbn. rewrite Hw.
        destruct (H5 k m' Hm) as [He|[p Hp]]; [congruence|]. unfold transition_id in Ht. by rewrite Hp in Ht.
    + split; cbn; [by destruct (phase d)|done|done| |]; unfold set_message; intros k m'; rewrite slots_get_set, slots_get_clear.
      * destruct (decide _); naive_solver.
      * destruct (decide _); [|done]. intros [= <-]. left. by destruct (phase d).
  - by split.
  - by split.
Qed.

Lemma dave_default_ok : dave_ok dave_default.
Proof. split; cbn; try done; intros []; done. Qed.

Lemma dave_run_ok evs d : dave_ok d -> Forall event_ok evs -> dave_ok (dave_run evs d).
Proof.
  intros Hd Hevs. revert d Hd. induction Hevs as [|ev evs Hev _ IH]; intros d Hd; [done|]. cbn. by apply IH, dave_step_ok.
Qed.

Lemma version_dave p : canonical p -> (version_or_zero (gateway_version p) >? 0) = is_dave p.
Proof. destruct p; simpl; [done|done|]. intros. rewrite Z.gtb_ltb. by apply Z.ltb_lt. Qed.

(** The gateway state stays coherent: after any sequence of gateway events
    the protocols active for sending and receiving agree, a pending commit or
    welcome is in its own slot and belongs to the transition in progress (a
    repeated session description may end the transition and leave it waiting),
    and the decision whether media must be sent with DAVE is the same computed
    on the internal and on the published state, and for receiving. *)
Theorem dave_state_coherent evs :
  Forall event_ok evs ->
  let d := dave_run evs dave_default in
  active_send_protocol_version d = active_receive_protocol_version d /\
  (forall k m, slots_get k (pending_mls d) = Some m -> kind (identity m) = k /\
     (transition_id d = Some (mls_transition_id (identity m)) \/ exists p, phase d = SessionPhase p)) /\
  public_send_requires_dave (public_state d) = send_requires_dave d /\ receive_transform_active d = send_requires_dave d.
Proof.
  intros Hevs d. pose proof (dave_run_ok evs dave_default dave_default_ok Hevs) as [H1 H2 H3 H4 H5]. fold d in H1, H2, H3, H4, H5.
  split; [unfold active_send_protocol_version, active_receive_protocol_version, send_protocol, receive_protocol; by rewrite H3|].
  split; [naive_solver|]. split; [|unfold receive_transform_active, send_requires_dave, receive_active, send_active; by rewrite H3].
  unfold public_send_requires_dave, send_requires_dave, transition_zero_dave_pending, initial_dave_negotiation_pending, send_active.
  cbn [public_state public_active_send public_protocol_version public_transition_id].
  unfold active_send_protocol_version, send_protocol. rewrite (version_dave _ H2). destruct (is_dave (send (active d))); [done|].
  cbn [orb]. apply orb_comm.
Qed.

(** The protocol of the media changes only when the gateway says so: the
    active protocol changes only by a session description without DAVE, by
    executing the transition that was prepared, to the prepared protocol, or by
    preparing transition 0 with DAVE in epoch 1, which executes at once.  So a
    connection that sends with DAVE goes back to plain transport only by a
    session description without DAVE or by executing a transition prepared
    without DAVE. *)
Theorem active_protocol_changes ev d :
  active (dave_step ev d) ≠ active d ->
  let p := send (active (dave_step ev d)) in
  (exists v, ev = SessionProtocol v /\ is_dave (from_gateway v) = false /\ p = from_gateway v) \/
  (exists t, ev = ExecuteTransition t /\ transition_id d = Some t /\ p = phase_protocol (phase d)) \/
  (exists v, ev = PrepareTransition 0 v /\ dave_epoch d = Some 1 /\ p = Dave v).
Proof.
  assert (forall d t, active (execute_transition t d) ≠ active d ->
    transition_id d = Some t /\ send (active (execute_transition t d)) = phase_protocol (phase d)) as Hex.
  { intros d0 t. unfold execute_transition. by destruct (bool_decide_reflect (transition_id d0 = Some t)). }
  destruct ev as [v|t v|v e|t|m|b|b]; cbn [dave_step]; intros Hne.
  - left. exists v. unfold set_session_protocol, is_transport_or_unknown in *.
    destruct (is_dave (from_gateway v)) eqn:Hd; cbn [negb] in *; [by destruct (bool_decide _)|done].
  - right. right. unfold prepare_transition in *. set (d0 := if bool_decide (transition_id d = Some t) then d else clear_pending_mls d) in *.
    assert (active d0 = active d /\ phase d0 = phase d) as [Ha Hp] by (unfold d0; by destruct (bool_decide _)).
    destruct (_ && is_dave _) eqn:Hc; [|cbn in Hne; congruence]. apply andb_true_iff in Hc as [Hc Hd]. apply andb_true_iff in Hc as [He%bool_decide_eq_true ->%Z.eqb_eq].
    rewrite <- Ha in Hne. apply (Hex (with_phase _ d0)) in Hne as [_ ->]. exists v. split; [done|].
    unfold dave_epoch in *. cbn [with_phase phase] in *. rewrite Hp in *. unfold from_prepared in *. destruct (v =? 0); [done|].
    by destruct (phase d).
  - exfalso. apply Hne. unfold prepare_epoch. by destruct (_ || _).
  - right. left. exists t. split; [done|]. by apply Hex.
  - exfalso. apply Hne. unfold set_pending_mls_message. by destruct (bool_decide _).
  - done.
  - done.
Qed.

(** C7. There is no plaintext window: once a session with DAVE is described to
    a fresh connection, media must be sent with DAVE in every later state, as
    long as the gateway announces only versions above zero. *)
Theorem no_plaintext_window v evs :
  0 < v -> Forall (fun ev => match ev with
                             | SessionProtocol (Some v) | PrepareTransition _ v | PrepareEpoch v _ => 0 < v
                             | SessionProtocol None => False
                             | _ => True end) evs ->
  send_requires_dave (dave_run evs (set_session_protocol (Some v) dave_default)) = true.
Proof.
  intros Hv Hevs.
  assert (forall p, 0 < p -> from_prepared p = Dave p) as Hfp by (intros p Hp; unfold from_prepared; by rewrite (proj2 (Z.eqb_neq _ _)) by lia).
  set (protected := fun d => (exists v, phase_protocol (phase d) = Dave v /\ 0 < v) /\ send (active d) ≠ Transport).
  enough (forall d, protected d -> protected (dave_run evs d)) as H.
  { destruct (H (set_session_protocol (Some v) dave_default)) as [(v' & Hp & Hv') Ha].
    { unfold set_session_protocol. cbn [from_gateway]. rewrite Hfp by done. cbn. split; [by exists v|done]. }
    unfold send_requires_dave, send_active, initial_dave_negotiation_pending, active_send_protocol_version, send_protocol, protocol_version, phase_protocol_version.
    rewrite Hp, (version_dave (Dave v')) by done. destruct (send _); [by rewrite orb_true_r|done|done]. }
  assert (forall t d, protected d -> protected (execute_transition t d)) as Hex.
  { intros t d [(p & Hp & Hp0) Ha]. unfold execute_transition. destruct (bool_decide _); [|by split; [exists p|]].
    split; cbn; [|by rewrite Hp]. exists p. split; [|done]. unfold without_transition. destruct (bool_decide _); [|done]. by destruct (phase d). }
  induction Hevs as [|ev evs Hev _ IH]; intros d Hd; [done|]. cbn. apply IH. clear IH. pose proof Hd as [(p & Hp & Hp0) Ha].
  destruct ev as [[w|]|t w|w e|t|m|b|b]; cbn [dave_step]; try done.
  - unfold set_session_protocol. cbn [from_gateway]. rewrite (Hfp w) by done. destruct (bool_decide _); (split; [exists w; split; [done|exact Hev]|done]).
  - unfold prepare_transition. rewrite (Hfp w) by done.
    match goal with |- protected (if _ then execute_transition t ?d0 else _) => assert (protected d0) as Hd0 end.
    { destruct (bool_decide _); (split; [exists w; split; [cbn; by destruct (phase d)|exact Hev]|done]). }
    destruct (_ && _); [by apply Hex|done].
  - unfold prepare_epoch. rewrite (Hfp w) by done. destruct (_ || _); (split; [exists w; split; [done|exact Hev]|done]).
  - by apply Hex.
  - unfold set_pending_mls_message. destruct (bool_decide _); (split; [exists p; split; [cbn; by destruct (phase d)|done]|done]).
Qed.

(** Events of a first negotiation: session, epoch, commit, execution. *)
Definition sample_commit : PendingDaveMlsMessage :=
  {| identity := {| kind := Commit; mls_seq := 4; mls_transition_id := 7 |}; payload := [1; 2] |}.

Definition sample_events : list dave_event := [PrepareEpoch 1 1; ExternalSender [3]; Proposals [0]; MlsMessage sample_commit; ExecuteTransition 7].

Lemma dave_state_coherent_witness :
  let d := dave_run (SessionProtocol (Some 1) :: sample_events) dave_default in
  active_send_protocol_version d = active_receive_protocol_version d /\
  (forall k m, slots_get k (pending_mls d) = Some m -> kind (identity m) = k /\
     (transition_id d = Some (mls_transition_id (identity m)) \/ exists p, phase d = SessionPhase p)) /\
  public_send_requires_dave (public_state d) = send_requires_dave d /\ receive_transform_active d = send_requires_dave d.
Proof. apply dave_state_coherent. repeat (apply Forall_cons; split; [simpl; lia|]). apply Forall_nil. exact I. Defined.

Lemma active_protocol_changes_witness :
  let d := dave_run (SessionProtocol (Some 1) :: take 4 sample_events) dave_default in
  let p := send (active (dave_step (ExecuteTransition 7) d)) in
  (exists v, ExecuteTransition 7 = SessionProtocol v /\ is_dave (from_gateway v) = false /\ p = from_gateway v) \/
  (exists t, ExecuteTransition 7 = ExecuteTransition t /\ transition_id d = Some t /\ p = phase_protocol (phase d)) \/
  (exists v, ExecuteTransition 7 = PrepareTransition 0 v /\ dave_epoch d = Some 1 /\ p = Dave v).
Proof. apply (active_protocol_changes (ExecuteTransition 7)). vm_compute. discriminate. Defined.

Lemma no_plaintext_window_witness : send_requires_dave (dave_run sample_events (set_session_protocol (Some 1) dave_default)) = true.
Proof. apply (no_plaintext_window 1 sample_events); [lia|]. repeat (apply Forall_cons; split; [simpl; lia|]). apply Forall_nil. exact I. Defined.
End DaveGateway.
