(* ===== verification/Gateway.v ===== *)
(** * The voice gateway

    [gateway.rs] with [ConnectionInternalState] of [state.rs]: opcodes, binary
    events, UDP discovery, the selection of the encryption mode, the video
    stream and the codecs, and the handlers of text and binary events.

    Text events carry JSON, which [serde_json] parses: [GatewayJson] stands for
    [parse_data] at the types the handler asks for, and [GatewayJsonLaws] says
    that a parsed [u16] or [u64] is not negative.  Of [ConnectionInternalState]
    the fields are kept that an event can change or a handler reads.  The
    iteration order of a hash map is that of [map_to_list]. *)

From Stdlib Require Import String Ascii.
From S2P Require Import Prelude Frame Rtp Codecs PendingMedia DaveGateway.
#[local] Open Scope Z_scope.
Import Rtp.Rtp Codecs.Codecs PendingMedia.PendingMedia DaveGateway.DaveGateway.

Module Gateway.

(** ** Opcodes *)
Inductive Opcode :=
| Identify | SelectProtocol | OpReady | Heartbeat | OpSessionDescription | OpSpeaking | HeartbeatAck | Resume | Hello | Resumed
| ClientsConnect | ClientConnect | ClientDisconnect | SessionUpdate | DavePrepareTransition | DaveExecuteTransition
| DaveTransitionReady | DavePrepareEpoch | DaveMlsExternalSender | DaveMlsKeyPackage | DaveMlsProposals | DaveMlsCommitWelcome
| DaveMlsAnnounceCommitTransition | DaveMlsWelcome | DaveMlsInvalidCommitWelcome.

#[export] Instance Opcode_eq_dec : EqDecision Opcode.
Proof. solve_decision. Defined.

Definition opcode_byte (o : Opcode) : Z :=
  match o with
  | Identify => 0 | SelectProtocol => 1 | OpReady => 2 | Heartbeat => 3 | OpSessionDescription => 4 | OpSpeaking => 5
  | HeartbeatAck => 6 | Resume => 7 | Hello => 8 | Resumed => 9 | ClientsConnect => 11 | ClientConnect => 12
  | ClientDisconnect => 13 | SessionUpdate => 14 | DavePrepareTransition => 21 | DaveExecuteTransition => 22
  | DaveTransitionReady => 23 | DavePrepareEpoch => 24 | DaveMlsExternalSender => 25 | DaveMlsKeyPackage => 26
  | DaveMlsProposals => 27 | DaveMlsCommitWelcome => 28 | DaveMlsAnnounceCommitTransition => 29 | DaveMlsWelcome => 30
  | DaveMlsInvalidCommitWelcome => 31
  end.

Definition ALL : list Opcode :=
  [Identify; SelectProtocol; OpReady; Heartbeat; OpSessionDescription; OpSpeaking; HeartbeatAck; Resume; Hello; Resumed;
   ClientsConnect; ClientConnect; ClientDisconnect; SessionUpdate; DavePrepareTransition; DaveExecuteTransition;
   DaveTransitionReady; DavePrepareEpoch; DaveMlsExternalSender; DaveMlsKeyPackage; DaveMlsProposals; DaveMlsCommitWelcome;
   DaveMlsAnnounceCommitTransition; DaveMlsWelcome; DaveMlsInvalidCommitWelcome].

Definition dave_mls_message_kind (o : Opcode) : option DaveMlsMessageKind :=
  match o with DaveMlsAnnounceCommitTransition => Some Commit | DaveMlsWelcome => Some Welcome | _ => None end.

Definition from_byte (b : Z) : option Opcode := List.find (fun o => opcode_byte o =? b) ALL.

(** [u8::try_from] first. *)
Definition from_code (c : Z) : option Opcode := if (0 <=? c) && (c <=? 255) then from_byte c else None.

Definition is_server_binary (o : Opcode) : bool :=
  match o with
  | DaveMlsExternalSender | DaveMlsProposals | DaveMlsAnnounceCommitTransition | DaveMlsWelcome => true
  | _ => false
  end.

Definition from_server_binary (b : Z) : option Opcode :=
  match from_byte b with Some o => if is_server_binary o then Some o else None | None => None end.

(** ** Commands *)
Record SpeakingCommand := { cmd_speaking : Z; cmd_delay : option Z; cmd_ssrc : Z; cmd_user_id : option Z }.

Record HeartbeatCommand := { heartbeat_t : Z; heartbeat_seq_ack : option Z }.

Inductive GatewayCommand :=
| CmdSelectProtocol | CmdSpeaking (c : SpeakingCommand) | CmdHeartbeat (c : HeartbeatCommand)
| CmdDaveProtocolTransitionReady (transition_id : Z)
| CmdDaveMlsKeyPackage (key_package : bytes)
| CmdDaveMlsCommitWelcome (commit : bytes) (welcome : option bytes)
| CmdDaveMlsInvalidCommitWelcome (transition_id : Z).

#[global] Instance SpeakingCommand_eq_dec : EqDecision SpeakingCommand.
Proof. solve_decision. Defined.
#[global] Instance HeartbeatCommand_eq_dec : EqDecision HeartbeatCommand.
Proof. solve_decision. Defined.
#[global] Instance GatewayCommand_eq_dec : EqDecision GatewayCommand.
Proof. solve_decision. Defined.

Definition command_opcode (c : GatewayCommand) : Opcode :=
  match c with
  | CmdSelectProtocol => SelectProtocol | CmdSpeaking _ => OpSpeaking | CmdHeartbeat _ => Heartbeat
  | CmdDaveProtocolTransitionReady _ => DaveTransitionReady
  | CmdDaveMlsKeyPackage _ => DaveMlsKeyPackage
  | CmdDaveMlsCommitWelcome _ _ => DaveMlsCommitWelcome
  | CmdDaveMlsInvalidCommitWelcome _ => DaveMlsInvalidCommitWelcome
  end.

Definition binary_payload (c : GatewayCommand) : option bytes :=
  match c with
  | CmdDaveMlsKeyPackage key_package => Some (opcode_byte (command_opcode c) :: key_package)
  | CmdDaveMlsCommitWelcome commit welcome => Some (opcode_byte (command_opcode c) :: commit ++ default [] welcome)
  | _ => None
  end.

(** ** Errors *)
Inductive ProtocolError :=
| MissingSessionDescription | ReadyMissingEncryptionModes
| RequiredEncryptionModeUnavailable (required_mode : EncryptionMode) (modes : list string)
| ReadyMissingSupportedEncryptionMode (modes : list string)
| UdpDiscoveryPacketTooShort (len min_len : nat)
| UnexpectedUdpDiscoveryPacketType (packet_type expected : Z)
| UnexpectedUdpDiscoveryPacketLen (packet_len expected : Z)
| InvalidUdpDiscoveryIp
| InvalidDiscordVoiceUdpIp (remote_ip : string).

(** ** Binary events *)
Record BinaryEvent := { event_seq : Z; event_opcode : Opcode; event_payload : bytes }.

Definition binary_event_parse (l : bytes) : option BinaryEvent :=
  match l with
  | first :: second :: opcode :: payload =>
      o ← from_server_binary opcode; Some {| event_seq := from_be [first; second]; event_opcode := o; event_payload := payload |}
  | _ => None
  end.

Record DaveTransitionBinaryPayload := { bin_seq : Z; bin_transition_id : Z; bin_body : bytes }.

Definition TRANSITION_ID_LEN : nat := 2.

Inductive DaveGatewayPayloadError := PayloadTooShort (opcode : Z) (len min_len : nat).

Definition transition_payload_parse (ev : BinaryEvent) : res DaveGatewayPayloadError DaveTransitionBinaryPayload :=
  let p := event_payload ev in
  if (length p <? TRANSITION_ID_LEN)%nat then Err (PayloadTooShort (opcode_byte (event_opcode ev)) (length p) TRANSITION_ID_LEN)
  else
    a ← index p 0; b ← index p 1; body ← slice p TRANSITION_ID_LEN (length p);
    Ok {| bin_seq := event_seq ev; bin_transition_id := from_be [a; b]; bin_body := body |}.

Definition pending_message (k : DaveMlsMessageKind) (p : DaveTransitionBinaryPayload) : PendingDaveMlsMessage :=
  {| identity := {| kind := k; mls_seq := bin_seq p; mls_transition_id := bin_transition_id p |}; payload := bin_body p |}.

(** ** UDP discovery *)
Definition DISCOVERY_LEN : nat := 74.
Definition REQUEST_TYPE : Z := 1.
Definition RESPONSE_TYPE : Z := 2.
Definition BODY_LEN : Z := 70.

Record UdpDiscoveryPacket := { disc_ssrc : Z; address : bytes; port : Z }.

(** The array of 74 zero bytes with its first eight replaced. *)
Definition discovery_request (ssrc : Z) : bytes :=
  to_be 2 REQUEST_TYPE ++ to_be 2 BODY_LEN ++ to_be 4 ssrc ++ replicate (DISCOVERY_LEN - 8) 0.

(** [std::str::from_utf8] accepts the well-formed byte sequences of Unicode. *)
Definition within (lo hi b : Z) : bool := (lo <=? b) && (b <=? hi).

Fixpoint utf8_valid (l : bytes) : bool :=
  match l with
  | [] => true
  | b0 :: l1 =>
      if within 0 0x7f b0 then utf8_valid l1
      else
        match l1 with
        | [] => false
        | b1 :: l2 =>
            if within 0xc2 0xdf b0 then within 0x80 0xbf b1 && utf8_valid l2
            else
              match l2 with
              | [] => false
              | b2 :: l3 =>
                  if within 0xe0 0xef b0 then
                    within (if b0 =? 0xe0 then 0xa0 else 0x80) (if b0 =? 0xed then 0x9f else 0xbf) b1 && within 0x80 0xbf b2 && utf8_valid l3
                  else
                    match l3 with
                    | [] => false
                    | b3 :: l4 =>
                        within 0xf0 0xf4 b0 &&
                        within (if b0 =? 0xf0 then 0x90 else 0x80) (if b0 =? 0xf4 then 0x8f else 0xbf) b1 &&
                        within 0x80 0xbf b2 && within 0x80 0xbf b3 && utf8_valid l4
                    end
              end
        end
  end.

Definition discovery_decode (packet : bytes) : res ProtocolError UdpDiscoveryPacket :=
  if (length packet <? DISCOVERY_LEN)%nat then Err (UdpDiscoveryPacketTooShort (length packet) DISCOVERY_LEN)
  else
    t ← slice packet 0 2;
    if negb (from_be t =? RESPONSE_TYPE) then Err (UnexpectedUdpDiscoveryPacketType (from_be t) RESPONSE_TYPE)
    else
      n ← slice packet 2 4;
      if negb (from_be n =? BODY_LEN) then Err (UnexpectedUdpDiscoveryPacketLen (from_be n) BODY_LEN)
      else
        field ← slice packet 8 72;
        let address_end := match list_find (fun b => b = 0) field with Some (offset, _) => (offset + 8)%nat | None => 72%nat end in
        a ← slice packet 8 address_end;
        if negb (utf8_valid a) then Err InvalidUdpDiscoveryIp
        else
          s ← slice packet 4 8;
          p ← slice packet 72 74;
          Ok {| disc_ssrc := from_be s; address := a; port := from_be p |}.

(** ** What the client selects from the gateway's offer *)
Definition mode_as_str (m : EncryptionMode) : string :=
  match m with
  | AeadAes256GcmRtpSize => "aead_aes256_gcm_rtpsize"
  | AeadXChaCha20Poly1305RtpSize => "aead_xchacha20_poly1305_rtpsize"
  end.

Definition ALL_MODES : list EncryptionMode := [AeadAes256GcmRtpSize; AeadXChaCha20Poly1305RtpSize].

(** [OfferedEncryptionMode::supported] *)
Definition supported (offered : string) : option EncryptionMode := List.find (fun m => String.eqb offered (mode_as_str m)) ALL_MODES.

#[export] Instance EncryptionMode_eq_dec : EqDecision EncryptionMode.
Proof. solve_decision. Defined.

Definition offers_mode (modes : list string) (m : EncryptionMode) : bool :=
  existsb (fun offered => bool_decide (supported offered = Some m)) modes.

Definition select_encryption_mode (modes : list string) (required_mode : option EncryptionMode) : res ProtocolError EncryptionMode :=
  match modes with
  | [] => Err ReadyMissingEncryptionModes
  | _ =>
      match required_mode with
      | Some m => if offers_mode modes m then Ok m else Err (RequiredEncryptionModeUnavailable m modes)
      | None =>
          match List.find (offers_mode modes) ALL_MODES with
          | Some m => Ok m
          | None => Err (ReadyMissingSupportedEncryptionMode modes)
          end
      end
  end.

Record GatewayReadyStream := {
  stream_kind : option string; rid : option string; stream_ssrc : Z; stream_rtx_ssrc : option Z; quality : option Z; stream_active : option bool }.

Definition PRIMARY_VIDEO_RID : string := "100".
Definition PRIMARY_VIDEO_QUALITY : Z := 100.

Definition not_inactive (s : GatewayReadyStream) : bool := match stream_active s with Some false => false | _ => true end.

Definition is_active_video (s : GatewayReadyStream) : bool := bool_decide (stream_kind s = Some "video"%string) && not_inactive s.

(** The key of [max_by_key], compared lexicographically; [false < true]. *)
Definition stream_key (s : GatewayReadyStream) : bool * bool * Z :=
  (bool_decide (rid s = Some PRIMARY_VIDEO_RID), bool_decide (quality s = Some PRIMARY_VIDEO_QUALITY), default 0 (quality s)).

Definition key_le (x y : bool * bool * Z) : bool :=
  let '(a, b, q) := x in let '(a', b', q') := y in
  if Bool.eqb a a' then if Bool.eqb b b' then q <=? q' else implb b b' else implb a a'.

(** [Iterator::max_by_key]: the last of the elements with the greatest key. *)
Definition max_by_key (l : list GatewayReadyStream) : option GatewayReadyStream :=
  foldl (fun best s => match best with
                       | None => Some s
                       | Some b => if key_le (stream_key b) (stream_key s) then Some s else Some b
                       end) None l.

Definition primary_video_stream (streams : list GatewayReadyStream) : option (Z * option Z) :=
  (fun s => (stream_ssrc s, stream_rtx_ssrc s)) <$>
  match max_by_key (List.filter is_active_video streams) with
  | Some s => Some s
  | None => match streams with [s] => if not_inactive s then Some s else None | _ => None end
  end.

Record SelectProtocolCodec := {
  codec_name : string; codec_media_type : MediaType; priority : Z; codec_payload_type : RtpPayloadType;
  codec_rtx_payload_type : option RtpPayloadType }.

Definition OPUS_SELECT_PROTOCOL_PRIORITY : Z := 1000.
Definition VIDEO_SELECT_PROTOCOL_PRIORITY_BASE : Z := 2000.
Definition SELECT_PROTOCOL_PRIORITY_STEP : Z := 1000.

Definition from_codec (c : MediaCodec) (p : Z) : SelectProtocolCodec :=
  {| codec_name := wire_name (descriptor c); codec_media_type := media_type c; priority := p;
     codec_payload_type := desc_payload_type (descriptor c); codec_rtx_payload_type := rtx_payload_type (descriptor c) |}.

Definition select_protocol_codecs (video_codecs : list MediaCodec) : list SelectProtocolCodec :=
  match video_codecs with
  | [] => []
  | _ =>
      from_codec Opus OPUS_SELECT_PROTOCOL_PRIORITY ::
      imap (fun i c => from_codec c (VIDEO_SELECT_PROTOCOL_PRIORITY_BASE + Z.of_nat i * SELECT_PROTOCOL_PRIORITY_STEP)) video_codecs
  end.

(** ** [GatewayHeartbeatAckState] *)
Record GatewayHeartbeatAckState := { ack_pending : bool; sent_at : option Z }.

Definition ack_default : GatewayHeartbeatAckState := {| ack_pending := false; sent_at := None |}.

(** [elapsed] is the time from [sent_at] to [now], at least zero. *)
Definition timed_out (now timeout : Z) (a : GatewayHeartbeatAckState) : bool :=
  match sent_at a with Some t => timeout <=? Z.max 0 (now - t) | None => false end.

Definition mark_sent (t : Z) (a : GatewayHeartbeatAckState) : GatewayHeartbeatAckState := {| ack_pending := true; sent_at := Some t |}.

Definition acknowledge (a : GatewayHeartbeatAckState) : GatewayHeartbeatAckState := {| ack_pending := false; sent_at := None |}.

(** ** Connection state *)
Record SessionDescription := {
  transport_crypto : TransportCryptoConfig; sd_audio_codec : option string; sd_video_codec : option string;
  dave_protocol_version : option Z }.

Record SpeakingUpdate := { speaking_flags : Z; speaking_ssrc : Z; speaking_user_id : option Z }.

Record SessionUpdateEvent := { upd_audio_codec : option string; upd_video_codec : option string }.

Record ClientConnectEvent := { client_user_id : Z; client_audio_ssrc : option Z; client_ssrc : option Z }.

Definition client_connect_ssrc (c : ClientConnectEvent) : option Z :=
  match client_audio_ssrc c with Some s => Some s | None => client_ssrc c end.

Record ConnectionInternalState := {
  codec_preferences : list MediaCodec;
  conn_last_seq : option Z;
  session_description : option SessionDescription;
  rtp_codecs : option DiscordRtpCodecMap;
  connected_user_ids : gset Z;
  ssrc_users : gmap Z Z;
  speaking : gmap Z SpeakingUpdate;
  dave : DaveInternalState;
  roster_authoritative : bool;
  resumed : bool }.

Definition with_last_seq (s : Z) (st : ConnectionInternalState) : ConnectionInternalState :=
  {| codec_preferences := codec_preferences st; conn_last_seq := Some s; session_description := session_description st;
     rtp_codecs := rtp_codecs st; connected_user_ids := connected_user_ids st; ssrc_users := ssrc_users st; speaking := speaking st;
     dave := dave st; roster_authoritative := roster_authoritative st; resumed := resumed st |}.

Definition with_dave (d : DaveInternalState) (st : ConnectionInternalState) : ConnectionInternalState :=
  {| codec_preferences := codec_preferences st; conn_last_seq := conn_last_seq st; session_description := session_description st;
     rtp_codecs := rtp_codecs st; connected_user_ids := connected_user_ids st; ssrc_users := ssrc_users st; speaking := speaking st;
     dave := d; roster_authoritative := roster_authoritative st; resumed := resumed st |}.

Definition with_session (sd : SessionDescription) (m : DiscordRtpCodecMap) (st : ConnectionInternalState) : ConnectionInternalState :=
  {| codec_preferences := codec_preferences st; conn_last_seq := conn_last_seq st; session_description := Some sd;
     rtp_codecs := Some m; connected_user_ids := connected_user_ids st; ssrc_users := ssrc_users st; speaking := speaking st;
     dave := dave st; roster_authoritative := roster_authoritative st; resumed := resumed st |}.

Definition with_resumed (st : ConnectionInternalState) : ConnectionInternalState :=
  {| codec_preferences := codec_preferences st; conn_last_seq := conn_last_seq st; session_description := session_description st;
     rtp_codecs := rtp_codecs st; connected_user_ids := connected_user_ids st; ssrc_users := ssrc_users st; speaking := speaking st;
     dave := dave st; roster_authoritative := roster_authoritative st; resumed := true |}.

Definition with_speaking (users : gmap Z Z) (s : gmap Z SpeakingUpdate) (st : ConnectionInternalState) : ConnectionInternalState :=
  {| codec_preferences := codec_preferences st; conn_last_seq := conn_last_seq st; session_description := session_description st;
     rtp_codecs := rtp_codecs st; connected_user_ids := connected_user_ids st; ssrc_users := users; speaking := s;
     dave := dave st; roster_authoritative := roster_authoritative st; resumed := resumed st |}.

Definition with_roster (connected : gset Z) (users : gmap Z Z) (st : ConnectionInternalState) : ConnectionInternalState :=
  {| codec_preferences := codec_preferences st; conn_last_seq := conn_last_seq st; session_description := session_description st;
     rtp_codecs := rtp_codecs st; connected_user_ids := connected; ssrc_users := users; speaking := speaking st;
     dave := dave st; roster_authoritative := true; resumed := resumed st |}.

(** ** Effects of an event *)
Record GatewayEventEffects := {
  disconnected_user_ids : list Z;
  removed_ssrcs : list Z;
  retry_dave_pending_media : DavePendingMediaRetry;
  allow_plaintext_receive_grace : bool;
  new_transport_crypto : option TransportCryptoConfig;
  media_session_updated : bool }.

Definition effects_default : GatewayEventEffects :=
  {| disconnected_user_ids := []; removed_ssrcs := []; retry_dave_pending_media := retry_default; allow_plaintext_receive_grace := false;
     new_transport_crypto := None; media_session_updated := false |}.

Definition with_retry (r : DavePendingMediaRetry) (e : GatewayEventEffects) : GatewayEventEffects :=
  {| disconnected_user_ids := disconnected_user_ids e; removed_ssrcs := removed_ssrcs e;
     retry_dave_pending_media := retry_include r (retry_dave_pending_media e);
     allow_plaintext_receive_grace := allow_plaintext_receive_grace e; new_transport_crypto := new_transport_crypto e;
     media_session_updated := media_session_updated e |}.

Definition dave_retry : GatewayEventEffects := with_retry retry_dave_state effects_default.

(** ** Text events *)
Record SessionDescriptionParts := {
  part_mode : EncryptionMode; part_secret_key : bytes; part_audio_codec : option string; part_video_codec : option string;
  part_dave_protocol_version : option Z }.

(** [SessionDescription::new] *)
Definition session_description_new (p : SessionDescriptionParts) : res Error SessionDescription :=
  c ← config_new (part_mode p) (part_secret_key p);
  Ok {| transport_crypto := c; sd_audio_codec := part_audio_codec p; sd_video_codec := part_video_codec p;
        dave_protocol_version := part_dave_protocol_version p |}.

Class GatewayJson := {
  json : Type;
  json_error : Type;
  parse_session_description : json -> json_error + SessionDescriptionParts;
  parse_session_update : json -> json_error + SessionUpdateEvent;
  parse_prepare_transition : json -> json_error + (Z * Z);  (* transition id, protocol version *)
  parse_execute_transition : json -> json_error + Z;
  parse_prepare_epoch : json -> json_error + (Z * Z);  (* protocol version, epoch *)
  parse_speaking : json -> json_error + SpeakingUpdate;
  parse_clients_connect : json -> json_error + (list Z);
  parse_client_connect : json -> json_error + ClientConnectEvent;
  parse_client_disconnect : json -> json_error + Z }.

Class GatewayJsonLaws (J : GatewayJson) : Prop := {
  json_description_version j p v : parse_session_description j = inr p -> part_dave_protocol_version p = Some v -> 0 <= v;
  json_transition_version j t v : parse_prepare_transition j = inr (t, v) -> 0 <= v;
  json_epoch_version j v e : parse_prepare_epoch j = inr (v, e) -> 0 <= v }.

Section Handlers.
Context {J : GatewayJson}.

Inductive GatewayError :=
| EJson (e : json_error)
| EDescription (e : Error)
| EUnsupportedCodec (e : UnsupportedCodecError)
| EProtocol (e : ProtocolError)
| EInvalidGatewayPayload (e : DaveGatewayPayloadError).

Definition parse_data {A} (m : json_error + A) : res GatewayError A := match m with inl e => Err (EJson e) | inr a => Ok a end.

Definition rtp_codec_map (sd : SessionDescription) (preferences : list MediaCodec) : res GatewayError DiscordRtpCodecMap :=
  map_err EUnsupportedCodec (codec_map_new (sd_audio_codec sd) (sd_video_codec sd) preferences).

Definition update_codec (new old : option string) : option string := match new with Some c => Some c | None => old end.

(** The keys of [ssrc_users] that belong to a user. *)
Definition ssrcs_of (user : Z) (users : gmap Z Z) : list Z := (map_to_list (filter (fun e => e.2 = user) users)).*1.

(** [handle_text_event] on the opcode and the data of an event; the third
    component is the heartbeat acknowledgement. *)
Definition handle_text_event (opcode : Z) (data : json) (ack : GatewayHeartbeatAckState) (st : ConnectionInternalState)
    : res GatewayError (GatewayEventEffects * ConnectionInternalState * GatewayHeartbeatAckState) :=
  match from_code opcode with
  | Some OpSessionDescription =>
      parts ← parse_data (parse_session_description data);
      sd ← map_err EDescription (session_description_new parts);
      m ← rtp_codec_map sd (codec_preferences st);
      let st := with_session sd m (with_dave (set_session_protocol (dave_protocol_version sd) (dave st)) st) in
      Ok (with_retry retry_dave_state
            {| disconnected_user_ids := []; removed_ssrcs := []; retry_dave_pending_media := retry_default;
               allow_plaintext_receive_grace := false; new_transport_crypto := Some (transport_crypto sd); media_session_updated := true |},
          st, ack)
  | Some SessionUpdate =>
      u ← parse_data (parse_session_update data);
      if is_some (upd_audio_codec u) || is_some (upd_video_codec u) then
        old ← ok_or (EProtocol MissingSessionDescription) (session_description st);
        let sd := {| transport_crypto := transport_crypto old; sd_audio_codec := update_codec (upd_audio_codec u) (sd_audio_codec old);
                     sd_video_codec := update_codec (upd_video_codec u) (sd_video_codec old);
                     dave_protocol_version := dave_protocol_version old |} in
        m ← rtp_codec_map sd (codec_preferences st);
        Ok ({| disconnected_user_ids := []; removed_ssrcs := []; retry_dave_pending_media := retry_default;
               allow_plaintext_receive_grace := false; new_transport_crypto := None; media_session_updated := true |},
            with_session sd m st, ack)
      else Ok (effects_default, st, ack)
  | Some Resumed => Ok (effects_default, with_resumed st, ack)
  | Some DavePrepareTransition =>
      '(t, v) ← parse_data (parse_prepare_transition data);
      Ok (dave_retry, with_dave (prepare_transition t v (dave st)) st, ack)
  | Some DaveExecuteTransition =>
      t ← parse_data (parse_execute_transition data);
      let d := dave st in
      let grace := bool_decide (transition_id d = Some t) && (version_or_zero (active_receive_protocol_version d) =? 0) &&
                   (version_or_zero (protocol_version d) >? 0) in
      Ok (with_retry retry_dave_state
            {| disconnected_user_ids := []; removed_ssrcs := []; retry_dave_pending_media := retry_default;
               allow_plaintext_receive_grace := grace; new_transport_crypto := None; media_session_updated := false |},
          with_dave (execute_transition t d) st, ack)
  | Some DavePrepareEpoch =>
      '(v, e) ← parse_data (parse_prepare_epoch data);
      Ok (dave_retry, with_dave (prepare_epoch v e (dave st)) st, ack)
  | Some OpSpeaking =>
      u ← parse_data (parse_speaking data);
      let users := match speaking_user_id u with
                   | Some user => <[speaking_ssrc u := user]> (ssrc_users st)
                   | None => ssrc_users st
                   end in
      Ok (with_retry retry_missing_user effects_default, with_speaking users (<[speaking_ssrc u := u]> (speaking st)) st, ack)
  | Some ClientsConnect =>
      ids ← parse_data (parse_clients_connect data);
      Ok (dave_retry, with_roster (connected_user_ids st ∪ list_to_set ids) (ssrc_users st) st, ack)
  | Some ClientConnect =>
      c ← parse_data (parse_client_connect data);
      let users := match client_connect_ssrc c with
                   | Some s => <[s := client_user_id c]> (ssrc_users st)
                   | None => ssrc_users st
                   end in
      Ok (with_retry retry_dave_state (with_retry retry_missing_user effects_default),
          with_roster (connected_user_ids st ∪ {[client_user_id c]}) users st, ack)
  | Some ClientDisconnect =>
      user ← parse_data (parse_client_disconnect data);
      Ok (with_retry retry_dave_state
            {| disconnected_user_ids := [user]; removed_ssrcs := ssrcs_of user (ssrc_users st);
               retry_dave_pending_media := retry_default; allow_plaintext_receive_grace := false; new_transport_crypto := None;
               media_session_updated := false |},
          with_roster (connected_user_ids st ∖ {[user]}) (filter (fun e => e.2 ≠ user) (ssrc_users st)) st, ack)
  | Some HeartbeatAck => Ok (effects_default, st, acknowledge ack)
  | _ => Ok (effects_default, st, ack)
  end.

(** The state is changed before the payload of a commit or welcome is read, so
    it is returned also with an error. *)
Definition handle_voice_binary_event (l : bytes) (st : ConnectionInternalState) : res GatewayError GatewayEventEffects * ConnectionInternalState :=
  match binary_event_parse l with
  | None => (Ok effects_default, st)
  | Some ev =>
      let st := with_last_seq (event_seq ev) st in
      match event_opcode ev with
      | DaveMlsExternalSender => (Ok dave_retry, with_dave (dave_step (ExternalSender (event_payload ev)) (dave st)) st)
      | DaveMlsProposals => (Ok dave_retry, with_dave (dave_step (Proposals (event_payload ev)) (dave st)) st)
      | DaveMlsAnnounceCommitTransition | DaveMlsWelcome =>
          match (k ← unwrap (dave_mls_message_kind (event_opcode ev));
                 p ← map_err EInvalidGatewayPayload (transition_payload_parse ev); Ok (pending_message k p)) with
          | Ok m => (Ok dave_retry, with_dave (set_pending_mls_message m (dave st)) st)
          | Err e => (Err e, st)
          | Panic => (Panic, st)
          end
      | _ => (Ok effects_default, st)
      end
  end.

(** [replay_pending_voice_events]: the events that came before the session description. *)
Inductive PendingGatewayEvent := Text (opcode : Z) (seq : option Z) (data : json) | Binary (l : bytes).

Definition note_seq (seq : option Z) (st : ConnectionInternalState) : ConnectionInternalState :=
  match seq with Some s => with_last_seq s st | None => st end.

(** One event as [handle_websocket_message] and the replay handle it. *)
Definition handle_event (ev : PendingGatewayEvent) (ack : GatewayHeartbeatAckState) (st : ConnectionInternalState)
    : res GatewayError (GatewayEventEffects * ConnectionInternalState * GatewayHeartbeatAckState) :=
  match ev with
  | Text opcode seq data => handle_text_event opcode data ack (note_seq seq st)
  | Binary l => let '(r, st) := handle_voice_binary_event l st in effects ← r; Ok (effects, st, ack)
  end.

Fixpoint replay_pending_voice_events (evs : list PendingGatewayEvent) (ack : GatewayHeartbeatAckState) (st : ConnectionInternalState)
    : res GatewayError ConnectionInternalState :=
  match evs with
  | [] => Ok st
  | ev :: evs => '(_, st, ack) ← handle_event ev ack st; replay_pending_voice_events evs ack st
  end.

(** The state after the handshake: the description, and the own user connected. *)
Definition connection_initial (preferences : list MediaCodec) (last_seq : option Z) (user : Z) (sd : SessionDescription) (m : DiscordRtpCodecMap)
    : ConnectionInternalState :=
  {| codec_preferences := preferences; conn_last_seq := last_seq; session_description := Some sd; rtp_codecs := Some m;
     connected_user_ids := {[user]}; ssrc_users := ∅; speaking := ∅;
     dave := set_session_protocol (dave_protocol_version sd) dave_default; roster_authoritative := false; resumed := false |}.
End Handlers.

(** ** Opcodes and discovery packets *)
Lemma from_byte_iff b o : from_byte b = Some o <-> opcode_byte o = b.
Proof.
  split.
  - unfold from_byte. intros [_ Hb%Z.eqb_eq]%List.find_some. done.
  - intros <-. by destruct o.
Qed.

Lemma from_code_iff c o : from_code c = Some o <-> opcode_byte o = c.
Proof.
  unfold from_code. rewrite <- from_byte_iff. destruct ((0 <=? c) && (c <=? 255)) eqn:Hc; [done|]. split; [done|].
  intros Hb%from_byte_iff. exfalso. rewrite <- Hb in Hc. by destruct o.
Qed.

Definition discovery_response (ssrc : Z) (addr : bytes) (p : Z) : bytes :=
  to_be 2 RESPONSE_TYPE ++ to_be 2 BODY_LEN ++ to_be 4 ssrc ++ (addr ++ replicate (64 - length addr) 0) ++ to_be 2 p.

Lemma list_find_app_zero (addr : bytes) n :
  0 ∉ addr -> list_find (fun b => b = 0) (addr ++ replicate n 0) = match n with O => None | S _ => Some (length addr, 0) end.
Proof.
  intros Hz. assert (list_find (fun b => b = 0) addr = None) as Hn by (apply list_find_None, Forall_forall; naive_solver).
  destruct n as [|n]; [by rewrite app_nil_r|]. rewrite list_find_app_r by done. done.
Qed.

Lemma discovery_decode_no_panic packet : discovery_decode packet ≠ Panic.
Proof.
  unfold discovery_decode. destruct (Nat.ltb_spec (length packet) DISCOVERY_LEN) as [|Hl]; [done|]. unfold DISCOVERY_LEN in Hl.
  rewrite (slice_ok packet 0 2) by lia. cbn [mbind res_mbind]. destruct (negb _); [done|].
  rewrite (slice_ok packet 2 4) by lia. cbn [mbind res_mbind]. destruct (negb _); [done|].
  rewrite (slice_ok packet 8 72) by lia. cbn [mbind res_mbind].
  set (e := match list_find _ _ with Some _ => _ | None => _ end).
  assert (8 <= e <= 72)%nat as He.
  { unfold e. destruct (list_find _ _) as [[i x]|] eqn:Hf; [|lia].
    apply list_find_Some in Hf as [Hi _]. apply lookup_lt_Some in Hi. rewrite length_take, length_drop in Hi. lia. }
  rewrite (slice_ok packet 8 e) by lia. cbn [mbind res_mbind]. destruct (negb _); [done|]. by rewrite !slice_ok by lia.
Qed.

(** UDP discovery: [decode] never panics, and the gateway's response to a
    request, with the address padded with zero bytes to 64, is decoded to the
    stream, address and port it carries.  A packet as the client sends it has
    the length of a response and is refused by its type. *)
Theorem discovery_roundtrip ssrc addr p :
  is_u32 ssrc -> is_u16 p -> (length addr <= 64)%nat -> 0 ∉ addr -> utf8_valid addr = true ->
  discovery_decode (discovery_response ssrc addr p) = Ok {| disc_ssrc := ssrc; address := addr; port := p |} /\
  discovery_decode (discovery_request ssrc) = Err (UnexpectedUdpDiscoveryPacketType REQUEST_TYPE RESPONSE_TYPE) /\
  forall packet, discovery_decode packet ≠ Panic.
Proof.
  intros Hs Hp Hl Hz Hu. split; [|split; [|apply discovery_decode_no_panic]].
  - unfold discovery_response. set (a := addr ++ replicate _ 0). assert (length a = 64%nat) as Ha by (unfold a; llia).
    set (packet := to_be 2 RESPONSE_TYPE ++ _).
    assert (forall i j x y z, packet = x ++ y ++ z -> i = length x -> j = (length x + length y)%nat -> slice (E := ProtocolError) packet i j = Ok y) as Hsl.
    { intros i j x y z -> -> ->. by apply slice_app. }
    unfold discovery_decode. rewrite (proj2 (Nat.ltb_ge _ _)) by (unfold packet; rewrite !length_app, !length_to_be, Ha; unfold DISCOVERY_LEN; lia).
    rewrite (Hsl 0%nat 2%nat [] (to_be 2 RESPONSE_TYPE) _ eq_refl) by done. cbn [mbind res_mbind].
    change (negb (from_be (to_be 2 RESPONSE_TYPE) =? RESPONSE_TYPE)) with false. cbv iota.
    rewrite (Hsl 2%nat 4%nat (to_be 2 RESPONSE_TYPE) (to_be 2 BODY_LEN) _ eq_refl) by done. cbn [mbind res_mbind].
    change (negb (from_be (to_be 2 BODY_LEN) =? BODY_LEN)) with false. cbv iota.
    set (h := to_be 2 RESPONSE_TYPE ++ to_be 2 BODY_LEN ++ to_be 4 ssrc). assert (length h = 8%nat) as Hh by done.
    assert (packet = h ++ a ++ to_be 2 p) as Hpk by (unfold packet, h; by rewrite <- !app_assoc).
    rewrite (Hsl 8%nat 72%nat h a _ Hpk) by lia. cbn [mbind res_mbind]. unfold a at 1. rewrite list_find_app_zero by done.
    rewrite (Hsl 8%nat _ h addr (replicate (64 - length addr) 0 ++ to_be 2 p)).
    + cbn [mbind res_mbind]. rewrite Hu. cbn [negb].
      rewrite (Hsl 4%nat 8%nat (to_be 2 RESPONSE_TYPE ++ to_be 2 BODY_LEN) (to_be 4 ssrc) (a ++ to_be 2 p)) by done. cbn [mbind res_mbind].
      rewrite (Hsl 72%nat 74%nat (h ++ a) (to_be 2 p) []) by (rewrite ?app_nil_r, ?length_app, ?length_to_be, <- ?app_assoc; done || lia).
      cbn [mbind res_mbind]. by rewrite !from_to_be_small.
    + rewrite Hpk. unfold a. by rewrite <- app_assoc.
    + done.
    + rewrite Hh. destruct (64 - length addr)%nat eqn:Hn; lia.
  - reflexivity.
Qed.

Lemma discovery_roundtrip_witness :
  discovery_decode (discovery_response 7 [49; 46; 50] 50000) = Ok {| disc_ssrc := 7; address := [49; 46; 50]; port := 50000 |} /\
  discovery_decode (discovery_request 7) = Err (UnexpectedUdpDiscoveryPacketType REQUEST_TYPE RESPONSE_TYPE) /\
  forall packet, discovery_decode packet ≠ Panic.
Proof. apply (discovery_roundtrip 7 [49; 46; 50] 50000); [split; vm_compute; congruence|split; vm_compute; congruence|simpl; lia|set_solver|done]. Defined.

(** ** The selected encryption mode *)
Lemma supported_iff s m : supported s = Some m <-> s = mode_as_str m.
Proof.
  split.
  - unfold supported. intros [_ He%String.eqb_eq]%List.find_some. done.
  - intros ->. by destruct m.
Qed.

Lemma offers_mode_iff modes m : offers_mode modes m = true <-> mode_as_str m ∈ modes.
Proof.
  unfold offers_mode. rewrite existsb_exists. split.
  - intros (s & Hin & Hs%bool_decide_eq_true%supported_iff). subst s. by apply list_elem_of_In.
  - intros Hin. exists (mode_as_str m). split; [by apply list_elem_of_In|]. by apply bool_decide_eq_true, supported_iff.
Qed.

(** The selected mode is offered; a required mode is never replaced, and
    without one AES-GCM is preferred. *)
Lemma select_encryption_mode_iff modes required m :
  select_encryption_mode modes required = Ok m <->
  mode_as_str m ∈ modes /\ match required with
                           | Some r => m = r
                           | None => m = AeadAes256GcmRtpSize \/ mode_as_str AeadAes256GcmRtpSize ∉ modes
                           end.
Proof.
  unfold select_encryption_mode. destruct modes as [|s l] eqn:Hm; [split; [done|intros [H%elem_of_nil _]; done]|]. rewrite <- Hm. clear Hm s l.
  destruct required as [r|].
  - destruct (offers_mode modes r) eqn:Ho; [apply offers_mode_iff in Ho; naive_solver|]. split; [done|].
    intros [Hin ->]. apply offers_mode_iff in Hin. congruence.
  - cbn [List.find ALL_MODES]. destruct (offers_mode modes AeadAes256GcmRtpSize) eqn:Ha.
    { apply offers_mode_iff in Ha. split; [intros [= <-]; auto|]. naive_solver. }
    assert (mode_as_str AeadAes256GcmRtpSize ∉ modes) as Hn by (intros Hin%offers_mode_iff; congruence).
    destruct (offers_mode modes AeadXChaCha20Poly1305RtpSize) eqn:Hx.
    + apply offers_mode_iff in Hx. split; [intros [= <-]; auto|]. intros [Hin _]. destruct m; [done|done].
    + split; [done|]. intros [Hin _]. destruct m; [done|]. apply offers_mode_iff in Hin. congruence.
Qed.

(** ** Invariant of the connection state *)
Section Invariant.
Context {J : GatewayJson} {LJ : GatewayJsonLaws J}.

(** The DAVE state comes from a sequence of gateway events, and the codec map
    is the one of the current description. *)
Record conn_ok (st : ConnectionInternalState) : Prop := {
  conn_dave : exists evs, Forall event_ok evs /\ dave st = dave_run evs dave_default;
  conn_codecs : exists sd m, session_description st = Some sd /\ rtp_codecs st = Some m /\
    codec_map_new (sd_audio_codec sd) (sd_video_codec sd) (codec_preferences st) = Ok m /\
    length (secret_key (transport_crypto sd)) = 32%nat }.

Lemma dave_step_reached ev d : event_ok ev -> (exists evs, Forall event_ok evs /\ d = dave_run evs dave_default) ->
  exists evs, Forall event_ok evs /\ dave_step ev d = dave_run evs dave_default.
Proof.
  intros Hev (evs & Hevs & ->). exists (evs ++ [ev]). split; [apply Forall_app; auto|]. unfold dave_run. by rewrite foldl_app.
Qed.

Lemma with_dave_ok ev st : conn_ok st -> event_ok ev -> conn_ok (with_dave (dave_step ev (dave st)) st).
Proof. intros [H1 H2] Hev. split; [by apply dave_step_reached|done]. Qed.

Lemma parse_data_safe {A} (m : json_error + A) (P : A -> Prop) : (forall a, m = inr a -> P a) -> safe (parse_data m) P.
Proof. intros H. destruct m; simpl; auto. Qed.

Lemma session_description_new_safe p :
  safe (map_err EDescription (session_description_new p)) (fun sd =>
    length (secret_key (transport_crypto sd)) = 32%nat /\ dave_protocol_version sd = part_dave_protocol_version p).
Proof. unfold session_description_new, config_new. destruct (Nat.eqb_spec (length (part_secret_key p)) 32); done. Qed.

Lemma rtp_codec_map_safe sd prefs :
  safe (rtp_codec_map sd prefs) (fun m => codec_map_new (sd_audio_codec sd) (sd_video_codec sd) prefs = Ok m).
Proof.
  unfold rtp_codec_map. pose proof (codec_map_new_no_panic (sd_audio_codec sd) (sd_video_codec sd) prefs) as Hn.
  by destruct (codec_map_new _ _ _).
Qed.

Lemma transition_payload_no_panic ev : transition_payload_parse ev ≠ Panic.
Proof.
  unfold transition_payload_parse, index, TRANSITION_ID_LEN. destruct (event_payload ev) as [|a [|b l]]; [done|done|]. cbn [length Nat.ltb Nat.leb].
  cbn [lookup list_lookup unwrap mbind res_mbind]. rewrite slice_ok by (simpl; lia). done.
Qed.

Lemma handle_text_event_ok opcode data ack st :
  conn_ok st -> safe (handle_text_event opcode data ack st) (fun r => conn_ok r.1.2).
Proof.
  intros Hok. pose proof Hok as [H1 H2]. unfold handle_text_event. destruct (from_code opcode) as [o|]; [|done]. destruct o; try done.
  - apply safe_bind, parse_data_safe. intros p Hp. apply safe_bind. eapply safe_mono; [apply session_description_new_safe|]. intros sd [Hk Hv].
    apply safe_bind. eapply safe_mono; [apply rtp_codec_map_safe|]. intros m Hm. cbn. split; [|by exists sd, m].
    apply (dave_step_reached (SessionProtocol (dave_protocol_version sd))); [|done]. rewrite Hv. cbn. destruct (part_dave_protocol_version p) eqn:Hpv; [|done].
    by eapply json_description_version.
  - apply safe_bind, parse_data_safe. intros u _. cbn. by split.
  - apply safe_bind, parse_data_safe. intros u _. cbn. by split.
  - apply safe_bind, parse_data_safe. intros u _. cbn. by split.
  - apply safe_bind, parse_data_safe. intros u _. cbn. by split.
  - apply safe_bind, parse_data_safe. intros u _. destruct (_ || _); [|done]. destruct H2 as (sd & m & Hsd & Hm & Hc & Hk). rewrite Hsd. cbn [ok_or mbind res_mbind].
    apply safe_bind. eapply safe_mono; [apply rtp_codec_map_safe|]. intros m' Hm'. cbn. split; [done|]. by do 2 eexists.
  - apply safe_bind, parse_data_safe. intros [t v] Hp. cbn. apply (with_dave_ok (PrepareTransition t v)); [done|]. by eapply json_transition_version.
  - apply safe_bind, parse_data_safe. intros t Hp. cbn. by apply (with_dave_ok (ExecuteTransition t)).
  - apply safe_bind, parse_data_safe. intros [v e] Hp. cbn. apply (with_dave_ok (PrepareEpoch v e)); [done|]. by eapply json_epoch_version.
Qed.

Lemma handle_binary_ok l st :
  conn_ok st -> let '(r, st') := handle_voice_binary_event l st in r ≠ Panic /\ conn_ok st'.
Proof.
  intros Hok. unfold handle_voice_binary_event. destruct (binary_event_parse l) as [ev|]; [|done].
  assert (conn_ok (with_last_seq (event_seq ev) st)) as Hok' by (by destruct Hok).
  pose proof (transition_payload_no_panic ev) as Hnp.
  destruct (event_opcode ev) eqn:Ho; try done.
  - split; [done|]. by apply (with_dave_ok (ExternalSender (event_payload ev))).
  - split; [done|]. by apply (with_dave_ok (Proposals (event_payload ev))).
  - cbn. destruct (transition_payload_parse ev) as [p|e|]; cbn; [|done|done]. split; [done|]. by apply (with_dave_ok (MlsMessage (pending_message Commit p)) (with_last_seq (event_seq ev) st)).
  - cbn. destruct (transition_payload_parse ev) as [p|e|]; cbn; [|done|done]. split; [done|]. by apply (with_dave_ok (MlsMessage (pending_message Welcome p)) (with_last_seq (event_seq ev) st)).
Qed.

Lemma handle_event_ok ev ack st : conn_ok st -> safe (handle_event ev ack st) (fun r => conn_ok r.1.2).
Proof.
  intros Hok. destruct ev as [opcode seq data|l]; cbn [handle_event].
  - apply handle_text_event_ok. destruct seq as [s|]; [|done]. by destruct Hok.
  - pose proof (handle_binary_ok l st Hok) as Hb. destruct (handle_voice_binary_event l st) as [[e|e|] st']; destruct Hb; done.
Qed.

Lemma initial_ok preferences last_seq user sd m :
  (forall v, dave_protocol_version sd = Some v -> 0 <= v) -> length (secret_key (transport_crypto sd)) = 32%nat ->
  codec_map_new (sd_audio_codec sd) (sd_video_codec sd) preferences = Ok m -> conn_ok (connection_initial preferences last_seq user sd m).
Proof.
  intros Hv Hk Hm. split; [|by exists sd, m]. exists [SessionProtocol (dave_protocol_version sd)]. split; [|done]. constructor; [|done].
  cbn. destruct (dave_protocol_version sd); [by apply Hv|done].
Qed.

Lemma replay_ok evs : forall ack st, conn_ok st -> safe (replay_pending_voice_events evs ack st) conn_ok.
Proof.
  induction evs as [|ev evs IH]; intros ack st Hok; cbn [replay_pending_voice_events]; [done|].
  apply safe_bind. eapply safe_mono; [by apply handle_event_ok|]. intros [[eff st'] ack'] Hst'. by apply IH.
Qed.

(** C29. The connection state stays coherent whatever the gateway sends: from
    the state after the handshake, any sequence of text events with any opcode
    and data and of binary events with any bytes is handled without a panic;
    the codec map always is the one of the current session description, whose
    transport key has 32 bytes; and the DAVE state is one that a sequence of
    DAVE events produces, so that what is shown of those holds of it. *)
Theorem connection_state_coherent preferences last_seq user sd m evs ack :
  (forall v, dave_protocol_version sd = Some v -> 0 <= v) -> length (secret_key (transport_crypto sd)) = 32%nat ->
  codec_map_new (sd_audio_codec sd) (sd_video_codec sd) preferences = Ok m ->
  let r := replay_pending_voice_events evs ack (connection_initial preferences last_seq user sd m) in
  r ≠ Panic /\
  forall st, r = Ok st ->
    (exists devs, Forall event_ok devs /\ dave st = dave_run devs dave_default) /\
    exists sd' m', session_description st = Some sd' /\ rtp_codecs st = Some m' /\
      codec_map_new (sd_audio_codec sd') (sd_video_codec sd') (codec_preferences st) = Ok m' /\
      length (secret_key (transport_crypto sd')) = 32%nat.
Proof.
  intros Hv Hk Hm r. pose proof (replay_ok evs ack _ (initial_ok preferences last_seq user sd m Hv Hk Hm)) as Hs. fold r in Hs.
  split; [intros He; by rewrite He in Hs|intros st He; rewrite He in Hs; by destruct Hs].
Qed.

(** A user who disconnects leaves nothing behind that maps to them: the
    sources reported as removed are exactly those that belonged to the user,
    once each, no source maps to the user any more, and every other source
    keeps its user. *)
Theorem client_disconnect_exact data ack st user :
  parse_client_disconnect data = inr user ->
  exists eff st', handle_text_event (opcode_byte ClientDisconnect) data ack st = Ok (eff, st', ack) /\
    NoDup (removed_ssrcs eff) /\ (forall s, s ∈ removed_ssrcs eff <-> ssrc_users st !! s = Some user) /\
    (forall s, ssrc_users st' !! s = if decide (s ∈ removed_ssrcs eff) then None else ssrc_users st !! s) /\
    connected_user_ids st' = connected_user_ids st ∖ {[user]} /\ disconnected_user_ids eff = [user].
Proof.
  intros Hp. unfold handle_text_event. rewrite (proj2 (from_code_iff _ ClientDisconnect) eq_refl), Hp. cbn [parse_data mbind res_mbind].
  do 2 eexists. split; [reflexivity|]. cbn [with_retry removed_ssrcs with_roster ssrc_users connected_user_ids disconnected_user_ids].
  assert (forall s, s ∈ ssrcs_of user (ssrc_users st) <-> ssrc_users st !! s = Some user) as Hin.
  { intros s. unfold ssrcs_of. rewrite list_elem_of_fmap. split.
    - intros ([s' u] & -> & Hin%elem_of_map_to_list%map_lookup_filter_Some). simpl in *. naive_solver.
    - intros Hs. exists (s, user). split; [done|]. apply elem_of_map_to_list, map_lookup_filter_Some. done. }
  split; [apply NoDup_fst_map_to_list|]. split; [done|]. split; [|done].
  intros s. rewrite map_lookup_filter. destruct (ssrc_users st !! s) as [u|] eqn:Hs; cbn; [|by destruct (decide _)].
  destruct (decide (s ∈ ssrcs_of user (ssrc_users st))) as [Hd|Hd].
  - apply Hin in Hd. rewrite Hs in Hd. injection Hd as ->. by rewrite option_guard_False by tauto.
  - rewrite option_guard_True; [done|]. intros ->. by apply Hd, Hin.
Qed.
End Invariant.

(** ** Witnesses: data that is already parsed *)
Module GatewaySamples.
Inductive sample_json :=
| JDescription (p : SessionDescriptionParts) | JPrepare (t v : Z) | JDisconnect (user : Z) | JClient (c : ClientConnectEvent).

(** A version below zero is not a [u16]. *)
#[export] Instance sample_gateway_json : GatewayJson := {|
  json := sample_json; json_error := unit;
  parse_session_description j := match j with
    | JDescription p => if match part_dave_protocol_version p with Some v => v <? 0 | None => false end then inl () else inr p
    | _ => inl () end;
  parse_session_update _ := inl ();
  parse_prepare_transition j := match j with JPrepare t v => if v <? 0 then inl () else inr (t, v) | _ => inl () end;
  parse_execute_transition j := match j with JPrepare t _ => inr t | _ => inl () end;
  parse_prepare_epoch j := match j with JPrepare e v => if v <? 0 then inl () else inr (v, e) | _ => inl () end;
  parse_speaking _ := inl ();
  parse_clients_connect _ := inl ();
  parse_client_connect j := match j with JClient c => inr c | _ => inl () end;
  parse_client_disconnect j := match j with JDisconnect u => inr u | _ => inl () end |}.

#[export] Instance sample_gateway_json_laws : GatewayJsonLaws sample_gateway_json.
Proof.
  split; intros []; cbn; intros; try done; repeat case_match; simplify_eq; bool_cases; lia.
Qed.

Definition sample_description : SessionDescription :=
  {| transport_crypto := {| config_mode := AeadAes256GcmRtpSize; secret_key := replicate 32 7 |}; sd_audio_codec := Some "opus"%string;
     sd_video_codec := None; dave_protocol_version := Some 1 |}.

Definition sample_map : DiscordRtpCodecMap :=
  match codec_map_new (Some "opus"%string) None [H264] with Ok m => m | _ => {| payload_codecs := []; expected_payload_types := [] |} end.

(** A client connects, an epoch is prepared, a commit arrives, its transition
    is executed, and an unknown binary message follows. *)
Definition sample_events : list PendingGatewayEvent :=
  [Text 12 (Some 3) (JClient {| client_user_id := 9; client_audio_ssrc := Some 40; client_ssrc := None |});
   Text 24 (Some 4) (JPrepare 1 1); Binary [0; 5; 29; 0; 7; 1; 2]; Text 22 None (JPrepare 7 0); Binary [0; 6; 99]].

Lemma connection_state_coherent_witness :
  let r := replay_pending_voice_events sample_events ack_default (connection_initial [H264] None 1 sample_description sample_map) in
  r ≠ Panic /\
  forall st, r = Ok st ->
    (exists devs, Forall event_ok devs /\ dave st = dave_run devs dave_default) /\
    exists sd' m', session_description st = Some sd' /\ rtp_codecs st = Some m' /\
      codec_map_new (sd_audio_codec sd') (sd_video_codec sd') (codec_preferences st) = Ok m' /\
      length (secret_key (transport_crypto sd')) = 32%nat.
Proof. apply (connection_state_coherent [H264] None 1 sample_description sample_map); [by intros v [= <-]|reflexivity|reflexivity]. Defined.

Lemma client_disconnect_exact_witness :
  let st := connection_initial [H264] None 1 sample_description sample_map in
  exists eff st', handle_text_event (opcode_byte ClientDisconnect) (JDisconnect 9) ack_default st = Ok (eff, st', ack_default) /\
    NoDup (removed_ssrcs eff) /\ (forall s, s ∈ removed_ssrcs eff <-> ssrc_users st !! s = Some 9) /\
    (forall s, ssrc_users st' !! s = if decide (s ∈ removed_ssrcs eff) then None else ssrc_users st !! s) /\
    connected_user_ids st' = connected_user_ids st ∖ {[9]} /\ disconnected_user_ids eff = [9].
Proof. apply (client_disconnect_exact (J := sample_gateway_json) (JDisconnect 9)). reflexivity. Defined.
End GatewaySamples.
End Gateway.
