(* ===== verification/MlsPolicy.v ===== *)
(** * The DAVE policy on MLS groups

    The [validate_*] functions of [dave/src/session.rs]: which credentials,
    leaf nodes, group contexts, proposals and commits DAVE accepts.

    The types of this file are what the functions look at in the values of the
    MLS library: a credential is its type and content, a leaf node its
    credential, number of extensions and capabilities, and so on.  Code points
    are those of RFC 9420; a user id is a 64-bit integer. *)

From S2P Require Import Prelude.

Module MlsPolicy.

Definition CREDENTIAL_BASIC : Z := 1.
Definition PROTOCOL_MLS10 : Z := 1.

(** [MLS_128_DHKEMP256_AES128GCM_SHA256_P256] *)
Definition supported_ciphersuite : Z := 2.

Record Credential := { credential_type : Z; serialized_content : bytes }.

Record Capabilities := {
  cap_versions : list Z; cap_ciphersuites : list Z; cap_extensions : list Z; cap_proposals : list Z; cap_credentials : list Z }.

#[export] Instance Capabilities_eq_dec : EqDecision Capabilities.
Proof. solve_decision. Defined.

Definition supported_capabilities : Capabilities :=
  {| cap_versions := [PROTOCOL_MLS10]; cap_ciphersuites := [supported_ciphersuite]; cap_extensions := []; cap_proposals := [];
     cap_credentials := [CREDENTIAL_BASIC] |}.

Record LeafNode := { leaf_credential : Credential; leaf_extension_count : nat; leaf_capabilities : Capabilities }.

Record Member := { member_index : Z; member_credential : Credential; member_signature_key : bytes }.

(** An external sender, by its encoding. *)
Definition ExternalSender := bytes.

(** The extensions of a group context: how many there are, and the senders of
    the [ExternalSenders] extension if it is one of them. *)
Record Extensions := { extension_count : nat; external_senders : option (list ExternalSender) }.

Record GroupContext := { context_version : Z; context_ciphersuite : Z; context_extensions : Extensions }.

Inductive Sender := SenderMember (leaf : Z) | SenderExternal (index : Z) | SenderOther.

#[export] Instance Sender_eq_dec : EqDecision Sender.
Proof. solve_decision. Defined.

Inductive Proposal := Add (leaf : LeafNode) | Remove (removed : Z) | OtherProposal.

Record QueuedProposal := { proposal_sender : Sender; proposal : Proposal; by_reference : bool }.

(** ** Errors *)
Inductive CredentialPolicyError := UnexpectedType (actual : Z) | UserIdContent.

Inductive GroupPolicyError :=
| UnexpectedProtocolVersion (actual : Z)
| UnexpectedCiphersuite (actual expected : Z)
| UnexpectedGroupExtensionCount (actual : nat)
| MissingExternalSenderExtension
| InvalidExternalSenderCount (n : nat)
| UnexpectedExternalSender
| UnexpectedLeafExtensionCount (actual : nat)
| UnexpectedLeafCapabilities
| MemberCredential (e : CredentialPolicyError)
| DuplicateMemberCredential (user : Z).

Inductive CommitPolicyError :=
| InlineProposal | CommitUnexpectedProposalType | UnexpectedCommitSender
| CommitMemberCredential (e : CredentialPolicyError)
| CommitGroupPolicy (e : GroupPolicyError).

Inductive ProposalPolicyError :=
| UnexpectedProposalSender | UnexpectedProposalType
| UnexpectedUser (user : Z)
| ProposalCredential (e : CredentialPolicyError)
| ProposalGroupPolicy (e : GroupPolicyError).

(** ** Credentials and leaf nodes *)
Definition credential_user_id (c : Credential) : res CredentialPolicyError Z :=
  if negb (credential_type c =? CREDENTIAL_BASIC) then Err (UnexpectedType (credential_type c))
  else if (length (serialized_content c) =? 8)%nat then Ok (from_be (serialized_content c)) else Err UserIdContent.

Definition validate_leaf_node_policy (l : LeafNode) : res GroupPolicyError () :=
  _ ← map_err MemberCredential (credential_user_id (leaf_credential l));
  if negb (leaf_extension_count l =? 0)%nat then Err (UnexpectedLeafExtensionCount (leaf_extension_count l))
  else if negb (bool_decide (leaf_capabilities l = supported_capabilities)) then Err UnexpectedLeafCapabilities
  else Ok ().

(** ** Groups *)
Fixpoint member_policy_loop (seen : gset Z) (ms : list Member) : res GroupPolicyError () :=
  match ms with
  | [] => Ok ()
  | m :: ms =>
      u ← map_err MemberCredential (credential_user_id (member_credential m));
      if bool_decide (u ∈ seen) then Err (DuplicateMemberCredential u) else member_policy_loop ({[u]} ∪ seen) ms
  end.

Definition validate_group_member_policy (ms : list Member) : res GroupPolicyError () := member_policy_loop ∅ ms.

Definition validate_group_context_extensions (e : Extensions) (sender : ExternalSender) : res GroupPolicyError () :=
  if negb (extension_count e =? 1)%nat then Err (UnexpectedGroupExtensionCount (extension_count e))
  else
    senders ← ok_or MissingExternalSenderExtension (external_senders e);
    match senders with
    | [s] => if bool_decide (s = sender) then Ok () else Err UnexpectedExternalSender
    | _ => Err (InvalidExternalSenderCount (length senders))
    end.

Definition validate_group_context_policy (c : GroupContext) (sender : ExternalSender) : res GroupPolicyError () :=
  if negb (context_version c =? PROTOCOL_MLS10) then Err (UnexpectedProtocolVersion (context_version c))
  else if negb (context_ciphersuite c =? supported_ciphersuite)
  then Err (UnexpectedCiphersuite (context_ciphersuite c) supported_ciphersuite)
  else validate_group_context_extensions (context_extensions c) sender.

Definition validate_group_policy (ciphersuite : Z) (e : Extensions) (ms : list Member) (sender : ExternalSender) : res GroupPolicyError () :=
  if negb (ciphersuite =? supported_ciphersuite) then Err (UnexpectedCiphersuite ciphersuite supported_ciphersuite)
  else
    _ ← validate_group_context_extensions e sender;
    validate_group_member_policy ms.

(** ** Proposals *)
Definition validate_gateway_proposal (p : QueuedProposal) (expected : Z -> bool) : res ProposalPolicyError bool :=
  if negb (bool_decide (proposal_sender p = SenderExternal 0)) then Err UnexpectedProposalSender
  else
    match proposal p with
    | Add leaf =>
        _ ← map_err ProposalGroupPolicy (validate_leaf_node_policy leaf);
        u ← map_err ProposalCredential (credential_user_id (leaf_credential leaf));
        if expected u then Ok true else Err (UnexpectedUser u)
    | Remove _ => Ok false
    | OtherProposal => Err UnexpectedProposalType
    end.

(** ** Commits *)
Fixpoint validate_queued_proposals (l : list QueuedProposal) : res CommitPolicyError () :=
  match l with
  | [] => Ok ()
  | p :: l =>
      if negb (by_reference p) then Err InlineProposal
      else
        _ ← match proposal p with
            | Add leaf => map_err CommitGroupPolicy (validate_leaf_node_policy leaf)
            | Remove _ => Ok ()
            | OtherProposal => Err CommitUnexpectedProposalType
            end;
        validate_queued_proposals l
  end.

Definition removed_leaves (l : list QueuedProposal) : gset Z :=
  list_to_set (omap (fun p => match proposal p with Remove i => Some i | _ => None end) l).

Definition added_leaves (l : list QueuedProposal) : list LeafNode :=
  omap (fun p => match proposal p with Add leaf => Some leaf | _ => None end) l.

(** The loop over the members of the group before the commit. *)
Fixpoint kept_user_ids (removed : gset Z) (update_path_member : option (Z * Z)) (ms : list Member) : res CommitPolicyError (list Z) :=
  match ms with
  | [] => Ok []
  | m :: ms =>
      if bool_decide (member_index m ∈ removed) then kept_user_ids removed update_path_member ms
      else
        u ← match update_path_member with
            | Some (leaf, u) => if leaf =? member_index m then Ok u
                                else map_err CommitMemberCredential (credential_user_id (member_credential m))
            | None => map_err CommitMemberCredential (credential_user_id (member_credential m))
            end;
        us ← kept_user_ids removed update_path_member ms;
        Ok (u :: us)
  end.

Fixpoint added_user_ids (ls : list LeafNode) : res CommitPolicyError (list Z) :=
  match ls with
  | [] => Ok []
  | l :: ls =>
      u ← map_err CommitMemberCredential (credential_user_id (leaf_credential l));
      us ← added_user_ids ls;
      Ok (u :: us)
  end.

Fixpoint ensure_distinct_loop (seen : gset Z) (us : list Z) : res CommitPolicyError () :=
  match us with
  | [] => Ok ()
  | u :: us =>
      if bool_decide (u ∈ seen) then Err (CommitGroupPolicy (DuplicateMemberCredential u)) else ensure_distinct_loop ({[u]} ∪ seen) us
  end.

Definition ensure_distinct_user_ids (us : list Z) : res CommitPolicyError () := ensure_distinct_loop ∅ us.

Definition validate_resulting_member_credentials (ms : list Member) (sender : Sender) (proposals : list QueuedProposal)
    (update_path : option LeafNode) : res CommitPolicyError () :=
  update_path_member ←
    match update_path with
    | Some leaf =>
        match sender with
        | SenderMember i =>
            u ← map_err CommitMemberCredential (credential_user_id (leaf_credential leaf)); Ok (Some (i, u))
        | _ => Err UnexpectedCommitSender
        end
    | None => Ok None
    end;
  kept ← kept_user_ids (removed_leaves proposals) update_path_member ms;
  added ← added_user_ids (added_leaves proposals);
  ensure_distinct_user_ids (kept ++ added).

Definition validate_staged_commit (ms : list Member) (gateway : ExternalSender) (sender : Sender) (proposals : list QueuedProposal)
    (update_path : option LeafNode) (context : GroupContext) : res CommitPolicyError () :=
  _ ← validate_queued_proposals proposals;
  _ ← match update_path with Some leaf => map_err CommitGroupPolicy (validate_leaf_node_policy leaf) | None => Ok () end;
  _ ← map_err CommitGroupPolicy (validate_group_context_policy context gateway);
  validate_resulting_member_credentials ms sender proposals update_path.

(** ** What the policy means *)
Definition user_id_is (c : Credential) (u : Z) : Prop :=
  credential_type c = CREDENTIAL_BASIC /\ length (serialized_content c) = 8%nat /\ u = from_be (serialized_content c).

Lemma credential_user_id_iff c u : credential_user_id c = Ok u <-> user_id_is c u.
Proof.
  unfold credential_user_id, user_id_is. destruct (Z.eqb_spec (credential_type c) CREDENTIAL_BASIC); cbn [negb]; [|naive_solver].
  destruct (Nat.eqb_spec (length (serialized_content c)) 8); [|split; [done|by intros (_ & ? & _)]].
  split; [by intros [= <-]|by intros (_ & _ & ->)].
Qed.

Lemma map_err_ok_iff {E F A} (f : E -> F) (m : res E A) a : map_err f m = Ok a <-> m = Ok a.
Proof. destruct m; simpl; split; congruence. Qed.

Definition leaf_allowed (l : LeafNode) : Prop :=
  (exists u, user_id_is (leaf_credential l) u) /\ leaf_extension_count l = 0%nat /\ leaf_capabilities l = supported_capabilities.

Lemma validate_leaf_iff l : validate_leaf_node_policy l = Ok () <-> leaf_allowed l.
Proof.
  unfold validate_leaf_node_policy, leaf_allowed. destruct (credential_user_id (leaf_credential l)) as [u|e|] eqn:Hu; cbn.
  - apply credential_user_id_iff in Hu. destruct (Nat.eqb_spec (leaf_extension_count l) 0); cbn; [|naive_solver].
    destruct (bool_decide_reflect (leaf_capabilities l = supported_capabilities)); cbn; [|naive_solver]. split; [|done]. naive_solver.
  - split; [done|]. intros [[u Hx%credential_user_id_iff] _]. congruence.
  - split; [done|]. intros [[u Hx%credential_user_id_iff] _]. congruence.
Qed.

Lemma member_policy_loop_iff seen ms :
  member_policy_loop seen ms = Ok () <->
  exists us, Forall2 (fun m u => user_id_is (member_credential m) u) ms us /\ NoDup us /\ Forall (fun u => u ∉ seen) us.
Proof.
  revert seen. induction ms as [|m ms IH]; intros seen; cbn [member_policy_loop].
  - split; [|done]. intros _. exists []. split; [constructor|]. split; [by apply NoDup_nil|done].
  - destruct (credential_user_id (member_credential m)) as [u|e|] eqn:Hu; cbn.
    + apply credential_user_id_iff in Hu. destruct (bool_decide_reflect (u ∈ seen)) as [Hin|Hin].
      * split; [done|]. intros (us & Hf & _ & Hs). apply Forall2_cons_inv_l in Hf as (u' & us' & Hu' & _ & ->).
        apply Forall_cons in Hs as [Hs _]. destruct Hs. by replace u' with u by (destruct Hu as (_ & _ & ->), Hu' as (_ & _ & ->); done).
      * rewrite IH. split.
        -- intros (us & Hf & Hnd & Hs). rewrite Forall_forall in Hs. exists (u :: us). split; [by constructor|]. split.
           ++ apply NoDup_cons. split; [|done]. intros Hx. apply (Hs u Hx). set_solver.
           ++ constructor; [done|]. apply Forall_forall. intros x Hx Hxs. apply (Hs x Hx). set_solver.
        -- intros (us & Hf & Hnd & Hs). apply Forall2_cons_inv_l in Hf as (u' & us' & Hu' & Hf & ->).
           assert (u' = u) as -> by (destruct Hu as (_ & _ & ->), Hu' as (_ & _ & ->); done).
           apply NoDup_cons in Hnd as [Hn Hnd]. apply Forall_cons in Hs as [_ Hs]. exists us'. split; [done|]. split; [done|].
           rewrite Forall_forall in *. intros x Hx. specialize (Hs x Hx). set_solver.
    + split; [done|]. intros (us & Hf & _). apply Forall2_cons_inv_l in Hf as (u' & us' & Hu' & _).
      apply credential_user_id_iff in Hu'. congruence.
    + split; [done|]. intros (us & Hf & _). apply Forall2_cons_inv_l in Hf as (u' & us' & Hu' & _).
      apply credential_user_id_iff in Hu'. congruence.
Qed.

(** Every member has a user id, and no two the same. *)
Lemma validate_members_iff ms :
  validate_group_member_policy ms = Ok () <-> exists us, Forall2 (fun m u => user_id_is (member_credential m) u) ms us /\ NoDup us.
Proof.
  unfold validate_group_member_policy. rewrite member_policy_loop_iff. split; intros (us & Hf & Hnd); exists us; [naive_solver|].
  split; [done|]. split; [done|]. apply Forall_forall. set_solver.
Qed.

Definition context_allowed (c : GroupContext) (gateway : ExternalSender) : Prop :=
  context_version c = PROTOCOL_MLS10 /\ context_ciphersuite c = supported_ciphersuite /\
  extension_count (context_extensions c) = 1%nat /\ external_senders (context_extensions c) = Some [gateway].

Lemma validate_extensions_iff e gateway :
  validate_group_context_extensions e gateway = Ok () <-> extension_count e = 1%nat /\ external_senders e = Some [gateway].
Proof.
  unfold validate_group_context_extensions. destruct (Nat.eqb_spec (extension_count e) 1); cbn; [|naive_solver].
  destruct (external_senders e) as [[|s [|? ?]]|]; cbn; try naive_solver. case_bool_decide; naive_solver.
Qed.

Lemma validate_context_iff c gateway : validate_group_context_policy c gateway = Ok () <-> context_allowed c gateway.
Proof.
  unfold validate_group_context_policy, context_allowed. destruct (Z.eqb_spec (context_version c) PROTOCOL_MLS10); cbn; [|naive_solver].
  destruct (Z.eqb_spec (context_ciphersuite c) supported_ciphersuite); cbn; [|naive_solver]. rewrite validate_extensions_iff. naive_solver.
Qed.

Definition proposal_allowed (p : QueuedProposal) : Prop :=
  by_reference p = true /\ match proposal p with Add leaf => leaf_allowed leaf | Remove _ => True | OtherProposal => False end.

Lemma validate_queued_iff l : validate_queued_proposals l = Ok () <-> Forall proposal_allowed l.
Proof.
  induction l as [|p l IH]; cbn [validate_queued_proposals]; [split; [constructor|done]|]. rewrite Forall_cons. unfold proposal_allowed at 1.
  destruct (by_reference p); cbn [negb]; [|naive_solver]. destruct (proposal p) as [leaf|i|]; cbn [mbind res_mbind]; [|rewrite IH; naive_solver|naive_solver].
  rewrite <- validate_leaf_iff. destruct (validate_leaf_node_policy leaf) as [[]|e|]; cbn; rewrite ?IH; naive_solver.
Qed.

(** The user of a member after the commit: the sender's leaf may be replaced. *)
Definition member_after (update : option (Z * LeafNode)) (m : Member) : Credential :=
  match update with
  | Some (i, leaf) => if i =? member_index m then leaf_credential leaf else member_credential m
  | None => member_credential m
  end.

(** The credentials of the group a commit leads to. *)
Definition resulting_credentials (ms : list Member) (sender : Sender) (proposals : list QueuedProposal) (update_path : option LeafNode) : list Credential :=
  let update := match update_path, sender with Some leaf, SenderMember i => Some (i, leaf) | _, _ => None end in
  (member_after update <$> filter (fun m => member_index m ∉ removed_leaves proposals) ms) ++ (leaf_credential <$> added_leaves proposals).

Lemma ensure_distinct_iff us : ensure_distinct_user_ids us = Ok () <-> NoDup us.
Proof.
  enough (forall seen, ensure_distinct_loop seen us = Ok () <-> NoDup us /\ Forall (fun u => u ∉ seen) us) as H.
  { unfold ensure_distinct_user_ids. rewrite H. split; [naive_solver|]. intros Hn. split; [done|]. apply Forall_forall. set_solver. }
  induction us as [|u us IH]; intros seen; cbn [ensure_distinct_loop]; [split; [split; [by apply NoDup_nil|done]|done]|].
  rewrite NoDup_cons, Forall_cons. destruct (bool_decide_reflect (u ∈ seen)); [naive_solver|]. rewrite IH, !Forall_forall. set_solver.
Qed.

Lemma kept_user_ids_iff removed upd leaf ms us :
  (forall i u, upd = Some (i, u) -> exists l, leaf = Some (i, l) /\ user_id_is (leaf_credential l) u) -> (upd = None -> leaf = None) ->
  kept_user_ids removed upd ms = Ok us <->
  Forall2 user_id_is (member_after leaf <$> filter (fun m => member_index m ∉ removed) ms) us.
Proof.
  intros Hupd Hnone. revert us. induction ms as [|m ms IH]; intros us; cbn [kept_user_ids].
  - cbn. split; [intros [= <-]; constructor|]. intros H. inversion H. done.
  - destruct (bool_decide_reflect (member_index m ∈ removed)) as [Hin|Hin].
    { rewrite filter_cons_False by tauto. apply IH. }
    rewrite filter_cons_True, fmap_cons by done.
    assert (forall u, match upd with
      | Some (l, u) => if l =? member_index m then Ok u else map_err CommitMemberCredential (credential_user_id (member_credential m))
      | None => map_err CommitMemberCredential (credential_user_id (member_credential m)) end = Ok u <-> user_id_is (member_after leaf m) u) as Hm.
    { intros u. unfold member_after. destruct upd as [[i v]|].
      - destruct (Hupd i v eq_refl) as (l & -> & Hl). destruct (i =? member_index m); [|by rewrite map_err_ok_iff, credential_user_id_iff].
        destruct Hl as (H1 & H2 & ->). unfold user_id_is. naive_solver.
      - rewrite (Hnone eq_refl). by rewrite map_err_ok_iff, credential_user_id_iff. }
    split.
    + intros (u & Hu & (us' & Hus & [= <-])%bind_Ok_inv)%bind_Ok_inv. constructor; [by apply Hm|by apply IH].
    + intros (u & us' & Hu & Hus & ->)%Forall2_cons_inv_l. apply Hm in Hu. rewrite Hu. cbn [mbind res_mbind]. apply IH in Hus. by rewrite Hus.
Qed.

Lemma added_user_ids_iff ls us : added_user_ids ls = Ok us <-> Forall2 user_id_is (leaf_credential <$> ls) us.
Proof.
  revert us. induction ls as [|l ls IH]; intros us; cbn [added_user_ids].
  - cbn. split; [intros [= <-]; constructor|]. intros H. inversion H. done.
  - rewrite fmap_cons. split.
    + intros (u & Hu%map_err_ok_iff%credential_user_id_iff & (us' & Hus & [= <-])%bind_Ok_inv)%bind_Ok_inv. constructor; [done|by apply IH].
    + intros (u & us' & Hu%credential_user_id_iff & Hus%IH & ->)%Forall2_cons_inv_l. by rewrite Hu, Hus.
Qed.

Lemma update_path_iff sender update_path (upd : option (Z * Z)) :
  match update_path with
  | Some leaf =>
      match sender with
      | SenderMember i => u ← map_err CommitMemberCredential (credential_user_id (leaf_credential leaf)); Ok (Some (i, u))
      | _ => Err UnexpectedCommitSender
      end
  | None => Ok None
  end = Ok upd <->
  match update_path with
  | Some leaf => exists i u, sender = SenderMember i /\ user_id_is (leaf_credential leaf) u /\ upd = Some (i, u)
  | None => upd = None
  end.
Proof.
  destruct update_path as [leaf|]; [|split; congruence]. destruct sender as [i|i|]; [|split; [done|naive_solver]..]. split.
  - intros (u & Hu%map_err_ok_iff%credential_user_id_iff & [= <-])%bind_Ok_inv. eauto.
  - intros (j & u & [= <-] & Hu%credential_user_id_iff & ->). by rewrite Hu.
Qed.

(** Which commits DAVE accepts: exactly those in which every proposal is by
    reference and adds a member with an allowed leaf node or removes one, whose
    update path, if there is one, comes from a member and has an allowed leaf
    node, whose group context is MLS 1.0 with the DAVE ciphersuite and the
    gateway as the only external sender, and after which every member has a
    user id and no two members have the same. *)
Theorem staged_commit_accepted ms gateway sender proposals update_path context :
  validate_staged_commit ms gateway sender proposals update_path context = Ok () <->
  Forall proposal_allowed proposals /\
  (forall leaf, update_path = Some leaf -> leaf_allowed leaf /\ exists i, sender = SenderMember i) /\
  context_allowed context gateway /\
  exists us, Forall2 user_id_is (resulting_credentials ms sender proposals update_path) us /\ NoDup us.
Proof.
  unfold validate_staged_commit, validate_resulting_member_credentials, resulting_credentials.
  set (leaf := match update_path, sender with Some leaf, SenderMember i => Some (i, leaf) | _, _ => None end).
  assert (forall upd, match update_path with Some l => exists i u, sender = SenderMember i /\ user_id_is (leaf_credential l) u /\ upd = Some (i, u) | None => upd = None end ->
    forall us, kept_user_ids (removed_leaves proposals) upd ms = Ok us <->
      Forall2 user_id_is (member_after leaf <$> filter (fun m => member_index m ∉ removed_leaves proposals) ms) us) as Hkept.
  { intros upd Hu us. apply kept_user_ids_iff; unfold leaf; destruct update_path as [l|]; try (by subst).
    - destruct Hu as (i & u & -> & Hl & ->). intros j v [= <- <-]. eauto.
    - by destruct Hu as (i & u & _ & _ & ->). }
  split.
  - intros ([] & Hq%validate_queued_iff & (u & Hl & ([] & Hc%map_err_ok_iff%validate_context_iff & (upd & Hupd%update_path_iff & (kept & Hk & (added & Ha%added_user_ids_iff & Hd)%bind_Ok_inv)%bind_Ok_inv)%bind_Ok_inv)%bind_Ok_inv)%bind_Ok_inv)%bind_Ok_inv.
    apply (Hkept upd Hupd) in Hk. apply ensure_distinct_iff in Hd. split; [done|]. split; [|split; [done|]].
    + intros l ->. destruct u. apply map_err_ok_iff, validate_leaf_iff in Hl. destruct Hupd as (i & ? & -> & _). eauto.
    + exists (kept ++ added). split; [by apply Forall2_app|done].
  - intros (Hq%validate_queued_iff & Hl & Hc%validate_context_iff & us & Hus & Hnd). rewrite Hq. cbn [mbind res_mbind].
    assert (match update_path with Some leaf => map_err CommitGroupPolicy (validate_leaf_node_policy leaf) | None => Ok () end = Ok ()) as ->.
    { destruct update_path as [l|]; [|done]. destruct (Hl l eq_refl) as [Hl'%validate_leaf_iff _]. by rewrite Hl'. }
    cbn [mbind res_mbind]. rewrite Hc. cbn [map_err mbind res_mbind].
    assert (exists upd, match update_path with Some l => exists i u, sender = SenderMember i /\ user_id_is (leaf_credential l) u /\ upd = Some (i, u) | None => upd = None end)
      as [upd Hupd].
    { destruct update_path as [l|]; [|by eexists]. destruct (Hl l eq_refl) as ([[u Hu] _] & i & ->). by exists (Some (i, u)), i, u. }
    pose proof (proj2 (update_path_iff sender update_path upd) Hupd) as Heq. rewrite Heq. cbn [mbind res_mbind].
    apply Forall2_app_inv_l in Hus as (kept & added & Hk & Ha & ->).
    apply (Hkept upd Hupd) in Hk. apply added_user_ids_iff in Ha. rewrite Hk. cbn [mbind res_mbind]. rewrite Ha. cbn [mbind res_mbind].
    by apply ensure_distinct_iff.
Qed.

(** Which proposals of the gateway are kept for the next commit. *)
Lemma gateway_proposal_iff p expected b :
  validate_gateway_proposal p expected = Ok b <->
  proposal_sender p = SenderExternal 0 /\
  match proposal p with
  | Add leaf => b = true /\ leaf_allowed leaf /\ exists u, user_id_is (leaf_credential leaf) u /\ expected u = true
  | Remove _ => b = false
  | OtherProposal => False
  end.
Proof.
  unfold validate_gateway_proposal. destruct (bool_decide_reflect (proposal_sender p = SenderExternal 0)); cbn [negb]; [|naive_solver].
  destruct (proposal p) as [leaf|i|]; [|split; [intros [= <-]; done|by intros [_ ->]]|naive_solver]. split.
  - intros ([] & Hl%map_err_ok_iff%validate_leaf_iff & (u & Hu%map_err_ok_iff%credential_user_id_iff & Hx)%bind_Ok_inv)%bind_Ok_inv.
    destruct (expected u) eqn:He; [|done]. injection Hx as <-. eauto 10.
  - intros (_ & -> & Hl%validate_leaf_iff & u & Hu%credential_user_id_iff & He). rewrite Hl, Hu. cbn. by rewrite He.
Qed.

(** ** No panics *)
Lemma credential_user_id_safe c : safe (credential_user_id c) (fun _ => True).
Proof. unfold credential_user_id. destruct (negb _); [done|]. by destruct (_ =? 8)%nat. Qed.

Lemma validate_leaf_safe l : safe (validate_leaf_node_policy l) (fun _ => True).
Proof.
  unfold validate_leaf_node_policy. pose proof (credential_user_id_safe (leaf_credential l)) as H.
  destruct (credential_user_id _); cbn; [|done|done]. destruct (negb _); [done|]. by destruct (negb _).
Qed.

Lemma validate_extensions_safe e s : safe (validate_group_context_extensions e s) (fun _ => True).
Proof.
  unfold validate_group_context_extensions. destruct (negb _); [done|]. destruct (external_senders e) as [[|x [|? ?]]|]; try done.
  cbn. by destruct (bool_decide _).
Qed.

Lemma validate_context_safe c s : safe (validate_group_context_policy c s) (fun _ => True).
Proof.
  unfold validate_group_context_policy. destruct (negb _); [done|]. destruct (negb _); [done|]. apply validate_extensions_safe.
Qed.

Lemma validate_members_safe ms : safe (validate_group_member_policy ms) (fun _ => True).
Proof.
  unfold validate_group_member_policy. generalize (∅ : gset Z). induction ms as [|m ms IH]; intros seen; [done|]. cbn [member_policy_loop].
  pose proof (credential_user_id_safe (member_credential m)) as H. destruct (credential_user_id _); cbn; [|done|done]. destruct (bool_decide _); [done|apply IH].
Qed.

Lemma validate_group_safe c e ms s : safe (validate_group_policy c e ms s) (fun _ => True).
Proof.
  unfold validate_group_policy. destruct (negb _); [done|]. apply safe_bind. eapply safe_mono; [apply validate_extensions_safe|].
  intros _ _. apply validate_members_safe.
Qed.

Lemma gateway_proposal_safe p expected : safe (validate_gateway_proposal p expected) (fun _ => True).
Proof.
  unfold validate_gateway_proposal. destruct (negb _); [done|]. destruct (proposal p) as [l|i|]; [|done|done].
  pose proof (validate_leaf_safe l) as Hl. pose proof (credential_user_id_safe (leaf_credential l)) as Hc.
  destruct (validate_leaf_node_policy l); cbn; [|done|done]. destruct (credential_user_id _); cbn; [|done|done]. by destruct (expected _).
Qed.

Lemma validate_queued_safe l : safe (validate_queued_proposals l) (fun _ => True).
Proof.
  induction l as [|p l IH]; [done|]. cbn [validate_queued_proposals]. destruct (negb _); [done|].
  destruct (proposal p) as [leaf|i|]; [|exact IH|done]. pose proof (validate_leaf_safe leaf) as Hl.
  by destruct (validate_leaf_node_policy leaf).
Qed.

Lemma kept_user_ids_safe removed upd ms : safe (kept_user_ids removed upd ms) (fun _ => True).
Proof.
  induction ms as [|m ms IH]; [done|]. cbn [kept_user_ids]. destruct (bool_decide _); [done|].
  pose proof (credential_user_id_safe (member_credential m)) as Hc. apply safe_bind.
  enough (forall x : res CommitPolicyError Z, safe x (fun _ => True) -> safe x (fun u => safe (us ← kept_user_ids removed upd ms; Ok (u :: us)) (fun _ => True))) as H.
  { apply H. destruct upd as [[i u]|]; [destruct (_ =? _); [done|]|]; by destruct (credential_user_id _). }
  intros x Hx. eapply safe_mono; [exact Hx|]. intros u _. by destruct (kept_user_ids removed upd ms).
Qed.

Lemma validate_staged_safe ms gateway sender proposals update_path context :
  safe (validate_staged_commit ms gateway sender proposals update_path context) (fun _ => True).
Proof.
  unfold validate_staged_commit. apply safe_bind. eapply safe_mono; [apply validate_queued_safe|]. intros _ _. apply safe_bind.
  assert (safe (match update_path with Some leaf => map_err CommitGroupPolicy (validate_leaf_node_policy leaf) | None => Ok () end) (fun _ => True)) as Hl.
  { destruct update_path as [l|]; [|done]. pose proof (validate_leaf_safe l). by destruct (validate_leaf_node_policy l). }
  eapply safe_mono; [exact Hl|]. intros _ _. clear Hl. apply safe_bind. pose proof (validate_context_safe context gateway) as Hc.
  destruct (validate_group_context_policy context gateway); cbn; [|done|done]. clear Hc.
  unfold validate_resulting_member_credentials. apply safe_bind.
  match goal with |- safe ?x _ => assert (safe x (fun _ => True)) as Hx end.
  { destruct update_path as [l|]; [|done]. destruct sender; try done. pose proof (credential_user_id_safe (leaf_credential l)). by destruct (credential_user_id _). }
  eapply safe_mono; [exact Hx|]. intros upd _. apply safe_bind. eapply safe_mono; [apply kept_user_ids_safe|]. intros kept _. apply safe_bind.
  assert (safe (added_user_ids (added_leaves proposals)) (fun _ => True)) as Ha.
  { induction (added_leaves proposals) as [|l ls IH]; [done|]. cbn. pose proof (credential_user_id_safe (leaf_credential l)).
    destruct (credential_user_id _); cbn; [|done|done]. by destruct (added_user_ids ls). }
  eapply safe_mono; [exact Ha|]. intros added _. unfold ensure_distinct_user_ids. generalize (∅ : gset Z).
  induction (kept ++ added) as [|u us IH]; intros seen; [done|]. cbn. destruct (bool_decide _); [done|apply IH].
Qed.
End MlsPolicy.
