(* ===== verification/Identity.v ===== *)
(** * Identity keys and verification codes (dave/src/identity.rs)

    [IdentityKeyPair] and its upload signature, the pairwise fingerprint and
    the display codes.  P-256 (the p256 crate) and scrypt are parameters.
    Strings are byte strings. *)

From Stdlib Require Import String.
From S2P Require Import Prelude Ratchet.
#[local] Open Scope Z_scope.

Module Identity.

(** ** The p256 and scrypt crates *)
Class P256 := {
  signing_key : Type;
  signing_key_of_array : bytes -> option signing_key;
  signing_key_bytes : signing_key -> bytes;
  verifying_key_point : signing_key -> bytes;
  sign_der : signing_key -> bytes -> bytes;
}.

Class Scrypt := {
  scrypt_params : Type;
  scrypt_params_new : Z -> Z -> Z -> option scrypt_params;
  scrypt : bytes -> bytes -> scrypt_params -> nat -> option bytes;
}.

(** A private key is a scalar of 32 bytes, written back as it was read. *)
Class P256Laws (P : P256) : Prop := {
  signing_key_roundtrip : forall k, length (signing_key_bytes k) = 32%nat /\ signing_key_of_array (signing_key_bytes k) = Some k;
}.

(** ** Data *)
Definition DAVE_IDENTITY_KEY_VERSION : Z := 1.
Definition PAIRWISE_FINGERPRINT_BYTES : nat := 64.
Definition PAIRWISE_FINGERPRINT_DISPLAY_DIGITS : nat := 45.
Definition EPOCH_AUTHENTICATOR_DISPLAY_DIGITS : nat := 30.
Definition DISPLAY_CODE_GROUP_DIGITS : nat := 5.
Definition PAIRWISE_FINGERPRINT_VERSION : bytes := [0; 0].
Definition PAIRWISE_FINGERPRINT_SALT : bytes :=
  [0x24; 0xca; 0xb1; 0x7a; 0x7a; 0xf8; 0xec; 0x2b; 0x82; 0xb4; 0x12; 0xb9; 0x2d; 0xab; 0x19; 0x2e].
Definition PAIRWISE_FINGERPRINT_LOG_N : Z := 14.
Definition PAIRWISE_FINGERPRINT_R : Z := 8.
Definition PAIRWISE_FINGERPRINT_P : Z := 2.

Inductive IdentityKeyPersistence := Ephemeral | Persistent.

#[export] Instance IdentityKeyPersistence_eq_dec : EqDecision IdentityKeyPersistence.
Proof. solve_decision. Defined.

Record IdentityKeyPair := { private_key : bytes; public_key : bytes; persistence : IdentityKeyPersistence }.

Record IdentityPublicKeyUpload := { key_version : Z; upload_public_key : bytes; signature : bytes }.

Record IdentityPublicKey := { identity_user_id : Z; identity_public_key : bytes }.

Inductive SessionIdentity := EphemeralIdentity | KeyPair (k : IdentityKeyPair).

Inductive IdentityKeyError :=
| InvalidP256PrivateKey
| EphemeralPublicKeyUpload
| EmptyClientAuthSessionId
| MlsVectorTooLarge (value : Z).

Inductive FingerprintError := InvalidScryptParams | InvalidOutputLength.

Inductive DisplayableCodeError :=
| InvalidGroupSize (group_digits : nat)
| InvalidDigitCount (digit_count group_digits : nat)
| InputTooShort (actual required : nat).

(** ** Key pairs *)
Section KeyPairs.
Context `{P : P256}.

(** [generate], given the key that the random source yields *)
Definition generate (k : signing_key) (p : IdentityKeyPersistence) : IdentityKeyPair :=
  {| private_key := signing_key_bytes k; public_key := verifying_key_point k; persistence := p |}.

(** [SigningKey::from_bytes(slice.into())]: the conversion of a slice to the
    32-byte array of a field element panics if the length is another one. *)
Definition signing_key_from_slice (l : bytes) : res IdentityKeyError signing_key :=
  if (length l =? 32)%nat then ok_or InvalidP256PrivateKey (signing_key_of_array l) else Panic.

Definition from_p256_private_key (l : bytes) (p : IdentityKeyPersistence) : res IdentityKeyError IdentityKeyPair :=
  k ← signing_key_from_slice l;
  Ok {| private_key := l; public_key := verifying_key_point k; persistence := p |}.

Definition duplicate_for_session (k : IdentityKeyPair) : IdentityKeyPair :=
  {| private_key := private_key k; public_key := public_key k; persistence := persistence k |}.

Definition mls_varint (value : Z) : res IdentityKeyError bytes :=
  if value <? 0x40 then Ok [value]
  else if value <? 0x4000 then Ok (to_be 2 (Z.lor 0x4000 value))
  else if value <? 0x40000000 then Ok (to_be 4 (Z.lor 0x80000000 value))
  else Err (MlsVectorTooLarge value).

Definition SIGNATURE_LABEL : bytes := str_bytes "MLS 1.0 DiscordSelfSignature".

Definition persistent_public_key_signable_data (client_auth_session_id public_key : bytes) : res IdentityKeyError bytes :=
  match client_auth_session_id with
  | [] => Err EmptyClientAuthSessionId
  | _ =>
      let context := client_auth_session_id ++ [58] ++ public_key in
      len ← mls_varint (Z.of_nat (length context));
      Ok ([Z.of_nat (length SIGNATURE_LABEL)] ++ SIGNATURE_LABEL ++ len ++ context)
  end.

Definition persistent_public_key_upload (client_auth_session_id : bytes) (k : IdentityKeyPair) : res IdentityKeyError IdentityPublicKeyUpload :=
  if negb (bool_decide (persistence k = Persistent)) then Err EphemeralPublicKeyUpload
  else
    data ← persistent_public_key_signable_data client_auth_session_id (public_key k);
    sk ← signing_key_from_slice (private_key k);
    Ok {| key_version := DAVE_IDENTITY_KEY_VERSION; upload_public_key := public_key k; signature := sign_der sk data |}.
End KeyPairs.

(** ** Fingerprints *)

(** The order of byte vectors. *)
Fixpoint bytes_lt (a b : bytes) : bool :=
  match a, b with
  | _, [] => false
  | [], _ :: _ => true
  | x :: a, y :: b => (x <? y) || ((x =? y) && bytes_lt a b)
  end.

Definition pairwise_fingerprint_input (i : IdentityPublicKey) : bytes :=
  PAIRWISE_FINGERPRINT_VERSION ++ identity_public_key i ++ to_be 8 (identity_user_id i).

Definition passphrase (local remote : IdentityPublicKey) : bytes :=
  let a := pairwise_fingerprint_input local in
  let b := pairwise_fingerprint_input remote in
  if bytes_lt b a then b ++ a else a ++ b.

Definition pairwise_fingerprint `{Scrypt} (local remote : IdentityPublicKey) : res FingerprintError bytes :=
  params ← ok_or InvalidScryptParams (scrypt_params_new PAIRWISE_FINGERPRINT_LOG_N PAIRWISE_FINGERPRINT_R PAIRWISE_FINGERPRINT_P);
  ok_or InvalidOutputLength (scrypt (passphrase local remote) PAIRWISE_FINGERPRINT_SALT params PAIRWISE_FINGERPRINT_BYTES).

(** ** Display codes *)

(** [chunks_exact(n)]: the whole chunks of [n] elements. *)
Fixpoint chunks_exact (count n : nat) (l : bytes) : list bytes :=
  match count with O => [] | S count => take n l :: chunks_exact count n (drop n l) end.

(** The decimal digits of a number below [10 ^ fuel], without leading zeros. *)
Fixpoint decimal (fuel : nat) (v : Z) : bytes :=
  match fuel with
  | O => []
  | S fuel => (if v <? 10 then [] else decimal fuel (v / 10)) ++ [48 + v mod 10]
  end.

(** [format!("{:0width$}", v)] for a 64-bit number *)
Definition format_padded (width : nat) (v : Z) : bytes :=
  let d := decimal 20 v in replicate (width - length d) 48 ++ d.

(** [value << 8 | byte] on [u64] *)
Definition shift_in (value byte : Z) : Z := Z.lor (Z.shiftl value 8 mod u64_mod) byte.

Definition displayable_code (input : bytes) (digit_count group_digits : nat) : res DisplayableCodeError bytes :=
  if (group_digits =? 0)%nat || (8 <=? group_digits)%nat then Err (InvalidGroupSize group_digits)
  else if (digit_count =? 0)%nat || negb (digit_count mod group_digits =? 0)%nat then Err (InvalidDigitCount digit_count group_digits)
  else if (length input <? digit_count)%nat then Err (InputTooShort (length input) digit_count)
  else
    let modulus := 10 ^ Z.of_nat group_digits in
    used ← slice input 0 digit_count;
    Ok (concat ((fun chunk => format_padded group_digits (foldl shift_in 0 chunk mod modulus))
                <$> chunks_exact (digit_count / group_digits) group_digits used)).

Definition pairwise_fingerprint_display_code (fingerprint : bytes) : res DisplayableCodeError bytes :=
  displayable_code fingerprint PAIRWISE_FINGERPRINT_DISPLAY_DIGITS DISPLAY_CODE_GROUP_DIGITS.

Definition epoch_authenticator_display_code (authenticator : bytes) : res DisplayableCodeError bytes :=
  displayable_code authenticator EPOCH_AUTHENTICATOR_DISPLAY_DIGITS DISPLAY_CODE_GROUP_DIGITS.

(** ** Display codes are fixed-width decimal groups *)
Definition from_decimal (l : bytes) : Z := foldl (fun acc d => acc * 10 + (d - 48)) 0 l.

Definition is_digit (d : Z) : Prop := 48 <= d <= 57.

Lemma from_decimal_snoc l d : from_decimal (l ++ [d]) = from_decimal l * 10 + (d - 48).
Proof. unfold from_decimal. by rewrite foldl_app. Qed.

Lemma decimal_spec fuel v :
  0 <= v < 10 ^ Z.of_nat fuel -> (0 < fuel)%nat ->
  from_decimal (decimal fuel v) = v /\ Forall is_digit (decimal fuel v) /\ (1 <= length (decimal fuel v))%nat /\
  (forall w : nat, (0 < w)%nat -> v < 10 ^ Z.of_nat w -> (length (decimal fuel v) <= w)%nat).
Proof.
  revert v. induction fuel as [|fuel IH]; intros v Hv Hf; [lia|]. cbn [decimal].
  pose proof (Z.mod_pos_bound v 10 ltac:(lia)) as Hm.
  rewrite from_decimal_snoc, length_app. destruct (Z.ltb_spec v 10) as [Hlt|Hge].
  - rewrite Z.mod_small in * by lia. cbn. split; [lia|]. split; [repeat constructor; unfold is_digit; lia|]. split; intros; lia.
  - rewrite Nat2Z.inj_succ, Z.pow_succ_r in Hv by lia. assert (fuel <> O) by (intros ->; cbn in Hv; lia).
    assert (0 <= v / 10 < 10 ^ Z.of_nat fuel) as Hq.
    { split; [apply Z.div_pos; lia|]. apply Z.div_lt_upper_bound; lia. }
    destruct (IH (v / 10) Hq ltac:(lia)) as (-> & Hd & Hl & Hw). cbn. split; [pose proof (Z.div_mod v 10); lia|]. split.
    { apply Forall_app. split; [done|]. repeat constructor; unfold is_digit; lia. }
    split; [lia|]. intros [|[|w]] Hw0 Hvw; [lia|cbn in Hvw; lia|].
    assert (length (decimal fuel (v / 10)) <= S w)%nat; [|lia]. apply Hw; [lia|].
    rewrite Nat2Z.inj_succ, Z.pow_succ_r in Hvw by lia. apply Z.div_lt_upper_bound; lia.
Qed.

Lemma from_decimal_zeros n l : from_decimal (replicate n 48 ++ l) = from_decimal l.
Proof. unfold from_decimal. induction n as [|n IH]; [done|]. exact IH. Qed.

Lemma format_padded_spec width v :
  (0 < width < 20)%nat -> 0 <= v < 10 ^ Z.of_nat width ->
  length (format_padded width v) = width /\ Forall is_digit (format_padded width v) /\ from_decimal (format_padded width v) = v.
Proof.
  intros Hw Hv. unfold format_padded.
  assert (v < 10 ^ Z.of_nat 20) as H20.
  { eapply Z.lt_le_trans; [apply Hv|]. apply Z.pow_le_mono_r; lia. }
  destruct (decimal_spec 20 v) as (Hfrom & Hd & _ & Hl); [lia|lia|]. specialize (Hl width ltac:(lia) ltac:(lia)).
  rewrite length_app, length_replicate, from_decimal_zeros. split; [lia|]. split; [|done].
  apply Forall_app. split; [|done]. apply Forall_replicate. unfold is_digit. lia.
Qed.

Lemma shift_in_no_overflow acc l :
  0 <= acc -> all_bytes l -> (acc + 1) * 256 ^ Z.of_nat (length l) <= u64_mod ->
  foldl shift_in acc l = foldl (fun acc b => acc * 256 + b) acc l.
Proof.
  revert acc. induction l as [|b l IH]; intros acc Ha Hb Hx; [done|]. apply Forall_cons in Hb as [Hb Hl].
  cbn [length] in Hx. rewrite Nat2Z.inj_succ, Z.pow_succ_r in Hx by lia. unfold is_byte in Hb.
  pose proof (Z.pow_pos_nonneg 256 (Z.of_nat (length l)) ltac:(lia) ltac:(lia)).
  assert (shift_in acc b = acc * 256 + b) as Hs.
  { unfold shift_in. rewrite Z.mod_small by (rewrite Z.shiftl_mul_pow2 by lia; nia).
    rewrite Z.lor_comm, lor_shiftl_add by lia. lia. }
  cbn [foldl]. rewrite Hs. apply IH; [lia|done|nia].
Qed.

Lemma chunks_exact_lookup count n l i :
  (i < count)%nat -> chunks_exact count n l !! i = Some (take n (drop (i * n) l)).
Proof.
  revert l i. induction count as [|count IH]; intros l i Hi; [lia|]. destruct i as [|i]; [done|]. cbn [chunks_exact lookup list_lookup].
  rewrite IH by lia. rewrite drop_drop. by rewrite Nat.mul_succ_l, Nat.add_comm.
Qed.

Lemma length_chunks_exact count n l : length (chunks_exact count n l) = count.
Proof. revert l. induction count as [|count IH]; intros l; cbn; [done|]. by rewrite IH. Qed.

(** Display codes.  A code of [k] groups of [g] digits is computed for any
    input that is long enough, and never panics: group [i] is the [g]-digit
    decimal number of bytes [i * g .. i * g + g] of the input, read big-endian,
    modulo [10 ^ g]. *)
Theorem display_code_exact input k g :
  all_bytes input -> (0 < g < 8)%nat -> (0 < k)%nat -> (k * g <= length input)%nat ->
  exists groups, displayable_code input (k * g) g = Ok (concat groups) /\ length groups = k /\
    forall i grp, groups !! i = Some grp ->
      length grp = g /\ Forall is_digit grp /\ from_decimal grp = from_be (take g (drop (i * g) input)) mod 10 ^ Z.of_nat g.
Proof.
  intros Hb Hg Hk Hl. unfold displayable_code.
  rewrite (proj2 (Nat.eqb_neq g 0)), (proj2 (Nat.leb_gt 8 g)) by lia. cbn [orb].
  rewrite (proj2 (Nat.eqb_neq (k * g) 0)), Nat.Div0.mod_mul by nia. cbn [orb negb Nat.eqb].
  rewrite (proj2 (Nat.ltb_ge _ _)) by lia. rewrite slice_ok by lia. cbn [mbind res_mbind]. rewrite Nat.div_mul by lia.
  eexists. split; [reflexivity|]. split; [by rewrite length_fmap, length_chunks_exact|].
  intros i grp Hi. assert (i < k)%nat as Hik.
  { apply lookup_lt_Some in Hi. by rewrite length_fmap, length_chunks_exact in Hi. }
  rewrite list_lookup_fmap, chunks_exact_lookup in Hi by done. cbn in Hi. injection Hi as <-.
  set (chunk := take g (drop (i * g) input)).
  replace (take g (drop (i * g) (take (k * g - 0) (drop 0 input)))) with chunk.
  2: { unfold chunk. rewrite drop_0, Nat.sub_0_r, skipn_firstn_comm, take_take. f_equal. nia. }
  assert (length chunk = g) as Hc by (unfold chunk; rewrite length_take, length_drop; nia).
  assert (all_bytes chunk) as Hcb by (by apply Forall_take, Forall_drop).
  rewrite shift_in_no_overflow; [|lia|done|].
  2: { rewrite Hc. change u64_mod with (256 ^ 8). rewrite Z.mul_1_l. apply Z.pow_le_mono_r; lia. }
  fold (from_be chunk). apply format_padded_spec; [lia|]. apply Z.mod_pos_bound, Z.pow_pos_nonneg; lia.
Qed.

Lemma display_code_exact_witness :
  exists groups, displayable_code [1; 2; 3; 200; 5; 6] (2 * 3) 3 = Ok (concat groups) /\ length groups = 2%nat /\
    forall i grp, groups !! i = Some grp ->
      length grp = 3%nat /\ Forall is_digit grp /\ from_decimal grp = from_be (take 3 (drop (i * 3) [1; 2; 3; 200; 5; 6])) mod 10 ^ Z.of_nat 3.
Proof. apply display_code_exact; [solve_bytes|lia|lia|cbn; lia]. Defined.

(** ** Fingerprints are symmetric and bind both identities *)
Lemma bytes_lt_irrefl a : bytes_lt a a = false.
Proof. induction a as [|x a IH]; [done|]. cbn. by rewrite Z.ltb_irrefl, IH, andb_false_r. Qed.

Lemma bytes_lt_asym a b : bytes_lt a b = true -> bytes_lt b a = false.
Proof.
  revert b. induction a as [|x a IH]; intros [|y b]; try done. cbn. intros H.
  destruct (Z.ltb_spec x y), (Z.ltb_spec y x), (Z.eqb_spec x y), (Z.eqb_spec y x); cbn in *; try lia; try done; by apply IH.
Qed.

Lemma bytes_lt_total a b : bytes_lt a b = false -> bytes_lt b a = false -> a = b.
Proof.
  revert b. induction a as [|x a IH]; intros [|y b]; try done. cbn. intros H1 H2.
  destruct (Z.ltb_spec x y), (Z.ltb_spec y x), (Z.eqb_spec x y); cbn in *; try done; try lia. subst y. rewrite Z.eqb_refl in *. f_equal. by apply IH.
Qed.

Lemma passphrase_comm a b : passphrase a b = passphrase b a.
Proof.
  unfold passphrase. destruct (bytes_lt (pairwise_fingerprint_input b) _) eqn:H1, (bytes_lt (pairwise_fingerprint_input a) _) eqn:H2; try done.
  - by rewrite (bytes_lt_asym _ _ H1) in H2.
  - by rewrite (bytes_lt_total _ _ H1 H2).
Qed.

Definition identity_ok (n : nat) (i : IdentityPublicKey) : Prop := length (identity_public_key i) = n /\ is_u64 (identity_user_id i).

Lemma fingerprint_input_inj n a b :
  identity_ok n a -> identity_ok n b -> pairwise_fingerprint_input a = pairwise_fingerprint_input b -> a = b.
Proof.
  destruct a as [u k], b as [v l]. intros [Hk Hu] [Hl Hv] H. unfold pairwise_fingerprint_input in H.
  cbn [identity_public_key identity_user_id] in *. apply app_inv_head, app_inj_1 in H as [-> Hb]; [|lia].
  f_equal. apply (f_equal from_be) in Hb. unfold is_u64, u64_mod in *. rewrite !(from_to_be_small 8) in Hb by (cbn; lia). done.
Qed.

(** The pairwise fingerprint.  Both ends compute the same one, whatever their
    keys, and the passphrase it is derived from determines which two identities
    (user and public key, for keys of the same length) it is about. *)
Theorem fingerprint_binds_pair `{Scrypt} n a b c d :
  identity_ok n a -> identity_ok n b -> identity_ok n c -> identity_ok n d ->
  pairwise_fingerprint a b = pairwise_fingerprint b a /\
  (passphrase a b = passphrase c d <-> (a = c /\ b = d) \/ (a = d /\ b = c)).
Proof.
  intros Ha Hb Hc Hd. split; [unfold pairwise_fingerprint; by rewrite passphrase_comm|]. split.
  - assert (forall i, identity_ok n i -> length (pairwise_fingerprint_input i) = (n + 10)%nat) as Hlen.
    { intros i [Hi _]. unfold pairwise_fingerprint_input. rewrite !length_app, length_to_be, Hi. cbn. lia. }
    unfold passphrase. intros Hp. repeat case_match; apply app_inj_1 in Hp as [Hx Hy]; try (rewrite !Hlen by done; done);
      apply (fingerprint_input_inj n) in Hx; try done; apply (fingerprint_input_inj n) in Hy; try done; subst; auto.
  - intros [[-> ->]|[-> ->]]; [done|apply passphrase_comm].
Qed.

(** ** Key pairs *)
Section KeyPairFacts.
Context `{P : P256}.

(** Private keys of the wrong length.  [from_p256_private_key] has an error for
    private keys that are not valid, but a key that is not 32 bytes long makes
    it panic: the slice is converted to an array before it is looked at. *)
Theorem wrong_length_key_panics l p :
  length l ≠ 32%nat -> from_p256_private_key l p = Panic.
Proof. intros Hl. unfold from_p256_private_key, signing_key_from_slice. by rewrite (proj2 (Nat.eqb_neq _ _)). Qed.

Lemma lor_pow2 v n : 0 <= n -> 0 <= v < 2 ^ n -> Z.lor (2 ^ n) v = 2 ^ n + v.
Proof.
  intros Hn Hv. rewrite Z.lor_comm. pose proof (lor_shiftl_add v 1 n Hn Hv) as H. rewrite Z.shiftl_mul_pow2, Z.mul_1_l in H by done. lia.
Qed.

Lemma app_same_suffix_length {A} (a b c d : list A) : a ++ c = b ++ d -> length c = length d -> a = b /\ c = d.
Proof. intros H Hl. apply app_inj_2 in H; [done|done]. Qed.

(** What an upload signs.  A generated key that is persistent can always be
    uploaded for a session id of less than 2^29 bytes and a public key of less than 2^29, and the signed
    data determines the session id and the public key. *)
Lemma upload_signs {HP : P256Laws P} k id :
  id ≠ [] -> Z.of_nat (length id) < 2 ^ 29 -> Z.of_nat (length (verifying_key_point k)) < 2 ^ 29 ->
  exists data, persistent_public_key_signable_data id (verifying_key_point k) = Ok data /\
    persistent_public_key_upload id (generate k Persistent) =
      Ok {| key_version := DAVE_IDENTITY_KEY_VERSION; upload_public_key := verifying_key_point k; signature := sign_der k data |}.
Proof.
  intros Hid Hl Hk. unfold persistent_public_key_upload. cbn [persistence public_key private_key generate bool_decide decide_rel IdentityKeyPersistence_eq_dec negb].
  assert (exists data, persistent_public_key_signable_data id (verifying_key_point k) = Ok data) as [data Hd].
  { unfold persistent_public_key_signable_data. destruct id as [|x id]; [done|].
    match goal with |- context [mls_varint ?n] => assert (exists v, mls_varint n = Ok v) as [v ->] end.
    { unfold mls_varint. destruct (_ <? 0x40); [by eexists|]. destruct (_ <? 0x4000); [by eexists|].
      rewrite (proj2 (Z.ltb_lt _ _)); [by eexists|]. rewrite length_app in *. cbn [length app] in *. lia. }
    by eexists. }
  exists data. split; [done|]. rewrite Hd. unfold signing_key_from_slice. destruct (signing_key_roundtrip k) as [-> ->]. done.
Qed.

Lemma signable_data_inj id id' pk pk' data :
  length pk = length pk' ->
  persistent_public_key_signable_data id pk = Ok data -> persistent_public_key_signable_data id' pk' = Ok data -> id = id' /\ pk = pk'.
Proof.
  intros Hpk. unfold persistent_public_key_signable_data. destruct id as [|x id]; [done|]. destruct id' as [|y id']; [done|].
  set (c := (x :: id) ++ [58] ++ pk). set (c' := (y :: id') ++ [58] ++ pk').
  destruct (mls_varint (Z.of_nat (length c))) as [v|e|] eqn:Hv; [|done|done]. destruct (mls_varint (Z.of_nat (length c'))) as [v'|e|] eqn:Hv'; [|done|done].
  intros H1 H2. injection H1 as <-. injection H2 as H2.
  assert (length v' = length v /\ v' = v /\ c' = c) as (_ & -> & Hc).
  { assert (forall n l, 0 <= n -> mls_varint n = Ok l -> exists h t, l = h :: t /\
      length l = (if h <? 0x40 then 1%nat else if h <? 0x80 then 2%nat else 4%nat)) as Hhead.
    { clear. intros n l Hn. unfold mls_varint. destruct (Z.ltb_spec n 0x40).
      { intros [= <-]. exists n, []. split; [done|]. by rewrite (proj2 (Z.ltb_lt _ _)). }
      destruct (Z.ltb_spec n 0x4000).
      { intros [= <-]. do 2 eexists. split; [reflexivity|]. change 0x4000 with (2 ^ 14). rewrite lor_pow2 by lia.
        rewrite Z.shiftr_div_pow2 by lia. change (8 * Z.of_nat 1) with 8.
        assert (64 <= (2 ^ 14 + n) / 2 ^ 8 < 128) as Hh.
        { split; [apply Z.div_le_lower_bound; lia|apply Z.div_lt_upper_bound; lia]. }
        rewrite Z.mod_small by lia. rewrite (proj2 (Z.ltb_ge _ _)), (proj2 (Z.ltb_lt _ _)) by lia. done. }
      destruct (Z.ltb_spec n 0x40000000); [|done]. intros [= <-]. do 2 eexists. split; [reflexivity|].
      change 0x80000000 with (2 ^ 31). rewrite lor_pow2 by lia.
      rewrite Z.shiftr_div_pow2 by lia. change (8 * Z.of_nat 3) with 24.
      assert (128 <= (2 ^ 31 + n) / 2 ^ 24 < 256) as Hh.
      { split; [apply Z.div_le_lower_bound; lia|apply Z.div_lt_upper_bound; lia]. }
      rewrite Z.mod_small by lia. rewrite (proj2 (Z.ltb_ge _ _)), (proj2 (Z.ltb_ge _ _)) by lia. done. }
    destruct (Hhead _ _ (Nat2Z.is_nonneg _) Hv) as (h & t & -> & Hl). destruct (Hhead _ _ (Nat2Z.is_nonneg _) Hv') as (h' & t' & -> & Hl').
    assert (h' = h) as -> by (cbn in H2; congruence). assert (length (h :: t') = length (h :: t)) as Hlen by congruence.
    apply app_inj_1 in H2 as [-> ->]; done. }
  apply app_same_suffix_length in Hc as [-> Hs]; [by injection Hs as ->|]. cbn. lia.
Qed.
End KeyPairFacts.

(** ** Witnesses *)
Module IdentitySamples.
#[export] Instance sample_scrypt : Scrypt := {|
  scrypt_params := (); scrypt_params_new := fun _ _ _ => Some (); scrypt := fun p _ _ n => Some (take n (p ++ replicate n 0)) |}.

#[export] Instance sample_p256 : P256 := {|
  signing_key := Z; signing_key_of_array := fun l => Some (from_be l mod 2 ^ 256); signing_key_bytes := fun k => to_be 32 k;
  verifying_key_point := fun k => 4 :: to_be 32 k; sign_der := fun k m => to_be 32 k ++ m |}.

Definition alice : IdentityPublicKey := {| identity_user_id := 1; identity_public_key := [9] |}.
Definition bob : IdentityPublicKey := {| identity_user_id := 2; identity_public_key := [8] |}.

Lemma fingerprint_binds_pair_witness :
  pairwise_fingerprint alice bob = pairwise_fingerprint bob alice /\
  (passphrase alice bob = passphrase bob alice <-> (alice = bob /\ bob = alice) \/ (alice = alice /\ bob = bob)).
Proof. apply (fingerprint_binds_pair 1 alice bob bob alice); (split; [reflexivity|unfold is_u64, u64_mod; cbn; lia]). Defined.

Lemma wrong_length_key_panics_witness : from_p256_private_key [1; 2; 3] Persistent = Panic.
Proof. apply wrong_length_key_panics. vm_compute. discriminate. Defined.
End IdentitySamples.

End Identity.
