(* ===== verification/Session.v ===== *)
(** * The DAVE session (dave/src/session.rs)

    [Session]: the MLS group of a call, the media keys derived from it, and
    the operations the gateway messages drive.  The MLS library (openmls) and
    its key store are the parameter [Mls]; what DAVE accepts of an MLS group is
    MlsPolicy.v, the media cryptors are Cryptor.v.

    Each operation is a method on [&mut self] in the monad of Effects.v, so an
    operation that fails leaves the session as the source leaves it.  [now] is
    the reading of the clock at the call. *)

From Stdlib Require Import String Sorting.Sorted.
From S2P Require Import Prelude Effects Leb128 Codec Gcm Frame FrameCodec Ratchet Cryptor MlsPolicy Identity.
#[local] Open Scope Z_scope.
Import Cryptor.Sender Cryptor.Receiver Cryptor.Passthrough.
Import MlsPolicy.MlsPolicy.

Module Session.

(** ** The MLS library

    A [provider] is the key store with the source of randomness.  Operations of
    a group run on the group and the provider and leave both behind, also when
    they fail. *)
Inductive process_error (E : Type) := OwnCommit | OtherProcessError (e : E).
Arguments OwnCommit {E}.
Arguments OtherProcessError {E} e.

Inductive processed_content (Q C : Type) := ProposalMessage (q : Q) | StagedCommitMessage (c : C) | OtherContent.
Arguments ProposalMessage {Q C} q.
Arguments StagedCommitMessage {Q C} c.
Arguments OtherContent {Q C}.

Class Mls := {
  provider_t : Type; signer_t : Type; mls_group : Type; queued : Type; staged_commit : Type;
  staged_welcome : Type; welcome_t : Type; key_package_t : Type; lifetime_t : Type;
  message_in : Type; protocol_message : Type; message_out : Type; proposal_ref : Type; mls_error : Type;
  (* keys and storage *)
  provider_default : provider_t;
  storage_clear : provider_t -> option provider_t;
  signer_public : signer_t -> bytes;
  signer_from_raw : bytes -> bytes -> signer_t;
  (* encodings *)
  external_sender_decode : bytes -> mls_error + ExternalSender;
  lifetime_decode : bytes -> mls_error + lifetime_t;
  vlbytes_decode : bytes -> mls_error + bytes;
  message_decode : bytes -> mls_error + (message_in * bytes);
  message_decode_exact : bytes -> mls_error + message_in;
  try_into_protocol_message : message_in -> mls_error + protocol_message;
  message_group_id : protocol_message -> bytes;
  proposal_ref_decode : bytes -> mls_error + (proposal_ref * bytes);
  welcome_decode : bytes -> mls_error + welcome_t;
  message_serialize : message_out -> mls_error + bytes;
  welcome_body : message_out -> option welcome_t;
  welcome_serialize : welcome_t -> mls_error + bytes;
  key_package_serialize : key_package_t -> mls_error + bytes;
  (* what the session looks at *)
  queued_view : queued -> QueuedProposal;
  group_members : mls_group -> list Member;
  group_ciphersuite : mls_group -> Z;
  group_extensions : mls_group -> Extensions;
  own_leaf_index : mls_group -> Z;
  pending_proposals : mls_group -> list queued;
  group_pending_commit : mls_group -> option staged_commit;
  epoch_authenticator_of : mls_group -> bytes;
  staged_proposals : staged_commit -> list QueuedProposal;
  staged_update_path : staged_commit -> option LeafNode;
  staged_context : staged_commit -> GroupContext;
  welcome_context : staged_welcome -> GroupContext;
  welcome_members : staged_welcome -> list Member;
  (* operations *)
  key_package_build : Capabilities -> lifetime_t -> Z -> signer_t -> Credential * bytes -> provider_t -> (mls_error + key_package_t) * provider_t;
  external_senders_extension : list ExternalSender -> mls_error + Extensions;
  group_new : Extensions -> Z -> Capabilities -> signer_t -> bytes -> Credential * bytes -> provider_t -> (mls_error + mls_group) * provider_t;
  group_delete : mls_group -> provider_t -> (mls_error + ()) * provider_t;
  process_message : protocol_message -> mls_group -> provider_t ->
    (process_error mls_error + (Sender * processed_content queued staged_commit)) * mls_group * provider_t;
  store_pending_proposal : queued -> mls_group -> provider_t -> (mls_error + ()) * mls_group * provider_t;
  remove_pending_proposal : proposal_ref -> mls_group -> provider_t -> (mls_error + ()) * mls_group * provider_t;
  clear_pending_commit : mls_group -> provider_t -> (mls_error + ()) * mls_group * provider_t;
  commit_to_pending_proposals : signer_t -> mls_group -> provider_t -> (mls_error + (message_out * option message_out)) * mls_group * provider_t;
  merge_staged_commit : staged_commit -> mls_group -> provider_t -> (mls_error + ()) * mls_group * provider_t;
  merge_pending_commit : mls_group -> provider_t -> (mls_error + ()) * mls_group * provider_t;
  stage_welcome : welcome_t -> provider_t -> (mls_error + staged_welcome) * provider_t;
  into_group : staged_welcome -> provider_t -> (mls_error + mls_group) * provider_t;
  export_secret : mls_group -> bytes -> bytes -> nat -> mls_error + bytes;
}.

(** What the session relies on: a decoder consumes input, the in-memory key
    store can always delete (its lock is not poisoned), and proposals are pending in a group only if they
    were stored in it and until they are removed or a commit is merged. *)
Class MlsLaws (M : Mls) : Prop := {
  message_decode_consumes : forall l m rest, message_decode l = inr (m, rest) -> (length rest < length l)%nat;
  proposal_ref_decode_consumes : forall l p rest, proposal_ref_decode l = inr (p, rest) -> (length rest < length l)%nat;
  storage_clear_ok : forall p, exists p', storage_clear p = Some p';
  group_delete_ok : forall g p, exists p', group_delete g p = (inr (), p');
  group_new_pending : forall e c k s i cr p g p', group_new e c k s i cr p = (inr g, p') -> pending_proposals g = [];
  into_group_pending : forall w p g p', into_group w p = (inr g, p') -> pending_proposals g = [];
  process_message_pending : forall m g p r g' p', process_message m g p = (r, g', p') -> pending_proposals g' = pending_proposals g;
  store_pending : forall q g p r g' p', store_pending_proposal q g p = (r, g', p') ->
    forall x, x ∈ pending_proposals g' -> x ∈ pending_proposals g \/ x = q;
  remove_pending : forall q g p r g' p', remove_pending_proposal q g p = (r, g', p') -> pending_proposals g' ⊆ pending_proposals g;
  clear_commit_pending : forall g p r g' p', clear_pending_commit g p = (r, g', p') -> pending_proposals g' = pending_proposals g;
  commit_pending : forall s g p r g' p', commit_to_pending_proposals s g p = (r, g', p') -> pending_proposals g' ⊆ pending_proposals g;
  merge_staged_pending : forall c g p r g' p', merge_staged_commit c g p = (r, g', p') -> pending_proposals g' ⊆ pending_proposals g;
  merge_pending_pending : forall g p r g' p', merge_pending_commit g p = (r, g', p') -> pending_proposals g' ⊆ pending_proposals g;
}.

Definition USER_MEDIA_KEY_BASE_LABEL : bytes := str_bytes "Discord Secure Frames v0".

Inductive ProposalsOperation := Append | Revoke.

Inductive SessionStatus := Inactive | Pending | AwaitingInitialResponse | AwaitingCommit | Active.

#[export] Instance SessionStatus_eq_dec : EqDecision SessionStatus.
Proof. solve_decision. Defined.

Record CommitWelcome := { cw_commit : bytes; cw_welcome : option bytes }.

Inductive SessionGroupState := GroupPending | GroupEstablished.

#[export] Instance SessionGroupState_eq_dec : EqDecision SessionGroupState.
Proof. solve_decision. Defined.

Section Session.
Context `{P : RatchetPrimitives} `{A : FrameAead} `{M : Mls}.

Record SessionGroup := { sg_group : mls_group; sg_state : SessionGroupState }.

Definition group_is_pending (g : SessionGroup) : bool := bool_decide (sg_state g = GroupPending).
Definition group_is_established (g : SessionGroup) : bool := bool_decide (sg_state g = GroupEstablished).
Definition establish (g : SessionGroup) : SessionGroup := {| sg_group := sg_group g; sg_state := GroupEstablished |}.

Record Session := {
  capabilities : Capabilities;
  user_id : Z;
  channel_id : Z;
  provider : provider_t;
  ciphersuite : Z;
  group_id : bytes;
  signer : signer_t;
  credential_with_key : Credential * bytes;
  external_sender : option ExternalSender;
  group : option SessionGroup;
  status : SessionStatus;
  receive_ready : bool;
  sender : Encryptor;
  decryptors : gmap Z Decryptor;
  session_passthrough : PlaintextPassthrough;
  pending_commit : option bytes;
}.

(** ** Errors *)
Inductive SessionRatchetsError :=
| NoEstablishedGroup
| ExportSecret (e : mls_error)
| RatchetMemberCredential (e : CredentialPolicyError).

Inductive PendingGroupError := NoExternalSenderForGroup | AddExternalSender (e : mls_error) | CreateGroup (e : mls_error).

Inductive SetExternalSenderError :=
| SetAlreadyInGroup
| StoragePoisoned
| DeleteGroup (e : mls_error)
| DeserializeExternalSender (e : mls_error)
| SetPendingGroup (e : PendingGroupError).

Inductive CreateKeyPackageError := DeserializeLifetime (e : mls_error) | BuildKeyPackage (e : mls_error) | SerializeKeyPackage (e : mls_error).

(** The variants for proposals and commits that violate the policy are those
    of [ProposalPolicyError] and [CommitPolicyError]. *)
Inductive ProcessProposalsError :=
| ProposalsNoGroup
| DeserializeProposalVector (e : mls_error)
| DeserializeMessage (e : mls_error)
| ProposalNotPublicOrPrivate (e : mls_error)
| ProposalProcessMessage (e : process_error mls_error)
| MessageNotProposal
| ProposalPolicy (e : ProposalPolicyError)
| StorePendingProposal (e : mls_error)
| DeserializeProposalRef (e : mls_error)
| RemovePendingProposal (e : mls_error)
| ClearPendingCommit (e : mls_error)
| CommitPendingProposals (e : mls_error)
| SerializeCommit (e : mls_error)
| SerializeWelcome (e : mls_error).

Inductive ProcessWelcomeError :=
| WelcomeAlreadyInGroup
| WelcomeNoExternalSender
| DeserializeWelcome (e : mls_error)
| StageWelcome (e : mls_error)
| WelcomeGroupPolicy (e : GroupPolicyError)
| DeletePendingGroup (e : mls_error)
| WelcomeUpdateRatchets (e : SessionRatchetsError).

Inductive ProcessCommitError :=
| CommitNoGroup
| CommitNoExternalSender
| CommitPendingGroup
| DeserializeCommit (e : mls_error)
| CommitNotPublicOrPrivate (e : mls_error)
| WrongGroup
| UnexpectedOwnCommit
| CommitPolicy (e : CommitPolicyError)
| MergePendingCommit (e : mls_error)
| MergeStagedCommit (e : mls_error)
| CommitProcessMessage (e : mls_error)
| MessageNotStagedCommit
| CommitUpdateRatchets (e : SessionRatchetsError).

Inductive DecryptError := NoDecryptorForUser (user : Z) | FrameError (e : FrameDecryptError).

(** ** Updates of single fields *)
Definition with_group (g : option SessionGroup) (p : provider_t) (s : Session) : Session :=
  {| capabilities := capabilities s; user_id := user_id s; channel_id := channel_id s; provider := p; ciphersuite := ciphersuite s;
     group_id := group_id s; signer := signer s; credential_with_key := credential_with_key s; external_sender := external_sender s;
     group := g; status := status s; receive_ready := receive_ready s; sender := sender s; decryptors := decryptors s;
     session_passthrough := session_passthrough s; pending_commit := pending_commit s |}.

Definition with_external_sender (e : option ExternalSender) (s : Session) : Session :=
  {| capabilities := capabilities s; user_id := user_id s; channel_id := channel_id s; provider := provider s; ciphersuite := ciphersuite s;
     group_id := group_id s; signer := signer s; credential_with_key := credential_with_key s; external_sender := e;
     group := group s; status := status s; receive_ready := receive_ready s; sender := sender s; decryptors := decryptors s;
     session_passthrough := session_passthrough s; pending_commit := pending_commit s |}.

Definition with_status (x : SessionStatus) (s : Session) : Session :=
  {| capabilities := capabilities s; user_id := user_id s; channel_id := channel_id s; provider := provider s; ciphersuite := ciphersuite s;
     group_id := group_id s; signer := signer s; credential_with_key := credential_with_key s; external_sender := external_sender s;
     group := group s; status := x; receive_ready := receive_ready s; sender := sender s; decryptors := decryptors s;
     session_passthrough := session_passthrough s; pending_commit := pending_commit s |}.

Definition with_pending_commit (x : option bytes) (s : Session) : Session :=
  {| capabilities := capabilities s; user_id := user_id s; channel_id := channel_id s; provider := provider s; ciphersuite := ciphersuite s;
     group_id := group_id s; signer := signer s; credential_with_key := credential_with_key s; external_sender := external_sender s;
     group := group s; status := status s; receive_ready := receive_ready s; sender := sender s; decryptors := decryptors s;
     session_passthrough := session_passthrough s; pending_commit := x |}.

(** The fields of the media transform. *)
Definition with_media (ready : bool) (e : Encryptor) (ds : gmap Z Decryptor) (p : PlaintextPassthrough) (s : Session) : Session :=
  {| capabilities := capabilities s; user_id := user_id s; channel_id := channel_id s; provider := provider s; ciphersuite := ciphersuite s;
     group_id := group_id s; signer := signer s; credential_with_key := credential_with_key s; external_sender := external_sender s;
     group := group s; status := status s; receive_ready := ready; sender := e; decryptors := ds;
     session_passthrough := p; pending_commit := pending_commit s |}.

Definition with_decryptors (ds : gmap Z Decryptor) (s : Session) : Session :=
  with_media (receive_ready s) (sender s) ds (session_passthrough s) s.

Definition with_sender (e : Encryptor) (s : Session) : Session :=
  with_media (receive_ready s) e (decryptors s) (session_passthrough s) s.

(** ** Calls to the library *)
Definition library {E B} (f : mls_error -> E) (r : mls_error + B) : st Session E B :=
  lift (match r with inr b => Ok b | inl e => Err (f e) end).

(** An operation on the key store. *)
Definition on_provider {E B} (f : mls_error -> E) (op : provider_t -> (mls_error + B) * provider_t) : st Session E B :=
  fun s => let '(r, p) := op (provider s) in
           (match r with inr b => Ok b | inl e => Err (f e) end, with_group (group s) p s).

(** An operation on the group that [self.group] holds; the caller has borrowed
    it. *)
Definition on_group {E R} (op : mls_group -> provider_t -> R * mls_group * provider_t) : st Session E R :=
  fun s => match group s with
           | None => (Panic, s)
           | Some g => let '(r, g', p) := op (sg_group g) (provider s) in
                       (Ok r, with_group (Some {| sg_group := g'; sg_state := sg_state g |}) p s)
           end.

Definition try_group {E B} (f : mls_error -> E) (op : mls_group -> provider_t -> (mls_error + B) * mls_group * provider_t) : st Session E B :=
  r ← on_group op; library f r.

Definition the_group {E} : st Session E mls_group :=
  fun s => match group s with None => (Panic, s) | Some g => (Ok (sg_group g), s) end.

(** [self.group.as_ref().is_some_and(SessionGroup::is_established)] *)
Definition in_established_group (s : Session) : bool := match group s with Some g => group_is_established g | None => false end.

(** [if let Some(mut group) = self.group.take() { group.group.delete(..)? }] *)
Definition take_and_delete_group {E} (f : mls_error -> E) : st Session E () :=
  g ← gets group;
  match g with
  | None => mret ()
  | Some g => _ ← modify (fun s => with_group None (provider s) s); on_provider f (group_delete (sg_group g))
  end.

(** ** Operations *)

(** [new], given the signer that the identity or the random source yields *)
Definition session_new (now : Z) (k : signer_t) (self_user_id channel : Z) : Session :=
  {| capabilities := supported_capabilities; user_id := self_user_id; channel_id := channel; provider := provider_default;
     ciphersuite := supported_ciphersuite; group_id := to_be 8 channel; signer := k;
     credential_with_key :=
       ({| credential_type := CREDENTIAL_BASIC; serialized_content := to_be 8 self_user_id |}, signer_public k);
     external_sender := None; group := None; status := Inactive; receive_ready := false; sender := default_encryptor;
     decryptors := ∅; session_passthrough := disabled now; pending_commit := None |}.

(** The signer of [new]: a fresh key pair, or the keys of the identity *)
Definition identity_signer (fresh : mls_error + signer_t) (i : Identity.SessionIdentity) : mls_error + signer_t :=
  match i with
  | Identity.EphemeralIdentity => fresh
  | Identity.KeyPair k => inr (signer_from_raw (Identity.private_key k) (Identity.public_key k))
  end.

Definition reset_media_transform_state (now : Z) (s : Session) : Session :=
  with_media false (reset_encryptor (sender s)) ∅ (disabled now) s.

Definition session_reset (now : Z) : st Session SetExternalSenderError () :=
  _ ← take_and_delete_group DeleteGroup;
  p ← gets provider;
  p' ← lift (ok_or StoragePoisoned (storage_clear p));
  _ ← modify (fun s => with_group (group s) p' s);
  _ ← modify (with_status Inactive);
  _ ← modify (reset_media_transform_state now);
  modify (with_pending_commit None).

Definition create_pending_group : st Session PendingGroupError () :=
  s ← gets id;
  e ← lift (ok_or NoExternalSenderForGroup (external_sender s));
  ext ← library AddExternalSender (external_senders_extension [e]);
  g ← on_provider CreateGroup (group_new ext (ciphersuite s) (capabilities s) (signer s) (group_id s) (credential_with_key s));
  _ ← modify (fun s => with_group (Some {| sg_group := g; sg_state := GroupPending |}) (provider s) s);
  modify (with_status Pending).

Definition set_external_sender (l : bytes) : st Session SetExternalSenderError () :=
  established ← gets in_established_group;
  if (established : bool) then throw SetAlreadyInGroup
  else
    _ ← take_and_delete_group DeleteGroup;
    e ← library DeserializeExternalSender (external_sender_decode l);
    _ ← modify (with_external_sender (Some e));
    _ ← modify (with_pending_commit None);
    try_err SetPendingGroup create_pending_group.

Definition KEY_PACKAGE_LIFETIME : bytes := replicate 8 0 ++ replicate 8 0xff.

Definition create_key_package : st Session CreateKeyPackageError bytes :=
  lifetime ← library DeserializeLifetime (lifetime_decode KEY_PACKAGE_LIFETIME);
  s ← gets id;
  k ← on_provider BuildKeyPackage (key_package_build (capabilities s) lifetime (ciphersuite s) (signer s) (credential_with_key s));
  library SerializeKeyPackage (key_package_serialize k).

(** The loop of [Append]: decode, process and check every proposal; the fuel is
    the length of the input. *)
Fixpoint validate_proposals (fuel : nat) (expected : Z -> bool) (remaining : bytes) (adds : bool) (validated : list queued)
    : st Session ProcessProposalsError (bool * list queued) :=
  match remaining with
  | [] => mret (adds, validated)
  | _ =>
      match fuel with
      | O => lift Panic
      | S fuel =>
          '(message, rest) ← library DeserializeMessage (message_decode remaining);
          m ← library ProposalNotPublicOrPrivate (try_into_protocol_message message);
          r ← on_group (process_message m);
          processed ← lift (match r with inr x => Ok x | inl e => Err (ProposalProcessMessage e) end);
          match processed.2 with
          | ProposalMessage q =>
              is_add ← lift (map_err ProposalPolicy (validate_gateway_proposal (queued_view q) expected));
              validate_proposals fuel expected rest (adds || is_add) (validated ++ [q])
          | _ => throw MessageNotProposal
          end
      end
  end.

Fixpoint store_proposals (l : list queued) : st Session ProcessProposalsError () :=
  match l with
  | [] => mret ()
  | q :: l => _ ← try_group StorePendingProposal (store_pending_proposal q); store_proposals l
  end.

(** The loop of [Revoke]. *)
Fixpoint revoke_proposals (fuel : nat) (remaining : bytes) : st Session ProcessProposalsError () :=
  match remaining with
  | [] => mret ()
  | _ =>
      match fuel with
      | O => lift Panic
      | S fuel =>
          '(ref, rest) ← library DeserializeProposalRef (proposal_ref_decode remaining);
          _ ← try_group RemovePendingProposal (remove_pending_proposal ref);
          revoke_proposals fuel rest
      end
  end.

(** [process_proposals] up to the [match] on the operation: whether this call
    adds members. *)
Definition apply_proposals (op : ProposalsOperation) (proposals : bytes) (expected : Z -> bool) : st Session ProcessProposalsError bool :=
  match op with
  | Append =>
      '(adds, validated) ← validate_proposals (length proposals) expected proposals false [];
      _ ← store_proposals validated;
      mret adds
  | Revoke => _ ← revoke_proposals (length proposals) proposals; mret false
  end.

(** The rest of [process_proposals]: commit to what is pending. *)
Definition commit_pending_proposals (group_was_established commit_adds_members : bool) : st Session ProcessProposalsError (option CommitWelcome) :=
  g ← the_group;
  match pending_proposals g with
  | [] =>
      _ ← try_group ClearPendingCommit clear_pending_commit;
      _ ← modify (with_pending_commit None);
      _ ← modify (fun s => with_status (match status s with
                                        | AwaitingCommit => Active
                                        | AwaitingInitialResponse => Pending
                                        | x => x end) s);
      mret None
  | _ =>
      _ ← (if is_some (group_pending_commit g)
           then _ ← try_group ClearPendingCommit clear_pending_commit; modify (with_pending_commit None)
           else mret ());
      s ← gets id;
      '(commit, welcome) ← try_group CommitPendingProposals (commit_to_pending_proposals (signer s));
      _ ← modify (with_status (if group_was_established then AwaitingCommit else AwaitingInitialResponse));
      commit ← library SerializeCommit (message_serialize commit);
      _ ← modify (with_pending_commit (Some commit));
      match commit_adds_members, welcome with
      | true, Some w =>
          match welcome_body w with
          | None => mret (Some {| cw_commit := commit; cw_welcome := None |})
          | Some w => w ← library SerializeWelcome (welcome_serialize w); mret (Some {| cw_commit := commit; cw_welcome := Some w |})
          end
      | _, _ => mret (Some {| cw_commit := commit; cw_welcome := None |})
      end
  end.

Definition process_proposals (op : ProposalsOperation) (proposals : bytes) (expected : Z -> bool)
    : st Session ProcessProposalsError (option CommitWelcome) :=
  g ← gets group;
  g ← lift (ok_or ProposalsNoGroup g);
  l ← library DeserializeProposalVector (vlbytes_decode proposals);
  commit_adds_members ← apply_proposals op l expected;
  commit_pending_proposals (group_is_established g) commit_adds_members.

(** [key_ratchet]: the 16-byte secret of a user's sender ratchet. *)
Definition key_ratchet (u : Z) (s : Session) : res SessionRatchetsError HashRatchet.HashRatchet :=
  match group s with
  | None => Err NoEstablishedGroup
  | Some g =>
      if negb (group_is_established g) then Err NoEstablishedGroup
      else match export_secret (sg_group g) USER_MEDIA_KEY_BASE_LABEL (to_le 8 u) 16 with
           | inr secret => Ok (HashRatchet.new secret)
           | inl e => Err (ExportSecret e)
           end
  end.

(** The loop over the members: a decryptor with the new ratchet for everyone
    but the session's own user. *)
Fixpoint install_ratchets (now : Z) (ms : list Member) (current : gset Z) : st Session SessionRatchetsError (gset Z) :=
  match ms with
  | [] => mret current
  | m :: ms =>
      u ← lift (map_err RatchetMemberCredential (credential_user_id (member_credential m)));
      s ← gets id;
      _ ← (if u =? user_id s then mret ()
           else
             r ← lift (key_ratchet u s);
             let d := match decryptors s !! u with
                      | Some d => d
                      | None => with_plaintext_passthrough now (from_until (until (session_passthrough s)))
                      end in
             modify (with_decryptors (<[u := transition_to_ratchet now r d]> (decryptors s))));
      install_ratchets now ms ({[u]} ∪ current)
  end.

Definition update_receive_ratchets_and_stage_sender (now : Z) : st Session SessionRatchetsError () :=
  g ← gets group;
  g ← lift (ok_or NoEstablishedGroup g);
  if negb (group_is_established g) then throw NoEstablishedGroup
  else
    current ← install_ratchets now (group_members (sg_group g)) ∅;
    _ ← modify (fun s => with_decryptors (filter (fun e => e.1 ∈ current) (decryptors s)) s);
    s ← gets id;
    r ← lift (key_ratchet (user_id s) s);
    modify (fun s => with_media true (stage_ratchet r (sender s)) (decryptors s) (session_passthrough s) s).

Definition activate_established_group (now : Z) : st Session SessionRatchetsError () :=
  _ ← modify (with_status Active);
  update_receive_ratchets_and_stage_sender now.

Definition process_welcome (now : Z) (welcome : bytes) : st Session ProcessWelcomeError () :=
  established ← gets in_established_group;
  if (established : bool) then throw WelcomeAlreadyInGroup
  else
    e ← gets external_sender;
    e ← lift (ok_or WelcomeNoExternalSender e);
    w ← library DeserializeWelcome (welcome_decode welcome);
    staged ← on_provider StageWelcome (stage_welcome w);
    _ ← lift (map_err WelcomeGroupPolicy (validate_group_context_policy (welcome_context staged) e));
    _ ← lift (map_err WelcomeGroupPolicy (validate_group_member_policy (welcome_members staged)));
    g ← on_provider StageWelcome (into_group staged);
    _ ← lift (map_err WelcomeGroupPolicy (validate_group_policy (group_ciphersuite g) (group_extensions g) (group_members g) e));
    _ ← take_and_delete_group DeletePendingGroup;
    _ ← modify (fun s => with_group (Some {| sg_group := g; sg_state := GroupEstablished |}) (provider s) s);
    _ ← modify (with_pending_commit None);
    try_err WelcomeUpdateRatchets (activate_established_group now).

Definition validate_staged (g : mls_group) (gateway : ExternalSender) (from : Sender) (c : staged_commit) : res ProcessCommitError () :=
  map_err CommitPolicy (validate_staged_commit (group_members g) gateway from (staged_proposals c) (staged_update_path c) (staged_context c)).

(** The inner block of [process_commit]: process and merge the commit. *)
Definition merge_commit (e : ExternalSender) (commit : bytes) (pending_commit_matches : bool) : st Session ProcessCommitError () :=
  message ← library DeserializeCommit (message_decode_exact commit);
  m ← library CommitNotPublicOrPrivate (try_into_protocol_message message);
  id ← gets group_id;
  if negb (bool_decide (message_group_id m = id)) then throw WrongGroup
  else
    r ← on_group (process_message m);
    match r with
    | inr (from, content) =>
        match content with
        | StagedCommitMessage c =>
            g ← the_group;
            _ ← lift (validate_staged g e from c);
            try_group MergeStagedCommit (merge_staged_commit c)
        | _ => throw MessageNotStagedCommit
        end
    | inl OwnCommit =>
        if negb pending_commit_matches then throw UnexpectedOwnCommit
        else
          g ← the_group;
          _ ← match group_pending_commit g with
              | Some c => lift (validate_staged g e (SenderMember (own_leaf_index g)) c)
              | None => mret ()
              end;
          try_group MergePendingCommit merge_pending_commit
    | inl (OtherProcessError x) => throw (CommitProcessMessage x)
    end.

Definition process_commit (now : Z) (commit : bytes) : st Session ProcessCommitError () :=
  s ← gets id;
  g ← lift (ok_or CommitNoGroup (group s));
  e ← lift (ok_or CommitNoExternalSender (external_sender s));
  let was_pending := group_is_pending g in
  if was_pending && bool_decide (status s = Pending) then throw CommitPendingGroup
  else
    _ ← merge_commit e commit (bool_decide (pending_commit s = Some commit));
    _ ← modify (with_pending_commit None);
    _ ← (if was_pending then modify (fun s => with_group (establish <$> group s) (provider s) s) else mret ());
    g ← gets group;
    _ ← match g with
        | Some g => lift (map_err (fun x => CommitPolicy (CommitGroupPolicy x))
                            (validate_group_policy (group_ciphersuite (sg_group g)) (group_extensions (sg_group g)) (group_members (sg_group g)) e))
        | None => mret ()
        end;
    try_err CommitUpdateRatchets (activate_established_group now).

Definition activate_staged_sender (s : Session) : bool * Session :=
  let '(b, e) := activate_pending (sender s) in (b, with_sender e s).

Definition set_passthrough_mode (now : Z) (mode : PassthroughMode) (s : Session) : Session :=
  with_media (receive_ready s) (sender s) (transition_to_passthrough now mode <$> decryptors s) (apply now mode (session_passthrough s)) s.

Definition session_encrypt_into (c : MediaCodec) (frame : bytes) : st Session EncryptError bytes :=
  fun s => let '(r, e) := encrypt_into c frame (sender s) in (r, with_sender e s).

Definition session_decrypt_into (now u : Z) (mt : MediaType) (frame : bytes) : st Session DecryptError bytes :=
  fun s => match decryptors s !! u with
           | None => (Err (NoDecryptorForUser u), s)
           | Some d => let '(r, d) := decrypt now mt frame d in
                       (map_err FrameError r, with_decryptors (<[u := d]> (decryptors s)) s)
           end.

(** ** Verification *)
Inductive VerificationError := VerifyNoEstablishedGroup | VerifyMemberCredential (e : CredentialPolicyError).

Definition established_group_for_verification (s : Session) : res VerificationError mls_group :=
  match group s with
  | Some g => if group_is_established g then Ok (sg_group g) else Err VerifyNoEstablishedGroup
  | None => Err VerifyNoEstablishedGroup
  end.

Definition local_identity_public_key (s : Session) : Identity.IdentityPublicKey :=
  {| Identity.identity_user_id := user_id s; Identity.identity_public_key := signer_public (signer s) |}.

Fixpoint member_identities (ms : list Member) : res VerificationError (list Identity.IdentityPublicKey) :=
  match ms with
  | [] => Ok []
  | m :: ms =>
      u ← map_err VerifyMemberCredential (credential_user_id (member_credential m));
      l ← member_identities ms;
      Ok ({| Identity.identity_user_id := u; Identity.identity_public_key := member_signature_key m |} :: l)
  end.

Definition participant_identity_public_keys (s : Session) : res VerificationError (list Identity.IdentityPublicKey) :=
  g ← established_group_for_verification s; member_identities (group_members g).

Definition epoch_authenticator (s : Session) : res VerificationError bytes :=
  g ← established_group_for_verification s; Ok (epoch_authenticator_of g).

(** ** Symbolic execution of the library calls *)
Lemma wp_library {E B} (f : mls_error -> E) (r : mls_error + B) (Q : B -> Session -> Prop) (R : E -> Session -> Prop) s :
  (forall b, r = inr b -> Q b s) -> (forall e, r = inl e -> R (f e) s) -> wp (library f r) Q R s.
Proof. unfold library. intros HQ HR. apply wp_lift. destruct r; auto. Qed.

Lemma wp_on_provider {E B} (f : mls_error -> E) op (Q : B -> Session -> Prop) (R : E -> Session -> Prop) s :
  (forall b p, op (provider s) = (inr b, p) -> Q b (with_group (group s) p s)) ->
  (forall e p, op (provider s) = (inl e, p) -> R (f e) (with_group (group s) p s)) -> wp (on_provider f op) Q R s.
Proof. unfold wp, on_provider. intros HQ HR. destruct (op (provider s)) as [[e|b] p]; auto. Qed.

Lemma wp_on_group {E B} op (Q : B -> Session -> Prop) (R : E -> Session -> Prop) s g :
  group s = Some g ->
  (forall r g' p, op (sg_group g) (provider s) = (r, g', p) -> Q r (with_group (Some {| sg_group := g'; sg_state := sg_state g |}) p s)) ->
  wp (on_group op) Q R s.
Proof. unfold wp, on_group. intros -> HQ. destruct (op _ _) as [[r g'] p]. by apply HQ. Qed.

Lemma wp_try_group {E B} (f : mls_error -> E) op (Q : B -> Session -> Prop) (R : E -> Session -> Prop) s g :
  group s = Some g ->
  (forall r g' p, op (sg_group g) (provider s) = (r, g', p) ->
     let s' := with_group (Some {| sg_group := g'; sg_state := sg_state g |}) p s in
     match r with inr b => Q b s' | inl e => R (f e) s' end) ->
  wp (try_group f op) Q R s.
Proof.
  intros Hg H. unfold try_group. apply wp_bind. eapply wp_on_group; [exact Hg|]. intros r g' p Hop.
  apply wp_library; intros x ->; exact (H _ _ _ Hop).
Qed.

Lemma wp_the_group {E} (Q : mls_group -> Session -> Prop) (R : E -> Session -> Prop) s g :
  group s = Some g -> Q (sg_group g) s -> wp the_group Q R s.
Proof. unfold wp, the_group. by intros ->. Qed.

(** ** The invariant of a session *)

(** A proposal the session may commit to: an addition with an allowed leaf or a
    removal, sent by the gateway. *)
Definition vetted (p : QueuedProposal) : Prop :=
  proposal_sender p = SenderExternal 0 /\
  match proposal p with Add leaf => leaf_allowed leaf | Remove _ => True | OtherProposal => False end.

Definition group_vetted (g : mls_group) : Prop := forall q, q ∈ pending_proposals g -> vetted (queued_view q).

Record session_inv (s : Session) : Prop := {
  inv_active : status s = Active \/ status s = AwaitingCommit -> in_established_group s = true;
  inv_pending : forall g, group s = Some g -> sg_state g = GroupPending -> status s = Pending \/ status s = AwaitingInitialResponse;
  inv_media : receive_ready s = true \/ decryptors s ≠ ∅ -> in_established_group s = true;
  inv_sender : ready (sender s) = true \/ is_some (pending_ratchet (sender s)) = true -> receive_ready s = true;
  inv_self : decryptors s !! user_id s = None;
  inv_vetted : forall g, group s = Some g -> group_vetted (sg_group g);
}.

(** The session holds a group in the given state. *)
Definition in_group (x : SessionGroupState) (s : Session) : Prop := exists g, group s = Some g /\ sg_state g = x.

Lemma in_established_iff s : in_established_group s = true <-> in_group GroupEstablished s.
Proof.
  unfold in_established_group, in_group, group_is_established. destruct (group s) as [g|]; [|split; [done|naive_solver]].
  rewrite bool_decide_eq_true. naive_solver.
Qed.

Lemma session_inv_new now k u c : session_inv (session_new now k u c).
Proof. constructor; cbn; try done; naive_solver. Qed.

(** Replacing the group by what a library call leaves of it. *)
Lemma inv_with_group s g g' p :
  session_inv s -> group s = Some g -> group_vetted g' ->
  let s' := with_group (Some {| sg_group := g'; sg_state := sg_state g |}) p s in
  session_inv s' /\ in_group (sg_state g) s'.
Proof.
  intros [Ha Hp Hm Hs Hself Hv] Hg Hg'. cbn zeta. split; [|by eexists]. unfold in_established_group, group_is_established in *. rewrite Hg in *.
  constructor; cbn; [done| |done|done|done|].
  - intros ? [= <-] E. by apply (Hp g).
  - by intros ? [= <-].
Qed.

(** Replacing the provider only. *)
Lemma inv_with_provider s p : session_inv s -> session_inv (with_group (group s) p s).
Proof. by intros [Ha Hp Hm Hs Hself Hv]. Qed.

Lemma inv_with_pending_commit s x : session_inv s -> session_inv (with_pending_commit x s).
Proof. by intros [Ha Hp Hm Hs Hself Hv]. Qed.

Context {HM : MlsLaws M}.

(** *** Proposals *)
Definition inv_in (x : SessionGroupState) (s : Session) : Prop := session_inv s /\ in_group x s.

Lemma inv_in_group s g g' p :
  inv_in (sg_state g) s -> group s = Some g -> (group_vetted (sg_group g) -> group_vetted g') ->
  inv_in (sg_state g) (with_group (Some {| sg_group := g'; sg_state := sg_state g |}) p s).
Proof. intros [Hi _] Hg Hv. apply inv_with_group; [done|done|]. apply Hv. by apply (inv_vetted s Hi). Qed.

Lemma group_vetted_sub g g' : pending_proposals g' ⊆ pending_proposals g -> group_vetted g -> group_vetted g'.
Proof. intros Hs Hg q Hq. by apply Hg, Hs. Qed.

Lemma process_message_vetted m g p r g' p' : process_message m g p = (r, g', p') -> group_vetted g -> group_vetted g'.
Proof. intros H. apply group_vetted_sub. by rewrite (process_message_pending _ _ _ _ _ _ H). Qed.

Lemma validate_proposals_ok fuel expected remaining adds validated x s :
  (length remaining <= fuel)%nat -> inv_in x s -> Forall (fun q => vetted (queued_view q)) validated ->
  wp (validate_proposals fuel expected remaining adds validated)
     (fun r s' => inv_in x s' /\ Forall (fun q => vetted (queued_view q)) r.2) (fun _ s' => inv_in x s') s.
Proof.
  revert remaining adds validated s. induction fuel as [|fuel IH]; intros remaining adds validated s Hf Hi Hv.
  all: destruct remaining as [|b remaining]; [done|]; cbn [validate_proposals].
  { cbn in Hf. lia. }
  apply wp_bind, wp_library; [|done]. intros [m rest] Hm. apply wp_bind, wp_library; [|done]. intros pm _.
  apply message_decode_consumes in Hm. destruct (proj2 Hi) as (g & Hg & <-). apply wp_bind. eapply wp_on_group; [exact Hg|]. intros r g' p Hop.
  pose proof (inv_in_group s g g' p Hi Hg (process_message_vetted _ _ _ _ _ _ Hop)) as Hi'. apply wp_bind, wp_lift.
  destruct r as [e|[from content]]; [done|]. destruct content as [q|c|]; cbn [snd]; [|by apply wp_throw|by apply wp_throw].
  apply wp_bind, wp_lift. destruct (validate_gateway_proposal (queued_view q) expected) as [is_add|e|] eqn:Hq; cbn [map_err].
  - apply IH; [cbn in *; lia|done|]. apply Forall_app. split; [done|]. repeat constructor; apply gateway_proposal_iff in Hq as [? Hq]; [done|].
    destruct (proposal _); naive_solver.
  - done.
  - pose proof (gateway_proposal_safe (queued_view q) expected) as Hs. by rewrite Hq in Hs.
Qed.

Lemma store_proposals_ok l x s :
  inv_in x s -> Forall (fun q => vetted (queued_view q)) l ->
  wp (store_proposals l) (fun _ s' => inv_in x s') (fun _ s' => inv_in x s') s.
Proof.
  revert s. induction l as [|q l IH]; intros s Hi Hl; [done|]. apply Forall_cons in Hl as [Hq Hl]. cbn [store_proposals].
  destruct (proj2 Hi) as (g & Hg & <-). apply wp_bind. eapply wp_try_group; [exact Hg|]. intros r g' p Hop.
  assert (inv_in (sg_state g) (with_group (Some {| sg_group := g'; sg_state := sg_state g |}) p s)) as Hi'.
  { apply inv_in_group; [done|done|]. intros Hv y Hy. destruct (store_pending _ _ _ _ _ _ Hop y Hy) as [?| ->]; [by apply Hv|done]. }
  destruct r; [done|]. by apply IH.
Qed.

Lemma revoke_proposals_ok fuel remaining x s :
  (length remaining <= fuel)%nat -> inv_in x s ->
  wp (revoke_proposals fuel remaining) (fun _ s' => inv_in x s') (fun _ s' => inv_in x s') s.
Proof.
  revert remaining s. induction fuel as [|fuel IH]; intros remaining s Hf Hi.
  all: destruct remaining as [|b remaining]; [done|]; cbn [revoke_proposals].
  { cbn in Hf. lia. }
  apply wp_bind, wp_library; [|done]. intros [ref rest] Hm. apply proposal_ref_decode_consumes in Hm.
  destruct (proj2 Hi) as (g & Hg & <-). apply wp_bind. eapply wp_try_group; [exact Hg|]. intros r g' p Hop.
  assert (inv_in (sg_state g) (with_group (Some {| sg_group := g'; sg_state := sg_state g |}) p s)) as Hi'.
  { apply inv_in_group; [done|done|]. apply group_vetted_sub. exact (remove_pending _ _ _ _ _ _ Hop). }
  destruct r; [done|]. apply IH; [cbn in *; lia|done].
Qed.

Lemma apply_proposals_ok op l expected x s :
  inv_in x s -> wp (apply_proposals op l expected) (fun _ s' => inv_in x s') (fun _ s' => inv_in x s') s.
Proof.
  intros Hi. destruct op; cbn [apply_proposals]; apply wp_bind.
  - eapply wp_mono; [apply (validate_proposals_ok _ _ _ _ _ x); [done|done|constructor]| |done].
    intros [adds l'] s' [Hi' Hl]. apply wp_bind. eapply wp_mono; [by apply store_proposals_ok|done|done].
  - eapply wp_mono; [by apply revoke_proposals_ok|done|done].
Qed.

Lemma with_status_established x s :
  inv_in GroupEstablished s -> inv_in GroupEstablished (with_status x s).
Proof.
  intros [[Ha Hp Hm Hs Hself Hv] Hg]. pose proof (proj2 (in_established_iff s) Hg) as He. split; [|exact Hg].
  constructor; cbn; try done. intros g Hgs E. destruct Hg as (g' & Hg' & E'). congruence.
Qed.

Lemma with_status_pending x s :
  inv_in GroupPending s -> x = Pending \/ x = AwaitingInitialResponse -> inv_in GroupPending (with_status x s).
Proof. intros [[Ha Hp Hm Hs Hself Hv] Hg] Hx. split; [|exact Hg]. constructor; cbn; try done. intros [-> | ->]; naive_solver. Qed.

Lemma commit_pending_proposals_ok x adds s :
  inv_in x s ->
  wp (commit_pending_proposals (bool_decide (x = GroupEstablished)) adds) (fun _ s' => inv_in x s') (fun _ s' => inv_in x s') s.
Proof.
  intros Hi. unfold commit_pending_proposals. destruct (proj2 Hi) as (g & Hg & Hx). apply wp_bind. eapply wp_the_group; [exact Hg|].
  assert (forall s, inv_in x s -> wp (E := ProcessProposalsError) (try_group ClearPendingCommit clear_pending_commit) (fun _ s' => inv_in x s') (fun _ s' => inv_in x s') s) as Hclear.
  { clear -HM. intros s Hi. destruct (proj2 Hi) as (g & Hg & <-). eapply wp_try_group; [exact Hg|]. intros r g' p Hop. cbn zeta.
    assert (inv_in (sg_state g) (with_group (Some {| sg_group := g'; sg_state := sg_state g |}) p s)) as Hi'; [|by destruct r].
    apply inv_in_group; [done|done|]. apply group_vetted_sub. by rewrite (clear_commit_pending _ _ _ _ _ Hop). }
  assert (forall v s, inv_in x s -> inv_in x (with_pending_commit v s)) as Hpc.
  { intros v s' [? ?]. split; [by apply inv_with_pending_commit|done]. }
  destruct (pending_proposals (sg_group g)) as [|q l] eqn:Hl.
  - apply wp_bind. eapply wp_mono; [by apply Hclear| |done]. intros ? s1 H1. cbn beta in H1. wp_steps. apply (Hpc None) in H1.
    set (s2 := with_pending_commit None s1) in *. destruct x.
    + apply with_status_pending; [done|]. destruct H1 as [Hinv (g2 & Hg2 & Hx2)]. destruct (inv_pending _ Hinv g2 Hg2 Hx2) as [-> | ->]; auto.
    + by apply with_status_established.
  - apply wp_bind. eapply (wp_mono _ (fun _ s' => inv_in x s') _ (fun _ s' => inv_in x s')); [| |done].
    { destruct (is_some _); [|done]. apply wp_bind. eapply wp_mono; [by apply Hclear| |done]. intros ? s1 H1. cbn beta in H1. wp_steps. by apply Hpc. }
    intros ? s1 H1. cbn beta in H1. wp_steps. destruct (proj2 H1) as (g1 & Hg1 & Hx1). subst x. eapply wp_try_group; [exact Hg1|]. intros r g' p Hop. cbn zeta.
    assert (inv_in (sg_state g1) (with_group (Some {| sg_group := g'; sg_state := sg_state g1 |}) p s1)) as H2.
    { apply inv_in_group; [by rewrite Hx1|done|]. apply group_vetted_sub. exact (commit_pending _ _ _ _ _ _ Hop). }
    rewrite Hx1 in H2. destruct r as [e|[c w]]; [by rewrite Hx1 in *|]. rewrite Hx1. wp_steps.
    set (s2 := with_group _ p s1) in *.
    assert (forall b, b = bool_decide (sg_state g = GroupEstablished) -> inv_in (sg_state g) (with_status (if b then AwaitingCommit else AwaitingInitialResponse) s2)) as H3.
    { intros b ->. destruct (sg_state g) eqn:E; [apply with_status_pending; [done|by right]|by apply with_status_established]. }
    specialize (H3 _ eq_refl). apply wp_library; [|done]. intros cb _. wp_steps. apply (Hpc (Some cb)) in H3.
    destruct adds, w as [w|]; wp_steps; try done. destruct (welcome_body w) as [w'|]; wp_steps; [|done]. by apply wp_library.
Qed.

Lemma process_proposals_ok op l expected s :
  session_inv s -> wp (process_proposals op l expected) (fun _ s' => session_inv s') (fun _ s' => session_inv s') s.
Proof.
  intros Hi. unfold process_proposals. wp_steps. destruct (group s) as [g|] eqn:Hg; [|done]. cbn [ok_or].
  wp_steps. apply wp_library; [|done]. intros l' _.
  assert (inv_in (sg_state g) s) as Hin by (split; [done|by exists g]).
  wp_steps. eapply wp_mono; [by apply apply_proposals_ok| |by intros _ s' [? _]].
  intros adds s' Hi'. unfold group_is_established. eapply wp_mono; [by apply commit_pending_proposals_ok|by intros _ ? [? _]|by intros _ ? [? _]].
Qed.

(** *** Groups *)
Lemma wp_take_delete {E} (f : mls_error -> E) (Q : () -> Session -> Prop) (R : E -> Session -> Prop) s :
  (forall p, Q () (with_group None p s)) -> wp (take_and_delete_group f) Q R s.
Proof.
  intros HQ. unfold take_and_delete_group. wp_steps. destruct (group s) as [g|] eqn:Hg; wp_steps.
  - apply wp_on_provider; intros b p Hd; destruct (group_delete_ok (sg_group g) (provider s)) as [p' Hd']; cbn in Hd; rewrite Hd' in Hd; [|done].
    injection Hd as <- <-. apply HQ.
  - specialize (HQ (provider s)). replace (with_group None (provider s) s) with s in HQ; [done|]. destruct s. cbn in *. by subst.
Qed.

(** A session without a group: only the media state has to be empty. *)
Lemma inv_no_group s p :
  session_inv s -> in_established_group s = false -> session_inv (with_group None p s).
Proof.
  intros [Ha Hp Hm Hs Hself Hv] He. unfold in_established_group in *. constructor; cbn; try done.
  - intros Hx%Ha. by rewrite He in Hx.
  - intros Hx%Hm. by rewrite He in Hx.
Qed.

Lemma create_pending_group_ok s :
  session_inv s -> group s = None -> wp create_pending_group (fun _ s' => session_inv s') (fun _ s' => session_inv s') s.
Proof.
  intros Hi Hg. unfold create_pending_group. wp_steps. destruct (external_sender (id s)) as [e|]; [|done]. cbn [ok_or]. wp_steps.
  apply wp_library; [|done]. intros ext _. wp_steps. apply wp_on_provider.
  - intros g p Hn. wp_steps. destruct Hi as [Ha Hp Hm Hs Hself Hv]. unfold in_established_group in *. rewrite Hg in *.
    constructor; cbn; try done; [naive_solver|naive_solver|]. intros ? [= <-] q Hq. cbn in Hq. by rewrite (group_new_pending _ _ _ _ _ _ _ _ _ Hn), elem_of_nil in Hq.
  - intros x p _. cbn. by apply inv_with_provider.
Qed.

Lemma set_external_sender_ok l s :
  session_inv s -> wp (set_external_sender l) (fun _ s' => session_inv s') (fun _ s' => session_inv s') s.
Proof.
  intros Hi. unfold set_external_sender. wp_steps. destruct (in_established_group s) eqn:He; [done|]. wp_steps.
  apply wp_take_delete. intros p. wp_steps. pose proof (inv_no_group s p Hi He) as Hi'. apply wp_library; [|done].
  intros e _. wp_steps. eapply wp_mono; [apply create_pending_group_ok| |]; [by destruct Hi'|done|done|done].
Qed.

Lemma session_reset_ok now s :
  session_inv s -> wp (session_reset now) (fun _ s' => session_inv s') (fun _ s' => session_inv s') s.
Proof.
  intros Hi. unfold session_reset. wp_steps. apply wp_take_delete. intros p. wp_steps. cbn [provider with_group].
  destruct (storage_clear_ok p) as [p' ->]. cbn [ok_or]. wp_steps. constructor; cbn; try done; naive_solver.
Qed.

Lemma create_key_package_ok s :
  session_inv s -> wp create_key_package (fun _ s' => session_inv s') (fun _ s' => session_inv s') s.
Proof.
  intros Hi. unfold create_key_package. wp_steps. apply wp_library; [|done]. intros lt _. wp_steps.
  apply wp_on_provider; intros k p _; [|by apply inv_with_provider]. apply wp_library; intros; by apply inv_with_provider.
Qed.

(** *** Media keys *)

(** The decryptor that gets the new ratchet. *)
Definition prior_decryptor (now : Z) (s : Session) (u : Z) : Decryptor :=
  default (with_plaintext_passthrough now (from_until (until (session_passthrough s)))) (decryptors s !! u).

Definition media_secret (g : mls_group) (u : Z) : mls_error + bytes := export_secret g USER_MEDIA_KEY_BASE_LABEL (to_le 8 u) 16.

(** [ds] has a ratchet for every user of [us] other than the session's own, and
    is otherwise as before. *)
Definition ratchets_installed (now : Z) (g : mls_group) (us : list Z) (s : Session) (ds : gmap Z Decryptor) : Prop :=
  forall u, if decide (u ∈ us /\ u ≠ user_id s)
            then exists secret, media_secret g u = inr secret /\
                 ds !! u = Some (transition_to_ratchet now (HashRatchet.new secret) (prior_decryptor now s u))
            else ds !! u = decryptors s !! u.

Lemma key_ratchet_established g u s :
  group s = Some {| sg_group := g; sg_state := GroupEstablished |} ->
  key_ratchet u s = match media_secret g u with inr secret => Ok (HashRatchet.new secret) | inl e => Err (ExportSecret e) end.
Proof. unfold key_ratchet. by intros ->. Qed.

Lemma install_ratchets_ok now g ms current s :
  group s = Some {| sg_group := g; sg_state := GroupEstablished |} ->
  wp (install_ratchets now ms current)
     (fun cur s' => exists us ds, Forall2 (fun m u => user_id_is (member_credential m) u) ms us /\ cur = list_to_set us ∪ current /\ s' = with_decryptors ds s /\
        ds !! user_id s = decryptors s !! user_id s /\ (NoDup us -> ratchets_installed now g us s ds))
     (fun _ s' => exists ds, s' = with_decryptors ds s /\ ds !! user_id s = decryptors s !! user_id s) s.
Proof.
  assert (forall s, s = with_decryptors (decryptors s) s) as Hid by (by intros []).
  revert current s. induction ms as [|m ms IH]; intros current s Hg; cbn [install_ratchets].
  { apply wp_ret. exists [], (decryptors s). split; [constructor|]. split; [set_solver|]. split; [apply Hid|]. split; [done|].
    intros _ u. destruct (decide _) as [[Hu _]|]; [by apply elem_of_nil in Hu|done]. }
  apply wp_bind, wp_lift. destruct (credential_user_id (member_credential m)) as [u|e|] eqn:Hu; cbn [map_err].
  2: { exists (decryptors s). split; [apply Hid|done]. }
  2: { pose proof (credential_user_id_safe (member_credential m)) as Hx. by rewrite Hu in Hx. }
  apply credential_user_id_iff in Hu. wp_steps. unfold id. destruct (Z.eqb_spec u (user_id s)) as [->|Hne].
  - wp_steps. eapply wp_mono; [by apply IH| |done]. intros cur s' (us & ds & Hus & -> & -> & Hself & Hin). exists (user_id s :: us), ds.
    split; [by constructor|]. split; [set_solver|]. split; [done|]. split; [done|]. intros [_ Hnd]%NoDup_cons v. specialize (Hin Hnd v).
    repeat destruct (decide _); try done; [|exfalso; set_solver]. naive_solver set_solver.
  - wp_steps. rewrite (key_ratchet_established g) by done. destruct (media_secret g u) as [e|secret] eqn:Hx.
    { exists (decryptors s). split; [apply Hid|done]. }
    wp_steps. set (d := match decryptors s !! u with Some d => d | None => _ end).
    set (s1 := with_decryptors (<[u := transition_to_ratchet now (HashRatchet.new secret) d]> (decryptors s)) s).
    eapply wp_mono; [apply (IH _ s1); exact Hg| |].
    + intros cur s' (us & ds & Hus & -> & -> & Hself & Hin). exists (u :: us), ds. split; [by constructor|]. split; [set_solver|]. split; [done|].
      split; [cbn in Hself; by rewrite lookup_insert_ne in Hself|]. intros [Hnin Hnd]%NoDup_cons v. specialize (Hin Hnd v). cbn [user_id s1 with_decryptors with_media decryptors] in Hin.
      assert (v ≠ u -> prior_decryptor now s1 v = prior_decryptor now s v) as Hprior by (intros Hv; unfold prior_decryptor; cbn; by rewrite lookup_insert_ne).
      destruct (decide (v = u)) as [->|Hv].
      * rewrite decide_True by (split; [set_solver|done]). rewrite decide_False in Hin by naive_solver.
        rewrite lookup_insert_eq in Hin. exists secret. split; [done|]. rewrite Hin. unfold prior_decryptor, d. by destruct (decryptors s !! u).
      * rewrite lookup_insert_ne, Hprior in Hin by done. repeat destruct (decide _); try done; exfalso; set_solver.
    + intros e s' (ds & -> & Hself). exists ds. split; [done|]. cbn in Hself. by rewrite lookup_insert_ne in Hself.
Qed.

(** What the session is after the keys of its group have been installed. *)
Record keys_installed (now : Z) (g : mls_group) (us : list Z) (s s' : Session) : Prop := {
  ki_members : Forall2 (fun m u => user_id_is (member_credential m) u) (group_members g) us;
  ki_dom : NoDup us -> dom (decryptors s') = list_to_set us ∖ {[user_id s]};
  ki_decryptors : NoDup us -> forall u, u ∈ us -> u ≠ user_id s -> exists secret, media_secret g u = inr secret /\
    decryptors s' !! u = Some (transition_to_ratchet now (HashRatchet.new secret) (prior_decryptor now s u));
  ki_sender : exists own, media_secret g (user_id s) = inr own /\ sender s' = stage_ratchet (HashRatchet.new own) (sender s);
  ki_ready : receive_ready s' = true;
  ki_same : user_id s' = user_id s /\ external_sender s' = external_sender s /\ session_passthrough s' = session_passthrough s;
}.

Lemma inv_with_decryptors ds s :
  inv_in GroupEstablished s -> ds !! user_id s = None -> inv_in GroupEstablished (with_decryptors ds s).
Proof.
  intros [[Ha Hp Hm Hs Hself Hv] Hg] Hds. split; [|exact Hg]. constructor; cbn; try done. intros _. by apply in_established_iff.
Qed.

Lemma update_receive_ratchets_ok now g s :
  session_inv s -> group s = Some {| sg_group := g; sg_state := GroupEstablished |} ->
  wp (update_receive_ratchets_and_stage_sender now)
     (fun _ s' => session_inv s' /\ (group s' = group s /\ status s' = status s /\ pending_commit s' = pending_commit s) /\
        exists us, keys_installed now g us s s') (fun _ s' => session_inv s') s.
Proof.
  intros Hi Hg. pose proof (inv_self s Hi) as Hself0. assert (inv_in GroupEstablished s) as Hin by (split; [done|by eexists]).
  unfold update_receive_ratchets_and_stage_sender. wp_steps. rewrite Hg. cbn [ok_or]. wp_steps. change (negb (group_is_established _)) with false. cbn iota.
  wp_steps. eapply wp_mono; [by apply install_ratchets_ok| |].
  2: { intros e s' (ds & -> & Hself). apply inv_with_decryptors; [done|congruence]. }
  intros cur s1 (us & ds & Hus & -> & -> & Hself & Hds). wp_steps. unfold id. cbn [user_id with_decryptors with_media decryptors].
  set (ds' := filter _ ds). assert (ds' !! user_id s = None) as Hself'.
  { apply map_lookup_filter_None. left. congruence. }
  rewrite (key_ratchet_established g) by exact Hg.
  destruct (media_secret g _) as [e|own] eqn:Hown; [by apply (inv_with_decryptors ds' s)|]. wp_steps. split.
  { pose proof (proj2 (in_established_iff s) (proj2 Hin)) as He. destruct Hi as [Ha Hp Hm Hs _ Hv]. by constructor. }
  split; [done|]. exists us. constructor; cbn; try done.
  - intros Hnd. specialize (Hds Hnd). apply set_eq. intros u. rewrite elem_of_dom, elem_of_difference, elem_of_list_to_set, elem_of_singleton.
    unfold ds'. split.
    + intros [d [Hd Hu]%map_lookup_filter_Some]. cbn in Hu. split; [set_solver|]. intros ->. congruence.
    + intros [Hu Hne]. specialize (Hds u). rewrite decide_True in Hds by done. destruct Hds as (secret & _ & Hd). eexists. apply map_lookup_filter_Some.
      split; [exact Hd|]. cbn. set_solver.
  - intros Hnd u Hu Hne. specialize (Hds Hnd u). rewrite decide_True in Hds by done. destruct Hds as (secret & Hx & Hd). exists secret. split; [done|].
    apply map_lookup_filter_Some. split; [done|]. cbn. set_solver.
  - by exists own.
Qed.

(** What a successful commit or welcome leaves: the session is active in an
    established group that the policy allows, holds a decryptor with a ratchet
    from the group's exporter for exactly the other members, and has its own
    sender ratchet staged. *)
Record joined (now : Z) (s s' : Session) : Prop := {
  joined_group : exists g gateway us, group s' = Some {| sg_group := g; sg_state := GroupEstablished |} /\ external_sender s = Some gateway /\
    validate_group_policy (group_ciphersuite g) (group_extensions g) (group_members g) gateway = Ok () /\ NoDup us /\ keys_installed now g us s s';
  joined_status : status s' = Active;
  joined_commit : pending_commit s' = None;
}.

(** *** The same facts for a session that differs in what is replaced. *)
Record like (s s' : Session) : Prop := {
  like_user : user_id s' = user_id s;
  like_sender : sender s' = sender s;
  like_decryptors : decryptors s' = decryptors s;
  like_passthrough : session_passthrough s' = session_passthrough s;
  like_external : external_sender s' = external_sender s;
}.

Lemma activate_established_ok now g gateway s0 s :
  inv_in GroupEstablished s -> group s = Some {| sg_group := g; sg_state := GroupEstablished |} -> like s0 s ->
  external_sender s0 = Some gateway -> pending_commit s = None ->
  validate_group_policy (group_ciphersuite g) (group_extensions g) (group_members g) gateway = Ok () ->
  wp (activate_established_group now) (fun _ s' => session_inv s' /\ joined now s0 s') (fun _ s' => session_inv s') s.
Proof.
  intros Hin Hg [L1 L2 L3 L4 L5] Hgw Hpc Hpol. unfold activate_established_group. wp_steps.
  apply (with_status_established Active) in Hin. eapply wp_mono; [apply (update_receive_ratchets_ok now g); [apply Hin|exact Hg]| |done].
  intros [] s' (Hi & (K6 & K9 & K10) & us & [K1 K2 K3 K4 K5 (K7 & K8 & K11)]). split; [done|].
  assert (exists us', Forall2 (fun m u => user_id_is (member_credential m) u) (group_members g) us' /\ NoDup us') as Hus.
  { unfold validate_group_policy in Hpol. destruct (negb _); [done|]. apply bind_Ok_inv in Hpol as (_ & _ & Hpol). by apply validate_members_iff. }
  destruct Hus as (us' & Hus & Hnd). assert (us' = us) as ->.
  { clear -Hus K1. revert us K1. induction Hus as [|m u ms us' Hm Hus IH]; intros us K1; [by apply Forall2_nil_inv_l in K1|].
    apply Forall2_cons_inv_l in K1 as (v & vs & Hv & Hvs & ->). apply credential_user_id_iff in Hm, Hv. f_equal; [congruence|by apply IH]. }
  cbn in *. constructor; [|done|congruence]. exists g, gateway, us. split; [congruence|]. split; [done|]. split; [done|]. split; [done|].
  constructor; try done; try congruence; rewrite <- ?L1.
  - exact K2.
  - intros _ u Hu Hne. destruct (K3 Hnd u Hu Hne) as (secret & ? & Hd). exists secret. split; [done|]. rewrite Hd. unfold prior_decryptor. cbn. by rewrite L3, L4.
  - rewrite <- L2. exact K4.
  - split; [congruence|]. split; congruence.
Qed.

(** A check of the policy: it does not panic. *)
Lemma policy_cases {E F B} (f : E -> F) (m : res E B) (Q : B -> Prop) (R : F -> Prop) :
  safe m (fun _ => True) -> (forall b, m = Ok b -> Q b) -> (forall e, m = Err e -> R (f e)) ->
  match map_err f m with Ok b => Q b | Err e => R e | Panic => False end.
Proof. intros Hs HQ HR. destruct m; cbn; auto. Qed.

Lemma process_welcome_ok now w s :
  session_inv s -> wp (process_welcome now w) (fun _ s' => session_inv s' /\ joined now s s') (fun _ s' => session_inv s') s.
Proof.
  intros Hi. unfold process_welcome. wp_steps. destruct (in_established_group s) eqn:He; [done|]. wp_steps.
  destruct (external_sender s) as [gateway|] eqn:Hgw; [|done]. cbn [ok_or]. wp_steps. apply wp_library; [|done]. intros wm _. wp_steps.
  apply wp_on_provider; [|intros; by apply inv_with_provider]. intros staged p _. pose proof (inv_with_provider s p Hi) as Hi1.
  wp_steps. wp_steps; apply policy_cases; [apply validate_context_safe| |done]. intros _ _. wp_steps. wp_steps; apply policy_cases; [apply validate_members_safe| |done].
  intros _ _. wp_steps. apply wp_on_provider; [|intros; by apply inv_with_provider]. intros g p' Hg. cbn [group with_group].
  pose proof (inv_with_provider s p' Hi) as Hi2. wp_steps. wp_steps; apply policy_cases; [apply validate_group_safe| |done]. intros [] Hpol. wp_steps.
  apply wp_take_delete. intros p''. wp_steps. pose proof (inv_no_group s p'' Hi He) as Hi3.
  eapply wp_mono; [eapply (activate_established_ok now g gateway s); try done|done|done].
  - split; [|by eexists]. destruct Hi3 as [Ha Hp Hm Hs Hself Hv]. constructor; cbn; try done.
    + by intros ? [= <-].
    + intros ? [= <-] q Hq. cbn in Hq. by rewrite (into_group_pending _ _ _ _ Hg), elem_of_nil in Hq.
Qed.

(** What the library calls of [merge_commit] leave of the session. *)
Definition regrouped (x : SessionGroupState) (s s' : Session) : Prop :=
  exists g p, s' = with_group (Some {| sg_group := g; sg_state := x |}) p s /\ group_vetted g.

Lemma regrouped_group s g g' p :
  group s = Some g -> (group_vetted (sg_group g) -> group_vetted g') -> group_vetted (sg_group g) ->
  regrouped (sg_state g) s (with_group (Some {| sg_group := g'; sg_state := sg_state g |}) p s).
Proof. intros Hg H Hv. exists g', p. auto. Qed.

Lemma merge_commit_ok e commit matches x s :
  inv_in x s ->
  wp (merge_commit e commit matches) (fun _ s' => regrouped x s s') (fun _ s' => s' = s \/ regrouped x s s') s.
Proof.
  intros [Hi (g & Hg & <-)]. pose proof (inv_vetted s Hi g Hg) as Hv. unfold merge_commit. wp_steps. apply wp_library; [|by left]. intros m _. wp_steps.
  apply wp_library; [|by left]. intros pm _. wp_steps. destruct (bool_decide _); cbn [negb]; [|wp_steps; by left]. wp_steps.
  eapply wp_on_group; [exact Hg|]. intros r g1 p1 Hop. apply process_message_vetted in Hop as Hv1; [|done].
  set (s1 := with_group _ p1 s). assert (regrouped (sg_state g) s s1) as H1 by (by exists g1, p1).
  assert (forall f (op : mls_group -> provider_t -> (mls_error + ()) * mls_group * provider_t), (forall r g' p', op g1 p1 = (r, g', p') -> pending_proposals g' ⊆ pending_proposals g1) ->
    wp (E := ProcessCommitError) (try_group f op) (fun _ s' => regrouped (sg_state g) s s') (fun _ s' => s' = s \/ regrouped (sg_state g) s s') s1) as Hmerge.
  { intros f op Hsub. eapply wp_try_group; [reflexivity|]. cbn [sg_group sg_state]. intros r' g2 p2 Hop2. cbn zeta.
    assert (regrouped (sg_state g) s (with_group (Some {| sg_group := g2; sg_state := sg_state g |}) p2 s1)) as H2.
    { exists g2, p2. split; [done|]. eapply group_vetted_sub; [exact (Hsub _ _ _ Hop2)|done]. }
    destruct r'; [by right|done]. }
  destruct r as [[|x]|[from content]].
  - destruct matches; cbn [negb]; [|wp_steps; by right]. wp_steps. eapply wp_the_group; [reflexivity|]. cbn [sg_group]. wp_steps.
    destruct (group_pending_commit g1) as [c|].
    + wp_steps; apply policy_cases; [apply validate_staged_safe| |by right]. intros _ _. apply Hmerge. intros r' g' p'. apply merge_pending_pending.
    + wp_steps. apply Hmerge. intros r' g' p'. apply merge_pending_pending.
  - wp_steps. by right.
  - destruct content as [q|c|]; [wp_steps; by right| |wp_steps; by right]. wp_steps. eapply wp_the_group; [reflexivity|]. wp_steps.
    wp_steps; apply policy_cases; [apply validate_staged_safe| |by right]. intros _ _. apply Hmerge. intros r' g' p'. apply merge_staged_pending.
Qed.

Lemma process_commit_ok now c s :
  session_inv s -> wp (process_commit now c) (fun _ s' => session_inv s' /\ joined now s s') (fun _ s' => session_inv s') s.
Proof.
  intros Hi. unfold process_commit. wp_steps. unfold id. destruct (group s) as [g|] eqn:Hg; [|done]. cbn [ok_or]. wp_steps.
  destruct (external_sender s) as [gateway|] eqn:Hgw; [|done]. cbn [ok_or]. wp_steps.
  destruct (group_is_pending g && _) eqn:Hp; [done|]. wp_steps. assert (inv_in (sg_state g) s) as Hin by (split; [done|by exists g]).
  assert (forall s', regrouped (sg_state g) s s' -> session_inv s') as Hre.
  { intros s' (g' & p & -> & Hv). by apply (inv_with_group s g g' p). }
  eapply wp_mono; [by apply merge_commit_ok| |]; [|intros ? s' [->|H]; [done|by apply Hre]].
  intros [] s1 (g1 & p1 & -> & Hv1). wp_steps. set (s2 := with_pending_commit None _).
  assert (session_inv s2) as Hi2 by (apply inv_with_pending_commit, Hre; by exists g1, p1).
  eapply (wp_mono _ (fun _ s3 => s3 = with_pending_commit None (with_group (Some {| sg_group := g1; sg_state := GroupEstablished |}) p1 s)) _ (fun _ _ => False)); [| |done].
  { unfold group_is_pending in *. destruct (sg_state g) eqn:E; cbn; wp_steps; done. }
  intros [] s3 ->. wp_steps. cbn [group with_pending_commit with_group sg_group].
  set (s3 := with_pending_commit None _). assert (inv_in GroupEstablished s3) as Hi3.
  { split; [|by eexists]. destruct Hi2 as [Ha Hpd Hm Hs Hself Hv]. constructor; cbn; try done; [by intros ? [= <-]|by intros ? [= <-]]. }
  wp_steps; apply policy_cases; [apply validate_group_safe| |intros; apply Hi3]. intros [] Hpol. wp_steps.
  eapply wp_mono; [eapply (activate_established_ok now g1 gateway s); done|done|done].
Qed.

(** *** Media operations *)
Lemma inv_with_sender e s :
  (ready e = true \/ is_some (pending_ratchet e) = true -> ready (sender s) = true \/ is_some (pending_ratchet (sender s)) = true) ->
  session_inv s -> session_inv (with_sender e s).
Proof. intros He [Ha Hp Hm Hs Hself Hv]. constructor; cbn; try done. intros Hx. by apply Hs, He. Qed.

Lemma advance_cipher_keeps e r e' :
  advance_cipher e = (r, e') -> ready e' = ready e /\ pending_ratchet e' = pending_ratchet e.
Proof.
  unfold advance_cipher, ready. destruct (active_ratchet e) eqn:Ha; [|intros [= _ <-]; by rewrite Ha]. cbv zeta.
  destruct (_ || _); [|by intros [= _ <-]]. destruct (HashRatchet.get _ _) as [[?|?|] ?]; [destruct (FrameFormat.frame_cipher_new _)|..]; by intros [= _ <-].
Qed.

Lemma encrypt_into_keeps c frame e r e' :
  encrypt_into c frame e = (r, e') -> ready e' = ready e /\ pending_ratchet e' = pending_ratchet e.
Proof.
  unfold encrypt_into. destruct (FrameCodec.process c frame) as [p|?|]; [|by intros [= _ <-]|by intros [= _ <-]].
  assert (ready (set_processor p e) = ready e /\ pending_ratchet (set_processor p e) = pending_ratchet e) as [<- <-] by done.
  generalize (set_processor p e). clear p e. generalize MAX_CIPHERTEXT_VALIDATION_RETRIES. intros n. induction n as [|n IH]; intros e; cbn [encrypt_attempts]; [by intros [= _ <-]|].
  destruct (advance_cipher e) as [[nonce|?|] e1] eqn:Ha; apply advance_cipher_keeps in Ha as [<- <-]; [|by intros [= _ <-]|by intros [= _ <-]].
  destruct (cipher e1); [|by intros [= _ <-]]. destruct (FrameFormat.encrypt_processed _ _ _) as [[out p]|?|]; [|by intros [= _ <-]|by intros [= _ <-]].
  destruct (validate_processed _ _ _) as [[]|?|]; [by intros [= _ <-]| |by intros [= _ <-]|by intros [= _ <-]]. by intros [-> ->]%IH.
Qed.

(** ** The calls a client makes *)
Inductive session_call :=
| CallReset (now : Z)
| CallResetMedia (now : Z)
| CallSetExternalSender (l : bytes)
| CallCreateKeyPackage
| CallProcessProposals (op : ProposalsOperation) (l : bytes) (expected : Z -> bool)
| CallProcessWelcome (now : Z) (w : bytes)
| CallProcessCommit (now : Z) (c : bytes)
| CallActivateSender
| CallPassthrough (now : Z) (mode : PassthroughMode)
| CallEncrypt (c : MediaCodec) (frame : bytes)
| CallDecrypt (now u : Z) (mt : MediaType) (frame : bytes).

Definition discard {E B} (m : st Session E B) : st Session () () :=
  fun s => let '(r, s) := m s in (match r with Ok _ => Ok () | Err _ => Err () | Panic => Panic end, s).

Definition session_step (c : session_call) : st Session () () :=
  match c with
  | CallReset now => discard (session_reset now)
  | CallResetMedia now => modify (reset_media_transform_state now)
  | CallSetExternalSender l => discard (set_external_sender l)
  | CallCreateKeyPackage => discard create_key_package
  | CallProcessProposals op l expected => discard (process_proposals op l expected)
  | CallProcessWelcome now w => discard (process_welcome now w)
  | CallProcessCommit now c => discard (process_commit now c)
  | CallActivateSender => modify (fun s => (activate_staged_sender s).2)
  | CallPassthrough now mode => modify (set_passthrough_mode now mode)
  | CallEncrypt c frame => discard (session_encrypt_into c frame)
  | CallDecrypt now u mt frame => discard (session_decrypt_into now u mt frame)
  end.

(** The sessions that calls lead to, whether they succeed or fail. *)
Inductive session_reachable (u c : Z) : Session -> Prop :=
| reachable_new now k : session_reachable u c (session_new now k u c)
| reachable_step call s : session_reachable u c s -> session_reachable u c (session_step call s).2.

Lemma discard_ok {E B} (m : st Session E B) (Q : B -> Session -> Prop) (R : E -> Session -> Prop) s :
  wp m Q R s -> (forall b s', Q b s' -> session_inv s') -> (forall e s', R e s' -> session_inv s') ->
  session_inv (discard m s).2 /\ (discard m s).1 ≠ Panic.
Proof. unfold wp, discard. destruct (m s) as [[b|e|] s']; naive_solver. Qed.

(** Calls that are not media transforms; the others are [Sender] and
    [Receiver] of Cryptor.v. *)
Definition is_media (c : session_call) : bool := match c with CallEncrypt _ _ | CallDecrypt _ _ _ _ => true | _ => false end.

Lemma session_step_ok call s :
  session_inv s -> session_inv (session_step call s).2 /\ (is_media call = false -> (session_step call s).1 ≠ Panic).
Proof.
  intros Hi. destruct call; cbn [session_step is_media].
  - destruct (discard_ok _ _ _ s (session_reset_ok now s Hi)); auto.
  - split; [|done]. destruct Hi as [Ha Hp Hm Hs Hself Hv]. constructor; cbn; try done; naive_solver.
  - destruct (discard_ok _ _ _ s (set_external_sender_ok l s Hi)); auto.
  - destruct (discard_ok _ _ _ s (create_key_package_ok s Hi)); auto.
  - destruct (discard_ok _ _ _ s (process_proposals_ok op l expected s Hi)); auto.
  - destruct (discard_ok _ _ _ s (process_welcome_ok now w s Hi)); [by intros ? ? [? _]|done|auto].
  - destruct (discard_ok _ _ _ s (process_commit_ok now c s Hi)); [by intros ? ? [? _]|done|auto].
  - split; [|done]. cbn. unfold activate_staged_sender, activate_pending. destruct (pending_ratchet (sender s)) eqn:Hr; cbn [snd].
    + apply inv_with_sender; [|done]. intros _. right. by rewrite Hr.
    + by apply inv_with_sender.
  - split; [|done]. destruct Hi as [Ha Hp Hm Hs Hself Hv]. constructor; cbn; try done.
    + intros [?|Hd]; [by apply Hm; left|]. apply Hm. right. intros E. apply Hd. rewrite E. apply fmap_empty.
    + rewrite lookup_fmap, Hself. done.
  - split; [|done]. unfold discard, session_encrypt_into. destruct (encrypt_into c frame (sender s)) as [r e] eqn:He.
    apply encrypt_into_keeps in He as [H1 H2]. apply inv_with_sender; [by rewrite H1, H2|done].
  - split; [|done]. unfold discard, session_decrypt_into. destruct (decryptors s !! u) as [d|] eqn:Hd; [|done]. destruct (decrypt now mt frame d) as [r d'].
    assert (u ≠ user_id s) by (intros ->; by rewrite (inv_self s Hi) in Hd). destruct Hi as [Ha Hp Hm Hs Hself Hv]. constructor; cbn; try done.
    + intros [?|_]; [by apply Hm; left|]. apply Hm. right. intros E. by rewrite E, lookup_empty in Hd.
    + by rewrite lookup_insert_ne.
Qed.

Lemma session_reachable_ok u c s : session_reachable u c s -> session_inv s.
Proof. induction 1; [apply session_inv_new|]. by apply session_step_ok. Qed.

(** ** Frames *)
Lemma keeps_library {E B C} (f : Session -> C) (h : mls_error -> E) (r : mls_error + B) : keeps f (library h r).
Proof. apply keeps_lift. Qed.

Lemma keeps_on_provider {E B C} (f : Session -> C) (h : mls_error -> E) op :
  (forall g p s, f (with_group g p s) = f s) -> keeps f (on_provider (B := B) h op).
Proof. intros Hf s. unfold on_provider. destruct (op (provider s)). apply Hf. Qed.

Lemma keeps_on_group {E B C} (f : Session -> C) op :
  (forall g p s, f (with_group g p s) = f s) -> keeps f (on_group (E := E) (R := B) op).
Proof. intros Hf s. unfold on_group. destruct (group s); [|done]. destruct (op _ _) as [[r g'] p]. apply Hf. Qed.

Lemma keeps_try_group {E B C} (f : Session -> C) (h : mls_error -> E) op :
  (forall g p s, f (with_group g p s) = f s) -> keeps f (try_group (B := B) h op).
Proof. intros Hf. apply keeps_bind; [by apply keeps_on_group|]. intros. apply keeps_library. Qed.

Lemma keeps_the_group {E C} (f : Session -> C) : keeps f (the_group (E := E)).
Proof. intros s. unfold the_group. by destruct (group s). Qed.

Lemma keeps_take_delete {E C} (f : Session -> C) (h : mls_error -> E) :
  (forall g p s, f (with_group g p s) = f s) -> keeps f (take_and_delete_group h).
Proof.
  intros Hf. unfold take_and_delete_group. apply keeps_bind; [apply keeps_gets|]. intros [g|]; [|apply keeps_ret].
  apply keeps_bind; [by apply keeps_modify|]. intros _. by apply keeps_on_provider.
Qed.

(** The ratchet in use is not touched by the operations of the group: they only
    stage the next one. *)
Definition sending_key (s : Session) : option HashRatchet.HashRatchet := active_ratchet (sender s).

Ltac keeps_session :=
  keeps_auto; first [apply keeps_library | apply keeps_on_provider; by intros | apply keeps_on_group; by intros
                    | apply keeps_try_group; by intros | apply keeps_the_group | apply keeps_take_delete; by intros
                    | by apply keeps_modify].

(** The media keys: what only a commit, a welcome, a reset and the media
    operations themselves change. *)
Definition media_of (s : Session) : Encryptor * gmap Z Decryptor := (sender s, decryptors s).

Lemma media_sender {E B} (m : st Session E B) : keeps media_of m -> keeps sender m.
Proof. intros Hm s. by injection (Hm s). Qed.

Lemma media_key {E B} (m : st Session E B) : keeps media_of m -> keeps sending_key m.
Proof. intros Hm s. unfold sending_key. by rewrite (media_sender m Hm s). Qed.

Lemma set_external_sender_media l : keeps media_of (set_external_sender l).
Proof. unfold set_external_sender, create_pending_group. keeps_session. Qed.

Lemma set_external_sender_key l : keeps sending_key (set_external_sender l).
Proof. apply media_key, set_external_sender_media. Qed.

Lemma create_key_package_media : keeps media_of create_key_package.
Proof. unfold create_key_package. keeps_session. Qed.

Lemma create_key_package_sender : keeps sender create_key_package.
Proof. apply media_sender, create_key_package_media. Qed.

Lemma process_proposals_media op l expected : keeps media_of (process_proposals op l expected).
Proof.
  assert (forall fuel remaining adds v, keeps media_of (validate_proposals fuel expected remaining adds v)) as Hval.
  { induction fuel as [|fuel IH]; intros [|b remaining] adds v; cbn [validate_proposals]; keeps_session. }
  assert (forall v, keeps media_of (store_proposals v)) as Hstore by (induction v as [|q v IH]; cbn [store_proposals]; keeps_session).
  assert (forall fuel remaining, keeps media_of (revoke_proposals fuel remaining)) as Hrev.
  { induction fuel as [|fuel IH]; intros [|b remaining]; cbn [revoke_proposals]; keeps_session. }
  unfold process_proposals, apply_proposals, commit_pending_proposals. keeps_session.
Qed.

Lemma process_proposals_key op l expected : keeps sending_key (process_proposals op l expected).
Proof. apply media_key, process_proposals_media. Qed.

Lemma activate_established_key now : keeps sending_key (activate_established_group now).
Proof.
  assert (forall ms current, keeps sending_key (install_ratchets now ms current)) as Hins.
  { induction ms as [|m ms IH]; intros current; cbn [install_ratchets]; keeps_session. }
  unfold activate_established_group, update_receive_ratchets_and_stage_sender. keeps_session.
Qed.

Lemma process_welcome_key now w : keeps sending_key (process_welcome now w).
Proof. pose proof (activate_established_key now). unfold process_welcome. keeps_session. Qed.

Lemma process_commit_key now c : keeps sending_key (process_commit now c).
Proof. pose proof (activate_established_key now). unfold process_commit, merge_commit. keeps_session. Qed.

(** ** Media through two sessions *)
Fixpoint session_send_all (reqs : list (MediaCodec * bytes)) (s : Session) : list (res EncryptError bytes) :=
  match reqs with
  | [] => []
  | (c, frame) :: reqs => let '(r, s) := session_encrypt_into c frame s in r :: session_send_all reqs s
  end.

Fixpoint session_recv_all (u : Z) (arrivals : list (Z * (MediaType * bytes))) (s : Session) : list (res DecryptError bytes) :=
  match arrivals with
  | [] => []
  | (now, (mt, out)) :: arrivals => let '(r, s) := session_decrypt_into now u mt out s in r :: session_recv_all u arrivals s
  end.

Lemma session_send_all_sender reqs s : session_send_all reqs s = (send_all reqs (sender s)).1.
Proof.
  revert s. induction reqs as [|[c frame] reqs IH]; intros s; [done|]. cbn [session_send_all send_all]. unfold session_encrypt_into.
  destruct (encrypt_into c frame (sender s)) as [r e]. rewrite IH. cbn [sender with_sender with_media]. by destruct (send_all reqs e).
Qed.

Lemma session_recv_all_decryptor u arrivals s d :
  decryptors s !! u = Some d -> session_recv_all u arrivals s = map_err FrameError <$> recv_all arrivals d.
Proof.
  revert s d. induction arrivals as [|[now [mt out]] arrivals IH]; intros s d Hd; [done|]. cbn [session_recv_all recv_all]. unfold session_decrypt_into.
  rewrite Hd. destruct (decrypt now mt out d) as [r d']. cbn. f_equal. apply IH. cbn. apply lookup_insert_eq.
Qed.

(** ** What vetting leaves alone *)
Definition untouched (s s' : Session) : Prop :=
  s' = s \/ exists g g' p, group s = Some g /\ s' = with_group (Some {| sg_group := g'; sg_state := sg_state g |}) p s /\
    pending_proposals g' = pending_proposals (sg_group g).

Lemma untouched_trans s1 s2 s3 : untouched s1 s2 -> untouched s2 s3 -> untouched s1 s3.
Proof.
  intros [->|(g & g' & p & Hg & -> & Hp)]; [done|]. intros [->|(g2 & g3 & p3 & Hg2 & -> & Hp3)]; [right; eauto 10|].
  cbn in Hg2. injection Hg2 as <-. right. exists g, g3, p3. cbn in *. split; [done|]. split; [done|]. congruence.
Qed.

(** The errors of [Append] before anything is stored. *)
Definition vetting_error (e : ProcessProposalsError) : Prop :=
  match e with
  | ProposalsNoGroup | DeserializeProposalVector _ | DeserializeMessage _ | ProposalNotPublicOrPrivate _ | ProposalProcessMessage _
  | MessageNotProposal | ProposalPolicy _ => True
  | _ => False
  end.

Lemma validate_proposals_untouched fuel expected remaining adds validated s :
  (length remaining <= fuel)%nat -> is_Some (group s) ->
  wp (validate_proposals fuel expected remaining adds validated)
     (fun _ s' => untouched s s' /\ is_Some (group s')) (fun _ s' => untouched s s') s.
Proof.
  revert remaining adds validated s. induction fuel as [|fuel IH]; intros remaining adds validated s Hf Hg.
  all: destruct remaining as [|b remaining]; [split; [by left|done]|]; cbn [validate_proposals].
  { cbn in Hf. lia. }
  apply wp_bind, wp_library; [|by left]. intros [m rest] Hm. apply wp_bind, wp_library; [|by left]. intros pm _.
  apply message_decode_consumes in Hm. destruct Hg as [g Hg]. apply wp_bind. eapply wp_on_group; [exact Hg|]. intros r g' p Hop.
  set (s1 := with_group _ p s). assert (untouched s s1) as H1.
  { right. exists g, g', p. split; [done|]. split; [done|]. exact (process_message_pending _ _ _ _ _ _ Hop). }
  apply wp_bind, wp_lift. destruct r as [e|[from content]]; [done|]. destruct content as [q|c|]; cbn [snd]; [|by apply wp_throw|by apply wp_throw].
  wp_steps. apply policy_cases; [apply gateway_proposal_safe| |done]. intros is_add _.
  eapply wp_mono; [apply IH; [cbn in *; lia|by eexists]| |]; [intros ? s2 [? ?]; split; [by eapply untouched_trans|done]|intros; by eapply untouched_trans].
Qed.

(** Everything after vetting fails, if at all, with another error. *)
Lemma store_proposals_errors l s :
  is_Some (group s) -> wp (store_proposals l) (fun _ s' => is_Some (group s')) (fun e _ => ~ vetting_error e) s.
Proof.
  revert s. induction l as [|q l IH]; intros s Hg; [done|]. cbn [store_proposals]. destruct Hg as [g Hg]. apply wp_bind.
  eapply wp_try_group; [exact Hg|]. intros r g' p _. cbn zeta. destruct r; [naive_solver|]. apply IH. by eexists.
Qed.

Lemma commit_pending_proposals_errors est adds s :
  is_Some (group s) ->
  wp (commit_pending_proposals est adds) (fun r _ => adds = false -> forall cw, r = Some cw -> cw_welcome cw = None) (fun e _ => ~ vetting_error e) s.
Proof.
  intros [g Hg]. unfold commit_pending_proposals. apply wp_bind. eapply wp_the_group; [exact Hg|]. destruct (pending_proposals (sg_group g)) as [|q l].
  { apply wp_bind. eapply wp_try_group; [exact Hg|]. intros [e|[]] g' p _; cbn zeta; [naive_solver|]. wp_steps. done. }
  apply wp_bind. eapply (wp_mono _ (fun _ s' => is_Some (group s')) _ (fun e _ => ~ vetting_error e)); [| |done].
  { destruct (is_some _); [|wp_steps; by eexists]. apply wp_bind. eapply wp_try_group; [exact Hg|]. intros [e|[]] g' p _; cbn zeta; [naive_solver|]. wp_steps. by eexists. }
  intros ? s1 [g1 Hg1]. wp_steps. eapply wp_try_group; [exact Hg1|]. intros [e|[c w]] g' p _; cbn zeta; [naive_solver|]. wp_steps.
  apply wp_library; [|naive_solver]. intros cb _. wp_steps. destruct adds, w as [w|]; wp_steps; try (by intros _ cw [= <-]).
  destruct (welcome_body w); wp_steps; [|done]. apply wp_library; [|naive_solver]. intros wb _. wp_steps. done.
Qed.

(** ** Properties *)

(** What a media call needs in order not to panic: a frame of bytes, room in
    the sender's frame counter for ten attempts, and a decryptor whose clock has
    not passed the time of the call.  Other calls need nothing. *)
Definition media_safe (s : Session) (call : session_call) : Prop :=
  match call with
  | CallEncrypt _ frame => all_bytes frame /\ Z.of_nat (length frame) < 2 ^ 63 /\
      (active_ratchet (sender s) = None \/ exists secret n, counted secret n (sender s) /\ n + 10 < max_frames)
  | CallDecrypt now u _ frame => all_bytes frame /\ forall d, decryptors s !! u = Some d -> decryptor_ok now d
  | _ => True
  end.

Lemma encrypt_no_panic `{HP : !RatchetLaws P} `{HA : !FrameAeadLaws A} c frame e : all_bytes frame -> Z.of_nat (length frame) < 2 ^ 63 ->
  active_ratchet e = None \/ (exists secret n, counted secret n e /\ n + 10 < max_frames) -> (encrypt_into c frame e).1 ≠ Panic.
Proof.
  intros Hb Hl [Ha|(secret & n & Hc & Hn)].
  - unfold encrypt_into. destruct (process_spec (E := EncryptError) c frame Hb) as (p & kept & -> & _); [unfold u64_mod; lia|].
    change MAX_CIPHERTEXT_VALIDATION_RETRIES with 10%nat. cbn [encrypt_attempts]. unfold advance_cipher. cbn [active_ratchet set_processor]. by rewrite Ha.
  - destruct (encrypt_into_spec c frame secret n e Hc Hn Hb Hl) as (n' & r & e' & Hrun & _ & _ & Hr). rewrite Hrun. cbn [fst]. intros ->. exact Hr.
Qed.

Lemma media_no_panic `{HP : !RatchetLaws P} `{HA : !FrameAeadLaws A} s call : session_inv s -> media_safe s call -> (session_step call s).1 ≠ Panic.
Proof.
  intros Hi Hc. destruct (is_media call) eqn:Hm; [|by apply session_step_ok]. destruct call; try done; cbn [media_safe session_step] in *; unfold discard.
  - destruct Hc as (Hb & Hl & He). pose proof (encrypt_no_panic c frame (sender s) Hb Hl He) as Hnp. unfold session_encrypt_into.
    destruct (encrypt_into c frame (sender s)) as [[b|e|] e']; done.
  - destruct Hc as [Hb Hd]. unfold session_decrypt_into. destruct (decryptors s !! u) as [d|] eqn:Hu; [|done].
    destruct (decrypt_keeps_ok now mt frame d (Hd d eq_refl) Hb) as [Hnp _]. destruct (decrypt now mt frame d) as [[b|e|] d']; done.
Qed.


(** C28. A commit or welcome that is accepted installs the keys of its group: the
    session is active in an established group that the DAVE policy allows with
    the gateway as external sender, every other member and nobody else has a
    decryptor with a ratchet from the group's exporter, and the session's own
    ratchet is staged but not yet used. *)
Theorem epoch_installs_keys u c s now m s' :
  session_reachable u c s -> process_commit now m s = (Ok (), s') \/ process_welcome now m s = (Ok (), s') ->
  exists g gateway us, group s' = Some {| sg_group := g; sg_state := GroupEstablished |} /\ external_sender s' = Some gateway /\
    validate_group_policy (group_ciphersuite g) (group_extensions g) (group_members g) gateway = Ok () /\
    status s' = Active /\ receive_ready s' = true /\ pending_commit s' = None /\
    Forall2 (fun m u => user_id_is (member_credential m) u) (group_members g) us /\ NoDup us /\
    dom (decryptors s') = list_to_set us ∖ {[user_id s]} /\
    (forall v, v ∈ us -> v ≠ user_id s -> exists secret, media_secret g v = inr secret /\
       decryptors s' !! v = Some (transition_to_ratchet now (HashRatchet.new secret) (prior_decryptor now s v))) /\
    exists own, media_secret g (user_id s) = inr own /\ sender s' = stage_ratchet (HashRatchet.new own) (sender s).
Proof.
  intros Hi%session_reachable_ok Hrun. assert (joined now s s') as [(g & gateway & us & Hg & Hgw & Hpol & Hnd & [K1 K2 K3 K4 K5 (K6 & K7 & _)]) Hst Hpc].
  { destruct Hrun as [H|H]; [apply (wp_run _ _ _ _ _ _ (process_commit_ok now m s Hi)) in H|apply (wp_run _ _ _ _ _ _ (process_welcome_ok now m s Hi)) in H]; apply H. }
  exists g, gateway, us. split; [done|]. split; [congruence|]. split; [done|]. split; [done|]. split; [done|]. split; [done|]. split; [done|].
  split; [done|]. split; [by apply K2|]. split; [by apply K3|done].
Qed.

(** C1. Two members of an epoch can talk.  A session has processed its commit or
    welcome and activated its sender, and another session, which may know the
    sender from earlier epochs, has processed its commit or welcome into a group
    with the same exporter secrets.  Then any subsequence of the frames the
    first could encrypt, of fewer than 25 * 2^24 requests, is decrypted by the
    second, in order, to the frames the first processed, if none arrives before
    the age of the key admits its generation. *)
Theorem session_delivery {HP : RatchetLaws P} {HA : FrameAeadLaws A} ua ub c a b ta tb ma mb a' b' ga gb reqs arrivals times :
  session_reachable ua c a -> process_commit ta ma a = (Ok (), a') \/ process_welcome ta ma a = (Ok (), a') ->
  session_reachable ub c b -> process_commit tb mb b = (Ok (), b') \/ process_welcome tb mb b = (Ok (), b') ->
  group a' = Some {| sg_group := ga; sg_state := GroupEstablished |} -> group b' = Some {| sg_group := gb; sg_state := GroupEstablished |} ->
  media_secret ga (user_id a) = media_secret gb (user_id a) ->
  user_id a ∈ dom (decryptors b') -> 10 * Z.of_nat (length reqs) < 250 * 2 ^ 24 ->
  Forall (fun q => all_bytes q.2 /\ Z.of_nat (length q.2) < 2 ^ 63) reqs ->
  arrivals `sublist_of` sent_frames reqs (session_send_all reqs (activate_staged_sender a').2) ->
  Forall2 (fun now a => on_time tb now a.2) times arrivals ->
  exists kepts, Forall2 (fun a kept => kept_of a.1.1 a.1.2 kept) arrivals kepts /\
    session_recv_all (user_id a) (zip times ((fun a => (media_type a.1.1, a.2)) <$> arrivals)) b' = Ok <$> kepts.
Proof.
  intros Ha%session_reachable_ok Hra Hb%session_reachable_ok Hrb Hga Hgb Hsec Hin Hmax Hq Hsub Ht.
  assert (joined ta a a') as [(g1 & gw1 & us1 & Hg1 & _ & _ & _ & K1) _ _].
  { destruct Hra as [H|H]; [apply (wp_run _ _ _ _ _ _ (process_commit_ok ta ma a Ha)) in H|apply (wp_run _ _ _ _ _ _ (process_welcome_ok ta ma a Ha)) in H]; apply H. }
  assert (joined tb b b') as [(g2 & gw2 & us2 & Hg2 & _ & _ & Hnd & K2) _ _].
  { destruct Hrb as [H|H]; [apply (wp_run _ _ _ _ _ _ (process_commit_ok tb mb b Hb)) in H|apply (wp_run _ _ _ _ _ _ (process_welcome_ok tb mb b Hb)) in H]; apply H. }
  assert (g1 = ga) as -> by congruence. assert (g2 = gb) as -> by congruence.
  destruct (ki_sender _ _ _ _ _ K1) as (own & Hown & Hsend).
  rewrite (ki_dom _ _ _ _ _ K2 Hnd), elem_of_difference, elem_of_list_to_set, elem_of_singleton in Hin. destruct Hin as [Hus Hne].
  destruct (ki_decryptors _ _ _ _ _ K2 Hnd _ Hus Hne) as (secret & Hs & Hd). assert (secret = own) as -> by congruence.
  rewrite session_send_all_sender in Hsub.
  assert (sender (activate_staged_sender a').2 = (activate_pending (sender a')).2) as Hact.
  { unfold activate_staged_sender. by destruct (activate_pending (sender a')). }
  rewrite Hact in Hsub.
  destruct (delivery_listening own (sender a') tb (transition_to_ratchet tb (HashRatchet.new own) (prior_decryptor tb b (user_id a))) reqs arrivals times)
    as (kepts & Hk & Hr); try done.
  { by rewrite Hsend. }
  { apply listening_fresh. }
  exists kepts. split; [done|]. rewrite (session_recv_all_decryptor _ _ _ _ Hd), Hr, <- list_fmap_compose. done.
Qed.

(** A vector of proposals is appended as a whole or not at all: if one of its
    messages cannot be decoded, processed, or is not allowed, the pending
    proposals, the pending commit, the status and the media state of the
    session stay as they were. *)
Theorem append_all_or_nothing l expected s e s' :
  process_proposals Append l expected s = (Err e, s') -> vetting_error e ->
  (pending_proposals ∘ sg_group <$> group s') = (pending_proposals ∘ sg_group <$> group s) /\ (sg_state <$> group s') = (sg_state <$> group s) /\
  status s' = status s /\ pending_commit s' = pending_commit s /\ external_sender s' = external_sender s /\
  receive_ready s' = receive_ready s /\ sender s' = sender s /\ decryptors s' = decryptors s.
Proof.
  intros Hrun He. assert (untouched s s') as [->|(g & g' & p & Hg & -> & Hp)]; [|done|cbn; rewrite Hg; cbn; by rewrite Hp].
  revert Hrun. unfold process_proposals. intros Hrun.
  refine ((_ : vetting_error e -> untouched s s') He).
  refine (wp_run _ (fun _ _ => True) (fun e s' => vetting_error e -> untouched s s') _ _ _ _ Hrun). clear Hrun He.
  wp_steps. destruct (group s) as [g|] eqn:Hg; [|by left]. cbn [ok_or]. wp_steps. apply wp_library; [|by left]. intros l' _. wp_steps.
  cbn [apply_proposals]. wp_steps. eapply wp_mono; [apply validate_proposals_untouched; [done|by eexists]| |done].
  intros [adds v] s1 [_ Hs1]. wp_steps. eapply wp_mono; [by apply store_proposals_errors| |done]. intros [] s2 Hs2. wp_steps.
  eapply wp_mono; [by apply commit_pending_proposals_errors|done|done].
Qed.

(** A commit after a revocation never comes with a welcome, whatever is still
    pending: whether the commit adds members is decided from the proposals of
    this call alone, so members added by earlier calls are committed to without
    the welcome they need to join. *)
Theorem revoke_drops_welcome l expected s cw s' :
  process_proposals Revoke l expected s = (Ok (Some cw), s') -> cw_welcome cw = None.
Proof.
  intros Hrun. unfold process_proposals in Hrun. unfold mbind, st_mbind, gets, lift in Hrun. cbn beta in Hrun.
  destruct (group s) as [g|] eqn:Hg; cbn [ok_or] in Hrun; [|done]. unfold library, lift in Hrun. destruct (vlbytes_decode l) as [?|l']; [done|].
  assert (forall n x s0, is_Some (group s0) -> is_Some (group (revoke_proposals n x s0).2)) as Hrev.
  { clear. induction n as [|n IH]; intros [|b x] s0 Hs0; try done. cbn [revoke_proposals]. unfold mbind, st_mbind, library, lift.
    destruct (proposal_ref_decode _) as [?|[ref rest]]; [done|]. unfold try_group, mbind, st_mbind, on_group, library, lift.
    destruct Hs0 as [g0 ->]. destruct (remove_pending_proposal _ _ _) as [[[?|?] g1] p1]; [by eexists|]. apply IH. by eexists. }
  cbn [apply_proposals] in Hrun. unfold mbind, st_mbind, mret, st_mret in Hrun. specialize (Hrev (length l') l' s ltac:(by eexists)).
  destruct (revoke_proposals (length l') l' s) as [[[]|?|] s1]; [|done|done]. cbn [snd] in Hrev.
  apply (wp_run _ _ _ _ _ _ (commit_pending_proposals_errors (group_is_established g) false s1 Hrev)) in Hrun. by apply Hrun.
Qed.

End Session.

(** ** Witnesses: a toy group protocol

    A group is its member list, its epoch and its pending proposals; messages
    are a few bytes; the exporter depends on the epoch and the context only. *)
Module SessionSamples.
Import Gcm.Sample HashRatchet.SampleKdf.

Record toy_group := { toy_users : list Z; toy_epoch : Z; toy_gateway : ExternalSender; toy_pending : list (Z * QueuedProposal); toy_commit : bool }.

Inductive toy_message := ToyAdd (u : Z) | ToyRemove (i : Z) | ToyCommit.

Definition toy_credential (u : Z) : Credential := {| credential_type := CREDENTIAL_BASIC; serialized_content := to_be 8 u |}.

Definition toy_members (us : list Z) : list Member :=
  imap (fun i u => {| member_index := Z.of_nat i; member_credential := toy_credential u; member_signature_key := [u] |}) us.

Definition toy_extensions (e : ExternalSender) : Extensions := {| extension_count := 1; external_senders := Some [e] |}.

Definition toy_context (e : ExternalSender) : GroupContext :=
  {| context_version := PROTOCOL_MLS10; context_ciphersuite := supported_ciphersuite; context_extensions := toy_extensions e |}.

Definition toy_decode (l : bytes) : () + (toy_message * bytes) :=
  match l with
  | 0 :: u :: rest => inr (ToyAdd u, rest)
  | 1 :: i :: rest => inr (ToyRemove i, rest)
  | 2 :: rest => inr (ToyCommit, rest)
  | _ => inl ()
  end.

Definition toy_proposal (p : Proposal) : QueuedProposal := {| proposal_sender := SenderExternal 0; proposal := p; by_reference := true |}.

Definition toy_queued (m : toy_message) : option (Z * QueuedProposal) :=
  match m with
  | ToyAdd u => Some (u, toy_proposal (Add {| leaf_credential := toy_credential u; leaf_extension_count := 0; leaf_capabilities := supported_capabilities |}))
  | ToyRemove i => Some (100 + i, toy_proposal (Remove i))
  | ToyCommit => None
  end.

Definition toy_with (pending : list (Z * QueuedProposal)) (c : bool) (g : toy_group) : toy_group :=
  {| toy_users := toy_users g; toy_epoch := toy_epoch g; toy_gateway := toy_gateway g; toy_pending := pending; toy_commit := c |}.

Definition toy_merge (g : toy_group) : toy_group :=
  {| toy_users := toy_users g ++ omap (fun q => match proposal q.2 with Add _ => Some q.1 | _ => None end) (toy_pending g);
     toy_epoch := toy_epoch g + 1; toy_gateway := toy_gateway g; toy_pending := []; toy_commit := false |}.

#[export] Instance toy_mls : Mls := {|
  provider_t := (); signer_t := Z; mls_group := toy_group; queued := Z * QueuedProposal; staged_commit := list QueuedProposal;
  staged_welcome := bytes; welcome_t := bytes; key_package_t := (); lifetime_t := (); message_in := toy_message; protocol_message := toy_message;
  message_out := bytes; proposal_ref := Z; mls_error := ();
  provider_default := (); storage_clear := Some; signer_public := fun k => [k]; signer_from_raw := fun priv _ => from_be priv;
  external_sender_decode := inr; lifetime_decode := fun _ => inr (); vlbytes_decode := inr; message_decode := toy_decode;
  message_decode_exact := fun l => match toy_decode l with inr (m, []) => inr m | _ => inl () end;
  try_into_protocol_message := inr; message_group_id := fun _ => to_be 8 77;
  proposal_ref_decode := fun l => match l with r :: rest => inr (r, rest) | [] => inl () end;
  welcome_decode := inr; message_serialize := inr; welcome_body := Some; welcome_serialize := inr; key_package_serialize := fun _ => inr [];
  queued_view := snd; group_members := fun g => toy_members (toy_users g); group_ciphersuite := fun _ => supported_ciphersuite;
  group_extensions := fun g => toy_extensions (toy_gateway g); own_leaf_index := fun _ => 0; pending_proposals := toy_pending;
  group_pending_commit := fun g => if toy_commit g then Some (snd <$> toy_pending g) else None;
  epoch_authenticator_of := fun g => [toy_epoch g];
  staged_proposals := id; staged_update_path := fun _ => None; staged_context := fun _ => toy_context [9];
  welcome_context := fun _ => toy_context [9]; welcome_members := fun w => toy_members (drop 1 w);
  key_package_build := fun _ _ _ _ _ p => (inr (), p);
  external_senders_extension := fun l => inr (toy_extensions (concat l));
  group_new := fun e _ _ k _ cr p =>
    (inr {| toy_users := [from_be (serialized_content cr.1)]; toy_epoch := 0;
            toy_gateway := default [] (external_senders e ≫= head); toy_pending := []; toy_commit := false |}, p);
  group_delete := fun _ p => (inr (), p);
  process_message := fun m g p =>
    (match toy_queued m with
     | Some q => inr (SenderExternal 0, ProposalMessage q)
     | None => if toy_commit g then inl OwnCommit else inr (SenderMember 0, StagedCommitMessage (snd <$> toy_pending g))
     end, g, p);
  store_pending_proposal := fun q g p => (inr (), toy_with (toy_pending g ++ [q]) (toy_commit g) g, p);
  remove_pending_proposal := fun r g p => (inr (), toy_with (filter (fun q => q.1 ≠ r) (toy_pending g)) (toy_commit g) g, p);
  clear_pending_commit := fun g p => (inr (), toy_with (toy_pending g) false g, p);
  commit_to_pending_proposals := fun _ g p =>
    (inr ([2], Some ((toy_epoch g + 1) :: toy_users (toy_merge g))), toy_with (toy_pending g) true g, p);
  merge_staged_commit := fun _ g p => (inr (), toy_merge g, p);
  merge_pending_commit := fun g p => (inr (), toy_merge g, p);
  stage_welcome := fun w p => (inr w, p);
  into_group := fun w p =>
    (inr {| toy_users := drop 1 w; toy_epoch := default 0 (head w); toy_gateway := [9]; toy_pending := []; toy_commit := false |}, p);
  export_secret := fun g _ ctx n => inr (take n (toy_epoch g :: ctx ++ replicate n 0));
|}.

#[export] Instance toy_mls_laws : MlsLaws toy_mls.
Proof.
  constructor; cbn.
  - intros [|[|[|x|]|] [|y l]] m rest; cbn; try done; try (intros [= _ <-]; cbn; lia); try (destruct x; try done; intros [= _ <-]; cbn; lia).
  - intros [|r l] m rest; [done|]. intros [= _ <-]. cbn. lia.
  - by eexists.
  - by eexists.
  - by intros ? ? ? ? ? ? ? ? ? [= <- _].
  - by intros ? ? ? ? [= <- _].
  - by intros ? ? ? ? ? ? [= _ <- _].
  - intros ? ? ? ? ? ? [= _ <- _] x. cbn. rewrite elem_of_app, list_elem_of_singleton. done.
  - intros ? ? ? ? ? ? [= _ <- _] x. cbn. rewrite list_elem_of_filter. by intros [_ ?].
  - by intros ? ? ? ? ? [= _ <- _].
  - by intros ? ? ? ? ? ? [= _ <- _].
  - intros ? ? ? ? ? ? [= _ <- _] x. cbn. by rewrite elem_of_nil.
  - intros ? ? ? ? ? [= _ <- _] x. cbn. by rewrite elem_of_nil.
Qed.

(** User 5 creates the group, adds user 6 on the gateway's proposal, and both
    follow the commit. *)
Definition anyone (u : Z) : bool := true.

Definition alice_before : Session :=
  (session_step (CallProcessProposals Append [0; 6] anyone) (session_step (CallSetExternalSender [9]) (session_new 0 1 5 77)).2).2.

Definition bob_before : Session := (session_step (CallSetExternalSender [9]) (session_new 0 2 6 77)).2.

Definition alice : Session := (process_commit 10 [2] alice_before).2.
Definition bob : Session := (process_welcome 20 [1; 5; 6] bob_before).2.

Lemma run_result {E B} (m : st Session E B) s r : (m s).1 = r -> m s = (r, (m s).2).
Proof. intros <-. by destruct (m s). Qed.

Lemma none_of {B} (o : option B) : is_some o = false -> o = None.
Proof. by destruct o. Qed.

Definition succeeded {E} (r : res E ()) : bool := match r with Ok _ => true | _ => false end.

Lemma succeeded_ok {E} (r : res E ()) : succeeded r = true -> r = Ok ().
Proof. by destruct r as [[]| |]. Qed.

Lemma alice_commit : process_commit 10 [2] alice_before = (Ok (), alice).
Proof. unfold alice. apply (run_result (process_commit 10 [2]) alice_before (Ok ())). apply succeeded_ok. vm_compute. reflexivity. Qed.

Lemma bob_welcome : process_welcome 20 [1; 5; 6] bob_before = (Ok (), bob).
Proof. unfold bob. apply (run_result (process_welcome 20 [1; 5; 6]) bob_before (Ok ())). apply succeeded_ok. vm_compute. reflexivity. Qed.

Lemma alice_before_reachable : session_reachable 5 77 alice_before.
Proof. apply reachable_step, reachable_step, reachable_new. Qed.

Lemma bob_before_reachable : session_reachable 6 77 bob_before.
Proof. apply reachable_step, reachable_new. Qed.

Lemma alice_reachable : session_reachable 5 77 alice.
Proof.
  pose proof (reachable_step 5 77 (CallProcessCommit 10 [2]) alice_before alice_before_reachable) as H. unfold session_step, discard in H. unfold alice.
  by destruct (process_commit 10 [2] alice_before) as [r s].
Qed.


Lemma epoch_installs_keys_witness :
  exists g gateway us, group alice = Some {| sg_group := g; sg_state := GroupEstablished |} /\ external_sender alice = Some gateway /\
    validate_group_policy (group_ciphersuite g) (group_extensions g) (group_members g) gateway = Ok () /\
    status alice = Active /\ receive_ready alice = true /\ pending_commit alice = None /\
    Forall2 (fun m u => user_id_is (member_credential m) u) (group_members g) us /\ NoDup us /\
    dom (decryptors alice) = list_to_set us ∖ {[user_id alice_before]} /\
    (forall v, v ∈ us -> v ≠ user_id alice_before -> exists secret, media_secret g v = inr secret /\
       decryptors alice !! v = Some (transition_to_ratchet 10 (HashRatchet.new secret) (prior_decryptor 10 alice_before v))) /\
    exists own, media_secret g (user_id alice_before) = inr own /\ sender alice = stage_ratchet (HashRatchet.new own) (sender alice_before).
Proof. apply (epoch_installs_keys 5 77 alice_before 10 [2] alice); [apply alice_before_reachable|left; apply alice_commit]. Defined.

Definition undecodable {B} (r : res (ProcessProposalsError (M := toy_mls)) B) : bool := match r with Err (DeserializeMessage _) => true | _ => false end.

Lemma undecodable_err {B} (r : res (ProcessProposalsError (M := toy_mls)) B) : undecodable r = true -> r = Err (DeserializeMessage (M := toy_mls) tt).
Proof. destruct r as [|[]|]; try done. by destruct e. Qed.

Lemma append_all_or_nothing_witness :
  let s' := (process_proposals Append [0; 7; 9] anyone alice_before).2 in
  (pending_proposals ∘ sg_group <$> group s') = (pending_proposals ∘ sg_group <$> group alice_before) /\
  (sg_state <$> group s') = (sg_state <$> group alice_before) /\
  status s' = status alice_before /\ pending_commit s' = pending_commit alice_before /\ external_sender s' = external_sender alice_before /\
  receive_ready s' = receive_ready alice_before /\ sender s' = sender alice_before /\ decryptors s' = decryptors alice_before.
Proof.
  apply (append_all_or_nothing [0; 7; 9] anyone alice_before (DeserializeMessage (M := toy_mls) tt) (process_proposals Append [0; 7; 9] anyone alice_before).2);
    [apply (run_result (process_proposals Append [0; 7; 9] anyone) alice_before); apply undecodable_err; vm_compute; reflexivity|exact I].
Defined.

(** Users 6 and 7 are proposed and 7 is revoked: the commit adds 6, the library
    has a welcome for it, and none is sent. *)
Definition no_welcome {E} (r : res E (option CommitWelcome)) : bool :=
  match r with Ok (Some {| cw_commit := [2]; cw_welcome := None |}) => true | _ => false end.

Lemma no_welcome_ok {E} (r : res E (option CommitWelcome)) : no_welcome r = true -> r = Ok (Some {| cw_commit := [2]; cw_welcome := None |}).
Proof. destruct r as [[[c w]|]|e|]; try done. destruct w; [|]; by destruct c as [|[|[[]|[]|]|] []]. Qed.

Definition revoking : Session := (session_step (CallProcessProposals Append [0; 6; 0; 7] anyone) bob_before).2.

Lemma revoke_drops_welcome_witness :
  let s' := (process_proposals Revoke [7] anyone revoking).2 in
  (fst <$> (toy_pending ∘ sg_group <$> group s') ≫= head) = Some 6 /\
  process_proposals Revoke [7] anyone revoking = (Ok (Some {| cw_commit := [2]; cw_welcome := None |}), s') /\
  cw_welcome {| cw_commit := [2]; cw_welcome := None |} = None.
Proof.
  split; [vm_compute; reflexivity|]. split; [apply (run_result (process_proposals Revoke [7] anyone) revoking), no_welcome_ok; vm_compute; reflexivity|].
  apply (revoke_drops_welcome [7] anyone revoking _ (process_proposals Revoke [7] anyone revoking).2). apply (run_result (process_proposals Revoke [7] anyone) revoking), no_welcome_ok. vm_compute. reflexivity.
Defined.

Definition requests : list (MediaCodec * bytes) := [(Opus, [1; 2]); (Vp8, [1; 3; 4])].

Definition outputs : list bytes :=
  omap (fun r => match r with Ok out => Some out | _ => None end) (session_send_all requests (activate_staged_sender alice).2).

Lemma session_delivery_witness :
  exists kepts, Forall2 (fun a kept => kept_of a.1.1 a.1.2 kept) (zip requests outputs) kepts /\
    session_recv_all (user_id alice_before) (zip [21; 22] ((fun a => (media_type a.1.1, a.2)) <$> zip requests outputs)) bob = Ok <$> kepts.
Proof.
  apply (session_delivery 5 6 77 alice_before bob_before 10 20 [2] [1; 5; 6] alice bob
           {| toy_users := [5; 6]; toy_epoch := 1; toy_gateway := [9]; toy_pending := []; toy_commit := false |}
           {| toy_users := [5; 6]; toy_epoch := 1; toy_gateway := [9]; toy_pending := []; toy_commit := false |}
           requests (zip requests outputs) [21; 22]).
  - apply alice_before_reachable.
  - left. apply alice_commit.
  - apply bob_before_reachable.
  - right. apply bob_welcome.
  - vm_compute. reflexivity.
  - vm_compute. reflexivity.
  - vm_compute. reflexivity.
  - vm_compute. reflexivity.
  - vm_compute. reflexivity.
  - repeat (apply Forall_cons; split; [cbn; split; [solve_bytes|lia]|]). apply Forall_nil. exact I.
  - vm_compute. reflexivity.
  - apply all_on_time. vm_compute. reflexivity.
Defined.
End SessionSamples.
End Session.
