(* ===== verification/Coordinator.v ===== *)
(** * The DAVE coordinator (cacophony/src/dave.rs, dave/src/version.rs)

    [DaveCoordinator] drives the session from the gateway's state: [pump] runs
    after every gateway event and returns the commands to send.  It is written
    against [DaveSession], the interface of the session, which Session.v
    implements (the instance at the end).  The observer's callbacks do not
    change anything and are left out; [now] is the reading of the clock at the
    call of [pump]. *)

From S2P Require Import Prelude Effects Gcm Frame Ratchet Cryptor MlsPolicy Identity Session DaveGateway Gateway.
Import DaveGateway.DaveGateway Gateway.Gateway Cryptor.Passthrough.

Module Coordinator.

#[export] Instance PassthroughMode_eq_dec : EqDecision PassthroughMode.
Proof. solve_decision. Defined.

(** ** The interface of the session

    [session_key] is the key in use for sending, [session_media s s'] that
    encrypting or decrypting a frame takes [s] to [s']. *)
Class DaveSession := {
  session_t : Type;
  init_error : Type; set_sender_error : Type; key_package_error : Type; proposals_error : Type; welcome_error : Type; commit_error : Type;
  sending_key_t : Type;
  session_create : Z -> Identity.IdentityKeyPair -> Z -> Z -> init_error + session_t;
  session_receive_ready : session_t -> bool;
  session_key : session_t -> option sending_key_t;
  session_set_external_sender : bytes -> st session_t set_sender_error ();
  session_create_key_package : st session_t key_package_error bytes;
  session_process_proposals : Session.ProposalsOperation -> bytes -> (Z -> bool) -> st session_t proposals_error (option Session.CommitWelcome);
  session_process_welcome : Z -> bytes -> st session_t welcome_error ();
  session_process_commit : Z -> bytes -> st session_t commit_error ();
  session_activate : session_t -> bool * session_t;
  session_set_passthrough : Z -> PassthroughMode -> session_t -> session_t;
  session_media : session_t -> session_t -> Prop;
}.

(** What the coordinator relies on: no operation panics on a session made by
    the interface, only [session_activate] changes the key in use, activating
    twice does nothing, and key packages and passthrough do not stage a key. *)
Class DaveSessionLaws (D : DaveSession) := {
  session_ok : session_t -> Prop;
  session_create_ok : forall now k u c s, session_create now k u c = inr s -> session_ok s /\ session_receive_ready s = false /\ session_key s = None;
  session_set_external_sender_ok : forall l s, session_ok s -> wp (session_set_external_sender l) (fun _ s' => session_ok s') (fun _ s' => session_ok s') s;
  session_create_key_package_ok : forall s, session_ok s -> wp session_create_key_package (fun _ s' => session_ok s') (fun _ s' => session_ok s') s;
  session_process_proposals_ok : forall op l x s, session_ok s ->
    wp (session_process_proposals op l x) (fun _ s' => session_ok s') (fun _ s' => session_ok s') s;
  session_process_welcome_ok : forall now w s, session_ok s -> wp (session_process_welcome now w) (fun _ s' => session_ok s') (fun _ s' => session_ok s') s;
  session_process_commit_ok : forall now m s, session_ok s -> wp (session_process_commit now m) (fun _ s' => session_ok s') (fun _ s' => session_ok s') s;
  session_activate_ok : forall s, session_ok s -> session_ok (session_activate s).2;
  session_set_passthrough_ok : forall now m s, session_ok s -> session_ok (session_set_passthrough now m s);
  session_media_ok : forall s s', session_ok s -> session_media s s' -> session_ok s';
  session_set_external_sender_key : forall l, keeps session_key (session_set_external_sender l);
  session_create_key_package_key : keeps session_key session_create_key_package;
  session_process_proposals_key : forall op l x, keeps session_key (session_process_proposals op l x);
  session_process_welcome_key : forall now w, keeps session_key (session_process_welcome now w);
  session_process_commit_key : forall now m, keeps session_key (session_process_commit now m);
  session_set_passthrough_key : forall now m s, session_key (session_set_passthrough now m s) = session_key s;
  session_activate_idle : forall s, (session_activate s).1 = false -> (session_activate s).2 = s;
  session_activate_twice : forall s, (session_activate (session_activate s).2).1 = false;
  session_create_key_package_staged : keeps (fun s => (session_activate s).1) session_create_key_package;
  session_set_passthrough_staged : forall now m s, (session_activate (session_set_passthrough now m s)).1 = (session_activate s).1;
}.

(** ** Protocol versions (dave/src/version.rs) *)
Inductive DaveProtocolVersion := V1.

Definition version_get (v : DaveProtocolVersion) : Z := match v with V1 => 1 end.

Definition version_new (v : Z) : option DaveProtocolVersion := if v =? 1 then Some V1 else None.

(** ** Data *)
Definition NANOS_PER_SEC : Z := 1000000000.
Definition DAVE_PLAINTEXT_RECEIVE_GRACE : Z := 10 * NANOS_PER_SEC.

Record DavePassthroughController := { last_applied : option PassthroughMode }.

Record DavePreparedEpoch := { pe_epoch : Z; pe_protocol_version : Z; pe_seq : Z }.

#[export] Instance DavePreparedEpoch_eq_dec : EqDecision DavePreparedEpoch.
Proof. solve_decision. Defined.

Definition prepared_epoch_from_state (d : DaveInternalState) : option DavePreparedEpoch :=
  match DaveGateway.DaveGateway.protocol_version d with
  | None => None
  | Some v =>
      if v =? 0 then None
      else match dave_epoch d with
           | None => None
           | Some e => Some {| pe_epoch := e; pe_protocol_version := v; pe_seq := prepare_epoch_seq d |}
           end
  end.

Inductive DaveKeyPackageScope := ScopeSession (protocol_version : Z) | ScopeEpoch (e : DavePreparedEpoch).

#[export] Instance DaveKeyPackageScope_eq_dec : EqDecision DaveKeyPackageScope.
Proof. solve_decision. Defined.

Definition scope_from_state (d : DaveInternalState) (prepared : option DavePreparedEpoch) : option DaveKeyPackageScope :=
  let session_scope :=
    match DaveGateway.DaveGateway.protocol_version d with
    | None => None
    | Some v => if v >? 0 then Some (ScopeSession v) else None
    end in
  match prepared with
  | Some e => if pe_epoch e =? 1 then Some (ScopeEpoch e) else session_scope
  | None => session_scope
  end.

Record DaveGatewayStateEvent := {
  ev_protocol_version : option Z; ev_transition_id : option Z; ev_epoch : option Z; ev_prepare_epoch_seq : Z;
  ev_passthrough : bool; ev_mls : DaveMlsState }.

#[export] Instance DavePendingMlsState_eq_dec : EqDecision DavePendingMlsState.
Proof. solve_decision. Defined.
#[export] Instance DaveMlsState_eq_dec : EqDecision DaveMlsState.
Proof. solve_decision. Defined.
#[export] Instance DaveGatewayStateEvent_eq_dec : EqDecision DaveGatewayStateEvent.
Proof. solve_decision. Defined.

Definition event_from_state (d : DaveInternalState) : DaveGatewayStateEvent :=
  {| ev_protocol_version := DaveGateway.DaveGateway.protocol_version d; ev_transition_id := transition_id d; ev_epoch := dave_epoch d;
     ev_prepare_epoch_seq := prepare_epoch_seq d; ev_passthrough := dave_passthrough d; ev_mls := mls_state d |}.

Inductive DaveProposalsPayloadError := MissingOperation | InvalidOperation (operation : Z).

(** [DaveProposalsOperation::parse] *)
Definition parse_operation (payload : bytes) : res DaveProposalsPayloadError (Session.ProposalsOperation * bytes) :=
  match payload with
  | [] => Err MissingOperation
  | op :: proposals =>
      if op =? 0 then Ok (Session.Append, proposals)
      else if op =? 1 then Ok (Session.Revoke, proposals)
      else Err (InvalidOperation op)
  end.

Section Coordinator.
Context `{D : DaveSession}.

Record DaveCoordinator := {
  session : session_t;
  identity : Identity.IdentityKeyPair;
  user_id : Z;
  channel_id : Z;
  external_sender_set : bool;
  sent_key_package_for : option DaveKeyPackageScope;
  processed_proposals : nat;
  processed_mls : DaveMlsSlots PendingDaveMlsMessage;
  transition_ready : option Z;
  prepared_epoch : option DavePreparedEpoch;
  last_gateway_state : option DaveGatewayStateEvent;
  passthrough : DavePassthroughController;
}.

Inductive DaveError :=
| InvalidProtocolVersion (version : Z)
| CreateSession (e : init_error)
| SetExternalSender (e : set_sender_error)
| CreateKeyPackage (e : key_package_error)
| ProcessWelcome (e : welcome_error)
| ProcessCommit (e : commit_error)
| RecoverInvalidGroup (k : DaveMlsMessageKind) (original recovery : DaveError)
| InvalidProposalsPayload (e : DaveProposalsPayloadError).

Definition with_session (s : session_t) (c : DaveCoordinator) : DaveCoordinator :=
  {| session := s; identity := identity c; user_id := user_id c; channel_id := channel_id c; external_sender_set := external_sender_set c;
     sent_key_package_for := sent_key_package_for c; processed_proposals := processed_proposals c; processed_mls := processed_mls c; transition_ready := transition_ready c;
     prepared_epoch := prepared_epoch c; last_gateway_state := last_gateway_state c; passthrough := passthrough c |}.

Definition with_external_sender_set (b : bool) (c : DaveCoordinator) : DaveCoordinator :=
  {| session := session c; identity := identity c; user_id := user_id c; channel_id := channel_id c; external_sender_set := b;
     sent_key_package_for := sent_key_package_for c; processed_proposals := processed_proposals c; processed_mls := processed_mls c; transition_ready := transition_ready c;
     prepared_epoch := prepared_epoch c; last_gateway_state := last_gateway_state c; passthrough := passthrough c |}.

Definition with_sent_key_package_for (x : option DaveKeyPackageScope) (c : DaveCoordinator) : DaveCoordinator :=
  {| session := session c; identity := identity c; user_id := user_id c; channel_id := channel_id c; external_sender_set := external_sender_set c;
     sent_key_package_for := x; processed_proposals := processed_proposals c; processed_mls := processed_mls c; transition_ready := transition_ready c;
     prepared_epoch := prepared_epoch c; last_gateway_state := last_gateway_state c; passthrough := passthrough c |}.

Definition with_processed_proposals (n : nat) (c : DaveCoordinator) : DaveCoordinator :=
  {| session := session c; identity := identity c; user_id := user_id c; channel_id := channel_id c; external_sender_set := external_sender_set c;
     sent_key_package_for := sent_key_package_for c; processed_proposals := n; processed_mls := processed_mls c; transition_ready := transition_ready c;
     prepared_epoch := prepared_epoch c; last_gateway_state := last_gateway_state c; passthrough := passthrough c |}.

Definition with_processed_mls (x : DaveMlsSlots PendingDaveMlsMessage) (c : DaveCoordinator) : DaveCoordinator :=
  {| session := session c; identity := identity c; user_id := user_id c; channel_id := channel_id c; external_sender_set := external_sender_set c;
     sent_key_package_for := sent_key_package_for c; processed_proposals := processed_proposals c; processed_mls := x; transition_ready := transition_ready c;
     prepared_epoch := prepared_epoch c; last_gateway_state := last_gateway_state c; passthrough := passthrough c |}.

Definition with_transition_ready (x : option Z) (c : DaveCoordinator) : DaveCoordinator :=
  {| session := session c; identity := identity c; user_id := user_id c; channel_id := channel_id c; external_sender_set := external_sender_set c;
     sent_key_package_for := sent_key_package_for c; processed_proposals := processed_proposals c; processed_mls := processed_mls c; transition_ready := x;
     prepared_epoch := prepared_epoch c; last_gateway_state := last_gateway_state c; passthrough := passthrough c |}.

Definition with_prepared_epoch (x : option DavePreparedEpoch) (c : DaveCoordinator) : DaveCoordinator :=
  {| session := session c; identity := identity c; user_id := user_id c; channel_id := channel_id c; external_sender_set := external_sender_set c;
     sent_key_package_for := sent_key_package_for c; processed_proposals := processed_proposals c; processed_mls := processed_mls c; transition_ready := transition_ready c;
     prepared_epoch := x; last_gateway_state := last_gateway_state c; passthrough := passthrough c |}.

Definition with_last_gateway_state (x : option DaveGatewayStateEvent) (c : DaveCoordinator) : DaveCoordinator :=
  {| session := session c; identity := identity c; user_id := user_id c; channel_id := channel_id c; external_sender_set := external_sender_set c;
     sent_key_package_for := sent_key_package_for c; processed_proposals := processed_proposals c; processed_mls := processed_mls c; transition_ready := transition_ready c;
     prepared_epoch := prepared_epoch c; last_gateway_state := x; passthrough := passthrough c |}.

Definition with_passthrough (s : session_t) (x : DavePassthroughController) (c : DaveCoordinator) : DaveCoordinator :=
  {| session := s; identity := identity c; user_id := user_id c; channel_id := channel_id c; external_sender_set := external_sender_set c;
     sent_key_package_for := sent_key_package_for c; processed_proposals := processed_proposals c; processed_mls := processed_mls c; transition_ready := transition_ready c;
     prepared_epoch := prepared_epoch c; last_gateway_state := last_gateway_state c; passthrough := x |}.

(** ** Construction *)
Definition coordinator_new (now : Z) (u ch : Z) (k : Identity.IdentityKeyPair) : res DaveError DaveCoordinator :=
  match session_create now (Identity.duplicate_for_session k) u ch with
  | inl e => Err (CreateSession e)
  | inr s =>
      Ok {| session := s; identity := k; user_id := u; channel_id := ch; external_sender_set := false; sent_key_package_for := None;
            processed_proposals := 0; processed_mls := slots_default; transition_ready := None; prepared_epoch := None;
            last_gateway_state := None; passthrough := {| last_applied := None |} |}
  end.

Definition coordinator_ready (c : DaveCoordinator) : bool := session_receive_ready (session c).
Definition send_ready (c : DaveCoordinator) : bool := is_some (session_key (session c)).

(** ** Passthrough *)
Definition force_apply (now : Z) (mode : PassthroughMode) (c : DaveCoordinator) : DaveCoordinator :=
  with_passthrough (session_set_passthrough now mode (session c)) {| last_applied := Some mode |} c.

(** [DavePassthroughController::apply] through [set_passthrough_mode] *)
Definition set_passthrough_mode (now : Z) (mode : PassthroughMode) (c : DaveCoordinator) : DaveCoordinator :=
  if bool_decide (last_applied (passthrough c) = Some mode) then c else force_apply now mode c.

(** [allow_for(DAVE_PLAINTEXT_RECEIVE_GRACE)] *)
Definition allow_plaintext_receive_grace (now : Z) (c : DaveCoordinator) : DaveCoordinator :=
  force_apply now (DisabledAfter DAVE_PLAINTEXT_RECEIVE_GRACE)
    (with_passthrough (session_set_passthrough now Enabled (session c)) (passthrough c) c).

Definition invalidate (c : DaveCoordinator) : DaveCoordinator := with_passthrough (session c) {| last_applied := None |} c.

(** ** The state of a pump: the coordinator and the commands so far *)
Definition pumping (E A : Type) := st (DaveCoordinator * list GatewayCommand) E A.

Definition here {E A} (f : DaveCoordinator -> A) : pumping E A := gets (fun x => f x.1).
Definition update {E} (f : DaveCoordinator -> DaveCoordinator) : pumping E () := modify (fun x => (f x.1, x.2)).
Definition push_command {E} (cmd : GatewayCommand) : pumping E () := modify (fun x => (x.1, x.2 ++ [cmd])).

(** An operation of the session. *)
Definition on_session {E A} (m : st session_t E A) : pumping E A :=
  fun x => let '(r, s) := m (session x.1) in (r, (with_session s x.1, x.2)).

Definition observe_gateway_state (d : DaveInternalState) (c : DaveCoordinator) : DaveCoordinator :=
  if bool_decide (last_gateway_state c = Some (event_from_state d)) then c else with_last_gateway_state (Some (event_from_state d)) c.

Definition activate_sender_if_transition_executed (d : DaveInternalState) (c : DaveCoordinator) : DaveCoordinator :=
  if negb (is_some (transition_id d)) && (version_or_zero (active_send_protocol_version d) >? 0) then
    let '(b, s) := session_activate (session c) in
    if (b : bool) then with_transition_ready None (with_session s c) else with_session s c
  else c.

Definition activate_sender_if_transition_zero_ready (d : DaveInternalState) (c : DaveCoordinator) : DaveCoordinator :=
  if transition_zero_media_ready (transition_ready c) d then with_session (session_activate (session c)).2 c else c.

Definition replace_session (now : Z) (v : Z) : pumping DaveError () :=
  if v =? 0 then throw (InvalidProtocolVersion v)
  else match version_new v with
       | None => throw (InvalidProtocolVersion v)
       | Some _ =>
           c ← here id;
           match session_create now (Identity.duplicate_for_session (identity c)) (user_id c) (channel_id c) with
           | inl e => throw (CreateSession e)
           | inr s => update (fun c => with_external_sender_set false (invalidate (with_session s c)))
           end
       end.

Definition sync_prepared_epoch (now : Z) (d : DaveInternalState) : pumping DaveError () :=
  c ← here id;
  if bool_decide (prepared_epoch c = prepared_epoch_from_state d) then mret ()
  else
    _ ← match prepared_epoch_from_state d with
        | Some e =>
            _ ← update (fun c => with_processed_mls (slots_clear (processed_mls c)) (with_processed_proposals 0 (with_sent_key_package_for None c)));
            c ← here id;
            if (pe_epoch e =? 1) && negb (coordinator_ready c)
            then _ ← update (with_transition_ready None); replace_session now (pe_protocol_version e)
            else mret ()
        | None => mret ()
        end;
    update (with_prepared_epoch (prepared_epoch_from_state d)).

Definition mark_transition_ready (now : Z) (transition : option Z) (v : option Z) : pumping DaveError () :=
  match transition with
  | None => mret ()
  | Some t =>
      c ← here id;
      if bool_decide (transition_ready c = Some t) then mret ()
      else
        _ ← update (with_transition_ready (Some t));
        if t =? 0 then (if version_or_zero v >? 0 then update (allow_plaintext_receive_grace now) else mret ())
        else push_command (CmdDaveProtocolTransitionReady t)
  end.

Definition recover_after_invalid_group (now : Z) (d : DaveInternalState) : pumping DaveError () :=
  match DaveGateway.DaveGateway.protocol_version d with
  | None => mret ()
  | Some v =>
      if v =? 0 then update (set_passthrough_mode now Enabled)
      else
        _ ← replace_session now v;
        _ ← match external_sender d with
            | Some e => _ ← try_err SetExternalSender (on_session (session_set_external_sender e)); update (with_external_sender_set true)
            | None => mret ()
            end;
        c ← here id;
        _ ← match scope_from_state d (prepared_epoch c) with
            | Some scope =>
                k ← try_err CreateKeyPackage (on_session session_create_key_package);
                _ ← push_command (CmdDaveMlsKeyPackage k);
                update (with_sent_key_package_for (Some scope))
            | None => mret ()
            end;
        update (with_processed_proposals (length (proposals d)))
  end.

(** The result of a method as a value. *)
Definition catch {S E A} (m : st S E A) : st S E (E + A) :=
  fun s => match m s with (Ok a, s) => (Ok (inr a), s) | (Err e, s) => (Ok (inl e), s) | (Panic, s) => (Panic, s) end.

Definition process_mls_message (now : Z) (d : DaveInternalState) (m : PendingDaveMlsMessage) : pumping DaveError () :=
  c ← here id;
  if bool_decide (slots_get (kind (DaveGateway.DaveGateway.identity m)) (processed_mls c) = Some m) then mret ()
  else
    result ← catch (match kind (DaveGateway.DaveGateway.identity m) with
                    | Commit => try_err ProcessCommit (on_session (session_process_commit now (payload m)))
                    | Welcome => try_err ProcessWelcome (on_session (session_process_welcome now (payload m)))
                    end);
    _ ← update (fun c => with_processed_mls (set_message m (processed_mls c)) c);
    match result with
    | inr _ => mark_transition_ready now (transition_id d) (DaveGateway.DaveGateway.protocol_version d)
    | inl error =>
        _ ← match transition_id d with
            | Some t => push_command (CmdDaveMlsInvalidCommitWelcome t)
            | None => mret ()
            end;
        recovered ← catch (recover_after_invalid_group now d);
        match recovered with
        | inl recovery => throw (RecoverInvalidGroup (kind (DaveGateway.DaveGateway.identity m)) error recovery)
        | inr _ => throw error
        end
    end.

Fixpoint process_mls_messages (now : Z) (d : DaveInternalState) (l : list PendingDaveMlsMessage) : pumping DaveError () :=
  match l with [] => mret () | m :: l => _ ← process_mls_message now d m; process_mls_messages now d l end.

(** The loop over the proposals that have not been processed. *)
Fixpoint process_new_proposals (connected : gset Z) (l : list bytes) : pumping DaveError () :=
  match l with
  | [] => mret ()
  | p :: l =>
      '(op, proposals) ← lift (map_err InvalidProposalsPayload (parse_operation p));
      r ← (fun x => match on_session (session_process_proposals op proposals (fun u => bool_decide (u ∈ connected))) x with
                    | (Ok cw, x) => (Ok (inr cw), x) | (Err e, x) => (Ok (inl e), x) | (Panic, x) => (Panic, x) end);
      _ ← match r with
          | inr (Some cw) => push_command (CmdDaveMlsCommitWelcome (Session.cw_commit cw) (Session.cw_welcome cw))
          | inr None | inl _ => mret ()
          end;
      _ ← update (fun c => with_processed_proposals (S (processed_proposals c)) c);
      process_new_proposals connected l
  end.

(** [pump] with DAVE: after the passthrough mode is set. *)
Definition pump_session (now : Z) (d : DaveInternalState) (connected : gset Z) (roster_authoritative : bool) : pumping DaveError () :=
  c ← here id;
  _ ← match external_sender d with
      | Some e => if external_sender_set c then mret ()
                  else _ ← try_err SetExternalSender (on_session (session_set_external_sender e)); update (with_external_sender_set true)
      | None => mret ()
      end;
  c ← here id;
  _ ← match scope_from_state d (prepared_epoch c) with
      | Some scope =>
          if bool_decide (sent_key_package_for c = Some scope) then mret ()
          else
            k ← try_err CreateKeyPackage (on_session session_create_key_package);
            _ ← push_command (CmdDaveMlsKeyPackage k);
            update (with_sent_key_package_for (Some scope))
      | None => mret ()
      end;
  c ← here id;
  if negb (external_sender_set c) then mret ()
  else
    _ ← update (activate_sender_if_transition_executed d);
    _ ← update (fun c => if (length (proposals d) <? processed_proposals c)%nat then with_processed_proposals 0 c else c);
    c ← here id;
    if (processed_proposals c <? length (proposals d))%nat && negb roster_authoritative then mret ()
    else
      _ ← process_new_proposals connected (drop (processed_proposals c) (proposals d));
      _ ← process_mls_messages now d (welcome_then_commit (pending_mls d));
      _ ← update (activate_sender_if_transition_zero_ready d);
      update (activate_sender_if_transition_executed d).

Definition pump_body (now : Z) (d : DaveInternalState) (connected : gset Z) (roster_authoritative : bool) : pumping DaveError () :=
  _ ← update (observe_gateway_state d);
  _ ← sync_prepared_epoch now d;
  _ ← update (activate_sender_if_transition_executed d);
  if version_or_zero (DaveGateway.DaveGateway.protocol_version d) =? 0 then
    _ ← update (set_passthrough_mode now Enabled);
    mark_transition_ready now (transition_id d) (DaveGateway.DaveGateway.protocol_version d)
  else
    _ ← update (set_passthrough_mode now (DisabledAfter DAVE_PLAINTEXT_RECEIVE_GRACE));
    pump_session now d connected roster_authoritative.

(** [pump]: the commands are a local vector, returned on success. *)
Definition pump (now : Z) (d : DaveInternalState) (connected : gset Z) (roster_authoritative : bool) : st DaveCoordinator DaveError (list GatewayCommand) :=
  fun c => match pump_body now d connected roster_authoritative (c, []) with
           | (Ok _, (c, commands)) => (Ok commands, c)
           | (Err e, (c, _)) => (Err e, c)
           | (Panic, (c, _)) => (Panic, c)
           end.

(** ** The media status *)
Definition ready_from (requires_dave session_ready send_is_ready gateway_ready : bool) : bool :=
  negb requires_dave || (session_ready && send_is_ready && gateway_ready).

(** ** Symbolic execution of a pump *)
Context {HD : DaveSessionLaws D}.

Lemma wp_here {E B} (f : DaveCoordinator -> B) (Q : B -> DaveCoordinator * list GatewayCommand -> Prop) (R : E -> _ -> Prop) x :
  Q (f x.1) x -> wp (here f) Q R x.
Proof. done. Qed.

Lemma wp_update {E} (f : DaveCoordinator -> DaveCoordinator) (Q : () -> _ -> Prop) (R : E -> _ -> Prop) x : Q () (f x.1, x.2) -> wp (update f) Q R x.
Proof. done. Qed.

Lemma wp_push {E} cmd (Q : () -> _ -> Prop) (R : E -> _ -> Prop) x : Q () (x.1, x.2 ++ [cmd]) -> wp (push_command cmd) Q R x.
Proof. done. Qed.

(** The outcome of an operation of the session: any value or error, a session
    in order, and the same key in use. *)
Lemma wp_on_session {E B} (m : st session_t E B) (Q : B -> _ -> Prop) (R : E -> _ -> Prop) x :
  session_ok (session x.1) -> keeps session_key m ->
  (forall s, session_ok s -> wp m (fun _ s' => session_ok s') (fun _ s' => session_ok s') s) ->
  (forall b s', session_ok s' -> session_key s' = session_key (session x.1) -> m (session x.1) = (Ok b, s') -> Q b (with_session s' x.1, x.2)) ->
  (forall e s', session_ok s' -> session_key s' = session_key (session x.1) -> R e (with_session s' x.1, x.2)) ->
  wp (on_session m) Q R x.
Proof.
  intros Hx Hk Hm HQ HR. specialize (Hm _ Hx). specialize (Hk (session x.1)). unfold wp, on_session in *.
  destruct (m (session x.1)) as [[b|e|] s'] eqn:Hrun; cbn in *; [by apply HQ|by apply HR|done].
Qed.

Lemma wp_catch {E B} (m : pumping E B) (Q : E + B -> _ -> Prop) (R : E -> _ -> Prop) x :
  wp m (fun b => Q (inr b)) (fun e => Q (inl e)) x -> wp (catch m) Q R x.
Proof. unfold wp, catch. by destruct (m x) as [[b|e|] x']. Qed.

Section Pump.
Context (now : Z) (d : DaveInternalState) (c0 : DaveCoordinator).

(** The gateway executed the transition and sends with DAVE. *)
Definition executed : bool := negb (is_some (transition_id d)) && (version_or_zero (active_send_protocol_version d) >? 0).

(** What holds throughout a pump, also when it fails: the session is in order,
    and its key changed only because the transition was executed or the session
    was replaced. *)
Record base (x : DaveCoordinator * list GatewayCommand) : Prop := {
  base_ok : session_ok (session x.1);
  base_key : session_key (session x.1) = session_key (session c0) \/ session_key (session x.1) = None \/ executed = true;
}.

(** What holds as long as it does not fail: no command reports an invalid
    commit or welcome. *)
Definition clean (x : DaveCoordinator * list GatewayCommand) : Prop := forall t, CmdDaveMlsInvalidCommitWelcome t ∉ x.2.

Lemma clean_push x cmd : clean x -> (forall t, cmd ≠ CmdDaveMlsInvalidCommitWelcome t) -> forall c, clean (c, x.2 ++ [cmd]).
Proof. intros Hx Hc c t. cbn. rewrite elem_of_app, list_elem_of_singleton. intros [?|E]; [by eapply Hx|]. by apply (Hc t). Qed.

(** The coordinator changed, but not its session's order or key. *)
Lemma base_same x c l : base x -> session c = session x.1 -> base (c, l).
Proof. intros [H1 H2] E. constructor; cbn; by rewrite E. Qed.

Lemma base_session x s l : base x -> session_ok s -> session_key s = session_key (session x.1) -> base (with_session s x.1, l).
Proof. intros [H1 H2] Hs E. constructor; cbn; [done|]. by rewrite E. Qed.

Lemma base_passthrough x mode p c l : base x -> c = with_passthrough (session_set_passthrough now mode (session x.1)) p x.1 -> base (c, l).
Proof.
  intros [H1 H2] ->. constructor; cbn; [by apply session_set_passthrough_ok|]. by rewrite session_set_passthrough_key.
Qed.

Lemma set_passthrough_base mode x l : base x -> base (set_passthrough_mode now mode x.1, l).
Proof. intros Hx. unfold set_passthrough_mode. destruct (bool_decide _); [by eapply base_same|]. by eapply base_passthrough. Qed.

Lemma grace_base x l : base x -> base (allow_plaintext_receive_grace now x.1, l).
Proof. intros Hx. eapply (base_passthrough (_, l)); [|reflexivity]. by eapply base_passthrough. Qed.

Lemma activate_executed_base x l : base x -> base (activate_sender_if_transition_executed d x.1, l).
Proof.
  intros Hx. unfold activate_sender_if_transition_executed. fold executed. destruct executed eqn:He; [|by eapply base_same].
  pose proof (session_activate_ok _ (base_ok x Hx)) as Ha. destruct (session_activate (session x.1)) as [b s]. destruct b; constructor; cbn; auto.
Qed.

Lemma replace_session_ok v x :
  base x -> wp (replace_session now v)
    (fun _ x' => base x' /\ x'.2 = x.2 /\ exists s, x'.1 = with_external_sender_set false (invalidate (with_session s x.1))) (fun _ x' => base x') x.
Proof.
  intros Hx. unfold replace_session. destruct (v =? 0); [by apply wp_throw|]. destruct (version_new v); [|by apply wp_throw].
  apply wp_bind, wp_here. destruct (session_create _ _ _ _) as [e|s] eqn:Hs; [by apply wp_throw|].
  apply session_create_ok in Hs as (Hok & _ & Hk). apply wp_update. split; [constructor; cbn; auto|]. split; [done|]. by exists s.
Qed.

Ltac mark_cases := repeat split; try done; try (by intros ? [= <-]); try (by left); try (by right); try lia.

Lemma mark_transition_ready_ok transition v x :
  base x -> clean x ->
  wp (mark_transition_ready now transition v)
    (fun _ x' => base x' /\ clean x' /\ external_sender_set x'.1 = external_sender_set x.1 /\ sent_key_package_for x'.1 = sent_key_package_for x.1 /\
       processed_proposals x'.1 = processed_proposals x.1 /\ processed_mls x'.1 = processed_mls x.1 /\ prepared_epoch x'.1 = prepared_epoch x.1 /\
       last_gateway_state x'.1 = last_gateway_state x.1 /\ (forall t, transition = Some t -> transition_ready x'.1 = Some t) /\
       (passthrough x'.1 = passthrough x.1 \/ last_applied (passthrough x'.1) = Some (DisabledAfter DAVE_PLAINTEXT_RECEIVE_GRACE)) /\
       (version_or_zero v = 0 -> session x'.1 = session x.1 /\ passthrough x'.1 = passthrough x.1))
    (fun _ _ => False) x.
Proof.
  intros Hx Hcl. unfold mark_transition_ready.
  destruct transition as [t|]; [|apply wp_ret; split; [done|]; split; [done|]; mark_cases].
  apply wp_bind, wp_here. destruct (bool_decide_reflect (transition_ready (id x.1) = Some t)) as [Ht|Ht].
  { apply wp_ret. split; [done|]. split; [done|]. mark_cases. }
  apply wp_bind, wp_update. destruct (t =? 0).
  - destruct (version_or_zero v >? 0) eqn:Hv.
    + apply wp_update. rewrite Z.gtb_ltb in Hv. apply Z.ltb_lt in Hv. split; [apply (grace_base (with_transition_ready (Some t) x.1, x.2)); by eapply base_same|].
      split; [done|]. cbn. mark_cases.
    + apply wp_ret. split; [by eapply base_same|]. split; [done|]. cbn. mark_cases.
  - apply wp_push. split; [by eapply base_same|]. split; [by apply clean_push|]. cbn. mark_cases.
Qed.

Lemma set_external_sender_step e x :
  base x -> clean x ->
  wp (_ ← try_err SetExternalSender (on_session (session_set_external_sender e)); update (with_external_sender_set true))
     (fun _ x' => base x' /\ x'.2 = x.2 /\ exists s, x'.1 = with_external_sender_set true (with_session s x.1)) (fun _ x' => base x') x.
Proof.
  intros Hx Hcl. apply wp_bind, wp_try_err, wp_on_session; [apply Hx|apply session_set_external_sender_key|intros; by apply session_set_external_sender_ok| |].
  - intros [] s' Hs Hk _. apply wp_update. split; [eapply base_same; [by apply (base_session x s' x.2)|done]|]. split; [done|]. by exists s'.
  - intros ? s' Hs Hk. by apply base_session.
Qed.

Lemma key_package_step scope x :
  base x -> clean x ->
  wp (k ← try_err CreateKeyPackage (on_session session_create_key_package); _ ← push_command (CmdDaveMlsKeyPackage k);
      update (with_sent_key_package_for (Some scope)))
     (fun _ x' => base x' /\ clean x' /\ exists s, x'.1 = with_sent_key_package_for (Some scope) (with_session s x.1) /\
        (session_activate s).1 = (session_activate (session x.1)).1) (fun _ x' => base x') x.
Proof.
  intros Hx Hcl. apply wp_bind, wp_try_err, wp_on_session; [apply Hx|apply session_create_key_package_key|intros; by apply session_create_key_package_ok| |].
  - intros k s' Hs Hk Hrun. apply wp_bind, wp_push, wp_update. split; [eapply base_same; [by apply (base_session x s' x.2)|done]|]. split; [by apply (clean_push x)|].
    exists s'. split; [done|]. pose proof (session_create_key_package_staged (session x.1)) as H. cbn in H. by rewrite Hrun in H.
  - intros ? s' Hs Hk. by apply base_session.
Qed.

Lemma recover_ok x : base x -> wp (recover_after_invalid_group now d) (fun _ x' => base x') (fun _ x' => base x') x.
Proof.
  intros Hx. unfold recover_after_invalid_group. destruct (DaveGateway.DaveGateway.protocol_version d) as [v|]; [|done].
  destruct (v =? 0); [apply wp_update; by apply set_passthrough_base|]. apply wp_bind. eapply wp_mono; [by apply replace_session_ok| |done].
  intros ? x1 (H1 & _). apply wp_bind. eapply (wp_mono _ (fun _ x' => base x') _ (fun _ x' => base x')); [| |done].
  { destruct (external_sender d) as [e|]; [|done]. apply wp_bind, wp_try_err, wp_on_session; [apply H1|apply session_set_external_sender_key|intros; by apply session_set_external_sender_ok| |].
    - intros [] s' Hs Hk _. apply wp_update. eapply base_same; [by apply (base_session x1 s' x1.2)|done].
    - intros ? s' Hs Hk. by apply base_session. }
  intros ? x2 H2. apply wp_bind, wp_here, wp_bind. eapply (wp_mono _ (fun _ x' => base x') _ (fun _ x' => base x')); [| |done].
  { destruct (scope_from_state _ _) as [scope|]; [|done]. apply wp_bind, wp_try_err, wp_on_session; [apply H2|apply session_create_key_package_key|intros; by apply session_create_key_package_ok| |].
    - intros k s' Hs Hk _. apply wp_bind, wp_push, wp_update. eapply base_same; [by apply (base_session x2 s' x2.2)|done].
    - intros ? s' Hs Hk. by apply base_session. }
  intros ? x3 H3. apply wp_update. by eapply base_same.
Qed.

(** The state in the part of the pump that talks to the session. *)
Record ctx (x : DaveCoordinator * list GatewayCommand) : Prop := {
  ctx_base : base x;
  ctx_clean : clean x;
  ctx_gateway : last_gateway_state x.1 = Some (event_from_state d);
  ctx_epoch : prepared_epoch x.1 = prepared_epoch_from_state d;
  ctx_passthrough : last_applied (passthrough x.1) = Some (DisabledAfter DAVE_PLAINTEXT_RECEIVE_GRACE);
}.

Record calm (x x' : DaveCoordinator * list GatewayCommand) : Prop := {
  calm_sender : external_sender_set x'.1 = external_sender_set x.1;
  calm_scope : sent_key_package_for x'.1 = sent_key_package_for x.1;
  calm_proposals : processed_proposals x'.1 = processed_proposals x.1;
}.

Lemma calm_trans x y z : calm x y -> calm y z -> calm x z.
Proof. intros [] []. constructor; congruence. Qed.

Lemma process_mls_message_ok m x :
  ctx x ->
  wp (process_mls_message now d m)
    (fun _ x' => ctx x' /\ calm x x' /\ slots_get (kind (DaveGateway.DaveGateway.identity m)) (processed_mls x'.1) = Some m /\
       forall k, k ≠ kind (DaveGateway.DaveGateway.identity m) -> slots_get k (processed_mls x'.1) = slots_get k (processed_mls x.1))
    (fun _ x' => base x') x.
Proof.
  intros [H1 H2 H3 H4 H5]. unfold process_mls_message. apply wp_bind, wp_here. unfold id.
  destruct (bool_decide_reflect (slots_get (kind (DaveGateway.DaveGateway.identity m)) (processed_mls x.1) = Some m)) as [Hm|Hm]; [by apply wp_ret|].
  apply wp_bind, wp_catch. set (k := kind (DaveGateway.DaveGateway.identity m)) in *.
  apply (wp_mono _ (fun _ x' => base x' /\ exists s, x' = (with_session s x.1, x.2)) _ (fun _ x' => base x')).
  { destruct k; apply wp_try_err, wp_on_session; try apply H1;
      try (apply session_process_commit_key || apply session_process_welcome_key);
      try (intros; by apply session_process_commit_ok); try (intros; by apply session_process_welcome_ok);
      try (intros ? s' Hs Hk; by apply base_session); intros [] s' Hs Hk _; (split; [by apply base_session|by exists s']). }
  - intros [] x' [Hb [s ->]]. apply wp_bind, wp_update. cbn [fst snd].
    match goal with |- wp _ _ _ ?y => set (x1 := y) end.
    assert (base x1) as Hb1 by (by eapply base_same). eapply wp_mono; [by apply mark_transition_ready_ok| |done].
    intros [] x2 (M1 & M2 & M3 & M4 & M5 & M6 & M7 & M8 & _ & M10 & _). split.
    { constructor; [done|done|by rewrite M8|by rewrite M7|]. destruct M10 as [->|?]; [exact H5|done]. }
    split; [by constructor; rewrite ?M3, ?M4, ?M5|]. rewrite M6. cbn. unfold set_message. fold k. rewrite slots_get_set, decide_True by done. split; [done|].
    intros k' Hk'. by rewrite slots_get_set, decide_False.
  - intros e x' Hb. apply wp_bind, wp_update. match goal with |- wp _ _ _ ?y => set (x1 := y) end.
    assert (base x1) as Hb1 by (by eapply base_same). apply wp_bind.
    apply (wp_mono _ (fun _ x' => base x') _ (fun _ x' => base x')); [| |done].
    { destruct (transition_id d); [|done]. apply wp_push. by eapply base_same. }
    intros ? x2 H2'. apply wp_bind, wp_catch. eapply wp_mono; [by apply recover_ok| |]; intros ? x3 H3'; by apply wp_throw.
Qed.

Lemma process_mls_messages_ok l x :
  ctx x -> NoDup ((fun m => kind (DaveGateway.DaveGateway.identity m)) <$> l) ->
  wp (process_mls_messages now d l)
    (fun _ x' => ctx x' /\ calm x x' /\ (forall m, m ∈ l -> slots_get (kind (DaveGateway.DaveGateway.identity m)) (processed_mls x'.1) = Some m) /\
       forall k, k ∉ ((fun m => kind (DaveGateway.DaveGateway.identity m)) <$> l) -> slots_get k (processed_mls x'.1) = slots_get k (processed_mls x.1))
    (fun _ x' => base x') x.
Proof.
  revert x. induction l as [|m l IH]; intros x Hx Hnd; cbn [process_mls_messages].
  { apply wp_ret. split; [done|]. split; [done|]. split; [|done]. intros m Hm. by apply elem_of_nil in Hm. }
  rewrite fmap_cons in Hnd. apply NoDup_cons in Hnd as [Hnin Hnd]. apply wp_bind. eapply wp_mono; [by apply process_mls_message_ok| |done].
  intros [] x1 (H1 & C1 & Hm & Ho). eapply wp_mono; [by apply IH| |done]. intros [] x2 (H2 & C2 & Hl & Ho2).
  split; [done|]. split; [by eapply calm_trans|]. split.
  - intros m' [->|Hm']%elem_of_cons; [by rewrite Ho2|by apply Hl].
  - intros k Hk. rewrite fmap_cons, not_elem_of_cons in Hk. rewrite Ho2 by apply Hk. apply Ho, Hk.
Qed.

Lemma process_new_proposals_ok connected l x :
  ctx x ->
  wp (process_new_proposals connected l)
    (fun _ x' => ctx x' /\ external_sender_set x'.1 = external_sender_set x.1 /\ sent_key_package_for x'.1 = sent_key_package_for x.1 /\
       processed_proposals x'.1 = (processed_proposals x.1 + length l)%nat) (fun _ x' => base x') x.
Proof.
  revert x. induction l as [|p l IH]; intros x Hx; cbn [process_new_proposals].
  { apply wp_ret. split; [done|]. split; [done|]. split; [done|]. cbn. lia. }
  apply wp_bind, wp_lift. destruct (parse_operation p) as [[op proposals]|e|] eqn:Hp; cbn [map_err].
  2: by apply Hx.
  2: { unfold parse_operation in Hp. destruct p as [|b p]; [done|]. by destruct (b =? 0), (b =? 1). }
  apply wp_bind. destruct Hx as [H1 H2 H3 H4 H5]. unfold wp at 1. unfold on_session. set (m := session_process_proposals op proposals _).
  pose proof (session_process_proposals_ok op proposals (fun u => bool_decide (u ∈ connected)) _ (base_ok x H1)) as Hm.
  pose proof (session_process_proposals_key op proposals (fun u => bool_decide (u ∈ connected)) (session x.1)) as Hk. fold m in Hm, Hk. unfold wp in Hm.
  assert (forall s' cmds, session_ok s' -> session_key s' = session_key (session x.1) -> clean (x.1, cmds) ->
    wp (_ ← update (fun c => with_processed_proposals (S (processed_proposals c)) c); process_new_proposals connected l)
       (fun _ x' => ctx x' /\ external_sender_set x'.1 = external_sender_set x.1 /\ sent_key_package_for x'.1 = sent_key_package_for x.1 /\
          processed_proposals x'.1 = (processed_proposals x.1 + length (p :: l))%nat) (fun _ x' => base x') (with_session s' x.1, cmds)) as Hrest.
  { intros s' cmds Hs' Hk' Hcl. apply wp_bind, wp_update. eapply wp_mono; [apply IH| |done].
    - constructor; [|exact Hcl|exact H3|exact H4|exact H5]. eapply base_same; [by apply (base_session x s' cmds)|done].
    - intros [] x' (? & -> & -> & ->). cbn. split; [done|]. split; [done|]. split; [done|]. lia. }
  destruct (m (session x.1)) as [[[cw|]|e|] s']; [| | |done]; cbn in Hk; apply wp_bind.
  - apply wp_push. apply Hrest; [done|done|]. by apply (clean_push x).
  - apply wp_ret. by apply Hrest.
  - apply wp_ret. by apply Hrest.
Qed.

Lemma sync_prepared_epoch_ok x :
  base x -> clean x -> last_gateway_state x.1 = Some (event_from_state d) ->
  wp (sync_prepared_epoch now d)
    (fun _ x' => base x' /\ clean x' /\ last_gateway_state x'.1 = Some (event_from_state d) /\ prepared_epoch x'.1 = prepared_epoch_from_state d)
    (fun _ x' => base x') x.
Proof.
  intros Hx Hcl Hg. unfold sync_prepared_epoch. apply wp_bind, wp_here. unfold id. destruct (bool_decide_reflect (prepared_epoch x.1 = prepared_epoch_from_state d)); [by apply wp_ret|].
  apply wp_bind. apply (wp_mono _ (fun _ x' => base x' /\ clean x' /\ last_gateway_state x'.1 = Some (event_from_state d)) _ (fun _ x' => base x')); [| |done].
  - destruct (prepared_epoch_from_state d) as [e|]; [|by apply wp_ret]. apply wp_bind, wp_update, wp_bind, wp_here.
    destruct (_ && _); [|apply wp_ret; split; [by eapply base_same|done]]. apply wp_bind, wp_update.
    match goal with |- wp _ _ _ ?y => set (x1 := y) end. assert (base x1) as Hb1 by (by eapply base_same).
    eapply wp_mono; [by apply replace_session_ok| |done]. intros [] x2 (? & E & s & Hs). split; [done|]. split; [unfold clean; rewrite E; exact Hcl|]. by rewrite Hs.
  - intros [] x1 (? & ? & ?). apply wp_update. split; [by eapply base_same|]. done.
Qed.

(** ** After a successful pump *)
Definition staged (c : DaveCoordinator) : bool := (session_activate (session c)).1.

(** When the key in use may have changed. *)
Definition key_allowed (c : DaveCoordinator) : Prop :=
  session_key (session c) = session_key (session c0) \/ session_key (session c) = None \/ executed = true \/
  (transition_id d = Some 0 /\ transition_ready c = Some 0).

(** Nothing is left to do for this gateway state. *)
Record settled (roster : bool) (c : DaveCoordinator) : Prop := {
  settled_gateway : last_gateway_state c = Some (event_from_state d);
  settled_epoch : prepared_epoch c = prepared_epoch_from_state d;
  settled_idle : executed = true -> staged c = false;
  settled_plain : version_or_zero (DaveGateway.DaveGateway.protocol_version d) = 0 ->
    last_applied (passthrough c) = Some Enabled /\ forall t, transition_id d = Some t -> transition_ready c = Some t;
  settled_dave : version_or_zero (DaveGateway.DaveGateway.protocol_version d) ≠ 0 ->
    last_applied (passthrough c) = Some (DisabledAfter DAVE_PLAINTEXT_RECEIVE_GRACE) /\
    (is_some (external_sender d) = true -> external_sender_set c = true) /\
    (forall scope, scope_from_state d (prepared_epoch c) = Some scope -> sent_key_package_for c = Some scope) /\
    (external_sender_set c = true -> (processed_proposals c <= length (proposals d))%nat /\
      ((processed_proposals c < length (proposals d))%nat -> roster = false) /\
      (processed_proposals c = length (proposals d) ->
         (forall m, m ∈ welcome_then_commit (pending_mls d) ->
            slots_get (kind (DaveGateway.DaveGateway.identity m)) (processed_mls c) = Some m) /\
         (transition_zero_media_ready (transition_ready c) d = true -> staged c = false)));
}.

Lemma activate_executed_cases c :
  (executed = false /\ activate_sender_if_transition_executed d c = c) \/
  (executed = true /\ exists s, s = (session_activate (session c)).2 /\ staged (activate_sender_if_transition_executed d c) = false /\
     (activate_sender_if_transition_executed d c = with_session s c \/ activate_sender_if_transition_executed d c = with_transition_ready None (with_session s c))).
Proof.
  unfold activate_sender_if_transition_executed. fold executed. destruct executed eqn:He; [right|by left]. split; [done|].
  pose proof (session_activate_twice (session c)) as Ht. exists (session_activate (session c)).2. split; [done|]. unfold staged.
  destruct (session_activate (session c)) as [[] s]; cbn in *; auto.
Qed.

Lemma activate_executed_ctx x :
  ctx x -> ctx (activate_sender_if_transition_executed d x.1, x.2) /\ calm x (activate_sender_if_transition_executed d x.1, x.2) /\
    processed_mls (activate_sender_if_transition_executed d x.1) = processed_mls x.1 /\
    (executed = true -> staged (activate_sender_if_transition_executed d x.1) = false).
Proof.
  intros [H1 H2 H3 H4 H5]. pose proof (activate_executed_base x x.2 H1) as Hb.
  destruct (activate_executed_cases x.1) as [[He ->]|[He (s & _ & Hst & Heq)]].
  - split; [constructor; [exact (base_same x _ _ H1 eq_refl)|exact H2|exact H3|exact H4|exact H5]|]. split; [done|]. split; [done|]. by rewrite He.
  - split; [constructor; [done|exact H2|..]; destruct Heq as [-> | ->]; done|].
    split; [constructor; destruct Heq as [-> | ->]; done|]. split; [by destruct Heq as [-> | ->]|done].
Qed.

Lemma pump_session_ok connected roster x :
  ctx x -> (executed = true -> staged x.1 = false) -> version_or_zero (DaveGateway.DaveGateway.protocol_version d) ≠ 0 -> dave_ok d ->
  wp (pump_session now d connected roster)
    (fun _ x' => session_ok (session x'.1) /\ key_allowed x'.1 /\ clean x' /\ settled roster x'.1) (fun _ x' => base x') x.
Proof.
  intros Hx Hidle Hv Hd. unfold pump_session. apply wp_bind, wp_here, wp_bind. unfold id.
  apply (wp_mono _ (fun _ x' => ctx x' /\ (is_some (external_sender d) = true -> external_sender_set x'.1 = true) /\
    (external_sender_set x'.1 = false -> executed = true -> staged x'.1 = false)) _ (fun _ x' => base x')); [| |done].
  { destruct (external_sender d) as [e|]; [|by apply wp_ret]. destruct (external_sender_set x.1) eqn:Hs; [apply wp_ret; naive_solver|].
    destruct Hx as [H1 H2 H3 H4 H5]. eapply wp_mono; [by apply set_external_sender_step| |done]. intros [] x' (? & E & s & Hx').
    split; [constructor; [done|unfold clean; by rewrite E|by rewrite Hx'..]|]. rewrite Hx'. done. }
  intros [] x1 (Hx1 & Hext & Hidle1). apply wp_bind, wp_here, wp_bind.
  apply (wp_mono _ (fun _ x' => ctx x' /\ external_sender_set x'.1 = external_sender_set x1.1 /\
    (forall scope, scope_from_state d (prepared_epoch x'.1) = Some scope -> sent_key_package_for x'.1 = Some scope) /\
    (external_sender_set x'.1 = false -> executed = true -> staged x'.1 = false)) _ (fun _ x' => base x')); [| |done].
  { unfold id. destruct (scope_from_state d (prepared_epoch x1.1)) as [scope|] eqn:Hsc; [|apply wp_ret; by rewrite Hsc].
    destruct (bool_decide_reflect (sent_key_package_for x1.1 = Some scope)) as [Hs|Hs]; [apply wp_ret; rewrite Hsc; naive_solver|].
    destruct Hx1 as [H1 H2 H3 H4 H5]. eapply wp_mono; [by apply key_package_step| |done]. intros [] [c' l'] (? & ? & s & E & Hst). cbn in E. subst c'. cbn.
    split; [by constructor|]. split; [done|]. split; [rewrite Hsc; by intros ? [= ->]|]. unfold staged. cbn. by rewrite Hst. }
  intros [] x2 (Hx2 & E2 & Hscope & Hidle2). apply wp_bind, wp_here. unfold id.
  assert (forall x', ctx x' -> session_ok (session x'.1) /\ key_allowed x'.1 /\ clean x') as Hfin.
  { intros x' [[? ?] ? _ _ _]. split; [done|]. split; [|done]. unfold key_allowed. naive_solver. }
  destruct (external_sender_set x2.1) eqn:Hset; cbn [negb].
  2: { apply wp_ret. destruct (Hfin x2 Hx2) as (? & ? & ?). destruct Hx2 as [_ _ H3 H4 H5]. split; [done|]. split; [done|]. split; [done|].
       constructor; [done|done|by apply Hidle2|done|]. intros _. split; [done|]. split; [intros He; rewrite Hext in E2 by done; congruence|]. split; [done|]. by rewrite Hset. }
  apply wp_bind, wp_update, wp_bind, wp_update, wp_bind, wp_here. cbn [fst snd]. unfold id.
  destruct (activate_executed_ctx x2 Hx2) as (Hx3 & C3 & _ & Hidle3). set (c3 := activate_sender_if_transition_executed d x2.1) in *.
  set (c4 := if (length (proposals d) <? processed_proposals c3)%nat then with_processed_proposals 0 c3 else c3).
  assert (session c4 = session c3 /\ external_sender_set c4 = external_sender_set c3 /\ sent_key_package_for c4 = sent_key_package_for c3 /\
    prepared_epoch c4 = prepared_epoch c3 /\ (processed_proposals c4 <= length (proposals d))%nat /\ ctx (c4, x2.2)) as (S4 & E4 & K4 & P4 & Hle & Hx4).
  { unfold c4. destruct (Nat.ltb_spec (length (proposals d)) (processed_proposals c3)); cbn; [|done]. split; [done|]. split; [done|]. split; [done|]. split; [done|].
    split; [lia|]. destruct Hx3 as [? H2 H3 H4 H5]. constructor; [by eapply base_same|exact H2|exact H3|exact H4|exact H5]. }
  assert (staged c4 = staged c3) as Hst4 by (unfold staged; by rewrite S4).
  assert (prepared_epoch c3 = prepared_epoch x2.1) as P3 by (rewrite (ctx_epoch _ Hx2); exact (ctx_epoch _ Hx3)).
  destruct C3 as [C3a C3b C3c]. cbn in C3a, C3b, C3c.
  assert (forall c, external_sender_set c = external_sender_set c4 -> sent_key_package_for c = sent_key_package_for c4 -> ctx (c, []) \/ (exists l, ctx (c, l)) ->
    (executed = true -> staged c = false) -> (processed_proposals c <= length (proposals d))%nat ->
    ((processed_proposals c < length (proposals d))%nat -> roster = false) ->
    (processed_proposals c = length (proposals d) -> (forall m, m ∈ welcome_then_commit (pending_mls d) ->
            slots_get (kind (DaveGateway.DaveGateway.identity m)) (processed_mls c) = Some m) /\
         (transition_zero_media_ready (transition_ready c) d = true -> staged c = false)) -> settled roster c) as Hsettle.
  { intros c Ee Ek Hc Hi Hp Hr Hm. assert (exists l, ctx (c, l)) as [l [_ _ H3 H4 H5]] by (destruct Hc as [?|?]; [by eexists|done]). cbn in H3, H4, H5.
    constructor; [done|done|done|done|]. intros _. split; [done|]. split; [intros _; congruence|]. split; [|done].
    rewrite H4, <- (ctx_epoch _ Hx2), Ek, K4, C3b. apply Hscope. }
  destruct ((processed_proposals c4 <? length (proposals d))%nat && negb roster) eqn:Hret.
  { apply andb_true_iff in Hret as [Hlt%Nat.ltb_lt Hros]. apply wp_ret. destruct (Hfin _ Hx4) as (? & ? & ?). split; [done|]. split; [done|]. split; [done|].
    change (settled roster c4). apply Hsettle; [done|done|right; by eexists|by rewrite Hst4|done|by destruct roster|lia]. }
  apply wp_bind. eapply wp_mono; [by apply process_new_proposals_ok| |done]. cbn [fst]. intros [] x5 (Hx5 & E5 & K5 & P5).
  rewrite length_drop in P5. assert (processed_proposals x5.1 = length (proposals d)) as P5' by lia.
  apply wp_bind. eapply wp_mono; [apply process_mls_messages_ok; [done|]| |done].
  { pose proof (ok_slots d Hd) as Hs. unfold welcome_then_commit. destruct (pending_mls d) as [[cm|] [wm|]]; cbn.
    - specialize (Hs Commit cm) as Hs1. specialize (Hs Welcome wm) as Hs2. cbn in Hs1, Hs2. rewrite Hs1, Hs2 by done. repeat constructor; set_solver.
    - apply NoDup_singleton.
    - apply NoDup_singleton.
    - constructor. }
  intros [] x6 (Hx6 & [C6a C6b C6c] & Hmls & _). apply wp_bind, wp_update, wp_update. cbn [fst snd].
  unfold activate_sender_if_transition_zero_ready. destruct (transition_zero_media_ready (transition_ready x6.1) d) eqn:Hz.
  - assert (transition_id d = Some 0 /\ transition_ready x6.1 = Some 0) as [Ht0 Htr0].
    { unfold transition_zero_media_ready in Hz. apply andb_true_iff in Hz as [?%bool_decide_eq_true ?%bool_decide_eq_true]. done. }
    assert (executed = false) as Hne by (unfold executed; by rewrite Ht0). set (s7 := (session_activate (session x6.1)).2).
    assert (activate_sender_if_transition_executed d (with_session s7 x6.1) = with_session s7 x6.1) as ->.
    { unfold activate_sender_if_transition_executed. fold executed. by rewrite Hne. }
    destruct Hx6 as [[Hok _] Hcl H3 H4 H5]. cbn. split; [by apply session_activate_ok|]. split; [right; right; right; by split|]. split; [exact Hcl|].
    assert (staged (with_session s7 x6.1) = false) as Hst by (apply session_activate_twice).
    constructor; [done|done|by intros|done|]. intros _. split; [done|]. split; [intros _; cbn; congruence|]. split.
    { cbn. rewrite H4, <- (ctx_epoch _ Hx2), C6b, K5, K4, C3b. apply Hscope. }
    intros _. cbn. rewrite C6c, P5'. split; [lia|]. split; [lia|]. intros _. split; [exact Hmls|done].
  - destruct (activate_executed_ctx x6 Hx6) as (Hx7 & [C7a C7b C7c] & M7 & Hidle7). cbn [fst snd] in *. set (c7 := activate_sender_if_transition_executed d x6.1) in *.
    destruct (Hfin _ Hx7) as (? & ? & ?). split; [done|]. split; [done|]. split; [done|].
    change (settled roster c7). apply Hsettle; [congruence|congruence|right; by eexists|done|lia|lia|]. intros _. rewrite M7. split; [exact Hmls|].
    intros Hz7. destruct (activate_executed_cases x6.1) as [[_ Hc]|[He (s & _ & Hst & Hc)]]; [|exact Hst]. unfold c7 in Hz7. by rewrite Hc, Hz in Hz7.
Qed.

Lemma pump_body_ok connected roster :
  session_ok (session c0) -> dave_ok d ->
  wp (pump_body now d connected roster)
    (fun _ x' => session_ok (session x'.1) /\ key_allowed x'.1 /\ clean x' /\ settled roster x'.1) (fun _ x' => base x') (c0, []).
Proof.
  intros Hok Hd. unfold pump_body. apply wp_bind, wp_update. cbn [fst snd].
  set (c1 := observe_gateway_state d c0). assert (base (c1, []) /\ clean (c1, []) /\ last_gateway_state c1 = Some (event_from_state d)) as (H1 & H2 & H3).
  { unfold c1, observe_gateway_state. destruct (bool_decide_reflect (last_gateway_state c0 = Some (event_from_state d))); (split; [constructor; cbn; auto|]); (split; [|done]);
      intros t; apply not_elem_of_nil. }
  apply wp_bind. eapply wp_mono; [by apply sync_prepared_epoch_ok| |done]. intros [] x2 (Hb2 & Hc2 & Hg2 & He2). apply wp_bind, wp_update.
  pose proof (activate_executed_base x2 x2.2 Hb2) as Hb3. set (c3 := activate_sender_if_transition_executed d x2.1) in *.
  assert (last_gateway_state c3 = Some (event_from_state d) /\ prepared_epoch c3 = prepared_epoch_from_state d /\ (executed = true -> staged c3 = false)) as (Hg3 & He3 & Hi3).
  { unfold c3. destruct (activate_executed_cases x2.1) as [[E ->]|[E (s & _ & Hst & [Heq|Heq])]]; [by rewrite E|..]; rewrite Heq in *; done. }
  assert (forall mode, staged (set_passthrough_mode now mode c3) = staged c3) as Hstg.
  { intros mode. unfold staged, set_passthrough_mode. destruct (bool_decide _); [done|]. cbn. apply session_set_passthrough_staged. }
  assert (forall mode, last_applied (passthrough (set_passthrough_mode now mode c3)) = Some mode) as Hla.
  { intros mode. unfold set_passthrough_mode. by destruct (bool_decide_reflect (last_applied (passthrough c3) = Some mode)). }
  assert (forall mode, last_gateway_state (set_passthrough_mode now mode c3) = last_gateway_state c3 /\ prepared_epoch (set_passthrough_mode now mode c3) = prepared_epoch c3) as Hrest.
  { intros mode. unfold set_passthrough_mode. by destruct (bool_decide _). }
  destruct (Z.eqb_spec (version_or_zero (DaveGateway.DaveGateway.protocol_version d)) 0) as [Hv|Hv]; apply wp_bind, wp_update; cbn [fst snd].
  - destruct (Hrest Enabled) as [Hr1 Hr2].
    eapply wp_mono; [apply mark_transition_ready_ok; [by apply (set_passthrough_base Enabled (c3, x2.2))|exact Hc2]| |done].
    cbn [fst snd]. intros [] x' (M1 & M2 & _ & _ & _ & _ & M7 & M8 & M9 & _ & M11). destruct (M11 Hv) as [Ms Mp]. destruct M1 as [B1 B2].
    split; [done|]. split; [unfold key_allowed; naive_solver|]. split; [done|].
    constructor; [congruence|congruence|unfold staged; rewrite Ms; intros E; rewrite <- (Hi3 E); apply Hstg| |done]. intros _. rewrite Mp. split; [apply Hla|exact M9].
  - destruct (Hrest (DisabledAfter DAVE_PLAINTEXT_RECEIVE_GRACE)) as [Hr1 Hr2]. apply pump_session_ok; [|intros E; cbn [fst]; rewrite Hstg; by apply Hi3|done|done].
    constructor; [by apply (set_passthrough_base _ (c3, x2.2))|exact Hc2|cbn; congruence|cbn; congruence|apply Hla].
Qed.


#[local] Tactic Notation "run" tactic3(tac) := eapply eq_trans; [eapply st_bind_run; tac|]; cbn beta.

(** A settled coordinator has nothing to do. *)
Lemma settled_pump connected roster c :
  settled roster c -> pump_body now d connected roster (c, []) = (Ok (), (c, [])).
Proof.
  intros [S1 S2 S3 S4 S5].
  assert (staged c = false -> with_session (session_activate (session c)).2 c = c) as Hidle.
  { intros Hst. rewrite session_activate_idle by done. by destruct c. }
  assert (activate_sender_if_transition_executed d c = c) as Hact.
  { unfold activate_sender_if_transition_executed. fold executed. destruct executed eqn:E; [|done]. specialize (S3 eq_refl). specialize (Hidle S3).
    unfold staged in S3. destruct (session_activate (session c)) as [b s]. cbn in *. by rewrite S3. }
  assert (forall mode, last_applied (passthrough c) = Some mode -> set_passthrough_mode now mode c = c) as Hpass.
  { intros mode Hm. unfold set_passthrough_mode. by rewrite bool_decide_eq_true_2. }
  assert (forall E (f : DaveCoordinator -> DaveCoordinator), f c = c -> update (E := E) f (c, []) = (Ok (), (c, []))) as Hupd.
  { intros E f Hf. unfold update, modify. cbn. by rewrite Hf. }
  unfold pump_body. run (apply Hupd; unfold observe_gateway_state; by rewrite bool_decide_eq_true_2).
  run (unfold sync_prepared_epoch; run reflexivity; unfold id; cbn [fst]; rewrite bool_decide_eq_true_2 by done; reflexivity).
  run (by apply Hupd).
  destruct (Z.eqb_spec (version_or_zero (DaveGateway.DaveGateway.protocol_version d)) 0) as [Hv|Hv].
  - destruct (S4 Hv) as [Hla Htr]. run (by apply Hupd, Hpass). unfold mark_transition_ready. destruct (transition_id d) as [t|]; [|done].
    run reflexivity. unfold id. cbn [fst]. by rewrite bool_decide_eq_true_2 by (by apply Htr).
  - destruct (S5 Hv) as (Hla & Hext & Hscope & Hrest). run (by apply Hupd, Hpass). unfold pump_session.
    run reflexivity. unfold id. cbn [fst].
    run (destruct (external_sender d); [rewrite Hext by done|]; reflexivity).
    run reflexivity. cbn [fst].
    run (destruct (scope_from_state d (prepared_epoch c)) as [scope|]; [rewrite bool_decide_eq_true_2 by (by apply Hscope)|]; reflexivity).
    run reflexivity. cbn [fst]. destruct (external_sender_set c) eqn:Hset; cbn [negb]; [|done].
    destruct (Hrest eq_refl) as (Hle & Hlt & Heq). run (by apply Hupd).
    run (apply Hupd; by rewrite (proj2 (Nat.ltb_ge _ _))). run reflexivity. cbn [fst].
    destruct (Nat.ltb_spec (processed_proposals c) (length (proposals d))) as [Hp|Hp]; cbn [andb]; [by rewrite Hlt|].
    destruct (Heq ltac:(lia)) as [Hmls Hzero]. rewrite drop_ge by lia. run reflexivity.
    assert (forall l, (forall m, m ∈ l -> slots_get (kind (DaveGateway.DaveGateway.identity m)) (processed_mls c) = Some m) ->
      process_mls_messages now d l (c, []) = (Ok (), (c, []))) as Hmsgs.
    { induction l as [|m l IH]; intros Hl; [done|]. cbn [process_mls_messages].
      eapply eq_trans; [eapply st_bind_run|cbn beta; apply IH; intros; apply Hl; by right]. unfold process_mls_message. run reflexivity. unfold id. cbn [fst].
      rewrite bool_decide_eq_true_2 by (apply Hl; by left). reflexivity. }
    run (by apply Hmsgs). eapply eq_trans; [eapply st_bind_run|cbn beta; by apply Hupd]. apply Hupd.
    unfold activate_sender_if_transition_zero_ready. destruct (transition_zero_media_ready _ _) eqn:Hz; [|done]. by apply Hidle, Hzero.
Qed.

End Pump.
(** ** The coordinators that calls lead to *)
Inductive coordinator_reachable : DaveCoordinator -> Prop :=
| reachable_created now u ch k c : coordinator_new now u ch k = Ok c -> coordinator_reachable c
| reachable_pumped now evs connected roster c :
    coordinator_reachable c -> Forall event_ok evs -> coordinator_reachable (pump now (dave_run evs dave_default) connected roster c).2
| reachable_grace now c : coordinator_reachable c -> coordinator_reachable (allow_plaintext_receive_grace now c)
| reachable_media c s : coordinator_reachable c -> session_media (session c) s -> coordinator_reachable (with_session s c).

Lemma pump_ok now d connected roster c :
  session_ok (session c) -> dave_ok d ->
  wp (pump now d connected roster)
    (fun cmds c' => session_ok (session c') /\ key_allowed d c c' /\ (forall t, CmdDaveMlsInvalidCommitWelcome t ∉ cmds) /\ settled d roster c')
    (fun _ c' => session_ok (session c') /\ key_allowed d c c') c.
Proof.
  intros Hc Hd. pose proof (pump_body_ok now d c connected roster Hc Hd) as H. unfold wp, pump in *.
  destruct (pump_body now d connected roster (c, [])) as [[[]|e|] [c' cmds]]; [exact H| |done]. destruct H as [? ?]. cbn in *. split; [done|].
  unfold key_allowed. naive_solver.
Qed.

Lemma coordinator_reachable_ok c : coordinator_reachable c -> session_ok (session c).
Proof.
  induction 1 as [now u ch k c Hc|now evs connected roster c Hc IH Hevs|now c Hc IH|c s Hc IH Hs].
  - unfold coordinator_new in Hc. destruct (session_create _ _ _ _) as [e|s] eqn:Hs; [done|]. injection Hc as <-. by apply session_create_ok in Hs as [? _].
  - pose proof (pump_ok now _ connected roster c IH (dave_run_ok evs dave_default dave_default_ok Hevs)) as H. unfold wp in H.
    destruct (pump _ _ _ _ c) as [[cmds|e|] c']; [by destruct H as [? _]|by destruct H as [? _]|done].
  - by apply session_set_passthrough_ok, session_set_passthrough_ok.
  - by eapply session_media_ok.
Qed.

(** ** Properties *)

(** C34. Pumping is idempotent.  After a pump that succeeded, pumping again for the
    same gateway state, at any time and with any roster entries, sends no
    command and changes nothing: no key package, commit or transition report is
    sent twice, and no proposal or message is processed twice. *)
Theorem pump_idempotent now now' evs connected connected' roster c cmds c' :
  coordinator_reachable c -> Forall event_ok evs ->
  pump now (dave_run evs dave_default) connected roster c = (Ok cmds, c') ->
  pump now' (dave_run evs dave_default) connected' roster c' = (Ok [], c').
Proof.
  intros Hc%coordinator_reachable_ok Hevs Hp. pose proof (dave_run_ok evs dave_default dave_default_ok Hevs) as Hd.
  apply (wp_run _ _ _ _ _ _ (pump_ok now _ connected roster c Hc Hd)) in Hp as (_ & _ & _ & Hs).
  unfold pump. by rewrite (settled_pump now' _ connected' roster c' Hs).
Qed.

(** C8. The key in use changes only when it may.  A pump never panics, and however
    it ends, the key the session sends with is the one before, or none (the
    session was replaced), unless the gateway has executed the transition and
    sends with DAVE, or transition 0 is pending and has been marked ready. *)
Theorem key_changes_when_executed now evs connected roster c :
  coordinator_reachable c -> Forall event_ok evs ->
  let d := dave_run evs dave_default in
  let '(r, c') := pump now d connected roster c in
  r ≠ Panic /\
  (session_key (session c') = session_key (session c) \/ session_key (session c') = None \/
   (transition_id d = None /\ version_or_zero (active_send_protocol_version d) > 0) \/
   (transition_id d = Some 0 /\ transition_ready c' = Some 0)).
Proof.
  intros Hc%coordinator_reachable_ok Hevs d. pose proof (dave_run_ok evs dave_default dave_default_ok Hevs) as Hd. fold d in Hd.
  pose proof (pump_ok now d connected roster c Hc Hd) as H. unfold wp in H. destruct (pump now d connected roster c) as [r c'].
  assert (key_allowed d c c' /\ r ≠ Panic) as [Hk Hr] by (destruct r; naive_solver). split; [done|].
  destruct Hk as [?|[?|[He|?]]]; auto. right. right. left. unfold executed in He. apply andb_true_iff in He as [H1 H2]. rewrite Z.gtb_ltb in H2. apply Z.ltb_lt in H2.
  split; [by destruct (transition_id d)|lia].
Qed.

(** The report of an invalid commit or welcome is never sent.  A pump that
    rejects a message pushes the report and the key package of the replaced
    session on its command list, but then fails, and the list is dropped with
    it: the commands of a pump that succeeds contain no such report. *)
Theorem invalid_group_never_reported now evs connected roster c cmds c' :
  coordinator_reachable c -> Forall event_ok evs ->
  pump now (dave_run evs dave_default) connected roster c = (Ok cmds, c') ->
  forall t, CmdDaveMlsInvalidCommitWelcome t ∉ cmds.
Proof.
  intros Hc%coordinator_reachable_ok Hevs Hp. pose proof (dave_run_ok evs dave_default dave_default_ok Hevs) as Hd.
  by apply (wp_run _ _ _ _ _ _ (pump_ok now _ connected roster c Hc Hd)) in Hp as (_ & _ & ? & _).
Qed.

End Coordinator.

(** ** The session implements the interface *)
Section Implementation.
Context `{P : RatchetPrimitives} `{A : Gcm.FrameAead} `{M : Session.Mls}.

(** [Session::new] with the keys of an identity does not fail. *)
#[export] Instance dave_session : DaveSession := {|
  session_t := Session.Session; init_error := Session.mls_error; set_sender_error := Session.SetExternalSenderError;
  key_package_error := Session.CreateKeyPackageError; proposals_error := Session.ProcessProposalsError; welcome_error := Session.ProcessWelcomeError;
  commit_error := Session.ProcessCommitError; sending_key_t := HashRatchet.HashRatchet;
  session_create := fun now k u c => inr (Session.session_new now (Session.signer_from_raw (Identity.private_key k) (Identity.public_key k)) u c);
  session_receive_ready := Session.receive_ready; session_key := Session.sending_key;
  session_set_external_sender := Session.set_external_sender; session_create_key_package := Session.create_key_package;
  session_process_proposals := Session.process_proposals; session_process_welcome := Session.process_welcome;
  session_process_commit := Session.process_commit; session_activate := Session.activate_staged_sender;
  session_set_passthrough := Session.set_passthrough_mode;
  session_media := fun s s' => exists call, Session.is_media call = true /\ s' = (Session.session_step call s).2;
|}.

Context {HM : Session.MlsLaws M}.

#[export, refine] Instance dave_session_laws : DaveSessionLaws dave_session := {| session_ok := Session.session_inv |}.
Proof.
  - intros now k u c s [= <-]. split; [apply Session.session_inv_new|done].
  - apply Session.set_external_sender_ok.
  - apply Session.create_key_package_ok.
  - apply Session.process_proposals_ok.
  - intros now w s Hs. eapply wp_mono; [by apply Session.process_welcome_ok|by intros ? ? [? _]|done].
  - intros now m s Hs. eapply wp_mono; [by apply Session.process_commit_ok|by intros ? ? [? _]|done].
  - intros s Hs. apply (Session.session_step_ok Session.CallActivateSender s Hs).
  - intros now m s Hs. apply (Session.session_step_ok (Session.CallPassthrough now m) s Hs).
  - intros s s' Hs (call & _ & ->). by apply Session.session_step_ok.
  - apply Session.set_external_sender_key.
  - intros s. unfold session_key. cbn. unfold Session.sending_key. by rewrite (Session.create_key_package_sender s).
  - apply Session.process_proposals_key.
  - apply Session.process_welcome_key.
  - apply Session.process_commit_key.
  - done.
  - intros s. cbn. unfold Session.activate_staged_sender, Sender.activate_pending. destruct (Sender.pending_ratchet _); [done|]. by destruct s.
  - intros s. cbn. unfold Session.activate_staged_sender, Sender.activate_pending. by destruct (Sender.pending_ratchet (Session.sender s)) eqn:E; cbn; rewrite ?E.
  - intros s. cbn. unfold Session.activate_staged_sender. rewrite (Session.create_key_package_sender s). by destruct (Sender.activate_pending _).
  - intros now m s. cbn. unfold Session.activate_staged_sender. cbn. by destruct (Sender.activate_pending _).
Defined.
End Implementation.

(** ** Witnesses: the toy group protocol of Session.v *)
Module CoordinatorSamples.
Import Gcm.Sample HashRatchet.SampleKdf Session.SessionSamples.

Definition sample_identity : Identity.IdentityKeyPair :=
  {| Identity.private_key := [3]; Identity.public_key := [4]; Identity.persistence := Identity.Ephemeral |}.

Definition created : DaveCoordinator (D := dave_session) :=
  {| session := Session.session_new 0 3 5 77 : session_t (DaveSession := dave_session); identity := sample_identity; user_id := 5; channel_id := 77; external_sender_set := false;
     sent_key_package_for := None; processed_proposals := 0; processed_mls := slots_default; transition_ready := None; prepared_epoch := None;
     last_gateway_state := None; passthrough := {| last_applied := None |} |}.

Lemma created_reachable : coordinator_reachable created.
Proof. by apply (reachable_created 0 5 77 sample_identity). Qed.

(** A session with DAVE, the gateway's key, and a proposal to add user 6. *)
Definition joining : list dave_event := [SessionProtocol (Some 1); ExternalSender [9]; Proposals [0; 0; 6]].

Lemma joining_ok : Forall event_ok joining.
Proof. repeat constructor; cbn; lia. Qed.

Definition sample_commands : list GatewayCommand := [CmdDaveMlsKeyPackage []; CmdDaveMlsCommitWelcome [2] (Some [1; 5; 6])].

Definition pumped : DaveCoordinator (D := dave_session) := (pump 1 (dave_run joining dave_default) {[5; 6]} true created).2.

Definition sends {E} (r : res E (list GatewayCommand)) (l : list GatewayCommand) : bool := match r with Ok cmds => bool_decide (cmds = l) | _ => false end.

Lemma sends_ok {E} (r : res E (list GatewayCommand)) l : sends r l = true -> r = Ok l.
Proof. destruct r; [|done|done]. cbn. by intros ->%bool_decide_eq_true. Qed.

Lemma run_pair {S E B} (m : st S E B) s r : (m s).1 = r -> m s = (r, (m s).2).
Proof. intros <-. by destruct (m s). Qed.

Lemma joining_pump : pump 1 (dave_run joining dave_default) {[5; 6]} true created = (Ok sample_commands, pumped).
Proof. unfold pumped. apply (run_pair (pump 1 (dave_run joining dave_default) {[5; 6]} true) created (Ok sample_commands)). apply sends_ok. vm_compute. reflexivity. Qed.

Lemma pump_idempotent_witness : pump 2 (dave_run joining dave_default) {[5]} true pumped = (Ok [], pumped).
Proof. apply (pump_idempotent 1 2 joining {[5; 6]} {[5]} true created sample_commands pumped); [apply created_reachable|apply joining_ok|apply joining_pump]. Defined.

Lemma key_changes_when_executed_witness :
  let d := dave_run joining dave_default in
  let '(r, c') := pump 1 d {[5; 6]} true created in
  r ≠ Panic /\
  (session_key (session c') = session_key (session created) \/ session_key (session c') = None \/
   (transition_id d = None /\ version_or_zero (active_send_protocol_version d) > 0) \/
   (transition_id d = Some 0 /\ transition_ready c' = Some 0)).
Proof. apply (key_changes_when_executed 1 joining {[5; 6]} true created); [apply created_reachable|apply joining_ok]. Defined.

(** The rejected commit of transition 7: the pump fails instead of reporting it. *)
Definition rejected : list dave_event :=
  joining ++ [MlsMessage {| DaveGateway.DaveGateway.identity := {| kind := Commit; mls_seq := 1; mls_transition_id := 7 |}; payload := [8] |}].

Definition is_err {E B} (r : res E B) : bool := match r with Err _ => true | _ => false end.

Lemma invalid_group_never_reported_witness :
  is_err (pump 1 (dave_run rejected dave_default) {[5; 6]} true created).1 = true /\
  forall t, CmdDaveMlsInvalidCommitWelcome t ∉ sample_commands.
Proof.
  split; [vm_compute; reflexivity|].
  apply (invalid_group_never_reported 1 joining {[5; 6]} true created sample_commands pumped); [apply created_reachable|apply joining_ok|apply joining_pump].
Defined.
End CoordinatorSamples.

End Coordinator.
