(* ===== verification/ReadyFrames.v ===== *)
(** * Handing received media to the user (cacophony/src/connection/receive.rs)

    [ReadyFrameQueue], the bounded queue of frames and errors that are ready;
    the frame stream, a bounded channel to the user's task, with
    [flush_frame_stream]; and the requests for single packets
    ([PendingReceive] in a queue per [LowLevelReceiveKind]).

    The user's task runs concurrently: between any two accesses of the driver
    to the channel it can take frames or close it.  [schedule] lists what it
    does before each access, so a statement for every schedule covers every
    interleaving.  The channel is tokio's [mpsc] channel: [try_send] fails with
    [Closed] on a closed channel and with [Full] when no slot is free. *)

From S2P Require Import Prelude Frame Rtp Queue Assembler.
Import Queue.Bounded.

Module ReadyFrames.
Section Ready.
Context {R : Assembler.FrameRaw} {Error : Type}.

Record ReceivedFrame := {
  rf_raw : Assembler.raw_frame; rf_rtp : Rtp.RtpHeader; rf_user_id : option Z; rf_media_type : MediaType;
  rf_codec : MediaCodec; rf_frame : bytes }.

Definition FrameReceiveResult : Type := Error + ReceivedFrame.

Inductive ReceiveFrameDropReason := ReadyQueueOverflow.

Record ReceiveFrameDroppedEvent := {
  drop_reason : ReceiveFrameDropReason; drop_ssrc : option Z; drop_user_id : option Z; drop_seq : option Z;
  drop_queued_frames : nat; dropped_error : bool }.

(** ** The ready queue; [telemetry] is [O::ENABLE_RECEIVE_TELEMETRY] *)
Definition observe_dropped (telemetry : bool) (result : FrameReceiveResult) (queued : nat) : list ReceiveFrameDroppedEvent :=
  if telemetry then
    let '(s, u, q, e) := match result with
                         | inr frame => (Some (Rtp.ssrc (rf_rtp frame)), rf_user_id frame, Some (Rtp.seq (rf_rtp frame)), false)
                         | inl _ => (None, None, None, true)
                         end in
    [{| drop_reason := ReadyQueueOverflow; drop_ssrc := s; drop_user_id := u; drop_seq := q; drop_queued_frames := queued; dropped_error := e |}]
  else [].

Definition ready_push (telemetry : bool) (result : FrameReceiveResult) (q : BoundedDeque FrameReceiveResult)
    : list ReceiveFrameDroppedEvent * BoundedDeque FrameReceiveResult :=
  let queued_before := bounded_len q in
  let '(dropped, q) := bounded_push_back result q in
  (match dropped with Some d => observe_dropped telemetry d (queued_before - 1) | None => [] end, q).

Definition ready_push_front (telemetry : bool) (result : FrameReceiveResult) (q : BoundedDeque FrameReceiveResult)
    : list ReceiveFrameDroppedEvent * BoundedDeque FrameReceiveResult :=
  let queued_before := bounded_len q in
  let '(dropped, q) := bounded_push_front result q in
  (match dropped with Some d => observe_dropped telemetry d (queued_before - 1) | None => [] end, q).

Definition ready_prune_ssrcs (removed : gset Z) (q : BoundedDeque FrameReceiveResult) : BoundedDeque FrameReceiveResult :=
  if bool_decide (removed = ∅) then q
  else bounded_retain (fun result => match result with
                                     | inr frame => negb (bool_decide (Rtp.ssrc (rf_rtp frame) ∈ removed))
                                     | inl _ => true
                                     end) q.

(** ** The frame stream *)
Record Channel := { chan_capacity : nat; chan_items : list FrameReceiveResult; chan_closed : bool }.

(** What the user's task does with its end. *)
Inductive receiver_action := TakeFrame | CloseStream.

Definition receiver_step (c : Channel) (a : receiver_action) : Channel :=
  match a with
  | TakeFrame => {| chan_capacity := chan_capacity c; chan_items := tail (chan_items c); chan_closed := chan_closed c |}
  | CloseStream => {| chan_capacity := chan_capacity c; chan_items := chan_items c; chan_closed := true |}
  end.

(** [mpsc::Sender::capacity]: the free slots. *)
Definition free_slots (c : Channel) : nat := chan_capacity c - length (chan_items c).

Inductive TrySendError := Full (result : FrameReceiveResult) | Closed (result : FrameReceiveResult).

Definition try_send (result : FrameReceiveResult) (c : Channel) : res TrySendError Channel :=
  if chan_closed c then Err (Closed result)
  else if (free_slots c =? 0)%nat then Err (Full result)
  else Ok {| chan_capacity := chan_capacity c; chan_items := chan_items c ++ [result]; chan_closed := false |}.

(** What [flush_frame_stream] works on: the ready queue, the stream, the frames
    given to the stream so far, the events reported, and the user's task. *)
Record Handover := {
  ready_frames : BoundedDeque FrameReceiveResult;
  frame_stream : option Channel;
  sent_frames : list FrameReceiveResult;
  drop_events : list ReceiveFrameDroppedEvent;
  schedule : list (list receiver_action) }.

Definition with_stream (c : option Channel) (h : Handover) : Handover :=
  {| ready_frames := ready_frames h; frame_stream := c; sent_frames := sent_frames h; drop_events := drop_events h; schedule := schedule h |}.

Definition with_ready (q : BoundedDeque FrameReceiveResult) (ev : list ReceiveFrameDroppedEvent) (h : Handover) : Handover :=
  {| ready_frames := q; frame_stream := frame_stream h; sent_frames := sent_frames h; drop_events := drop_events h ++ ev; schedule := schedule h |}.

Definition with_sent (c : Channel) (x : FrameReceiveResult) (h : Handover) : Handover :=
  {| ready_frames := ready_frames h; frame_stream := Some c; sent_frames := sent_frames h ++ [x]; drop_events := drop_events h; schedule := schedule h |}.

(** The user's task runs before the next access to the channel. *)
Definition user_runs (h : Handover) : Handover :=
  {| ready_frames := ready_frames h; frame_stream := (fun c => foldl receiver_step c (default [] (head (schedule h)))) <$> frame_stream h;
     sent_frames := sent_frames h; drop_events := drop_events h; schedule := tail (schedule h) |}.

Definition discard_closed_frame_stream (h : Handover) : Handover :=
  let h := user_runs h in
  match frame_stream h with
  | Some c => if chan_closed c then with_stream None h else h
  | None => h
  end.

Inductive BackpressureError := ActiveFrameStream.

Definition attach_frame_stream (c : Channel) (h : Handover) : res BackpressureError () * Handover :=
  let h := discard_closed_frame_stream h in
  if is_some (frame_stream h) then (Err ActiveFrameStream, h) else (Ok (), with_stream (Some c) h).

(** The [while] loop; every turn takes a frame from the ready queue. *)
Fixpoint flush_loop {E} (fuel : nat) (telemetry : bool) (h : Handover) : res E () * Handover :=
  match fuel with
  | O => (Panic, h)
  | S fuel =>
      let h := user_runs h in
      if match frame_stream h with Some c => (0 <? free_slots c)%nat | None => false end then
        match bounded_pop_front (ready_frames h) with
        | (None, _) => (Ok (), h)
        | (Some result, q) =>
            let h := user_runs (with_ready q [] h) in
            match frame_stream h with
            | None => let '(ev, q) := ready_push_front telemetry result (ready_frames h) in (Ok (), with_ready q ev h)
            | Some c =>
                match try_send result c with
                | Ok c => flush_loop fuel telemetry (with_sent c result h)
                | Err (Full result) => let '(ev, q) := ready_push_front telemetry result (ready_frames h) in (Ok (), with_ready q ev h)
                | Err (Closed _) => (Ok (), with_stream None h)
                | Panic => (Panic, h)
                end
            end
        end
      else (Ok (), h)
  end.

Definition flush_frame_stream {E} (telemetry : bool) (h : Handover) : res E () * Handover :=
  let h := discard_closed_frame_stream h in
  flush_loop (S (bounded_len (ready_frames h))) telemetry h.

(** ** Delivery *)
Definition fits (h : Handover) : Prop := forall c, frame_stream h = Some c -> (length (chan_items c) <= chan_capacity c)%nat.

Lemma receiver_steps_spec l c :
  let c' := foldl receiver_step c l in
  chan_capacity c' = chan_capacity c /\ (length (chan_items c') <= length (chan_items c))%nat /\ (chan_closed c = true -> chan_closed c' = true) /\
  (CloseStream ∉ l -> chan_closed c' = chan_closed c).
Proof.
  revert c. induction l as [|a l IH]; intros c; cbn [foldl]; [done|]. destruct (IH (receiver_step c a)) as (H1 & H2 & H3 & H4). destruct a.
  - cbn in *. rewrite length_tail_sub in H2. split; [done|]. split; [lia|]. split; [done|]. set_solver.
  - cbn in *. split; [done|]. split; [done|]. split; [by intros _; apply H3|]. intros []. by left.
Qed.

Lemma user_runs_spec h :
  ready_frames (user_runs h) = ready_frames h /\ sent_frames (user_runs h) = sent_frames h /\ drop_events (user_runs h) = drop_events h /\
  (fits h -> fits (user_runs h)) /\ (frame_stream h = None -> frame_stream (user_runs h) = None).
Proof.
  split; [done|]. split; [done|]. split; [done|]. split; [|by cbn; intros ->].
  intros Hf c'. cbn. destruct (frame_stream h) as [c|] eqn:Hc; [|done]. intros [= <-].
  destruct (receiver_steps_spec (default [] (head (schedule h))) c) as (-> & ? & _). specialize (Hf c Hc). lia.
Qed.

(** What a flush does: [l] are the frames handed over, [lost] a frame that
    was taken from the queue when the channel turned out to be closed. *)
Record flushed (h h' : Handover) : Prop := {
  flushed_fits : fits h';
  flushed_events : drop_events h' = drop_events h;
  flushed_capacity : capacity (ready_frames h') = capacity (ready_frames h);
  flushed_frames : exists l lost, sent_frames h' = sent_frames h ++ l /\ items (ready_frames h) = l ++ lost ++ items (ready_frames h') /\
    (lost = [] \/ frame_stream h' = None /\ is_some (frame_stream h) = true /\ exists x, lost = [x]);
  flushed_progress : frame_stream h' = None \/ items (ready_frames h') = [] \/ exists c, frame_stream h' = Some c /\ free_slots c = 0%nat }.

(** A flush that hands over nothing. *)
Lemma flushed_idle h h' :
  fits h -> frame_stream h' = frame_stream (user_runs h) -> ready_frames h' = ready_frames h -> sent_frames h' = sent_frames h ->
  drop_events h' = drop_events h ->
  (frame_stream h' = None \/ items (ready_frames h') = [] \/ exists c, frame_stream h' = Some c /\ free_slots c = 0%nat) -> flushed h h'.
Proof.
  intros Hf Hs Hr Hse Hd Hp. destruct (user_runs_spec h) as (_ & _ & _ & Hfit & _). split; [|done|by rewrite Hr| |done].
  - intros c Hc. rewrite Hs in Hc. exact (Hfit Hf c Hc).
  - exists [], []. rewrite Hse, Hr, app_nil_r. auto.
Qed.

Lemma flush_loop_ok {E} fuel telemetry h :
  fits h -> (length (items (ready_frames h)) < fuel)%nat -> exists h', flush_loop (E := E) fuel telemetry h = (Ok (), h') /\ flushed h h'.
Proof.
  revert h. induction fuel as [|fuel IH]; intros h Hf Hl; [lia|]. cbn [flush_loop]. destruct (user_runs_spec h) as (Hr & Hs & Hd & Hfit & Hnone).
  specialize (Hfit Hf). set (h1 := user_runs h) in *. destruct (frame_stream h1) as [c|] eqn:Hc.
  2: { exists h1. split; [done|]. apply flushed_idle; auto. }
  destruct (Nat.ltb_spec 0 (free_slots c)) as [Hfree|Hfree].
  2: { exists h1. split; [done|]. apply flushed_idle; try done. right. right. exists c. split; [done|lia]. }
  unfold bounded_pop_front. rewrite Hr. destruct (items (ready_frames h)) as [|x l] eqn:Hi.
  { exists h1. split; [done|]. apply flushed_idle; try done. right. left. by rewrite Hr. }
  set (h2 := with_ready (set_items l (ready_frames h)) [] h1). assert (fits h2) as Hf2 by done.
  destruct (user_runs_spec h2) as (Hr2 & Hs2 & Hd2 & Hfit2 & _). specialize (Hfit2 Hf2). set (h3 := user_runs h2) in *.
  assert (drop_events h2 = drop_events h) as Hd2' by (cbn; by rewrite app_nil_r).
  assert (is_some (frame_stream h) = true) as Hsome by (destruct (frame_stream h); [done|]; specialize (Hnone eq_refl); congruence).
  assert (exists c', frame_stream h3 = Some c' /\ (0 < free_slots c')%nat) as (c' & Hc' & Hfree').
  { assert (frame_stream h3 = (fun c => foldl receiver_step c (default [] (head (schedule h2)))) <$> frame_stream h1) as -> by reflexivity.
    rewrite Hc. eexists. split; [reflexivity|]. destruct (receiver_steps_spec (default [] (head (schedule h2))) c) as (H1 & H2 & _). unfold free_slots in *. rewrite H1. lia. }
  rewrite Hc'. unfold try_send. destruct (chan_closed c').
  - eexists. split; [done|]. split; cbn; [done|by rewrite app_nil_r|done| |by left].
    exists [], [x]. rewrite app_nil_r. split; [done|]. split; [done|]. right. split; [done|]. split; [done|]. by exists x.
  - rewrite (proj2 (Nat.eqb_neq _ _)) by lia. match goal with |- context [flush_loop fuel telemetry ?x] => set (h4 := x) end.
    destruct (IH h4) as (h' & -> & [H1 H2 H3 (l' & lost & H4 & H5 & H6) H7]).
    + intros c2. cbn. intros [= <-]. cbn. rewrite length_app. simpl. specialize (Hfit2 c' Hc'). unfold free_slots in Hfree'. lia.
    + cbn. simpl in Hl. lia.
    + eexists. split; [done|]. split; [done|by rewrite H2; cbn; rewrite app_nil_r|by rewrite H3| |done].
      exists (x :: l'), lost. cbn in H4, H5. rewrite H4, <- app_assoc. split; [done|]. split; [by rewrite Hi; cbn; rewrite H5|].
      destruct H6 as [->|(? & ? & ?)]; [by left|by right].
Qed.

(** Handing over media, however the user's task interleaves.
    [flush_frame_stream] terminates without panic and hands frames and errors
    to the stream in the order of the ready queue, each once; it reports no
    dropped frame, and it goes on until the queue is empty, the stream has no
    free slot, or there is no stream.  A frame is lost only when the user's
    task closes the stream during the flush, and then exactly one is. *)
Theorem flush_in_order {E} telemetry (h : Handover) :
  fits h ->
  exists h', flush_frame_stream (E := E) telemetry h = (Ok (), h') /\ fits h' /\ drop_events h' = drop_events h /\
    (exists l lost, sent_frames h' = sent_frames h ++ l /\ items (ready_frames h) = l ++ lost ++ items (ready_frames h') /\
       (lost = [] \/ frame_stream h' = None /\ is_some (frame_stream h) = true /\ exists x, lost = [x])) /\
    (frame_stream h' = None \/ items (ready_frames h') = [] \/ exists c, frame_stream h' = Some c /\ free_slots c = 0%nat).
Proof.
  intros Hf. unfold flush_frame_stream. destruct (user_runs_spec h) as (Hr & Hs & Hd & Hfit & Hnone). specialize (Hfit Hf).
  set (h1 := discard_closed_frame_stream h).
  assert (fits h1 /\ ready_frames h1 = ready_frames h /\ sent_frames h1 = sent_frames h /\ drop_events h1 = drop_events h /\
    (is_some (frame_stream h1) = true -> is_some (frame_stream h) = true)) as (Hf1 & Hr1 & Hs1 & Hd1 & Hn1).
  { unfold h1, discard_closed_frame_stream. destruct (frame_stream (user_runs h)) as [c|] eqn:Hc; [destruct (chan_closed c)|];
      (split; [done|]); (split; [done|]); (split; [done|]); (split; [done|]); try done;
      (destruct (frame_stream h); [done|]; specialize (Hnone eq_refl); congruence). }
  destruct (flush_loop_ok (E := E) (S (bounded_len (ready_frames h1))) telemetry h1 Hf1) as (h' & -> & [H1 H2 H3 (l & lost & H4 & H5 & H6) H7]); [unfold bounded_len; lia|].
  exists h'. rewrite Hs1 in H4. rewrite Hr1 in H5. split; [done|]. split; [done|]. split; [congruence|]. split; [|done].
  exists l, lost. split; [done|]. split; [done|]. naive_solver.
Qed.

End Ready.
Arguments ReceivedFrame {R}.
Arguments FrameReceiveResult {R} Error.
Arguments Handover {R} Error.
Arguments Channel {R} Error.

(** ** Requests for single packets *)
Inductive PayloadKind := RawUdpPayload | RtpPayloadKind | FramePayload.

Inductive LowLevelReceiveKind := RawUdp | RtpUdp.

#[export] Instance kind_eq_dec : EqDecision LowLevelReceiveKind.
Proof. solve_decision. Defined.

Definition all_kinds : list LowLevelReceiveKind := [RawUdp; RtpUdp].

Definition payload_kind (k : LowLevelReceiveKind) : PayloadKind := match k with RawUdp => RawUdpPayload | RtpUdp => RtpPayloadKind end.

Definition accepts (k : LowLevelReceiveKind) (info : Rtp.RawUdpPacketInfo) : bool :=
  match k with RawUdp => true | RtpUdp => negb (Rtp.is_rtcp info) end.

Definition kind_index (k : LowLevelReceiveKind) : nat := match k with RawUdp => 0 | RtpUdp => 1 end.

#[export] Instance kind_countable : Countable LowLevelReceiveKind.
Proof. refine (inj_countable' kind_index (fun n => match n with O => RawUdp | _ => RtpUdp end) _). by intros []. Defined.

#[export] Instance kind_bucket : Buckets.QueueBucket (B := LowLevelReceiveKind) := {|
  Buckets.bucket_index := kind_index; Buckets.bucket_count := length all_kinds |}.

Record RawUdpPacket := { raw_bytes : bytes; raw_info : Rtp.RawUdpPacketInfo }.

(** [response] names the one-shot channel the answer goes to. *)
Record PendingReceive := { max_len : nat; response : nat }.

Inductive PacketReceiveError := PayloadTooLarge (kind : PayloadKind) (len max_len : nat) | ConnectionClosed.

(** The answers given, with the channel each goes to. *)
Definition PacketReply : Type := nat * (PacketReceiveError + RawUdpPacket).

Definition ensure_len_at_most (max_len : nat) (kind : PayloadKind) (p : RawUdpPacket) : PacketReceiveError + RawUdpPacket :=
  if (max_len <? length (raw_bytes p))%nat then inl (PayloadTooLarge kind (length (raw_bytes p)) max_len) else inr p.

Abbreviation packet_receives := (list (list PendingReceive)).

Definition push_packet_receive {E} (kind : LowLevelReceiveKind) (receive : PendingReceive) (q : packet_receives) : res E packet_receives :=
  Buckets.bucket_push_back kind receive q.

Definition pop_packet_receive {E} (kind : LowLevelReceiveKind) (q : packet_receives) : res E (option PendingReceive * packet_receives) :=
  Buckets.bucket_pop_front kind q.

(** [closed] tells which answers nobody waits for any more. *)
Fixpoint discard_closed_in {E} (closed : nat -> bool) (kinds : list LowLevelReceiveKind) (q : packet_receives) : res E packet_receives :=
  match kinds with
  | [] => Ok q
  | k :: kinds => q ← Buckets.bucket_retain k (fun receive => negb (closed (response receive))) q; discard_closed_in closed kinds q
  end.

Definition discard_closed_packet_receives {E} (closed : nat -> bool) (q : packet_receives) : res E packet_receives :=
  discard_closed_in closed all_kinds q.

Fixpoint complete_closed_of {E} (fuel : nat) (k : LowLevelReceiveKind) (q : packet_receives) : res E (list PacketReply * packet_receives) :=
  match fuel with
  | O => Panic
  | S fuel =>
      '(o, q) ← pop_packet_receive k q;
      match o with
      | None => Ok ([], q)
      | Some receive => '(replies, q) ← complete_closed_of fuel k q; Ok ((response receive, inl ConnectionClosed) :: replies, q)
      end
  end.

Fixpoint complete_closed_in {E} (kinds : list LowLevelReceiveKind) (q : packet_receives) : res E (list PacketReply * packet_receives) :=
  match kinds with
  | [] => Ok ([], q)
  | k :: kinds =>
      '(replies, q) ← complete_closed_of (S (Buckets.bucket_len q)) k q;
      '(replies', q) ← complete_closed_in kinds q; Ok (replies ++ replies', q)
  end.

Definition complete_closed_packet_receives {E} (q : packet_receives) : res E (list PacketReply * packet_receives) :=
  complete_closed_in all_kinds q.

Definition resolve_pending_packet_receive {E} (kind : LowLevelReceiveKind) (info : Rtp.RawUdpPacketInfo) (packet : bytes) (q : packet_receives)
    : res E (list PacketReply * packet_receives) :=
  '(o, q) ← pop_packet_receive kind q;
  Ok (match o with
      | None => []
      | Some receive => [(response receive, ensure_len_at_most (max_len receive) (payload_kind kind) {| raw_bytes := packet; raw_info := info |})]
      end, q).

Fixpoint resolve_kinds {E} (kinds : list LowLevelReceiveKind) (info : Rtp.RawUdpPacketInfo) (packet : bytes) (q : packet_receives)
    : res E (list PacketReply * packet_receives) :=
  match kinds with
  | [] => Ok ([], q)
  | k :: kinds =>
      '(replies, q) ← (if accepts k info then resolve_pending_packet_receive k info packet q else Ok ([], q));
      '(replies', q) ← resolve_kinds kinds info packet q; Ok (replies ++ replies', q)
  end.

Definition resolve_pending_low_level_receives {E} (info : Rtp.RawUdpPacketInfo) (packet : bytes) (q : packet_receives)
    : res E (list PacketReply * packet_receives) :=
  resolve_kinds all_kinds info packet q.

(** The answer a request gets from a packet. *)
Definition answer (kind : LowLevelReceiveKind) (info : Rtp.RawUdpPacketInfo) (packet : bytes) (receive : PendingReceive) : PacketReply :=
  (response receive, ensure_len_at_most (max_len receive) (payload_kind kind) {| raw_bytes := packet; raw_info := info |}).

(** Every packet answers the oldest request for raw packets, and unless it is
    an RTCP packet the oldest request for RTP packets; the other requests wait
    in their order.  When the connection ends, all requests are answered. *)
Lemma packet_requests_fifo {E} info packet (raw rtp : list PendingReceive) :
  resolve_pending_low_level_receives (E := E) info packet [raw; rtp] =
    Ok ((answer RawUdp info packet <$> take 1 raw) ++ (if Rtp.is_rtcp info then [] else answer RtpUdp info packet <$> take 1 rtp),
        [tail raw; if Rtp.is_rtcp info then rtp else tail rtp]) /\
  complete_closed_packet_receives (E := E) [raw; rtp] =
    Ok ((fun r => (response r, inl ConnectionClosed)) <$> raw ++ rtp, [[]; []]).
Proof.
  split.
  - unfold resolve_pending_low_level_receives. destruct raw as [|r raw], rtp as [|r' rtp]; cbn; destruct (Rtp.is_rtcp info); done.
  - assert (forall fuel l other, (length l < fuel)%nat ->
      complete_closed_of (E := E) fuel RawUdp [l; other] = Ok ((fun r => (response r, inl ConnectionClosed)) <$> l, [[]; other])) as Hraw.
    { intros fuel l. revert fuel. induction l as [|x l IH]; intros [|fuel] other Hl; simpl in Hl; try lia; [done|].
      cbn. change (Buckets.set_bucket RawUdp l _) with [l; other]. rewrite IH by lia. done. }
    assert (forall fuel l other, (length l < fuel)%nat ->
      complete_closed_of (E := E) fuel RtpUdp [other; l] = Ok ((fun r => (response r, inl ConnectionClosed)) <$> l, [other; []])) as Hrtp.
    { intros fuel l. revert fuel. induction l as [|x l IH]; intros [|fuel] other Hl; simpl in Hl; try lia; [done|].
      cbn. change (Buckets.set_bucket RtpUdp l _) with [other; l]. rewrite IH by lia. done. }
    unfold complete_closed_packet_receives. cbn [complete_closed_in all_kinds]. rewrite Hraw by (unfold Buckets.bucket_len; simpl; lia).
    cbn [mbind res_mbind]. rewrite Hrtp by (unfold Buckets.bucket_len; simpl; lia). cbn [mbind res_mbind].
    by rewrite app_nil_r, fmap_app.
Qed.

Module ReadySamples.
#[local] Existing Instance Assembler.AssemblerSamples.sample_raw.

(** Three results wait; the stream has two slots, one taken; the user's task
    takes a frame before the second access and closes before the fifth. *)
Definition sample_handover : Handover Z := {|
  ready_frames := {| items := [inl 1; inl 2; inl 3]; capacity := 4 |};
  frame_stream := Some {| chan_capacity := 2; chan_items := [inl 0]; chan_closed := false |};
  sent_frames := []; drop_events := []; schedule := [[]; [TakeFrame]; []; []; [CloseStream]] |}.

Lemma flush_in_order_witness :
  exists h', flush_frame_stream (E := Empty_set) true sample_handover = (Ok (), h') /\ fits h' /\ drop_events h' = drop_events sample_handover /\
    (exists l lost, sent_frames h' = sent_frames sample_handover ++ l /\
       items (ready_frames sample_handover) = l ++ lost ++ items (ready_frames h') /\
       (lost = [] \/ frame_stream h' = None /\ is_some (frame_stream sample_handover) = true /\ exists x, lost = [x])) /\
    (frame_stream h' = None \/ items (ready_frames h') = [] \/ exists c, frame_stream h' = Some c /\ free_slots c = 0%nat).
Proof. apply flush_in_order. intros c [= <-]. cbn. lia. Defined.
End ReadySamples.
End ReadyFrames.
