(* ===== verification/Pipeline.v ===== *)
(** * The receive pipeline of a connection (cacophony/src/connection/receive.rs, driver.rs)

    A datagram that arrives goes through the transport decryption, the
    reordering of its source and the frame assembler; a frame that is complete
    is handed to the DAVE session when it is marked for it.  Frames that cannot
    be decrypted yet wait in the pending queues: they are retried after gateway
    events and dropped when they expire.  What is ready goes to the bounded
    ready queue and from there to the user's frame stream.

    The driver sees DAVE through the interface [DaveMedia]; [coordinator_media]
    shows that the coordinator over a session provides it.  [clock n] is the
    [n]-th reading of the clock; [telemetry] and [rtcp_telemetry] are the
    constants of the observer, whose calls are the list [d_events]. *)

From S2P Require Import Prelude Effects Tuning Gcm Frame Rtp Codecs RtpPayload Ratchet Cryptor Queue Assembler Reorder PendingMedia.
From S2P Require Import Receive DaveGateway Gateway MlsPolicy Identity Session Coordinator ReadyFrames.
Import PendingMedia.PendingMedia Reorder.Reorder Queue.Bounded ReadyFrames.ReadyFrames.

Module Pipeline.

(** ** What the driver needs of DAVE *)
Class DaveMedia := {
  dave_t : Type;
  dave_ready : dave_t -> bool;
  dave_send_ready : dave_t -> bool;
  dave_transition_ready : dave_t -> option Z;
  dave_decrypt : Z -> Z -> MediaType -> bytes -> st dave_t Session.DecryptError bytes;
  dave_grace : Z -> dave_t -> dave_t }.

(** [dave_ok now]: the state is fit for a call at [now]. *)
Class DaveMediaLaws (D : DaveMedia) := {
  dave_ok : Z -> dave_t -> Prop;
  dave_decrypt_ok now u mt frame d : dave_ok now d -> all_bytes frame ->
    (dave_decrypt now u mt frame d).1 ≠ Panic /\ forall now', dave_ok now' d -> dave_ok now' (dave_decrypt now u mt frame d).2;
  dave_decrypt_state now u mt frame : keeps (fun d => (dave_ready d, dave_transition_ready d)) (dave_decrypt now u mt frame);
  dave_grace_ok now now' d : dave_ok now' d -> dave_ok now' (dave_grace now d) }.

(** ** Errors and what they mean for a retry (errors.rs, dave.rs) *)
Inductive DaveDecryptError := DaveMissingUser | DaveSource (e : Session.DecryptError).

Inductive ReceiveDecodeStage := StageRtp | StageCodec | StageTransport | StageDaveFrame | StageDaveDecrypt | StageOpus.

Inductive ReceiveDecodeErrorKind :=
| MalformedRtp | UnsupportedCodec | TransportDecryptFailed | MalformedDaveFrame | MissingDaveUser | DaveSessionNotReady
| DaveGatewayPending | DaveNoDecryptorForUser | DaveNoValidCryptor | DaveUnencryptedWhenPassthroughDisabled | DaveOtherDecryptError
| OpusDecodeFailed.

Definition receive_decode_kind (e : DaveDecryptError) : ReceiveDecodeErrorKind :=
  match e with
  | DaveMissingUser => MissingDaveUser
  | DaveSource (Session.NoDecryptorForUser _) => DaveNoDecryptorForUser
  | DaveSource (Session.FrameError (NoValidCryptor _ _ _)) => DaveNoValidCryptor
  | DaveSource (Session.FrameError PassthroughDisabled) => DaveUnencryptedWhenPassthroughDisabled
  | DaveSource (Session.FrameError (MalformedFrame | ReplayedNonce | MissingCryptor _ | AeadFailed _ | InvalidDecryptKey)) => DaveOtherDecryptError
  end.

Definition is_no_valid_cryptor (e : DaveDecryptError) : bool :=
  match e with DaveSource (Session.FrameError (NoValidCryptor _ _ _)) => true | _ => false end.

Definition dave_decrypt_failure_can_become_recoverable (k : ReceiveDecodeErrorKind) : bool :=
  match k with DaveNoDecryptorForUser | DaveNoValidCryptor | DaveOtherDecryptError => true | _ => false end.

Definition should_retry_dave_decrypt (k : ReceiveDecodeErrorKind) (state_can_still_change : bool) : bool :=
  dave_decrypt_failure_can_become_recoverable k && state_can_still_change.

(** The part of [errors::Error] the receive path returns. *)
Inductive Error :=
| EPacket (e : Rtp.Error)
| EUnsupportedCodec (e : Codecs.UnsupportedCodecError)
| EMissingSessionDescription
| EDaveDecrypt (e : DaveDecryptError).

(** ** Observer events *)
Record DavePendingMediaEvent := {
  pm_reason : Assembler.DavePendingMediaReason; pm_ssrc : Z; pm_user_id : option Z; pm_seq : Z; pending_packets : nat; pm_age_ms : Z }.

Inductive PipelineEvent :=
| EvReceive (e : Reorder.ReceiveEvent)
| EvDecodeError (stage : ReceiveDecodeStage) (kind : ReceiveDecodeErrorKind) (ssrc user_id seq : option Z)
| EvPendingEnqueued (e : DavePendingMediaEvent)
| EvPendingDrained (e : DavePendingMediaEvent)
| EvPendingDropped (e : DavePendingMediaEvent)
| EvRtcp (header : option Rtp.RtcpHeader).

(** [FrameRaw::capture_packet] *)
Class PacketCapture (R : Assembler.FrameRaw) := { capture_packet : bytes -> Rtp.RawUdpPacketInfo -> Assembler.raw_packet }.

Section Pipeline.
Context {R : Assembler.FrameRaw} {PC : PacketCapture R} {AEAD : Rtp.TransportAead} {D : DaveMedia}.
Context {IS : Deadlines.SetIter (K := Z)} {IB : Deadlines.SetIter (K := PendingMedia.DavePendingMediaBucket)}.
Context (tuning : Tuning.ConnectionRuntimeTuning) (clock : nat -> Z) (telemetry rtcp_telemetry : bool).

Abbreviation media_frame := (Assembler.PendingMediaFrame).
Abbreviation rx_state := (Receive.ReceiveState Assembler.PendingMediaPacket Assembler.PendingMediaFrame Rtp.RtpError).

(** A call of the session: when, for whom, the ciphertext, the state it was made
    in and what it returned. *)
Record DaveCall := {
  call_time : Z; call_user : Z; call_media : MediaType; call_frame : bytes; call_state : dave_t; call_result : res Session.DecryptError bytes }.

(** What happened so far: the frames the sources handed over, and the calls of
    the session.  No code reads it. *)
Record History := { handed_over : list media_frame; dave_calls : list DaveCall }.

(** The driver's fields the receive path uses, with the answers and events it
    has produced, the number of clock readings and the history. *)
Record Driver := {
  d_conn : Gateway.ConnectionInternalState;
  d_dave : dave_t;
  d_transport : Rtp.TransportCrypto;
  d_rx : rx_state;
  d_hand : Handover Error;
  d_requests : list (list PendingReceive);
  d_replies : list PacketReply;
  d_events : list PipelineEvent;
  d_ticks : nat;
  d_history : History }.

Definition with_conn (c : Gateway.ConnectionInternalState) (v : dave_t) (d : Driver) : Driver :=
  {| d_conn := c; d_dave := v; d_transport := d_transport d; d_rx := d_rx d; d_hand := d_hand d; d_requests := d_requests d;
     d_replies := d_replies d; d_events := d_events d; d_ticks := d_ticks d; d_history := d_history d |}.
Definition with_transport (t : Rtp.TransportCrypto) (d : Driver) : Driver :=
  {| d_conn := d_conn d; d_dave := d_dave d; d_transport := t; d_rx := d_rx d; d_hand := d_hand d; d_requests := d_requests d;
     d_replies := d_replies d; d_events := d_events d; d_ticks := d_ticks d; d_history := d_history d |}.
Definition with_rx (rx : rx_state) (ev : list PipelineEvent) (d : Driver) : Driver :=
  {| d_conn := d_conn d; d_dave := d_dave d; d_transport := d_transport d; d_rx := rx; d_hand := d_hand d; d_requests := d_requests d;
     d_replies := d_replies d; d_events := d_events d ++ ev; d_ticks := d_ticks d; d_history := d_history d |}.
Definition with_hand (h : Handover Error) (d : Driver) : Driver :=
  {| d_conn := d_conn d; d_dave := d_dave d; d_transport := d_transport d; d_rx := d_rx d; d_hand := h; d_requests := d_requests d;
     d_replies := d_replies d; d_events := d_events d; d_ticks := d_ticks d; d_history := d_history d |}.
Definition with_requests (q : list (list PendingReceive)) (r : list PacketReply) (d : Driver) : Driver :=
  {| d_conn := d_conn d; d_dave := d_dave d; d_transport := d_transport d; d_rx := d_rx d; d_hand := d_hand d; d_requests := q;
     d_replies := d_replies d ++ r; d_events := d_events d; d_ticks := d_ticks d; d_history := d_history d |}.
Definition tick (d : Driver) : Driver :=
  {| d_conn := d_conn d; d_dave := d_dave d; d_transport := d_transport d; d_rx := d_rx d; d_hand := d_hand d; d_requests := d_requests d;
     d_replies := d_replies d; d_events := d_events d; d_ticks := S (d_ticks d); d_history := d_history d |}.
Definition with_history (h : History) (d : Driver) : Driver :=
  {| d_conn := d_conn d; d_dave := d_dave d; d_transport := d_transport d; d_rx := d_rx d; d_hand := d_hand d; d_requests := d_requests d;
     d_replies := d_replies d; d_events := d_events d; d_ticks := d_ticks d; d_history := h |}.

(** Methods of the driver that return no error themselves. *)
Definition drv (A : Type) : Type := st Driver Empty_set A.

Definition now : drv Z := fun d => (Ok (clock (d_ticks d)), tick d).
Definition emit (ev : list PipelineEvent) : drv () := modify (fun d => with_rx (d_rx d) ev d).
Definition when (b : bool) (m : drv ()) : drv () := if b then m else mret ().

(** Code that works on the pending queues. *)
Definition on_pending {A} (f : PendingMedia.PendingDaveMediaQueues media_frame -> res Empty_set (A * PendingMedia.PendingDaveMediaQueues media_frame)) : drv A :=
  fun d => match f (Receive.pending_dave_media (d_rx d)) with
           | Ok (a, q) => (Ok a, with_rx (Receive.set_pending q (d_rx d)) [] d)
           | Err e => (Err e, d)
           | Panic => (Panic, d)
           end.

(** [session.decrypt_into], which the history keeps. *)
Definition session_decrypt (t u : Z) (mt : MediaType) (frame : bytes) : drv (Session.DecryptError + bytes) :=
  fun d => let '(r, v) := dave_decrypt t u mt frame (d_dave d) in
           let call := {| call_time := t; call_user := u; call_media := mt; call_frame := frame; call_state := d_dave d; call_result := r |} in
           (match r with Ok b => Ok (inr b) | Err e => Ok (inl e) | Panic => Panic end,
            with_history {| handed_over := handed_over (d_history d); dave_calls := dave_calls (d_history d) ++ [call] |} (with_conn (d_conn d) v d)).

(** The history keeps a frame that a source handed over. *)
Definition note_frame (m : media_frame) : drv () :=
  modify (fun d => with_history {| handed_over := handed_over (d_history d) ++ [m]; dave_calls := dave_calls (d_history d) |} d).

(** Code that works on the receive state; its error is a value here. *)
Definition on_rx {A} (f : rx_state -> res Rtp.RtpError A * rx_state * list ReceiveEvent) : drv (res Rtp.RtpError A) :=
  fun d => let '(r, rx, ev) := f (d_rx d) in (match r with Panic => Panic | _ => Ok r end, with_rx rx (EvReceive <$> ev) d).

Definition panic {A} : drv A := fun d => (Panic, d).

(** ** Media status (driver.rs) *)
Definition dave_internal (d : Driver) : DaveGateway.DaveInternalState := Gateway.dave (d_conn d).

Definition transition_zero_ready (d : Driver) : bool :=
  DaveGateway.transition_zero_media_ready (dave_transition_ready (d_dave d)) (dave_internal d).

Record DaveMediaStatus := {
  requires_dave : bool; status_send_version : option Z; status_receive_version : option Z; media_ready : bool; session_ready : bool;
  status_send_ready : bool; status_transition_ready : option Z; status_protocol_version : option Z; status_transition_id : option Z;
  status_mls : DaveGateway.DaveMlsState }.

Definition current_dave_media_status (d : Driver) : DaveMediaStatus :=
  let dave := dave_internal d in
  let requires := DaveGateway.send_requires_dave dave in
  let session := dave_ready (d_dave d) in
  let send := dave_send_ready (d_dave d) in
  let gateway_ready := DaveGateway.gateway_media_ready dave || transition_zero_ready d in
  {| requires_dave := requires;
     status_send_version := DaveGateway.active_send_protocol_version dave;
     status_receive_version := DaveGateway.active_receive_protocol_version dave;
     media_ready := Coordinator.ready_from requires session send gateway_ready;
     session_ready := session; status_send_ready := send; status_transition_ready := dave_transition_ready (d_dave d);
     status_protocol_version := DaveGateway.protocol_version dave; status_transition_id := DaveGateway.transition_id dave;
     status_mls := DaveGateway.mls_state dave |}.

Definition dave_decrypt_state_can_still_change (d : Driver) : bool :=
  negb (dave_ready (d_dave d)) || (negb (transition_zero_ready d) && negb (DaveGateway.gateway_media_ready (dave_internal d))).

(** ** Pending media *)
Definition with_user (u : option Z) (m : media_frame) : media_frame :=
  {| Assembler.frame_raw := Assembler.frame_raw m; Assembler.frame_rtp := Assembler.frame_rtp m; Assembler.frame_user_id := u;
     Assembler.frame_codec := Assembler.frame_codec m; Assembler.encrypted_frame := Assembler.encrypted_frame m;
     Assembler.frame_dave := Assembler.frame_dave m; Assembler.enqueued_at := Assembler.enqueued_at m; Assembler.reason := Assembler.reason m;
     Assembler.was_pending := Assembler.was_pending m |}.
Definition with_reason (r : Assembler.DavePendingMediaReason) (m : media_frame) : media_frame :=
  {| Assembler.frame_raw := Assembler.frame_raw m; Assembler.frame_rtp := Assembler.frame_rtp m; Assembler.frame_user_id := Assembler.frame_user_id m;
     Assembler.frame_codec := Assembler.frame_codec m; Assembler.encrypted_frame := Assembler.encrypted_frame m;
     Assembler.frame_dave := Assembler.frame_dave m; Assembler.enqueued_at := Assembler.enqueued_at m; Assembler.reason := r;
     Assembler.was_pending := Assembler.was_pending m |}.
Definition set_was_pending (m : media_frame) : media_frame :=
  {| Assembler.frame_raw := Assembler.frame_raw m; Assembler.frame_rtp := Assembler.frame_rtp m; Assembler.frame_user_id := Assembler.frame_user_id m;
     Assembler.frame_codec := Assembler.frame_codec m; Assembler.encrypted_frame := Assembler.encrypted_frame m;
     Assembler.frame_dave := Assembler.frame_dave m; Assembler.enqueued_at := Assembler.enqueued_at m; Assembler.reason := Assembler.reason m;
     Assembler.was_pending := true |}.

Definition frame_ssrc (m : media_frame) : Z := Rtp.ssrc (Assembler.frame_rtp m).
Definition frame_seq (m : media_frame) : Z := Rtp.seq (Assembler.frame_rtp m).

(** [enqueued_at.elapsed()] *)
Definition elapsed (m : media_frame) : drv Z := t ← now; mret (Reorder.duration_since t (Assembler.enqueued_at m)).

(** [PendingMediaFrame::event] *)
Definition pending_event (m : media_frame) (pending : nat) (reason : Assembler.DavePendingMediaReason) : drv DavePendingMediaEvent :=
  age ← elapsed m;
  mret {| pm_reason := reason; pm_ssrc := frame_ssrc m; pm_user_id := Assembler.frame_user_id m; pm_seq := frame_seq m;
          pending_packets := pending; pm_age_ms := Reorder.duration_ms age |}.

Definition with_pending_packets (n : nat) (e : DavePendingMediaEvent) : DavePendingMediaEvent :=
  {| pm_reason := pm_reason e; pm_ssrc := pm_ssrc e; pm_user_id := pm_user_id e; pm_seq := pm_seq e; pending_packets := n; pm_age_ms := pm_age_ms e |}.

Definition pending_count (d : Driver) : nat := PendingMedia.pending_len (Receive.pending_dave_media (d_rx d)).

Definition enqueue_dave_media (m : media_frame) (reason : Assembler.DavePendingMediaReason) : drv () :=
  let was_pending := Assembler.was_pending m in
  let m := with_reason reason m in
  event ← (if telemetry && negb was_pending
           then n ← gets pending_count; e ← pending_event m (n + 1) reason; mret (Some e)
           else mret None);
  pending ← on_pending (PendingMedia.pending_push m);
  match event with Some e => emit [EvPendingEnqueued (with_pending_packets pending e)] | None => mret () end.

Definition observe_pending_dave_media (m : media_frame) (reason : Assembler.DavePendingMediaReason) (drained : bool) : drv () :=
  when telemetry
    (n ← gets pending_count; e ← pending_event m n reason;
     emit [if drained then EvPendingDrained e
           else match reason with
                | Assembler.StableDecryptFailure | Assembler.Expired => EvPendingDropped e
                | _ => EvPendingEnqueued e
                end]).

Definition observe_decode_error (stage : ReceiveDecodeStage) (kind : ReceiveDecodeErrorKind) (ssrc user_id seq : option Z) : drv () :=
  when telemetry (emit [EvDecodeError stage kind ssrc user_id seq]).

(** The frame handed to the user. *)
Definition received (m : media_frame) (frame : bytes) : ReceivedFrame :=
  {| rf_raw := Assembler.frame_raw m; rf_rtp := Assembler.frame_rtp m; rf_user_id := Assembler.frame_user_id m;
     rf_media_type := media_type (Assembler.frame_codec m); rf_codec := Assembler.frame_codec m; rf_frame := frame |}.

(** [DaveCoordinator::decrypt_media_frame_into] *)
Definition decrypt_media_frame (u : option Z) (mt : MediaType) (frame : bytes) : drv (DaveDecryptError + bytes) :=
  match u with
  | None => mret (inl DaveMissingUser)
  | Some u => t ← now; r ← session_decrypt t u mt frame; mret (match r with inl e => inl (DaveSource e) | inr b => inr b end)
  end.

Definition decode_or_enqueue_dave_media (m : media_frame) : drv (option (FrameReceiveResult Error)) :=
  users ← gets (fun d => Gateway.ssrc_users (d_conn d));
  let m := with_user (users !! frame_ssrc m) m in
  match Assembler.frame_user_id m with
  | None => _ ← enqueue_dave_media m Assembler.MissingUser; mret None
  | Some _ =>
      gateway_pending ← gets (fun d => negb (DaveGateway.gateway_media_ready (dave_internal d)));
      zero_ready ← gets transition_zero_ready;
      ready ← gets (fun d => dave_ready (d_dave d));
      if negb ready then _ ← enqueue_dave_media m Assembler.SessionNotReady; mret None
      else if gateway_pending && negb zero_ready then _ ← enqueue_dave_media m Assembler.GatewayPending; mret None
      else
        r ← decrypt_media_frame (Assembler.frame_user_id m) (media_type (Assembler.frame_codec m)) (Assembler.encrypted_frame m);
        match r with
        | inr frame =>
            _ ← when (Assembler.was_pending m) (observe_pending_dave_media m (Assembler.reason m) true);
            mret (Some (inr (received m frame)))
        | inl error =>
            let kind := receive_decode_kind error in
            _ ← observe_decode_error StageDaveDecrypt kind (Some (frame_ssrc m)) (Assembler.frame_user_id m) (Some (frame_seq m));
            age ← elapsed m;
            can_change ← gets dave_decrypt_state_can_still_change;
            if (age <? Tuning.dave_pending_media_ttl tuning) && should_retry_dave_decrypt kind can_change then
              _ ← enqueue_dave_media m (if is_no_valid_cryptor error then Assembler.NoValidCryptorPending else Assembler.DecryptStatePending);
              mret None
            else
              _ ← observe_pending_dave_media m Assembler.StableDecryptFailure false;
              mret (Some (inl (EDaveDecrypt error)))
        end
  end.

Definition decode_ordered_media_frame (m : media_frame) : drv (option (FrameReceiveResult Error)) :=
  _ ← note_frame m;
  if Assembler.frame_dave m then decode_or_enqueue_dave_media m
  else mret (Some (inr (received m (Assembler.encrypted_frame m)))).

(** ** The ready queue *)
Definition queue_ready_voice_frame (result : FrameReceiveResult Error) : drv () :=
  modify (fun d => let '(ev, q) := ready_push telemetry result (ready_frames (d_hand d)) in with_hand (with_ready q ev (d_hand d)) d).

Definition flush : drv () :=
  fun d => let '(r, h) := flush_frame_stream telemetry (d_hand d) in (r, with_hand h d).

Definition drain_once : drv (res Rtp.RtpError (option media_frame)) :=
  t ← now; on_rx (Receive.drain_ordered_media telemetry t).

(** The [while] loop of [drain_ready_voice_frame]; a turn that goes on takes
    something from a source. *)
Fixpoint drain_ready_loop (fuel : nat) : drv (option (FrameReceiveResult Error)) :=
  match fuel with
  | O => panic
  | S fuel =>
      r ← drain_once;
      match r with
      | Ok None => mret None
      | Ok (Some m) => o ← decode_ordered_media_frame m; match o with Some _ => mret o | None => drain_ready_loop fuel end
      | Err e => mret (Some (inl (EPacket (Rtp.ERtp e))))
      | Panic => panic
      end
  end.

(** What the sources still hold. *)
Definition held (d : Driver) : nat :=
  map_sum (fun s => 3 * size (Reorder.pending_media s) + size (Reorder.missing s) + length (Assembler.completed (Reorder.assembler s)))%nat
    (Receive.ssrcs (d_rx d)).

Definition drain_ready_voice_frame : drv (option (FrameReceiveResult Error)) :=
  fuel ← gets (fun d => S (held d)); drain_ready_loop fuel.

(** Every turn fills a free slot of the ready queue. *)
Fixpoint collect_loop (fuel : nat) : drv () :=
  match fuel with
  | O => panic
  | S fuel =>
      room ← gets (fun d => has_capacity (ready_frames (d_hand d)));
      if room : bool then
        o ← drain_ready_voice_frame;
        match o with Some result => _ ← queue_ready_voice_frame result; collect_loop fuel | None => mret () end
      else mret ()
  end.

Definition collect_ready_voice_frames : drv () :=
  fuel ← gets (fun d => S (capacity (ready_frames (d_hand d)))); collect_loop fuel.

Definition decode_and_queue (m : media_frame) : drv () :=
  o ← decode_or_enqueue_dave_media m; match o with Some result => queue_ready_voice_frame result | None => mret () end.

(** ** Retry and expiry.  Nothing bounds the turns of the retry loop, so the
    fuel is an argument. *)
Fixpoint retry_loop (fuel : nat) (retry : PendingMedia.DavePendingMediaRetry) : drv () :=
  match fuel with
  | O => panic
  | S fuel =>
      o ← on_pending (PendingMedia.pop_retry retry);
      match o with
      | None => mret ()
      | Some m =>
          let m := set_was_pending m in
          age ← elapsed m;
          if Tuning.dave_pending_media_ttl tuning <=? age then
            _ ← observe_pending_dave_media m Assembler.Expired false; retry_loop fuel retry
          else
            _ ← decode_and_queue m; retry_loop fuel retry
      end
  end.

Definition retry_pending_dave_media (fuel : nat) (retry : PendingMedia.DavePendingMediaRetry) : drv () :=
  if PendingMedia.retry_is_empty retry then mret () else retry_loop fuel retry.

Fixpoint expire_pending_loop (fuel : nat) : drv () :=
  match fuel with
  | O => panic
  | S fuel =>
      t ← now; o ← on_pending (PendingMedia.pending_pop_expired t);
      match o with
      | None => mret ()
      | Some m => _ ← observe_pending_dave_media m Assembler.Expired false; expire_pending_loop fuel
      end
  end.

Definition expire_pending_dave_media : drv () := fuel ← gets (fun d => S (pending_count d)); expire_pending_loop fuel.

(** ** A datagram *)
Definition decode_received_voice_packet (info : Rtp.RawUdpPacketInfo) (packet : bytes) : drv (option (FrameReceiveResult Error)) :=
  match Rtp.header_parse packet with
  | Panic => panic
  | Err error =>
      _ ← observe_decode_error StageRtp MalformedRtp (Rtp.info_ssrc info) None (Rtp.info_seq info);
      mret (Some (inl (EPacket (Rtp.ERtp error))))
  | Ok rtp =>
      conn ← gets d_conn;
      match Gateway.rtp_codecs conn with
      | None => mret (Some (inl EMissingSessionDescription))
      | Some codecs =>
          let user_id := Gateway.ssrc_users conn !! Rtp.ssrc rtp in
          match Codecs.detect codecs (Rtp.payload_type rtp) with
          | Panic => panic
          | Err error =>
              _ ← observe_decode_error StageCodec UnsupportedCodec (Some (Rtp.ssrc rtp)) user_id (Some (Rtp.seq rtp));
              mret (Some (inl (EUnsupportedCodec error)))
          | Ok codec =>
              transport ← gets d_transport;
              match Rtp.decrypt_payload_into transport packet rtp with
              | Panic => panic
              | Err error =>
                  _ ← observe_decode_error StageTransport TransportDecryptFailed (Some (Rtp.ssrc rtp)) user_id (Some (Rtp.seq rtp));
                  mret (Some (inl (EPacket error)))
              | Ok payload =>
                  let p := {| Assembler.pkt_raw := capture_packet packet info; Assembler.pkt_rtp := rtp; Assembler.pkt_user_id := user_id;
                              Assembler.pkt_codec := codec; Assembler.encrypted_payload := payload;
                              Assembler.pkt_dave := DaveGateway.receive_transform_active (Gateway.dave conn) |} in
                  t ← now;
                  r ← on_rx (Receive.receive_push telemetry t p);
                  match r with
                  | Ok (Some m) => decode_ordered_media_frame m
                  | Ok None => mret None
                  | Err e => mret (Some (inl (EPacket (Rtp.ERtp e))))
                  | Panic => panic
                  end
              end
          end
      end
  end.

Definition resolve_receives (info : Rtp.RawUdpPacketInfo) (packet : bytes) : drv () :=
  fun d => match resolve_pending_low_level_receives info packet (d_requests d) with
           | Ok (replies, q) => (Ok (), with_requests q replies d)
           | Err e => (Err e, d)
           | Panic => (Panic, d)
           end.

Definition handle_received_udp_packet (packet : bytes) : drv () :=
  info ← lift (Rtp.info_from_bytes packet);
  _ ← resolve_receives info packet;
  if Rtp.is_rtcp info then
    when rtcp_telemetry (header ← lift (Rtp.rtcp_header info packet); emit [EvRtcp header])
  else
    o ← decode_received_voice_packet info packet;
    _ ← match o with Some result => queue_ready_voice_frame result | None => mret () end;
    _ ← collect_ready_voice_frames;
    flush.

(** ** Gateway events and timers (driver.rs) *)
Definition allow_grace : st Driver Rtp.Error () :=
  fun d => (Ok (), tick (with_conn (d_conn d) (dave_grace (clock (d_ticks d)) (d_dave d)) d)).

Definition prune (removed : gset Z) : st Driver Rtp.Error () :=
  fun d => match Receive.prune_ssrcs removed (d_rx d) with
           | Ok rx => (Ok (), with_hand (with_ready (ready_prune_ssrcs removed (ready_frames (d_hand d))) [] (d_hand d)) (with_rx rx [] d))
           | Err e => (Err (Rtp.ERtp e), d)
           | Panic => (Panic, d)
           end.

Definition apply_gateway_effects (effects : Gateway.GatewayEventEffects) : st Driver Rtp.Error () :=
  _ ← match Gateway.new_transport_crypto effects with
      | Some config => t ← lift (Rtp.from_config config); modify (with_transport t)
      | None => mret ()
      end;
  _ ← (if Gateway.allow_plaintext_receive_grace effects then allow_grace else mret ());
  match Gateway.removed_ssrcs effects with
  | [] => mret ()
  | l => prune (list_to_set l)
  end.

(** After an event has been handled and DAVE pumped: the branch of [run_loop]
    for the gateway. *)
Definition after_gateway_event (fuel : nat) (retry : PendingMedia.DavePendingMediaRetry) : drv () :=
  _ ← retry_pending_dave_media fuel retry; _ ← collect_ready_voice_frames; flush.

(** The branch of [run_loop] for the wake deadline. *)
Definition on_wake_deadline : drv () :=
  _ ← expire_pending_dave_media; _ ← collect_ready_voice_frames; flush.

(** ** Invariant

    [flag] restricts the mark [dave] of the packets that arrive: the invariant
    is used with no restriction, and for packets that all are to be decrypted. *)
Context {HD : DaveMediaLaws D} {HA : Rtp.TransportAeadLaws AEAD} {LS : Deadlines.SetIterLaws IS} {LB : Deadlines.SetIterLaws IB}.
Context (flag : bool -> Prop).

#[local] Instance flag_laws : FrameAssemblerLaws rtp_frame_assembler := rtp_assembler_flag_laws flag.

(** What a frame keeps while it waits. *)
Definition media_core (m : media_frame) : Assembler.raw_frame * Rtp.RtpHeader * MediaCodec * bytes * bool :=
  (Assembler.frame_raw m, Assembler.frame_rtp m, Assembler.frame_codec m, Assembler.encrypted_frame m, Assembler.frame_dave m).

Definition from_source (h : History) (m : media_frame) : Prop := exists m0, m0 ∈ handed_over h /\ media_core m = media_core m0.

(** The frame is what the DAVE session, ready at the time, returned for the
    encrypted frame that a source handed over and the user it is attributed to. *)
Definition decrypted (h : History) (f : ReceivedFrame) : Prop :=
  exists m u c n, m ∈ handed_over h /\ c ∈ dave_calls h /\ call_time c = clock n /\ call_user c = u /\ call_media c = media_type (Assembler.frame_codec m) /\
    call_frame c = Assembler.encrypted_frame m /\ all_bytes (call_frame c) /\ dave_ok (clock n) (call_state c) /\ dave_ready (call_state c) = true /\
    (dave_decrypt (clock n) u (call_media c) (call_frame c) (call_state c)).1 = Ok (rf_frame f) /\ f = received (with_user (Some u) m) (rf_frame f).

Definition allowed (h : History) (r : FrameReceiveResult Error) : Prop := match r with inl _ => True | inr f => flag false \/ decrypted h f end.

Definition pending_frames (d : Driver) : list media_frame := frames (Receive.pending_dave_media (d_rx d)).

Record hand_ok (hist : History) (h : Handover Error) : Prop := {
  hand_ready : Forall (allowed hist) (items (ready_frames h));
  hand_sent : Forall (allowed hist) (sent_frames h);
  hand_fits : fits h;
  hand_room : (0 < capacity (ready_frames h))%nat /\ (length (items (ready_frames h)) <= capacity (ready_frames h))%nat;
  hand_capacity : capacity (ready_frames h) = Tuning.ready_frame_buffer_max tuning }.

Record pipe_ok (d : Driver) : Prop := {
  ok_rx : Receive.sched_ok (d_rx d);
  ok_ttl : ttl (Receive.pending_dave_media (d_rx d)) = Tuning.dave_pending_media_ttl tuning;
  ok_pending : Forall (fun m => frame_flagged flag m /\ from_source (d_history d) m) (pending_frames d);
  ok_dave : forall n, (d_ticks d <= n)%nat -> dave_ok (clock n) (d_dave d);
  ok_hand : hand_ok (d_history d) (d_hand d);
  ok_requests : length (d_requests d) = 2%nat }.

(** The history only grows. *)
Record grows (h h' : History) : Prop := {
  grows_frames m : m ∈ handed_over h -> m ∈ handed_over h';
  grows_calls c : c ∈ dave_calls h -> c ∈ dave_calls h' }.

Lemma grows_refl h : grows h h.
Proof. by split. Qed.

Lemma grows_trans h1 h2 h3 : grows h1 h2 -> grows h2 h3 -> grows h1 h3.
Proof. intros [A1 A2] [B1 B2]. split; auto. Qed.

#[local] Hint Extern 0 (grows _ _) => exact (grows_refl _) : core.

Lemma allowed_grows h h' x : grows h h' -> allowed h x -> allowed h' x.
Proof.
  intros [H1 H2]. destruct x as [e|f]; [done|]. intros [?|(m & u & c & n & Hm & Hc & H)]; [by left|right]. exists m, u, c, n. split; [by apply H1|]. split; [by apply H2|done].
Qed.

Lemma from_source_grows h h' m : grows h h' -> from_source h m -> from_source h' m.
Proof. intros [H1 _] (m0 & Hm & E). exists m0. split; [by apply H1|done]. Qed.

Lemma hand_grows h h' x : grows h h' -> hand_ok h x -> hand_ok h' x.
Proof. intros Hg [H1 H2 H3 H4 H5]. split; try done; (eapply Forall_impl; [eassumption|]); intros y; by apply allowed_grows. Qed.

Lemma history_ok h d : pipe_ok d -> grows (d_history d) h -> pipe_ok (with_history h d).
Proof.
  intros [H1 H2 H3 H4 H5 H6] Hg. split; try done; [|by apply (hand_grows (d_history d))].
  eapply Forall_impl; [exact H3|]. intros m [? ?]. split; [done|by eapply from_source_grows].
Qed.

(** What decoding a frame leaves alone. *)
Record same (d d' : Driver) : Prop := {
  same_conn : d_conn d' = d_conn d;
  same_hand : d_hand d' = d_hand d;
  same_ssrcs : Receive.ssrcs (d_rx d') = Receive.ssrcs (d_rx d);
  same_dave : (dave_ready (d_dave d'), dave_transition_ready (d_dave d')) = (dave_ready (d_dave d), dave_transition_ready (d_dave d));
  same_ticks : (d_ticks d <= d_ticks d')%nat;
  same_history : grows (d_history d) (d_history d') }.

Lemma same_refl d : same d d.
Proof. by split. Qed.

Lemma same_trans d1 d2 d3 : same d1 d2 -> same d2 d3 -> same d1 d3.
Proof. intros [A1 A2 A3 A4 A5 A6] [B1 B2 B3 B4 B5 B6]. split; [congruence..|lia|by eapply grows_trans]. Qed.

(** A method that keeps the invariant and leaves the above alone. *)
Definition quiet {A} (m : drv A) (Q : A -> Driver -> Prop) (d : Driver) : Prop :=
  wp m (fun a d' => pipe_ok d' /\ same d d' /\ Q a d') (fun _ _ => True) d.

Lemma quiet_bind {A B} (m : drv A) (f : A -> drv B) Q Q' d :
  quiet m Q d -> (forall a d', pipe_ok d' -> same d d' -> Q a d' -> quiet (f a) Q' d') -> quiet (m ≫= f) Q' d.
Proof.
  intros Hm Hf. apply wp_bind. eapply wp_mono; [exact Hm| |done]. intros a d' (Hok & Hs & Hq).
  eapply wp_mono; [exact (Hf a d' Hok Hs Hq)| |done]. intros b d'' (Hok' & Hs' & Hq'). eauto using same_trans.
Qed.

Lemma quiet_mono {A} (m : drv A) (Q Q' : A -> Driver -> Prop) d :
  quiet m Q d -> (forall a d', pipe_ok d' -> same d d' -> Q a d' -> Q' a d') -> quiet m Q' d.
Proof. intros Hm HQ. eapply wp_mono; [exact Hm| |done]. naive_solver. Qed.

Lemma quiet_ret {A} (a : A) (Q : A -> Driver -> Prop) d : pipe_ok d -> Q a d -> quiet (mret a) Q d.
Proof. intros. split; [done|]. split; [apply same_refl|done]. Qed.

Lemma quiet_gets {A} (g : Driver -> A) d : pipe_ok d -> quiet (gets g) (fun a d' => a = g d /\ d' = d) d.
Proof. intros. split; [done|]. split; [apply same_refl|done]. Qed.

Lemma now_ok d : pipe_ok d -> quiet now (fun t d' => t = clock (d_ticks d) /\ d_dave d' = d_dave d /\ d_ticks d' = S (d_ticks d) /\ d_rx d' = d_rx d) d.
Proof.
  intros [H1 H2 H3 H4 H5 H6]. split; [|split; [by split; cbn; auto|done]]. split; cbn; try done. intros n Hn. apply H4. lia.
Qed.

Lemma emit_ok ev d : pipe_ok d -> quiet (emit ev) (fun _ d' => d_rx d' = d_rx d) d.
Proof. intros [H1 H2 H3 H4 H5 H6]. split; [|split; [by split|done]]. by split. Qed.

Lemma when_ok b m d : pipe_ok d -> quiet m (fun _ d' => d_rx d' = d_rx d) d -> quiet (when b m) (fun _ d' => d_rx d' = d_rx d) d.
Proof. intros Hd Hm. destruct b; [done|]. by apply quiet_ret. Qed.

Lemma elapsed_ok m d :
  pipe_ok d -> quiet (elapsed m) (fun a d' => a = duration_since (clock (d_ticks d)) (Assembler.enqueued_at m) /\ d_rx d' = d_rx d /\ d_ticks d' = S (d_ticks d)) d.
Proof. intros Hd. eapply quiet_bind; [by apply now_ok|]. intros t d' Hd' Hs (-> & _ & Ht & Hr). by apply quiet_ret. Qed.

Lemma pending_event_ok m n reason d : pipe_ok d -> quiet (pending_event m n reason) (fun _ d' => d_rx d' = d_rx d) d.
Proof. intros Hd. eapply quiet_bind; [by apply elapsed_ok|]. intros t d' Hd' Hs (_ & Hr & _). by apply quiet_ret. Qed.

Lemma observe_pending_ok m reason drained d : pipe_ok d -> quiet (observe_pending_dave_media m reason drained) (fun _ d' => d_rx d' = d_rx d) d.
Proof.
  intros Hd. apply when_ok; [done|]. eapply quiet_bind; [by apply quiet_gets|]. intros n d1 Hd1 _ [_ ->].
  eapply quiet_bind; [by apply pending_event_ok|]. intros e d2 Hd2 _ Hr. eapply quiet_mono; [by apply emit_ok|]. cbn. congruence.
Qed.

Lemma observe_decode_ok stage kind ssrc user seq d : pipe_ok d -> quiet (observe_decode_error stage kind ssrc user seq) (fun _ d' => d_rx d' = d_rx d) d.
Proof. intros Hd. apply when_ok; [done|by apply emit_ok]. Qed.

(** Changing the pending queues. *)
Lemma set_pending_ok q d :
  pipe_ok d -> pending_ok q -> ttl q = ttl (Receive.pending_dave_media (d_rx d)) -> Forall (fun m => frame_flagged flag m /\ from_source (d_history d) m) (frames q) ->
  pipe_ok (with_rx (Receive.set_pending q (d_rx d)) [] d) /\ same d (with_rx (Receive.set_pending q (d_rx d)) [] d).
Proof.
  intros [H1 H2 H3 H4 H5 H6] Hq Ht Hf. split; [|by split]. split; cbn; try done; [|congruence].
  destruct H1. by split.
Qed.

Lemma push_pending_ok m d :
  pipe_ok d -> is_Some (from_reason (Assembler.reason m)) -> frame_flagged flag m /\ from_source (d_history d) m ->
  quiet (on_pending (pending_push m)) (fun _ d' => pending_frames d' ≡ₚ m :: pending_frames d /\ d_ticks d' = d_ticks d) d.
Proof.
  intros Hd Hr Hm. unfold quiet, wp, on_pending.
  destruct (pending_push_spec (E := Empty_set) m _ (Receive.sched_pending _ _ (ok_rx d Hd)) Hr) as (q & -> & Hq & Ht & Hp).
  destruct (set_pending_ok q d Hd Hq Ht) as [Hok Hs]; [rewrite Hp; constructor; [done|exact (ok_pending d Hd)]|]. done.
Qed.

Lemma enqueue_ok m reason d :
  pipe_ok d -> is_Some (from_reason reason) -> frame_flagged flag m /\ from_source (d_history d) m ->
  quiet (enqueue_dave_media m reason) (fun _ d' => pending_frames d' ≡ₚ with_reason reason m :: pending_frames d) d.
Proof.
  intros Hd Hr Hm. eapply quiet_bind with (Q := fun _ d' => d_rx d' = d_rx d).
  - destruct (_ && _); [|by apply quiet_ret]. eapply quiet_bind; [by apply quiet_gets|]. intros n d1 Hd1 _ [_ ->].
    eapply quiet_bind; [by apply pending_event_ok|]. intros e d2 Hd2 _ Hrx. by apply quiet_ret.
  - intros ev d1 Hd1 Hs1 Hrx. eapply quiet_bind; [apply push_pending_ok; [done..|split; [apply Hm|]]; exact (from_source_grows _ _ _ (same_history _ _ Hs1) (proj2 Hm))|]. intros n d2 Hd2 Hs2 [Hp _].
    unfold pending_frames in Hp at 2. rewrite Hrx in Hp. destruct ev as [e|]; [|by apply quiet_ret].
    eapply quiet_mono; [by apply emit_ok|]. intros [] d3 Hd3 Hs3 H3. cbn in H3. unfold pending_frames in *. by rewrite H3.
Qed.

(** The session is called, once, and the call is in the history. *)
Lemma decrypt_media_ok u mt frame d :
  pipe_ok d -> all_bytes frame ->
  quiet (decrypt_media_frame (Some u) mt frame) (fun r d' => d_rx d' = d_rx d /\
    exists r0 v, dave_decrypt (clock (d_ticks d)) u mt frame (d_dave d) = (r0, v) /\ d_dave d' = v /\
      {| call_time := clock (d_ticks d); call_user := u; call_media := mt; call_frame := frame; call_state := d_dave d; call_result := r0 |} ∈ dave_calls (d_history d') /\
      match r0 with Ok b => r = inr b | Err e => r = inl (DaveSource e) | Panic => False end) d.
Proof.
  intros Hd Hb. pose proof (ok_dave d Hd (d_ticks d) (le_n _)) as Hnow. unfold decrypt_media_frame.
  eapply quiet_bind; [by apply now_ok|]. intros t d1 Hd1 Hs1 (-> & Hv & Ht & Hr).
  destruct (dave_decrypt_ok _ u mt frame _ Hnow Hb) as [Hp Hk]. pose proof (dave_decrypt_state (clock (d_ticks d)) u mt frame (d_dave d)) as Hst.
  apply wp_bind. unfold wp at 1, session_decrypt. rewrite Hv. destruct (dave_decrypt _ u mt frame (d_dave d)) as [r v] eqn:Hdec.
  set (call := {| call_time := _ |}). set (h := {| handed_over := _; dave_calls := _ |}). assert (grows (d_history d1) h) as Hg.
  { split; [done|]. intros c Hc. cbn. apply elem_of_app. by left. }
  assert (pipe_ok (with_history h (with_conn (d_conn d1) v d1)) /\ same d1 (with_history h (with_conn (d_conn d1) v d1))) as [Hok Hsame].
  { split; [|split; try done; cbn in *; congruence]. apply history_ok; [|done]. destruct Hd1 as [H1 H2 H3 H4 H5 H6]. split; cbn; try done.
    intros n Hn. apply Hk, ok_dave; [done|lia]. }
  assert (call ∈ dave_calls h) as Hcall by (cbn; apply elem_of_app; right; by left).
  destruct r as [b|e|]; [| |done]; (split; [done|]); (split; [done|]); (split; [done|]); by eexists _, _.
Qed.

(** Methods that do not call the session. *)
Lemma quiet_keeps {A} (m : drv A) Q d : quiet m Q d -> keeps d_dave m -> quiet m (fun a d' => Q a d' /\ d_dave d' = d_dave d) d.
Proof. unfold quiet, wp. intros Hm Hk. specialize (Hk d). destruct (m d) as [[a|e|] d']; [|done|done]. cbn in Hk. naive_solver. Qed.

Lemma now_dave : keeps d_dave now.
Proof. by intros d. Qed.
Lemma emit_dave ev : keeps d_dave (emit ev).
Proof. by intros d. Qed.
Lemma on_pending_dave {A} (f : PendingDaveMediaQueues media_frame -> res Empty_set (A * PendingDaveMediaQueues media_frame)) : keeps d_dave (on_pending f).
Proof. intros d. unfold on_pending. destruct (f _) as [[a q]|e|]; done. Qed.
#[local] Hint Resolve now_dave emit_dave on_pending_dave : keeps.

Lemma elapsed_dave m : keeps d_dave (elapsed m).
Proof. unfold elapsed. keeps_auto. Qed.
#[local] Hint Resolve elapsed_dave : keeps.
Lemma pending_event_dave m n reason : keeps d_dave (pending_event m n reason).
Proof. unfold pending_event. keeps_auto. Qed.
#[local] Hint Resolve pending_event_dave : keeps.
Lemma observe_pending_dave m reason b : keeps d_dave (observe_pending_dave_media m reason b).
Proof. unfold observe_pending_dave_media, when. keeps_auto. Qed.
Lemma observe_decode_dave stage kind ssrc user seq : keeps d_dave (observe_decode_error stage kind ssrc user seq).
Proof. unfold observe_decode_error, when. keeps_auto. Qed.
Lemma enqueue_dave m reason : keeps d_dave (enqueue_dave_media m reason).
Proof. unfold enqueue_dave_media. keeps_auto. Qed.

(** Why a frame cannot be decrypted yet. *)
Definition block_reason (d : Driver) (m : media_frame) : option Assembler.DavePendingMediaReason :=
  match Gateway.ssrc_users (d_conn d) !! frame_ssrc m with
  | None => Some Assembler.MissingUser
  | Some _ =>
      if negb (dave_ready (d_dave d)) then Some Assembler.SessionNotReady
      else if negb (DaveGateway.gateway_media_ready (dave_internal d)) && negb (transition_zero_ready d) then Some Assembler.GatewayPending
      else None
  end.

(** The frame as it waits. *)
Definition waiting_as (d : Driver) (r : Assembler.DavePendingMediaReason) (m : media_frame) : media_frame :=
  with_reason r (with_user (Gateway.ssrc_users (d_conn d) !! frame_ssrc m) m).

(** A frame that is blocked waits, and the session is not asked; any other is
    decrypted with one call of the session, whose result is final. *)
Definition decodes (d : Driver) (m : media_frame) (o : option (FrameReceiveResult Error)) (d' : Driver) : Prop :=
  match block_reason d m with
  | Some r => o = None /\ d_dave d' = d_dave d /\ pending_frames d' ≡ₚ waiting_as d r m :: pending_frames d
  | None => exists u, Gateway.ssrc_users (d_conn d) !! frame_ssrc m = Some u /\ pending_frames d' = pending_frames d /\
      let '(r, v) := dave_decrypt (clock (d_ticks d)) u (media_type (Assembler.frame_codec m)) (Assembler.encrypted_frame m) (d_dave d) in
      d_dave d' = v /\
      match r with
      | Ok frame => o = Some (inr (received (with_user (Some u) m) frame))
      | Err e => o = Some (inl (EDaveDecrypt (DaveSource e)))
      | Panic => False
      end
  end.

(** After a failed decryption nothing is left that could change. *)
Lemma failure_is_stable d d' :
  same d d' -> dave_ready (d_dave d) = true ->
  negb (DaveGateway.gateway_media_ready (dave_internal d)) && negb (transition_zero_ready d) = false ->
  dave_decrypt_state_can_still_change d' = false.
Proof.
  intros [H1 _ _ [= H2 H3] _] Hr Hg. unfold dave_decrypt_state_can_still_change, transition_zero_ready, dave_internal in *.
  rewrite H1, H2, H3, Hr. cbn [negb orb]. by rewrite andb_comm.
Qed.

Lemma decode_or_enqueue_ok m d :
  pipe_ok d -> frame_flagged flag m -> from_source (d_history d) m ->
  quiet (decode_or_enqueue_dave_media m) (fun o d' => decodes d m o d' /\ forall r, o = Some r -> allowed (d_history d') r) d.
Proof.
  intros Hd Hm Hsrc. unfold decode_or_enqueue_dave_media. eapply quiet_bind; [by apply quiet_gets|]. intros users d1 Hd1 _ [-> ->].
  unfold decodes, block_reason. set (u := Gateway.ssrc_users (d_conn d) !! frame_ssrc m). change (Assembler.frame_user_id (with_user u m)) with u.
  assert (forall r, is_Some (from_reason r) -> quiet (_ ← enqueue_dave_media (with_user u m) r; mret (M := st Driver Empty_set) (A := option (FrameReceiveResult Error)) None)
    (fun o d' => (o = None /\ d_dave d' = d_dave d /\ pending_frames d' ≡ₚ waiting_as d r m :: pending_frames d) /\ forall x, o = Some x -> allowed (d_history d') x) d) as Henq.
  { intros r Hr. eapply quiet_bind; [apply quiet_keeps; [by apply enqueue_ok|apply enqueue_dave]|]. intros [] d2 Hd2 _ [Hp Hv]. by apply quiet_ret. }
  destruct u as [user|] eqn:Hu; [|apply Henq; by eexists].
  eapply quiet_bind; [by apply quiet_gets|]. intros gp d1 _ _ [-> ->]. eapply quiet_bind; [by apply quiet_gets|]. intros zr d1 _ _ [-> ->].
  eapply quiet_bind; [by apply quiet_gets|]. intros rd d1 _ _ [-> ->].
  destruct (dave_ready (d_dave d)) eqn:Hready; cbn [negb]; [|apply Henq; by eexists].
  destruct (negb _ && negb _) eqn:Hgate; [apply Henq; by eexists|].
  eapply quiet_bind; [by apply decrypt_media_ok; [|exact (proj2 Hm)]|]. intros r d2 Hd2 Hs2 (Hrx & r0 & v & Hdec & Hv & Hcall & Hr).
  change (Assembler.frame_codec (with_user (Some user) m)) with (Assembler.frame_codec m) in *.
  change (Assembler.encrypted_frame (with_user (Some user) m)) with (Assembler.encrypted_frame m) in *.
  destruct r0 as [b|e|]; [| |done]; subst r.
  - eapply quiet_bind with (Q := fun _ d' => d_rx d' = d_rx d2 /\ d_dave d' = d_dave d2).
    { apply quiet_keeps; [apply when_ok; [done|by apply observe_pending_ok]|]. unfold when. destruct (Assembler.was_pending _); [apply observe_pending_dave|apply keeps_ret]. }
    intros [] d3 Hd3 Hs3 [Hr3 Hv3]. apply quiet_ret; [done|]. split.
    + exists user. split; [done|]. split; [unfold pending_frames; congruence|]. rewrite Hdec. split; [congruence|done].
    + intros x [= <-]. right. destruct Hsrc as (m0 & Hm0 & [= E1 E2 E3 E4 E5]).
      exists m0, user, {| call_time := clock (d_ticks d); call_user := user; call_media := media_type (Assembler.frame_codec m);
        call_frame := Assembler.encrypted_frame m; call_state := d_dave d; call_result := Ok b |}, (d_ticks d).
      pose proof (same_history _ _ Hs2) as Hg2. pose proof (same_history _ _ Hs3) as Hg3.
      split; [by apply Hg3, Hg2|]. split; [by apply Hg3|]. cbn. rewrite Hdec. rewrite <- E3, <- E4. split_and!; try done; [exact (proj2 Hm)|by apply ok_dave|].
      unfold received. cbn. by rewrite <- E1, <- E2, <- E3.
  - eapply quiet_bind; [apply quiet_keeps; [by apply observe_decode_ok|apply observe_decode_dave]|]. intros [] d3 Hd3 Hs3 [Hr3 Hv3].
    eapply quiet_bind; [apply quiet_keeps; [by apply elapsed_ok|apply elapsed_dave]|].
    intros age d4 Hd4 Hs4 [(_ & Hr4 & _) Hv4]. eapply quiet_bind; [by apply quiet_gets|]. intros cc d5 _ _ [-> ->].
    rewrite (failure_is_stable d d4) by eauto using same_trans. unfold should_retry_dave_decrypt. rewrite !andb_false_r.
    eapply quiet_bind; [apply quiet_keeps; [by apply observe_pending_ok|apply observe_pending_dave]|]. intros [] d6 Hd6 Hs6 [Hr6 Hv6]. apply quiet_ret; [done|]. split.
    + exists user. split; [done|]. split; [unfold pending_frames; congruence|]. rewrite Hdec. split; [congruence|done].
    + by intros x [= <-].
Qed.

Lemma note_frame_ok m d : pipe_ok d -> quiet (note_frame m) (fun _ d' => from_source (d_history d') m /\ d_rx d' = d_rx d) d.
Proof.
  intros Hd. unfold quiet, wp, note_frame, modify. set (h := {| handed_over := _; dave_calls := _ |}). assert (grows (d_history d) h) as Hg.
  { split; [|done]. intros x Hx. cbn. apply elem_of_app. by left. }
  split; [by apply history_ok|]. split; [by split|]. split; [|done]. exists m. split; [|done]. cbn. apply elem_of_app. right. by left.
Qed.

Lemma decode_ordered_ok m d :
  pipe_ok d -> frame_flagged flag m ->
  quiet (decode_ordered_media_frame m) (fun o d' => forall r, o = Some r -> allowed (d_history d') r) d.
Proof.
  intros Hd Hm. unfold decode_ordered_media_frame. eapply quiet_bind; [by apply note_frame_ok|]. intros [] d1 Hd1 _ [Hsrc _].
  destruct (Assembler.frame_dave m) eqn:Hf.
  - eapply quiet_mono; [by apply decode_or_enqueue_ok|]. intros o d' _ _ [_ Ho]. exact Ho.
  - apply quiet_ret; [done|]. intros r [= <-]. left. rewrite <- Hf. exact (proj1 Hm).
Qed.

(** ** Methods that move media *)
Definition good {A} (m : drv A) (Q : A -> Driver -> Prop) (d : Driver) : Prop :=
  wp m (fun a d' => pipe_ok d' /\ Q a d') (fun _ _ => True) d.

Lemma good_bind {A B} (m : drv A) (f : A -> drv B) Q Q' d :
  good m Q d -> (forall a d', pipe_ok d' -> Q a d' -> good (f a) Q' d') -> good (m ≫= f) Q' d.
Proof. intros Hm Hf. apply wp_bind. eapply wp_mono; [exact Hm| |done]. naive_solver. Qed.

Lemma good_mono {A} (m : drv A) (Q Q' : A -> Driver -> Prop) d : good m Q d -> (forall a d', Q a d' -> Q' a d') -> good m Q' d.
Proof. intros Hm HQ. eapply wp_mono; [exact Hm| |done]. naive_solver. Qed.

Lemma good_quiet {A} (m : drv A) Q d : quiet m Q d -> good m (fun a d' => same d d' /\ Q a d') d.
Proof. intros Hm. eapply wp_mono; [exact Hm| |done]. naive_solver. Qed.

Lemma good_ret {A} (a : A) (Q : A -> Driver -> Prop) d : pipe_ok d -> Q a d -> good (mret a) Q d.
Proof. done. Qed.

(** What a step keeps of the connection. *)
Record kept (d d' : Driver) : Prop := {
  kept_conn : d_conn d' = d_conn d;
  kept_dave : (dave_ready (d_dave d'), dave_transition_ready (d_dave d')) = (dave_ready (d_dave d), dave_transition_ready (d_dave d));
  kept_ticks : (d_ticks d <= d_ticks d')%nat }.

Lemma kept_refl d : kept d d.
Proof. by split. Qed.

Lemma kept_trans d1 d2 d3 : kept d1 d2 -> kept d2 d3 -> kept d1 d3.
Proof. intros [A1 A2 A3] [B1 B2 B3]. split; [congruence..|lia]. Qed.

Lemma same_kept d d' : same d d' -> kept d d'.
Proof. by intros []. Qed.

#[local] Hint Resolve kept_refl same_kept : core.
Ltac solve_kept := solve [eauto 10 using kept_trans].

Lemma queue_ready_ok r d :
  pipe_ok d -> allowed (d_history d) r ->
  good (queue_ready_voice_frame r) (fun _ d' => kept d d' /\ d_rx d' = d_rx d /\ capacity (ready_frames (d_hand d')) = capacity (ready_frames (d_hand d)) /\
    d_ticks d' = d_ticks d /\
    (has_capacity (ready_frames (d_hand d)) = true -> items (ready_frames (d_hand d')) = items (ready_frames (d_hand d)) ++ [r] /\
       drop_events (d_hand d') = drop_events (d_hand d))) d.
Proof.
  intros [H1 H2 H3 H4 [R1 R2 R3 [R4 R5] R6] H6] Hr. unfold good, wp, queue_ready_voice_frame, modify.
  pose proof (bounded_push_back_len r _ R4 R5) as Hlen. unfold ready_push, bounded_push_back in *.
  destruct (Nat.leb_spec (capacity (ready_frames (d_hand d))) (length (items (ready_frames (d_hand d))))) as [Hfull|Hfull]; cbn in Hlen.
  - split.
    + split; cbn; try done. split; cbn; try done. apply Forall_app. split; [|by constructor]. destruct (items (ready_frames (d_hand d))); [done|].
      by apply Forall_cons in R1 as [_ ?].
    + split; [done|]. split; [done|]. split; [done|]. split; [done|]. unfold has_capacity. intros Hc%Nat.ltb_lt. lia.
  - split.
    + split; cbn; try done. split; cbn; try done. apply Forall_app. split; [done|by constructor].
    + split; [done|]. split; [done|]. split; [done|]. split; [done|]. intros _. cbn. by rewrite app_nil_r.
Qed.

Lemma queue_option_ok (o : option (FrameReceiveResult Error)) d :
  pipe_ok d -> (forall r, o = Some r -> allowed (d_history d) r) ->
  good (match o with Some r => queue_ready_voice_frame r | None => mret () end)
    (fun _ d' => kept d d' /\ d_rx d' = d_rx d /\ capacity (ready_frames (d_hand d')) = capacity (ready_frames (d_hand d)) /\ d_ticks d' = d_ticks d) d.
Proof.
  intros Hd Ho. destruct o as [r|]; [|by apply good_ret]. eapply good_mono; [by apply queue_ready_ok; [|apply Ho]|]. cbn. tauto.
Qed.

Lemma flush_ok d : pipe_ok d -> good flush (fun _ d' => kept d d' /\ d_rx d' = d_rx d) d.
Proof.
  intros [H1 H2 H3 H4 [R1 R2 R3 [R4 R5] R6] H6]. unfold good, wp, flush, flush_frame_stream.
  assert (exists h1, discard_closed_frame_stream (d_hand d) = h1 /\ fits h1 /\ ready_frames h1 = ready_frames (d_hand d) /\ sent_frames h1 = sent_frames (d_hand d))
    as (h1 & -> & F1 & F2 & F3).
  { eexists. split; [done|]. destruct (user_runs_spec (d_hand d)) as (U1 & U2 & U3 & U4 & _). specialize (U4 R3).
    unfold discard_closed_frame_stream. destruct (frame_stream (user_runs (d_hand d))) as [c|] eqn:Hc; [destruct (chan_closed c)|]; done. }
  destruct (flush_loop_ok (E := Empty_set) (S (bounded_len (ready_frames h1))) telemetry h1 F1) as (h' & -> & [G1 G2 G3 (l & lost & G4 & G5 & _) _]);
    [unfold bounded_len; lia|]. rewrite F2 in G5, G3. rewrite F3 in G4. rewrite G5, !Forall_app in R1. rewrite G5, !length_app in R5. split; [|done].
  split; cbn; try done. split; [tauto|rewrite G4, Forall_app; tauto|done| |congruence]. rewrite G3. split; [done|lia].
Qed.

(** ** Draining the sources *)
Lemma held_weight d : held d = Receive.receive_weight (d_rx d).
Proof. reflexivity. Qed.

Lemma on_rx_ok {A} (f : rx_state -> res Rtp.RtpError A * rx_state * list ReceiveEvent) r rx ev d :
  pipe_ok d -> f (d_rx d) = (r, rx, ev) -> r ≠ Panic -> Receive.sched_ok rx -> Receive.pending_dave_media rx = Receive.pending_dave_media (d_rx d) ->
  good (on_rx f) (fun r' d' => r' = r /\ kept d d' /\ d_hand d' = d_hand d /\ d_rx d' = rx) d.
Proof.
  intros [H1 H2 H3 H4 H5 H6] Hf Hr Hok Hp. unfold good, wp, on_rx. rewrite Hf.
  assert (pipe_ok (with_rx rx (EvReceive <$> ev) d)) as Hd' by (split; unfold pending_frames; cbn; rewrite ?Hp; done).
  destruct r as [o|e|]; [| |done]; (split; [done|]); (split; [done|]); (split; [by split|done]).
Qed.

Lemma drain_ordered_ok d :
  pipe_ok d ->
  good drain_once (fun r d' => kept d d' /\ d_hand d' = d_hand d /\ hands_fine r /\ r ≠ Panic /\ pending_frames d' = pending_frames d /\
    match r with Ok None => held d' <= held d /\ Receive.drained (clock (d_ticks d)) (d_rx d') | _ => held d' < held d end%nat) d.
Proof.
  intros Hd. eapply good_bind; [apply good_quiet; by apply now_ok|]. intros t d1 Hd1 [Hs (-> & _ & _ & Hrx)].
  destruct (Receive.drain_ok telemetry (clock (d_ticks d)) (d_rx d1) (ok_rx d1 Hd1)) as (r & rx & ev & Hdr & Hr & Hok & Hp & Hh & Hres).
  eapply good_mono; [exact (on_rx_ok _ r rx ev d1 Hd1 Hdr Hr Hok Hp)|]. intros r' d' (-> & Hk & Hhand & Hrx'). rewrite !held_weight, Hrx'.
  rewrite Hrx in *. split; [solve_kept|]. split; [rewrite Hhand; exact (same_hand _ _ Hs)|]. split; [done|]. split; [done|].
  split; [unfold pending_frames; rewrite Hrx'; by rewrite Hp|]. destruct r as [[f|]|e|]; tauto.
Qed.

Lemma drain_ready_loop_ok fuel d :
  pipe_ok d -> (held d < fuel)%nat ->
  good (drain_ready_loop fuel) (fun o d' => kept d d' /\ d_hand d' = d_hand d /\ (forall r, o = Some r -> allowed (d_history d') r) /\
    (o = None -> exists n, Receive.drained (clock n) (d_rx d'))) d.
Proof.
  revert d. induction fuel as [|fuel IH]; intros d Hd Hf; [lia|]. cbn [drain_ready_loop].
  eapply good_bind; [by apply drain_ordered_ok|]. intros r d1 Hd1 (Hk1 & Hh1 & Hfine & Hnp & _ & Hres).
  destruct r as [[m|]|e|]; [| | |done].
  - eapply good_bind; [apply good_quiet, decode_ordered_ok; [done|exact (Hfine m eq_refl)]|]. intros o d2 Hd2 [Hs2 Ho].
    destruct o as [r|]; [apply good_ret; [done|]; split; [solve_kept|]; split; [rewrite (same_hand _ _ Hs2); done|]; done|].
    eapply good_mono; [apply IH; [done|]|].
    { unfold held in *. rewrite (same_ssrcs _ _ Hs2). lia. }
    intros o d' (Hk & Hh & ?). split; [solve_kept|]. split; [|done]. rewrite Hh, (same_hand _ _ Hs2). done.
  - apply good_ret; [done|]. split; [done|]. split; [done|]. split; [done|]. destruct Hres. by eexists.
  - apply good_ret; [done|]. split; [done|]. split; [done|]. split; [|done]. by intros r [= <-].
Qed.

Lemma drain_ready_ok d :
  pipe_ok d ->
  good drain_ready_voice_frame (fun o d' => kept d d' /\ d_hand d' = d_hand d /\ (forall r, o = Some r -> allowed (d_history d') r) /\
    (o = None -> exists n, Receive.drained (clock n) (d_rx d'))) d.
Proof. intros Hd. apply wp_bind, wp_gets. apply drain_ready_loop_ok; [done|lia]. Qed.

(** What collecting does to the ready queue. *)
Record collected (d d' : Driver) : Prop := {
  coll_kept : kept d d';
  coll_capacity : capacity (ready_frames (d_hand d')) = capacity (ready_frames (d_hand d));
  coll_items : exists l, items (ready_frames (d_hand d')) = items (ready_frames (d_hand d)) ++ l;
  coll_events : drop_events (d_hand d') = drop_events (d_hand d);
  coll_done : has_capacity (ready_frames (d_hand d')) = false \/ exists n, Receive.drained (clock n) (d_rx d') }.

Lemma collect_loop_ok fuel d :
  pipe_ok d -> (capacity (ready_frames (d_hand d)) < fuel + length (items (ready_frames (d_hand d))))%nat ->
  good (collect_loop fuel) (fun _ d' => collected d d') d.
Proof.
  revert d. induction fuel as [|fuel IH]; intros d Hd Hf.
  { destruct (hand_room _ _ (ok_hand _ Hd)). lia. }
  cbn [collect_loop]. apply wp_bind, wp_gets. destruct (has_capacity (ready_frames (d_hand d))) eqn:Hc.
  2: { apply good_ret; [done|]. split; eauto using kept_trans. by exists []; rewrite app_nil_r. }
  eapply good_bind; [by apply drain_ready_ok|]. intros o d1 Hd1 (Hk1 & Hh1 & Ho & Hnone). destruct o as [r|].
  2: { apply good_ret; [done|]. split; rewrite ?Hh1; eauto using kept_trans. by exists []; rewrite app_nil_r. }
  eapply good_bind; [by apply queue_ready_ok; [|apply Ho]|]. intros [] d2 Hd2 (Hk2 & Hr2 & Hcap & _ & Hroom). rewrite Hh1 in Hcap, Hroom.
  destruct (Hroom Hc) as [Hi2 He2].
  eapply good_mono; [apply IH; [done|rewrite Hcap, Hi2, length_app; cbn; lia]|]. intros _ d' [C1 C2 [l C3] C4 C5].
  split; [solve_kept|congruence| |congruence|done]. exists ([r] ++ l). by rewrite C3, Hi2, <- app_assoc.
Qed.

Lemma collect_ok d : pipe_ok d -> good collect_ready_voice_frames (fun _ d' => collected d d') d.
Proof. intros Hd. apply wp_bind, wp_gets. apply collect_loop_ok; [done|lia]. Qed.

(** ** Retry and expiry *)
Lemma pop_retry_ok retry d :
  pipe_ok d ->
  quiet (on_pending (pop_retry retry)) (fun o d' => d_ticks d' = d_ticks d /\ d_dave d' = d_dave d /\
    match o with
    | Some f => pending_frames d ≡ₚ f :: pending_frames d' /\ retried retry f = true /\ frame_flagged flag f /\ from_source (d_history d') f
    | None => pending_frames d' = pending_frames d /\ forall g, g ∈ pending_frames d -> retried retry g = false
    end) d.
Proof.
  intros Hd. unfold quiet, wp, on_pending.
  destruct (pop_retry_spec (E := Empty_set) retry _ (Receive.sched_pending _ _ (ok_rx d Hd))) as (o & q & -> & Hq & Ht & Ho).
  pose proof (ok_pending d Hd) as Hp. destruct o as [f|].
  - destruct Ho as (Hf & Hr & _). unfold pending_frames in Hp. rewrite Hf in Hp. apply Forall_cons in Hp as [Hff Hp].
    destruct (set_pending_ok q d Hd Hq Ht Hp) as [Hok Hs]. done.
  - destruct Ho as [-> Hno]. destruct (set_pending_ok _ d Hd Hq Ht Hp) as [Hok Hs]. done.
Qed.

Lemma pop_expired_ok t d :
  pipe_ok d ->
  quiet (on_pending (pending_pop_expired t)) (fun o d' => 
    match o with
    | Some f => pending_frames d ≡ₚ f :: pending_frames d'
    | None => pending_frames d' = pending_frames d /\ forall g, g ∈ pending_frames d -> t < Assembler.enqueued_at g + Tuning.dave_pending_media_ttl tuning
    end) d.
Proof.
  intros Hd. unfold quiet, wp, on_pending.
  destruct (pending_pop_expired_spec (E := Empty_set) t _ (Receive.sched_pending _ _ (ok_rx d Hd))) as (o & q & -> & Hq & Ht & Ho).
  pose proof (ok_pending d Hd) as Hp. rewrite (ok_ttl d Hd) in Ho. destruct o as [f|].
  - destruct Ho as (Hf & Hr & _). unfold pending_frames in Hp. rewrite Hf in Hp. apply Forall_cons in Hp as [Hff Hp].
    destruct (set_pending_ok q d Hd Hq Ht Hp) as [Hok Hs]. done.
  - destruct Ho as [Hsame Hno]. destruct (set_pending_ok q d Hd Hq Ht) as [Hok Hs]; [by rewrite Hsame|]. done.
Qed.

(** One turn of the retry loop with the frame [m] it took. *)
Lemma retry_turn_ok m d :
  pipe_ok d -> frame_flagged flag m -> from_source (d_history d) m ->
  good (decode_and_queue (set_was_pending m))
    (fun _ d' => kept d d' /\ capacity (ready_frames (d_hand d')) = capacity (ready_frames (d_hand d)) /\
       match block_reason d m with
       | Some r => pending_frames d' ≡ₚ waiting_as d r (set_was_pending m) :: pending_frames d
       | None => pending_frames d' = pending_frames d
       end) d.
Proof.
  intros Hd Hm Hsrc. eapply good_bind; [apply good_quiet, decode_or_enqueue_ok; [done|exact Hm|exact Hsrc]|]. intros o d1 Hd1 [Hs [Ho Hall]].
  unfold decodes in Ho. change (block_reason d (set_was_pending m)) with (block_reason d m) in Ho.
  eapply good_mono; [apply queue_option_ok; [done|]|].
  - exact Hall.
  - intros [] d' (Hk & Hr & Hc & _). split; [solve_kept|]. rewrite Hc, (same_hand _ _ Hs). split; [done|].
    unfold pending_frames in *. rewrite Hr. destruct (block_reason d m); naive_solver.
Qed.

(** The reading from which on every pending frame is too old. *)
Definition all_expired_from (T : nat) (l : list media_frame) : Prop :=
  forall f n, f ∈ l -> (T <= n)%nat -> Tuning.dave_pending_media_ttl tuning <= duration_since (clock n) (Assembler.enqueued_at f).

Lemma retry_loop_ok T retry fuel d :
  pipe_ok d -> all_expired_from T (pending_frames d) -> (T - d_ticks d + length (pending_frames d) < fuel)%nat ->
  good (retry_loop fuel retry) (fun _ d' => kept d d' /\ capacity (ready_frames (d_hand d')) = capacity (ready_frames (d_hand d)) /\
    forall f, f ∈ pending_frames d' -> retried retry f = false) d.
Proof.
  revert d. induction fuel as [|fuel IH]; intros d Hd HT Hf; [lia|]. cbn [retry_loop].
  eapply good_bind; [apply good_quiet; by apply pop_retry_ok|]. intros o d1 Hd1 (Hs1 & Ht1 & _ & Ho). destruct o as [m|].
  2: { apply good_ret; [done|]. split; [solve_kept|]. rewrite (same_hand _ _ Hs1). split; [done|]. destruct Ho as [-> Ho]. done. }
  destruct Ho as (Hp & Hr & Hm). rewrite Hp in Hf. cbn [length] in Hf.
  assert (all_expired_from T (pending_frames d1)) as HT1 by (intros f n Hin; apply HT; rewrite Hp; by right).
  assert (forall n, (T <= n)%nat -> Tuning.dave_pending_media_ttl tuning <= duration_since (clock n) (Assembler.enqueued_at m)) as HTm
    by (intros n; apply HT; rewrite Hp; by left).
  eapply good_bind; [apply good_quiet; by apply elapsed_ok|]. intros age d2 Hd2 (Hs2 & -> & Hrx2 & Ht2). cbn [set_was_pending Assembler.enqueued_at].
  assert (kept d d2) as Hk2 by solve_kept. assert (d_hand d2 = d_hand d) as Hh2 by (rewrite (same_hand _ _ Hs2); exact (same_hand _ _ Hs1)).
  assert (pending_frames d2 = pending_frames d1) as Hp2 by (unfold pending_frames; by rewrite Hrx2).
  destruct (Z.leb_spec (Tuning.dave_pending_media_ttl tuning) (duration_since (clock (d_ticks d1)) (Assembler.enqueued_at m))) as [Hold|Hyoung].
  - eapply good_bind; [apply good_quiet; by apply observe_pending_ok|]. intros [] d3 Hd3 [Hs3 Hrx3].
    assert (pending_frames d3 = pending_frames d1) as Hp3 by (unfold pending_frames; by rewrite Hrx3, Hrx2).
    pose proof (same_ticks _ _ Hs3). eapply good_mono; [apply IH; [done|by rewrite Hp3|rewrite Hp3; lia]|].
    intros [] d' (Hk & Hc & ?). split; [solve_kept|]. split; [|done]. rewrite Hc, (same_hand _ _ Hs3), Hh2. done.
  - assert (d_ticks d1 < T)%nat by (destruct (Nat.lt_ge_cases (d_ticks d1) T) as [|Hge]; [done|specialize (HTm _ Hge); lia]).
    eapply good_bind; [apply retry_turn_ok; [done|apply Hm|exact (from_source_grows _ _ _ (same_history _ _ Hs2) (proj2 Hm))]|]. intros [] d3 Hd3 (Hk3 & Hc3 & Hpend). rewrite Hp2 in Hpend. pose proof (kept_ticks _ _ Hk3).
    eapply good_mono; [apply IH; [done| |]|].
    + destruct (block_reason d2 m); [|by rewrite Hpend]. intros f n. rewrite Hpend. intros [->|Hin]%elem_of_cons; [apply HTm|by apply HT1].
    + destruct (block_reason d2 m); rewrite Hpend; cbn [length]; lia.
    + intros [] d' (Hk & Hc & ?). split; [solve_kept|]. split; [|done]. rewrite Hc, Hc3, Hh2. done.
Qed.

Lemma expire_loop_ok fuel d :
  pipe_ok d -> (length (pending_frames d) < fuel)%nat ->
  good (expire_pending_loop fuel) (fun _ d' => kept d d' /\ d_hand d' = d_hand d /\ Receive.ssrcs (d_rx d') = Receive.ssrcs (d_rx d) /\
    exists n, (d_ticks d <= n < d_ticks d')%nat /\ forall f, f ∈ pending_frames d' -> clock n < Assembler.enqueued_at f + Tuning.dave_pending_media_ttl tuning) d.
Proof.
  revert d. induction fuel as [|fuel IH]; intros d Hd Hf; [lia|]. cbn [expire_pending_loop].
  eapply good_bind; [apply good_quiet; by apply now_ok|]. intros t d1 Hd1 (Hs1 & -> & Hv & Ht1 & Hrx1).
  eapply good_bind; [apply good_quiet; by apply pop_expired_ok|]. intros o d2 Hd2 [Hs2 Ho]. pose proof (same_ticks _ _ Hs2).
  assert (pending_frames d1 = pending_frames d) as Hp1 by (unfold pending_frames; by rewrite Hrx1). rewrite Hp1 in Ho.
  assert (d_hand d2 = d_hand d) as Hh by (rewrite (same_hand _ _ Hs2); exact (same_hand _ _ Hs1)).
  assert (Receive.ssrcs (d_rx d2) = Receive.ssrcs (d_rx d)) as Hss by (rewrite (same_ssrcs _ _ Hs2); exact (same_ssrcs _ _ Hs1)).
  destruct o as [m|].
  - rewrite Ho in Hf. cbn [length] in Hf. eapply good_bind; [apply good_quiet; by apply observe_pending_ok|]. intros [] d3 Hd3 [Hs3 Hrx3].
    pose proof (same_ticks _ _ Hs3). eapply good_mono; [apply IH; [done|unfold pending_frames in *; rewrite Hrx3; lia]|].
    intros [] d' (Hk & Hh' & Hss' & n & Hn & Hall). split; [solve_kept|]. split; [rewrite Hh', (same_hand _ _ Hs3); done|].
    split; [rewrite Hss', (same_ssrcs _ _ Hs3); done|]. exists n. split; [lia|done].
  - destruct Ho as [Hp2 Hall]. apply good_ret; [done|]. split; [solve_kept|]. split; [done|]. split; [done|]. exists (d_ticks d). rewrite Hp2. split; [lia|done].
Qed.

Lemma pending_count_frames d : pipe_ok d -> pending_count d = length (pending_frames d).
Proof. intros Hd. unfold pending_count. apply bdq_len_frames. exact (pending_bdq _ (Receive.sched_pending _ _ (ok_rx d Hd))). Qed.

(** ** When the retry loop returns *)
Definition returns {A} (m : drv A) (Q : A -> Driver -> Prop) (d : Driver) : Prop := match m d with (Ok a, d') => Q a d' | _ => True end.

Lemma returns_bind {A B} (m : drv A) (f : A -> drv B) Q Q' d :
  good m Q d -> (forall a d', pipe_ok d' -> Q a d' -> returns (f a) Q' d') -> returns (m ≫= f) Q' d.
Proof. unfold good, wp, returns, mbind, st_mbind. destruct (m d) as [[a|e|] d']; naive_solver. Qed.

Lemma returns_mono {A} (m : drv A) (Q Q' : A -> Driver -> Prop) d : returns m Q d -> (forall a d', Q a d' -> Q' a d') -> returns m Q' d.
Proof. unfold returns. destruct (m d) as [[a|e|] d']; auto. Qed.

Lemma kept_block d d' m : kept d d' -> block_reason d' m = block_reason d m.
Proof. intros [H1 [= H2 H3] _]. unfold block_reason, transition_zero_ready, dave_internal. by rewrite H1, H2, H3. Qed.

(** A frame that is retried and stays blocked, whatever is done with it. *)
Definition stuck (retry : DavePendingMediaRetry) (d : Driver) (s e : Z) : Prop :=
  exists m r b, m ∈ pending_frames d /\ retried retry m = true /\ frame_ssrc m = s /\ Assembler.enqueued_at m = e /\
    block_reason d m = Some r /\ from_reason r = Some b /\ includes retry b = true.

Lemma retry_loop_returns retry s e fuel d :
  pipe_ok d ->
  returns (retry_loop fuel retry) (fun _ d' => pipe_ok d' /\ kept d d' /\
    (stuck retry d s e -> exists n, (d_ticks d <= n < d_ticks d')%nat /\ Tuning.dave_pending_media_ttl tuning <= duration_since (clock n) e)) d.
Proof.
  revert d. induction fuel as [|fuel IH]; intros d Hd; [done|]. cbn [retry_loop].
  eapply returns_bind; [apply good_quiet; by apply pop_retry_ok|]. intros o d1 Hd1 (Hs1 & Ht1 & _ & Ho). destruct o as [m|].
  2: { split; [done|]. split; [solve_kept|]. destruct Ho as [_ Ho]. intros (m & r & b & Hin & Hr & _). by rewrite (Ho m Hin) in Hr. }
  destruct Ho as (Hp & Hr & Hm). eapply returns_bind; [apply good_quiet; by apply elapsed_ok|]. intros age d2 Hd2 (Hs2 & -> & Hrx2 & Ht2).
  cbn [set_was_pending Assembler.enqueued_at]. assert (kept d d2) as Hk2 by solve_kept.
  assert (pending_frames d2 = pending_frames d1) as Hp2 by (unfold pending_frames; by rewrite Hrx2).
  destruct (Z.leb_spec (Tuning.dave_pending_media_ttl tuning) (duration_since (clock (d_ticks d1)) (Assembler.enqueued_at m))) as [Hold|Hyoung].
  - eapply returns_bind; [apply good_quiet; by apply observe_pending_ok|]. intros [] d3 Hd3 [Hs3 Hrx3]. pose proof (same_ticks _ _ Hs3).
    assert (kept d d3) as Hk3 by solve_kept. eapply returns_mono; [by apply IH|]. intros [] d' (Hd' & Hk & Hst). split; [done|]. split; [solve_kept|].
    pose proof (kept_ticks _ _ Hk). intros (m0 & r & b & Hin & Hr0 & Hs0 & He & Hb). rewrite Hp in Hin. apply elem_of_cons in Hin as [->|Hin].
    + exists (d_ticks d1). rewrite <- He. split; [lia|done].
    + destruct Hst as (n & Hn & Hexp); [|exists n; split; [lia|done]].
      exists m0, r, b. unfold pending_frames. rewrite (kept_block d d3) by done. rewrite Hrx3, Hrx2. done.
  - eapply returns_bind; [apply retry_turn_ok; [done|apply Hm|exact (from_source_grows _ _ _ (same_history _ _ Hs2) (proj2 Hm))]|]. intros [] d3 Hd3 (Hk3 & _ & Hpend). pose proof (kept_ticks _ _ Hk3).
    assert (kept d d3) as Hk3' by solve_kept. eapply returns_mono; [by apply IH|]. intros [] d' (Hd' & Hk & Hst).
    split; [done|]. split; [solve_kept|]. pose proof (kept_ticks _ _ Hk). intros (m0 & r & b & Hin & Hr0 & Hs0 & He & Hb & Hfr & Hinc).
    destruct Hst as (n & Hn & Hexp); [|exists n; split; [lia|done]]. rewrite Hp2 in Hpend. rewrite (kept_block d d2) in Hpend by done.
    rewrite Hp in Hin. apply elem_of_cons in Hin as [->|Hin].
    + rewrite Hb in Hpend. exists (waiting_as d2 r (set_was_pending m)), r, b. rewrite Hpend, (kept_block d d3) by done. split; [by left|].
      split; [unfold retried; cbn; by rewrite Hfr|]. done.
    + exists m0, r, b. rewrite (kept_block d d3) by done. split; [|done]. destruct (block_reason d m); rewrite Hpend; [by right|done].
Qed.

(** ** A datagram *)
Lemma detect_no_panic codecs pt : Codecs.detect codecs pt ≠ Panic.
Proof. unfold Codecs.detect. destruct (Codecs.payload_codecs codecs !! _) as [[c|]|]; [done|destruct (Codecs.codec_for_payload_type pt); done..]. Qed.

Lemma decode_packet_ok info packet d :
  pipe_ok d -> all_bytes packet -> flag (DaveGateway.receive_transform_active (dave_internal d)) ->
  good (decode_received_voice_packet info packet) (fun o d' => kept d d' /\ d_hand d' = d_hand d /\ forall r, o = Some r -> allowed (d_history d') r) d.
Proof.
  intros Hd Hb Hflag. unfold decode_received_voice_packet.
  assert (forall stage kind ssrc user seq e, good (_ ← observe_decode_error stage kind ssrc user seq; mret (M := st Driver Empty_set) (Some (inl e)))
    (fun o d' => kept d d' /\ d_hand d' = d_hand d /\ forall r : FrameReceiveResult Error, o = Some r -> allowed (d_history d') r) d) as Herr.
  { intros. eapply good_bind; [apply good_quiet; by apply observe_decode_ok|]. intros [] d1 Hd1 [Hs _]. apply good_ret; [done|].
    split; [solve_kept|]. split; [exact (same_hand _ _ Hs)|]. by intros r [= <-]. }
  destruct (Rtp.header_parse_shape packet Hb) as [(rtp & -> & Hshape)|[e ->]]; [|apply Herr].
  apply wp_bind, wp_gets. destruct (Gateway.rtp_codecs (d_conn d)) as [codecs|]; [|by apply good_ret; [|split; [done|]; split; [done|]; intros r [= <-]]].
  pose proof (detect_no_panic codecs (Rtp.payload_type rtp)). destruct (Codecs.detect codecs (Rtp.payload_type rtp)) as [codec|e|]; [|apply Herr|done].
  apply wp_bind, wp_gets. pose proof (Rtp.decrypt_safe (d_transport d) packet rtp Hshape) as Hs.
  destruct (Rtp.decrypt_payload_into (d_transport d) packet rtp) as [payload|e|]; [|apply Herr|done]. cbn [safe] in Hs.
  eapply good_bind; [apply good_quiet; by apply now_ok|]. intros t d1 Hd1 (Hs1 & _ & Hv1 & Ht1 & Hrx1).
  match goal with |- context [Receive.receive_push telemetry t ?x] => set (p := x) end.
  destruct (Receive.receive_push_ok telemetry t p (d_rx d1) (ok_rx d1 Hd1)) as (r & rx & ev & Hpush & Hr & Hok & Hp & Hfine); [split; [by apply Hs|exact Hflag]|].
  eapply good_bind; [exact (on_rx_ok _ r rx ev d1 Hd1 Hpush Hr Hok Hp)|]. intros r' d2 Hd2 (-> & Hk2 & Hh2 & Hrx2). rewrite (same_hand _ _ Hs1) in Hh2.
  destruct r as [[m|]|e|]; [| | |done].
  - eapply good_mono; [apply good_quiet, decode_ordered_ok; [done|exact (Hfine m eq_refl)]|]. intros o d3 [Hs3 Ho]. split; [solve_kept|].
    split; [rewrite (same_hand _ _ Hs3); done|done].
  - apply good_ret; [done|]. split; [solve_kept|]. done.
  - apply good_ret; [done|]. split; [solve_kept|]. split; [done|]. by intros r [= <-].
Qed.

Lemma resolve_receives_ok info packet d :
  pipe_ok d -> good (resolve_receives info packet) (fun _ d' => kept d d' /\ d_hand d' = d_hand d /\ d_rx d' = d_rx d) d.
Proof.
  intros [H1 H2 H3 H4 H5 H6]. unfold good, wp, resolve_receives. destruct (d_requests d) as [|raw [|rtp [|]]] eqn:Hq; try done.
  destruct (packet_requests_fifo (E := Empty_set) info packet raw rtp) as [-> _]. split; [by split|]. split; [by split|done].
Qed.

Lemma handle_packet_ok packet d :
  pipe_ok d -> all_bytes packet -> flag (DaveGateway.receive_transform_active (dave_internal d)) ->
  good (handle_received_udp_packet packet) (fun _ d' => kept d d') d.
Proof.
  intros Hd Hb Hflag. unfold handle_received_udp_packet. apply wp_bind, wp_lift. destruct (Rtp.info_total (E := Empty_set) packet) as [info ->].
  eapply good_bind; [by apply resolve_receives_ok|]. intros [] d1 Hd1 (Hk1 & Hh1 & Hr1). destruct (Rtp.is_rtcp info).
  - eapply good_mono; [apply good_quiet, when_ok; [done|]|intros [] d' [? _]; solve_kept].
    apply wp_bind, wp_lift. destruct (Rtp.rtcp_header_total (E := Empty_set) info packet) as [o ->]. by apply emit_ok.
  - eapply good_bind; [apply decode_packet_ok; [done|done|]|].
    { unfold dave_internal in *. by rewrite (kept_conn _ _ Hk1). }
    intros o d2 Hd2 (Hk2 & Hh2 & Ho). eapply good_bind; [by apply queue_option_ok|]. intros [] d3 Hd3 (Hk3 & _).
    eapply good_bind; [by apply collect_ok|]. intros [] d4 Hd4 [Hk4 _ _ _ _]. eapply good_mono; [by apply flush_ok|]. intros [] d5 [Hk5 _]. solve_kept.
Qed.

(** ** Gateway events and timers *)
Lemma retain_hand_ok removed hist h : hand_ok hist h -> hand_ok hist (with_ready (ready_prune_ssrcs removed (ready_frames h)) [] h).
Proof.
  intros [R1 R2 R3 [R4 R5] R6]. unfold ready_prune_ssrcs. case_bool_decide; split; cbn; try done.
  - rewrite Forall_forall in *. intros x Hx. apply R1. apply list_elem_of_In, filter_In in Hx as [Hx _]. by apply list_elem_of_In.
  - split; [done|]. etransitivity; [apply List.filter_length_le|done].
Qed.

Lemma prune_driver_ok removed d : pipe_ok d -> wp (prune removed) (fun _ => pipe_ok) (fun _ => pipe_ok) d.
Proof.
  intros [H1 H2 H3 H4 H5 H6]. unfold wp, prune. destruct (Receive.prune_ok removed (d_rx d) H1) as (rx & Hpr & Hok & _ & Hf). rewrite Hpr.
  split; cbn [d_rx d_dave d_hand d_ticks d_requests with_hand with_rx]; try done; [| |by apply retain_hand_ok].
  - unfold Receive.prune_ssrcs in Hpr. case_bool_decide; [by injection Hpr as <-|].
    destruct (pending_prune_spec (E := Rtp.RtpError) removed _ (Receive.sched_pending _ _ H1)) as (q & Hq & _ & Ht & _). rewrite Hq in Hpr.
    injection Hpr as <-. cbn. congruence.
  - unfold pending_frames in *. cbn [d_rx with_hand with_rx]. rewrite Hf. rewrite Forall_forall in *. intros x Hx. apply list_elem_of_In, filter_In in Hx as [Hx _].
    apply H3. by apply list_elem_of_In.
Qed.

Lemma effects_ok effects d : pipe_ok d -> wp (apply_gateway_effects effects) (fun _ => pipe_ok) (fun _ => pipe_ok) d.
Proof.
  intros Hd. unfold apply_gateway_effects. apply wp_bind. apply wp_mono with (Q := fun _ => pipe_ok) (R := fun _ => pipe_ok); [| |done].
  - destruct (Gateway.new_transport_crypto effects) as [config|]; [|done]. wp_steps. unfold Rtp.from_config.
    destruct (Rtp.aead_new _ _); [|done]. wp_steps. destruct Hd. by split.
  - intros [] d1 Hd1. apply wp_bind. apply wp_mono with (Q := fun _ => pipe_ok) (R := fun _ => pipe_ok); [| |done].
    + destruct (Gateway.allow_plaintext_receive_grace effects); [|done]. unfold wp, allow_grace. destruct Hd1 as [H1 H2 H3 H4 H5 H6]. split; cbn; try done.
      intros n Hn. apply dave_grace_ok, H4. lia.
    + intros [] d2 Hd2. destruct (Gateway.removed_ssrcs effects); [done|]. by apply prune_driver_ok.
Qed.

Lemma expire_pipe_ok d :
  pipe_ok d ->
  good expire_pending_dave_media (fun _ d' => kept d d' /\ d_hand d' = d_hand d /\ Receive.ssrcs (d_rx d') = Receive.ssrcs (d_rx d) /\
    exists n, (d_ticks d <= n < d_ticks d')%nat /\ forall f, f ∈ pending_frames d' -> clock n < Assembler.enqueued_at f + Tuning.dave_pending_media_ttl tuning) d.
Proof. intros Hd. apply wp_bind, wp_gets, expire_loop_ok; [done|]. rewrite pending_count_frames by done. lia. Qed.

Lemma wake_ok d : pipe_ok d -> good on_wake_deadline (fun _ d' => kept d d') d.
Proof.
  intros Hd. eapply good_bind; [by apply expire_pipe_ok|]. intros [] d1 Hd1 (Hk1 & _). eapply good_bind; [by apply collect_ok|].
  intros [] d2 Hd2 [Hk2 _ _ _ _]. eapply good_mono; [by apply flush_ok|]. intros [] d3 [Hk3 _]. solve_kept.
Qed.

Lemma after_event_returns fuel retry d : pipe_ok d -> returns (after_gateway_event fuel retry) (fun _ d' => pipe_ok d') d.
Proof.
  intros Hd. unfold returns, after_gateway_event, mbind, st_mbind.
  assert (returns (retry_pending_dave_media fuel retry) (fun _ d' => pipe_ok d') d) as Hr.
  { unfold retry_pending_dave_media. destruct (retry_is_empty retry); [done|]. eapply returns_mono; [by apply (retry_loop_returns retry 0 0)|]. naive_solver. }
  unfold returns in Hr. destruct (retry_pending_dave_media fuel retry d) as [[[]|e|] d1]; [|done|done].
  pose proof (collect_ok d1 Hr) as Hc. unfold good, wp in Hc. destruct (collect_ready_voice_frames d1) as [[[]|e|] d2]; [|done|done].
  pose proof (flush_ok d2 (proj1 Hc)) as Hf. unfold good, wp in Hf. destruct (flush d2) as [[[]|e|] d3]; [|done|done]. exact (proj1 Hf).
Qed.

(** ** The states of the driver *)
Definition driver_new (conn : Gateway.ConnectionInternalState) (v : dave_t) (t : Rtp.TransportCrypto) : Driver :=
  {| d_conn := conn; d_dave := v; d_transport := t; d_rx := Receive.receive_new tuning;
     d_hand := {| ready_frames := bounded_new (Tuning.ready_frame_buffer_max tuning); frame_stream := None; sent_frames := []; drop_events := []; schedule := [] |};
     d_requests := Buckets.bucket_default; d_replies := []; d_events := []; d_ticks := 0; d_history := {| handed_over := []; dave_calls := [] |} |}.

Definition with_schedule (l : list (list receiver_action)) (h : Handover Error) : Handover Error :=
  {| ready_frames := ready_frames h; frame_stream := frame_stream h; sent_frames := sent_frames h; drop_events := drop_events h; schedule := l |}.

(** The branches of [run_loop] the receive path has, in any order: datagrams,
    gateway events (handled and pumped by code outside this file, which may
    change the connection and the DAVE state in any way), their effects, the
    wake deadline; the user attaches a stream and asks for packets, and the
    user's task runs. *)
Inductive reachable : Driver -> Prop :=
| reach_new conn v t : (forall n, dave_ok (clock n) v) -> reachable (driver_new conn v t)
| reach_packet packet d : reachable d -> all_bytes packet -> flag (DaveGateway.receive_transform_active (dave_internal d)) ->
    reachable (handle_received_udp_packet packet d).2
| reach_event conn v d : reachable d -> (forall n, (d_ticks d <= n)%nat -> dave_ok (clock n) v) -> reachable (with_conn conn v d)
| reach_effects effects d : reachable d -> reachable (apply_gateway_effects effects d).2
| reach_after fuel retry d d' : reachable d -> after_gateway_event fuel retry d = (Ok (), d') -> reachable d'
| reach_wake d : reachable d -> reachable (on_wake_deadline d).2
| reach_attach c d : reachable d -> (length (chan_items c) <= chan_capacity c)%nat -> reachable (with_hand (attach_frame_stream c (d_hand d)).2 d)
| reach_user l d : reachable d -> reachable (with_hand (with_schedule l (d_hand d)) d)
| reach_request kind receive q d : reachable d -> push_packet_receive (E := Empty_set) kind receive (d_requests d) = Ok q -> reachable (with_requests q [] d).

Lemma good_run {A} (m : drv A) Q d : good m Q d -> pipe_ok (m d).2 /\ (m d).1 ≠ Panic.
Proof. unfold good, wp. destruct (m d) as [[a|e|] d']; [naive_solver|destruct e|done]. Qed.

Lemma attach_hand_ok c hist h : hand_ok hist h -> (length (chan_items c) <= chan_capacity c)%nat -> hand_ok hist (attach_frame_stream c h).2.
Proof.
  intros [R1 R2 R3 R4 R6] Hc. destruct (user_runs_spec h) as (_ & _ & _ & U4 & _). specialize (U4 R3). unfold attach_frame_stream, discard_closed_frame_stream.
  assert (forall o, (forall c', o = Some c' -> (length (chan_items c') <= chan_capacity c')%nat) -> hand_ok hist (with_stream o (user_runs h))) as Hst by (by intros o Ho; split).
  destruct (frame_stream (user_runs h)) as [c0|] eqn:Hs; [destruct (chan_closed c0)|].
  - apply (Hst (Some c)). by intros c' [= <-].
  - rewrite Hs. by split.
  - rewrite Hs. apply (Hst (Some c)). by intros c' [= <-].
Qed.

Lemma requests_push kind receive (q q' : list (list PendingReceive)) :
  push_packet_receive (E := Empty_set) kind receive q = Ok q' -> length q' = length q.
Proof.
  unfold push_packet_receive, Buckets.bucket_push_back. destruct (Buckets.bucket kind q) as [l|[]|]; cbn [mbind res_mbind]; [|done].
  intros [= <-]. apply length_insert.
Qed.

Lemma reachable_ok d : (0 < Tuning.ready_frame_buffer_max tuning)%nat -> reachable d -> pipe_ok d.
Proof.
  intros Hcap. induction 1 as [conn v t Hv|packet d _ IH Hb Hf|conn v d _ IH Hv|effects d _ IH|fuel retry d d' _ IH Hrun|d _ IH|c d _ IH Hc|l d _ IH|kind receive q d _ IH Hq].
  - split; try done; [apply Receive.sched_ok_new|]. split; [by apply Forall_nil|by apply Forall_nil|by intros c| |done]. split; [exact Hcap|cbn; lia].
  - exact (proj1 (good_run _ _ _ (handle_packet_ok packet d IH Hb Hf))).
  - destruct IH. by split.
  - pose proof (effects_ok effects d IH) as He. unfold wp in He. destruct (apply_gateway_effects effects d) as [[[]|e|] d']; done.
  - pose proof (after_event_returns fuel retry d IH) as Ha. unfold returns in Ha. by rewrite Hrun in Ha.
  - exact (proj1 (good_run _ _ _ (wake_ok d IH))).
  - destruct IH as [H1 H2 H3 H4 H5 H6]. split; cbn; try done. by apply attach_hand_ok.
  - destruct IH as [H1 H2 H3 H4 [R1 R2 R3 R4 R6] H6]. by split; cbn.
  - destruct IH as [H1 H2 H3 H4 H5 H6]. split; cbn; try done. by rewrite (requests_push _ _ _ _ Hq).
Qed.

End Pipeline.

(** ** The coordinator over a session provides the interface *)
Section Media.
Context `{P : RatchetPrimitives} `{A : Gcm.FrameAead} `{M : Session.Mls}.

#[local] Existing Instance Coordinator.dave_session.

#[export] Instance coordinator_media : DaveMedia := {|
  dave_t := Coordinator.DaveCoordinator;
  dave_ready := Coordinator.coordinator_ready;
  dave_send_ready := Coordinator.send_ready;
  dave_transition_ready := Coordinator.transition_ready;
  dave_decrypt := fun now u mt frame c =>
    let '(r, s) := Session.session_decrypt_into now u mt frame (Coordinator.session c) in (r, Coordinator.with_session s c);
  dave_grace := Coordinator.allow_plaintext_receive_grace |}.

Context {HP : RatchetLaws P} {HA : FrameAeadLaws A}.

#[export, refine] Instance coordinator_media_laws : DaveMediaLaws coordinator_media := {|
  dave_ok := fun now c => map_Forall (fun _ d => Receiver.decryptor_ok now d) (Session.decryptors (Coordinator.session c)) |}.
Proof.
  - intros now u mt frame c Hok Hb. cbn in *. unfold Session.session_decrypt_into.
    destruct (Session.decryptors (Coordinator.session c) !! u) as [d|] eqn:Hd; [|done].
    destruct (Receiver.decrypt_keeps_ok now mt frame d (Hok u d Hd) Hb) as [Hp Hk]. destruct (Receiver.decrypt now mt frame d) as [r d'] eqn:Hdec.
    split; [by destruct r|]. intros now' Hok'. cbn. apply map_Forall_insert_2; [exact (Hk now' (Hok' u d Hd))|done].
  - intros now u mt frame c. cbn. unfold Session.session_decrypt_into. destruct (_ !! u); [|by destruct c].
    by destruct (Receiver.decrypt now mt frame d).
  - intros now now' c Hok. cbn. rewrite !map_Forall_fmap. intros u d Hd. destruct (Hok u d Hd) as [H1 H2]. by split.
Defined.
End Media.

(** ** Properties *)
Section Properties.
Context {R : Assembler.FrameRaw} {PC : PacketCapture R} {AEAD : Rtp.TransportAead} {HT : Rtp.TransportAeadLaws AEAD}.
Context {IS : Deadlines.SetIter (K := Z)} {IB : Deadlines.SetIter (K := PendingMedia.DavePendingMediaBucket)}.
Context {LS : Deadlines.SetIterLaws IS} {LB : Deadlines.SetIterLaws IB}.
Context (tuning : Tuning.ConnectionRuntimeTuning) (clock : nat -> Z) (telemetry rtcp_telemetry : bool).
Context (Hcap : (0 < Tuning.ready_frame_buffer_max tuning)%nat).

Section Generic.
Context {D : DaveMedia} {HD : DaveMediaLaws D}.


(** C32. A DAVE frame that a source handed over, now or before it waited, waits
    exactly as long as its user is unknown, the session
    is not ready or the gateway has not settled, and the session is not called
    then.  Otherwise the session is called once, for the user its source belongs
    to, with the bytes of the frame and in the state of the driver, and the
    result is final: the frame with what the session returned, or its error.  A
    frame whose decryption failed is never put back. *)
Theorem decode_exact m d :
  reachable tuning clock telemetry rtcp_telemetry (fun _ => True) d -> from_source (d_history d) m -> all_bytes (Assembler.encrypted_frame m) ->
  exists o d', decode_or_enqueue_dave_media tuning clock telemetry m d = (Ok o, d') /\
    match block_reason d m with
    | Some r => o = None /\ d_dave d' = d_dave d /\ pending_frames d' ≡ₚ waiting_as d r m :: pending_frames d
    | None => exists u, Gateway.ssrc_users (d_conn d) !! frame_ssrc m = Some u /\ pending_frames d' = pending_frames d /\
        let '(r, v) := dave_decrypt (clock (d_ticks d)) u (media_type (Assembler.frame_codec m)) (Assembler.encrypted_frame m) (d_dave d) in
        d_dave d' = v /\
        match r with
        | Ok frame => o = Some (inr (received (with_user (Some u) m) frame))
        | Err e => o = Some (inl (EDaveDecrypt (DaveSource e)))
        | Panic => False
        end
    end.
Proof.
  intros Hd Hm Hb. apply (reachable_ok _ _ _ _ _ _ Hcap) in Hd.
  pose proof (decode_or_enqueue_ok tuning clock telemetry (fun _ => True) m d Hd (conj I Hb) Hm) as Hdec. unfold quiet, wp in Hdec.
  destruct (decode_or_enqueue_dave_media tuning clock telemetry m d) as [[o|[]|] d']; [|done]. exists o, d'. split; [done|]. apply Hdec.
Qed.

(** C33. The retry of pending media terminates once the clock has passed the
    expiry of everything that waits: if from the reading [T] on every pending
    frame is too old, the loop ends after at most as many turns as there are
    readings until [T] and frames waiting, without panic, and leaves no frame
    that it was to retry. *)
Theorem retry_terminates T retry d :
  reachable tuning clock telemetry rtcp_telemetry (fun _ => True) d -> all_expired_from tuning clock T (pending_frames d) ->
  exists d', retry_pending_dave_media tuning clock telemetry (S (T - d_ticks d + length (pending_frames d))) retry d = (Ok (), d') /\
    forall f, f ∈ pending_frames d' -> retried retry f = false.
Proof.
  intros Hd Hexp. apply (reachable_ok _ _ _ _ _ _ Hcap) in Hd. unfold retry_pending_dave_media, retry_is_empty.
  destruct (Z.eqb_spec (bits retry) 0) as [Hz|_].
  { exists d. split; [done|]. intros f _. unfold retried, includes. rewrite Hz. by destruct (from_reason (f_reason f)). }
  pose proof (retry_loop_ok tuning clock telemetry (fun _ => True) T retry _ d Hd Hexp (Nat.lt_succ_diag_r _)) as Hr. unfold good, wp in Hr.
  destruct (retry_loop _ _ _ _ retry d) as [[[]|[]|] d']; [|done]. exists d'. split; [done|]. apply Hr.
Qed.

(** A frame that stays blocked keeps the retry busy until it expires.  When
    the buckets to retry contain a pending frame whose decryption is still
    blocked by a reason of these buckets, [retry_pending_dave_media] takes it
    out and puts it back, over and over: it returns only after a reading of the
    clock at which that frame is as old as the pending time allows. *)
Theorem retry_waits_for_expiry fuel retry m r b d d' :
  reachable tuning clock telemetry rtcp_telemetry (fun _ => True) d ->
  m ∈ pending_frames d -> retried retry m = true -> block_reason d m = Some r -> from_reason r = Some b -> includes retry b = true ->
  retry_pending_dave_media tuning clock telemetry fuel retry d = (Ok (), d') ->
  exists n, (d_ticks d <= n < d_ticks d')%nat /\ Tuning.dave_pending_media_ttl tuning <= duration_since (clock n) (Assembler.enqueued_at m).
Proof.
  intros Hd Hm Hr Hb Hfr Hinc. apply (reachable_ok _ _ _ _ _ _ Hcap) in Hd. unfold retry_pending_dave_media, retry_is_empty.
  destruct (Z.eqb_spec (bits retry) 0) as [Hz|_]; [unfold includes in Hinc; by rewrite Hz in Hinc|]. intros Hrun.
  pose proof (retry_loop_returns tuning clock telemetry (fun _ => True) retry (frame_ssrc m) (Assembler.enqueued_at m) fuel d Hd) as H.
  unfold returns in H. rewrite Hrun in H. destruct H as (_ & _ & H). apply H. by exists m, r, b.
Qed.

End Generic.

(** ** With the session of the dave crate *)
Section WithSession.
Context `{P : RatchetPrimitives} `{A : Gcm.FrameAead} `{M : Session.Mls} {HP : RatchetLaws P} {HA : FrameAeadLaws A}.
#[local] Existing Instance Coordinator.dave_session.

(** C2. End-to-end encryption on receive.  If every datagram arrived while the
    gateway state asked for DAVE, then every frame in the ready queue or handed
    to the user comes from a frame [m] that a source handed over in this run, by
    a call [c] of the session in this run: the call was made for the user the
    frame is attributed to, with the encrypted bytes of [m], on the coordinator
    as it was at that time, which was ready and had a decryptor for that user;
    and that decryptor let the frame through because it is the Opus silence
    frame on an audio stream, or plaintext while its passthrough was open at the
    time of the call, or authentic under one of its ratchets, unexpired at that
    time, with a nonce not accepted before. *)
Theorem only_authentic_delivered f d :
  reachable (D := coordinator_media) tuning clock telemetry rtcp_telemetry (fun b => b = true) d ->
  inr f ∈ items (ready_frames (d_hand d)) ++ sent_frames (d_hand d) ->
  exists m c u dec, m ∈ handed_over (d_history d) /\ c ∈ dave_calls (d_history d) /\
    call_user c = u /\ call_frame c = Assembler.encrypted_frame m /\ call_media c = media_type (Assembler.frame_codec m) /\
    f = received (with_user (Some u) m) (rf_frame f) /\
    Coordinator.coordinator_ready (call_state c) = true /\ Session.decryptors (Coordinator.session (call_state c)) !! u = Some dec /\
    ((rf_frame f = call_frame c /\ call_media c = Audio /\ call_frame c = OPUS_SILENCE_FRAME) \/
     exists pf, FrameFormat.parse (call_frame c) = Ok pf /\
       ((rf_frame f = call_frame c /\ FrameFormat.encrypted pf = false /\ Passthrough.allows_plaintext (call_time c) (Receiver.passthrough dec) = true) \/
        (FrameFormat.encrypted pf = true /\
         exists k, k ∈ Receiver.managers dec /\ Receiver.unexpired (call_time c) k /\ Receiver.authentic_for k pf (rf_frame f)))).
Proof.
  intros Hd Hin. apply (reachable_ok _ _ _ _ _ _ Hcap) in Hd. destruct (ok_hand _ _ _ _ Hd) as [H1 H2 _ _ _].
  assert (allowed clock (fun b => b = true) (d_history d) (inr f)) as [Hfalse|(m & u & c & n & Hm & Hc & Ht & Hu & Hmt & Hfr & Hb & Hok & Hready & Hdec & Hf)]; [|done|].
  { apply elem_of_app in Hin as [Hin|Hin]; [exact (proj1 (Forall_forall _ _) H1 _ Hin)|exact (proj1 (Forall_forall _ _) H2 _ Hin)]. }
  cbn in Hdec. unfold Session.session_decrypt_into in Hdec. destruct (Session.decryptors (Coordinator.session (call_state c)) !! u) as [dec|] eqn:Hl; [|done].
  pose proof (Receiver.decrypt_spec (clock n) (call_media c) (call_frame c) dec (Hok u dec Hl) Hb) as Hspec.
  destruct (Receiver.decrypt (clock n) (call_media c) (call_frame c) dec) as [[out|e|] dec']; cbn in Hdec; [|done|done].
  injection Hdec as ->. destruct Hspec as (_ & _ & Hspec). exists m, c, u, dec. rewrite Ht. split_and!; done.
Qed.
End WithSession.
End Properties.

(** ** Witnesses *)
Module PipelineSamples.
Import Gcm.Sample HashRatchet.SampleKdf Session.SessionSamples Coordinator.CoordinatorSamples SampleAead ReorderSamples Deadlines.SampleIter PendingSamples.
#[local] Existing Instance Assembler.AssemblerSamples.sample_raw.
#[local] Existing Instance Coordinator.dave_session.

#[local] Instance sample_capture : PacketCapture Assembler.AssemblerSamples.sample_raw := {| capture_packet := fun _ info => default 0 (Rtp.info_seq info) |}.

Definition sample_clock (n : nat) : Z := 10 * Z.of_nat n.

(** A session that has a decryptor for user 6, whose source is 7. *)
Definition sample_session : Session.Session :=
  Session.with_media true (Session.sender (Session.session_new 0 3 5 77)) {[6 := Receiver.default_decryptor 0]}
    (Session.session_passthrough (Session.session_new 0 3 5 77)) (Session.session_new 0 3 5 77).

Definition sample_coordinator : Coordinator.DaveCoordinator := Coordinator.with_session (sample_session : Coordinator.session_t) created.

Definition sample_conn : Gateway.ConnectionInternalState :=
  Gateway.with_roster {[5; 6]} {[7 := 6]} (Gateway.connection_initial [H264] None 5 Gateway.GatewaySamples.sample_description Gateway.GatewaySamples.sample_map).

(** An Opus packet of source 7 with the silence frame. *)
Definition silence_packet : bytes := [0x80; 120; 0; 1; 0; 0; 0; 0; 0; 0; 0; 7] ++ OPUS_SILENCE_FRAME ++ replicate 16 7 ++ [0; 0; 0; 0].

Definition after_silence : Driver :=
  (handle_received_udp_packet sample_tuning sample_clock true true silence_packet (driver_new sample_tuning sample_conn sample_coordinator sample_transport)).2.

Definition silence_header : Rtp.RtpHeader :=
  {| Rtp.version := 2; Rtp.padding := false; Rtp.extension := false; Rtp.marker := false; Rtp.payload_type := 120; Rtp.seq := 1;
     Rtp.timestamp := 0; Rtp.ssrc := 7; Rtp.header_len := 12; Rtp.encrypted_body_offset := 12 |}.

Definition delivered_frame : ReceivedFrame :=
  {| rf_raw := [1]; rf_rtp := silence_header; rf_user_id := Some 6; rf_media_type := Audio; rf_codec := Opus; rf_frame := OPUS_SILENCE_FRAME |}.

Lemma silence_delivered : items (ready_frames (d_hand after_silence)) = [inr delivered_frame].
Proof. vm_compute. reflexivity. Qed.

Lemma silence_bytes : all_bytes silence_packet.
Proof. compute_bytes. Qed.

Lemma sample_coordinator_ok now : dave_ok (DaveMediaLaws := coordinator_media_laws) now sample_coordinator.
Proof. apply map_Forall_singleton. split; [constructor|by left]. Qed.

Lemma only_authentic_delivered_witness :
  exists m c u dec, m ∈ handed_over (d_history after_silence) /\ c ∈ dave_calls (d_history after_silence) /\
    call_user c = u /\ call_frame c = Assembler.encrypted_frame m /\ call_media c = media_type (Assembler.frame_codec m) /\
    delivered_frame = received (with_user (Some u) m) (rf_frame delivered_frame) /\
    Coordinator.coordinator_ready (call_state c) = true /\ Session.decryptors (Coordinator.session (call_state c)) !! u = Some dec /\
    ((rf_frame delivered_frame = call_frame c /\ call_media c = Audio /\ call_frame c = OPUS_SILENCE_FRAME) \/
     exists pf, FrameFormat.parse (call_frame c) = Ok pf /\
       ((rf_frame delivered_frame = call_frame c /\ FrameFormat.encrypted pf = false /\ Passthrough.allows_plaintext (call_time c) (Receiver.passthrough dec) = true) \/
        (FrameFormat.encrypted pf = true /\
         exists k, k ∈ Receiver.managers dec /\ Receiver.unexpired (call_time c) k /\ Receiver.authentic_for k pf (rf_frame delivered_frame)))).
Proof.
  apply (only_authentic_delivered sample_tuning sample_clock true true (Nat.lt_0_succ 3) delivered_frame after_silence).
  - apply reach_packet; [|exact silence_bytes|reflexivity]. apply reach_new. intros n. apply sample_coordinator_ok.
  - rewrite silence_delivered. by left.
Defined.

(** The same packet from a source whose user is not known yet. *)
Definition unknown_conn : Gateway.ConnectionInternalState :=
  Gateway.connection_initial [H264] None 5 Gateway.GatewaySamples.sample_description Gateway.GatewaySamples.sample_map.

Definition after_unknown : Driver :=
  (handle_received_udp_packet sample_tuning sample_clock true true silence_packet (driver_new sample_tuning unknown_conn sample_coordinator sample_transport)).2.

Lemma unknown_reachable : reachable sample_tuning sample_clock true true (fun _ => True) after_unknown.
Proof. apply reach_packet; [|exact silence_bytes|done]. apply reach_new. intros n. apply sample_coordinator_ok. Qed.

Definition waiting_frame : Assembler.PendingMediaFrame :=
  {| Assembler.frame_raw := [1]; Assembler.frame_rtp := silence_header; Assembler.frame_user_id := None; Assembler.frame_codec := Opus;
     Assembler.encrypted_frame := OPUS_SILENCE_FRAME; Assembler.frame_dave := true; Assembler.enqueued_at := 0;
     Assembler.reason := Assembler.MissingUser; Assembler.was_pending := false |}.

Lemma unknown_pending : pending_frames after_unknown = [waiting_frame].
Proof. vm_compute. reflexivity. Qed.


Definition silence_frame : Assembler.PendingMediaFrame := default waiting_frame (head (handed_over (d_history after_silence))).

Lemma silence_reachable : reachable sample_tuning sample_clock true true (fun _ => True) after_silence.
Proof. apply reach_packet; [|exact silence_bytes|done]. apply reach_new. intros n. apply sample_coordinator_ok. Qed.

Lemma silence_handed_over : handed_over (d_history after_silence) = [silence_frame].
Proof. vm_compute. reflexivity. Qed.

(** The user of the frame is known, and the session is ready. *)
Lemma decode_exact_witness :
  block_reason after_silence silence_frame = None /\
  exists o d', decode_or_enqueue_dave_media sample_tuning sample_clock true silence_frame after_silence = (Ok o, d') /\
    match block_reason after_silence silence_frame with
    | Some r => o = None /\ d_dave d' = d_dave after_silence /\ pending_frames d' ≡ₚ waiting_as after_silence r silence_frame :: pending_frames after_silence
    | None => exists u, Gateway.ssrc_users (d_conn after_silence) !! frame_ssrc silence_frame = Some u /\ pending_frames d' = pending_frames after_silence /\
        let '(r, v) := dave_decrypt (sample_clock (d_ticks after_silence)) u (media_type (Assembler.frame_codec silence_frame))
                         (Assembler.encrypted_frame silence_frame) (d_dave after_silence) in
        d_dave d' = v /\
        match r with
        | Ok frame => o = Some (inr (received (with_user (Some u) silence_frame) frame))
        | Err e => o = Some (inl (EDaveDecrypt (DaveSource e)))
        | Panic => False
        end
    end.
Proof.
  split; [vm_compute; reflexivity|].
  apply (decode_exact sample_tuning sample_clock true true (Nat.lt_0_succ 3)); [apply silence_reachable| |compute_bytes].
  exists silence_frame. rewrite silence_handed_over. split; [by left|reflexivity].
Defined.

Lemma retry_terminates_witness :
  exists d', retry_pending_dave_media sample_tuning sample_clock true (S (200 - d_ticks after_unknown + length (pending_frames after_unknown))) retry_missing_user
      after_unknown = (Ok (), d') /\ forall f, f ∈ pending_frames d' -> retried retry_missing_user f = false.
Proof.
  apply (retry_terminates sample_tuning sample_clock true true (Nat.lt_0_succ 3) 200 retry_missing_user after_unknown); [apply unknown_reachable|].
  intros f n. rewrite unknown_pending. intros ->%list_elem_of_singleton Hn. unfold duration_since, sample_clock. cbn. lia.
Defined.

Definition retried_driver : Driver := (retry_pending_dave_media sample_tuning sample_clock true 300 retry_missing_user after_unknown).2.

Lemma retried_run : retry_pending_dave_media sample_tuning sample_clock true 300 retry_missing_user after_unknown = (Ok (), retried_driver).
Proof.
  unfold retried_driver. refine (run_pair (retry_pending_dave_media sample_tuning sample_clock true 300 retry_missing_user) after_unknown (Ok ()) _).
  vm_compute. reflexivity.
Qed.

(** A speaking event for another source retries the frames of unknown users. *)
Lemma retry_waits_for_expiry_witness :
  exists n, (d_ticks after_unknown <= n < d_ticks retried_driver)%nat /\
    Tuning.dave_pending_media_ttl sample_tuning <= duration_since (sample_clock n) (Assembler.enqueued_at waiting_frame).
Proof.
  apply (retry_waits_for_expiry sample_tuning sample_clock true true (Nat.lt_0_succ 3) 300 retry_missing_user waiting_frame Assembler.MissingUser MissingUser
    after_unknown retried_driver); [apply unknown_reachable|rewrite unknown_pending; by left|reflexivity..|exact retried_run].
Defined.
End PipelineSamples.
End Pipeline.
