(* ===== verification/OpusPacket.v ===== *)
(** * Opus packets (cacophony/src/opus.rs, module [discord])

    [Packet::from_bytes] accepts a byte string when it is one Opus packet that
    holds 20 ms of audio; the checks walk through the packing of RFC 6716,
    section 3.  [opus_packet] is that packing written down as a grammar, and
    [validate_exact] shows that the checks accept exactly its packets.
    [PacketBatch] keeps many packets in one buffer. *)

From Stdlib Require Import String.
From S2P Require Import Prelude.
#[local] Open Scope Z_scope.

Module OpusPacket.

Definition SAMPLE_RATE_HZ : Z := 48000.
Definition BLOCK_DURATION_MS : Z := 20.
(** Durations are in nanoseconds. *)
Definition BLOCK_DURATION : Z := BLOCK_DURATION_MS * 1000000.
Definition SAMPLES_PER_CHANNEL : Z := SAMPLE_RATE_HZ * BLOCK_DURATION_MS / 1000.
Definition OPUS_MAX_PACKET_SAMPLES_PER_CHANNEL : Z := SAMPLE_RATE_HZ * 120 / 1000.
Definition OPUS_MAX_FRAME_BYTES : nat := 1275.
Definition MAX_PACKET_BYTES : nat := 4096.

(** The errors [Packet::from_bytes] returns. *)
Inductive OpusPacketError :=
| EmptyOpusPayload
| OpusPayloadTooLarge (len max_len : nat)
| InvalidPacket (reason : string)
| UnsupportedDiscordPacketDuration (expected actual : Z).

Abbreviation R := (res OpusPacketError).

Definition invalid_opus_packet {A} (reason : string) : R A := Err (InvalidPacket reason).

(** [checked_add], [checked_mul] and [checked_sub] on a 64-bit [usize]. *)
Definition checked_add (a b : nat) : option nat := if Z.of_nat (a + b) <? u64_mod then Some (a + b)%nat else None.
Definition checked_mul (a b : Z) : option Z := if a * b <? u64_mod then Some (a * b) else None.
Definition checked_sub (a b : nat) : option nat := if (b <=? a)%nat then Some (a - b)%nat else None.

(** [data.get(n..)] *)
Definition get_from {A} (n : nat) (l : list A) : option (list A) := if (n <=? List.length l)%nat then Some (drop n l) else None.

Definition validate_opus_frame_size (frame_len : nat) : R () :=
  if (OPUS_MAX_FRAME_BYTES <? frame_len)%nat then invalid_opus_packet "frame exceeds Opus maximum encoded size" else Ok ().

Definition opus_samples_per_frame (toc : Z) : Z :=
  if has_bits toc 0x80 then Z.shiftl SAMPLE_RATE_HZ (Z.land (Z.shiftr toc 3) 3) / 400
  else if Z.land toc 0x60 =? 0x60 then
    if has_bits toc 8 then SAMPLE_RATE_HZ / 50 else SAMPLE_RATE_HZ / 100
  else
    let config := Z.land (Z.shiftr toc 3) 3 in
    if config =? 3 then SAMPLE_RATE_HZ * 60 / 1000 else Z.shiftl SAMPLE_RATE_HZ config / 100.

(** The length of a frame and the bytes its length field takes. *)
Definition parse_opus_frame_size (data : bytes) : R (nat * nat) :=
  match data with
  | [] => invalid_opus_packet "missing frame size"
  | first :: rest =>
      if first <? 252 then Ok (Z.to_nat first, 1%nat)
      else
        match rest with
        | [] => invalid_opus_packet "truncated extended frame size"
        | second :: _ => Ok ((Z.to_nat second * 4 + Z.to_nat first)%nat, 2%nat)
        end
  end.

Fixpoint padding_loop (data : bytes) (padding index : nat) : R (nat * nat) :=
  match data with
  | [] => invalid_opus_packet "unterminated padding length"
  | byte :: data =>
      padding ← ok_or (InvalidPacket "padding length overflow") (checked_add padding (if byte =? u8_max then 254 else Z.to_nat byte));
      if negb (byte =? u8_max) then Ok (padding, (index + 1)%nat) else padding_loop data padding (index + 1)
  end.

Definition parse_opus_padding_len (data : bytes) : R (nat * nat) := padding_loop data 0 0.

(** The loop of [validate_opus_vbr_frame_sizes] over the lengths that are
    written, and the total they come to. *)
Fixpoint vbr_loop (n : nat) (frame_bytes : bytes) (sized_payload_len : nat) : R (bytes * nat) :=
  match n with
  | O => Ok (frame_bytes, sized_payload_len)
  | S n =>
      '(frame_len, used) ← parse_opus_frame_size frame_bytes;
      _ ← validate_opus_frame_size frame_len;
      frame_bytes ← ok_or (InvalidPacket "VBR frame size header exceeds packet length") (get_from used frame_bytes);
      sized_payload_len ← ok_or (InvalidPacket "VBR frame size overflow") (checked_add sized_payload_len frame_len);
      vbr_loop n frame_bytes sized_payload_len
  end.

Definition validate_opus_vbr_frame_sizes (frame_bytes : bytes) (frame_count : nat) : R () :=
  '(frame_bytes, sized_payload_len) ← vbr_loop (frame_count - 1) frame_bytes 0;
  if (List.length frame_bytes <? sized_payload_len)%nat then invalid_opus_packet "VBR frame sizes exceed packet length"
  else validate_opus_frame_size (List.length frame_bytes - sized_payload_len).

Definition opus_code3_frame_count (payload : bytes) (samples_per_frame : Z) : R nat :=
  match payload with
  | [] => invalid_opus_packet "code 3 packet missing frame count"
  | count_byte :: frame_bytes =>
      let frame_count := Z.to_nat (Z.land count_byte 0x3f) in
      if (frame_count =? 0)%nat || (48 <? frame_count)%nat then invalid_opus_packet "code 3 packet has invalid frame count"
      else if samples_per_frame * Z.of_nat frame_count >? OPUS_MAX_PACKET_SAMPLES_PER_CHANNEL then
        invalid_opus_packet "code 3 packet duration exceeds 120 ms"
      else
        frame_bytes ← (if has_bits count_byte 0x40 then
          '(padding, used) ← parse_opus_padding_len frame_bytes;
          frame_bytes ← ok_or (InvalidPacket "code 3 padding header exceeds packet length") (get_from used frame_bytes);
          match checked_sub (List.length frame_bytes) padding with
          | None => invalid_opus_packet "code 3 padding exceeds packet length"
          | Some data_len => slice frame_bytes 0 data_len
          end else Ok frame_bytes);
        _ ← (if has_bits count_byte 0x80 then validate_opus_vbr_frame_sizes frame_bytes frame_count
             else if negb (List.length frame_bytes mod frame_count =? 0)%nat then invalid_opus_packet "code 3 CBR payload is not frame-aligned"
             else validate_opus_frame_size (List.length frame_bytes / frame_count));
        Ok frame_count
  end.

Definition opus_packet_frame_count (packet : bytes) (samples_per_frame : Z) : R nat :=
  payload ← slice packet 1 (List.length packet);
  toc ← index packet 0;
  let code := Z.land toc 3 in
  if code =? 0 then _ ← validate_opus_frame_size (List.length payload); Ok 1%nat
  else if code =? 1 then
    if negb (List.length payload mod 2 =? 0)%nat then invalid_opus_packet "code 1 packet has odd payload length"
    else _ ← validate_opus_frame_size (List.length payload / 2); Ok 2%nat
  else if code =? 2 then
    '(first_len, used) ← parse_opus_frame_size payload;
    remaining ← ok_or (InvalidPacket "code 2 packet size underflow") (checked_sub (List.length payload) used);
    if (remaining <? first_len)%nat then invalid_opus_packet "code 2 first frame exceeds packet length"
    else
      _ ← validate_opus_frame_size first_len;
      _ ← validate_opus_frame_size (remaining - first_len);
      Ok 2%nat
  else opus_code3_frame_count payload samples_per_frame.

Definition opus_packet_samples_per_channel (packet : bytes) : R Z :=
  toc ← index packet 0;
  let samples_per_frame := opus_samples_per_frame toc in
  frame_count ← opus_packet_frame_count packet samples_per_frame;
  samples ← ok_or (InvalidPacket "sample count overflow") (checked_mul samples_per_frame (Z.of_nat frame_count));
  if samples >? OPUS_MAX_PACKET_SAMPLES_PER_CHANNEL then invalid_opus_packet "packet duration exceeds 120 ms" else Ok samples.

Definition validate_packet_bytes (b : bytes) : R () :=
  match b with
  | [] => Err EmptyOpusPayload
  | _ =>
      if (MAX_PACKET_BYTES <? List.length b)%nat then Err (OpusPayloadTooLarge (List.length b) MAX_PACKET_BYTES)
      else
        samples_per_channel ← opus_packet_samples_per_channel b;
        if negb (samples_per_channel =? SAMPLES_PER_CHANNEL)
        then Err (UnsupportedDiscordPacketDuration SAMPLES_PER_CHANNEL samples_per_channel) else Ok ()
  end.

(** ** Packets and batches *)
Record Packet := { packet_bytes : bytes }.

Definition from_bytes (b : bytes) : R Packet := _ ← validate_packet_bytes b; Ok {| packet_bytes := b |}.

Definition packet_duration (p : Packet) : Z := BLOCK_DURATION.

Record PacketSpan := { offset : nat; span_len : nat }.

Definition span_duration (s : PacketSpan) : Z := BLOCK_DURATION.

Record PacketBatch := { batch_bytes : bytes; batch_packets : list PacketSpan; scratch : bytes }.

Definition batch_new : PacketBatch := {| batch_bytes := []; batch_packets := []; scratch := [] |}.

(** [&bytes[span.range()]] *)
Definition at_span {E} (b : bytes) (s : PacketSpan) : res E bytes := slice b (offset s) (offset s + span_len s).

(** [PacketSink::encode_packet] of a batch; [encode] is the closure, which is
    called once, on the empty scratch buffer, and returns with its result the
    buffer it leaves and the state it captured.  The debug assertion on the
    length is a panic. *)
Definition encode_packet {E A} (encode : bytes -> res E nat * bytes * A) (b : PacketBatch) : res E () * PacketBatch * A :=
  let '(written, out, a) := encode [] in
  let b := {| batch_bytes := batch_bytes b; batch_packets := batch_packets b; scratch := out |} in
  match written with
  | Ok n =>
      if (n =? List.length out)%nat then
        (Ok (), {| batch_bytes := batch_bytes b ++ out;
                   batch_packets := batch_packets b ++ [{| offset := List.length (batch_bytes b); span_len := List.length out |}];
                   scratch := out |}, a)
      else (Panic, b, a)
  | Err e => (Err e, b, a)
  | Panic => (Panic, b, a)
  end.

Fixpoint at_spans {E} (b : bytes) (l : list PacketSpan) : res E (list bytes) :=
  match l with [] => Ok [] | s :: l => x ← at_span b s; xs ← at_spans b l; Ok (x :: xs) end.

(** [PacketBatch::into_packets] *)
Definition into_packets {E} (b : PacketBatch) : res E (list bytes) := at_spans (batch_bytes b) (batch_packets b).

(** ** The packing of RFC 6716 *)

(** The samples of one frame at 48 kHz by the configuration in the upper five
    bits of the first byte: SILK 10, 20, 40, 60 ms; hybrid 10, 20 ms; CELT 2.5,
    5, 10, 20 ms. *)
Definition opus_table : list Z :=
  concat (replicate 3 [480; 960; 1920; 2880]) ++ concat (replicate 2 [480; 960]) ++ concat (replicate 4 [120; 240; 480; 960]).

Definition frame_samples (toc : Z) : Z := nth (Z.to_nat (toc / 8)) opus_table 0.

(** A frame length below 252 takes one byte, a longer one two. *)
Definition frame_size_bytes (n : nat) : bytes :=
  if (n <? 252)%nat then [Z.of_nat n] else [252 + Z.of_nat n mod 4; (Z.of_nat n - (252 + Z.of_nat n mod 4)) / 4].

Inductive padding_field : nat -> bytes -> Prop :=
| pad_last b : 0 <= b < 255 -> padding_field (Z.to_nat b) [b]
| pad_more n l : padding_field n l -> padding_field (254 + n) (255 :: l).

Definition padded (count : Z) (field pad : bytes) : Prop :=
  if has_bits count 0x40 then padding_field (List.length pad) field else field = [] /\ pad = [].

(** Frames of different lengths have all lengths but the last written first. *)
Definition packed (count : Z) (fs : list bytes) (body : bytes) : Prop :=
  if has_bits count 0x80 then
    exists init f, fs = init ++ [f] /\ body = concat (frame_size_bytes <$> (List.length <$> init)) ++ concat fs
  else exists n, Forall (fun f => List.length f = n) fs /\ body = concat fs.

Inductive opus_packet : Z -> list bytes -> bytes -> Prop :=
| packet_one toc f : Z.land toc 3 = 0 -> opus_packet toc [f] (toc :: f)
| packet_equal toc f g : Z.land toc 3 = 1 -> List.length f = List.length g -> opus_packet toc [f; g] (toc :: f ++ g)
| packet_two toc f g : Z.land toc 3 = 2 -> opus_packet toc [f; g] (toc :: frame_size_bytes (List.length f) ++ f ++ g)
| packet_many toc fs count field pad body :
    Z.land toc 3 = 3 -> (1 <= List.length fs <= 48)%nat -> Z.land count 0x3f = Z.of_nat (List.length fs) ->
    padded count field pad -> packed count fs body -> opus_packet toc fs (toc :: count :: field ++ body ++ pad).

(** *** Lemmas *)
Lemma samples_table : forall toc, is_byte toc -> opus_samples_per_frame toc = frame_samples toc /\ 120 <= frame_samples toc <= 2880.
Proof. apply byte_cases. apply (bool_decide_unpack _). vm_compute. exact I. Qed.

Lemma land3_cases toc : Z.land toc 3 ≠ 0 -> Z.land toc 3 ≠ 1 -> Z.land toc 3 ≠ 2 -> Z.land toc 3 = 3.
Proof. assert (Z.land toc 3 = toc mod 4) as -> by exact (Z.land_ones toc 2 ltac:(done)). pose proof (Z.mod_pos_bound toc 4 eq_refl). lia. Qed.

Lemma size_ok n : validate_opus_frame_size n = Ok () <-> (n <= OPUS_MAX_FRAME_BYTES)%nat.
Proof. unfold validate_opus_frame_size. destruct (Nat.ltb_spec OPUS_MAX_FRAME_BYTES n); split; try done; lia. Qed.

Lemma size_cases n : ((n <= OPUS_MAX_FRAME_BYTES)%nat /\ validate_opus_frame_size n = Ok ()) \/
  ((OPUS_MAX_FRAME_BYTES < n)%nat /\ exists e, validate_opus_frame_size n = Err e).
Proof. unfold validate_opus_frame_size, invalid_opus_packet. destruct (Nat.ltb_spec OPUS_MAX_FRAME_BYTES n); eauto. Qed.

Lemma parse_size_print n rest : (n <= OPUS_MAX_FRAME_BYTES)%nat ->
  parse_opus_frame_size (frame_size_bytes n ++ rest) = Ok (n, List.length (frame_size_bytes n)).
Proof.
  unfold frame_size_bytes, OPUS_MAX_FRAME_BYTES. intros Hn. destruct (Nat.ltb_spec n 252); cbn [app parse_opus_frame_size List.length].
  - destruct (Z.ltb_spec (Z.of_nat n) 252); [|lia]. by rewrite Nat2Z.id.
  - pose proof (Z.mod_pos_bound (Z.of_nat n) 4 eq_refl). pose proof (Z.div_mod (Z.of_nat n) 4).
    destruct (Z.ltb_spec (252 + Z.of_nat n mod 4) 252); [lia|]. do 3 f_equal.
    replace (Z.of_nat n - (252 + Z.of_nat n mod 4)) with ((Z.of_nat n / 4 - 63) * 4) by lia. rewrite Z.div_mul by done. lia.
Qed.

Lemma parse_size_inv data n u : all_bytes data -> parse_opus_frame_size data = Ok (n, u) ->
  (n <= OPUS_MAX_FRAME_BYTES)%nat /\ u = List.length (frame_size_bytes n) /\ exists rest, data = frame_size_bytes n ++ rest.
Proof.
  unfold OPUS_MAX_FRAME_BYTES, is_byte. intros Hb. destruct data as [|a [|b rest]]; [done| |]; cbn [parse_opus_frame_size];
    apply Forall_cons in Hb as [Ha Hb]; destruct (Z.ltb_spec a 252); intros [= <- <-]; unfold frame_size_bytes.
  - destruct (Nat.ltb_spec (Z.to_nat a) 252); [|lia]. rewrite Z2Nat.id by lia. repeat split; [lia|by exists []].
  - destruct (Nat.ltb_spec (Z.to_nat a) 252); [|lia]. rewrite Z2Nat.id by lia. repeat split; [lia|by exists (b :: rest)].
  - apply Forall_cons in Hb as [Hb _]. destruct (Nat.ltb_spec (Z.to_nat b * 4 + Z.to_nat a) 252); [lia|]. repeat split; [lia|]. exists rest.
    rewrite Nat2Z.inj_add, Nat2Z.inj_mul, !Z2Nat.id by lia. change (Z.of_nat 4) with 4.
    replace ((b * 4 + a) mod 4) with (a - 252) by (apply Z.mod_unique_pos with (b + 63); lia). cbn [app].
    replace (b * 4 + a - (252 + (a - 252))) with (b * 4) by lia. rewrite Z.div_mul by done. by rewrite Zplus_minus.
Qed.

Lemma parse_size_total data : parse_opus_frame_size data ≠ Panic.
Proof. destruct data as [|a [|b r]]; cbn; [done|by destruct (a <? 252)..]. Qed.

Lemma get_from_app {A} (a b : list A) : get_from (List.length a) (a ++ b) = Some b.
Proof. unfold get_from. rewrite length_app, (proj2 (Nat.leb_le _ _)) by lia. by rewrite drop_app_length. Qed.

Lemma checked_add_small a b : Z.of_nat (a + b) < u64_mod -> checked_add a b = Some (a + b)%nat.
Proof. intros H. unfold checked_add. by destruct (Z.ltb_spec (Z.of_nat (a + b)) u64_mod); [|lia]. Qed.

Lemma vbr_loop_print ls rest s : Forall (fun n => (n <= OPUS_MAX_FRAME_BYTES)%nat) ls ->
  Z.of_nat s + 1275 * Z.of_nat (List.length ls) < u64_mod ->
  vbr_loop (List.length ls) (concat (frame_size_bytes <$> ls) ++ rest) s = Ok (rest, (s + sum_list ls)%nat).
Proof.
  intros Hls. revert s. induction Hls as [|n ls Hn Hls IH]; intros s Hs; cbn [List.length vbr_loop fmap list_fmap concat app sum_list sum_list_with foldr].
  { by rewrite Nat.add_0_r. }
  cbn [List.length] in Hs. rewrite <- app_assoc, parse_size_print by done. cbn [mbind res_mbind]. rewrite (proj2 (size_ok n) Hn). cbn [mbind res_mbind].
  rewrite get_from_app. cbn [ok_or mbind res_mbind]. unfold OPUS_MAX_FRAME_BYTES in Hn. rewrite checked_add_small by lia. cbn [ok_or mbind res_mbind].
  rewrite IH by lia. by rewrite Nat.add_assoc.
Qed.

Lemma vbr_loop_inv n fb s rest s' : all_bytes fb -> Z.of_nat s + 1275 * Z.of_nat n < u64_mod -> vbr_loop n fb s = Ok (rest, s') ->
  exists ls, List.length ls = n /\ Forall (fun n => (n <= OPUS_MAX_FRAME_BYTES)%nat) ls /\ fb = concat (frame_size_bytes <$> ls) ++ rest /\
    s' = (s + sum_list ls)%nat.
Proof.
  revert fb s. induction n as [|n IH]; intros fb s Hb Hs; cbn [vbr_loop].
  { intros [= -> ->]. exists []. by rewrite Nat.add_0_r. }
  intros ((k & u) & Hp & Hk)%bind_Ok_inv. destruct (parse_size_inv fb k u Hb Hp) as (Hk1 & -> & r & ->).
  rewrite (proj2 (size_ok k) Hk1), get_from_app in Hk. cbn [ok_or mbind res_mbind] in Hk.
  unfold OPUS_MAX_FRAME_BYTES in Hk1. rewrite checked_add_small in Hk by lia. cbn [ok_or mbind res_mbind] in Hk.
  apply Forall_app in Hb as [_ Hb]. destruct (IH r (s + k)%nat Hb ltac:(lia) Hk) as (ls & <- & Hls & -> & ->).
  exists (k :: ls). repeat split; [by constructor|by cbn; rewrite app_assoc|cbn; lia].
Qed.

Lemma vbr_loop_total n fb s : vbr_loop n fb s ≠ Panic.
Proof.
  revert fb s. induction n as [|n IH]; intros fb s; [done|]. cbn [vbr_loop]. pose proof (parse_size_total fb) as Hp.
  destruct (parse_opus_frame_size fb) as [[k u]|e|]; [|done|done]. cbn [mbind res_mbind].
  destruct (size_cases k) as [[_ ->]|[_ [e ->]]]; [|done]. cbn [mbind res_mbind].
  destruct (get_from u fb); [|done]. cbn [ok_or mbind res_mbind]. destruct (checked_add s k); [|done]. apply IH.
Qed.

Lemma padding_loop_print n field rest p i : padding_field n field -> Z.of_nat (p + n) < u64_mod ->
  padding_loop (field ++ rest) p i = Ok ((p + n)%nat, (i + List.length field)%nat).
Proof.
  intros Hf. revert p i. induction Hf as [b Hb|n l Hl IH]; intros p i Hs; cbn [app padding_loop List.length].
  - unfold u8_max. destruct (Z.eqb_spec b 255); [lia|]. rewrite checked_add_small by lia. done.
  - rewrite Z.eqb_refl, checked_add_small by lia. cbn [ok_or mbind res_mbind negb]. rewrite IH by lia. do 2 f_equal; lia.
Qed.

Lemma padding_loop_inv data p i p' i' : all_bytes data -> Z.of_nat p + 254 * Z.of_nat (List.length data) < u64_mod ->
  padding_loop data p i = Ok (p', i') ->
  exists n field rest, data = field ++ rest /\ padding_field n field /\ p' = (p + n)%nat /\ i' = (i + List.length field)%nat.
Proof.
  intros Hb. revert p i. induction Hb as [|b data Hb Hd IH]; intros p i Hs; [done|]. cbn [padding_loop List.length] in *. unfold is_byte, u8_max in *.
  destruct (Z.eqb_spec b 255) as [->|]; rewrite checked_add_small by lia; cbn [ok_or mbind res_mbind negb].
  - intros H. destruct (IH (p + 254)%nat (i + 1)%nat ltac:(lia) H) as (n & f & r & -> & Hf & -> & ->). exists (254 + n)%nat, (255 :: f), r.
    cbn [List.length]. repeat split; [by constructor|lia..].
  - intros [= <- <-]. exists (Z.to_nat b), [b], data. repeat split. constructor. lia.
Qed.

Lemma padding_loop_total data p i : padding_loop data p i ≠ Panic.
Proof.
  revert p i. induction data as [|b data IH]; intros p i; [done|]. cbn [padding_loop].
  destruct (checked_add p _); [|done]. cbn [ok_or mbind res_mbind]. destruct (negb _); [done|apply IH].
Qed.

(** Cutting a payload into frames of given lengths. *)
Lemma cut_frames ls (body : bytes) : (sum_list ls <= List.length body)%nat ->
  exists fs, List.length <$> fs = ls /\ body = concat fs ++ drop (sum_list ls) body.
Proof.
  revert body. induction ls as [|n ls IH]; intros body Hl; [by exists []|]. cbn [sum_list_with] in *. change (id n) with n in *.
  destruct (IH (drop n body)) as (fs & Hfs & Hb); [rewrite length_drop; lia|]. exists (take n body :: fs). cbn [fmap list_fmap concat]. split.
  - rewrite length_take. rewrite Hfs. f_equal. lia.
  - rewrite drop_drop in Hb. rewrite <- app_assoc, <- Hb. by rewrite take_drop.
Qed.

Lemma length_concat_frames (fs : list bytes) : List.length (concat fs) = sum_list (List.length <$> fs).
Proof. induction fs as [|f fs IH]; [done|]. cbn. by rewrite length_app, IH. Qed.

Lemma sum_list_same (ls : list nat) n : Forall (eq n) ls -> sum_list ls = (List.length ls * n)%nat.
Proof. induction 1 as [|? ls <- _ IH]; [done|]. cbn. by rewrite IH. Qed.

(** What follows the frame count: the padding is cut off, the frames fit. *)
Definition strip_padding (count_byte : Z) (frame_bytes : bytes) : R bytes :=
  if has_bits count_byte 0x40 then
    '(padding, used) ← parse_opus_padding_len frame_bytes;
    frame_bytes ← ok_or (InvalidPacket "code 3 padding header exceeds packet length") (get_from used frame_bytes);
    match checked_sub (List.length frame_bytes) padding with
    | None => invalid_opus_packet "code 3 padding exceeds packet length"
    | Some data_len => slice frame_bytes 0 data_len
    end
  else Ok frame_bytes.

Definition validate_frames (count_byte : Z) (frame_bytes : bytes) (frame_count : nat) : R () :=
  if has_bits count_byte 0x80 then validate_opus_vbr_frame_sizes frame_bytes frame_count
  else if negb (List.length frame_bytes mod frame_count =? 0)%nat then invalid_opus_packet "code 3 CBR payload is not frame-aligned"
  else validate_opus_frame_size (List.length frame_bytes / frame_count).

Definition short (fs : list bytes) : Prop := Forall (fun f => (List.length f <= OPUS_MAX_FRAME_BYTES)%nat) fs.

Lemma strip_padding_iff count fb body : all_bytes fb -> (List.length fb <= MAX_PACKET_BYTES)%nat ->
  strip_padding count fb = Ok body <-> exists field pad, fb = field ++ body ++ pad /\ padded count field pad.
Proof.
  intros Hb Hl. unfold strip_padding, padded, parse_opus_padding_len, MAX_PACKET_BYTES in *. destruct (has_bits count 0x40).
  2: { split; [intros [= ->]; exists [], []; by rewrite app_nil_r|]. intros (f & p & -> & -> & ->). by rewrite app_nil_r. }
  split.
  - intros ((p & u) & Hp & H)%bind_Ok_inv. destruct (padding_loop_inv fb 0 0 p u Hb) as (n & f & r & -> & Hf & -> & ->); [unfold u64_mod; lia|done|].
    cbn [Nat.add] in H. rewrite get_from_app in H. cbn [ok_or mbind res_mbind] in H. unfold checked_sub in H.
    destruct (Nat.leb_spec n (List.length r)); [|done]. rewrite slice_ok in H by lia. injection H as <-. rewrite drop_0, Nat.sub_0_r.
    exists f, (drop (List.length r - n) r). rewrite take_drop. split; [done|]. rewrite length_drop.
    by replace (List.length r - (List.length r - n))%nat with n by lia.
  - intros (f & p & -> & Hf). rewrite !length_app in Hl. rewrite (padding_loop_print _ f (body ++ p) 0 0 Hf) by (unfold u64_mod; lia). cbn [mbind res_mbind Nat.add].
    rewrite get_from_app. cbn [ok_or mbind res_mbind]. unfold checked_sub. rewrite length_app, (proj2 (Nat.leb_le _ _)) by lia.
    by rewrite Nat.add_sub, slice_app_l.
Qed.

Lemma strip_padding_total count fb : strip_padding count fb ≠ Panic.
Proof.
  unfold strip_padding, parse_opus_padding_len. destruct (has_bits count 0x40); [|done]. pose proof (padding_loop_total fb 0 0) as Hp.
  destruct (padding_loop fb 0 0) as [[p u]|e|]; [|done|done]. cbn [mbind res_mbind]. destruct (get_from u fb) as [r|]; [|done]. cbn [ok_or mbind res_mbind].
  unfold checked_sub. destruct (Nat.leb_spec p (List.length r)); [|done]. by rewrite slice_ok by lia.
Qed.

Lemma vbr_frames_iff n body : (1 <= n <= 48)%nat -> all_bytes body ->
  validate_opus_vbr_frame_sizes body n = Ok () <->
  exists init f, List.length (init ++ [f]) = n /\ short (init ++ [f]) /\ body = concat (frame_size_bytes <$> (List.length <$> init)) ++ concat (init ++ [f]).
Proof.
  intros Hn Hb. unfold validate_opus_vbr_frame_sizes, short. split.
  - intros ((r & k) & Hv & H)%bind_Ok_inv. destruct (vbr_loop_inv (n - 1) body 0 r k Hb) as (ls & Hls & Hs & -> & ->); [unfold u64_mod; lia|done|].
    cbn [Nat.add] in *. destruct (Nat.ltb_spec (List.length r) (sum_list ls)); [done|]. apply size_ok in H. destruct (cut_frames ls r) as (init & <- & Hr); [done|].
    exists init, (drop (sum_list (List.length <$> init)) r). rewrite length_fmap in Hls. rewrite length_app. cbn [List.length]. repeat split; [lia| |].
    + apply Forall_app. rewrite Forall_fmap in Hs. split; [done|]. constructor; [|done]. by rewrite length_drop.
    + rewrite concat_app. cbn [concat]. rewrite app_nil_r. by rewrite <- Hr.
  - intros (init & f & <- & Hs & ->). rewrite length_app in *. cbn [List.length] in *. rewrite Nat.add_sub. apply Forall_app in Hs as [Hi [Hf _]%Forall_cons].
    pose proof (vbr_loop_print (List.length <$> init) (concat (init ++ [f])) 0) as Hv. rewrite length_fmap in Hv.
    rewrite Hv; [|by rewrite Forall_fmap|unfold u64_mod; lia]. cbn [mbind res_mbind Nat.add].
    rewrite concat_app, length_app, length_concat_frames. cbn [concat]. rewrite app_nil_r.
    destruct (Nat.ltb_spec (sum_list (List.length <$> init) + List.length f) (sum_list (List.length <$> init))); [lia|].
    apply size_ok. by replace (sum_list (List.length <$> init) + List.length f - sum_list (List.length <$> init))%nat with (List.length f) by lia.
Qed.

Lemma cbr_frames_iff n (body : bytes) : (1 <= n)%nat ->
  (List.length body mod n = 0 /\ (List.length body / n <= OPUS_MAX_FRAME_BYTES))%nat <->
  exists fs, List.length fs = n /\ short fs /\ exists k, Forall (fun f => List.length f = k) fs /\ body = concat fs.
Proof.
  intros Hn. split.
  - intros [Hm Hk]. pose proof (Nat.div_mod (List.length body) n ltac:(lia)) as Hd. set (k := (List.length body / n)%nat) in *.
    assert (sum_list (replicate n k) = (n * k)%nat) as Hsum by (rewrite sum_list_replicate; lia).
    destruct (cut_frames (replicate n k) body) as (fs & Hfs & Hbody); [lia|].
    assert (Forall (fun f => List.length f = k) fs) as Hall.
    { assert (Forall (fun m => m = k) (List.length <$> fs)) as Ha by (rewrite Hfs; by apply Forall_replicate). by rewrite Forall_fmap in Ha. }
    exists fs. repeat split.
    + by rewrite <- (length_fmap List.length), Hfs, length_replicate.
    + eapply Forall_impl; [exact Hall|]. by intros f ->.
    + exists k. split; [done|]. rewrite Hbody at 1. rewrite drop_ge by lia. by rewrite app_nil_r.
  - intros (fs & Hl & Hs & k & Hk & ->). assert (List.length (concat fs) = (n * k)%nat) as ->.
    { rewrite length_concat_frames, (sum_list_same _ k); [by rewrite length_fmap, Hl|]. rewrite Forall_fmap. by eapply Forall_impl; [exact Hk|]; intros f <-. }
    rewrite (Nat.mul_comm n k), Nat.Div0.mod_mul, Nat.div_mul by lia. split; [done|]. destruct fs as [|f fs]; [cbn in Hl; lia|].
    apply Forall_cons in Hk as [<- _]. by apply Forall_cons in Hs as [Hf _].
Qed.

Lemma validate_frames_iff count n body : (1 <= n <= 48)%nat -> all_bytes body ->
  validate_frames count body n = Ok () <-> exists fs, List.length fs = n /\ short fs /\ packed count fs body.
Proof.
  intros Hn Hb. unfold validate_frames, packed. destruct (has_bits count 0x80).
  - rewrite vbr_frames_iff by done. naive_solver.
  - rewrite <- cbr_frames_iff, <- size_ok by lia. destruct (Nat.eqb_spec (List.length body mod n) 0); naive_solver.
Qed.

Lemma validate_frames_total count body n : validate_frames count body n ≠ Panic.
Proof.
  unfold validate_frames, validate_opus_vbr_frame_sizes, validate_opus_frame_size. destruct (has_bits count 0x80).
  - pose proof (vbr_loop_total (n - 1) body 0) as Hv. destruct (vbr_loop (n - 1) body 0) as [[r k]|e|]; [|done|done]. cbn [mbind res_mbind].
    repeat case_match; done.
  - repeat case_match; done.
Qed.

Lemma code3_unfold count fb sp :
  opus_code3_frame_count (count :: fb) sp =
    let n := Z.to_nat (Z.land count 0x3f) in
    if (n =? 0)%nat || (48 <? n)%nat then invalid_opus_packet "code 3 packet has invalid frame count"
    else if sp * Z.of_nat n >? OPUS_MAX_PACKET_SAMPLES_PER_CHANNEL then invalid_opus_packet "code 3 packet duration exceeds 120 ms"
    else body ← strip_padding count fb; _ ← validate_frames count body n; Ok n.
Proof. reflexivity. Qed.

Lemma code3_iff payload sp n : all_bytes payload -> (List.length payload <= MAX_PACKET_BYTES)%nat ->
  opus_code3_frame_count payload sp = Ok n <->
  sp * Z.of_nat n <= OPUS_MAX_PACKET_SAMPLES_PER_CHANNEL /\
  exists count fs field pad body, payload = count :: field ++ body ++ pad /\ List.length fs = n /\ (1 <= n <= 48)%nat /\ Z.land count 0x3f = Z.of_nat n /\
    padded count field pad /\ packed count fs body /\ short fs.
Proof.
  intros Hb Hl. destruct payload as [|count fb]; [split; [done|]; naive_solver|]. apply Forall_cons in Hb as [Hc Hb]. cbn [List.length] in Hl.
  rewrite code3_unfold. cbv zeta. assert (0 <= Z.land count 0x3f) as H0 by (apply Z.land_nonneg; lia). split.
  - destruct (_ || _) eqn:Hn; [done|]. apply orb_false_iff in Hn as [Hn1 Hn2]. apply Nat.eqb_neq in Hn1. apply Nat.ltb_ge in Hn2.
    destruct (Z.gtb_spec (sp * Z.of_nat (Z.to_nat (Z.land count 0x3f))) OPUS_MAX_PACKET_SAMPLES_PER_CHANNEL) as [|Hd]; [done|].
    intros (body & Hs & H)%bind_Ok_inv. apply bind_Ok_inv in H as ([] & Hv & [= <-]). split; [done|].
    apply strip_padding_iff in Hs as (field & pad & -> & Hp); [|done|lia]. apply Forall_app in Hb as [_ [Hb _]%Forall_app].
    apply validate_frames_iff in Hv as (fs & Hfs & Hsh & Hpk); [|lia|done]. exists count, fs, field, pad, body. repeat split; auto; lia.
  - intros (Hd & c & fs & field & pad & body & [= <- ->] & Hfs & Hn & Hc' & Hp & Hpk & Hsh). rewrite Hc', Nat2Z.id.
    destruct (Nat.eqb_spec n 0); [lia|]. destruct (Nat.ltb_spec 48 n); [lia|]. cbn [orb].
    destruct (Z.gtb_spec (sp * Z.of_nat n) OPUS_MAX_PACKET_SAMPLES_PER_CHANNEL); [lia|].
    rewrite (proj2 (strip_padding_iff count (field ++ body ++ pad) body Hb ltac:(lia))) by eauto. cbn [mbind res_mbind].
    apply Forall_app in Hb as [_ [Hb _]%Forall_app]. by rewrite (proj2 (validate_frames_iff count n body Hn Hb)) by eauto.
Qed.

Lemma code3_total payload sp : opus_code3_frame_count payload sp ≠ Panic.
Proof.
  destruct payload as [|count fb]; [done|]. rewrite code3_unfold. cbv zeta. destruct (_ || _); [done|]. destruct (_ >? _); [done|].
  pose proof (strip_padding_total count fb) as Hp. destruct (strip_padding count fb) as [body|e|]; [|done|done]. cbn [mbind res_mbind].
  pose proof (validate_frames_total count body (Z.to_nat (Z.land count 0x3f))) as Hv. by destruct (validate_frames _ _ _).
Qed.

(** The frame count of a whole packet, against the grammar. *)
Lemma frame_count_total toc payload sp : opus_packet_frame_count (toc :: payload) sp ≠ Panic.
Proof.
  unfold opus_packet_frame_count. cbn [List.length]. rewrite slice_ok by (cbn; lia). cbn [mbind res_mbind index unwrap lookup list_lookup].
  destruct (_ =? 0). { by destruct (size_cases (List.length (take (S (List.length payload) - 1) (drop 1 (toc :: payload))))) as [[_ ->]|[_ [e ->]]]. }
  destruct (_ =? 1). { destruct (negb _); [done|]. by edestruct size_cases as [[_ ->]|[_ [e ->]]]. }
  destruct (_ =? 2); [|apply code3_total]. set (p := take _ _). pose proof (parse_size_total p) as Hp. destruct (parse_opus_frame_size p) as [[k u]|e|]; [|done|done].
  cbn [mbind res_mbind]. destruct (checked_sub _ _) as [r|]; [|done]. cbn [ok_or mbind res_mbind]. destruct (_ <? _)%nat; [done|].
  destruct (size_cases k) as [[_ ->]|[_ [e ->]]]; [|done]. cbn [mbind res_mbind]. by destruct (size_cases (r - k)) as [[_ ->]|[_ [e ->]]].
Qed.

Lemma frame_count_iff toc payload sp n : all_bytes payload -> (List.length payload < MAX_PACKET_BYTES)%nat ->
  opus_packet_frame_count (toc :: payload) sp = Ok n <->
  exists fs, opus_packet toc fs (toc :: payload) /\ List.length fs = n /\ short fs /\
    (Z.land toc 3 = 3 -> sp * Z.of_nat n <= OPUS_MAX_PACKET_SAMPLES_PER_CHANNEL).
Proof.
  intros Hb Hl. unfold opus_packet_frame_count. cbn [List.length]. rewrite slice_ok by (cbn; lia). cbn [mbind res_mbind index unwrap lookup list_lookup].
  replace (take (S (List.length payload) - 1) (drop 1 (toc :: payload))) with payload by (symmetry; apply take_ge; cbn; lia).
  destruct (Z.eqb_spec (Z.land toc 3) 0) as [H0|H0]; [|destruct (Z.eqb_spec (Z.land toc 3) 1) as [H1|H1]; [|destruct (Z.eqb_spec (Z.land toc 3) 2) as [H2|H2]]].
  - split.
    + intros ([] & Hs%size_ok & [= <-])%bind_Ok_inv. exists [payload]. repeat split; [by constructor|by constructor|lia].
    + intros (fs & Hp & <- & Hs & _). inversion Hp; subst; try lia. apply Forall_cons in Hs as [Hs _]. by rewrite (proj2 (size_ok _) Hs).
  - split.
    + destruct (Nat.eqb_spec (List.length payload mod 2) 0) as [Hm|]; [|done]. cbn [negb]. intros ([] & Hs%size_ok & [= <-])%bind_Ok_inv.
      destruct (proj1 (cbr_frames_iff 2 payload ltac:(lia)) (conj Hm Hs)) as ([|f [|g [|]]] & Hf & Hsh & k & Hk & ->); try done.
      exists [f; g]. repeat split; [|done|lia]. cbn [concat]. rewrite app_nil_r. constructor; [done|].
      apply Forall_cons in Hk as [-> [-> _]%Forall_cons]. done.
    + intros (fs & Hp & <- & Hs & _). inversion Hp as [|? f g _ Hfg| |]; subst; try lia. cbn [List.length].
      destruct (proj2 (cbr_frames_iff 2 (f ++ g) ltac:(lia))) as [Hm Hk].
      { exists [f; g]. repeat split; [done|]. exists (List.length f). split; [by repeat constructor|]. cbn. by rewrite app_nil_r. }
      rewrite Hm. cbn [negb]. by rewrite (proj2 (size_ok _) Hk).
  - split.
    + intros ((k & u) & Hp & H)%bind_Ok_inv. destruct (parse_size_inv payload k u Hb Hp) as (Hk & -> & r & ->). cbv beta iota in H.
      unfold checked_sub in H. rewrite length_app in H. destruct (Nat.leb_spec (List.length (frame_size_bytes k)) (List.length (frame_size_bytes k) + List.length r)); [|lia].
      cbn [ok_or mbind res_mbind] in H. replace (List.length (frame_size_bytes k) + List.length r - List.length (frame_size_bytes k))%nat with (List.length r) in H by lia.
      destruct (Nat.ltb_spec (List.length r) k); [done|]. rewrite (proj2 (size_ok k) Hk) in H. cbn [mbind res_mbind] in H.
      apply bind_Ok_inv in H as ([] & Hs%size_ok & [= <-]). exists [take k r; drop k r].
      assert (List.length (take k r) = k) as Ht by (rewrite length_take; lia). repeat split; [| |lia].
      * replace (frame_size_bytes k ++ r) with (frame_size_bytes (List.length (take k r)) ++ take k r ++ drop k r) by (by rewrite Ht, take_drop). by constructor.
      * constructor; [by rewrite Ht|]. constructor; [by rewrite length_drop|done].
    + intros (fs & Hp & <- & Hs & _). inversion Hp as [| |? f g|]; subst; try lia. apply Forall_cons in Hs as [Hf [Hg _]%Forall_cons].
      rewrite parse_size_print by done. cbn [mbind res_mbind]. unfold checked_sub. rewrite !length_app, (proj2 (Nat.leb_le _ _)) by lia.
      cbn [ok_or mbind res_mbind]. rewrite (Nat.add_comm (List.length (frame_size_bytes _))), Nat.add_sub. destruct (Nat.ltb_spec (List.length f + List.length g) (List.length f)); [lia|].
      rewrite (proj2 (size_ok _) Hf). cbn [mbind res_mbind]. rewrite (Nat.add_comm (List.length f)), Nat.add_sub. by rewrite (proj2 (size_ok _) Hg).
  - rewrite code3_iff by (done || lia). pose proof (land3_cases toc H0 H1 H2) as H3. split.
    + intros (Hd & count & fs & field & pad & body & -> & <- & Hn & Hc & Hp & Hpk & Hsh). exists fs. repeat split; auto. by constructor.
    + intros (fs & Hp & <- & Hs & Hd). inversion Hp; subst; try lia. split; [auto|]. naive_solver.
Qed.

(** C31. The checks of [Packet::from_bytes] return for every byte string, and they
    accept exactly the Opus packets of at most 4096 bytes, in any of the
    packings of RFC 6716, whose frames have at most 1275 bytes each and come to
    20 ms of audio (960 samples at 48 kHz). *)
Theorem validate_exact b :
  all_bytes b ->
  validate_packet_bytes b ≠ Panic /\
  (validate_packet_bytes b = Ok () <->
   (List.length b <= MAX_PACKET_BYTES)%nat /\
   exists toc fs, opus_packet toc fs b /\ Forall (fun f => (List.length f <= OPUS_MAX_FRAME_BYTES)%nat) fs /\
     frame_samples toc * Z.of_nat (List.length fs) = SAMPLES_PER_CHANNEL).
Proof.
  intros Hb. destruct b as [|toc payload]; [split; [done|]; split; [done|]; intros (_ & toc & fs & Hp & _); inversion Hp|].
  unfold validate_packet_bytes. destruct (Nat.ltb_spec MAX_PACKET_BYTES (List.length (toc :: payload))) as [Hl|Hl]; [split; [done|]; split; [done|lia]|].
  apply Forall_cons in Hb as [Ht Hb]. cbn [List.length] in Hl. unfold opus_packet_samples_per_channel. cbn [index unwrap lookup list_lookup mbind res_mbind].
  destruct (samples_table toc Ht) as [-> Hr]. pose proof (frame_count_total toc payload (frame_samples toc)) as Hnp.
  assert (forall n, opus_packet_frame_count (toc :: payload) (frame_samples toc) = Ok n <-> _) as Hiff
    by (intros n; apply (frame_count_iff toc payload (frame_samples toc) n Hb ltac:(lia))).
  unfold SAMPLES_PER_CHANNEL, OPUS_MAX_PACKET_SAMPLES_PER_CHANNEL, SAMPLE_RATE_HZ, BLOCK_DURATION_MS in *.
  change (48000 * 120 / 1000) with 5760 in *. change (48000 * 20 / 1000) with 960 in *.
  split.
  - destruct (opus_packet_frame_count _ _) as [n|e|]; [|done|done]. cbn [mbind res_mbind]. destruct (checked_mul _ _) as [s|]; [|done].
    cbn [ok_or mbind res_mbind]. destruct (s >? 5760); [done|]. cbn [mbind res_mbind]. by destruct (negb _).
  - split.
    + intros (s & Hs & H)%bind_Ok_inv. apply bind_Ok_inv in Hs as (n & Hn & Hs). apply bind_Ok_inv in Hs as (m & Hm & Hs).
      split; [cbn; lia|]. exists toc. apply Hiff in Hn as (fs & Hp & <- & Hsh & _). exists fs. split; [done|]. split; [done|].
      unfold checked_mul in Hm. destruct (_ <? u64_mod); [|done]. injection Hm as <-. destruct (_ >? 5760); [done|]. injection Hs as <-.
      by destruct (Z.eqb_spec (frame_samples toc * Z.of_nat (List.length fs)) 960).
    + intros (_ & toc' & fs & Hp & Hsh & Hs). assert (toc' = toc) as -> by (by inversion Hp).
      rewrite (proj2 (Hiff (List.length fs))) by (exists fs; repeat split; auto; lia). cbn [mbind res_mbind].
      unfold checked_mul, u64_mod. rewrite Hs. done.
Qed.

Lemma validate_exact_witness : validate_packet_bytes [0xf8; 0xff; 0xfe] = Ok () /\ validate_packet_bytes [0xff; 0x42; 2; 7; 8; 0; 0] ≠ Panic.
Proof.
  split; [|apply (validate_exact [0xff; 0x42; 2; 7; 8; 0; 0]); compute_bytes].
  apply (validate_exact [0xf8; 0xff; 0xfe]); [compute_bytes|]. split; [cbn; unfold MAX_PACKET_BYTES; lia|].
  exists 0xf8, [[0xff; 0xfe]]. split; [by constructor|]. split; [|reflexivity]. constructor; [cbn; unfold OPUS_MAX_FRAME_BYTES; lia|constructor].
Defined.

(** The tests of the source: a silence frame is 20 ms, a lone 10 ms byte is not;
    two 10 ms frames with padding are 20 ms. *)
Example silence_accepted : from_bytes [0xf8; 0xff; 0xfe] = Ok {| packet_bytes := [0xf8; 0xff; 0xfe] |}.
Proof. reflexivity. Qed.
Example short_rejected : from_bytes [0xf0] = Err (UnsupportedDiscordPacketDuration 960 480).
Proof. reflexivity. Qed.
Example padded_pair_accepted : validate_packet_bytes [0xf3; 0x42; 2; 7; 8; 0; 0] = Ok ().
Proof. reflexivity. Qed.

(** ** Batches *)

(** [batch_holds b outs]: the spans of the batch read back [outs]. *)
Definition batch_holds (b : PacketBatch) (outs : list bytes) : Prop := forall E, into_packets (E := E) b = Ok outs.

Lemma at_span_app {E} b x s out : at_span (E := E) b s = Ok out -> at_span (E := E) (b ++ x) s = Ok out.
Proof.
  unfold at_span. intros [Hl ->]%slice_Ok_inv. rewrite slice_ok by (rewrite ?length_app; lia). f_equal.
  rewrite drop_app_le by lia. rewrite take_app_le; [done|]. rewrite length_drop. lia.
Qed.

Lemma at_spans_app {E} b x l outs : at_spans (E := E) b l = Ok outs -> at_spans (E := E) (b ++ x) l = Ok outs.
Proof.
  revert outs. induction l as [|s l IH]; intros outs; [done|]. cbn [at_spans]. intros (o & Ho & (os & Hos & [= <-])%bind_Ok_inv)%bind_Ok_inv.
  rewrite (at_span_app _ _ _ _ Ho). cbn [mbind res_mbind]. by rewrite (IH os Hos).
Qed.

Lemma at_spans_snoc {E} b l outs s out : at_spans (E := E) b l = Ok outs -> at_span (E := E) b s = Ok out -> at_spans (E := E) b (l ++ [s]) = Ok (outs ++ [out]).
Proof.
  intros Hl Hs. revert outs Hl. induction l as [|t l IH]; intros outs; cbn [at_spans app].
  - intros [= <-]. by rewrite Hs.
  - intros (o & Ho & (os & Hos & [= <-])%bind_Ok_inv)%bind_Ok_inv. rewrite Ho. cbn [mbind res_mbind]. by rewrite (IH os Hos).
Qed.

Lemma batch_new_holds : batch_holds batch_new [].
Proof. done. Qed.

(** Adding a packet appends it and leaves the earlier ones as they were; when
    the encoder fails the batch holds what it held. *)
Lemma encode_packet_holds {E A} (encode : bytes -> res E nat * bytes * A) b outs out a : batch_holds b outs -> encode [] = (Ok (List.length out), out, a) ->
  exists b', encode_packet encode b = (Ok (), b', a) /\ batch_holds b' (outs ++ [out]).
Proof.
  intros Hb He. unfold encode_packet. rewrite He, Nat.eqb_refl. eexists. split; [done|]. intros F. unfold into_packets. cbn [batch_bytes batch_packets].
  apply at_spans_snoc; [apply at_spans_app, Hb|]. unfold at_span. cbn [offset span_len]. by apply slice_app_r.
Qed.

Lemma encode_packet_failed {E A} (encode : bytes -> res E nat * bytes * A) b outs e out a : batch_holds b outs -> encode [] = (Err e, out, a) ->
  exists b', encode_packet encode b = (Err e, b', a) /\ batch_holds b' outs.
Proof. intros Hb He. unfold encode_packet. rewrite He. by eexists. Qed.

End OpusPacket.
