(* ===== verification/Send.v ===== *)
(** * The send pipeline of a connection (cacophony/src/connection/send.rs)

    A frame to send is encrypted by DAVE when the connection requires it, cut
    into RTP payloads, and each payload becomes one datagram of the stream of
    its media type.  [ConnectionDriver] is the state of the driver task: the
    receive side of [Pipeline], the send side, what waits for the media to be
    ready, and what has gone out: datagrams, gateway commands and answers to
    the user's requests, the close signal and the close frames written.

    [udp n] and [ws n] are the outcomes of the [n]-th send on the UDP socket
    and on the websocket.  A one-shot reply channel is a number. *)

From S2P Require Import Prelude Effects Frame Rtp Codecs Outbound RtpPayload Packetize Queue Stats Assembler DaveGateway Gateway.
From S2P Require Import ReadyFrames Pipeline OpusPacket Ratchet Gcm Cryptor Session Coordinator.
Import Queue.Timers RtpPayload.RtpPayload.

Module Send.

(** What the send path needs of DAVE. *)
Class DaveSend (D : Pipeline.DaveMedia) := { dave_encrypt : MediaCodec -> bytes -> st Pipeline.dave_t EncryptError bytes }.

(** The part of [errors::Error] the driver returns.  The errors of the gateway
    handlers and of the DAVE pump, which end the driver, are values of [Gateway]
    and [Coordinator]; here only that they occurred is kept. *)
Inductive Error :=
| ESend (e : Rtp.Error)
| EDaveEncrypt (e : EncryptError)
| EMissingVideoSsrc (codec : MediaCodec)
| EMediaCodecNotNegotiated (codec : MediaCodec) (negotiated_codec : option MediaCodec)
| EIo
| EWebSocket
| EClosed
| ETimeout (duration : Z)
| EActiveOpusPlayout
| EFrameStreamActive
| EHeartbeatAckTimeout
| EGatewayEvent
| EDavePump.

(** ** Opus playouts: the data of playout.rs *)
Abbreviation reply := nat.

Inductive PlayoutPayload :=
| PayloadPacket (p : OpusPacket.Packet)
| PayloadBatch (b : bytes) (span : OpusPacket.PacketSpan).

Record PlayoutFrame := { payload : PlayoutPayload }.

Record ActiveOpusPlayoutStats := {
  packets : nat; first_packet : option Outbound.OutboundPacket; last_packet : option Outbound.OutboundPacket;
  first_packet_sent_at : option Z; first_packet_sent_after_start : option Z; expected_media : Z;
  send_call : Sliding.SlidingStats; inter_frame_gap : Sliding.SlidingStats; scheduler_lateness : Sliding.SlidingStats;
  late_wakes_over_5ms : nat; late_wakes_over_20ms : nat; underflows : nat; underflow_wait : Sliding.SlidingStats;
  dropped_stale_frames : nat; clock_rebases : nat; clock_rebase_wait : Sliding.SlidingStats;
  last_send_started_at : option Z; dave_enabled : bool }.

Record ActiveOpusPlayout := {
  playout_id : Z; started_at : Z; frames : list PlayoutFrame; next_send_at : option Z; media_ready_deadline : option Z;
  finish_response : option reply; speaking : bool; stats : ActiveOpusPlayoutStats }.

(** ** The pipeline *)
Record SendPipeline := {
  outbound_audio_rtp : Outbound.OutboundRtpState;
  outbound_video_rtp : option Outbound.OutboundRtpState;
  active_playout : option ActiveOpusPlayout;
  next_playout_id : Z }.

Record NegotiatedVideoMedia := { video_media_codec : MediaCodec; video_media_ssrc : Z }.

Definition video_binding (v : NegotiatedVideoMedia) : Outbound.OutboundCodecBinding :=
  Outbound.binding_new (video_media_codec v) (video_media_ssrc v).

(** What the gateway's Ready event said; it does not change afterwards. *)
Record GatewayReady := { ready_ssrc : Z; ready_streams : list Gateway.GatewayReadyStream }.

Definition negotiated_video_media (ready : GatewayReady) (st : Gateway.ConnectionInternalState) : option NegotiatedVideoMedia :=
  match description ← Gateway.session_description st; name ← Gateway.sd_video_codec description; Codecs.video_codec name,
        Gateway.primary_video_stream (ready_streams ready) with
  | Some c, Some stream => Some {| video_media_codec := c; video_media_ssrc := stream.1 |}
  | _, _ => None
  end.

(** [random] is what the random number generator hands out for a new stream. *)
Definition negotiated_video_rtp (random : option bytes) (ready : GatewayReady) (st : Gateway.ConnectionInternalState)
    : res Rtp.Error (option Outbound.OutboundRtpState) :=
  match negotiated_video_media ready st with
  | None => Ok None
  | Some video => s ← Outbound.outbound_new random (video_binding video); Ok (Some s)
  end.

Definition send_pipeline_new (random_audio random_video : option bytes) (ready : GatewayReady) (st : Gateway.ConnectionInternalState)
    : res Rtp.Error SendPipeline :=
  audio ← Outbound.outbound_new random_audio (Outbound.binding_new Opus (ready_ssrc ready));
  video ← negotiated_video_rtp random_video ready st;
  Ok {| outbound_audio_rtp := audio; outbound_video_rtp := video; active_playout := None; next_playout_id := 1 |}.

Definition set_video (v : option Outbound.OutboundRtpState) (p : SendPipeline) : SendPipeline :=
  {| outbound_audio_rtp := outbound_audio_rtp p; outbound_video_rtp := v; active_playout := active_playout p; next_playout_id := next_playout_id p |}.
Definition set_audio (a : Outbound.OutboundRtpState) (p : SendPipeline) : SendPipeline :=
  {| outbound_audio_rtp := a; outbound_video_rtp := outbound_video_rtp p; active_playout := active_playout p; next_playout_id := next_playout_id p |}.
Definition set_playout (a : option ActiveOpusPlayout) (id : Z) (p : SendPipeline) : SendPipeline :=
  {| outbound_audio_rtp := outbound_audio_rtp p; outbound_video_rtp := outbound_video_rtp p; active_playout := a; next_playout_id := id |}.

Definition update_negotiated_media (random : option bytes) (ready : GatewayReady) (st : Gateway.ConnectionInternalState) (p : SendPipeline)
    : res Rtp.Error SendPipeline :=
  match negotiated_video_media ready st with
  | Some video =>
      match outbound_video_rtp p with
      | Some rtp =>
          if Outbound.bind_ssrc (Outbound.binding rtp) =? video_media_ssrc video
          then Ok (set_video (Some (Outbound.update_binding (video_binding video) rtp)) p)
          else s ← Outbound.outbound_new random (video_binding video); Ok (set_video (Some s) p)
      | None => s ← Outbound.outbound_new random (video_binding video); Ok (set_video (Some s) p)
      end
  | None => Ok (set_video None p)
  end.

(** ** The driver *)
Record PendingMediaReadyWait := { wait_response : reply; wait_max_wait : Z }.

Record PendingMediaFrameSend := {
  send_codec : MediaCodec; send_frame : bytes; send_duration : Z; send_response : reply; send_max_wait : Z }.

(** [OpusPlayoutStats] *)
Record OpusPlayoutStats := {
  stats_packets : nat; stats_first_packet : option Outbound.OutboundPacket; stats_last_packet : option Outbound.OutboundPacket;
  stats_first_sent_at : option Z; stats_first_sent_after_start : option Z; wall_elapsed : Z; stats_expected_media : Z;
  stats_send_call : Sliding.DurationDistribution; stats_inter_frame_gap : Sliding.DurationDistribution;
  stats_scheduler_lateness : Sliding.DurationDistribution; stats_late_wakes_over_5ms : nat; stats_late_wakes_over_20ms : nat;
  stats_underflows : nat; stats_underflow_wait : Sliding.DurationDistribution; stats_dropped_stale_frames : nat;
  stats_clock_rebases : nat; stats_clock_rebase_wait : Sliding.DurationDistribution; stats_dave_enabled : bool }.

Inductive UdpOutcome := UdpSent | UdpFailed | UdpClosedFirst.

(** An answer to a request, with the reply channel it goes to. *)
Inductive Answer :=
| AnswerPlayoutId (r : Error + Z)
| AnswerPlayoutStats (r : Error + OpusPlayoutStats)
| AnswerPacket (r : Error + Outbound.OutboundPacket)
| AnswerStatus (r : Error + Pipeline.DaveMediaStatus)
| AnswerStream (r : Error + ()).

Section Send.
Context {R : Assembler.FrameRaw} {AEAD : Rtp.TransportAead} {D : Pipeline.DaveMedia} {DS : DaveSend D}.
Context (clock : nat -> Z) (udp : nat -> UdpOutcome) (ws : nat -> bool) (ready : GatewayReady).

Record ConnectionDriver := {
  base : Pipeline.Driver;
  send : SendPipeline;
  pending_media_ready_waits : DeadlineQueue (T := PendingMediaReadyWait);
  pending_media_ready_sends : DeadlineQueue (T := PendingMediaFrameSend);
  wire : list bytes;
  udp_count : nat;
  commands : list Gateway.GatewayCommand;
  ws_count : nat;
  answers : list (reply * Answer);
  closed : bool;
  close_frames : nat }.

Definition with_base (b : Pipeline.Driver) (d : ConnectionDriver) : ConnectionDriver :=
  {| base := b; send := send d; pending_media_ready_waits := pending_media_ready_waits d; pending_media_ready_sends := pending_media_ready_sends d;
     wire := wire d; udp_count := udp_count d; commands := commands d; ws_count := ws_count d; answers := answers d; closed := closed d; close_frames := close_frames d |}.
Definition with_send (p : SendPipeline) (d : ConnectionDriver) : ConnectionDriver :=
  {| base := base d; send := p; pending_media_ready_waits := pending_media_ready_waits d; pending_media_ready_sends := pending_media_ready_sends d;
     wire := wire d; udp_count := udp_count d; commands := commands d; ws_count := ws_count d; answers := answers d; closed := closed d; close_frames := close_frames d |}.
Definition with_waits (w : DeadlineQueue (T := PendingMediaReadyWait)) (s : DeadlineQueue (T := PendingMediaFrameSend)) (d : ConnectionDriver)
    : ConnectionDriver :=
  {| base := base d; send := send d; pending_media_ready_waits := w; pending_media_ready_sends := s;
     wire := wire d; udp_count := udp_count d; commands := commands d; ws_count := ws_count d; answers := answers d; closed := closed d; close_frames := close_frames d |}.
Definition with_wire (l : list bytes) (d : ConnectionDriver) : ConnectionDriver :=
  {| base := base d; send := send d; pending_media_ready_waits := pending_media_ready_waits d; pending_media_ready_sends := pending_media_ready_sends d;
     wire := wire d ++ l; udp_count := S (udp_count d); commands := commands d; ws_count := ws_count d; answers := answers d; closed := closed d; close_frames := close_frames d |}.
Definition with_commands (l : list Gateway.GatewayCommand) (d : ConnectionDriver) : ConnectionDriver :=
  {| base := base d; send := send d; pending_media_ready_waits := pending_media_ready_waits d; pending_media_ready_sends := pending_media_ready_sends d;
     wire := wire d; udp_count := udp_count d; commands := commands d ++ l; ws_count := S (ws_count d); answers := answers d; closed := closed d; close_frames := close_frames d |}.
Definition with_answers (l : list (reply * Answer)) (d : ConnectionDriver) : ConnectionDriver :=
  {| base := base d; send := send d; pending_media_ready_waits := pending_media_ready_waits d; pending_media_ready_sends := pending_media_ready_sends d;
     wire := wire d; udp_count := udp_count d; commands := commands d; ws_count := ws_count d; answers := answers d ++ l; closed := closed d; close_frames := close_frames d |}.

Definition with_closed (d : ConnectionDriver) : ConnectionDriver :=
  {| base := base d; send := send d; pending_media_ready_waits := pending_media_ready_waits d; pending_media_ready_sends := pending_media_ready_sends d;
     wire := wire d; udp_count := udp_count d; commands := commands d; ws_count := ws_count d; answers := answers d; closed := true; close_frames := close_frames d |}.
Definition with_close_frames (n : nat) (d : ConnectionDriver) : ConnectionDriver :=
  {| base := base d; send := send d; pending_media_ready_waits := pending_media_ready_waits d; pending_media_ready_sends := pending_media_ready_sends d;
     wire := wire d; udp_count := udp_count d; commands := commands d; ws_count := S (ws_count d); answers := answers d; closed := closed d;
     close_frames := (close_frames d + n)%nat |}.

(** Methods of the driver that return a [Result]. *)
Definition drv (A : Type) : Type := st ConnectionDriver Error A.

Definition now : drv Z := fun d => (Ok (clock (Pipeline.d_ticks (base d))), with_base (Pipeline.tick (base d)) d).

Definition complete (r : reply) (a : Answer) : drv () := modify (with_answers [(r, a)]).

Definition gateway_dave (d : ConnectionDriver) : DaveGateway.DaveInternalState := Gateway.dave (Pipeline.d_conn (base d)).

Definition dave_send_requires_dave (d : ConnectionDriver) : bool := DaveGateway.send_requires_dave (gateway_dave d).

Definition media_status (d : ConnectionDriver) : Pipeline.DaveMediaStatus := Pipeline.current_dave_media_status (base d).

(** [encrypt_dynamic_media_frame_into]: code that works on the DAVE state. *)
Definition encrypt_media_frame (c : MediaCodec) (frame : bytes) : drv bytes :=
  fun d => let '(r, v) := dave_encrypt c frame (Pipeline.d_dave (base d)) in
           (map_err EDaveEncrypt r, with_base (Pipeline.with_conn (Pipeline.d_conn (base d)) v (base d)) d).

(** The stream of a media type. *)
Definition stream_of (mt : MediaType) (p : SendPipeline) : option Outbound.OutboundRtpState :=
  match mt with Audio => Some (outbound_audio_rtp p) | Video => outbound_video_rtp p end.
Definition set_stream (mt : MediaType) (s : Outbound.OutboundRtpState) (p : SendPipeline) : SendPipeline :=
  match mt with Audio => set_audio s p | Video => set_video (Some s) p end.

(** [udp_socket.send] raced with the close signal. *)
Definition udp_send (datagram : bytes) : drv () :=
  fun d => match udp (udp_count d) with
           | UdpSent => (Ok (), with_wire [datagram] d)
           | UdpFailed => (Err EIo, with_wire [] d)
           | UdpClosedFirst => (Err EClosed, with_wire [] d)
           end.

(** The [while] loop of [send_ready_media_frame]; [rtp] is the borrowed stream,
    stored back after every packet. *)
Fixpoint send_loop (fuel : nat) (mt : MediaType) (t : Rtp.TransportCrypto) (duration : Z) (p : RtpPayloadPacketizer)
    (rtp : Outbound.OutboundRtpState) (last : option Outbound.OutboundPacket) : drv (option Outbound.OutboundPacket) :=
  match fuel with
  | O => fun d => (Panic, d)
  | S fuel =>
      '(o, p) ← lift (map_err (fun e => ESend (Rtp.ERtp e)) (packetizer_next p));
      match o with
      | None => mret last
      | Some (marker, chunk) =>
          '(rtp, packet, datagram) ← lift (map_err ESend (Outbound.build_packet t chunk marker duration rtp));
          _ ← modify (fun d => with_send (set_stream mt rtp (send d)) d);
          _ ← udp_send datagram;
          send_loop fuel mt t duration p rtp (Some packet)
      end
  end.

Definition send_ready_media_frame (c : MediaCodec) (frame : bytes) (duration : Z) : drv Outbound.OutboundPacket :=
  requires_dave ← gets dave_send_requires_dave;
  media_payload ← (if requires_dave : bool then encrypt_media_frame c frame else mret frame);
  packetizer ← lift (map_err (fun e => ESend (Rtp.ERtp e)) (packetizer_new c media_payload));
  stream ← gets (fun d => stream_of (media_type c) (send d));
  rtp ← lift (ok_or (EMissingVideoSsrc c) stream);
  if bool_decide (Outbound.binding_codec (Outbound.binding rtp) = c) then
    t ← gets (fun d => Pipeline.d_transport (base d));
    last_packet ← send_loop (length media_payload + 1) (media_type c) t duration packetizer rtp None;
    lift (ok_or (ESend (Rtp.EEmptyPayload c)) last_packet)
  else throw (EMediaCodecNotNegotiated c (Some (Outbound.binding_codec (Outbound.binding rtp)))).

Definition send_ready_opus_packet (frame : bytes) (duration : Z) : drv Outbound.OutboundPacket :=
  send_ready_media_frame Opus frame duration.

(** [send_voice_gateway_command]; serializing a text command to JSON does not
    fail for the records the driver builds. *)
Definition send_voice_gateway_command (command : Gateway.GatewayCommand) : drv () :=
  fun d => if ws (ws_count d) then (Ok (), with_commands [command] d) else (Err EWebSocket, with_commands [] d).

(** ** What a send puts on the wire *)

(** The packetizer produces [e] at some point. *)
Inductive emits : RtpPayloadPacketizer -> bool * bytes -> Prop :=
| emits_now p p' e : packetizer_next p = Ok (Some e, p') -> emits p e
| emits_later p p' x e : packetizer_next p = Ok (Some x, p') -> emits p' e -> emits p e.

(** A datagram of transport [t] that carries a part of [payload]. *)
Definition carries_part (t : Rtp.TransportCrypto) (c : MediaCodec) (media_payload datagram : bytes) : Prop :=
  exists p marker chunk duration rtp rtp' o, packetizer_new c media_payload = Ok p /\ emits p (marker, chunk) /\
    Outbound.build_packet t chunk marker duration rtp = Ok (rtp', o, datagram).

(** What a send leaves alone. *)
Definition send_frame_of (d : ConnectionDriver) :=
  (Pipeline.d_conn (base d), Pipeline.d_ticks (base d), Pipeline.d_transport (base d), Pipeline.d_rx (base d), Pipeline.d_hand (base d), pending_media_ready_waits d,
   pending_media_ready_sends d, commands d, ws_count d, answers d, active_playout (send d), next_playout_id (send d)).

Lemma set_stream_playout mt s p : active_playout (set_stream mt s p) = active_playout p /\ next_playout_id (set_stream mt s p) = next_playout_id p.
Proof. by destruct mt. Qed.

(** A run that puts nothing on the wire. *)
Ltac nothing_sent := exists []; rewrite app_nil_r; repeat split; try done; by intros g Hg%elem_of_nil.

Lemma send_loop_wire fuel mt t duration p rtp last d :
  exists l, wire (send_loop fuel mt t duration p rtp last d).2 = wire d ++ l /\
    (forall g, g ∈ l -> exists marker chunk rtp rtp' o, emits p (marker, chunk) /\ Outbound.build_packet t chunk marker duration rtp = Ok (rtp', o, g)) /\
    send_frame_of (send_loop fuel mt t duration p rtp last d).2 = send_frame_of d /\ base (send_loop fuel mt t duration p rtp last d).2 = base d.
Proof.
  revert p rtp last d. induction fuel as [|fuel IH]; intros p rtp last d; cbn [send_loop].
  { nothing_sent. }
  unfold mbind, st_mbind, lift. destruct (packetizer_next p) as [[[[m chunk]|] p']|e|] eqn:Hp; cbn [map_err]; try nothing_sent.
  destruct (Outbound.build_packet t chunk m duration rtp) as [[[rtp' o] g]|e|] eqn:Hb; cbn [map_err]; try nothing_sent.
  unfold modify. destruct (set_stream_playout mt rtp' (send d)) as [Ha Hn]. set (d1 := with_send _ d).
  unfold udp_send. change (udp_count d1) with (udp_count d).
  assert (forall l, send_frame_of (with_wire l d1) = send_frame_of d) as Hf by (intros l; unfold send_frame_of; cbn; by rewrite Ha, Hn).
  destruct (udp (udp_count d)); cbn [fst snd]; try (exists []; rewrite Hf; cbn; repeat split; try done; by intros ? Hg%elem_of_nil).
  destruct (IH p' rtp' (Some o) (with_wire [g] d1)) as (l & Hw & Hl & Hs & Hbase). exists (g :: l). rewrite Hw, Hs, Hf, Hbase. split; [|split; [|done]].
  - cbn. by rewrite <- app_assoc.
  - intros g' [->|Hg']%elem_of_cons.
    + exists m, chunk, rtp, rtp', o. split; [by eapply emits_now|done].
    + destruct (Hl g' Hg') as (m' & k' & r1 & r2 & o' & He & Hb'). exists m', k', r1, r2, o'. split; [by eapply emits_later|done].
Qed.

(** The media payload of a frame and the DAVE state that producing it leaves. *)
Definition media_payload_of (c : MediaCodec) (frame : bytes) (d : ConnectionDriver) : res Error bytes * ConnectionDriver :=
  (if dave_send_requires_dave d then encrypt_media_frame c frame else mret frame) d.

(** The rest of a send, once the payload is known. *)
Definition send_payload (c : MediaCodec) (media_payload : bytes) (duration : Z) : drv Outbound.OutboundPacket :=
  packetizer ← lift (map_err (fun e => ESend (Rtp.ERtp e)) (packetizer_new c media_payload));
  stream ← gets (fun d => stream_of (media_type c) (send d));
  rtp ← lift (ok_or (EMissingVideoSsrc c) stream);
  if bool_decide (Outbound.binding_codec (Outbound.binding rtp) = c) then
    t ← gets (fun d => Pipeline.d_transport (base d));
    last_packet ← send_loop (length media_payload + 1) (media_type c) t duration packetizer rtp None;
    lift (ok_or (ESend (Rtp.EEmptyPayload c)) last_packet)
  else throw (EMediaCodecNotNegotiated c (Some (Outbound.binding_codec (Outbound.binding rtp)))).

Lemma send_frame_unfold c frame duration d :
  send_ready_media_frame c frame duration d =
    match media_payload_of c frame d with
    | (Ok payload, d1) => send_payload c payload duration d1
    | (Err e, d1) => (Err e, d1)
    | (Panic, d1) => (Panic, d1)
    end.
Proof. reflexivity. Qed.

Lemma media_payload_spec c frame d :
  exists (r : res Error bytes) (d1 : ConnectionDriver), media_payload_of c frame d = (r, d1) /\ wire d1 = wire d /\ udp_count d1 = udp_count d /\ send d1 = send d /\ send_frame_of d1 = send_frame_of d /\
    match r with
    | Ok payload => if dave_send_requires_dave d then (dave_encrypt c frame (Pipeline.d_dave (base d))).1 = Ok payload else payload = frame
    | _ => True
    end.
Proof.
  unfold media_payload_of. destruct (dave_send_requires_dave d); [|by exists (Ok frame), d]. unfold encrypt_media_frame.
  destruct (dave_encrypt c frame (Pipeline.d_dave (base d))) as [r v] eqn:He. eexists _, _. split; [reflexivity|]. repeat split. by destruct r.
Qed.

Lemma send_payload_wire c payload duration d :
  exists l, wire (send_payload c payload duration d).2 = wire d ++ l /\ send_frame_of (send_payload c payload duration d).2 = send_frame_of d /\
    forall g, g ∈ l -> carries_part (Pipeline.d_transport (base d)) c payload g.
Proof.
  unfold send_payload, mbind, st_mbind, gets, lift.
  destruct (packetizer_new c payload) as [p|e|] eqn:Hp; cbn [map_err]; try nothing_sent.
  destruct (stream_of (media_type c) (send d)) as [rtp|] eqn:Hst; cbn [ok_or]; [|nothing_sent].
  destruct (bool_decide _); [|nothing_sent].
  destruct (send_loop_wire (length payload + 1) (media_type c) (Pipeline.d_transport (base d)) duration p rtp None d) as (l & Hl & Hg & Hfr & _).
  destruct (send_loop _ _ _ _ _ _ _ d) as [r2 d2]. cbn [snd] in *. exists l.
  assert (forall g, g ∈ l -> carries_part (Pipeline.d_transport (base d)) c payload g) as Hc.
  { intros g Hgl. destruct (Hg g Hgl) as (mk & k & r1 & r1' & o & He & Hb). by exists p, mk, k, duration, r1, r1', o. }
  by destruct r2.
Qed.

(** Whatever happens, the datagrams of one send carry parts of one payload,
    which is the DAVE ciphertext of the frame if the connection requires DAVE;
    if encrypting fails, nothing is sent. *)
Lemma send_frame_wire c frame duration d :
  exists l, wire (send_ready_media_frame c frame duration d).2 = wire d ++ l /\
    send_frame_of (send_ready_media_frame c frame duration d).2 = send_frame_of d /\
    forall g, g ∈ l -> exists payload, carries_part (Pipeline.d_transport (base d)) c payload g /\
      if dave_send_requires_dave d then (dave_encrypt c frame (Pipeline.d_dave (base d))).1 = Ok payload else payload = frame.
Proof.
  rewrite send_frame_unfold. destruct (media_payload_spec c frame d) as (r & d1 & -> & Hw & _ & _ & Hf & Hr). rewrite <- Hw, <- Hf.
  destruct r as [payload|e|]; try nothing_sent. destruct (send_payload_wire c payload duration d1) as (l & Hl & Hs & Hg). exists l.
  split; [done|]. split; [done|]. intros g Hgl. exists payload. split; [|done].
  assert (Pipeline.d_transport (base d1) = Pipeline.d_transport (base d)) as <- by (unfold send_frame_of in Hf; by injection Hf). by apply Hg.
Qed.

(** *** A send against the list of payloads and the list of packets *)

(** How many of the next [n] datagrams the socket takes. *)
Fixpoint sent_count (i n : nat) : nat :=
  match n with
  | O => O
  | S n => match udp i with UdpSent => S (sent_count (S i) n) | _ => O end
  end.

Definition udp_error (o : UdpOutcome) : Error := match o with UdpClosedFirst => EClosed | _ => EIo end.

(** The input of [Outbound.build_all] for the payloads of a frame. *)
Definition plan (duration : Z) (l : list (bool * bytes)) : list (bytes * bool * Z) := (fun e => (e.2, e.1, duration)) <$> l.

Definition after_send (mt : MediaType) (rtp : Outbound.OutboundRtpState) (l : list bytes) (n : nat) (d : ConnectionDriver) : ConnectionDriver :=
  {| base := base d; send := set_stream mt rtp (send d); pending_media_ready_waits := pending_media_ready_waits d;
     pending_media_ready_sends := pending_media_ready_sends d; wire := wire d ++ l; udp_count := (udp_count d + n)%nat;
     commands := commands d; ws_count := ws_count d; answers := answers d; closed := closed d; close_frames := close_frames d |}.

Lemma set_stream_same mt s p : stream_of mt p = Some s -> set_stream mt s p = p.
Proof. destruct mt, p as [a v pl i]; cbn; [by intros [= ->]|by intros ->]. Qed.

Lemma set_stream_twice mt a b p : set_stream mt a (set_stream mt b p) = set_stream mt a p.
Proof. by destruct mt. Qed.

Lemma stream_of_set mt s p : stream_of mt (set_stream mt s p) = Some s.
Proof. by destruct mt. Qed.

Lemma after_send_nothing mt rtp d : stream_of mt (send d) = Some rtp -> after_send mt rtp [] 0 d = d.
Proof. intros H. unfold after_send. rewrite (set_stream_same mt rtp _ H), app_nil_r, Nat.add_0_r. by destruct d. Qed.

Lemma after_send_trans mt r1 r2 l1 l2 n1 n2 d :
  after_send mt r2 l2 n2 (after_send mt r1 l1 n1 d) = after_send mt r2 (l1 ++ l2) (n1 + n2) d.
Proof. unfold after_send. cbn. by rewrite set_stream_twice, app_assoc, Nat.add_assoc. Qed.

Lemma sent_count_le i n : (sent_count i n <= n)%nat.
Proof. revert i. induction n as [|n IH]; intros i; cbn [sent_count]; [lia|]. destruct (udp i); [|lia..]. specialize (IH (S i)). lia. Qed.

Lemma build_all_cons t e duration l rtp rtp' out :
  Outbound.build_all t (plan duration (e :: l)) rtp = Ok (rtp', out) ->
  exists rtp1 o g out', Outbound.build_packet t e.2 e.1 duration rtp = Ok (rtp1, o, g) /\
    Outbound.build_all t (plan duration l) rtp1 = Ok (rtp', out') /\ out = (o, g) :: out'.
Proof.
  cbn [plan fmap list_fmap Outbound.build_all]. intros ([[rtp1 o] g] & Hb & H)%bind_Ok_inv. apply bind_Ok_inv in H as ([rtp2 out'] & Hout & [= <- <-]).
  by exists rtp1, o, g, out'.
Qed.

Lemma build_all_step t m chunk duration l rtp rtp1 o g rtp' out :
  Outbound.build_packet t chunk m duration rtp = Ok (rtp1, o, g) -> Outbound.build_all t (plan duration l) rtp1 = Ok (rtp', out) ->
  Outbound.build_all t (plan duration ((m, chunk) :: l)) rtp = Ok (rtp', (o, g) :: out).
Proof. intros Hb Hl. cbn. rewrite Hb. cbn. unfold plan in Hl. by rewrite Hl. Qed.

Lemma send_loop_exact fuel mt t duration p rtp lastp l rtp' out d :
  packetize_loop fuel p = Ok l -> Outbound.build_all t (plan duration l) rtp = Ok (rtp', out) -> stream_of mt (send d) = Some rtp ->
  let k := sent_count (udp_count d) (length l) in
  exists rtpk outk, Outbound.build_all t (plan duration (take (S k) l)) rtp = Ok (rtpk, outk) /\
    send_loop fuel mt t duration p rtp lastp d =
      (if (k =? length l)%nat then Ok (match last out with Some o => Some o.1 | None => lastp end) else Err (udp_error (udp (udp_count d + k))),
       after_send mt rtpk (take k out.*2) (Nat.min (S k) (length l)) d).
Proof.
  revert p rtp lastp l out d. induction fuel as [|fuel IH]; intros p rtp lastp l out d; [done|]. cbn [packetize_loop send_loop].
  intros ([o p'] & Hp & H)%bind_Ok_inv. unfold mbind, st_mbind, lift. rewrite Hp. cbn [map_err]. cbv beta iota in H. destruct o as [[m chunk]|].
  2: { injection H as <-. intros [= -> <-] Hst. exists rtp', []. cbn. by rewrite after_send_nothing. }
  apply bind_Ok_inv in H as (l' & Hl' & [= <-]). intros Hb Hst. apply build_all_cons in Hb as (rtp1 & o & g & out' & Hb & Hall & ->). cbn [fst snd] in Hb.
  rewrite Hb. cbn [map_err]. unfold modify, udp_send. cbn [udp_count with_send length sent_count].
  destruct (udp (udp_count d)) eqn:Hu.
  - set (d1 := with_wire [g] _). destruct (IH p' rtp1 (Some o) l' out' d1 Hl' Hall (stream_of_set _ _ _)) as (rtpk & outk & Hk & Hrun).
    change (udp_count d1) with (S (udp_count d)) in *. set (k := sent_count (S (udp_count d)) (length l')) in *.
    exists rtpk, ((o, g) :: outk). split; [by eapply build_all_step|].
    rewrite Hrun. f_equal.
    + cbn [Nat.eqb]. destruct (k =? length l')%nat; [|by rewrite Nat.add_succ_r]. rewrite last_cons. by destruct (last out') as [[? ?]|].
    + assert (d1 = after_send mt rtp1 [g] 1 d) as -> by (unfold d1, after_send, with_wire, with_send; cbn; by rewrite Nat.add_1_r).
      by rewrite after_send_trans.
  - exists rtp1, [(o, g)]. split; [by eapply build_all_step|]. rewrite Nat.add_0_r, Hu. cbn [Nat.eqb]. f_equal.
    unfold after_send, with_wire, with_send. cbn. by rewrite Nat.add_1_r.
  - exists rtp1, [(o, g)]. split; [by eapply build_all_step|]. rewrite Nat.add_0_r, Hu. cbn [Nat.eqb]. f_equal.
    unfold after_send, with_wire, with_send. cbn. by rewrite Nat.add_1_r.
Qed.

(** ** From the wire to the receiver's assembler *)
Section Received.
Context {Laws : Rtp.TransportAeadLaws AEAD} (raw : bytes -> Assembler.raw_packet) (codecs : Codecs.DiscordRtpCodecMap) (user : option Z) (dave : bool).

(** What the receiver of a datagram hands to its assembler
    (cf. [Pipeline.decode_received_voice_packet]). *)
Definition receive_datagram (t : Rtp.TransportCrypto) (g : bytes) : option Assembler.PendingMediaPacket :=
  match Rtp.header_parse g with
  | Ok rtp =>
      match Codecs.detect codecs (Rtp.payload_type rtp), Rtp.decrypt_payload_into t g rtp with
      | Ok c, Ok payload =>
          Some {| Assembler.pkt_raw := raw g; Assembler.pkt_rtp := rtp; Assembler.pkt_user_id := user; Assembler.pkt_codec := c;
                  Assembler.encrypted_payload := payload; Assembler.pkt_dave := dave |}
      | _, _ => None
      end
  | _ => None
  end.

(** One packet arrives as it was built. *)
Lemma packet_received t chunk m duration rtp c :
  Outbound.state_ok rtp -> Outbound.sendable chunk -> Codecs.detect codecs (Outbound.binding_payload_type (Outbound.binding rtp)) = Ok c ->
  exists rtp' o g p, Outbound.build_packet t chunk m duration rtp = Ok (rtp', o, g) /\ receive_datagram t g = Some p /\
    Assembler.carries c (Outbound.bind_ssrc (Outbound.binding rtp)) (Outbound.out_timestamp rtp) dave (m, chunk) p /\
    Rtp.seq (Assembler.pkt_rtp p) = Outbound.out_seq rtp /\
    Outbound.state_ok rtp' /\ Outbound.binding rtp' = Outbound.binding rtp /\ Outbound.out_seq rtp' = wrapping_add u16_mod (Outbound.out_seq rtp) 1 /\
    Outbound.out_timestamp rtp' = Outbound.timestamp_after rtp m duration.
Proof.
  intros Hok Hs Hc. destruct (Outbound.build_packet_ok t chunk m duration rtp Hok Hs) as (rtp' & o & g & Hb & Hok' & Hq & Hts & _ & Hbind & _ & Hh & _ & _ & _ & Hp & Hd).
  eexists rtp', o, g, _. split; [done|]. unfold receive_datagram. rewrite Hp, Hd, Hh. cbn [Rtp.payload_type Rtp.spec_header Outbound.plain_spec Rtp.spec_fields Outbound.next_fields Rtp.hf_payload_type].
  rewrite Hc. split; [reflexivity|]. split; [by repeat split|]. done.
Qed.

(** The packets of one frame: they all have the timestamp the stream had. *)
Lemma frame_received t duration final l rtp c :
  Packetize.wire_payloads final l -> Outbound.state_ok rtp -> Codecs.detect codecs (Outbound.binding_payload_type (Outbound.binding rtp)) = Ok c ->
  Outbound.binding_media_type (Outbound.binding rtp) = Video \/ length l = 1%nat ->
  exists rtp' out ps, Outbound.build_all t (plan duration l) rtp = Ok (rtp', out) /\ receive_datagram t <$> out.*2 = Some <$> ps /\
    forall times, length times = length ps ->
      Assembler.frame_packets c (Outbound.bind_ssrc (Outbound.binding rtp)) (Outbound.out_timestamp rtp) dave (Outbound.out_seq rtp) l (zip times ps).
Proof.
  intros Hl. revert rtp. induction Hl as [p Hp|p l Hp Hl IH]; intros rtp Hok Hc Hone; unfold RTP_MEDIA_PAYLOAD_MAX_BYTES in Hp;
    (assert (Outbound.sendable p) as Hs by (split; [by destruct p; [cbn in Hp; lia|]|lia])).
  - destruct (packet_received t p final duration rtp c Hok Hs Hc) as (rtp' & o & g & q & Hb & Hr & Hcar & Hq & _). exists rtp', [(o, g)], [q].
    split; [by eapply build_all_step|]. split; [cbn; by rewrite Hr|]. intros [|x [|]]; try done.
  - destruct (packet_received t p false duration rtp c Hok Hs Hc) as (rtp1 & o & g & q & Hb & Hr & Hcar & Hq & Hok1 & Hbind & Hseq & Hts).
    destruct Hone as [Hv|H1]; [|cbn in H1; inversion Hl; subst; done].
    destruct (IH rtp1 Hok1) as (rtp' & out & ps & Hall & Hrs & Hps); [by rewrite Hbind|left; by rewrite Hbind|].
    exists rtp', ((o, g) :: out), (q :: ps). split; [by eapply build_all_step|]. split; [cbn; rewrite Hr; by f_equal|].
    intros [|x times] [=Hlen]. cbn [zip zip_with]. split; [done|]. split; [done|]. rewrite <- Hseq, <- Hbind.
    replace (Outbound.out_timestamp rtp) with (Outbound.out_timestamp rtp1); [by apply Hps|].
    rewrite Hts. unfold Outbound.timestamp_after. rewrite Hv. done.
Qed.
End Received.

(** A send whose datagrams the socket takes. *)
Lemma send_frame_run c frame duration d payload d1 l rtp rtp' out :
  media_payload_of c frame d = (Ok payload, d1) -> packetize c payload = Ok l ->
  stream_of (media_type c) (send d) = Some rtp -> Outbound.binding_codec (Outbound.binding rtp) = c ->
  Outbound.build_all (Pipeline.d_transport (base d)) (plan duration l) rtp = Ok (rtp', out) ->
  let k := sent_count (udp_count d) (length l) in
  exists rtpk outk, Outbound.build_all (Pipeline.d_transport (base d)) (plan duration (take (S k) l)) rtp = Ok (rtpk, outk) /\
    send_ready_media_frame c frame duration d =
      (if (k =? length l)%nat then ok_or (ESend (Rtp.EEmptyPayload c)) (fst <$> last out) else Err (udp_error (udp (udp_count d + k))),
       after_send (media_type c) rtpk (take k out.*2) (Nat.min (S k) (length l)) d1).
Proof.
  intros Hm Hl Hst Hc Hb k. rewrite send_frame_unfold. destruct (media_payload_spec c frame d) as (r & d1' & Hm' & _ & Hu & Hs & Hf & _).
  rewrite Hm in *. injection Hm' as <- <-. unfold send_payload, mbind, st_mbind, gets, lift.
  unfold packetize in Hl. apply bind_Ok_inv in Hl as (p & -> & Hl). cbn [map_err]. rewrite Hs, Hst. cbn [ok_or].
  rewrite bool_decide_true by done. assert (Pipeline.d_transport (base d1) = Pipeline.d_transport (base d)) as -> by (unfold send_frame_of in Hf; by injection Hf).
  destruct (send_loop_exact (length payload + 1) (media_type c) (Pipeline.d_transport (base d)) duration p rtp None l rtp' out d1 Hl Hb) as (rtpk & outk & Hk & Hrun);
    [by rewrite Hs|]. rewrite Hu in *. fold k in Hk, Hrun. exists rtpk, outk. split; [done|]. rewrite Hrun.
  destruct (k =? length l)%nat; [|done]. by destruct (last out).
Qed.

Lemma sent_count_all i n : (forall j, (j < n)%nat -> udp (i + j) = UdpSent) -> sent_count i n = n.
Proof.
  revert i. induction n as [|n IH]; intros i H; [done|]. cbn [sent_count]. rewrite <- (Nat.add_0_r i), (H 0%nat) by lia. rewrite Nat.add_0_r.
  f_equal. apply IH. intros j Hj. rewrite Nat.add_succ_comm. apply H. lia.
Qed.

Lemma opus_single payload l : packetize Opus payload = Ok l -> length l = 1%nat.
Proof.
  unfold packetize, packetizer_new. destruct payload as [|b pl]; [done|]. cbn [packetizer_state mbind res_mbind length Nat.add packetize_loop].
  unfold packetizer_next at 1. cbn [pk_state pk_codec]. destruct (_ <? _)%nat; [done|]. cbn [mbind res_mbind].
  rewrite Nat.add_1_r. cbn. by intros [= <-].
Qed.

(** C11. What is sent is what is received.  A frame whose payload (its DAVE
    ciphertext if DAVE is required) the packetizer accepts, for H.264 and H.265
    with start codes of four bytes, no unit but the first longer than a
    payload and plain NAL unit types ([Assembler.readable]), sent on a
    stream negotiated for its codec while the socket takes the datagrams: the
    send succeeds, and a receiver with the same transport key that gets these
    datagrams in order hands its assembler packets from which exactly one frame
    comes out, which is that payload. *)
Theorem sent_frame_received {Laws : Rtp.TransportAeadLaws AEAD} (raw : bytes -> Assembler.raw_packet) codecs user dave times
    c frame duration d payload d1 l rtp :
  media_payload_of c frame d = (Ok payload, d1) -> all_bytes payload -> Assembler.readable c payload -> packetize c payload = Ok l ->
  stream_of (media_type c) (send d) = Some rtp -> Outbound.state_ok rtp -> Outbound.binding_codec (Outbound.binding rtp) = c ->
  Codecs.detect codecs (Codecs.payload_type_of c) = Ok c ->
  (forall i, (i < length l)%nat -> udp (udp_count d + i) = UdpSent) -> length times = length l ->
  exists o d' datagrams ps rs, send_ready_media_frame c frame duration d = (Ok o, d') /\ wire d' = wire d ++ datagrams /\
    receive_datagram raw codecs user dave (Pipeline.d_transport (base d)) <$> datagrams = Some <$> ps /\
    Assembler.push_all (zip times ps) Assembler.assembler_default = (rs, Assembler.assembler_default) /\
    Assembler.accepted rs /\ Assembler.encrypted_frame <$> Assembler.emitted rs = [payload].
Proof.
  intros Hm Hb Hr Hl Hst Hok Hc Hdet Hu Ht. pose proof (Packetize.packetize_ok c payload Hb) as Hw. rewrite Hl in Hw. cbn [safe] in Hw.
  pose proof Hok as (_ & _ & _ & c' & ssrc & _ & Hbind). assert (c' = c) as -> by (rewrite Hbind in Hc; by destruct c', c).
  destruct (frame_received raw codecs user dave (Pipeline.d_transport (base d)) duration _ l rtp c Hw Hok) as (rtp' & out & ps & Hall & Hrs & Hps).
  { by rewrite Hbind. }
  { rewrite Hbind. destruct c; [right; by eapply opus_single|left; reflexivity..]. }
  assert (length out = length l) as Hout.
  { clear -Hall. revert rtp out Hall. induction l as [|e l IH]; intros rtp out; [by intros [= _ <-]|].
    intros (r1 & o & g & out' & _ & Ho & ->)%build_all_cons. cbn. f_equal. by eapply IH. }
  assert (length ps = length l) as Hlen by (apply (f_equal length) in Hrs; by rewrite !length_fmap, Hout in Hrs).
  destruct (send_frame_run c frame duration d payload d1 l rtp rtp' out Hm Hl Hst Hc Hall) as (rtpk & outk & _ & Hrun).
  rewrite (sent_count_all _ _ Hu), Nat.eqb_refl in Hrun.
  destruct (last out) as [[o g]|] eqn:Hlast; [|apply last_None in Hlast as ->; inversion Hw; subst; done].
  destruct (Assembler.push_frame c _ _ dave _ l payload (zip times ps) (Assembler.readable_reads c payload l Hr Hb Hl) (Hps times ltac:(lia)))
    as (rs & h & Hpush & _ & Hacc & f & Hem & _ & _ & _ & _ & Hf).
  destruct (media_payload_spec c frame d) as (r & d1' & Hm' & Hwire & _). rewrite Hm in Hm'. injection Hm' as <- <-.
  eexists o, _, out.*2, ps, rs. split; [exact Hrun|]. split; [|split; [done|]].
  - cbn. rewrite Hwire, take_ge; [done|]. rewrite length_fmap. lia.
  - split; [done|]. split; [done|]. rewrite Hem. cbn. by rewrite Hf.
Qed.

(** C3. Under DAVE only ciphertext leaves.  While the connection requires DAVE, the
    datagrams of a send, if any, carry parts of what DAVE encrypted the frame
    to, sealed by the transport; when DAVE cannot encrypt the frame, the send
    returns that error, nothing goes out, and no sequence number or nonce of a
    stream is used up. *)
Theorem no_clear_media c frame duration d :
  dave_send_requires_dave d = true ->
  let '(r, d') := send_ready_media_frame c frame duration d in
  match (dave_encrypt c frame (Pipeline.d_dave (base d))).1 with
  | Ok payload => exists l, wire d' = wire d ++ l /\ forall g, g ∈ l -> carries_part (Pipeline.d_transport (base d)) c payload g
  | Err e => r = Err (EDaveEncrypt e) /\ wire d' = wire d /\ udp_count d' = udp_count d /\ send d' = send d
  | Panic => r = Panic /\ wire d' = wire d
  end.
Proof.
  intros Hreq. destruct (send_ready_media_frame c frame duration d) as [r d'] eqn:Hrun. rewrite send_frame_unfold in Hrun.
  destruct (media_payload_spec c frame d) as (r1 & d1 & Hm & Hw & Hu & Hs & Hf & Hr). rewrite Hm, Hreq in *.
  unfold media_payload_of, encrypt_media_frame in Hm. rewrite Hreq in Hm. destruct (dave_encrypt c frame _) as [r2 v].
  injection Hm as Hm _. destruct r2 as [payload|e|]; cbn in Hm; subst r1; [|by injection Hrun as <- <-..].
  destruct (send_payload_wire c payload duration d1) as (l & Hl & _ & Hg). rewrite Hrun in Hl. exists l. split; [by rewrite <- Hw|].
  assert (Pipeline.d_transport (base d1) = Pipeline.d_transport (base d)) as <- by (unfold send_frame_of in Hf; by injection Hf). exact Hg.
Qed.

End Send.

(** The session of the dave crate as what the send path needs. *)
Section Media.
Context `{P : RatchetPrimitives} `{A : Gcm.FrameAead} `{M : Session.Mls}.

#[local] Existing Instance Coordinator.dave_session.

Definition coordinator_encrypt (c : MediaCodec) (frame : bytes) : st Coordinator.DaveCoordinator EncryptError bytes :=
  fun v => let '(r, s) := Session.session_encrypt_into c frame (Coordinator.session v) in (r, Coordinator.with_session s v).

#[export] Instance coordinator_send : DaveSend Pipeline.coordinator_media := Build_DaveSend Pipeline.coordinator_media coordinator_encrypt.
End Media.
End Send.
