(* ===== verification/Playout.v ===== *)
(** * Opus playout (cacophony/src/connection/playout.rs)

    A playout is a queue of Opus packets the driver sends at the pace of their
    duration.  [resolve_active_playout] is called at every turn of the driver:
    it completes a finished playout, drops frames that are three durations
    late, waits for DAVE, and sends one frame when it is due. *)

From S2P Require Import Prelude Effects Frame Rtp Codecs Outbound RtpPayload Packetize Queue Stats Assembler DaveGateway Gateway.
From S2P Require Import ReadyFrames Pipeline OpusPacket Send.
Import Send.

Module Playout.

(** ** Frames *)
Definition playout_packet (p : OpusPacket.Packet) : PlayoutFrame := {| payload := PayloadPacket p |}.

(** [PlayoutFrame::packet_batch]; the bytes are shared, not copied. *)
Definition packet_batch (b : OpusPacket.PacketBatch) : list PlayoutFrame :=
  (fun span => {| payload := PayloadBatch (OpusPacket.batch_bytes b) span |}) <$> OpusPacket.batch_packets b.

Definition frame_bytes {E} (f : PlayoutFrame) : res E bytes :=
  match payload f with
  | PayloadPacket p => Ok (OpusPacket.packet_bytes p)
  | PayloadBatch b span => OpusPacket.at_span b span
  end.

Definition frame_duration (f : PlayoutFrame) : Z :=
  match payload f with
  | PayloadPacket p => OpusPacket.packet_duration p
  | PayloadBatch _ span => OpusPacket.span_duration span
  end.

(** [Duration::checked_mul]: a duration has less than 2^64 seconds. *)
Definition duration_checked_mul (d n : Z) : option Z := if d * n <? u64_mod * 1000000000 then Some (d * n) else None.

(** ** Statistics *)
Definition stats_default (dave : bool) : ActiveOpusPlayoutStats :=
  {| packets := 0; first_packet := None; last_packet := None; first_packet_sent_at := None; first_packet_sent_after_start := None; expected_media := 0;
     send_call := Sliding.duration_stats_default; inter_frame_gap := Sliding.duration_stats_default; scheduler_lateness := Sliding.duration_stats_default;
     late_wakes_over_5ms := 0; late_wakes_over_20ms := 0; underflows := 0; underflow_wait := Sliding.duration_stats_default;
     dropped_stale_frames := 0; clock_rebases := 0; clock_rebase_wait := Sliding.duration_stats_default; last_send_started_at := None; dave_enabled := dave |}.

Definition record_send_started (now : Z) (s : ActiveOpusPlayoutStats) : ActiveOpusPlayoutStats :=
  {| packets := packets s; first_packet := first_packet s; last_packet := last_packet s; first_packet_sent_at := first_packet_sent_at s;
     first_packet_sent_after_start := first_packet_sent_after_start s; expected_media := expected_media s; send_call := send_call s;
     inter_frame_gap := match last_send_started_at s with
                        | Some previous => Sliding.observe (Reorder.Reorder.duration_since now previous) (inter_frame_gap s)
                        | None => inter_frame_gap s
                        end;
     scheduler_lateness := scheduler_lateness s; late_wakes_over_5ms := late_wakes_over_5ms s; late_wakes_over_20ms := late_wakes_over_20ms s;
     underflows := underflows s; underflow_wait := underflow_wait s; dropped_stale_frames := dropped_stale_frames s; clock_rebases := clock_rebases s;
     clock_rebase_wait := clock_rebase_wait s; last_send_started_at := Some now; dave_enabled := dave_enabled s |}.

(** [sent] is the reading of [send_started.elapsed()], [now] the one taken for
    the first packet. *)
Definition record_packet_sent (started send_started sent now : Z) (packet : Outbound.OutboundPacket) (duration : Z) (s : ActiveOpusPlayoutStats)
    : ActiveOpusPlayoutStats :=
  let first := negb (is_some (first_packet s)) in
  {| packets := S (packets s); first_packet := if first then Some packet else first_packet s; last_packet := Some packet;
     first_packet_sent_at := if first then Some now else first_packet_sent_at s;
     first_packet_sent_after_start := if first then Some (Reorder.Reorder.duration_since now started) else first_packet_sent_after_start s;
     expected_media := expected_media s + duration;
     send_call := Sliding.observe (Reorder.Reorder.duration_since sent send_started) (send_call s);
     inter_frame_gap := inter_frame_gap s; scheduler_lateness := scheduler_lateness s; late_wakes_over_5ms := late_wakes_over_5ms s;
     late_wakes_over_20ms := late_wakes_over_20ms s; underflows := underflows s; underflow_wait := underflow_wait s;
     dropped_stale_frames := dropped_stale_frames s; clock_rebases := clock_rebases s; clock_rebase_wait := clock_rebase_wait s;
     last_send_started_at := last_send_started_at s; dave_enabled := dave_enabled s |}.

Definition MILLISECOND : Z := 1000000.

Definition record_lateness (lateness : Z) (s : ActiveOpusPlayoutStats) : ActiveOpusPlayoutStats :=
  {| packets := packets s; first_packet := first_packet s; last_packet := last_packet s; first_packet_sent_at := first_packet_sent_at s;
     first_packet_sent_after_start := first_packet_sent_after_start s; expected_media := expected_media s; send_call := send_call s;
     inter_frame_gap := inter_frame_gap s; scheduler_lateness := Sliding.observe lateness (scheduler_lateness s);
     late_wakes_over_5ms := if 5 * MILLISECOND <=? lateness then S (late_wakes_over_5ms s) else late_wakes_over_5ms s;
     late_wakes_over_20ms := if 20 * MILLISECOND <=? lateness then S (late_wakes_over_20ms s) else late_wakes_over_20ms s;
     underflows := underflows s; underflow_wait := underflow_wait s; dropped_stale_frames := dropped_stale_frames s; clock_rebases := clock_rebases s;
     clock_rebase_wait := clock_rebase_wait s; last_send_started_at := last_send_started_at s; dave_enabled := dave_enabled s |}.

Definition record_clock_rebase (lateness : Z) (s : ActiveOpusPlayoutStats) : ActiveOpusPlayoutStats :=
  {| packets := packets s; first_packet := first_packet s; last_packet := last_packet s; first_packet_sent_at := first_packet_sent_at s;
     first_packet_sent_after_start := first_packet_sent_after_start s; expected_media := expected_media s; send_call := send_call s;
     inter_frame_gap := inter_frame_gap s; scheduler_lateness := scheduler_lateness s; late_wakes_over_5ms := late_wakes_over_5ms s;
     late_wakes_over_20ms := late_wakes_over_20ms s; underflows := underflows s; underflow_wait := underflow_wait s;
     dropped_stale_frames := dropped_stale_frames s; clock_rebases := S (clock_rebases s);
     clock_rebase_wait := Sliding.observe lateness (clock_rebase_wait s); last_send_started_at := last_send_started_at s; dave_enabled := dave_enabled s |}.

Definition record_underflow (wait : Z) (s : ActiveOpusPlayoutStats) : ActiveOpusPlayoutStats :=
  {| packets := packets s; first_packet := first_packet s; last_packet := last_packet s; first_packet_sent_at := first_packet_sent_at s;
     first_packet_sent_after_start := first_packet_sent_after_start s; expected_media := expected_media s; send_call := send_call s;
     inter_frame_gap := inter_frame_gap s; scheduler_lateness := scheduler_lateness s; late_wakes_over_5ms := late_wakes_over_5ms s;
     late_wakes_over_20ms := late_wakes_over_20ms s; underflows := S (underflows s); underflow_wait := Sliding.observe wait (underflow_wait s);
     dropped_stale_frames := dropped_stale_frames s; clock_rebases := clock_rebases s;
     clock_rebase_wait := clock_rebase_wait s; last_send_started_at := last_send_started_at s; dave_enabled := dave_enabled s |}.

Definition add_dropped (n : nat) (s : ActiveOpusPlayoutStats) : ActiveOpusPlayoutStats :=
  {| packets := packets s; first_packet := first_packet s; last_packet := last_packet s; first_packet_sent_at := first_packet_sent_at s;
     first_packet_sent_after_start := first_packet_sent_after_start s; expected_media := expected_media s; send_call := send_call s;
     inter_frame_gap := inter_frame_gap s; scheduler_lateness := scheduler_lateness s; late_wakes_over_5ms := late_wakes_over_5ms s;
     late_wakes_over_20ms := late_wakes_over_20ms s; underflows := underflows s; underflow_wait := underflow_wait s;
     dropped_stale_frames := (dropped_stale_frames s + n)%nat; clock_rebases := clock_rebases s;
     clock_rebase_wait := clock_rebase_wait s; last_send_started_at := last_send_started_at s; dave_enabled := dave_enabled s |}.

(** [ActiveOpusPlayoutStats::finish] *)
Definition stats_finish (elapsed : Z) (s : ActiveOpusPlayoutStats) : OpusPlayoutStats :=
  {| stats_packets := packets s; stats_first_packet := first_packet s; stats_last_packet := last_packet s;
     stats_first_sent_at := first_packet_sent_at s; stats_first_sent_after_start := first_packet_sent_after_start s; wall_elapsed := elapsed;
     stats_expected_media := expected_media s; stats_send_call := Sliding.finish (send_call s); stats_inter_frame_gap := Sliding.finish (inter_frame_gap s);
     stats_scheduler_lateness := Sliding.finish (scheduler_lateness s); stats_late_wakes_over_5ms := late_wakes_over_5ms s;
     stats_late_wakes_over_20ms := late_wakes_over_20ms s; stats_underflows := underflows s; stats_underflow_wait := Sliding.finish (underflow_wait s);
     stats_dropped_stale_frames := dropped_stale_frames s; stats_clock_rebases := clock_rebases s;
     stats_clock_rebase_wait := Sliding.finish (clock_rebase_wait s); stats_dave_enabled := dave_enabled s |}.

(** ** The playout *)
Definition playout_new (now id : Z) (dave : bool) : ActiveOpusPlayout :=
  {| playout_id := id; started_at := now; frames := []; next_send_at := None; media_ready_deadline := None; finish_response := None;
     speaking := false; stats := stats_default dave |}.

Definition set_frames (l : list PlayoutFrame) (p : ActiveOpusPlayout) : ActiveOpusPlayout :=
  {| playout_id := playout_id p; started_at := started_at p; frames := l; next_send_at := next_send_at p; media_ready_deadline := media_ready_deadline p;
     finish_response := finish_response p; speaking := speaking p; stats := stats p |}.
Definition set_stats (s : ActiveOpusPlayoutStats) (p : ActiveOpusPlayout) : ActiveOpusPlayout :=
  {| playout_id := playout_id p; started_at := started_at p; frames := frames p; next_send_at := next_send_at p; media_ready_deadline := media_ready_deadline p;
     finish_response := finish_response p; speaking := speaking p; stats := s |}.
Definition set_next (n : option Z) (p : ActiveOpusPlayout) : ActiveOpusPlayout :=
  {| playout_id := playout_id p; started_at := started_at p; frames := frames p; next_send_at := n; media_ready_deadline := media_ready_deadline p;
     finish_response := finish_response p; speaking := speaking p; stats := stats p |}.
Definition set_deadline (n : option Z) (p : ActiveOpusPlayout) : ActiveOpusPlayout :=
  {| playout_id := playout_id p; started_at := started_at p; frames := frames p; next_send_at := next_send_at p; media_ready_deadline := n;
     finish_response := finish_response p; speaking := speaking p; stats := stats p |}.
Definition set_finish (r : option reply) (p : ActiveOpusPlayout) : ActiveOpusPlayout :=
  {| playout_id := playout_id p; started_at := started_at p; frames := frames p; next_send_at := next_send_at p; media_ready_deadline := media_ready_deadline p;
     finish_response := r; speaking := speaking p; stats := stats p |}.
Definition set_speaking (b : bool) (p : ActiveOpusPlayout) : ActiveOpusPlayout :=
  {| playout_id := playout_id p; started_at := started_at p; frames := frames p; next_send_at := next_send_at p; media_ready_deadline := media_ready_deadline p;
     finish_response := finish_response p; speaking := b; stats := stats p |}.

Definition dave_deadline (p : ActiveOpusPlayout) : option Z := match frames p with [] => None | _ => media_ready_deadline p end.

(** The loop that drops stale frames: what stays, how many went, and the time
    the first that stays was due. *)
Fixpoint drop_stale (now max_stale duration : Z) (l : list PlayoutFrame) (due lateness : Z) : list PlayoutFrame * nat * Z * Z :=
  match l with
  | [] => (l, O, due, lateness)
  | _ :: rest =>
      if (max_stale <=? lateness) && (1 <? length l)%nat then
        let due := due + duration in
        let '(r, n, due, lateness) := drop_stale now max_stale duration rest due (Reorder.Reorder.duration_since now due) in (r, S n, due, lateness)
      else (l, O, due, lateness)
  end.

Inductive PlayoutCommand :=
| CmdStart (response : reply)
| CmdFrame (id : Z) (f : PlayoutFrame)
| CmdFrames (id : Z) (l : list PlayoutFrame)
| CmdFinish (id : Z) (response : reply)
| CmdCancel (id : Z).

Section Playout.
Context {R : Assembler.FrameRaw} {AEAD : Rtp.TransportAead} {D : Pipeline.DaveMedia} {DS : DaveSend D}.
Context (clock : nat -> Z) (udp : nat -> UdpOutcome) (ws : nat -> bool) (ready : GatewayReady) (ready_timeout : Z).

Abbreviation now := (Send.now clock).

Definition record_underflow_if_needed (p : ActiveOpusPlayout) : drv ActiveOpusPlayout :=
  match frames p, finish_response p with
  | [], None =>
      t ← now;
      match next_send_at p with
      | Some next => if next <? t then mret (set_next None (set_stats (record_underflow (Reorder.Reorder.duration_since t next) (stats p)) p)) else mret p
      | None => mret p
      end
  | _, _ => mret p
  end.

Definition push_many (l : list PlayoutFrame) (p : ActiveOpusPlayout) : drv ActiveOpusPlayout :=
  p ← record_underflow_if_needed p; mret (set_frames (frames p ++ l) p).

Definition push (f : PlayoutFrame) (p : ActiveOpusPlayout) : drv ActiveOpusPlayout :=
  p ← record_underflow_if_needed p; mret (set_frames (frames p ++ [f]) p).

(** [ActiveOpusPlayout::finish] *)
Definition playout_finish (response : reply) (p : ActiveOpusPlayout) : ActiveOpusPlayout := set_finish (Some response) p.

(** [ActiveOpusPlayout::cancel] *)
Definition playout_cancel (p : ActiveOpusPlayout) : drv () :=
  match finish_response p with Some r => complete r (AnswerPlayoutStats (inl EClosed)) | None => mret () end.

Definition wake_deadline (p : ActiveOpusPlayout) : drv (option Z) :=
  match frames p with
  | _ :: _ => match next_send_at p with Some t => mret (Some t) | None => t ← now; mret (Some t) end
  | [] => match finish_response p with Some _ => mret (next_send_at p) | None => mret None end
  end.

Definition ready_to_complete (p : ActiveOpusPlayout) : drv bool :=
  match finish_response p, frames p with
  | Some _, [] => match next_send_at p with None => mret true | Some deadline => t ← now; mret (deadline <=? t) end
  | _, _ => mret false
  end.

Definition set_active (p : option ActiveOpusPlayout) : drv () :=
  modify (fun d => with_send (set_playout p (next_playout_id (send d)) (send d)) d).

Definition send_playout_speaking (flags : Z) : drv () :=
  send_voice_gateway_command ws
    (Gateway.CmdSpeaking {| Gateway.cmd_speaking := flags; Gateway.cmd_delay := Some 0; Gateway.cmd_ssrc := ready_ssrc ready; Gateway.cmd_user_id := None |}).

Definition SPEAKING_NONE : Z := 0.
Definition SPEAKING_MICROPHONE : Z := 1.

Definition stop_speaking (p : ActiveOpusPlayout) : drv ActiveOpusPlayout :=
  if speaking p then _ ← send_playout_speaking SPEAKING_NONE; mret (set_speaking false p) else mret p.

Definition complete_playout (p : ActiveOpusPlayout) : drv () :=
  p ← stop_speaking p;
  match finish_response p with
  | Some r => t ← now; complete r (AnswerPlayoutStats (inr (stats_finish (Reorder.Reorder.duration_since t (started_at p)) (stats p))))
  | None => mret ()
  end.

Definition fail_playout (p : ActiveOpusPlayout) (e : Error) : drv () :=
  p ← stop_speaking p;
  match finish_response p with Some r => complete r (AnswerPlayoutStats (inl e)) | None => mret () end.

Definition cancel_playout (p : ActiveOpusPlayout) : drv () := p ← stop_speaking p; playout_cancel p.

(** The part of [resolve_active_playout] that decides what is still worth
    sending at [t]: the stale frames go, or the clock starts again. *)
Definition catch_up (t due : Z) (duration : Z) (p : ActiveOpusPlayout) : ActiveOpusPlayout * Z :=
  let lateness := Reorder.Reorder.duration_since t due in
  let '(p, due, lateness) :=
    match duration_checked_mul duration 3 with
    | Some max_stale =>
        let '(l, n, due, lateness) := drop_stale t max_stale duration (frames p) due lateness in
        let p := set_frames l (set_stats (add_dropped n (stats p)) p) in
        if max_stale <=? lateness then (set_stats (record_clock_rebase lateness (stats p)) p, t, lateness) else (p, due, lateness)
    | None => (p, due, lateness)
    end in
  (if is_some (next_send_at p) then set_stats (record_lateness lateness (stats p)) p else p, due).

(** The wait for DAVE: whether to give up now. *)
Definition await_media (p : ActiveOpusPlayout) : drv () :=
  p ← match media_ready_deadline p with
      | Some _ => mret p
      | None => t ← now; mret (set_deadline (Some (t + ready_timeout)) p)
      end;
  t ← now;
  match media_ready_deadline p with
  | Some deadline => if deadline <=? t then fail_playout p (ETimeout ready_timeout) else set_active (Some p)
  | None => set_active (Some p)
  end.

(** Sending the first frame of the playout, due at [due]. *)
Definition send_next (due duration : Z) (p : ActiveOpusPlayout) : drv () :=
  let p := set_deadline None p in
  p ← (if speaking p then mret p else _ ← send_playout_speaking SPEAKING_MICROPHONE; mret (set_speaking true p));
  match frames p with
  | [] => set_active (Some p)
  | f :: l =>
      let p := set_frames l p in
      send_started ← now;
      let p := set_stats (record_send_started send_started (stats p)) p in
      b ← lift (frame_bytes f);
      r ← (fun d => match send_ready_opus_packet udp b duration d with
                    | (Ok packet, d) => (Ok (inr packet), d) | (Err e, d) => (Ok (inl e), d) | (Panic, d) => (Panic, d) end);
      match r with
      | inl error => fail_playout p error
      | inr packet =>
          sent ← now;
          first ← (if is_some (first_packet (stats p)) then mret 0 else now);
          let p := set_stats (record_packet_sent (started_at p) send_started sent first packet duration (stats p)) p in
          set_active (Some (set_next (Some (due + duration)) p))
      end
  end.

Definition resolve_active_playout : drv () :=
  active ← gets (fun d => active_playout (send d));
  match active with
  | None => mret ()
  | Some p =>
      _ ← set_active None;
      done ← ready_to_complete p;
      if done : bool then complete_playout p
      else
        match frames p with
        | [] => set_active (Some p)
        | f :: _ =>
            let duration := frame_duration f in
            due ← match next_send_at p with Some t => mret t | None => now end;
            t ← now;
            if t <? due then set_active (Some p)
            else
              let '(p, due) := catch_up t due duration p in
              requires ← gets dave_send_requires_dave;
              media_ready ← gets (fun d => Pipeline.media_ready (media_status d));
              if requires && negb media_ready then await_media p else send_next due duration p
        end
  end.

(** The playout a command is for. *)
Definition matching (id : Z) (d : ConnectionDriver) : option ActiveOpusPlayout :=
  match active_playout (send d) with Some p => if playout_id p =? id then Some p else None | None => None end.

Definition handle_playout_command (command : PlayoutCommand) : drv () :=
  match command with
  | CmdStart response =>
      active ← gets (fun d => active_playout (send d));
      match active with
      | Some _ => complete response (AnswerPlayoutId (inl EActiveOpusPlayout))
      | None =>
          id ← gets (fun d => next_playout_id (send d));
          requires ← gets dave_send_requires_dave;
          t ← now;
          _ ← modify (fun d => with_send (set_playout (Some (playout_new t id requires)) (Z.max (wrapping_add u64_mod id 1) 1) (send d)) d);
          _ ← complete response (AnswerPlayoutId (inr id));
          resolve_active_playout
      end
  | CmdFrame id f =>
      o ← gets (matching id);
      _ ← match o with Some p => p ← push f p; set_active (Some p) | None => mret () end;
      resolve_active_playout
  | CmdFrames id l =>
      o ← gets (matching id);
      _ ← match o with Some p => p ← push_many l p; set_active (Some p) | None => mret () end;
      resolve_active_playout
  | CmdFinish id response =>
      o ← gets (matching id);
      _ ← match o with
          | Some p => set_active (Some (playout_finish response p))
          | None => complete response (AnswerPlayoutStats (inl EClosed))
          end;
      resolve_active_playout
  | CmdCancel id =>
      o ← gets (matching id);
      _ ← match o with Some p => _ ← set_active None; cancel_playout p | None => mret () end;
      resolve_active_playout
  end.

End Playout.
End Playout.
