(* ===== verification/Driver.v ===== *)
(** * The driver task of a connection (cacophony/src/connection/driver.rs)

    The driver owns the connection: every turn of [run_loop] resolves what
    waits for the media to be ready and the active playout, and then takes one
    event: a heartbeat tick, a command of the user, a command of a playout, a
    datagram, the wake deadline, a message of the gateway or the close signal.
    [run_loop] is given the list of events that [select!] picks. *)

From S2P Require Import Prelude Effects Tuning Frame Rtp Codecs Outbound RtpPayload Queue Assembler PendingMedia Receive DaveGateway Gateway.
From S2P Require Import ReadyFrames Pipeline OpusPacket Ratchet Gcm Session Coordinator Send Playout.
Import PendingMedia.PendingMedia Queue.Timers Send Playout.

Module Driver.

(** What the driver needs of DAVE beyond media: the pump after a gateway event. *)
Class DavePump (D : Pipeline.DaveMedia) := {
  pump_error : Type;
  dave_pump : Z -> DaveGateway.DaveInternalState -> gset Z -> bool -> st Pipeline.dave_t pump_error (list Gateway.GatewayCommand) }.

(** [heartbeat_ack_timeout], in nanoseconds. *)
Definition heartbeat_ack_timeout (heartbeat_interval_ms : Z) : Z :=
  Z.max (Z.min (heartbeat_interval_ms * 2) (u64_mod - 1) * 1000000) 1000000000.

Section Driver.
Context {R : Assembler.FrameRaw} {PC : Pipeline.PacketCapture R} {AEAD : Rtp.TransportAead}.
Context {D : Pipeline.DaveMedia} {DS : DaveSend D} {DP : DavePump D} {J : Gateway.GatewayJson}.
Context {IS : Deadlines.SetIter (K := Z)} {IB : Deadlines.SetIter (K := PendingMedia.DavePendingMediaBucket)}.
Context (tuning : Tuning.ConnectionRuntimeTuning) (clock : nat -> Z) (telemetry rtcp_telemetry : bool).
Context (udp : nat -> UdpOutcome) (ws : nat -> bool) (ready : GatewayReady) (ready_timeout heartbeat_interval_ms : Z) (retry_fuel : nat).

Inductive ConnectionCommand :=
| CmdSetSpeaking (flags delay : Z)
| CmdRecvUdpPacket (kind : ReadyFrames.LowLevelReceiveKind) (max_len : nat) (response : nat)
| CmdOpenFrameStream (frames : ReadyFrames.Channel Pipeline.Error) (response : reply)
| CmdDaveMediaStatus (response : reply)
| CmdWaitUntilMediaReady (max_wait : Z) (response : reply)
| CmdSendMediaFrame (codec : MediaCodec) (frame : bytes) (duration : Z) (response : reply)
| CmdClose.

Abbreviation now := (Send.now clock).
Abbreviation resolve_active_playout := (Playout.resolve_active_playout clock udp ws ready ready_timeout).
Abbreviation handle_playout_command := (Playout.handle_playout_command clock udp ws ready ready_timeout).

(** Methods that work on the receive side. *)
Definition on_base {E A} (f : E -> Error) (m : st Pipeline.Driver E A) : drv A :=
  fun d => let '(r, b) := m (base d) in (map_err f r, with_base b d).

Definition receiving {A} (m : Pipeline.drv A) : drv A := on_base (fun e : Empty_set => match e with end) m.

(** ** Waiting for the media to be ready *)
Fixpoint complete_all {A} (f : A -> reply * Answer) (l : list A) : drv () :=
  match l with [] => mret () | x :: l => _ ← complete (f x).1 (f x).2; complete_all f l end.

(** [drain_all] and [drain_expired] of the queues. *)
Definition drain_waits (m : DeadlineQueue (T := PendingMediaReadyWait) -> res Error (list PendingMediaReadyWait * DeadlineQueue (T := PendingMediaReadyWait)))
    : drv (list PendingMediaReadyWait) :=
  fun d => match m (pending_media_ready_waits d) with
           | Ok (l, q) => (Ok l, with_waits q (pending_media_ready_sends d) d) | Err e => (Err e, d) | Panic => (Panic, d) end.
Definition drain_sends (m : DeadlineQueue (T := PendingMediaFrameSend) -> res Error (list PendingMediaFrameSend * DeadlineQueue (T := PendingMediaFrameSend)))
    : drv (list PendingMediaFrameSend) :=
  fun d => match m (pending_media_ready_sends d) with
           | Ok (l, q) => (Ok l, with_waits (pending_media_ready_waits d) q d) | Err e => (Err e, d) | Panic => (Panic, d) end.

Definition resolve_pending_media_ready_waits : drv () :=
  status ← gets media_status;
  if Pipeline.media_ready status then
    l ← drain_waits (fun q => Ok (drain_all q)); complete_all (fun w => (wait_response w, AnswerStatus (inr status))) l
  else
    t ← now;
    l ← drain_waits (drain_expired t); complete_all (fun w => (wait_response w, AnswerStatus (inl (ETimeout (wait_max_wait w))))) l.

Definition complete_media_frame_send (s : PendingMediaFrameSend) : drv () :=
  r ← (fun d => match send_ready_media_frame udp (send_codec s) (send_frame s) (send_duration s) d with
                | (Ok packet, d) => (Ok (inr packet), d) | (Err e, d) => (Ok (inl e), d) | (Panic, d) => (Panic, d) end);
  complete (send_response s) (AnswerPacket r).

Fixpoint complete_sends (l : list PendingMediaFrameSend) : drv () :=
  match l with [] => mret () | s :: l => _ ← complete_media_frame_send s; complete_sends l end.

Definition resolve_pending_media_ready_sends : drv () :=
  status ← gets media_status;
  if Pipeline.media_ready status then l ← drain_sends (fun q => Ok (drain_all q)); complete_sends l
  else
    t ← now;
    l ← drain_sends (drain_expired t); complete_all (fun s => (send_response s, AnswerPacket (inl (ETimeout (send_max_wait s))))) l.

Definition resolve_pending_media_ready : drv () := _ ← resolve_pending_media_ready_waits; resolve_pending_media_ready_sends.

Definition send_media_frame_when_ready (s : PendingMediaFrameSend) : drv () :=
  status ← gets media_status;
  if Pipeline.media_ready status then complete_media_frame_send s
  else
    t ← now;
    modify (fun d => with_waits (pending_media_ready_waits d) (timers_push s (t + send_max_wait s) (pending_media_ready_sends d)) d).

(** ** Closing the connection *)

(** [ConnectionClose::close]: the signal every task of the connection watches. *)
Definition close_signal : drv () := modify with_closed.

(** [let _ = self.write.send(WsMessage::Close(None)).await] *)
Definition send_close_frame : drv () := fun d => (Ok (), with_close_frames (if ws (ws_count d) then 1 else 0) d).

(** ** Commands of the user *)
Definition attach_stream (c : ReadyFrames.Channel Pipeline.Error) : drv bool :=
  fun d => let '(r, h) := ReadyFrames.attach_frame_stream c (Pipeline.d_hand (base d)) in
           (match r with Ok _ => Ok true | Err _ => Ok false | Panic => Panic end, with_base (Pipeline.with_hand h (base d)) d).

Definition handle_command (command : ConnectionCommand) : drv () :=
  match command with
  | CmdSetSpeaking flags delay =>
      send_voice_gateway_command ws
        (Gateway.CmdSpeaking {| Gateway.cmd_speaking := flags; Gateway.cmd_delay := Some delay; Gateway.cmd_ssrc := ready_ssrc ready; Gateway.cmd_user_id := None |})
  | CmdRecvUdpPacket kind max_len response =>
      fun d => match ReadyFrames.push_packet_receive kind {| ReadyFrames.max_len := max_len; ReadyFrames.response := response |} (Pipeline.d_requests (base d)) with
               | Ok q => (Ok (), with_base (Pipeline.with_requests q [] (base d)) d)
               | Err e => (Err e, d)
               | Panic => (Panic, d)
               end
  | CmdOpenFrameStream c response =>
      attached ← attach_stream c;
      if attached : bool then
        _ ← complete response (AnswerStream (inr ()));
        _ ← receiving (Pipeline.collect_ready_voice_frames tuning clock telemetry);
        receiving (Pipeline.flush telemetry)
      else complete response (AnswerStream (inl EFrameStreamActive))
  | CmdDaveMediaStatus response => status ← gets media_status; complete response (AnswerStatus (inr status))
  | CmdWaitUntilMediaReady max_wait response =>
      t ← now;
      _ ← modify (fun d => with_waits (timers_push {| wait_response := response; wait_max_wait := max_wait |} (t + max_wait) (pending_media_ready_waits d))
                             (pending_media_ready_sends d) d);
      resolve_pending_media_ready_waits
  | CmdSendMediaFrame c frame duration response =>
      send_media_frame_when_ready
        {| send_codec := c; send_frame := frame; send_duration := duration; send_response := response; send_max_wait := ready_timeout |}
  | CmdClose => _ ← close_signal; send_close_frame
  end.

(** ** Messages of the gateway *)

(** [WsText None] is a text that is not an event. *)
Inductive WsMessage :=
| WsText (event : option (Z * option Z * Gateway.json))
| WsBinary (b : bytes)
| WsClose
| WsOther
| WsError
| WsEnd.

Definition set_conn (c : Gateway.ConnectionInternalState) : drv () := modify (fun d => with_base (Pipeline.with_conn c (Pipeline.d_dave (base d)) (base d)) d).

Definition apply_gateway_effects (e : Gateway.GatewayEventEffects) : drv () := on_base ESend (Pipeline.apply_gateway_effects clock e).

(** [random] is what the random number generator gives for a new video stream.
    The value is the effects, or [None] when the connection has been closed. *)
Definition handle_websocket_message (random : option bytes) (ack : Gateway.GatewayHeartbeatAckState) (m : WsMessage)
    : drv (option Gateway.GatewayEventEffects * Gateway.GatewayHeartbeatAckState) :=
  match m with
  | WsText None => throw EGatewayEvent
  | WsText (Some (opcode, seq, data)) =>
      c ← gets (fun d => Gateway.note_seq seq (Pipeline.d_conn (base d)));
      _ ← set_conn c;
      '(effects, c, ack) ← lift (map_err (fun _ => EGatewayEvent) (Gateway.handle_text_event opcode data ack c));
      _ ← set_conn c;
      _ ← apply_gateway_effects effects;
      _ ← (if Gateway.media_session_updated effects then
             c ← gets (fun d => Pipeline.d_conn (base d));
             p ← gets send;
             p ← lift (map_err ESend (update_negotiated_media random ready c p));
             modify (with_send p)
           else mret ());
      mret (Some effects, ack)
  | WsBinary b =>
      c ← gets (fun d => Pipeline.d_conn (base d));
      let '(r, c) := Gateway.handle_voice_binary_event b c in
      _ ← set_conn c;
      effects ← lift (map_err (fun _ => EGatewayEvent) r);
      _ ← apply_gateway_effects effects;
      mret (Some effects, ack)
  | WsClose | WsEnd => _ ← close_signal; mret (None, ack)
  | WsOther => mret (Some Gateway.effects_default, ack)
  | WsError => throw EWebSocket
  end.

Fixpoint send_commands (l : list Gateway.GatewayCommand) : drv () :=
  match l with [] => mret () | c :: l => _ ← send_voice_gateway_command ws c; send_commands l end.

Definition pump_dave : drv () :=
  t ← now;
  commands ← (fun d =>
    let c := Pipeline.d_conn (base d) in
    let '(r, v) := dave_pump t (Gateway.dave c) (Gateway.connected_user_ids c) (Gateway.roster_authoritative c) (Pipeline.d_dave (base d)) in
    (map_err (fun _ => EDavePump) r, with_base (Pipeline.with_conn c v (base d)) d));
  send_commands commands.

(** ** The wake deadline *)
Definition min_opt (a b : option Z) : option Z :=
  match a, b with Some x, Some y => Some (Z.min x y) | Some x, None => Some x | None, b => b end.

Definition next_driver_wake_deadline : drv (option Z) :=
  rx ← gets (fun d => min_opt (Receive.pending_dave_media_deadline (Pipeline.d_rx (base d))) (Receive.pending_rtp_reorder_deadline (Pipeline.d_rx (base d))));
  active ← gets (fun d => active_playout (send d));
  wake ← match active with Some p => wake_deadline clock p | None => mret None end;
  timers ← gets (fun d => min_opt (timers_next_deadline (pending_media_ready_waits d)) (timers_next_deadline (pending_media_ready_sends d)));
  mret (min_opt rx (min_opt wake (min_opt (match active with Some p => dave_deadline p | None => None end) timers))).

(** ** The loop *)
Inductive DriverEvent :=
| EvHeartbeat
| EvCommand (c : option ConnectionCommand)
| EvPlayout (c : option PlayoutCommand)
| EvClosed
| EvDatagram (packet : option bytes)
| EvWake
| EvMessage (random : option bytes) (m : WsMessage).

(** The variables of [run_loop]. *)
Record LoopState := { heartbeat_ack : Gateway.GatewayHeartbeatAckState; heartbeat_nonce : Z }.

(** [gone n r]: at the [n]-th clock reading the user has dropped the receiver
    of the packet request [r]. *)
Context (gone : nat -> nat -> bool).

Definition discard_closed : drv () :=
  fun d => match ReadyFrames.discard_closed_packet_receives (gone (Pipeline.d_ticks (base d))) (Pipeline.d_requests (base d)) with
           | Ok q => (Ok (), with_base (Pipeline.with_requests q [] (base d)) d)
           | Err e => (Err e, d)
           | Panic => (Panic, d)
           end.

(** The statements before [select!]. *)
Definition turn_start : drv () :=
  _ ← discard_closed;
  _ ← receiving (Pipeline.flush telemetry);
  _ ← resolve_pending_media_ready;
  _ ← resolve_active_playout;
  _ ← next_driver_wake_deadline;
  mret ().

Definition heartbeat_tick (l : LoopState) : drv LoopState :=
  if Gateway.ack_pending (heartbeat_ack l) then
    t ← now;
    if Gateway.timed_out t (heartbeat_ack_timeout heartbeat_interval_ms) (heartbeat_ack l) then throw EHeartbeatAckTimeout else mret l
  else
    let nonce := Outbound.heartbeat_next (heartbeat_nonce l) in
    seq ← gets (fun d => Gateway.conn_last_seq (Pipeline.d_conn (base d)));
    _ ← send_voice_gateway_command ws (Gateway.CmdHeartbeat {| Gateway.heartbeat_t := nonce; Gateway.heartbeat_seq_ack := seq |});
    t ← now;
    mret {| heartbeat_ack := Gateway.mark_sent t (heartbeat_ack l); heartbeat_nonce := nonce |}.

(** One branch of [select!]; [None] breaks the loop. *)
Definition on_event (ev : DriverEvent) (l : LoopState) : drv (option LoopState) :=
  match ev with
  | EvHeartbeat => l ← heartbeat_tick l; mret (Some l)
  | EvCommand (Some c) => _ ← handle_command c; mret (Some l)
  | EvCommand None => _ ← close_signal; _ ← send_close_frame; mret None
  | EvPlayout (Some c) => _ ← handle_playout_command c; mret (Some l)
  | EvPlayout None => mret (Some l)
  | EvClosed => _ ← send_close_frame; mret None
  | EvDatagram (Some packet) => _ ← receiving (Pipeline.handle_received_udp_packet tuning clock telemetry rtcp_telemetry packet); mret (Some l)
  | EvDatagram None => throw EIo
  | EvWake => _ ← receiving (Pipeline.on_wake_deadline tuning clock telemetry); _ ← resolve_active_playout; mret (Some l)
  | EvMessage random m =>
      '(effects, ack) ← handle_websocket_message random (heartbeat_ack l) m;
      let l := {| heartbeat_ack := ack; heartbeat_nonce := heartbeat_nonce l |} in
      match effects with
      | None => mret None
      | Some effects =>
          _ ← pump_dave;
          _ ← resolve_pending_media_ready;
          _ ← receiving (Pipeline.after_gateway_event tuning clock telemetry retry_fuel (Gateway.retry_dave_pending_media effects));
          _ ← resolve_active_playout;
          mret (Some l)
      end
  end.

(** The loop over the events [select!] picks; [false] when they run out before
    the loop breaks. *)
Fixpoint event_loop (evs : list DriverEvent) (l : LoopState) : drv bool :=
  match evs with
  | [] => mret false
  | ev :: evs =>
      _ ← turn_start;
      o ← on_event ev l;
      match o with None => mret true | Some l => event_loop evs l end
  end.

(** [random] is what the random number generator gives for the first nonce. *)
Definition run_loop (random : option bytes) (evs : list DriverEvent) : drv bool :=
  nonce ← lift (map_err ESend (Outbound.heartbeat_initial random));
  _ ← pump_dave;
  _ ← resolve_pending_media_ready;
  event_loop evs {| heartbeat_ack := Gateway.ack_default; heartbeat_nonce := nonce |}.

(** ** Closing *)

(** [ConnectionCommand::complete_closed] *)
Definition closed_status : Pipeline.DaveMediaStatus :=
  {| Pipeline.requires_dave := false; Pipeline.status_send_version := None; Pipeline.status_receive_version := None; Pipeline.media_ready := false;
     Pipeline.session_ready := false; Pipeline.status_send_ready := false; Pipeline.status_transition_ready := None;
     Pipeline.status_protocol_version := None; Pipeline.status_transition_id := None; Pipeline.status_mls := DaveGateway.mls_state DaveGateway.dave_default |}.

Definition command_complete_closed (c : ConnectionCommand) : drv () :=
  match c with
  | CmdRecvUdpPacket _ _ response =>
      modify (fun d => with_base (Pipeline.with_requests (Pipeline.d_requests (base d)) [(response, inl ReadyFrames.ConnectionClosed)] (base d)) d)
  | CmdOpenFrameStream _ response => complete response (AnswerStream (inl EClosed))
  | CmdDaveMediaStatus response => complete response (AnswerStatus (inr closed_status))
  | CmdWaitUntilMediaReady _ response => complete response (AnswerStatus (inl EClosed))
  | CmdSendMediaFrame _ _ _ response => complete response (AnswerPacket (inl EClosed))
  | CmdSetSpeaking _ _ | CmdClose => mret ()
  end.

(** [PlayoutCommand::complete_closed] *)
Definition playout_complete_closed (c : PlayoutCommand) : drv () :=
  match c with
  | CmdStart response => complete response (AnswerPlayoutId (inl EClosed))
  | CmdFinish _ response => complete response (AnswerPlayoutStats (inl EClosed))
  | CmdFrame _ _ | CmdFrames _ _ | CmdCancel _ => mret ()
  end.

Fixpoint each {A} (f : A -> drv ()) (l : list A) : drv () := match l with [] => mret () | x :: l => _ ← f x; each f l end.

Definition close_packet_receives : drv () :=
  fun d => match ReadyFrames.complete_closed_packet_receives (Pipeline.d_requests (base d)) with
           | Ok (replies, q) => (Ok (), with_base (Pipeline.with_requests q replies (base d)) d)
           | Err e => (Err e, d)
           | Panic => (Panic, d)
           end.

(** [commands] and [playout_commands] are still in the channels. *)
Definition complete_pending_closed (commands : list ConnectionCommand) (playout_commands : list PlayoutCommand) : drv () :=
  _ ← each command_complete_closed commands;
  _ ← each playout_complete_closed playout_commands;
  _ ← close_packet_receives;
  active ← gets (fun d => active_playout (send d));
  _ ← match active with Some p => _ ← set_active None; playout_cancel p | None => mret () end;
  waits ← drain_waits (fun q => Ok (drain_all q));
  _ ← complete_all (fun w => (wait_response w, AnswerStatus (inl EClosed))) waits;
  sends ← drain_sends (fun q => Ok (drain_all q));
  complete_all (fun s => (send_response s, AnswerPacket (inl EClosed))) sends.

(** [ConnectionDriver::run]: the loop, then the close signal is set and everything
    that waits is answered, whatever the loop returned. *)
Definition run (random : option bytes) (evs : list DriverEvent) (commands : list ConnectionCommand) (playout_commands : list PlayoutCommand) : drv bool :=
  fun d => match run_loop random evs d with
           | (Panic, d) => (Panic, d)
           | (r, d) => match complete_pending_closed commands playout_commands (with_closed d) with
                       | (Ok _, d) => (r, d) | (Err e, d) => (Err e, d) | (Panic, d) => (Panic, d) end
           end.

End Driver.

(** The coordinator as what the driver pumps. *)
Section Media.
Context `{P : RatchetPrimitives} `{A : Gcm.FrameAead} `{M : Session.Mls}.

#[export] Instance coordinator_pump : DavePump Pipeline.coordinator_media :=
  Build_DavePump Pipeline.coordinator_media (Coordinator.DaveError (D := Coordinator.dave_session)) (Coordinator.pump (D := Coordinator.dave_session)).
End Media.
End Driver.
