(* ===== verification/PacketRequests.v ===== *)
(** * Requests for single packets, over a run of the driver

    A request of [recv_raw_udp_packet] or [recv_rtp_udp_packet] is put into a
    queue and answered by a datagram or when the connection ends; a request whose
    receiver the user has dropped is discarded.  Every method of the driver but
    the one that takes the request, the one that discards and the ones that
    close accounts for all of them ([served]): a request waits until it is
    answered, and it is answered once. *)

From S2P Require Import Prelude Effects Tuning Frame Rtp Codecs Outbound RtpPayload Queue Assembler PendingMedia Receive DaveGateway Gateway.
From S2P Require Import ReadyFrames Pipeline OpusPacket Send Playout Driver.
Import PendingMedia.PendingMedia Queue.Timers Send Playout Driver.

Module PacketRequests.

(** ** The receive side *)
Section Mono.
Context {R : Assembler.FrameRaw} {PC : Pipeline.PacketCapture R} {AEAD : Rtp.TransportAead} {D : Pipeline.DaveMedia}.
Context {IS : Deadlines.SetIter (K := Z)} {IB : Deadlines.SetIter (K := PendingMedia.DavePendingMediaBucket)}.
Context (tuning : Tuning.ConnectionRuntimeTuning) (clock : nat -> Z) (telemetry rtcp_telemetry : bool).

(** The requests that wait, and with them those that have been answered. *)
Definition waiting (b : Pipeline.Driver) : list reply := ReadyFrames.response <$> mjoin (Pipeline.d_requests b).
Definition tracked (b : Pipeline.Driver) : list reply := (Pipeline.d_replies b).*1 ++ waiting b.

(** No request is lost or answered twice between [b] and [b']. *)
Definition served (b b' : Pipeline.Driver) : Prop :=
  length (Pipeline.d_requests b) = 2%nat -> length (Pipeline.d_requests b') = 2%nat /\ tracked b' ≡ₚ tracked b.

#[export] Instance served_preorder : PreOrder served.
Proof.
  split; [by intros b|]. intros b1 b2 b3 H12 H23 H1. destruct (H12 H1) as [H2 Hp]. destruct (H23 H2) as [H3 Hp']. split; [done|]. by rewrite Hp', Hp.
Qed.

Lemma served_same b b' : Pipeline.d_requests b' = Pipeline.d_requests b -> Pipeline.d_replies b' = Pipeline.d_replies b -> served b b'.
Proof. unfold served, tracked, waiting. by intros -> ->. Qed.

(** A datagram answers the head of a queue. *)
Lemma served_receives info packet b r b' : Pipeline.resolve_receives info packet b = (r, b') -> served b b'.
Proof.
  unfold Pipeline.resolve_receives. intros Hr Hl. destruct (Pipeline.d_requests b) as [|raw [|rtp [|]]] eqn:Hq; try done.
  destruct (ReadyFrames.packet_requests_fifo (E := Empty_set) info packet raw rtp) as [Hres _]. rewrite Hres in Hr. injection Hr as <- <-. split; [done|].
  unfold tracked, waiting. rewrite Hq. cbn. rewrite !fmap_app, !app_nil_r, <- !app_assoc. apply Permutation_app_head.
  destruct raw as [|x raw], rtp as [|y rtp], (Rtp.is_rtcp info); cbn; rewrite ?app_nil_r; try done; by rewrite <- ?Permutation_middle.
Qed.

(** Time passes and the requests are served. *)
Definition later (b b' : Pipeline.Driver) : Prop := (Pipeline.d_ticks b <= Pipeline.d_ticks b')%nat /\ served b b'.

Lemma later_same b b' : (Pipeline.d_ticks b <= Pipeline.d_ticks b')%nat -> Pipeline.d_requests b' = Pipeline.d_requests b ->
  Pipeline.d_replies b' = Pipeline.d_replies b -> later b b'.
Proof. intros. split; [done|]. by apply served_same. Qed.

Definition mono {E A} (m : st Pipeline.Driver E A) : Prop := forall b, later b (m b).2.

Lemma mono_bind {E A B} (m : st Pipeline.Driver E A) (f : A -> st Pipeline.Driver E B) : mono m -> (forall a, mono (f a)) -> mono (m ≫= f).
Proof.
  intros Hm Hf b. unfold mbind, st_mbind. specialize (Hm b). destruct (m b) as [[a|e|] b']; [|done|done]. specialize (Hf a b').
  destruct Hm as [Ht Hs], Hf as [Ht' Hs']. cbn [snd] in *. split; [lia|by rewrite Hs].
Qed.

Ltac same := first [by apply later_same | apply later_same; cbn; lia].

Lemma mono_ret {E A} (a : A) : mono (E := E) (mret a).
Proof. intros b. same. Qed.
Lemma mono_gets {E A} (f : Pipeline.Driver -> A) : mono (E := E) (gets f).
Proof. intros b. same. Qed.
Lemma mono_lift {E A} (m : res E A) : mono (lift m).
Proof. intros b. same. Qed.
Lemma mono_now : mono (Pipeline.now clock).
Proof. intros b. apply later_same; [cbn; lia|done|done]. Qed.
Lemma mono_emit ev : mono (Pipeline.emit ev).
Proof. intros b. same. Qed.
Lemma mono_panic {A} : mono (Pipeline.panic (A := A)).
Proof. intros b. same. Qed.
Lemma mono_pending {A} f : mono (Pipeline.on_pending (A := A) f).
Proof. intros b. unfold Pipeline.on_pending. destruct (f _) as [[a q]|e|]; same. Qed.
Lemma mono_dave t u mt frame : mono (Pipeline.session_decrypt t u mt frame).
Proof. intros b. unfold Pipeline.session_decrypt. destruct (Pipeline.dave_decrypt _ _ _ _ _); same. Qed.
Lemma mono_note m : mono (Pipeline.note_frame m).
Proof. intros b. same. Qed.
Lemma mono_rx {A} f : mono (Pipeline.on_rx (A := A) f).
Proof. intros b. unfold Pipeline.on_rx. destruct (f _) as [[r rx] ev]; same. Qed.
Lemma mono_flush : mono (Pipeline.flush telemetry).
Proof. intros b. unfold Pipeline.flush. destruct (ReadyFrames.flush_frame_stream _ _); same. Qed.
Lemma mono_queue r : mono (Pipeline.queue_ready_voice_frame telemetry r).
Proof. intros b. cbn. destruct (ReadyFrames.ready_push _ _ _); same. Qed.
Lemma mono_receives info packet : mono (Pipeline.resolve_receives info packet).
Proof.
  intros b. destruct (Pipeline.resolve_receives info packet b) as [r b'] eqn:Hr. split; [|by eapply served_receives].
  unfold Pipeline.resolve_receives in Hr. destruct (ReadyFrames.resolve_pending_low_level_receives _ _ _) as [[? ?]|?|]; by injection Hr as <- <-.
Qed.
Lemma mono_grace : mono (Pipeline.allow_grace clock).
Proof. intros b. apply later_same; [cbn; lia|done|done]. Qed.
Lemma mono_prune removed : mono (Pipeline.prune removed).
Proof. intros b. unfold Pipeline.prune. destruct (Receive.prune_ssrcs _ _); same. Qed.
Lemma mono_transport {E} t : mono (E := E) (modify (Pipeline.with_transport t)).
Proof. intros b. same. Qed.

Create HintDb mono.
Hint Resolve mono_ret mono_gets mono_lift mono_now mono_emit mono_panic mono_pending mono_dave mono_note mono_rx mono_flush mono_queue mono_receives mono_grace
  mono_prune mono_transport : mono.

Ltac mono_auto :=
  repeat first
    [ progress intros | eassumption | solve [eauto with mono] | apply mono_bind
    | match goal with |- mono (match ?x with _ => _ end) => destruct x | |- mono (if ?x then _ else _) => destruct x end ].

Lemma mono_decode m : mono (Pipeline.decode_or_enqueue_dave_media tuning clock telemetry m).
Proof.
  unfold Pipeline.decode_or_enqueue_dave_media, Pipeline.enqueue_dave_media, Pipeline.observe_pending_dave_media, Pipeline.observe_decode_error, Pipeline.decrypt_media_frame,
    Pipeline.pending_event, Pipeline.elapsed, Pipeline.when. mono_auto.
Qed.
Hint Resolve mono_decode : mono.

Lemma mono_ordered m : mono (Pipeline.decode_ordered_media_frame tuning clock telemetry m).
Proof. unfold Pipeline.decode_ordered_media_frame. mono_auto. Qed.
Hint Resolve mono_ordered : mono.

Lemma mono_drain fuel : mono (Pipeline.drain_ready_loop tuning clock telemetry fuel).
Proof. induction fuel as [|fuel IH]; cbn [Pipeline.drain_ready_loop]; unfold Pipeline.drain_once; mono_auto. Qed.
Hint Resolve mono_drain : mono.

Lemma mono_collect : mono (Pipeline.collect_ready_voice_frames tuning clock telemetry).
Proof.
  unfold Pipeline.collect_ready_voice_frames. apply mono_bind; [mono_auto|]. intros fuel.
  induction fuel as [|fuel IH]; cbn [Pipeline.collect_loop]; unfold Pipeline.drain_ready_voice_frame; mono_auto.
Qed.
Hint Resolve mono_collect : mono.

Lemma mono_retry fuel retry : mono (Pipeline.retry_pending_dave_media tuning clock telemetry fuel retry).
Proof.
  unfold Pipeline.retry_pending_dave_media. destruct (PendingMedia.retry_is_empty retry); [mono_auto|].
  induction fuel as [|fuel IH]; cbn [Pipeline.retry_loop];
    unfold Pipeline.decode_and_queue, Pipeline.observe_pending_dave_media, Pipeline.pending_event, Pipeline.elapsed, Pipeline.when; mono_auto.
Qed.

Lemma mono_after fuel retry : mono (Pipeline.after_gateway_event tuning clock telemetry fuel retry).
Proof. unfold Pipeline.after_gateway_event. apply mono_bind; [apply mono_retry|]. mono_auto. Qed.

Lemma mono_wake : mono (Pipeline.on_wake_deadline tuning clock telemetry).
Proof.
  unfold Pipeline.on_wake_deadline, Pipeline.expire_pending_dave_media. apply mono_bind; [|mono_auto]. apply mono_bind; [mono_auto|]. intros fuel.
  induction fuel as [|fuel IH]; cbn [Pipeline.expire_pending_loop]; unfold Pipeline.observe_pending_dave_media, Pipeline.pending_event, Pipeline.elapsed, Pipeline.when; mono_auto.
Qed.

Lemma mono_effects effects : mono (Pipeline.apply_gateway_effects clock effects).
Proof. unfold Pipeline.apply_gateway_effects. mono_auto. Qed.

Lemma mono_packet packet : mono (Pipeline.handle_received_udp_packet tuning clock telemetry rtcp_telemetry packet).
Proof.
  unfold Pipeline.handle_received_udp_packet, Pipeline.decode_received_voice_packet, Pipeline.observe_decode_error, Pipeline.when. mono_auto.
Qed.
End Mono.

(** ** The driver *)
Section Driver.
Context {R : Assembler.FrameRaw} {PC : Pipeline.PacketCapture R} {AEAD : Rtp.TransportAead}.
Context {D : Pipeline.DaveMedia} {DS : DaveSend D} {DP : DavePump D} {J : Gateway.GatewayJson}.
Context {IS : Deadlines.SetIter (K := Z)} {IB : Deadlines.SetIter (K := PendingMedia.DavePendingMediaBucket)}.
Context (tuning : Tuning.ConnectionRuntimeTuning) (clock : nat -> Z) (telemetry rtcp_telemetry : bool).
Context (udp : nat -> UdpOutcome) (ws : nat -> bool) (ready : GatewayReady) (ready_timeout heartbeat_interval_ms : Z) (retry_fuel : nat).
Context (gone : nat -> nat -> bool).

Definition serves {A} (m : drv A) : Prop := forall d, served (base d) (base (m d).2).

Lemma serves_bind {A B} (m : drv A) (f : A -> drv B) : serves m -> (forall a, serves (f a)) -> serves (m ≫= f).
Proof.
  intros Hm Hf d. unfold mbind, st_mbind. specialize (Hm d). destruct (m d) as [[a|e|] d']; [|done|done]. by etrans; [|apply Hf].
Qed.

(** Code that leaves the requests alone. *)
Lemma serves_same {A} (m : drv A) :
  (forall d, Pipeline.d_requests (base (m d).2) = Pipeline.d_requests (base d) /\ Pipeline.d_replies (base (m d).2) = Pipeline.d_replies (base d)) -> serves m.
Proof. intros H d. destruct (H d). by apply served_same. Qed.

Lemma serves_base {E A} (f : E -> Error) (m : st Pipeline.Driver E A) : mono m -> serves (on_base f m).
Proof. intros Hm d. unfold on_base. specialize (Hm (base d)). destruct (m (base d)) as [r b]. apply Hm. Qed.

Lemma serves_caught {A B} (m : drv A) (f : A -> B) (g : Error -> B) : serves m ->
  serves (fun d => match m d with (Ok a, d) => (Ok (f a), d) | (Err e, d) => (Ok (g e), d) | (Panic, d) => (Panic, d) end).
Proof. intros Hm d. specialize (Hm d). by destruct (m d) as [[a|e|] d']. Qed.

Lemma serves_drain_waits m : serves (drain_waits m).
Proof. apply serves_same. intros d. unfold drain_waits. by destruct (m _) as [[]| |]. Qed.
Lemma serves_drain_sends m : serves (drain_sends m).
Proof. apply serves_same. intros d. unfold drain_sends. by destruct (m _) as [[]| |]. Qed.
Lemma serves_encrypt c frame : serves (encrypt_media_frame c frame).
Proof. apply serves_same. intros d. unfold encrypt_media_frame. by destruct (dave_encrypt _ _ _). Qed.
Lemma serves_udp g : serves (udp_send udp g).
Proof. apply serves_same. intros d. unfold udp_send. by destruct (udp _). Qed.
Lemma serves_gateway c : serves (send_voice_gateway_command ws c).
Proof. apply serves_same. intros d. unfold send_voice_gateway_command. by destruct (ws _). Qed.
Lemma serves_attach c : serves (attach_stream c).
Proof. apply serves_same. intros d. unfold attach_stream. by destruct (ReadyFrames.attach_frame_stream _ _). Qed.

Create HintDb serves.
Hint Resolve serves_drain_waits serves_drain_sends serves_encrypt serves_udp serves_gateway serves_attach : serves.

Ltac serves_auto :=
  repeat first
    [ progress intros | eassumption | solve [eauto with serves] | solve [apply serves_same; intros; done] | apply serves_bind
    | match goal with |- serves (match ?x with _ => _ end) => destruct x | |- serves (if ?x then _ else _) => destruct x end ].

Lemma serves_loop fuel mt t duration p rtp last : serves (send_loop udp fuel mt t duration p rtp last).
Proof. revert p rtp last. induction fuel as [|fuel IH]; intros p rtp last; cbn [send_loop]; serves_auto. Qed.
Hint Resolve serves_loop : serves.

Lemma serves_send c frame duration : serves (send_ready_media_frame udp c frame duration).
Proof. unfold send_ready_media_frame. serves_auto. Qed.
Hint Resolve serves_send : serves.

Lemma serves_complete_all {A} (f : A -> reply * Answer) l : serves (complete_all f l).
Proof. induction l as [|x l IH]; cbn [complete_all]; serves_auto. Qed.
Hint Resolve serves_complete_all : serves.

Lemma serves_complete_send s : serves (complete_media_frame_send udp s).
Proof. unfold complete_media_frame_send. apply serves_bind; [apply serves_caught, serves_send|serves_auto]. Qed.
Hint Resolve serves_complete_send : serves.

Lemma serves_sends l : serves (complete_sends udp l).
Proof. induction l as [|x l IH]; cbn [complete_sends]; serves_auto. Qed.
Hint Resolve serves_sends : serves.

Lemma serves_waits : serves (resolve_pending_media_ready_waits clock).
Proof. unfold resolve_pending_media_ready_waits. serves_auto. Qed.
Hint Resolve serves_waits : serves.

Lemma serves_media_ready : serves (resolve_pending_media_ready clock udp).
Proof. unfold resolve_pending_media_ready, resolve_pending_media_ready_sends. serves_auto. Qed.
Hint Resolve serves_media_ready : serves.

(** *** The playout *)
Lemma serves_stop p : serves (stop_speaking ws ready p).
Proof. unfold stop_speaking, send_playout_speaking. serves_auto. Qed.
Hint Resolve serves_stop : serves.

Lemma serves_fail p e : serves (fail_playout ws ready p e).
Proof. unfold fail_playout. serves_auto. Qed.
Hint Resolve serves_fail : serves.

Lemma serves_send_next due duration p : serves (send_next clock udp ws ready due duration p).
Proof.
  unfold send_next, send_playout_speaking. cbv zeta. apply serves_bind; [serves_auto|]. intros p'. destruct (frames p'); [serves_auto|].
  do 2 (apply serves_bind; [serves_auto|]; intros ?). apply serves_bind; [apply serves_caught; apply serves_send|]. serves_auto.
Qed.
Hint Resolve serves_send_next : serves.

Lemma serves_resolve : serves (resolve_active_playout clock udp ws ready ready_timeout).
Proof. unfold resolve_active_playout, complete_playout, await_media, ready_to_complete. serves_auto. Qed.
Hint Resolve serves_resolve : serves.

Lemma serves_playout c : serves (handle_playout_command clock udp ws ready ready_timeout c).
Proof. unfold handle_playout_command, push, push_many, record_underflow_if_needed, cancel_playout, playout_cancel. serves_auto. Qed.
Hint Resolve serves_playout : serves.

(** *** Commands, messages and turns *)
Definition is_packet_request (c : ConnectionCommand) : bool := match c with CmdRecvUdpPacket _ _ _ => true | _ => false end.

Lemma serves_command c : is_packet_request c = false -> serves (handle_command tuning clock telemetry udp ws ready ready_timeout c).
Proof.
  intros Hc. destruct c; try done; cbn [handle_command]; unfold send_media_frame_when_ready, receiving; serves_auto;
    apply serves_base; [apply mono_collect|apply mono_flush].
Qed.

Lemma serves_message random ack m : serves (handle_websocket_message clock ready random ack m).
Proof.
  assert (forall e, serves (apply_gateway_effects clock e)) by (intros e; apply serves_base, mono_effects).
  destruct m as [[[[opcode seq] data]|]|b| | | |]; cbn [handle_websocket_message]; serves_auto.
Qed.
Hint Resolve serves_message : serves.

Lemma serves_commands l : serves (send_commands ws l).
Proof. induction l as [|c l IH]; cbn [send_commands]; serves_auto. Qed.
Hint Resolve serves_commands : serves.

Lemma serves_pump : serves (pump_dave clock ws).
Proof.
  unfold pump_dave. apply serves_bind; [serves_auto|]. intros t. apply serves_bind; [|serves_auto]. apply serves_same. intros d. by destruct (dave_pump _ _ _ _ _).
Qed.
Hint Resolve serves_pump : serves.

Definition event_packet (ev : DriverEvent) : bool := match ev with EvCommand (Some c) => is_packet_request c | _ => false end.

Lemma serves_event ev l : event_packet ev = false ->
  serves (on_event tuning clock telemetry rtcp_telemetry udp ws ready ready_timeout heartbeat_interval_ms retry_fuel ev l).
Proof.
  intros Hev. destruct ev as [|[c|]|[c|]| |[packet|]| |random m]; cbn [on_event]; unfold heartbeat_tick, receiving;
    try (apply serves_bind; [by apply serves_command|]); serves_auto; apply serves_base; [apply mono_packet|apply mono_wake|apply mono_after].
Qed.


(** ** The account *)

(** The requests a command asks for. *)
Definition packet_replies (c : ConnectionCommand) : list reply := match c with CmdRecvUdpPacket _ _ r => [r] | _ => [] end.

(** [ids]: the requests handed to the driver; [abandoned]: those whose receiver
    the user had dropped when the driver looked. *)
Definition account (ids abandoned : list reply) (b : Pipeline.Driver) : Prop :=
  length (Pipeline.d_requests b) = 2%nat /\ ids ≡ₚ tracked b ++ abandoned.

Definition accounted (ids : list reply) (b : Pipeline.Driver) : Prop :=
  exists abandoned, account ids abandoned b /\ forall r, r ∈ abandoned -> exists n, gone n r = true.

Lemma account_served ids ab b b' : served b b' -> account ids ab b -> account ids ab b'.
Proof. intros Hs [Hl Hp]. destruct (Hs Hl) as [Hl' Hp']. split; [done|]. by rewrite Hp'. Qed.

Lemma accounted_served ids b b' : served b b' -> accounted ids b -> accounted ids b'.
Proof. intros Hs (ab & Ha & Hg). exists ab. split; [by eapply account_served|done]. Qed.

Lemma accounted_serves {A} (m : drv A) ids d : serves m -> accounted ids (base d) -> accounted ids (base (m d).2).
Proof. intros Hm. apply accounted_served, Hm. Qed.

Lemma accounted_push ids kind max_len r d : accounted ids (base d) ->
  accounted (ids ++ [r]) (base (handle_command tuning clock telemetry udp ws ready ready_timeout (CmdRecvUdpPacket kind max_len r) d).2).
Proof.
  intros (ab & [Hl Hp] & Hg). exists ab. split; [|done]. cbn [handle_command]. destruct (Pipeline.d_requests (base d)) as [|raw [|rtp [|]]] eqn:Hq; try done.
  unfold tracked, waiting in Hp. rewrite Hq in Hp. cbn in Hp. rewrite app_nil_r, fmap_app in Hp.
  destruct kind; cbn; (split; [done|]); unfold tracked, waiting; cbn; rewrite !app_nil_r, !fmap_app, Hp, <- !app_assoc; cbn;
    do 2 apply Permutation_app_head; rewrite <- ?app_assoc.
  - by rewrite app_assoc, Permutation_app_comm.
  - apply Permutation_app_head. by rewrite Permutation_app_comm.
Qed.

Lemma filter_split (f : ReadyFrames.PendingReceive -> bool) l :
  l ≡ₚ List.filter f l ++ List.filter (fun x => negb (f x)) l.
Proof.
  induction l as [|x l IH]; [done|]. cbn. destruct (f x); cbn; [by rewrite <- IH|]. by rewrite <- Permutation_middle, <- IH.
Qed.

Lemma accounted_discard ids d : accounted ids (base d) -> accounted ids (base (discard_closed gone d).2).
Proof.
  intros (ab & [Hl Hp] & Hg). unfold discard_closed. destruct (Pipeline.d_requests (base d)) as [|raw [|rtp [|]]] eqn:Hq; try done.
  set (g := gone (Pipeline.d_ticks (base d))). unfold tracked, waiting in Hp. rewrite Hq in Hp. cbn in Hp. rewrite app_nil_r in Hp.
  cbn. set (keep := fun receive => negb (g (ReadyFrames.response receive))).
  exists ((ReadyFrames.response <$> List.filter (fun x => negb (keep x)) (raw ++ rtp)) ++ ab). split.
  - split; [done|]. unfold tracked, waiting. cbn. rewrite !app_nil_r, Hp, <- List.filter_app, <- !app_assoc. apply Permutation_app_head. rewrite app_assoc, <- fmap_app.
    by rewrite <- (filter_split keep (raw ++ rtp)).
  - intros r [Hr|Hr]%elem_of_app; [|by apply Hg]. apply list_elem_of_fmap in Hr as (x & -> & Hx). apply list_elem_of_In, filter_In in Hx as [_ Hx].
    exists (Pipeline.d_ticks (base d)). unfold keep in Hx. by rewrite negb_involutive in Hx.
Qed.

Lemma accounted_turn ids d : accounted ids (base d) -> accounted ids (base (turn_start clock telemetry udp ws ready ready_timeout gone d).2).
Proof.
  intros Hd%accounted_discard. unfold turn_start. unfold mbind at 1, st_mbind at 1. destruct (discard_closed gone d) as [[[]|e|] d1]; [|done|done].
  revert Hd. apply accounted_served. cbn [snd].
  match goal with |- served _ (base (?m d1).2) => assert (serves m) as Hs; [|apply Hs] end.
  apply serves_bind; [apply serves_base, mono_flush|]. intros _. apply serves_bind; [apply serves_media_ready|]. intros _. apply serves_bind; [apply serves_resolve|].
  intros _. unfold next_driver_wake_deadline, wake_deadline. serves_auto.
Qed.

Definition event_packets (ev : DriverEvent) : list reply := match ev with EvCommand (Some c) => packet_replies c | _ => [] end.

Lemma accounted_event ids ev l d : accounted ids (base d) ->
  accounted (ids ++ event_packets ev) (base (on_event tuning clock telemetry rtcp_telemetry udp ws ready ready_timeout heartbeat_interval_ms retry_fuel ev l d).2).
Proof.
  intros Hd. destruct (event_packet ev) eqn:Hev.
  - destruct ev as [|[c|]| | | | |]; try done. destruct c as [|kind max_len r| | | | |]; try done. cbn [on_event event_packets packet_replies].
    unfold mbind, st_mbind. pose proof (accounted_push ids kind max_len r d Hd) as Hp. by destruct (handle_command _ _ _ _ _ _ _ _ d) as [[[]|e|] d1].
  - assert (event_packets ev = []) as -> by (destruct ev as [|[[]|]| | | | |]; done). rewrite app_nil_r. by apply accounted_serves; [apply serves_event|].
Qed.

(** *** Closing *)
Lemma account_close_command ids ab c d : account ids ab (base d) -> account (ids ++ packet_replies c) ab (base (command_complete_closed c d).2).
Proof.
  intros Hd. destruct c as [|kind max_len r| | | | |]; cbn [packet_replies command_complete_closed]; rewrite ?app_nil_r; try done.
  destruct Hd as [Hl Hp]. split; [done|]. unfold tracked, waiting in *. cbn. rewrite fmap_app, Hp, <- !app_assoc. apply Permutation_app_head.
  cbn. by rewrite (app_assoc _ ab), Permutation_app_comm.
Qed.

Lemma account_close_commands ids ab l d : account ids ab (base d) -> account (ids ++ mjoin (packet_replies <$> l)) ab (base (each command_complete_closed l d).2).
Proof.
  revert ids d. induction l as [|c l IH]; intros ids d Hd; [by rewrite app_nil_r|]. cbn [each fmap list_fmap mjoin list_join]. rewrite app_assoc.
  pose proof (account_close_command ids ab c d Hd) as Hc. unfold mbind, st_mbind.
  assert (exists d1, command_complete_closed c d = (Ok (), d1)) as (d1 & Heq) by (destruct c; by eexists). rewrite Heq in *. by apply IH.
Qed.

Lemma serves_close_playouts l : serves (each playout_complete_closed l).
Proof. induction l as [|c l IH]; cbn [each]; unfold playout_complete_closed; serves_auto. Qed.

(** After closing nothing waits. *)
Lemma account_close_receives ids ab d : account ids ab (base d) ->
  account ids ab (base (close_packet_receives d).2) /\ waiting (base (close_packet_receives d).2) = [].
Proof.
  intros [Hl Hp]. unfold close_packet_receives. destruct (Pipeline.d_requests (base d)) as [|raw [|rtp [|]]] eqn:Hq; try done.
  destruct (ReadyFrames.packet_requests_fifo (E := Error) (Rtp.Build_RawUdpPacketInfo None None None None None None) [] raw rtp) as [_ Hc]. rewrite Hc. cbn. split; [|done]. split; [done|].
  unfold tracked, waiting in *. rewrite Hq in Hp. rewrite Hp. cbn [base with_base Pipeline.d_replies Pipeline.d_requests Pipeline.with_requests snd].
  rewrite fmap_app, <- list_fmap_compose. cbn. by rewrite !app_nil_r.
Qed.

End Driver.
End PacketRequests.
