(* ===== verification/DriverSpec.v ===== *)
(** * What the driver guarantees to its users

    Every request that carries a reply channel is answered once, and none is
    left when the driver has ended; a playout is sent at the pace of its frames
    and its statistics are answered when the audio has had its time.  Both are
    parts of one invariant, [drv_ok], kept by every method of the driver; the
    requests for single packets, which the receive side answers, have their
    account in PacketRequests.v, and [replies_once] puts both together. *)

From stdpp Require Import sorting.
From S2P Require Import Prelude Effects Tuning Frame Rtp Codecs Outbound RtpPayload Packetize Queue Assembler PendingMedia Receive DaveGateway Gateway.
From S2P Require Import ReadyFrames Pipeline OpusPacket Send Playout Driver PacketRequests.
Import PendingMedia.PendingMedia Queue.Timers Send Playout Driver PacketRequests.

Module DriverSpec.

(** ** Timer queues as bags *)
Section Bags.
Context {T : Type}.

Definition contents (q : DeadlineQueue (T := T)) : list T := mjoin (snd <$> entries (queue_items q)).

Lemma mjoin_perm (l k : list (Z * list T)) : l ≡ₚ k -> mjoin (snd <$> l) ≡ₚ mjoin (snd <$> k).
Proof.
  induction 1 as [|[? x] l k _ IH|[? x] [? y] l|l k m _ IH1 _ IH2]; [done| | |by rewrite IH1].
  - cbn. by rewrite IH.
  - cbn. by rewrite !app_assoc, (Permutation_app_comm y x).
Qed.

Lemma contents_map q : contents q ≡ₚ mjoin (snd <$> map_to_list (queue_items q)).
Proof. apply mjoin_perm, merge_sort_Permutation. Qed.

Lemma contents_default : contents timers_default = [].
Proof. done. Qed.

Lemma contents_push v t q : contents (timers_push v t q) ≡ₚ v :: contents q.
Proof.
  rewrite !contents_map. cbn [timers_push queue_items]. set (m := queue_items q). rewrite <- insert_delete_eq, (map_to_list_insert (delete t m)) by apply lookup_delete_eq.
  cbn. destruct (m !! t) as [l|] eqn:Hl; cbn.
  - rewrite (mjoin_perm (map_to_list m) ((t, l) :: map_to_list (delete t m))).
    + cbn. rewrite <- app_assoc. cbn. by rewrite <- Permutation_middle.
    + rewrite <- (map_to_list_insert (delete t m)) by apply lookup_delete_eq. by rewrite insert_delete_id.
  - by rewrite delete_id.
Qed.

Lemma contents_drain_all q : (drain_all q).1 = contents q /\ contents (drain_all q).2 = [].
Proof. done. Qed.

Lemma partition_perm (f : Z * list T -> bool) l :
  mjoin (snd <$> List.filter f l) ++ mjoin (snd <$> List.filter (fun e => negb (f e)) l) ≡ₚ mjoin (snd <$> l).
Proof.
  induction l as [|[t x] l IH]; [done|]. cbn [List.filter fmap list_fmap mjoin list_join snd]. destruct (f (t, x)); cbn [negb fmap list_fmap mjoin list_join snd].
  - by rewrite <- app_assoc, IH.
  - by rewrite Permutation_app_swap_app, IH.
Qed.

Lemma contents_drain_expired {E} t (q : DeadlineQueue (T := T)) : timers_ok q ->
  exists l q', drain_expired (E := E) t q = Ok (l, q') /\ timers_ok q' /\ contents q ≡ₚ l ++ contents q' /\
    forall d, timers_next_deadline q' = Some d -> t < d.
Proof.
  intros Hq. destruct (drain_expired_loop_spec (E := E) (S (queue_len q)) t q Hq) as (q' & Hr & Hq' & He); [lia|].
  eexists _, q'. split; [exact Hr|]. split; [done|]. split; [unfold contents; rewrite He; by rewrite partition_perm|].
  intros d Hd. unfold timers_next_deadline, first_key_value in Hd. rewrite He in Hd.
  apply fmap_Some in Hd as (e & Hh & ->). apply head_Some_elem_of in Hh. apply list_elem_of_In, filter_In in Hh as [_ Hh].
  unfold due in Hh. destruct (Z.leb_spec e.1 t); [done|lia].
Qed.
End Bags.

Section DriverSpec.
Context {R : Assembler.FrameRaw} {PC : Pipeline.PacketCapture R} {AEAD : Rtp.TransportAead}.
Context {D : Pipeline.DaveMedia} {DS : DaveSend D} {DP : DavePump D} {J : Gateway.GatewayJson}.
Context {IS : Deadlines.SetIter (K := Z)} {IB : Deadlines.SetIter (K := PendingMedia.DavePendingMediaBucket)}.
Context (tuning : Tuning.ConnectionRuntimeTuning) (clock : nat -> Z) (telemetry rtcp_telemetry : bool).
Context (udp : nat -> UdpOutcome) (ws : nat -> bool) (ready : GatewayReady) (ready_timeout heartbeat_interval_ms : Z) (retry_fuel : nat).
Context (gone : nat -> nat -> bool) (Hclock : forall n, clock n <= clock (S n)).

Definition ticks (d : ConnectionDriver) : nat := Pipeline.d_ticks (base d).

(** The time of the next clock reading. *)
Definition time (d : ConnectionDriver) : Z := clock (ticks d).

Lemma clock_mono n m : (n <= m)%nat -> clock n <= clock m.
Proof. induction 1 as [|m _ IH]; [lia|]. specialize (Hclock m). lia. Qed.

(** ** The invariant *)
Definition reply_of (p : ActiveOpusPlayout) : list reply := option_list (finish_response p).

(** The reply channels the driver holds. *)
Definition outstanding (d : ConnectionDriver) : list reply :=
  (wait_response <$> contents (pending_media_ready_waits d)) ++ (send_response <$> contents (pending_media_ready_sends d)) ++
  from_option reply_of [] (active_playout (send d)).

(** The audio sent has had its time, at the latest, when the next frame is due;
    the next frame is due at most one frame from now. *)
Record paced (t : Z) (p : ActiveOpusPlayout) : Prop := {
  paced_media : expected_media (stats p) = OpusPacket.BLOCK_DURATION * Z.of_nat (packets (stats p));
  paced_start : started_at p <= t;
  paced_next : match next_send_at p with
               | Some next => started_at p + expected_media (stats p) <= next <= t + OpusPacket.BLOCK_DURATION
               | None => started_at p + expected_media (stats p) <= t
               end }.

Definition answer_ok (a : Answer) : Prop :=
  match a with AnswerPlayoutStats (inr s) => stats_expected_media s <= wall_elapsed s | _ => True end.

(** [ids]: the reply channels handed to the driver; [extra]: the ones a running
    method holds; [fin]: the playouts that were asked to finish. *)
Record drv_ok (ids : list reply) (fin : list Z) (extra : list reply) (d : ConnectionDriver) : Prop := {
  ok_replies : ids ≡ₚ (answers d).*1 ++ outstanding d ++ extra;
  ok_waits : timers_ok (pending_media_ready_waits d);
  ok_sends : timers_ok (pending_media_ready_sends d);
  ok_paced : forall p, active_playout (send d) = Some p -> paced (time d) p;
  ok_fin : forall p, active_playout (send d) = Some p -> finish_response p ≠ None -> playout_id p ∈ fin;
  ok_answers : Forall (fun a => answer_ok a.2) (answers d) }.

(** A method that fails may drop the one channel it holds. *)
Definition lost (ids : list reply) (fin : list Z) (e : Error) (d : ConnectionDriver) : Prop :=
  exists l, drv_ok ids fin l d /\ (l = [] \/ e = EWebSocket /\ exists r, l = [r]).

Lemma paced_later t t' p : t <= t' -> paced t p -> paced t' p.
Proof. intros Ht [H1 H2 H3]. split; [done|lia|]. destruct (next_send_at p); lia. Qed.

(** Methods that leave replies and playout alone and let time pass. *)
Definition view (d : ConnectionDriver) :=
  (answers d, pending_media_ready_waits d, pending_media_ready_sends d, active_playout (send d)).

Lemma drv_ok_view ids fin extra d d' : drv_ok ids fin extra d -> view d' = view d -> (ticks d <= ticks d')%nat -> drv_ok ids fin extra d'.
Proof.
  unfold view. intros [H1 H2 H3 H4 H5 H6] [= Ha Hw Hs Hp] Ht. split; unfold outstanding; rewrite ?Ha, ?Hw, ?Hs, ?Hp; try done.
  intros p Hpl. eapply paced_later; [|by apply H4]. by apply clock_mono.
Qed.

(** *** Single steps *)
Lemma wlp_now (Q : Z -> ConnectionDriver -> Prop) (S : Error -> ConnectionDriver -> Prop) d :
  (forall d', view d' = view d -> ticks d' = Datatypes.S (ticks d) -> Q (time d) d') -> wlp (now clock) Q S d.
Proof. intros HQ. apply HQ; done. Qed.

Lemma complete_ok ids fin r a extra d : drv_ok ids fin (r :: extra) d -> answer_ok a -> drv_ok ids fin extra (with_answers [(r, a)] d).
Proof.
  intros [H1 H2 H3 H4 H5 H6] Ha. split; try done.
  - rewrite H1. cbn. rewrite fmap_app. cbn. rewrite <- !app_assoc. apply Permutation_app_head. cbn. change (outstanding (with_answers [(r, a)] d)) with (outstanding d).
    by rewrite <- Permutation_middle.
  - apply Forall_app. split; [done|]. by constructor.
Qed.

Lemma drv_ok_perm ids fin extra extra' d : extra ≡ₚ extra' -> drv_ok ids fin extra d -> drv_ok ids fin extra' d.
Proof. intros He [H1 H2 H3 H4 H5 H6]. split; try done. by rewrite <- He. Qed.

Lemma lost_nothing ids fin e d : drv_ok ids fin [] d -> lost ids fin e d.
Proof. intros H. exists []. auto. Qed.

(** *** A playout that a method has taken out of the driver *)
Record held (ids : list reply) (fin : list Z) (p : ActiveOpusPlayout) (d : ConnectionDriver) : Prop := {
  held_ok : drv_ok ids fin (reply_of p) d;
  held_none : active_playout (send d) = None;
  held_paced : paced (time d) p;
  held_fin : finish_response p ≠ None -> playout_id p ∈ fin }.

(** The fields of a playout the invariant is about. *)
Definition same_pace (p p' : ActiveOpusPlayout) : Prop :=
  playout_id p' = playout_id p /\ finish_response p' = finish_response p /\ started_at p' = started_at p /\ next_send_at p' = next_send_at p /\
  expected_media (stats p') = expected_media (stats p) /\ packets (stats p') = packets (stats p).

Lemma paced_same t p p' : same_pace p p' -> paced t p -> paced t p'.
Proof. intros (_ & _ & Hs & Hn & He & Hp) [H1 H2 H3]. split; rewrite ?Hs, ?Hn, ?He, ?Hp; done. Qed.

Lemma held_view ids fin p p' d d' : held ids fin p d -> same_pace p p' -> view d' = view d -> (ticks d <= ticks d')%nat -> held ids fin p' d'.
Proof.
  intros [H1 H2 H3 H4] Hp Hv Ht. pose proof Hp as (Hid & Hf & _). split.
  - unfold reply_of. rewrite Hf. by eapply drv_ok_view.
  - unfold view in Hv. injection Hv as _ _ _ ->. done.
  - eapply paced_same; [done|]. eapply paced_later; [by apply clock_mono|done].
  - rewrite Hf, Hid. done.
Qed.

Lemma held_take ids fin p d : drv_ok ids fin [] d -> active_playout (send d) = Some p -> held ids fin p (set_active None d).2.
Proof.
  intros [H1 H2 H3 H4 H5 H6] Hp. split; [|done|by apply H4|by apply H5]. split; try done. rewrite H1. unfold outstanding. rewrite Hp. cbn.
  by rewrite !app_nil_r, <- !app_assoc.
Qed.

Lemma held_restore ids fin p d : held ids fin p d -> drv_ok ids fin [] (set_active (Some p) d).2.
Proof.
  intros [[H1 H2 H3 H4 H5 H6] Hn Hp Hf]. split; try done; cbn.
  - rewrite H1. unfold outstanding. rewrite Hn. cbn. by rewrite !app_nil_r, <- !app_assoc.
  - by intros q [= <-].
  - by intros q [= <-].
Qed.

(** The answer to the request a held playout has, if it has one. *)
Lemma held_answer ids fin p (f : reply -> Answer) d : held ids fin p d -> (forall r, finish_response p = Some r -> answer_ok (f r)) ->
  wlp (match finish_response p with Some r => complete r (f r) | None => mret () end)
    (fun _ d' => drv_ok ids fin [] d' /\ (ticks d <= ticks d')%nat) (fun e d' => lost ids fin e d') d.
Proof.
  intros Hh Ha. pose proof (held_ok _ _ _ _ Hh) as Hok. unfold reply_of in Hok. destruct (finish_response p) as [r|]; [|done].
  split; [|done]. apply complete_ok; [done|by apply Ha].
Qed.

Lemma command_ok ids fin extra c d : drv_ok ids fin extra d ->
  wlp (send_voice_gateway_command ws c) (fun _ d' => view d' = view d /\ ticks d' = ticks d /\ send d' = send d)
    (fun e d' => e = EWebSocket /\ drv_ok ids fin extra d') d.
Proof. intros Hd. unfold wlp, send_voice_gateway_command. destruct (ws (ws_count d)); [done|]. split; [done|]. by eapply drv_ok_view; [exact Hd|..]. Qed.

Lemma held_lost ids fin p d : drv_ok ids fin (reply_of p) d -> lost ids fin EWebSocket d.
Proof. intros Hd. exists (reply_of p). split; [done|]. unfold reply_of. destruct (finish_response p) as [r|]; cbn; eauto. Qed.

Lemma speaking_ok ids fin p flags d : held ids fin p d ->
  wlp (send_playout_speaking ws ready flags) (fun _ d' => held ids fin p d' /\ ticks d' = ticks d) (fun e d' => lost ids fin e d') d.
Proof.
  intros Hh. eapply wlp_mono; [apply (command_ok ids fin _ _ d (held_ok _ _ _ _ Hh))| |].
  - intros [] d' (Hv & Ht & _). split; [|done]. by eapply held_view; [exact Hh|..|rewrite Ht].
  - intros e d' [-> Hd]. by eapply held_lost.
Qed.

Lemma same_pace_speaking b p : same_pace p (set_speaking b p).
Proof. by repeat split. Qed.

Lemma stop_speaking_ok ids fin p d : held ids fin p d ->
  wlp (stop_speaking ws ready p) (fun p' d' => held ids fin p' d' /\ same_pace p p' /\ stats p' = stats p /\ ticks d' = ticks d) (fun e d' => lost ids fin e d') d.
Proof.
  intros Hh. unfold stop_speaking. destruct (speaking p); [|split; [done|]; by repeat split]. eapply wlp_seq; [by apply speaking_ok|].
  intros [] d1 [Hh1 Ht]. split; [|split; [by repeat split|done]]. by eapply held_view; [exact Hh1|apply same_pace_speaking|..].
Qed.

Lemma fail_ok ids fin p e d : held ids fin p d ->
  wlp (fail_playout ws ready p e) (fun _ d' => drv_ok ids fin [] d' /\ (ticks d <= ticks d')%nat) (fun e d' => lost ids fin e d') d.
Proof.
  intros Hh. eapply wlp_seq; [by apply stop_speaking_ok|]. intros p' d1 (Hh1 & _ & _ & Ht). eapply wlp_mono; [by apply (held_answer ids fin p' (fun _ => AnswerPlayoutStats (inl e)))| |done].
  cbn beta. intros [] d' [? ?]. split; [done|lia].
Qed.

Lemma cancel_ok ids fin p d : held ids fin p d ->
  wlp (cancel_playout ws ready p) (fun _ d' => drv_ok ids fin [] d' /\ (ticks d <= ticks d')%nat) (fun e d' => lost ids fin e d') d.
Proof.
  intros Hh. eapply wlp_seq; [by apply stop_speaking_ok|]. intros p' d1 (Hh1 & _ & _ & Ht). eapply wlp_mono; [by apply (held_answer ids fin p' (fun _ => AnswerPlayoutStats (inl EClosed)))| |done].
  cbn beta. intros [] d' [? ?]. split; [done|lia].
Qed.

Lemma complete_playout_ok ids fin p d : held ids fin p d -> started_at p + expected_media (stats p) <= time d ->
  wlp (complete_playout clock ws ready p) (fun _ d' => drv_ok ids fin [] d' /\ (ticks d <= ticks d')%nat) (fun e d' => lost ids fin e d') d.
Proof.
  intros Hh He. eapply wlp_seq; [by apply stop_speaking_ok|]. intros p' d1 (Hh1 & (_ & _ & Hs & _ & Hexp & _) & _ & Ht).
  destruct (finish_response p') as [r|] eqn:Hr.
  - apply wlp_bind, wlp_now. intros d2 Hv2 Ht2. assert (held ids fin p' d2) as Hh2 by (eapply held_view; [exact Hh1|by repeat split|done|lia]).
    pose proof (held_answer ids fin p' (fun _ => AnswerPlayoutStats (inr (stats_finish (Reorder.Reorder.duration_since (time d1) (started_at p')) (stats p')))) d2 Hh2) as Ha.
    rewrite Hr in Ha. eapply wlp_mono; [apply Ha| |done].
    + intros r' [= <-]. cbn. unfold Reorder.Reorder.duration_since, time in *. rewrite Ht, Hs, Hexp. lia.
    + intros [] d' [? ?]. split; [done|lia].
  - pose proof (held_ok _ _ _ _ Hh1) as Hok. unfold reply_of in Hok. rewrite Hr in Hok. split; [done|lia].
Qed.

(** *** Catching up *)
Lemma frame_duration_block f : frame_duration f = OpusPacket.BLOCK_DURATION.
Proof. destruct f as [[]]; reflexivity. Qed.

Lemma drop_stale_due t duration l due lateness : 0 < duration -> due <= t -> lateness = Reorder.Reorder.duration_since t due ->
  let '(r, n, due', lateness') := drop_stale t (duration * 3) duration l due lateness in
  due <= due' <= t /\ lateness' = Reorder.Reorder.duration_since t due' /\ r = drop n l /\ (l ≠ [] -> r ≠ []) /\ (duration * 3 <= lateness -> (1 < length l)%nat -> n ≠ O).
Proof.
  intros Hd. revert due lateness. induction l as [|f l IH]; intros due lateness Hdue Hl; cbn [drop_stale].
  { repeat split; auto; cbn; lia. }
  destruct ((duration * 3 <=? lateness) && (1 <? length (f :: l))%nat) eqn:Hc.
  2: { repeat split; auto; [lia|]. intros H1 H2. apply andb_false_iff in Hc as [Hc%Z.leb_gt|Hc%Nat.ltb_ge]; lia. }
  apply andb_true_iff in Hc as [H1%Z.leb_le H2%Nat.ltb_lt]. unfold Reorder.Reorder.duration_since in Hl.
  specialize (IH (due + duration) _ ltac:(lia) eq_refl). destruct (drop_stale _ _ _ _ _ _) as [[[r n] due'] lat]. destruct IH as (Hb & Hlat & -> & Hne & _).
  repeat split; auto; try lia. intros _. apply Hne. cbn in H2. by destruct l; [cbn in H2; lia|].
Qed.

Lemma catch_up_ok t due p : due <= t ->
  let '(p', due') := catch_up t due OpusPacket.BLOCK_DURATION p in
  same_pace p p' /\ due <= due' <= t /\ speaking p' = speaking p /\ media_ready_deadline p' = media_ready_deadline p /\
  exists n, frames p' = drop n (frames p) /\ dropped_stale_frames (stats p') = (dropped_stale_frames (stats p) + n)%nat /\ (frames p ≠ [] -> frames p' ≠ []) /\
    (due + OpusPacket.BLOCK_DURATION * 3 <= t -> (1 < length (frames p))%nat -> n ≠ O).
Proof.
  intros Hdue. unfold catch_up. change (duration_checked_mul OpusPacket.BLOCK_DURATION 3) with (Some (OpusPacket.BLOCK_DURATION * 3)). cbv zeta iota.
  pose proof (drop_stale_due t OpusPacket.BLOCK_DURATION (frames p) due (Reorder.Reorder.duration_since t due) ltac:(reflexivity) Hdue eq_refl) as Hs.
  revert Hs. generalize (drop_stale t (OpusPacket.BLOCK_DURATION * 3) OpusPacket.BLOCK_DURATION (frames p) due (Reorder.Reorder.duration_since t due)).
  intros [[[r n] due'] lat] (Hb & Hlat & -> & Hne & Hn). unfold Reorder.Reorder.duration_since in Hn.
  destruct (OpusPacket.BLOCK_DURATION * 3 <=? lat); cbn [next_send_at set_stats set_frames];
    destruct (is_some (next_send_at p)); (split; [by repeat split|]); (split; [lia|]); (split; [done|]); (split; [done|]); exists n; (split; [done|]); (split; [done|]); (split; [done|]); intros ? ?; apply Hn; lia.
Qed.

(** *** Waiting and sending *)
Lemma restore_ok ids fin p d n : held ids fin p d -> (n <= ticks d)%nat ->
  wlp (set_active (Some p)) (fun _ d' => drv_ok ids fin [] d' /\ (n <= ticks d')%nat) (fun e d' => lost ids fin e d') d.
Proof. intros Hh Hn. split; [by apply held_restore|done]. Qed.

Lemma wlp_weaken {A} ids fin (m : drv A) n n' d : (n <= n')%nat ->
  wlp m (fun _ d' => drv_ok ids fin [] d' /\ (n' <= ticks d')%nat) (fun e d' => lost ids fin e d') d ->
  wlp m (fun _ d' => drv_ok ids fin [] d' /\ (n <= ticks d')%nat) (fun e d' => lost ids fin e d') d.
Proof. intros Hn Hm. eapply wlp_mono; [exact Hm| |done]. intros a d' [? ?]. split; [done|lia]. Qed.

Lemma await_ok ids fin p d : held ids fin p d ->
  wlp (await_media clock ws ready ready_timeout p) (fun _ d' => drv_ok ids fin [] d' /\ (ticks d <= ticks d')%nat) (fun e d' => lost ids fin e d') d.
Proof.
  intros Hh. unfold await_media. eapply wlp_seq with (Q1 := fun p' d' => held ids fin p' d' /\ (ticks d <= ticks d')%nat).
  - destruct (media_ready_deadline p); [done|]. apply wlp_bind, wlp_now. intros d1 Hv Ht. split; [|lia].
    eapply held_view; [exact Hh|by repeat split|done|lia].
  - intros p' d1 [Hh1 Hd1]. apply wlp_bind, wlp_now. intros d2 Hv Ht. assert (held ids fin p' d2) as Hh2 by (eapply held_view; [exact Hh1|by repeat split|done|lia]).
    destruct (media_ready_deadline p') as [deadline|]; [destruct (deadline <=? time d1)|].
    + eapply wlp_weaken; [|by apply fail_ok]. lia.
    + apply restore_ok; [done|lia].
    + apply restore_ok; [done|lia].
Qed.

(** A send keeps the view of the driver and its clock. *)
Lemma send_keeps_view c frame duration d :
  view (send_ready_media_frame udp c frame duration d).2 = view d /\ ticks (send_ready_media_frame udp c frame duration d).2 = ticks d.
Proof.
  destruct (send_frame_wire udp c frame duration d) as (l & _ & Hf & _). unfold send_frame_of in Hf. injection Hf as _ Ht _ _ _ Hw Hs _ _ Ha Hp _.
  unfold view, ticks. by rewrite Hw, Hs, Ha, Hp, Ht.
Qed.

Lemma frame_bytes_no_error {E} f (e : E) : frame_bytes f ≠ Err e.
Proof. unfold frame_bytes, OpusPacket.at_span, slice. destruct (payload f); [done|]. by destruct (_ && _). Qed.

Lemma send_next_ok ids fin p due d : held ids fin p d -> started_at p + expected_media (stats p) <= due <= time d ->
  wlp (send_next clock udp ws ready due OpusPacket.BLOCK_DURATION p) (fun _ d' => drv_ok ids fin [] d' /\ (ticks d <= ticks d')%nat) (fun e d' => lost ids fin e d') d.
Proof.
  intros Hh Hdue. unfold send_next. cbv zeta. set (p0 := set_deadline None p).
  eapply wlp_seq with (Q1 := fun p' d' => held ids fin p' d' /\ same_pace p p' /\ ticks d' = ticks d).
  { assert (held ids fin p0 d) as Hh0 by (eapply held_view; [exact Hh|by repeat split|done|lia]). destruct (speaking p0); [split; [done|]; by repeat split|].
    eapply wlp_seq; [by apply speaking_ok|]. intros [] d1 [Hh1 Ht1]. split; [|split; [by repeat split|done]].
    eapply held_view; [exact Hh1|by repeat split|done|lia]. }
  intros p1 d1 (Hh1 & Hsp & Ht1). destruct (frames p1) as [|f l] eqn:Hfr.
  { apply restore_ok; [done|lia]. }
  apply wlp_bind, wlp_now. intros d2 Hv2 Ht2. cbv zeta. set (p2 := set_stats _ _).
  assert (held ids fin p2 d2 /\ same_pace p p2) as [Hh2 Hsp2].
  { split; [eapply held_view; [exact Hh1|by repeat split|done|lia]|]. destruct Hsp as (?&?&?&?&?&?). by repeat split. }
  destruct (frame_bytes (E := Error) f) as [b|e|] eqn:Hb; [|by destruct (frame_bytes_no_error f e)|done].
  apply wlp_bind. cbn [lift]. unfold wlp at 1. cbn. apply wlp_bind. unfold wlp at 1. unfold send_ready_opus_packet.
  destruct (send_keeps_view Opus b OpusPacket.BLOCK_DURATION d2) as [Hv3 Ht3]. destruct (send_ready_media_frame udp Opus b OpusPacket.BLOCK_DURATION d2) as [r d3]. cbn [snd] in *.
  assert (held ids fin p2 d3) as Hh3 by (eapply held_view; [exact Hh2|by repeat split|done|lia]).
  destruct r as [packet|e|]; [| |done].
  2: { eapply wlp_weaken; [|by apply fail_ok]. lia. }
  apply wlp_bind, wlp_now. intros d4 Hv4 Ht4.
  eapply wlp_seq with (Q1 := fun _ d' => view d' = view d4 /\ (ticks d4 <= ticks d')%nat).
  { destruct (is_some _); [done|]. apply wlp_now. intros d5 ? ?. split; [done|lia]. }
  intros first d5 [Hv5 Ht5]. cbv zeta. apply restore_ok; [|lia].
  assert (held ids fin p2 d5) as [H1 H2 H3 H4] by (eapply held_view; [exact Hh3|by repeat split|congruence|lia]).
  destruct Hsp2 as (Hid & Hf & Hst & Hnx & Hex & Hpk). assert (time d <= time d5) by (apply clock_mono; lia).
  pose proof (paced_media _ _ H3) as Hm. split; [exact H1|exact H2| |exact H4]. split; cbn.
  - cbn in Hm. rewrite Hm. lia.
  - apply (paced_start _ _ H3).
  - cbn in Hst, Hex. rewrite Hst, Hex. lia.
Qed.

(** One call of [resolve_active_playout]. *)
Lemma resolve_ok ids fin d : drv_ok ids fin [] d ->
  wlp (resolve_active_playout clock udp ws ready ready_timeout) (fun _ d' => drv_ok ids fin [] d' /\ (ticks d <= ticks d')%nat) (fun e d' => lost ids fin e d') d.
Proof.
  intros Hd. unfold resolve_active_playout. apply wlp_bind. change (wlp (gets ?f) ?Q ?S d) with (Q (f d) d). cbv beta.
  destruct (active_playout (send d)) as [p|] eqn:Hp; [|done]. apply wlp_bind.
  pose proof (held_take ids fin p d Hd Hp) as Hh. unfold wlp at 1. cbn [set_active modify]. set (d1 := with_send _ d) in *. change (set_active None d).2 with d1 in Hh.
  apply wlp_bind. assert (ticks d1 = ticks d) as Ht1 by done.
  assert (wlp (ready_to_complete clock p) (fun b d' => held ids fin p d' /\ (ticks d1 <= ticks d')%nat /\ (b = true -> started_at p + expected_media (stats p) <= time d'))
    (fun e d' => lost ids fin e d') d1) as Hready.
  { unfold ready_to_complete. pose proof (paced_next _ _ (held_paced _ _ _ _ Hh)) as Hn.
    destruct (finish_response p), (frames p); try done. destruct (next_send_at p) as [deadline|]; [|done]. apply wlp_bind, wlp_now. intros d2 Hv Ht.
    split; [eapply held_view; [exact Hh|by repeat split|done|lia]|]. split; [lia|]. intros Hle%Z.leb_le. assert (time d1 <= time d2) by (apply clock_mono; lia). lia. }
  eapply wlp_mono; [exact Hready| |done]. clear Hready. intros b d2 (Hh2 & Ht2 & Hb). destruct b.
  { eapply wlp_weaken; [|by apply complete_playout_ok; [|apply Hb]]. lia. }
  destruct (frames p) as [|f l] eqn:Hfr; [apply restore_ok; [done|lia]|]. cbv zeta. rewrite frame_duration_block.
  pose proof (paced_next _ _ (held_paced _ _ _ _ Hh2)) as Hnext.
  eapply wlp_seq with (Q1 := fun due d' => held ids fin p d' /\ (ticks d2 <= ticks d')%nat /\ started_at p + expected_media (stats p) <= due).
  { destruct (next_send_at p) as [t|]; [split; [done|split; [lia|lia]]|]. apply wlp_now. intros d3 Hv Ht.
    split; [eapply held_view; [exact Hh2|by repeat split|done|lia]|]. split; [lia|done]. }
  intros due d3 (Hh3 & Ht3 & Hdue). apply wlp_bind, wlp_now. intros d4 Hv4 Ht4.
  assert (held ids fin p d4) as Hh4 by (eapply held_view; [exact Hh3|by repeat split|done|lia]).
  destruct (Z.ltb_spec (time d3) due); [apply restore_ok; [done|lia]|].
  pose proof (catch_up_ok (time d3) due p ltac:(lia)) as Hc. destruct (catch_up (time d3) due OpusPacket.BLOCK_DURATION p) as [p' due']. destruct Hc as (Hsp & Hdue' & _).
  assert (held ids fin p' d4) as Hh4' by (eapply held_view; [exact Hh4|done|done|lia]). apply wlp_bind. change (wlp (gets ?f) ?Q ?S d4) with (Q (f d4) d4). cbv beta.
  apply wlp_bind. change (wlp (gets ?f) ?Q ?S d4) with (Q (f d4) d4). cbv beta. destruct (_ && _).
  - eapply wlp_weaken; [|by apply await_ok]. lia.
  - eapply wlp_weaken; [|apply send_next_ok; [done|]]; [lia|]. assert (time d3 <= time d4) by (apply clock_mono; lia).
    destruct Hsp as (_ & _ & -> & _ & -> & _). lia.
Qed.

(** ** Commands of a playout *)
Definition playout_replies (c : PlayoutCommand) : list reply := match c with CmdStart r | CmdFinish _ r => [r] | _ => [] end.
Definition playout_fin (c : PlayoutCommand) : list Z := match c with CmdFinish id _ => [id] | _ => [] end.

Lemma drv_ok_fin ids fin fin' extra d : (forall x, x ∈ fin -> x ∈ fin') -> drv_ok ids fin extra d -> drv_ok ids fin' extra d.
Proof. intros Hf [H1 H2 H3 H4 H5 H6]. split; try done. intros p Hp Hr. by apply Hf, H5. Qed.

Definition good {A} (ids : list reply) (fin : list Z) (m : drv A) (d : ConnectionDriver) : Prop :=
  wlp m (fun _ d' => drv_ok ids fin [] d' /\ (ticks d <= ticks d')%nat) (fun e d' => lost ids fin e d') d.

Lemma drv_good_bind {A B} ids fin (m : drv A) (f : A -> drv B) d :
  good ids fin m d -> (forall a d', drv_ok ids fin [] d' -> (ticks d <= ticks d')%nat -> good ids fin (f a) d') -> good ids fin (m ≫= f) d.
Proof.
  intros Hm Hf. eapply wlp_seq; [exact Hm|]. cbn. intros a d' [Hd' Ht]. eapply wlp_mono; [by apply Hf| |done]. cbn. intros b d'' [? ?]. split; [done|lia].
Qed.

Lemma drv_good_ret {A} ids fin (a : A) d : drv_ok ids fin [] d -> good ids fin (mret a) d.
Proof. done. Qed.

Lemma good_gets {A B} ids fin (f : ConnectionDriver -> A) (k : A -> drv B) d : good ids fin (k (f d)) d -> good ids fin (gets f ≫= k) d.
Proof. done. Qed.

Lemma good_now {B} ids fin (k : Z -> drv B) d : drv_ok ids fin [] d -> (forall t d', drv_ok ids fin [] d' -> good ids fin (k t) d') -> good ids fin (now clock ≫= k) d.
Proof.
  intros Hd Hk. eapply drv_good_bind; [|intros t d' Hd' _; by apply Hk]. apply wlp_now. intros d' Hv Ht. split; [|lia]. eapply drv_ok_view; [exact Hd|done|lia].
Qed.

Lemma resolve_good ids fin d : drv_ok ids fin [] d -> good ids fin (resolve_active_playout clock udp ws ready ready_timeout) d.
Proof. apply resolve_ok. Qed.

Lemma complete_good ids fin r a d : drv_ok ids fin [r] d -> answer_ok a -> good ids fin (complete r a) d.
Proof. intros Hd Ha. split; [|done]. by apply complete_ok. Qed.

Lemma matching_some id d p : matching id d = Some p -> active_playout (send d) = Some p /\ playout_id p = id.
Proof. unfold matching. destruct (active_playout (send d)) as [q|]; [|done]. destruct (Z.eqb_spec (playout_id q) id); [|done]. by intros [= <-]. Qed.

(** A push happens on a copy of the playout that is still in the driver. *)
Lemma underflow_ok ids fin p d : drv_ok ids fin [] d -> active_playout (send d) = Some p ->
  wlp (record_underflow_if_needed clock p)
    (fun p' d' => drv_ok ids fin [] d' /\ (ticks d <= ticks d')%nat /\ active_playout (send d') = Some p /\ paced (time d') p' /\
       finish_response p' = finish_response p /\ playout_id p' = playout_id p) (fun e d' => lost ids fin e d') d.
Proof.
  intros Hd Hp. pose proof (ok_paced _ _ _ _ Hd p Hp) as Hpc. unfold record_underflow_if_needed.
  destruct (frames p); [|done]. destruct (finish_response p) eqn:Hf; [done|]. apply wlp_bind, wlp_now. intros d1 Hv Ht.
  assert (drv_ok ids fin [] d1) as Hd1 by (eapply drv_ok_view; [exact Hd|done|lia]).
  assert (active_playout (send d1) = Some p) as Hp1 by (unfold view in Hv; injection Hv as _ _ _ ->; done).
  assert (time d <= time d1) as Htm by (apply clock_mono; lia).
  assert (paced (time d1) p) as Hpc1 by (by eapply paced_later).
  destruct (next_send_at p) as [next|] eqn:Hn; [|split; [done|]; split; [lia|]; done].
  destruct (Z.ltb_spec next (time d)); (split; [done|]); (split; [lia|]); (split; [done|]); (split; [|by split]); [|done].
  destruct Hpc as [H1 H2 H3]. rewrite Hn in H3. split; cbn; [done|lia|lia].
Qed.

Lemma replace_ok ids fin p p' d : drv_ok ids fin [] d -> active_playout (send d) = Some p -> paced (time d) p' ->
  finish_response p' = finish_response p -> playout_id p' = playout_id p -> good ids fin (set_active (Some p')) d.
Proof.
  intros [H1 H2 H3 H4 H5 H6] Hp Hpc Hf Hid. split; [|done]. split; try done; cbn.
  - rewrite H1. unfold outstanding. rewrite Hp. cbn. unfold reply_of. by rewrite Hf.
  - by intros q [= <-].
  - intros q [= <-]. rewrite Hf, Hid. by apply H5.
Qed.

Lemma push_many_good ids fin l p d : drv_ok ids fin [] d -> active_playout (send d) = Some p ->
  good ids fin (p ← push_many clock l p; set_active (Some p)) d.
Proof.
  intros Hd Hp. eapply wlp_seq with (Q1 := fun p' d' => drv_ok ids fin [] d' /\ (ticks d <= ticks d')%nat /\ active_playout (send d') = Some p /\ paced (time d') p' /\
       finish_response p' = finish_response p /\ playout_id p' = playout_id p).
  - eapply wlp_seq; [by apply underflow_ok|]. intros p' d1 (Hd1 & Ht & Hp1 & Hpc & Hf & Hid). split; [done|]. split; [done|]. split; [done|]. split; [|done].
    destruct Hpc. by split.
  - intros p' d1 (Hd1 & Ht & Hp1 & Hpc & Hf & Hid). eapply wlp_mono; [by eapply replace_ok| |done]. cbn. intros [] d2 [? ?]. split; [done|lia].
Qed.

Lemma finish_good ids fin id r p d : drv_ok ids fin [r] d -> matching id d = Some p -> id ∉ fin ->
  good ids (id :: fin) (set_active (Some (playout_finish r p))) d.
Proof.
  intros [H1 H2 H3 H4 H5 H6] [Hp Hid]%matching_some Hn. split; [|done].
  assert (finish_response p = None) as Hf by (destruct (finish_response p) eqn:Hf; [|done]; exfalso; apply Hn; rewrite <- Hid; apply (H5 p Hp); by rewrite Hf).
  split; try done; cbn.
  - rewrite H1. unfold outstanding. rewrite Hp. cbn. unfold reply_of. rewrite Hf. cbn. by rewrite app_nil_r, <- !app_assoc.
  - intros q [= <-]. destruct (H4 p Hp). by split.
  - intros q [= <-] _. rewrite <- Hid. by left.
Qed.

Lemma playout_command_ok ids fin c d : drv_ok ids fin (playout_replies c) d -> (forall id, id ∈ playout_fin c -> id ∉ fin) ->
  good ids (playout_fin c ++ fin) (handle_playout_command clock udp ws ready ready_timeout c) d.
Proof.
  intros Hd Hfin. destruct c as [r|id f|id l|id r|id]; cbn [playout_replies playout_fin app handle_playout_command] in *.
  - apply good_gets. destruct (active_playout (send d)) as [p|] eqn:Hp; [by apply complete_good|]. do 2 apply good_gets.
    eapply wlp_bind, wlp_now. intros d1 Hv Ht. set (id := next_playout_id (send d)).
    assert (drv_ok ids fin [r] d1) as Hd1 by (eapply drv_ok_view; [exact Hd|done|lia]).
    apply wlp_bind. unfold wlp at 1. cbn [modify]. set (d2 := with_send _ d1).
    assert (active_playout (send d1) = None) as Hp1 by (unfold view in Hv; injection Hv as _ _ _ ->; done).
    assert (drv_ok ids fin [r] d2) as Hd2.
    { destruct Hd1 as [H1 H2 H3 H4 H5 H6]. split; try done; cbn.
      - rewrite H1. unfold outstanding. rewrite Hp1. done.
      - intros p [= <-]. change (time d2) with (time d1). assert (time d <= time d1) by (apply clock_mono; lia). split; cbn; [done|lia|lia].
      - by intros p [= <-]. }
    apply wlp_bind. unfold wlp at 1. cbn [complete modify]. eapply wlp_weaken; [|apply resolve_ok]; [|by apply complete_ok]. change (ticks d <= ticks d1)%nat. lia.
  - apply good_gets. eapply drv_good_bind; [|intros _ d1 Hd1 _; by apply resolve_good]. destruct (matching id d) as [p|] eqn:Hm; [|by apply drv_good_ret].
    apply matching_some in Hm as [Hp _]. by apply (push_many_good ids fin [f]).
  - apply good_gets. eapply drv_good_bind; [|intros _ d1 Hd1 _; by apply resolve_good]. destruct (matching id d) as [p|] eqn:Hm; [|by apply drv_good_ret].
    apply matching_some in Hm as [Hp _]. by apply (push_many_good ids fin l).
  - apply good_gets. eapply drv_good_bind; [|intros _ d1 Hd1 _; by apply resolve_good]. destruct (matching id d) as [p|] eqn:Hm.
    + apply finish_good; [done|done|]. apply Hfin. by left.
    + apply complete_good; [|done]. eapply drv_ok_fin; [|exact Hd]. intros x. by right.
  - apply good_gets. eapply drv_good_bind; [|intros _ d1 Hd1 _; by apply resolve_good]. destruct (matching id d) as [p|] eqn:Hm; [|by apply drv_good_ret].
    apply matching_some in Hm as [Hp _]. apply wlp_bind. unfold wlp at 1. cbn [set_active modify]. eapply wlp_weaken; [|apply cancel_ok; by apply held_take]. done.
Qed.

(** ** Requests that wait for the media to be ready *)
Definition good_with {A} (ids : list reply) (fin : list Z) (extra : list reply) (m : drv A) (d : ConnectionDriver) : Prop :=
  wlp m (fun _ d' => drv_ok ids fin extra d' /\ (ticks d <= ticks d')%nat) (fun e d' => lost ids fin e d') d.

Lemma good_with_bind {A B} ids fin x y (m : drv A) (f : A -> drv B) d :
  good_with ids fin x m d -> (forall a d', drv_ok ids fin x d' -> (ticks d <= ticks d')%nat -> good_with ids fin y (f a) d') -> good_with ids fin y (m ≫= f) d.
Proof.
  intros Hm Hf. eapply wlp_seq; [exact Hm|]. cbn. intros a d' [Hd' Ht]. eapply wlp_mono; [by apply Hf| |done]. cbn. intros b d'' [? ?]. split; [done|lia].
Qed.

Lemma complete_all_ok {A} ids fin extra (f : A -> reply * Answer) l d :
  drv_ok ids fin ((fst ∘ f <$> l) ++ extra) d -> (forall x, x ∈ l -> answer_ok (f x).2) -> good_with ids fin extra (complete_all f l) d.
Proof.
  revert d. induction l as [|x l IH]; intros d Hd Ha; [by split|]. cbn [complete_all]. eapply good_with_bind with (x := (fst ∘ f <$> l) ++ extra).
  - split; [|done]. apply complete_ok; [exact Hd|]. apply Ha. by left.
  - intros _ d' Hd' _. apply IH; [done|]. intros y Hy. apply Ha. by right.
Qed.

Lemma drain_waits_ok ids fin d q l : drv_ok ids fin [] d -> timers_ok q -> contents (pending_media_ready_waits d) ≡ₚ l ++ contents q ->
  drv_ok ids fin (wait_response <$> l) (with_waits q (pending_media_ready_sends d) d).
Proof.
  intros [H1 H2 H3 H4 H5 H6] Hq Hc. split; try done. rewrite H1. unfold outstanding. cbn. rewrite Hc, fmap_app, !app_nil_r.
  apply Permutation_app_head. rewrite <- !app_assoc. rewrite Permutation_app_comm. by rewrite <- !app_assoc.
Qed.

Lemma drain_sends_ok ids fin d q l : drv_ok ids fin [] d -> timers_ok q -> contents (pending_media_ready_sends d) ≡ₚ l ++ contents q ->
  drv_ok ids fin (send_response <$> l) (with_waits (pending_media_ready_waits d) q d).
Proof.
  intros [H1 H2 H3 H4 H5 H6] Hq Hc. split; try done. rewrite H1. unfold outstanding. cbn. rewrite Hc, fmap_app, !app_nil_r.
  apply Permutation_app_head. rewrite <- !app_assoc. apply Permutation_app_head. rewrite Permutation_app_comm. by rewrite <- !app_assoc.
Qed.

Lemma waits_ok ids fin d : drv_ok ids fin [] d -> good ids fin (resolve_pending_media_ready_waits clock) d.
Proof.
  intros Hd. unfold resolve_pending_media_ready_waits. apply good_gets. set (status := media_status d). destruct (Pipeline.media_ready status).
  - apply wlp_bind. unfold wlp at 1, drain_waits. cbn [drain_all].
    eapply wlp_weaken; [|apply complete_all_ok; [|done]]; [done|]. rewrite app_nil_r. apply drain_waits_ok; [done|apply timers_default_ok|].
    by rewrite contents_default, app_nil_r.
  - apply good_now; [done|]. intros t d1 Hd1. apply wlp_bind. unfold wlp at 1, drain_waits.
    destruct (contents_drain_expired (E := Error) t _ (ok_waits _ _ _ _ Hd1)) as (l & q & -> & Hq & Hc & _).
    eapply wlp_weaken; [|apply complete_all_ok; [|done]]; [done|]. rewrite app_nil_r. by apply drain_waits_ok.
Qed.

Lemma complete_send_ok ids fin extra s d : drv_ok ids fin (send_response s :: extra) d -> good_with ids fin extra (complete_media_frame_send udp s) d.
Proof.
  intros Hd. unfold complete_media_frame_send. destruct (send_keeps_view (send_codec s) (send_frame s) (send_duration s) d) as [Hv Ht].
  eapply good_with_bind with (x := send_response s :: extra).
  - unfold good_with, wlp. destruct (send_ready_media_frame _ _ _ _ d) as [[p|e|] d1]; cbn [snd] in *; [|..|done]; (split; [eapply drv_ok_view; [exact Hd|done|lia]|lia]).
  - intros r d1 Hd1 _. split; [|done]. apply complete_ok; [done|]. by destruct r.
Qed.

Lemma complete_sends_ok ids fin l d : drv_ok ids fin (send_response <$> l) d -> good ids fin (complete_sends udp l) d.
Proof.
  revert d. induction l as [|s l IH]; intros d Hd; [by split|]. cbn [complete_sends]. eapply good_with_bind; [by apply complete_send_ok|].
  intros _ d1 Hd1 _. by apply IH.
Qed.

Lemma ready_sends_ok ids fin d : drv_ok ids fin [] d -> good ids fin (resolve_pending_media_ready_sends clock udp) d.
Proof.
  intros Hd. unfold resolve_pending_media_ready_sends. apply good_gets. set (status := media_status d). destruct (Pipeline.media_ready status).
  - apply wlp_bind. unfold wlp at 1, drain_sends. cbn [drain_all].
    eapply wlp_weaken; [|apply complete_sends_ok]; [done|]. apply drain_sends_ok; [done|apply timers_default_ok|].
    by rewrite contents_default, app_nil_r.
  - apply good_now; [done|]. intros t d1 Hd1. apply wlp_bind. unfold wlp at 1, drain_sends.
    destruct (contents_drain_expired (E := Error) t _ (ok_sends _ _ _ _ Hd1)) as (l & q & -> & Hq & Hc & _).
    eapply wlp_weaken; [|apply complete_all_ok; [|done]]; [done|]. rewrite app_nil_r. by apply drain_sends_ok.
Qed.

Lemma media_ready_ok ids fin d : drv_ok ids fin [] d -> good ids fin (resolve_pending_media_ready clock udp) d.
Proof. intros Hd. eapply drv_good_bind; [by apply waits_ok|]. intros _ d1 Hd1 _. by apply ready_sends_ok. Qed.

(** ** Commands of the user *)

(** The reply channels of a command: those the driver answers itself, and those
    of the requests for packets, which the receive side answers. *)
Definition command_answers (c : ConnectionCommand) : list reply :=
  match c with
  | CmdOpenFrameStream _ r | CmdDaveMediaStatus r | CmdWaitUntilMediaReady _ r | CmdSendMediaFrame _ _ _ r => [r]
  | CmdSetSpeaking _ _ | CmdRecvUdpPacket _ _ _ | CmdClose => []
  end.
Definition command_replies (c : ConnectionCommand) : list reply := command_answers c ++ packet_replies c.

(** Code that works on the receive side keeps the invariant. *)
Lemma on_base_ok {E A} ids fin extra (f : E -> Error) (m : st Pipeline.Driver E A) d : mono m -> drv_ok ids fin extra d ->
  wlp (on_base f m) (fun _ d' => drv_ok ids fin extra d' /\ (ticks d <= ticks d')%nat) (fun _ d' => drv_ok ids fin extra d') d.
Proof.
  intros Hm Hd. unfold wlp, on_base. destruct (Hm (base d)) as [Ht _]. destruct (m (base d)) as [r b]. cbn in Ht.
  assert (drv_ok ids fin extra (with_base b d)) by (eapply drv_ok_view; [exact Hd|done|exact Ht]). by destruct r.
Qed.

Lemma on_base_good {E A} ids fin (f : E -> Error) (m : st Pipeline.Driver E A) d : mono m -> drv_ok ids fin [] d -> good ids fin (on_base f m) d.
Proof. intros Hm Hd. eapply wlp_mono; [by apply on_base_ok|done|]. intros e d'. apply lost_nothing. Qed.

Lemma base_ok ids fin extra b d : Pipeline.d_ticks b = Pipeline.d_ticks (base d) -> drv_ok ids fin extra d -> drv_ok ids fin extra (with_base b d).
Proof. intros Hb Hd. eapply drv_ok_view; [exact Hd|done|]. unfold ticks. cbn. lia. Qed.

Lemma push_wait_ok ids fin r m t d : drv_ok ids fin [r] d ->
  drv_ok ids fin [] (with_waits (timers_push {| wait_response := r; wait_max_wait := m |} t (pending_media_ready_waits d)) (pending_media_ready_sends d) d).
Proof.
  intros [H1 H2 H3 H4 H5 H6]. split; try done; [|by apply timers_push_ok]. rewrite H1. unfold outstanding. cbn [pending_media_ready_waits with_waits pending_media_ready_sends send answers].
  apply Permutation_app_head. rewrite contents_push. cbn. rewrite app_nil_r. by rewrite Permutation_app_comm.
Qed.

Lemma push_send_ok ids fin s t d : drv_ok ids fin [send_response s] d ->
  drv_ok ids fin [] (with_waits (pending_media_ready_waits d) (timers_push s t (pending_media_ready_sends d)) d).
Proof.
  intros [H1 H2 H3 H4 H5 H6]. split; try done; [|by apply timers_push_ok]. rewrite H1. unfold outstanding. cbn [pending_media_ready_waits with_waits pending_media_ready_sends send answers].
  apply Permutation_app_head. rewrite <- !app_assoc. apply Permutation_app_head. rewrite contents_push. cbn. rewrite app_nil_r. by rewrite (app_assoc _ _ [_]), Permutation_app_comm.
Qed.

Lemma command_good ids fin c d : drv_ok ids fin [] d -> good ids fin (send_voice_gateway_command ws c) d.
Proof.
  intros Hd. eapply wlp_mono; [by apply (command_ok ids fin [])| |].
  - intros [] d' (Hv & Ht & _). split; [|lia]. eapply drv_ok_view; [exact Hd|done|lia].
  - intros e d' [_ Hd']. by apply lost_nothing.
Qed.

Lemma handle_command_ok ids fin c d : drv_ok ids fin (command_answers c) d ->
  good ids fin (handle_command tuning clock telemetry udp ws ready ready_timeout c) d.
Proof.
  intros Hd. destruct c as [flags delay|kind max_len r|c r|r|max_wait r|c frame duration r|]; cbn [command_answers handle_command] in *.
  - by apply command_good.
  - unfold good, wlp. destruct (ReadyFrames.push_packet_receive _ _ _) as [q|e|]; [|by apply lost_nothing|done]. split; [by apply base_ok|done].
  - eapply good_with_bind with (x := [r]).
    + unfold good_with, wlp, attach_stream. destruct (ReadyFrames.attach_frame_stream c _) as [res h]. assert (drv_ok ids fin [r] (with_base (Pipeline.with_hand h (base d)) d)) by (by apply base_ok).
      by destruct res.
    + intros a d1 Hd1 _. destruct a; [|by apply complete_good]. eapply good_with_bind; [by apply (complete_good ids fin r)|]. intros _ d2 Hd2 _.
      eapply good_with_bind; [apply on_base_good; [apply mono_collect|done]|]. intros _ d3 Hd3 _. apply on_base_good; [apply mono_flush|done].
  - apply good_gets. by apply complete_good.
  - eapply wlp_bind, wlp_now. intros d1 Hv Ht. apply wlp_bind. unfold wlp at 1. cbn [modify].
    eapply wlp_weaken; [|apply waits_ok, push_wait_ok]; [|eapply drv_ok_view; [exact Hd|done|lia]]. change (ticks d <= ticks d1)%nat. lia.
  - unfold send_media_frame_when_ready. apply good_gets. destruct (Pipeline.media_ready _); [by apply complete_send_ok|].
    eapply wlp_bind, wlp_now. intros d1 Hv Ht. unfold wlp. cbn [modify]. split; [|change (ticks d <= ticks d1)%nat; lia]. apply push_send_ok.
    eapply drv_ok_view; [exact Hd|done|lia].
  - split; [|done]. by eapply drv_ok_view; [exact Hd|..].
Qed.

(** ** Messages of the gateway *)
Lemma signal_good ids fin d : drv_ok ids fin [] d -> good ids fin close_signal d.
Proof. intros Hd. split; [|done]. by eapply drv_ok_view; [exact Hd|..]. Qed.

Lemma close_frame_good ids fin d : drv_ok ids fin [] d -> good ids fin (send_close_frame ws) d.
Proof. intros Hd. split; [|done]. by eapply drv_ok_view; [exact Hd|..]. Qed.

Lemma conn_ok ids fin c d : drv_ok ids fin [] d -> good ids fin (set_conn c) d.
Proof. intros Hd. split; [|done]. by apply base_ok. Qed.

Lemma effects_good ids fin e d : drv_ok ids fin [] d -> good ids fin (apply_gateway_effects clock e) d.
Proof. intros Hd. apply on_base_good; [apply mono_effects|done]. Qed.

Lemma lift_good {A} ids fin (r : res Error A) d : drv_ok ids fin [] d -> good ids fin (lift r) d.
Proof. intros Hd. unfold good, wlp, lift. destruct r; [done|by apply lost_nothing|done]. Qed.

Lemma throw_good {A} ids fin e d : drv_ok ids fin [] d -> good ids fin (throw e : drv A) d.
Proof. intros Hd. by apply lost_nothing. Qed.

Lemma negotiated_view p ready0 random c q : update_negotiated_media random ready0 c p = Ok q -> active_playout q = active_playout p.
Proof.
  unfold update_negotiated_media. destruct (negotiated_video_media ready0 c) as [v|]; [|by intros [= <-]].
  destruct (outbound_video_rtp p) as [rtp|]; [destruct (_ =? _); [by intros [= <-]|]|]; by intros (s & _ & [= <-])%bind_Ok_inv.
Qed.

Lemma message_ok ids fin random ack m d : drv_ok ids fin [] d -> good ids fin (handle_websocket_message clock ready random ack m) d.
Proof.
  intros Hd. destruct m as [[[[opcode seq] data]|]|b| | | |]; cbn [handle_websocket_message]; try (by apply drv_good_ret); try (by apply throw_good);
    try (eapply drv_good_bind; [by apply signal_good|]; intros _ d1 Hd1 _; by apply drv_good_ret).
  - apply good_gets. eapply drv_good_bind; [by apply conn_ok|]. intros _ d1 Hd1 _. eapply drv_good_bind; [by apply lift_good|]. intros [[effects c] ack'] d2 Hd2 _.
    eapply drv_good_bind; [by apply conn_ok|]. intros _ d3 Hd3 _. eapply drv_good_bind; [by apply effects_good|]. intros _ d4 Hd4 _.
    eapply drv_good_bind; [|intros _ d5 Hd5 _; by apply drv_good_ret]. destruct (Gateway.media_session_updated effects); [|by apply drv_good_ret]. do 2 apply good_gets.
    unfold good, wlp, mbind, st_mbind, lift. destruct (update_negotiated_media random ready _ (send d4)) as [p|e|] eqn:Hu; cbn [map_err]; [|by apply lost_nothing|done].
    split; [|done]. eapply drv_ok_view; [exact Hd4| |done]. unfold view. cbn. by rewrite (negotiated_view _ _ _ _ _ Hu).
  - apply good_gets. destruct (Gateway.handle_voice_binary_event b _) as [r c]. eapply drv_good_bind; [by apply conn_ok|]. intros _ d1 Hd1 _.
    eapply drv_good_bind; [by apply lift_good|]. intros effects d2 Hd2 _. eapply drv_good_bind; [by apply effects_good|]. intros _ d3 Hd3 _. by apply drv_good_ret.
Qed.

Lemma send_commands_ok ids fin l d : drv_ok ids fin [] d -> good ids fin (send_commands ws l) d.
Proof.
  revert d. induction l as [|c l IH]; intros d Hd; [by apply drv_good_ret|]. eapply drv_good_bind; [by apply command_good|]. intros _ d1 Hd1 _. by apply IH.
Qed.

Lemma pump_dave_ok ids fin d : drv_ok ids fin [] d -> good ids fin (pump_dave clock ws) d.
Proof.
  intros Hd. unfold pump_dave. apply good_now; [done|]. intros t d1 Hd1. eapply drv_good_bind; [|intros l d2 Hd2 _; by apply send_commands_ok].
  unfold good, wlp. destruct (dave_pump _ _ _ _ _) as [r v]. set (d2 := with_base _ d1). assert (drv_ok ids fin [] d2) by (by apply base_ok).
  destruct r; cbn [map_err]; [done|by apply lost_nothing|done].
Qed.

(** ** The loop *)
Lemma wake_deadline_ok ids fin p d : drv_ok ids fin [] d -> good ids fin (wake_deadline clock p) d.
Proof.
  intros Hd. unfold wake_deadline. destruct (frames p).
  - destruct (finish_response p); by apply drv_good_ret.
  - destruct (next_send_at p); [by apply drv_good_ret|]. apply good_now; [done|]. intros t d1 Hd1. by apply drv_good_ret.
Qed.

Lemma next_wake_ok ids fin d : drv_ok ids fin [] d -> good ids fin (next_driver_wake_deadline clock) d.
Proof.
  intros Hd. do 2 apply good_gets. eapply drv_good_bind; [|intros w d1 Hd1 _; apply good_gets; by apply drv_good_ret].
  destruct (active_playout (send d)); [by apply wake_deadline_ok|by apply drv_good_ret].
Qed.

Lemma turn_ok ids fin d : drv_ok ids fin [] d -> good ids fin (turn_start clock telemetry udp ws ready ready_timeout gone) d.
Proof.
  intros Hd. unfold turn_start. eapply drv_good_bind.
  { unfold good, wlp, discard_closed. destruct (ReadyFrames.discard_closed_packet_receives _ _) as [q|e|]; [|by apply lost_nothing|done]. split; [by apply base_ok|done]. }
  intros _ d1 Hd1 _. eapply drv_good_bind; [apply on_base_good; [apply mono_flush|done]|]. intros _ d2 Hd2 _.
  eapply drv_good_bind; [by apply media_ready_ok|]. intros _ d3 Hd3 _. eapply drv_good_bind; [by apply resolve_good|]. intros _ d4 Hd4 _.
  eapply drv_good_bind; [by apply next_wake_ok|]. intros _ d5 Hd5 _. by apply drv_good_ret.
Qed.

Lemma heartbeat_ok ids fin l d : drv_ok ids fin [] d -> good ids fin (heartbeat_tick clock ws heartbeat_interval_ms l) d.
Proof.
  intros Hd. unfold heartbeat_tick. destruct (Gateway.ack_pending _).
  - apply good_now; [done|]. intros t d1 Hd1. destruct (Gateway.timed_out _ _ _); [by apply throw_good|by apply drv_good_ret].
  - apply good_gets. eapply drv_good_bind; [by apply command_good|]. intros _ d1 Hd1 _. apply good_now; [done|]. intros t d2 Hd2. by apply drv_good_ret.
Qed.

Definition event_answers (ev : DriverEvent) : list reply :=
  match ev with EvCommand (Some c) => command_answers c | EvPlayout (Some c) => playout_replies c | _ => [] end.
Definition event_replies (ev : DriverEvent) : list reply :=
  match ev with EvCommand (Some c) => command_replies c | EvPlayout (Some c) => playout_replies c | _ => [] end.
Definition event_fin (ev : DriverEvent) : list Z := match ev with EvPlayout (Some c) => playout_fin c | _ => [] end.

Lemma event_ok ids fin ev l d : drv_ok ids fin (event_answers ev) d -> (forall id, id ∈ event_fin ev -> id ∉ fin) ->
  good ids (event_fin ev ++ fin) (on_event tuning clock telemetry rtcp_telemetry udp ws ready ready_timeout heartbeat_interval_ms retry_fuel ev l) d.
Proof.
  intros Hd Hfin. destruct ev as [|[c|]|[c|]| |[packet|]| |random m]; cbn [on_event event_answers event_fin app] in *; try (by apply drv_good_ret).
  - eapply drv_good_bind; [by apply heartbeat_ok|]. intros l' d1 Hd1 _. by apply drv_good_ret.
  - eapply drv_good_bind; [by apply handle_command_ok|]. intros _ d1 Hd1 _. by apply drv_good_ret.
  - eapply drv_good_bind; [by apply signal_good|]. intros _ d1 Hd1 _. eapply drv_good_bind; [by apply close_frame_good|]. intros _ d2 Hd2 _. by apply drv_good_ret.
  - eapply drv_good_bind; [by apply playout_command_ok|]. intros _ d1 Hd1 _. by apply drv_good_ret.
  - eapply drv_good_bind; [by apply close_frame_good|]. intros _ d1 Hd1 _. by apply drv_good_ret.
  - eapply drv_good_bind; [apply on_base_good; [apply mono_packet|done]|]. intros _ d1 Hd1 _. by apply drv_good_ret.
  - by apply throw_good.
  - eapply drv_good_bind; [apply on_base_good; [apply mono_wake|done]|]. intros _ d1 Hd1 _. eapply drv_good_bind; [by apply resolve_good|]. intros _ d2 Hd2 _. by apply drv_good_ret.
  - eapply drv_good_bind; [by apply message_ok|]. intros [effects ack] d1 Hd1 _. destruct effects as [effects|]; [|by apply drv_good_ret].
    eapply drv_good_bind; [by apply pump_dave_ok|]. intros _ d2 Hd2 _. eapply drv_good_bind; [by apply media_ready_ok|]. intros _ d3 Hd3 _.
    eapply drv_good_bind; [apply on_base_good; [apply mono_after|done]|]. intros _ d4 Hd4 _. eapply drv_good_bind; [by apply resolve_good|]. intros _ d5 Hd5 _. by apply drv_good_ret.
Qed.

Lemma issue_ok ids fin l d : drv_ok ids fin [] d -> drv_ok (ids ++ l) fin l d.
Proof. intros [H1 H2 H3 H4 H5 H6]. split; try done. rewrite H1. by rewrite app_nil_r, <- !app_assoc. Qed.

(** The requests the events ask for: all, those the driver answers itself, and
    those for packets. *)
Definition issued (evs : list DriverEvent) : list reply := mjoin (event_replies <$> evs).
Definition issued_answers (evs : list DriverEvent) : list reply := mjoin (event_answers <$> evs).
Definition issued_packets (evs : list DriverEvent) : list reply := mjoin (event_packets <$> evs).
Definition finished (evs : list DriverEvent) : list Z := mjoin (event_fin <$> evs).

(** The events that break the loop, and the events a run without error takes:
    those up to the first that breaks it. *)
Definition closing (ev : DriverEvent) : bool :=
  match ev with EvCommand None | EvClosed | EvMessage _ WsClose | EvMessage _ WsEnd => true | _ => false end.

Fixpoint taken (evs : list DriverEvent) : list DriverEvent :=
  match evs with [] => [] | ev :: evs => ev :: if closing ev then [] else taken evs end.

Lemma wlp_after {A B} (m : drv A) (f : A -> drv B) Q d : (forall a d', wlp (f a) Q (fun _ _ => True) d') -> wlp (m ≫= f) Q (fun _ _ => True) d.
Proof. intros Hf. eapply wlp_seq; [apply wlp_any|]. auto. Qed.

Lemma message_stops random ack m d :
  wlp (handle_websocket_message clock ready random ack m) (fun o _ => is_some o.1 = negb (closing (EvMessage random m))) (fun _ _ => True) d.
Proof.
  destruct m as [[[[opcode seq] data]|]|b| | | |]; cbn [handle_websocket_message]; try done.
  - do 2 (apply wlp_after; intros ? ?). apply wlp_after. intros [[? ?] ?] ?. by do 3 (apply wlp_after; intros ? ?).
  - apply wlp_after. intros ? ?. destruct (Gateway.handle_voice_binary_event b _). by do 3 (apply wlp_after; intros ? ?).
Qed.

Lemma event_stops ev l d :
  wlp (on_event tuning clock telemetry rtcp_telemetry udp ws ready ready_timeout heartbeat_interval_ms retry_fuel ev l)
    (fun o _ => is_some o = negb (closing ev)) (fun _ _ => True) d.
Proof.
  destruct ev as [|[c|]|[c|]| |[packet|]| |random m]; cbn [on_event]; try done; try (by repeat (apply wlp_after; intros ? ?)).
  eapply wlp_seq; [apply message_stops|]. intros [[effects|] ack] d1 <-; cbn [fst]; [|done]. by do 4 (apply wlp_after; intros ? ?).
Qed.

Lemma wlp_and {A} (m : drv A) Q Q' S d : wlp m Q S d -> wlp m Q' (fun _ _ => True) d -> wlp m (fun a d' => Q a d' /\ Q' a d') S d.
Proof. unfold wlp. destruct (m d) as [[]]; naive_solver. Qed.

(** What a method leaves behind, whatever it returns. *)
Lemma wlp_keep {A} (m : drv A) Q S (P : ConnectionDriver -> Prop) d : wlp m Q S d -> P (m d).2 ->
  wlp m (fun a d' => Q a d' /\ P d') (fun e d' => S e d' /\ P d') d.
Proof. unfold wlp. by destruct (m d) as [[]]. Qed.

Lemma event_loop_ok evs ids fin pids l d : drv_ok ids fin [] d -> NoDup (finished evs) -> (forall id, id ∈ finished evs -> id ∉ fin) ->
  wlp (event_loop tuning clock telemetry rtcp_telemetry udp ws ready ready_timeout heartbeat_interval_ms retry_fuel gone evs l)
    (fun _ d' => exists fin', drv_ok (ids ++ issued_answers (taken evs)) fin' [] d' /\
       (accounted gone pids (base d) -> accounted gone (pids ++ issued_packets (taken evs)) (base d')))
    (fun e d' => exists k fin', lost (ids ++ issued_answers (take k (taken evs))) fin' e d' /\
       (accounted gone pids (base d) -> accounted gone (pids ++ issued_packets (take k (taken evs))) (base d'))) d.
Proof.
  revert ids fin pids l d. induction evs as [|ev evs IH]; intros ids fin pids l d Hd Hnd Hfin; cbn [event_loop taken].
  { exists fin. by rewrite !app_nil_r. }
  eapply wlp_bind, wlp_mono; [eapply wlp_keep with (P := fun d' => accounted gone pids (base d) -> accounted gone pids (base d')); [by apply turn_ok|by apply accounted_turn]| |].
  2: { intros e d' [He Ha]. exists 0%nat, fin. by rewrite !app_nil_r. }
  intros _ d1 [[Hd1 _] Ha1]. assert (finished (ev :: evs) = event_fin ev ++ finished evs) as Hev by done. rewrite Hev in *.
  eapply wlp_bind, wlp_mono; [eapply wlp_keep with (P := fun d' => accounted gone pids (base d) -> accounted gone (pids ++ event_packets ev) (base d'));
    [apply wlp_and; [apply (event_ok (ids ++ event_answers ev) fin); [by apply issue_ok|]|apply event_stops]|intros Ha; by apply accounted_event, Ha1]| |].
  - intros id Hid. apply Hfin. apply elem_of_app. by left.
  - intros o d2 [[[Hd2 _] Hstop] Ha2]. destruct o as [l'|]; [|destruct (closing ev); [|done]; exists (event_fin ev ++ fin); cbn; by rewrite !app_nil_r].
    destruct (closing ev); [done|].
    apply NoDup_app in Hnd as (_ & Hdis & Hnd). eapply wlp_mono; [apply (IH (ids ++ event_answers ev) (event_fin ev ++ fin) (pids ++ event_packets ev) l' d2 Hd2 Hnd)| |].
    + intros id Hid [Hid'|Hid']%elem_of_app; [by eapply Hdis|]. eapply Hfin; [|exact Hid']. apply elem_of_app. by right.
    + intros b d3 (fin' & Hk & Ha3). exists fin'. cbn. rewrite !app_assoc. auto.
    + intros e d3 (k & fin' & Hk & Ha3). exists (S k), fin'. cbn. rewrite !app_assoc. auto.
  - intros e d2 [He Ha2]. exists 1%nat, (event_fin ev ++ fin). cbn. by rewrite !app_nil_r.
Qed.

(** A driver that has just been made. *)
Definition fresh (d : ConnectionDriver) : Prop :=
  answers d = [] /\ pending_media_ready_waits d = timers_default /\ pending_media_ready_sends d = timers_default /\ active_playout (send d) = None.

Lemma fresh_drv_ok d : fresh d -> drv_ok [] [] [] d.
Proof. intros (Ha & Hw & Hs & Hp). split; unfold outstanding; rewrite ?Ha, ?Hw, ?Hs, ?Hp; try done; apply timers_default_ok. Qed.

Lemma run_loop_ok random evs d : fresh d -> NoDup (finished evs) ->
  wlp (run_loop tuning clock telemetry rtcp_telemetry udp ws ready ready_timeout heartbeat_interval_ms retry_fuel gone random evs)
    (fun _ d' => exists fin, drv_ok (issued_answers (taken evs)) fin [] d' /\
       (accounted gone [] (base d) -> accounted gone (issued_packets (taken evs)) (base d')))
    (fun e d' => exists k fin, lost (issued_answers (take k (taken evs))) fin e d' /\
       (accounted gone [] (base d) -> accounted gone (issued_packets (take k (taken evs))) (base d'))) d.
Proof.
  intros Hd%fresh_drv_ok Hnd. unfold run_loop. set (P := fun d' => accounted gone [] (base d) -> accounted gone [] (base d')).
  eapply wlp_bind, wlp_mono; [eapply (wlp_keep _ _ _ P); [by apply lift_good|exact (fun Ha => Ha)]| |intros e d' [He Ha]; by exists 0%nat, []]. intros nonce d0 [[Hd0 _] Ha0].
  eapply wlp_bind, wlp_mono; [eapply (wlp_keep _ _ _ P); [by apply pump_dave_ok|intros Ha; by apply accounted_serves; [apply serves_pump|apply Ha0]]| |
    intros e d' [He Ha]; by exists 0%nat, []]. intros _ d1 [[Hd1 _] Ha1].
  eapply wlp_bind, wlp_mono; [eapply (wlp_keep _ _ _ P); [by apply media_ready_ok|intros Ha; by apply accounted_serves; [apply serves_media_ready|apply Ha1]]| |
    intros e d' [He Ha]; by exists 0%nat, []]. intros _ d2 [[Hd2 _] Ha2].
  eapply wlp_mono; [apply (event_loop_ok evs [] [] []); [done|done|]| |].
  - intros id _. apply not_elem_of_nil.
  - intros b d' (fin & Hok & Ha). exists fin. auto.
  - intros e d' (k & fin & Hok & Ha). exists k, fin. auto.
Qed.

(** ** Closing *)
Definition closes {A} (ids : list reply) (fin : list Z) (extra : list reply) (m : drv A) (d : ConnectionDriver) : Prop :=
  wlp m (fun _ d' => drv_ok ids fin extra d') (fun _ _ => False) d.

Lemma closes_bind {A B} ids fin x y (m : drv A) (f : A -> drv B) d :
  closes ids fin x m d -> (forall a d', drv_ok ids fin x d' -> closes ids fin y (f a) d') -> closes ids fin y (m ≫= f) d.
Proof. intros Hm Hf. eapply wlp_seq; [exact Hm|]. auto. Qed.

Lemma close_command_ok ids fin c extra d : drv_ok ids fin (command_answers c ++ extra) d -> closes ids fin extra (command_complete_closed c) d.
Proof.
  intros Hd. destruct c; cbn in *; try done; try (by apply complete_ok). unfold closes, wlp. cbn. by apply base_ok.
Qed.

Lemma close_playout_ok ids fin c extra d : drv_ok ids fin (playout_replies c ++ extra) d -> closes ids fin extra (playout_complete_closed c) d.
Proof. intros Hd. destruct c; cbn in *; try done; by apply complete_ok. Qed.

Lemma each_ok {A} ids fin (replies : A -> list reply) (f : A -> drv ()) l extra d :
  (forall x extra d, drv_ok ids fin (replies x ++ extra) d -> closes ids fin extra (f x) d) ->
  drv_ok ids fin (mjoin (replies <$> l) ++ extra) d -> closes ids fin extra (each f l) d.
Proof.
  intros Hf. revert d. induction l as [|x l IH]; intros d Hd; [done|]. cbn in Hd. rewrite <- app_assoc in Hd. cbn [each].
  eapply closes_bind; [by apply Hf|]. intros _ d' Hd'. by apply IH.
Qed.

Lemma closed_of_no_error fuel k q (e : Error) : ReadyFrames.complete_closed_of fuel k q ≠ Err e.
Proof.
  revert q. induction fuel as [|fuel IH]; intros q; cbn [ReadyFrames.complete_closed_of]; [done|].
  unfold ReadyFrames.pop_packet_receive, Buckets.bucket_pop_front, Buckets.bucket, index. destruct (q !! _) as [[|x l]|]; cbn [unwrap mbind res_mbind]; try done.
  match goal with |- context [ReadyFrames.complete_closed_of fuel k ?q'] => specialize (IH q'); destruct (ReadyFrames.complete_closed_of fuel k q') as [[]| |] end; naive_solver.
Qed.

Lemma closed_in_no_error kinds q (e : Error) : ReadyFrames.complete_closed_in kinds q ≠ Err e.
Proof.
  revert q. induction kinds as [|k kinds IH]; intros q; cbn [ReadyFrames.complete_closed_in]; [done|].
  pose proof (closed_of_no_error (S (Buckets.bucket_len q)) k q) as Hof.
  destruct (ReadyFrames.complete_closed_of _ k q) as [[r q1]|e'|]; cbn [mbind res_mbind]; [|by intros [= ->]; eapply Hof|done].
  specialize (IH q1). destruct (ReadyFrames.complete_closed_in kinds q1) as [[]| |]; naive_solver.
Qed.

Lemma close_receives_ok ids fin extra d : drv_ok ids fin extra d -> closes ids fin extra close_packet_receives d.
Proof.
  intros Hd. unfold closes, wlp, close_packet_receives. destruct (ReadyFrames.complete_closed_packet_receives _) as [[replies q]|e|] eqn:Hc; [by apply base_ok| |done].
  by eapply closed_in_no_error.
Qed.

Lemma cancel_active_ok ids fin extra d : drv_ok ids fin extra d ->
  wlp (active ← gets (fun d => active_playout (send d));
       match active with Some p => _ ← set_active None; playout_cancel p | None => mret () end)
    (fun _ d' => drv_ok ids fin extra d' /\ active_playout (send d') = None) (fun _ _ => False) d.
Proof.
  intros Hd. unfold wlp, mbind, st_mbind, gets. destruct (active_playout (send d)) as [p|] eqn:Hp; [|done].
  destruct Hd as [H1 H2 H3 H4 H5 H6]. unfold outstanding in H1. rewrite Hp in H1.
  unfold set_active, modify, playout_cancel. destruct (finish_response p) as [r|] eqn:Hr; unfold reply_of in H1; cbn [from_option] in H1; rewrite Hr in H1.
  - split; [|done]. apply (complete_ok _ _ r _ extra); [|done]. split; try done. rewrite H1. unfold outstanding. cbn. by rewrite !app_nil_r, <- !app_assoc.
  - split; [|done]. split; try done.
Qed.

(** What is left when the driver has ended. *)
Record ended (ids extra : list reply) (d : ConnectionDriver) : Prop := {
  ended_replies : ids ≡ₚ (answers d).*1 ++ extra;
  ended_answers : Forall (fun a => answer_ok a.2) (answers d);
  ended_playout : active_playout (send d) = None }.

Lemma complete_all_run {A} (f : A -> reply * Answer) l d : complete_all f l d = (Ok (), with_answers (f <$> l) d).
Proof.
  revert d. induction l as [|x l IH]; intros d; cbn [complete_all].
  - unfold mret, st_mret, with_answers. rewrite app_nil_r. by destruct d.
  - unfold mbind, st_mbind, complete, modify. rewrite IH. unfold with_answers. cbn. rewrite <- app_assoc. by destruct (f x).
Qed.

Definition close_waits : drv () :=
  waits ← drain_waits (fun q => Ok (drain_all q));
  _ ← complete_all (fun w => (wait_response w, AnswerStatus (inl EClosed))) waits;
  sends ← drain_sends (fun q => Ok (drain_all q));
  complete_all (fun s => (send_response s, AnswerPacket (inl EClosed))) sends.

Lemma close_waits_ok ids fin extra d : drv_ok ids fin extra d -> active_playout (send d) = None -> wlp close_waits (fun _ => ended ids extra) (fun _ _ => False) d.
Proof.
  intros [H1 _ _ _ _ H6] Hp. unfold outstanding in H1. rewrite Hp in H1. cbn [from_option] in H1. rewrite app_nil_r in H1.
  unfold wlp, close_waits, mbind, st_mbind, drain_waits, drain_sends. cbn [drain_all]. rewrite complete_all_run. cbn [pending_media_ready_sends with_answers with_waits].
  rewrite complete_all_run. split; cbn; [| |done].
  - rewrite H1, !fmap_app, <- !list_fmap_compose, <- !app_assoc. done.
  - repeat apply Forall_app_2; [done| |]; apply Forall_fmap, Forall_true; done.
Qed.

Lemma closed_ok ids fin extra d : drv_ok ids fin extra d -> drv_ok ids fin extra (with_closed d).
Proof. intros Hd. by eapply drv_ok_view; [exact Hd|..]. Qed.

(** Whatever state the loop ended in, closing answers everything that waits or
    is still in the channels. *)
Lemma closing_ok ids fin extra commands playouts d : drv_ok ids fin extra d ->
  wlp (complete_pending_closed commands playouts)
    (fun _ => ended (ids ++ mjoin (command_answers <$> commands) ++ mjoin (playout_replies <$> playouts)) extra) (fun _ _ => False) d.
Proof.
  intros Hd. set (ids' := ids ++ _).
  assert (drv_ok ids' fin (mjoin (command_answers <$> commands) ++ mjoin (playout_replies <$> playouts) ++ extra) d) as Hd'.
  { destruct Hd as [H1 H2 H3 H4 H5 H6]. split; try done. unfold ids'. rewrite H1, <- !app_assoc. do 2 apply Permutation_app_head.
    by rewrite Permutation_app_comm, <- !app_assoc. }
  unfold complete_pending_closed.
  eapply wlp_seq; [by apply (each_ok ids' fin command_answers); [apply close_command_ok|]|]. intros [] d1 Hd1. 
  eapply wlp_seq; [by apply (each_ok ids' fin playout_replies); [apply close_playout_ok|]|]. intros [] d2 Hd2.
  eapply wlp_seq; [by apply close_receives_ok|]. intros [] d3 Hd3.
  pose proof (cancel_active_ok ids' fin extra d3 Hd3) as Hc. unfold wlp, mbind, st_mbind, gets in Hc |- *.
  destruct (active_playout (send d3)) as [p|].
  - destruct (set_active None d3) as [[[]|e|] d4]; [|done|done]. destruct (playout_cancel p d4) as [[[]|e|] d5]; [|done|done].
    exact (close_waits_ok ids' fin extra d5 (proj1 Hc) (proj2 Hc)).
  - exact (close_waits_ok ids' fin extra d3 (proj1 Hc) (proj2 Hc)).
Qed.

(** The part of closing that follows the requests for packets leaves the
    receive side alone. *)
Lemma close_rest_base d :
  base ((active ← gets (fun d => active_playout (send d));
         _ ← match active with Some p => _ ← set_active None; playout_cancel p | None => mret () end; close_waits) d).2 = base d.
Proof.
  assert (forall d, base (close_waits d).2 = base d) as Hw.
  { intros d1. unfold close_waits, mbind, st_mbind, drain_waits, drain_sends. cbn [drain_all]. rewrite complete_all_run. cbn [pending_media_ready_sends with_answers with_waits].
    by rewrite complete_all_run. }
  unfold mbind, st_mbind, gets. destruct (active_playout (send d)) as [p|]; [|apply Hw]. cbn [set_active modify].
  unfold playout_cancel. destruct (finish_response p); cbn [complete modify mret st_mret]; by rewrite Hw.
Qed.

(** When closing is done, every request for a packet that the driver had kept
    has been answered. *)
Lemma closing_account ids ab commands playouts d d' : account ids ab (base d) -> complete_pending_closed commands playouts d = (Ok (), d') ->
  ids ++ mjoin (packet_replies <$> commands) ≡ₚ (Pipeline.d_replies (base d')).*1 ++ ab.
Proof.
  intros Hd. unfold complete_pending_closed. pose proof (account_close_commands ids ab commands d Hd) as H1. unfold mbind at 1, st_mbind at 1.
  destruct (each command_complete_closed commands d) as [[[]|e|] d1]; [|done|done]. pose proof (account_served _ _ _ _ (serves_close_playouts playouts d1) H1) as H2.
  unfold mbind at 1, st_mbind at 1. destruct (each playout_complete_closed playouts d1) as [[[]|e|] d2]; [|done|done].
  destruct (account_close_receives _ _ d2 H2) as [H3 Hw]. unfold mbind at 1, st_mbind at 1. destruct (close_packet_receives d2) as [[[]|e|] d3]; [|done|done].
  pose proof (close_rest_base d3) as Hb. fold close_waits. intros Hr. rewrite Hr in Hb. cbn [snd] in *. rewrite Hb.
  destruct H3 as [_ H3]. unfold tracked in H3. by rewrite Hw, app_nil_r in H3.
Qed.

(** The reply channels that have got their answer. *)
Definition replied (d : ConnectionDriver) : list reply := (answers d).*1 ++ (Pipeline.d_replies (base d)).*1.

(** No request for a packet has been taken yet. *)
Definition unasked (d : ConnectionDriver) : Prop := Pipeline.d_requests (base d) = [[]; []] /\ Pipeline.d_replies (base d) = [].

Lemma issued_split evs : issued evs ≡ₚ issued_answers evs ++ issued_packets evs.
Proof.
  induction evs as [|ev evs IH]; [done|]. unfold issued, issued_answers, issued_packets in *. cbn. rewrite IH.
  assert (event_replies ev = event_answers ev ++ event_packets ev) as -> by (destruct ev as [|[c|]|[c|]| | | |]; cbn; by rewrite ?app_nil_r).
  rewrite <- !app_assoc. apply Permutation_app_head. by rewrite Permutation_app_swap_app.
Qed.

Lemma replies_split l : mjoin (command_replies <$> l) ≡ₚ mjoin (command_answers <$> l) ++ mjoin (packet_replies <$> l).
Proof.
  induction l as [|c l IH]; [done|]. cbn. rewrite IH. unfold command_replies. rewrite <- !app_assoc. apply Permutation_app_head. by rewrite Permutation_app_swap_app.
Qed.

(** All requests of a run: those taken with the events [evs] and those left in the channels. *)
Definition requested (evs : list DriverEvent) (commands : list ConnectionCommand) (playouts : list PlayoutCommand) : list reply :=
  issued evs ++ mjoin (command_replies <$> commands) ++ mjoin (playout_replies <$> playouts).

(** Each request has been answered once, or is in [dropped], or is a request for
    a packet whose receiver the user had dropped. *)
Definition answered_once (evs : list DriverEvent) (commands : list ConnectionCommand) (playouts : list PlayoutCommand) (dropped : list reply)
    (d : ConnectionDriver) : Prop :=
  exists abandoned, requested evs commands playouts ≡ₚ replied d ++ dropped ++ abandoned /\
    forall r, r ∈ abandoned -> r ∈ issued_packets evs /\ exists n, gone n r = true.

Lemma answered_ended evs fin commands playouts dropped d d' : drv_ok (issued_answers evs) fin dropped d -> accounted gone (issued_packets evs) (base d) ->
  complete_pending_closed commands playouts d = (Ok (), d') -> answered_once evs commands playouts dropped d'.
Proof.
  intros Hok (ab & Ha & Hg) Hrun. pose proof (closing_ok _ _ _ commands playouts d Hok) as Hc. unfold wlp in Hc. rewrite Hrun in Hc. apply ended_replies in Hc.
  pose proof (closing_account _ _ commands playouts d d' Ha Hrun) as Hp. exists ab. split.
  - unfold requested, replied. rewrite issued_split, replies_split.
    trans ((issued_answers evs ++ mjoin (command_answers <$> commands) ++ mjoin (playout_replies <$> playouts)) ++ (issued_packets evs ++ mjoin (packet_replies <$> commands))).
    + rewrite <- !app_assoc. apply Permutation_app_head. rewrite Permutation_app_comm, <- !app_assoc. apply Permutation_app_head.
      rewrite (Permutation_app_comm (mjoin (packet_replies <$> commands))), <- !app_assoc. done.
    + rewrite Hc, Hp, <- !app_assoc. apply Permutation_app_head. by rewrite Permutation_app_swap_app.
  - intros r Hr. split; [|by apply Hg]. destruct Ha as [_ ->]. apply elem_of_app. by right.
Qed.

(** The replies of a run that ended. *)
Lemma run_answers random evs commands playouts d r d' :
  fresh d -> unasked d -> NoDup (finished evs) ->
  run tuning clock telemetry rtcp_telemetry udp ws ready ready_timeout heartbeat_interval_ms retry_fuel gone random evs commands playouts d = (r, d') -> r ≠ Panic ->
  exists k dropped, answered_once (take k (taken evs)) commands playouts dropped d' /\
    match r with Err e => dropped = [] \/ e = EWebSocket /\ exists x, dropped = [x] | _ => dropped = [] /\ take k (taken evs) = taken evs end.
Proof.
  intros Hd [Hq Hrep] Hnd Hrun Hr. pose proof (run_loop_ok random evs d Hd Hnd) as Hl. unfold wlp in Hl. unfold run in Hrun.
  assert (accounted gone [] (base d)) as Ha.
  { exists []. split; [|by intros r0 Hr0%elem_of_nil]. split; [by rewrite Hq|]. unfold tracked, waiting. by rewrite Hq, Hrep. }
  destruct (run_loop _ _ _ _ _ _ _ _ _ _ _ _ _ d) as [[b|e|] d1]; [| |by injection Hrun as <- <-].
  - destruct Hl as (fin & Hok%closed_ok & Ha1). specialize (Ha1 Ha). pose proof (closing_ok _ _ _ commands playouts _ Hok) as Hc. unfold wlp in Hc.
    destruct (complete_pending_closed commands playouts (with_closed d1)) as [[[]|e|] d2] eqn:Hcl; [|done|by injection Hrun as <- <-]. injection Hrun as <- <-.
    exists (length (taken evs)), []. rewrite take_ge by done. split; [|done]. by eapply answered_ended.
  - destruct Hl as (k & fin & (l & Hok%closed_ok & Hlost) & Ha1). specialize (Ha1 Ha). pose proof (closing_ok _ _ _ commands playouts _ Hok) as Hc. unfold wlp in Hc.
    destruct (complete_pending_closed commands playouts (with_closed d1)) as [[[]|e'|] d2] eqn:Hcl; [|done|by injection Hrun as <- <-]. injection Hrun as <- <-.
    exists k, l. split; [|done]. by eapply answered_ended.
Qed.

(** C12. Every request is answered once.  A driver that has just been made runs over
    any events and ends, with or without an error; no playout is finished twice
    ([OpusPlayout::finish] consumes it).  The replies it has sent then, those to
    requests for packets included, are, each once, those asked for by the events
    it took and by the commands that were left in the channels.  Without an
    error these are all events up to the one that closed the connection.  There
    are two exceptions: a request for a packet whose receiver the user had
    dropped is discarded, and the reply of a playout that was being ended when
    writing to the websocket failed is dropped with the driver. *)
Theorem replies_once random evs commands playouts d r d' :
  fresh d -> unasked d -> NoDup (finished evs) ->
  run tuning clock telemetry rtcp_telemetry udp ws ready ready_timeout heartbeat_interval_ms retry_fuel gone random evs commands playouts d = (r, d') -> r ≠ Panic ->
  exists k dropped, answered_once (take k (taken evs)) commands playouts dropped d' /\
    match r with Err e => dropped = [] \/ e = EWebSocket /\ exists x, dropped = [x] | _ => dropped = [] /\ take k (taken evs) = taken evs end.
Proof. apply run_answers. Qed.

(** C30. Playout is paced.  After any run of the loop, the frames the active playout
    has sent make up the audio its statistics expect, twenty milliseconds each,
    and since its start at most one frame more than the time that has passed has
    been sent; a playout that was finished was answered with statistics only
    when all audio sent had had its time. *)
Theorem playout_paced random evs d r d' :
  fresh d -> NoDup (finished evs) ->
  run_loop tuning clock telemetry rtcp_telemetry udp ws ready ready_timeout heartbeat_interval_ms retry_fuel gone random evs d = (r, d') -> r ≠ Panic ->
  (forall p, active_playout (send d') = Some p ->
     expected_media (stats p) = OpusPacket.BLOCK_DURATION * Z.of_nat (packets (stats p)) /\
     started_at p + expected_media (stats p) <= time d' + OpusPacket.BLOCK_DURATION) /\
  (forall i s, (i, AnswerPlayoutStats (inr s)) ∈ answers d' -> stats_expected_media s <= wall_elapsed s).
Proof.
  intros Hd Hnd Hrun Hr. pose proof (wlp_run _ _ _ _ _ _ (run_loop_ok random evs d Hd Hnd) Hrun) as Hl.
  assert (exists ids fin extra, drv_ok ids fin extra d') as (ids & fin & extra & Hok).
  { destruct r as [b|e|]; [|destruct Hl as (k & fin & (l & Hok & _) & _); eauto|done]. destruct Hl as (fin & Hok & _). eauto. }
  split.
  - intros p Hp. destruct (ok_paced _ _ _ _ Hok p Hp) as [H1 H2 H3]. split; [done|]. change OpusPacket.BLOCK_DURATION with 20000000 in *.
    destruct (next_send_at p); lia.
  - intros i s Hi. pose proof (ok_answers _ _ _ _ Hok) as Ha. rewrite Forall_forall in Ha. exact (Ha _ Hi).
Qed.

(** ** A playout that waits for DAVE *)

(** Turns of the driver in which nothing else happens. *)
Fixpoint resolve_turns (k : nat) : drv () :=
  match k with O => mret () | S k => _ ← resolve_active_playout clock udp ws ready ready_timeout; resolve_turns k end.

(** A playout whose next frame was due at [due], held back by DAVE until [deadline]. *)
Record held_back (due deadline : Z) (p : ActiveOpusPlayout) (d : ConnectionDriver) : Prop := {
  back_active : active_playout (send d) = Some p;
  back_due : next_send_at p = Some due;
  back_deadline : media_ready_deadline p = Some deadline;
  back_requires : dave_send_requires_dave d = true;
  back_waits : Pipeline.media_ready (media_status d) = false }.

Lemma held_back_turn due deadline p f l d :
  held_back due deadline p d -> frames p = f :: l -> due <= clock (ticks d) -> clock (S (ticks d)) < deadline ->
  let p' := (catch_up (clock (ticks d)) due OpusPacket.BLOCK_DURATION p).1 in
  exists d', resolve_active_playout clock udp ws ready ready_timeout d = (Ok (), d') /\ held_back due deadline p' d' /\
    ticks d' = S (S (ticks d)) /\ wire d' = wire d.
Proof.
  intros [H1 H2 H3 H4 H5] Hf Hdue Hdl p'. pose proof (catch_up_ok (clock (ticks d)) due p Hdue) as Hc. unfold p'. clear p'.
  unfold resolve_active_playout, mbind, st_mbind, gets, set_active, modify. rewrite H1.
  unfold ready_to_complete. rewrite Hf. assert (forall A B (a : A) (o : option B), match o with Some _ => a | None => a end = a) as Hsame by (by intros ? ? ? []).
  rewrite Hsame. cbn [mret st_mret]. rewrite H2, frame_duration_block. cbn [mret st_mret]. unfold now at 1. cbn [base with_send].
  change (Pipeline.d_ticks (base d)) with (ticks d). destruct (Z.ltb_spec (clock (ticks d)) due); [lia|].
  destruct (catch_up (clock (ticks d)) due OpusPacket.BLOCK_DURATION p) as [p1 due1]. destruct Hc as ((Hid & Hfin & Hst & Hn & _) & _ & Hsp & Hdead & _).
  cbn [fst]. set (d1 := with_base _ _). change (dave_send_requires_dave d1) with (dave_send_requires_dave d). change (media_status d1) with (media_status d).
  rewrite H4, H5. cbn [andb negb]. unfold await_media, mbind, st_mbind. rewrite Hdead, H3. cbn [mret st_mret]. rewrite Hdead, H3. unfold now.
  change (Pipeline.d_ticks (base d1)) with (S (ticks d)). destruct (Z.leb_spec deadline (clock (S (ticks d)))); [lia|].
  unfold set_active, modify. eexists. split; [reflexivity|]. split; [|done]. split; [done|by rewrite Hn|by rewrite Hdead|exact H4|exact H5].
Qed.


(** C38. A playout that waits for DAVE loses its frames.  While DAVE is required and
    not ready, the time the next frame was due stays as it is, so every turn
    counts the same lateness and drops stale frames again: once three frames
    late, [k] turns drop at least [k] frames, until one frame is left.  The turns
    are taken before the deadline of the wait, which is set at the first such
    turn; at the deadline the playout is ended.  Nothing is sent, and the wake deadline the driver sleeps
    until is the due time, which has passed: the turns follow each other
    without a pause. *)
Theorem waiting_playout_drains k due deadline p d :
  held_back due deadline p d -> frames p ≠ [] -> due + OpusPacket.BLOCK_DURATION * 3 <= time d -> clock (ticks d + 2 * k) < deadline ->
  exists d' p', resolve_turns k d = (Ok (), d') /\ held_back due deadline p' d' /\ wire d' = wire d /\
    (1 <= length (frames p') <= Nat.max 1 (length (frames p) - k))%nat /\
    (dropped_stale_frames (stats p') + length (frames p') = dropped_stale_frames (stats p) + length (frames p))%nat /\
    wake_deadline clock p' d' = (Ok (Some due), d') /\ due < time d'.
Proof.
  change OpusPacket.BLOCK_DURATION with 20000000. unfold time. revert p d. induction k as [|k IH]; intros p d Hb Hne Ht Hdl.
  { exists d, p. destruct (frames p) as [|f l] eqn:Hf; [done|]. split; [done|]. split; [done|]. split; [done|]. cbn [length]. split; [lia|]. split; [lia|]. split; [|lia].
    unfold wake_deadline. by rewrite Hf, (back_due _ _ _ _ Hb). }
  destruct (frames p) as [|f l] eqn:Hf; [done|].
  assert (clock (S (ticks d)) < deadline) as Hdl1 by (pose proof (clock_mono (S (ticks d)) (ticks d + 2 * S k) ltac:(lia)); lia).
  destruct (held_back_turn due deadline p f l d Hb Hf ltac:(lia) Hdl1) as (d1 & Hrun & Hb1 & Ht1 & Hw1).
  pose proof (catch_up_ok (clock (ticks d)) due p ltac:(lia)) as Hc. destruct (catch_up _ _ _ p) as [p1 due1]. cbn [fst] in Hb1.
  destruct Hc as (_ & _ & _ & _ & n & Hfr & Hdrop & Hne1 & Hn). change OpusPacket.BLOCK_DURATION with 20000000 in Hn. specialize (Hn ltac:(lia)).
  assert (frames p1 ≠ []) as Hne2 by (apply Hne1; by rewrite Hf).
  pose proof (clock_mono (ticks d) (ticks d1) ltac:(lia)) as Hmono.
  destruct (IH p1 d1 Hb1 Hne2 ltac:(lia)) as (d' & p' & Hrun' & Hb' & Hw' & Hlen & Hsum & Hwake & Hpast).
  { replace (ticks d1 + 2 * k)%nat with (ticks d + 2 * S k)%nat by lia. done. }
  exists d', p'. split; [cbn [resolve_turns]; by rewrite (st_bind_run _ _ _ _ _ Hrun)|]. split; [done|]. split; [congruence|].
  assert (length (frames p1) = length (frames p) - n)%nat as Hl1 by (by rewrite Hfr, length_drop).
  assert (0 < length (frames p1))%nat by (by destruct (frames p1); [|cbn; lia]). rewrite <- Hf, Hl1 in *.
  split; [|split; [lia|done]]. split; [lia|]. destruct (decide (1 < length (frames p))%nat) as [H1|H1]; [specialize (Hn H1); lia|lia].
Qed.

End DriverSpec.
End DriverSpec.
