(* ===== verification/DriverSamples.v ===== *)
(** * Concrete runs of the driver

    The sample instances of the components put together: a connection with a
    video stream whose DAVE is off, one that negotiates DAVE, and runs of the
    driver that send frames, play a packet out and answer requests. *)

From stdpp Require Import strings.
From S2P Require Import Prelude Effects Frame Gcm Ratchet Cryptor Rtp Codecs Outbound RtpPayload Packetize Queue Reorder Assembler PendingMedia Session.
From S2P Require Import DaveGateway Gateway Coordinator ReadyFrames Pipeline OpusPacket Send Playout Driver DriverSpec.

Module DriverSamples.
Import Gcm.Sample HashRatchet.SampleKdf Session.SessionSamples Coordinator.CoordinatorSamples Rtp.SampleAead Reorder.ReorderSamples.
Import Queue.Deadlines.SampleIter PendingMedia.PendingSamples Pipeline.PipelineSamples Gateway.GatewaySamples Send Playout Driver DriverSpec.
#[local] Existing Instance Assembler.AssemblerSamples.sample_raw.
#[local] Existing Instance Coordinator.dave_session.
#[local] Existing Instance Pipeline.PipelineSamples.sample_capture.
#[local] Existing Instance Pipeline.coordinator_media.
#[local] Existing Instance Pipeline.coordinator_media_laws.

(** Every reading of the clock is ten milliseconds after the one before. *)
Definition slow_clock (n : nat) : Z := 10000000 * Z.of_nat n.
Definition open_socket (n : nat) : UdpOutcome := UdpSent.
Definition open_websocket (n : nat) : bool := true.

Definition sample_ready : GatewayReady :=
  {| ready_ssrc := 9; ready_streams := [{| Gateway.stream_kind := Some "video"%string; Gateway.rid := Some "100"%string; Gateway.stream_ssrc := 10;
       Gateway.stream_rtx_ssrc := Some 11; Gateway.quality := Some 100; Gateway.stream_active := Some true |}] |}.

(** A session description with the given DAVE version. *)
Definition described (version : Z) : Gateway.SessionDescription :=
  {| Gateway.transport_crypto := Gateway.transport_crypto sample_description; Gateway.sd_audio_codec := Some "opus"%string;
     Gateway.sd_video_codec := Some "VP8"%string; Gateway.dave_protocol_version := Some version |}.

Definition video_map : Codecs.DiscordRtpCodecMap :=
  match Codecs.codec_map_new (Some "opus"%string) (Some "VP8"%string) [Vp8] with Ok m => m | _ => sample_map end.

Definition connected (version : Z) : Gateway.ConnectionInternalState := Gateway.connection_initial [Vp8] None 5 (described version) video_map.

Definition sample_send (version : Z) : SendPipeline :=
  match send_pipeline_new (Some [0; 0; 0; 1]) (Some [0; 0; 1; 0]) sample_ready (connected version) with
  | Ok p => p
  | _ => {| outbound_audio_rtp := Outbound.OutboundSamples.audio_state; outbound_video_rtp := None; active_playout := None; next_playout_id := 1 |}
  end.

Definition sample_driver (version : Z) : ConnectionDriver :=
  {| base := Pipeline.driver_new sample_tuning (connected version) sample_coordinator sample_transport; send := sample_send version;
     pending_media_ready_waits := Queue.Timers.timers_default; pending_media_ready_sends := Queue.Timers.timers_default;
     wire := []; udp_count := 0; commands := []; ws_count := 0; answers := []; closed := false; close_frames := 0 |}.

(** A VP8 frame that needs two datagrams. *)
Definition video_frame : bytes := 16 :: replicate 1500 7.

Definition video_payloads : list (bool * bytes) := match RtpPayload.RtpPayload.packetize Vp8 video_frame with Ok l => l | _ => [] end.

Definition video_stream : Outbound.OutboundRtpState :=
  {| Outbound.out_seq := 0; Outbound.out_timestamp := 0; Outbound.nonce_suffix := 256; Outbound.binding := Outbound.binding_new Vp8 10 |}.

Definition sent_times : list Z := [3; 4].

Definition raw_of (g : bytes) : Assembler.raw_packet (FrameRaw := Assembler.AssemblerSamples.sample_raw) := Z.of_nat (length g).

Lemma sent_frame_received_witness :
  exists o d' datagrams ps rs, send_ready_media_frame open_socket Vp8 video_frame 33000000 (sample_driver 0) = (Ok o, d') /\ wire d' = [] ++ datagrams /\
    receive_datagram raw_of video_map (Some 6) false sample_transport <$> datagrams = Some <$> ps /\
    Assembler.push_all (zip sent_times ps) Assembler.assembler_default = (rs, Assembler.assembler_default) /\
    Assembler.accepted rs /\ Assembler.encrypted_frame <$> Assembler.emitted rs = [video_frame].
Proof.
  apply (sent_frame_received open_socket raw_of video_map (Some 6) false sent_times Vp8 video_frame 33000000 (sample_driver 0) video_frame (sample_driver 0)
           video_payloads video_stream).
  - unfold media_payload_of. assert (dave_send_requires_dave (sample_driver 0) = false) as -> by (vm_compute; reflexivity). reflexivity.
  - compute_bytes.
  - exact I.
  - vm_compute. reflexivity.
  - vm_compute. reflexivity.
  - split; [done|split; [done|split; [done|]]]. exists Vp8, 10. by split.
  - vm_compute. reflexivity.
  - vm_compute. reflexivity.
  - done.
  - vm_compute. reflexivity.
Defined.

(** The same connection with DAVE negotiated and a session that can encrypt. *)
Definition alice_coordinator : Coordinator.DaveCoordinator :=
  Coordinator.with_session ((Session.activate_staged_sender alice).2 : Coordinator.session_t) created.

Definition with_dave (d : ConnectionDriver) : ConnectionDriver :=
  with_base (Pipeline.with_conn (Pipeline.d_conn (base d)) (alice_coordinator : Pipeline.dave_t) (base d)) d.

Lemma alice_encrypts : match (coordinator_encrypt Opus [1; 2; 3] alice_coordinator).1 with Ok payload => (3 < length payload)%nat | _ => False end.
Proof. vm_compute. lia. Qed.

Definition dave_driver : ConnectionDriver := with_dave (sample_driver 1).

Lemma dave_driver_requires : dave_send_requires_dave dave_driver = true.
Proof. vm_compute. reflexivity. Qed.

Lemma no_clear_media_witness :
  let '(r, d') := send_ready_media_frame open_socket Opus [1; 2; 3] 20000000 dave_driver in
  match (dave_encrypt Opus [1; 2; 3] (Pipeline.d_dave (base dave_driver))).1 with
  | Ok payload => exists l, wire d' = wire dave_driver ++ l /\ forall g, g ∈ l -> carries_part (Pipeline.d_transport (base dave_driver)) Opus payload g
  | Err e => r = Err (EDaveEncrypt e) /\ wire d' = wire dave_driver /\ udp_count d' = udp_count dave_driver /\ send d' = send dave_driver
  | Panic => r = Panic /\ wire d' = wire dave_driver
  end.
Proof. pose proof (no_clear_media open_socket Opus [1; 2; 3] 20000000 dave_driver dave_driver_requires) as H. exact H. Defined.

(** A packet of one 20 ms frame. *)
Definition one_packet : PlayoutFrame := playout_packet {| OpusPacket.packet_bytes := [8; 1; 2] |}.

(** Packets and the status are asked for, a datagram comes, a packet is played
    out and the playout finished, a frame is sent, and the user closes the
    connection.  The receiver of request 11 is dropped at once. *)
Definition sample_evs : list DriverEvent :=
  [EvCommand (Some (CmdRecvUdpPacket ReadyFrames.RawUdp 2 8)); EvCommand (Some (CmdRecvUdpPacket ReadyFrames.RtpUdp 1500 9));
   EvCommand (Some (CmdRecvUdpPacket ReadyFrames.RawUdp 1500 10)); EvCommand (Some (CmdRecvUdpPacket ReadyFrames.RtpUdp 1500 11)); EvDatagram (Some [1; 2; 3]);
   EvCommand (Some (CmdDaveMediaStatus 1)); EvPlayout (Some (CmdStart 2)); EvPlayout (Some (CmdFrame 1 one_packet)); EvPlayout (Some (CmdFinish 1 3));
   EvWake; EvHeartbeat; EvCommand (Some (CmdSendMediaFrame Vp8 video_frame 33000000 4)); EvCommand (Some (CmdWaitUntilMediaReady 5 5)); EvClosed].

Definition sample_gone (n r : nat) : bool := (r =? 11)%nat.

Definition sample_run : res Error bool * ConnectionDriver :=
  run sample_tuning slow_clock true true open_socket open_websocket sample_ready 1000000000 41250 10 sample_gone (Some (replicate 8 1)) sample_evs
    [CmdSendMediaFrame Opus [1] 20000000 6; CmdRecvUdpPacket ReadyFrames.RawUdp 1500 12] [CmdStart 7] (sample_driver 0).

Definition sample_loop : res Error bool * ConnectionDriver :=
  run_loop sample_tuning slow_clock true true open_socket open_websocket sample_ready 1000000000 41250 10 (fun _ _ => false) (Some (replicate 8 1)) (take 8 sample_evs) (sample_driver 0).

Lemma slow_clock_mono n : slow_clock n <= slow_clock (S n).
Proof. unfold slow_clock. lia. Qed.

Lemma sample_fresh version : fresh (sample_driver version).
Proof. by repeat split. Qed.

Lemma sample_answers : (answers sample_run.2).*1 = [1; 2; 3; 4; 5; 6; 7]%nat.
Proof. vm_compute. reflexivity. Qed.

Lemma sample_finished : NoDup (finished sample_evs).
Proof. by apply NoDup_singleton. Qed.

(** The datagram is too long for request 8 and answers request 9; request 12 is
    still in the channel and request 10 waits when the connection is closed. *)
Definition packet_answer (a : ReadyFrames.PacketReply) : nat * option bytes :=
  (a.1, match a.2 with inr p => Some (ReadyFrames.raw_bytes p) | inl _ => None end).

Lemma sample_packets : packet_answer <$> Pipeline.d_replies (base sample_run.2) = [(8%nat, None); (9%nat, Some [1; 2; 3]); (12%nat, None); (10%nat, None)].
Proof. vm_compute. reflexivity. Qed.

Lemma sample_unasked version : unasked (sample_driver version).
Proof. done. Qed.

Lemma replies_once_witness :
  exists k dropped,
    answered_once sample_gone (take k (taken sample_evs)) [CmdSendMediaFrame Opus [1] 20000000 6; CmdRecvUdpPacket ReadyFrames.RawUdp 1500 12] [CmdStart 7] dropped sample_run.2 /\
    match sample_run.1 with Err e => dropped = [] \/ e = EWebSocket /\ exists x, dropped = [x] | _ => dropped = [] /\ take k (taken sample_evs) = taken sample_evs end.
Proof.
  assert (sample_run = (sample_run.1, sample_run.2)) as Hrun by apply surjective_pairing.
  assert (sample_run.1 ≠ Panic) as Hr by (vm_compute; discriminate).
  pose proof (replies_once sample_tuning slow_clock true true open_socket open_websocket sample_ready 1000000000 41250 10 sample_gone slow_clock_mono (Some (replicate 8 1))
                sample_evs [CmdSendMediaFrame Opus [1] 20000000 6; CmdRecvUdpPacket ReadyFrames.RawUdp 1500 12] [CmdStart 7] (sample_driver 0) sample_run.1 sample_run.2
                (sample_fresh 0) (sample_unasked 0) sample_finished Hrun Hr) as H.
  exact H.
Defined.

(** The answer to the finished playout: one packet, which had its time. *)
Definition playout_answer (a : reply * Answer) : option (nat * Z) :=
  match a.2 with AnswerPlayoutStats (inr s) => Some (stats_packets s, stats_expected_media s) | _ => None end.

Lemma sample_playout_answered : omap playout_answer (answers sample_run.2) = [(1%nat, 20000000)].
Proof. vm_compute. reflexivity. Qed.

Lemma playout_paced_witness :
  (forall p, active_playout (send sample_loop.2) = Some p ->
     expected_media (stats p) = OpusPacket.BLOCK_DURATION * Z.of_nat (packets (stats p)) /\
     started_at p + expected_media (stats p) <= time slow_clock sample_loop.2 + OpusPacket.BLOCK_DURATION) /\
  (forall i s, (i, AnswerPlayoutStats (inr s)) ∈ answers sample_loop.2 -> stats_expected_media s <= wall_elapsed s).
Proof.
  assert (sample_loop = (sample_loop.1, sample_loop.2)) as Hrun by apply surjective_pairing.
  assert (sample_loop.1 ≠ Panic) as Hr by (vm_compute; discriminate).
  assert (NoDup (finished (take 8 sample_evs))) as Hnd by apply NoDup_nil_2.
  pose proof (playout_paced sample_tuning slow_clock true true open_socket open_websocket sample_ready 1000000000 41250 10 (fun _ _ => false) slow_clock_mono (Some (replicate 8 1))
                (take 8 sample_evs) (sample_driver 0) sample_loop.1 sample_loop.2 (sample_fresh 0) Hnd Hrun Hr) as H.
  exact H.
Defined.

(** One packet is out and the playout goes on. *)
Lemma sample_playout_active : (fun p => packets (stats p)) <$> active_playout (send sample_loop.2) = Some 1%nat.
Proof. vm_compute. reflexivity. Qed.

(** A playout with four frames, the first due at time 0, on a connection whose
    DAVE session is not ready; the clock is at 100 ms. *)
Definition waiting_playout : ActiveOpusPlayout :=
  {| playout_id := 1; started_at := 0; frames := replicate 4 one_packet; next_send_at := Some 0; media_ready_deadline := Some 1000000000;
     finish_response := None; speaking := true; stats := stats_default true |}.

Definition waiting_driver : ConnectionDriver :=
  with_send (set_playout (Some waiting_playout) 2 (sample_send 1))
    (with_base (Nat.iter 10 Pipeline.tick (base (sample_driver 1))) (sample_driver 1)).

Lemma waiting_playout_drains_witness :
  exists d' p', resolve_turns slow_clock open_socket open_websocket sample_ready 1000000000 3 waiting_driver = (Ok (), d') /\
    held_back 0 1000000000 p' d' /\ wire d' = wire waiting_driver /\
    (1 <= length (frames p') <= Nat.max 1 (length (frames waiting_playout) - 3))%nat /\
    (dropped_stale_frames (stats p') + length (frames p') = dropped_stale_frames (stats waiting_playout) + length (frames waiting_playout))%nat /\
    wake_deadline slow_clock p' d' = (Ok (Some 0), d') /\ 0 < time slow_clock d'.
Proof.
  assert (held_back 0 1000000000 waiting_playout waiting_driver) as Hb by (split; vm_compute; reflexivity).
  assert (0 + OpusPacket.BLOCK_DURATION * 3 <= time slow_clock waiting_driver) as Ht by (vm_compute; discriminate).
  assert (slow_clock (ticks waiting_driver + 2 * 3) < 1000000000) as Hd by (vm_compute; reflexivity).
  pose proof (waiting_playout_drains slow_clock open_socket open_websocket sample_ready 1000000000 slow_clock_mono 3 0 1000000000 waiting_playout waiting_driver
                Hb ltac:(discriminate) Ht Hd) as H.
  exact H.
Defined.
End DriverSamples.
