(* ===== verification/IeeeFloat.v ===== *)
(** * The floating-point operations of Rust the audio code uses

    [f32] and [f64] are the binary32 and binary64 formats of IEEE 754 with
    rounding to the nearest, ties to even, computed on [spec_float].  A value is
    kept without the payload of a NaN.  [as] casts follow the language: from an
    integer they round, to an integer they truncate and saturate, and a NaN
    becomes 0. *)

From Stdlib Require Import SpecFloat.
From S2P Require Import Prelude.
#[local] Open Scope Z_scope.

Module IeeeFloat.

Abbreviation f32 := spec_float.
Abbreviation f64 := spec_float.

(** [z as f32] and [z as f64] of an integer. *)
Definition f32_of_int (z : Z) : f32 := binary_normalize 24 128 z 0 false.
Definition f64_of_int (z : Z) : f64 := binary_normalize 53 1024 z 0 false.

Definition f32_mul : f32 -> f32 -> f32 := SFmul 24 128.
Definition f32_div : f32 -> f32 -> f32 := SFdiv 24 128.
Definition f32_add : f32 -> f32 -> f32 := SFadd 24 128.
Definition f64_mul : f64 -> f64 -> f64 := SFmul 53 1024.
Definition f64_div : f64 -> f64 -> f64 := SFdiv 53 1024.
Definition f64_add : f64 -> f64 -> f64 := SFadd 53 1024.
Definition f64_sqrt : f64 -> f64 := SFsqrt 53 1024.

(** [x as f32] of an [f64]. *)
Definition f32_of_f64 (x : f64) : f32 :=
  match x with
  | S754_finite s m e => binary_normalize 24 128 (cond_Zopp s (Zpos m)) e s
  | x => x
  end.

(** [x < y]: false when one of them is a NaN. *)
Definition f32_lt (x y : f32) : bool := match SFcompare x y with Some Lt => true | _ => false end.

(** The literals of the source. *)
Definition f32_zero : f32 := S754_zero false.
Definition f32_one : f32 := S754_finite false 8388608 (-23).
Definition f32_minus_one : f32 := S754_finite true 8388608 (-23).
Definition f32_32767 : f32 := S754_finite false 16776704 (-9).
Definition f32_32768 : f32 := S754_finite false 8388608 (-8).

(** [x.clamp(-1.0, 1.0)]; a NaN stays. *)
Definition f32_clamp_unit (x : f32) : f32 :=
  let x := if f32_lt x f32_minus_one then f32_minus_one else x in if f32_lt f32_one x then f32_one else x.

(** [x.round()] of the magnitude of a finite value: ties go away from zero. *)
Definition round_away (m : positive) (e : Z) : Z := if 0 <=? e then Zpos m * 2 ^ e else (2 * Zpos m + 2 ^ (- e)) / 2 ^ (1 - e).

(** [x.ceil()] of a finite value. *)
Definition ceil_finite (s : bool) (m : positive) (e : Z) : Z :=
  let v := cond_Zopp s (Zpos m) in if 0 <=? e then v * 2 ^ e else - ((- v) / 2 ^ (- e)).

(** A cast to an integer type with the bounds [lo] and [hi]. *)
Definition saturate (lo hi v : Z) : Z := Z.max lo (Z.min hi v).

Definition i16_min : Z := -32768.
Definition i16_max : Z := 32767.

(** [x.round() as i16] *)
Definition f32_round_as_i16 (x : f32) : Z :=
  match x with
  | S754_nan => 0
  | S754_zero _ => 0
  | S754_infinity s => if s then i16_min else i16_max
  | S754_finite s m e => saturate i16_min i16_max (cond_Zopp s (round_away m e))
  end.

(** [x.ceil() as usize] *)
Definition f64_ceil_as_usize (x : f64) : Z :=
  match x with
  | S754_nan | S754_zero _ => 0
  | S754_infinity s => if s then 0 else u64_mod - 1
  | S754_finite s m e => saturate 0 (u64_mod - 1) (ceil_finite s m e)
  end.

(** [f32::from_bits], of 32 bits. *)
Definition f32_from_bits (v : Z) : f32 :=
  let s := Z.testbit v 31 in
  let e := Z.land (Z.shiftr v 23) 255 in
  let m := Z.land v (2 ^ 23 - 1) in
  if e =? 255 then (if m =? 0 then S754_infinity s else S754_nan)
  else if e =? 0 then (if m =? 0 then S754_zero s else S754_finite s (Z.to_pos m) (-149))
  else S754_finite s (Z.to_pos (m + 2 ^ 23)) (e - 150).

(** The literals are what the casts give. *)
Lemma literals : f32_one = f32_of_int 1 /\ f32_minus_one = f32_of_int (-1) /\ f32_32767 = f32_of_int 32767 /\ f32_32768 = f32_of_int 32768.
Proof. repeat split; vm_compute; reflexivity. Qed.

(** Clamping leaves nothing outside, and a value inside alone. *)
Lemma clamp_unit_bounds x : f32_lt (f32_clamp_unit x) f32_minus_one = false /\ f32_lt f32_one (f32_clamp_unit x) = false.
Proof.
  unfold f32_clamp_unit. destruct (f32_lt x f32_minus_one) eqn:H1.
  - change (f32_lt f32_one f32_minus_one) with false. by split.
  - destruct (f32_lt f32_one x) eqn:H2; [by split|]. by rewrite H1, H2.
Qed.

End IeeeFloat.
