(* ===== verification/Pcm.v ===== *)
(** * PCM audio (cacophony/src/pcm.rs)

    Encodings of samples, formats and chunks with their alignment checks, the
    conversions to and from [f32], the G.711 expansions and the channel layouts.
    The streaming resampler of the same source file is in Resampler.v.

    [usize] values are natural numbers: they are lengths of lists. *)

From Stdlib Require Import SpecFloat.
From stdpp Require Import strings.
From S2P Require Import Prelude Effects IeeeFloat.
Import IeeeFloat.
#[local] Open Scope Z_scope.

Module Pcm.

Inductive PcmError :=
| SampleRateZero
| ChannelCountZero
| SampleAlignment (encoding : string) (byte_len sample_bytes : nat)
| ChannelAlignment (channels samples : nat)
| UnsupportedEncoding (name : string)
| ResamplerChunkFramesZero
| ResamplerNotInitialized
| ResamplerError (message : string).

Abbreviation R := (res PcmError).

(** ** Encodings *)

(** The types that implement [SampleEncoding]. *)
Inductive SampleEncoding := F32 | F32Le | S16 | S16Le | MuLaw | ALaw.

Definition encoding_name (e : SampleEncoding) : string :=
  match e with F32 => "f32" | F32Le => "f32le" | S16 => "s16" | S16Le => "s16le" | MuLaw => "mulaw" | ALaw => "alaw" end.

(** [ByteSampleEncoding::BYTES_PER_SAMPLE], for the encodings of bytes. *)
Definition byte_size (e : SampleEncoding) : nat := match e with F32Le => 4 | S16Le => 2 | _ => 1 end.

Inductive PcmEncoding := PcmF32Le | PcmS16Le | PcmMuLaw | PcmALaw.

#[export] Instance pcm_encoding_eq_dec : EqDecision PcmEncoding.
Proof. solve_decision. Defined.

Record PcmEncodingDescriptor := { desc_encoding : PcmEncoding; wire_name : string; sample_encoding_name : string; desc_bytes_per_sample : nat }.

Definition PCM_F32LE : PcmEncodingDescriptor :=
  {| desc_encoding := PcmF32Le; wire_name := "pcm_f32le"; sample_encoding_name := encoding_name F32Le; desc_bytes_per_sample := 4 |}.
Definition PCM_S16LE : PcmEncodingDescriptor :=
  {| desc_encoding := PcmS16Le; wire_name := "pcm_s16le"; sample_encoding_name := encoding_name S16Le; desc_bytes_per_sample := 2 |}.
Definition PCM_MULAW : PcmEncodingDescriptor :=
  {| desc_encoding := PcmMuLaw; wire_name := "pcm_mulaw"; sample_encoding_name := encoding_name MuLaw; desc_bytes_per_sample := 1 |}.
Definition PCM_ALAW : PcmEncodingDescriptor :=
  {| desc_encoding := PcmALaw; wire_name := "pcm_alaw"; sample_encoding_name := encoding_name ALaw; desc_bytes_per_sample := 1 |}.

Definition PCM_ENCODINGS : list PcmEncodingDescriptor := [PCM_F32LE; PCM_S16LE; PCM_MULAW; PCM_ALAW].

Definition descriptor (e : PcmEncoding) : PcmEncodingDescriptor :=
  match e with PcmF32Le => PCM_F32LE | PcmS16Le => PCM_S16LE | PcmMuLaw => PCM_MULAW | PcmALaw => PCM_ALAW end.

Definition pcm_as_str (e : PcmEncoding) : string := wire_name (descriptor e).

Definition bytes_per_sample (e : PcmEncoding) : nat := desc_bytes_per_sample (descriptor e).

(** [PcmEncoding::visit]: the type a visitor is called with. *)
Definition visit_encoding (e : PcmEncoding) : SampleEncoding :=
  match e with PcmF32Le => F32Le | PcmS16Le => S16Le | PcmMuLaw => MuLaw | PcmALaw => ALaw end.

Fixpoint parse_in (value : string) (l : list PcmEncodingDescriptor) : R PcmEncoding :=
  match l with
  | [] => Err (UnsupportedEncoding value)
  | d :: l => if String.eqb value (wire_name d) then Ok (desc_encoding d) else parse_in value l
  end.

(** [PcmEncoding::from_str] *)
Definition pcm_parse (value : string) : R PcmEncoding := parse_in value PCM_ENCODINGS.

(** ** Alignment *)
Definition is_multiple_of (a b : nat) : bool := match b with O => (a =? 0)%nat | _ => (a mod b =? 0)%nat end.

Definition validate_channel_alignment (channels samples : nat) : R () :=
  if (channels =? 0)%nat then Err ChannelCountZero
  else if is_multiple_of samples channels then Ok () else Err (ChannelAlignment channels samples).

Definition checked_byte_sample_count (e : SampleEncoding) (byte_len : nat) : R nat :=
  if is_multiple_of byte_len (byte_size e) then Ok (byte_len / byte_size e)%nat
  else Err (SampleAlignment (encoding_name e) byte_len (byte_size e)).

Definition validate_pcm_bytes (e : PcmEncoding) (byte_len channels : nat) : R () :=
  sample_count ← checked_byte_sample_count (visit_encoding e) byte_len; validate_channel_alignment channels sample_count.

(** ** Formats and chunks *)
Record PcmFormat := { sample_rate_hz : Z; channels : nat; encoding : PcmEncoding }.

#[export] Instance pcm_format_eq_dec : EqDecision PcmFormat.
Proof. solve_decision. Defined.

(** [PcmFormat::from_parts] *)
Definition format_from_parts (rate : Z) (n : nat) (e : PcmEncoding) : R PcmFormat :=
  if rate =? 0 then Err SampleRateZero
  else if (n =? 0)%nat then Err ChannelCountZero else Ok {| sample_rate_hz := rate; channels := n; encoding := e |}.

Definition format_mono (rate : Z) (e : PcmEncoding) : PcmFormat := {| sample_rate_hz := rate; channels := 1; encoding := e |}.

Definition validate_bytes (f : PcmFormat) (byte_len : nat) : R () := validate_pcm_bytes (encoding f) byte_len (channels f).

Record PcmChunk := { format : PcmFormat; chunk_data : bytes }.

(** [PcmChunk::with_format] *)
Definition with_format (f : PcmFormat) (data : bytes) : R PcmChunk :=
  _ ← validate_bytes f (length data); Ok {| format := f; chunk_data := data |}.

(** [PcmChunk::from_bytes] *)
Definition chunk_from_bytes (rate : Z) (n : nat) (e : PcmEncoding) (data : bytes) : R PcmChunk :=
  f ← format_from_parts rate n e; with_format f data.

Definition chunk_from_mono_bytes (rate : Z) (e : PcmEncoding) (data : bytes) : R PcmChunk := chunk_from_bytes rate 1 e data.

Definition sample_count_of (c : PcmChunk) : nat := (length (chunk_data c) / bytes_per_sample (encoding (format c)))%nat.

Definition frame_count (c : PcmChunk) : nat := (sample_count_of c / channels (format c))%nat.

(** ** Samples *)
Definition s16_to_f32 (sample : Z) : f32 :=
  if sample <? 0 then f32_div (f32_of_int sample) f32_32768 else f32_div (f32_of_int sample) f32_32767.

Definition f32_to_s16 (sample : f32) : Z :=
  let sample := f32_clamp_unit sample in
  if f32_lt sample f32_zero then f32_round_as_i16 (f32_mul sample f32_32768) else f32_round_as_i16 (f32_mul sample f32_32767).

Definition BIAS : Z := 0x84.

Definition decode_mulaw (sample : Z) : Z :=
  let sample := Z.lxor sample 255 in
  let magnitude := Z.shiftl (Z.shiftl (Z.land sample 0x0f) 3 + BIAS) (Z.shiftr (Z.land sample 0x70) 4) in
  let decoded := if Z.land sample 0x80 =? 0 then magnitude - BIAS else BIAS - magnitude in
  saturate i16_min i16_max decoded.

Definition decode_alaw (sample : Z) : Z :=
  let sample := Z.lxor sample 0x55 in
  let segment := Z.shiftr (Z.land sample 0x70) 4 in
  let magnitude := Z.shiftl (Z.land sample 0x0f) 4 in
  let magnitude :=
    if segment =? 0 then magnitude + 8
    else let magnitude := magnitude + 0x108 in if 1 <? segment then Z.shiftl magnitude (segment - 1) else magnitude in
  let decoded := if Z.land sample 0x80 =? 0 then - magnitude else magnitude in
  saturate i16_min i16_max decoded.

(** [i16::from_le_bytes], [f32::from_le_bytes] *)
Definition i16_from_le (b0 b1 : Z) : Z := let v := b0 + 256 * b1 in if v <? 32768 then v else v - 65536.
Definition f32_from_le (b0 b1 b2 b3 : Z) : f32 := f32_from_bits (b0 + 256 * (b1 + 256 * (b2 + 256 * b3))).

(** [bytes.chunks_exact(2).map(..)] and [chunks_exact(4)]: a rest is left out. *)
Fixpoint s16le_samples (l : bytes) : list Z :=
  match l with b0 :: b1 :: l => i16_from_le b0 b1 :: s16le_samples l | _ => [] end.
Fixpoint f32le_samples (l : bytes) : list f32 :=
  match l with b0 :: b1 :: b2 :: b3 :: l => f32_from_le b0 b1 b2 b3 :: f32le_samples l | _ => [] end.

(** What a value that implements [Samples<E>] holds. *)
Definition samples (e : SampleEncoding) : Type := match e with F32 => list f32 | S16 => list Z | _ => bytes end.

(** [Samples::sample_count] *)
Definition sample_count (e : SampleEncoding) : samples e -> R nat :=
  match e with
  | F32 => fun l => Ok (length l)
  | S16 => fun l => Ok (length l)
  | F32Le => fun l => checked_byte_sample_count F32Le (length l)
  | S16Le => fun l => checked_byte_sample_count S16Le (length l)
  | MuLaw => fun l => Ok (length l)
  | ALaw => fun l => Ok (length l)
  end.

(** [Samples::append_f32] *)
Definition append_f32 (e : SampleEncoding) : samples e -> list f32 -> R (list f32) :=
  match e with
  | F32 => fun l output => Ok (output ++ (f32_clamp_unit <$> l))
  | S16 => fun l output => Ok (output ++ (s16_to_f32 <$> l))
  | F32Le => fun l output => _ ← checked_byte_sample_count F32Le (length l); Ok (output ++ (f32_clamp_unit <$> f32le_samples l))
  | S16Le => fun l output => _ ← checked_byte_sample_count S16Le (length l); Ok (output ++ (s16_to_f32 <$> s16le_samples l))
  | MuLaw => fun l output => Ok (output ++ (s16_to_f32 ∘ decode_mulaw <$> l))
  | ALaw => fun l output => Ok (output ++ (s16_to_f32 ∘ decode_alaw <$> l))
  end.

(** A byte encoding read from the bytes of a chunk. *)
Definition byte_samples (e : PcmEncoding) : bytes -> samples (visit_encoding e) :=
  match e with PcmF32Le | PcmS16Le | PcmMuLaw | PcmALaw => fun l => l end.

(** [PcmEncoding::append_f32] *)
Definition pcm_append_f32 (e : PcmEncoding) (data : bytes) (output : list f32) : R (list f32) :=
  append_f32 (visit_encoding e) (byte_samples e data) output.

(** [PcmChunk::append_f32]: the samples, and how many frames they are. *)
Definition chunk_append_f32 (c : PcmChunk) (output : list f32) : R (nat * list f32) :=
  let start := length output in
  output ← pcm_append_f32 (encoding (format c)) (chunk_data c) output;
  let n := (length output - start)%nat in
  _ ← validate_channel_alignment (channels (format c)) n;
  Ok ((n / channels (format c))%nat, output).

(** ** Channel layouts *)
Inductive ChannelLayout := Mono | StereoInterleaved.

Definition CHANNELS (l : ChannelLayout) : nat := match l with Mono => 1 | StereoInterleaved => 2 end.

Definition append_source_f32 (l : ChannelLayout) (e : SampleEncoding) (s : samples e) (output : list f32) : R (nat * list f32) :=
  match l with
  | Mono => output' ← append_f32 e s output; Ok ((length output' - length output)%nat, output')
  | StereoInterleaved =>
      n ← sample_count e s;
      _ ← validate_channel_alignment 2 n;
      output ← append_f32 e s output;
      Ok ((n / 2)%nat, output)
  end.

(** The loop that spreads [n] mono samples, stored from [start] on, over both
    channels in place, from the last to the first. *)
Fixpoint spread_loop (start n : nat) (output : list f32) : R (list f32) :=
  match n with
  | O => Ok output
  | S i =>
      sample ← index output (start + i);
      if (start + i * 2 + 1 <? length output)%nat then
        spread_loop start i (<[(start + i * 2 + 1)%nat := sample]> (<[(start + i * 2)%nat := sample]> output))
      else Panic
  end.

Definition resize (n : nat) (l : list f32) : list f32 := take n l ++ replicate (n - length l) f32_zero.

Definition append_stereo_interleaved_from_source (l : ChannelLayout) (e : SampleEncoding) (s : samples e) (output : list f32) : R (nat * list f32) :=
  match l with
  | Mono =>
      let start := length output in
      '(frames, output) ← append_source_f32 Mono e s output;
      output ← spread_loop start frames (resize (start + frames * 2) output);
      Ok (frames, output)
  | StereoInterleaved => append_source_f32 StereoInterleaved e s output
  end.

Definition append_stereo_interleaved (l : ChannelLayout) (s : list f32) (output : list f32) : R (nat * list f32) :=
  match l with
  | Mono => Ok (length s, output ++ mjoin ((fun x => [x; x]) <$> s))
  | StereoInterleaved => _ ← validate_channel_alignment 2 (length s); Ok ((length s / 2)%nat, output ++ s)
  end.

(** ** Decoded audio *)

(** [chunks_exact(n)], [n > 0] *)
Fixpoint chunks_exact {A} (fuel n : nat) (l : list A) : list (list A) :=
  match fuel with
  | O => []
  | S fuel => if (length l <? n)%nat then [] else take n l :: chunks_exact fuel n (drop n l)
  end.

Definition is_i32 (v : Z) : bool := (-2 ^ 31 <=? v) && (v <? 2 ^ 31).

(** [.sum::<i32>()] panics when a partial sum overflows. *)
Fixpoint sum_i32 (acc : Z) (l : list Z) : R Z :=
  match l with [] => Ok acc | x :: l => if is_i32 (acc + x) then sum_i32 (acc + x) l else Panic end.

(** [n as i32] *)
Definition as_i32 (n : nat) : Z := let v := Z.of_nat n mod 2 ^ 32 in if v <? 2 ^ 31 then v else v - 2 ^ 32.

(** [a / b] on [i32] truncates; it panics when [b] is 0 or the quotient overflows. *)
Definition div_i32 (a b : Z) : R Z := if b =? 0 then Panic else if is_i32 (Z.quot a b) then Ok (Z.quot a b) else Panic.

Definition mix_frame (n : nat) (frame : list Z) : R Z :=
  summed ← sum_i32 0 frame;
  mean ← div_i32 summed (as_i32 n);
  Ok (saturate i16_min i16_max mean).

(** [i16::to_le_bytes] *)
Definition i16_to_le (v : Z) : bytes := to_le 2 (v mod 65536).

Fixpoint mix_frames (n : nat) (frames : list (list Z)) : R bytes :=
  match frames with
  | [] => Ok []
  | frame :: frames => v ← mix_frame n frame; rest ← mix_frames n frames; Ok (i16_to_le v ++ rest)
  end.

Definition interleaved_i16_to_mono_s16le (s : list Z) (n : nat) : R bytes :=
  if (n =? 0)%nat then Err ChannelCountZero
  else _ ← validate_channel_alignment n (length s); mix_frames n (chunks_exact (length s) n s).

(** [s16le_rms] *)
Fixpoint square_sum (l : list Z) (acc : f64) : f64 :=
  match l with
  | [] => acc
  | s :: l => let x := f64_of_int s in square_sum l (f64_add acc (f64_mul x x))
  end.

Definition s16le_rms (l : bytes) : R f32 :=
  _ ← checked_byte_sample_count S16Le (length l);
  let s := s16le_samples l in
  Ok (match s with
      | [] => f32_zero
      | _ => f32_of_f64 (f64_sqrt (f64_div (square_sum s (S754_zero false)) (f64_of_int (Z.of_nat (length s)))))
      end).

(** ** Encodings and their names *)
Lemma pcm_parse_print e : pcm_parse (pcm_as_str e) = Ok e.
Proof. by destruct e. Qed.

Lemma pcm_parse_sound name e : pcm_parse name = Ok e -> pcm_as_str e = name.
Proof.
  unfold pcm_parse, PCM_ENCODINGS. cbn [parse_in]. repeat (case_match; [by intros [= <-]; symmetry; apply String.eqb_eq|]). done.
Qed.

(** ** G.711 *)

(** Both laws are odd: the sign bit of a code changes the sign only, and every
    value is a 16-bit sample without the clamp. *)
Lemma g711_odd b : is_byte b ->
  decode_mulaw (Z.lxor b 128) = - decode_mulaw b /\ decode_alaw (Z.lxor b 128) = - decode_alaw b /\
  Z.abs (decode_mulaw b) <= 32124 /\ Z.abs (decode_alaw b) <= 32256.
Proof.
  revert b. apply (byte_cases (fun b => decode_mulaw (Z.lxor b 128) = - decode_mulaw b /\ decode_alaw (Z.lxor b 128) = - decode_alaw b /\
    Z.abs (decode_mulaw b) <= 32124 /\ Z.abs (decode_alaw b) <= 32256)).
  apply (bool_decide_unpack _). vm_compute. exact I.
Qed.

(** ** Spreading mono samples in place *)
Definition doubled (l : list f32) : list f32 := mjoin ((fun x => [x; x]) <$> l).

Lemma doubled_app a b : doubled (a ++ b) = doubled a ++ doubled b.
Proof. unfold doubled. by rewrite fmap_app, join_app. Qed.

Lemma length_doubled l : length (doubled l) = (2 * length l)%nat.
Proof. induction l as [|x l IH]; [done|]. change (doubled (x :: l)) with (x :: x :: doubled l). cbn [length]. rewrite IH. lia. Qed.

(** Writing the last two places of a region. *)
Lemma insert_last_two (pre mid post : list f32) (a b x : f32) :
  <[(length pre + length mid + 1)%nat := x]> (<[(length pre + length mid)%nat := x]> (pre ++ (mid ++ [a; b]) ++ post)) = pre ++ mid ++ [x; x] ++ post.
Proof.
  rewrite <- !app_assoc, !(app_assoc pre mid), <- !length_app, insert_app_r_alt, Nat.sub_diag by lia. cbn [insert list_insert app].
  rewrite insert_app_r_alt by lia. replace (length (pre ++ mid) + 1 - length (pre ++ mid))%nat with 1%nat by lia. done.
Qed.

Lemma spread_run xs : forall pre junk post, length junk = length xs ->
  spread_loop (length pre) (length xs) (pre ++ (xs ++ junk) ++ post) = Ok (pre ++ doubled xs ++ post).
Proof.
  induction xs as [|x xs IH] using rev_ind; intros pre junk post Hj; [by destruct junk|]. rewrite length_app in *. cbn [length] in *. rewrite Nat.add_1_r. cbn [spread_loop].
  unfold index. rewrite lookup_app_r by lia. replace (length pre + length xs - length pre)%nat with (length xs) by lia.
  rewrite <- !app_assoc, lookup_app_r, Nat.sub_diag by lia. cbn [lookup list_lookup app unwrap mbind res_mbind].
  destruct (Nat.ltb_spec (length pre + length xs * 2 + 1) (length (pre ++ xs ++ x :: junk ++ post))) as [Hlt|Hge]; [|rewrite !length_app in Hge; cbn in Hge; rewrite length_app in Hge; lia].
  assert (exists mid a b, xs ++ x :: junk = mid ++ [a; b] /\ length mid = (2 * length xs)%nat /\ take (length xs) mid = xs) as (mid & a & b & Hm & Hlm & Htk).
  { set (m := xs ++ x :: junk). assert (length m = S (S (2 * length xs))) as Hm by (unfold m; rewrite length_app; cbn; lia).
    destruct (drop (2 * length xs) m) as [|a [|b [|]]] eqn:Hd; apply (f_equal length) in Hd as Hd'; rewrite length_drop, Hm in Hd'; cbn in Hd'; try lia.
    exists (take (2 * length xs) m), a, b. split; [by rewrite <- Hd, take_drop|]. split; [rewrite length_take; lia|]. rewrite take_take, Nat.min_l by lia. unfold m. by rewrite take_app_length. }
  replace (pre ++ xs ++ x :: junk ++ post) with (pre ++ (mid ++ [a; b]) ++ post) by (rewrite <- Hm; by rewrite <- !app_assoc).
  replace (length xs * 2)%nat with (length mid) by lia. rewrite insert_last_two. rewrite <- (take_drop (length xs) mid), Htk.
  specialize (IH pre (drop (length xs) mid) ([x; x] ++ post)). rewrite IH by (rewrite length_drop; lia). by rewrite doubled_app, <- !app_assoc.
Qed.

(** ** How many samples a source gives *)
Lemma length_s16le n l : length l = (n * 2)%nat -> length (s16le_samples l) = n.
Proof. revert l. induction n as [|n IH]; intros [|b0 [|b1 l]] [=]; [done|]. cbn. by rewrite IH. Qed.

Lemma length_f32le n l : length l = (n * 4)%nat -> length (f32le_samples l) = n.
Proof. revert l. induction n as [|n IH]; intros [|b0 [|b1 [|b2 [|b3 l]]]] [=]; [done|]. cbn. by rewrite IH. Qed.

Lemma multiple_of a b : (0 < b)%nat -> is_multiple_of a b = true -> a = (a / b * b)%nat.
Proof. destruct b as [|b]; [lia|]. intros _. unfold is_multiple_of. intros H%Nat.eqb_eq. pose proof (Nat.div_mod_eq a (S b)). lia. Qed.

Lemma checked_count e n k : checked_byte_sample_count e n = Ok k -> n = (k * byte_size e)%nat.
Proof.
  unfold checked_byte_sample_count. case_match; [|done]. intros [= <-]. apply multiple_of; [|done]. by destruct e; cbn; lia.
Qed.

(** [append_f32] adds as many samples as [sample_count] says, and fails when it fails. *)
Lemma append_count e (s : samples e) out :
  match sample_count e s with
  | Ok n => exists src, append_f32 e s out = Ok (out ++ src) /\ append_f32 e s [] = Ok src /\ length src = n
  | Err err => append_f32 e s out = Err err /\ append_f32 e s [] = Err err
  | Panic => False
  end.
Proof.
  destruct e; cbn [sample_count append_f32];
    try (eexists; split; [done|]; split; [done|]; by rewrite ?length_fmap);
    (destruct (checked_byte_sample_count _ _) as [n|err|] eqn:Hc; cbn [mbind res_mbind]; [|done|]);
    try (apply checked_count in Hc; eexists; split; [done|]; split; [done|]; rewrite length_fmap; first [by apply length_s16le | by apply length_f32le]).
  all: unfold checked_byte_sample_count in Hc; by case_match.
Qed.

(** [stereo_from_source] for its users. *)
Lemma stereo_source_eq l e (s : samples e) output :
  append_stereo_interleaved_from_source l e s output = ('(_, source) ← append_source_f32 l e s []; append_stereo_interleaved l source output).
Proof.
  pose proof (append_count e s output) as Hcount.
  destruct l; cbn [append_stereo_interleaved_from_source append_source_f32].
  - destruct (sample_count e s) as [n|err|]; [|destruct Hcount as [-> ->]; done|done]. destruct Hcount as (src & -> & -> & Hn). cbn [mbind res_mbind].
    replace (length (output ++ src) - length output)%nat with (length src) by (rewrite length_app; lia). unfold resize.
    rewrite take_ge by (rewrite length_app; lia). replace (length output + length src * 2 - length (output ++ src))%nat with (length src) by (rewrite length_app; lia).
    pose proof (spread_run src output (replicate (length src) f32_zero) [] (length_replicate _ _)) as Hrun. rewrite !app_nil_r, app_assoc in Hrun. rewrite Hrun. done.
  - destruct (sample_count e s) as [n|err|]; [|done|done]. destruct Hcount as (src & -> & -> & Hn). cbn [mbind res_mbind].
    destruct (validate_channel_alignment 2 n) eqn:Hv; cbn [mbind res_mbind append_stereo_interleaved]; rewrite ?Hn, ?Hv; done.
Qed.


(** Reading a source straight into interleaved stereo, which for a mono source
    spreads the samples in place, gives what reading it and interleaving
    afterwards gives; errors are the same. *)
Theorem stereo_from_source l e (s : samples e) output :
  append_stereo_interleaved_from_source l e s output = ('(_, source) ← append_source_f32 l e s []; append_stereo_interleaved l source output).
Proof. apply stereo_source_eq. Qed.

End Pcm.
