(* ===== verification/Resampler.v ===== *)
(** * The streaming resampler (cacophony/src/pcm.rs, [StreamingSincResampler])

    Source samples of any number are collected per channel and handed to the
    resampler of the rubato crate in chunks of the size it asks for; the first
    frames it returns, its delay, are cut off.  [finish_into] feeds the rest,
    and silence, until as many frames have come out as the source stands for.

    The collected samples are a buffer with a read position that is compacted
    now and then; [plain] is the queue it stands for.  The two loops have fuel:
    the number of chunks they may process. *)

From Stdlib Require Import SpecFloat.
From stdpp Require Import strings.
From S2P Require Import Prelude Effects IeeeFloat Pcm.
Import IeeeFloat Pcm.
#[local] Open Scope nat_scope.

Module Resampler.

Definition SINC_FILTER_LEN : nat := 256.
Definition SINC_OVERSAMPLING_FACTOR : nat := 256.
Definition SOURCE_BUFFER_COMPACT_FRAMES : nat := Z.to_nat 32768.

(** [rubato::Async<f32>] with a fixed number of input frames: [new_sinc ratio
    chunk_frames channels] (the filter is that of [high_quality_sinc_resampler]),
    the sizes it asks for, and processing one chunk, of which [partial_len]
    frames are audio: the frames consumed, the frames written and the buffers
    they were written to. *)
Class Rubato := {
  resampler_t : Type;
  new_sinc : f64 -> nat -> nat -> string + resampler_t;
  input_frames_next : resampler_t -> nat;
  output_frames_next : resampler_t -> nat;
  output_delay : resampler_t -> nat;
  process_into_buffer : list (list f32) -> option nat -> nat -> resampler_t -> (string + nat * nat * list (list f32)) * resampler_t }.

(** What its documentation says: a chunk of the size asked for is processed, the
    number of input frames stays the same, at most the announced frames are
    written, and a resampler that is fed does not stay silent for ever. *)
Class RubatoLaws (B : Rubato) := {
  rubato_ok : nat -> nat -> resampler_t -> Prop;
  idle : resampler_t -> nat;
  new_sinc_ok ratio chunk ch r : new_sinc ratio chunk ch = inr r -> 0 < chunk -> rubato_ok chunk ch r;
  rubato_input chunk ch r : rubato_ok chunk ch r -> input_frames_next r = chunk /\ 0 < chunk;
  process_ok chunk ch r input partial : rubato_ok chunk ch r -> length input = ch -> Forall (fun c => length c = chunk) input ->
    (forall n, partial = Some n -> n <= chunk) ->
    exists consumed written bufs r', process_into_buffer input partial (output_frames_next r) r = (inr (consumed, written, bufs), r') /\
      rubato_ok chunk ch r' /\ (partial = None -> consumed = chunk) /\ written <= output_frames_next r /\
      length bufs = ch /\ Forall (fun c => length c = output_frames_next r) bufs /\ (written = 0 -> idle r' < idle r) }.

Section Resampler.
Context {B : Rubato}.

Record StreamingSincResampler := {
  layout : ChannelLayout;
  input_sample_rate_hz : Z;
  output_sample_rate_hz : Z;
  ratio : f64;
  resampler : option resampler_t;
  buffered_source : list (list f32);
  buffered_source_start : nat;
  received_source_frames : nat;
  emitted_output_frames : nat;
  trim_output_frames : nat }.

Definition ratio_of (input output : Z) : f64 := f64_div (f64_of_int output) (f64_of_int input).

(** [high_quality_sinc_resampler] *)
Definition high_quality_sinc_resampler (input output : Z) (chunk_frames channels : nat) : R resampler_t :=
  match new_sinc (ratio_of input output) chunk_frames channels with inl e => Err (ResamplerError e) | inr r => Ok r end.

(** [StreamingSincResampler::new] *)
Definition resampler_new (l : ChannelLayout) (input output : Z) (chunk_frames : nat) : R StreamingSincResampler :=
  if CHANNELS l =? 0 then Err ChannelCountZero
  else if chunk_frames =? 0 then Err ResamplerChunkFramesZero
  else
    r ← (if (input =? output)%Z then Ok None else r ← high_quality_sinc_resampler input output chunk_frames (CHANNELS l); Ok (Some r));
    Ok {| layout := l; input_sample_rate_hz := input; output_sample_rate_hz := output; ratio := ratio_of input output; resampler := r;
          buffered_source := replicate (CHANNELS l) []; buffered_source_start := 0; received_source_frames := 0; emitted_output_frames := 0;
          trim_output_frames := match r with Some r => output_delay r | None => 0 end |}.

Definition resampling_required (s : StreamingSincResampler) : bool := negb (input_sample_rate_hz s =? output_sample_rate_hz s)%Z.

Definition with_buffer (b : list (list f32)) (start : nat) (s : StreamingSincResampler) : StreamingSincResampler :=
  {| layout := layout s; input_sample_rate_hz := input_sample_rate_hz s; output_sample_rate_hz := output_sample_rate_hz s; ratio := ratio s;
     resampler := resampler s; buffered_source := b; buffered_source_start := start; received_source_frames := received_source_frames s;
     emitted_output_frames := emitted_output_frames s; trim_output_frames := trim_output_frames s |}.
Definition with_counts (received emitted trim : nat) (s : StreamingSincResampler) : StreamingSincResampler :=
  {| layout := layout s; input_sample_rate_hz := input_sample_rate_hz s; output_sample_rate_hz := output_sample_rate_hz s; ratio := ratio s;
     resampler := resampler s; buffered_source := buffered_source s; buffered_source_start := buffered_source_start s; received_source_frames := received;
     emitted_output_frames := emitted; trim_output_frames := trim |}.
Definition with_resampler (r : resampler_t) (s : StreamingSincResampler) : StreamingSincResampler :=
  {| layout := layout s; input_sample_rate_hz := input_sample_rate_hz s; output_sample_rate_hz := output_sample_rate_hz s; ratio := ratio s;
     resampler := Some r; buffered_source := buffered_source s; buffered_source_start := buffered_source_start s;
     received_source_frames := received_source_frames s; emitted_output_frames := emitted_output_frames s; trim_output_frames := trim_output_frames s |}.

Definition buffered_source_frames (s : StreamingSincResampler) : nat :=
  match buffered_source s with [] => 0 | c :: _ => length c - buffered_source_start s end.

Definition compact_buffered_source (s : StreamingSincResampler) : StreamingSincResampler :=
  if buffered_source_start s =? 0 then s
  else if buffered_source_frames s =? 0 then with_buffer ((fun _ => []) <$> buffered_source s) 0 s
  else if buffered_source_start s <? SOURCE_BUFFER_COMPACT_FRAMES then s
  else with_buffer (drop (buffered_source_start s) <$> buffered_source s) 0 s.

(** One frame goes to the channels, the first sample to channel [i]. *)
Fixpoint push_frame (i : nat) (frame : list f32) (b : list (list f32)) : R (list (list f32)) :=
  match frame with
  | [] => Ok b
  | x :: frame => c ← index b i; push_frame (S i) frame (<[i := c ++ [x]]> b)
  end.

Fixpoint push_frames (frames : list (list f32)) (b : list (list f32)) : R (list (list f32)) :=
  match frames with [] => Ok b | frame :: frames => b ← push_frame 0 frame b; push_frames frames b end.

(** Methods that append to [output]. *)
Definition rs (A : Type) : Type := st (StreamingSincResampler * list f32) PcmError A.

(** A computation on the state that does not change it. *)
Definition reads {A} (f : StreamingSincResampler -> R A) : rs A := fun p => (f p.1, p).

Definition change (f : StreamingSincResampler -> StreamingSincResampler) : rs () := modify (fun p => (f p.1, p.2)).

Definition append_buffered_source (source : list f32) : rs () :=
  _ ← change compact_buffered_source;
  b ← reads (fun s => push_frames (chunks_exact (length source) (CHANNELS (layout s)) source) (buffered_source s));
  change (fun s => with_buffer b (buffered_source_start s) s).

Definition the_resampler : rs resampler_t := reads (fun s => ok_or ResamplerNotInitialized (resampler s)).

Definition reached_expected_output (expected : option nat) (s : StreamingSincResampler) : bool :=
  match expected with Some n => n <=? emitted_output_frames s | None => false end.

(** One channel of the chunk: [valid] frames from the buffer, then silence. *)
Definition scratch_channel (start n valid : nat) (c : list f32) : R (list f32) :=
  if n <? valid then Panic
  else audio ← (if valid =? 0 then Ok [] else slice c start (start + valid)); Ok (audio ++ replicate (n - valid) f32_zero).

Fixpoint scratch_channels (start n valid : nat) (b : list (list f32)) : R (list (list f32)) :=
  match b with
  | [] => Ok []
  | c :: b => x ← scratch_channel start n valid c; xs ← scratch_channels start n valid b; Ok (x :: xs)
  end.

(** The samples of frame [i], one per channel, clamped. *)
Fixpoint output_frame (i : nat) (bufs : list (list f32)) : R (list f32) :=
  match bufs with [] => Ok [] | c :: bufs => x ← index c i; xs ← output_frame i bufs; Ok (f32_clamp_unit x :: xs) end.

(** The loop of [append_output_samples] over the frames from [i] on, [n] of them. *)
Fixpoint emit_frames (i n : nat) (expected : option nat) (bufs : list (list f32)) : rs () :=
  match n with
  | O => mret ()
  | S n => fun p =>
      if reached_expected_output expected p.1 then (Ok (), p)
      else match output_frame i (take (CHANNELS (layout p.1)) bufs) with
           | Ok frame =>
               emit_frames (S i) n expected bufs
                 (with_counts (received_source_frames p.1) (S (emitted_output_frames p.1)) (trim_output_frames p.1) p.1, p.2 ++ frame)
           | Err e => (Err e, p)
           | Panic => (Panic, p)
           end
  end.

Definition append_output_samples (written : nat) (expected : option nat) (bufs : list (list f32)) : rs () :=
  trim ← gets (fun p => Nat.min (trim_output_frames p.1) written);
  _ ← change (fun s => with_counts (received_source_frames s) (emitted_output_frames s) (trim_output_frames s - trim) s);
  emit_frames trim (written - trim) expected bufs.

Definition run_resampler (input : list (list f32)) (partial_len : option nat) (r : resampler_t) : rs (nat * nat * list (list f32)) :=
  fun p => let '(o, r) := process_into_buffer input partial_len (output_frames_next r) r in
           (match o with inl e => Err (ResamplerError e) | inr x => Ok x end, (with_resampler r p.1, p.2)).

(** The buffer after a chunk: what was consumed is gone; after a partial chunk
    everything is. *)
Definition after_chunk (partial_len : option nat) (consumed : nat) (s : StreamingSincResampler) : StreamingSincResampler :=
  match partial_len with
  | None => compact_buffered_source (with_buffer (buffered_source s) (buffered_source_start s + consumed) s)
  | Some _ => with_buffer ((fun _ => []) <$> buffered_source s) 0 s
  end.

Definition process_next_chunk (partial_len expected : option nat) : rs () :=
  r ← the_resampler;
  let n := input_frames_next r in
  input ← reads (fun s => scratch_channels (buffered_source_start s) n (default n partial_len) (buffered_source s));
  '(consumed, written, bufs) ← run_resampler input partial_len r;
  _ ← change (after_chunk partial_len consumed);
  append_output_samples written expected bufs.

(** The first loop of [process_available]; [true] when the expected frames are out. *)
Fixpoint full_chunks (fuel : nat) (expected : option nat) : rs bool :=
  match fuel with
  | O => fun p => (Panic, p)
  | S fuel =>
      r ← the_resampler;
      more ← gets (fun p => input_frames_next r <=? buffered_source_frames p.1);
      if more : bool then
        _ ← process_next_chunk None expected;
        done ← gets (fun p => reached_expected_output expected p.1);
        if done : bool then mret true else full_chunks fuel expected
      else mret false
  end.

(** The last loop: silence until the expected frames are out. *)
Fixpoint silent_chunks (fuel expected : nat) : rs () :=
  match fuel with
  | O => fun p => (Panic, p)
  | S fuel =>
      more ← gets (fun p => emitted_output_frames p.1 <? expected);
      if more : bool then _ ← process_next_chunk (Some 0) (Some expected); silent_chunks fuel expected else mret ()
  end.

Definition process_available (fuel : nat) (expected : option nat) : rs () :=
  reached ← full_chunks fuel expected;
  match expected with
  | Some n =>
      if reached : bool then mret ()
      else
        buffered ← gets (fun p => buffered_source_frames p.1);
        _ ← (if 0 <? buffered then process_next_chunk (Some buffered) (Some n) else mret ());
        silent_chunks fuel n
  | None => mret ()
  end.

Definition validate_source_samples (source : list f32) (s : StreamingSincResampler) : R nat :=
  _ ← validate_channel_alignment (CHANNELS (layout s)) (length source); Ok (length source / CHANNELS (layout s)).

Definition push_into (fuel : nat) (source : list f32) : rs () :=
  frames ← reads (validate_source_samples source);
  _ ← change (fun s => with_counts (received_source_frames s + frames) (emitted_output_frames s) (trim_output_frames s) s);
  required ← gets (fun p => resampling_required p.1);
  if required : bool then _ ← append_buffered_source source; process_available fuel None
  else modify (fun p => (with_counts (received_source_frames p.1) (emitted_output_frames p.1 + frames) (trim_output_frames p.1) p.1, p.2 ++ source)).

(** [(self.ratio * self.received_source_frames as f64).ceil() as usize] *)
Definition expected_output_frames (s : StreamingSincResampler) : nat :=
  Z.to_nat (f64_ceil_as_usize (f64_mul (ratio s) (f64_of_int (Z.of_nat (received_source_frames s))))).

Definition finish_into (fuel : nat) : rs () :=
  required ← gets (fun p => resampling_required p.1);
  if required : bool then
    expected ← gets (fun p => expected_output_frames p.1);
    process_available fuel (Some expected)
  else mret ().

(** [from_hz], [push] and [finish] *)
Definition from_hz (l : ChannelLayout) (input output : Z) (chunk_frames : nat) : R StreamingSincResampler :=
  if (input =? 0)%Z then Err SampleRateZero
  else if (output =? 0)%Z then Err SampleRateZero else resampler_new l input output chunk_frames.

Definition to_new_vec (m : rs ()) : st StreamingSincResampler PcmError (list f32) := fun s =>
  let '(o, (s, output)) := m (s, []) in (_ ← o; Ok output, s).

Definition push (fuel : nat) (source : list f32) : st StreamingSincResampler PcmError (list f32) := to_new_vec (push_into fuel source).
Definition finish (fuel : nat) : st StreamingSincResampler PcmError (list f32) := to_new_vec (finish_into fuel).

(** ** The buffer as a queue *)

(** The source samples of every channel that have not been consumed. *)
Definition unread (s : StreamingSincResampler) : list (list f32) := drop (buffered_source_start s) <$> buffered_source s.

(** Everything but how the buffer is stored. *)
Definition plain (s : StreamingSincResampler) :=
  (layout s, input_sample_rate_hz s, output_sample_rate_hz s, ratio s, resampler s, unread s,
   (received_source_frames s, emitted_output_frames s, trim_output_frames s)).

Context {L : RubatoLaws B}.

(** [n] is the chunk size, [f] the number of frames in the buffer. *)
Record wf (n f : nat) (s : StreamingSincResampler) : Prop := {
  wf_channels : length (buffered_source s) = CHANNELS (layout s);
  wf_frames : Forall (fun c => length c = buffered_source_start s + f) (buffered_source s);
  wf_resampler : exists r, resampler s = Some r /\ rubato_ok n (CHANNELS (layout s)) r }.

Lemma channels_pos l : 0 < CHANNELS l.
Proof. destruct l; cbn; lia. Qed.

Lemma wf_buffered n f s : wf n f s -> buffered_source_frames s = f.
Proof.
  intros [H1 H2 _]. unfold buffered_source_frames. pose proof (channels_pos (layout s)). destruct (buffered_source s) as [|c b]; [cbn in H1; lia|].
  inversion_clear H2 as [|? ? Hc _]. lia.
Qed.

Lemma wf_unread n f s : wf n f s -> length (unread s) = CHANNELS (layout s) /\ Forall (fun c => length c = f) (unread s).
Proof.
  intros [H1 H2 _]. unfold unread. rewrite length_fmap. split; [done|]. apply Forall_fmap. eapply Forall_impl; [exact H2|]. intros c Hc. unfold compose. cbn beta in Hc. rewrite length_drop. lia.
Qed.

(** A buffer stored from its start. *)
Lemma wf_stored n f s b : wf n f s -> length b = CHANNELS (layout s) -> forall f', Forall (fun c => length c = f') b -> wf n f' (with_buffer b 0 s).
Proof. intros [H1 H2 H3] Hb f' Hf. by split. Qed.

Lemma fmap_const_nil n f s : wf n f s -> f = 0 -> (fun _ : list f32 => []) <$> buffered_source s = unread s.
Proof.
  intros [_ H2 _] ->. unfold unread. apply list_fmap_ext. intros i c Hc. rewrite Forall_lookup in H2. specialize (H2 i c Hc). symmetry. apply drop_ge. lia.
Qed.

Lemma compact_ok n f s : wf n f s -> wf n f (compact_buffered_source s) /\ plain (compact_buffered_source s) = plain s.
Proof.
  intros Hw. unfold compact_buffered_source. destruct (Nat.eqb_spec (buffered_source_start s) 0); [done|]. rewrite (wf_buffered _ _ _ Hw).
  destruct (wf_unread _ _ _ Hw) as [Hl Hf]. destruct (Nat.eqb_spec f 0) as [->|].
  - rewrite (fmap_const_nil _ _ _ Hw eq_refl). split; [by eapply wf_stored|]. unfold plain. cbn. unfold unread at 1. cbn. by rewrite list_fmap_id.
  - destruct (Nat.ltb_spec (buffered_source_start s) SOURCE_BUFFER_COMPACT_FRAMES); [done|]. fold (unread s).
    split; [by eapply wf_stored|]. unfold plain. cbn. unfold unread at 1. cbn. by rewrite list_fmap_id.
Qed.

(** ** One chunk *)

(** The chunk of [n] frames of which the first [valid] come from the queue. *)
Definition chunk_of (n valid : nat) (q : list (list f32)) : list (list f32) := (fun c => take valid c ++ replicate (n - valid) f32_zero) <$> q.

(** The frames a chunk gives: the clamped samples at [i]. *)
Definition frame_at (bufs : list (list f32)) (i : nat) : list f32 := (fun c => f32_clamp_unit (nth i c f32_zero)) <$> bufs.

(** How many of [n] frames are emitted. *)
Definition room (expected : option nat) (emitted n : nat) : nat := match expected with Some e => Nat.min n (e - emitted) | None => n end.

Lemma scratch_run n valid s f : wf n f s -> valid <= f -> valid <= n ->
  scratch_channels (buffered_source_start s) n valid (buffered_source s) = Ok (chunk_of n valid (unread s)).
Proof.
  intros [_ H2 _] Hv Hn. unfold unread, chunk_of. revert H2. generalize (buffered_source_start s) as start. intros start.
  induction (buffered_source s) as [|c b IH]; [done|]. intros [Hc Hb]%Forall_cons. cbn [scratch_channels fmap list_fmap]. rewrite IH by done.
  unfold scratch_channel. destruct (Nat.ltb_spec n valid); [lia|]. destruct (Nat.eqb_spec valid 0) as [->|]; cbn [mbind res_mbind]; [by rewrite take_0|].
  rewrite slice_ok by lia. cbn [mbind res_mbind]. by replace (start + valid - start) with valid by lia.
Qed.

Lemma chunk_of_ok n valid q f : Forall (fun c => length c = f) q -> valid <= f -> valid <= n -> Forall (fun c => length c = n) (chunk_of n valid q).
Proof. intros Hq Hv Hn. apply Forall_fmap. eapply Forall_impl; [exact Hq|]. intros c Hc. unfold compose. cbn beta in Hc. llia. Qed.

Lemma output_frame_run i bufs m : Forall (fun c => length c = m) bufs -> i < m -> output_frame i bufs = Ok (frame_at bufs i).
Proof.
  intros H Hi. induction H as [|c bufs Hc _ IH]; [done|]. cbn [output_frame]. unfold index. 
  destruct (c !! i) as [x|] eqn:Hx; [|apply lookup_ge_None in Hx; lia]. cbn [unwrap mbind res_mbind]. rewrite IH. cbn [mbind res_mbind frame_at fmap list_fmap].
  by rewrite (nth_lookup_Some _ _ _ _ Hx).
Qed.

Lemma emit_run i k expected bufs m s out : length bufs = CHANNELS (layout s) -> Forall (fun c => length c = m) bufs -> i + k <= m ->
  let e := room expected (emitted_output_frames s) k in
  emit_frames i k expected bufs (s, out) =
    (Ok (), (with_counts (received_source_frames s) (emitted_output_frames s + e) (trim_output_frames s) s, out ++ mjoin (frame_at bufs <$> seq i e))).
Proof.
  revert i s out. induction k as [|k IH]; intros i s out Hl Hm Hk e; cbn [emit_frames].
  - assert (e = 0) as -> by (unfold e, room; destruct expected; lia). cbn. rewrite app_nil_r, Nat.add_0_r. by destruct s.
  - unfold reached_expected_output. cbn [fst snd]. destruct expected as [x|].
    + destruct (Nat.leb_spec x (emitted_output_frames s)) as [Hx|Hx].
      * assert (e = 0) as -> by (unfold e, room; lia). cbn. rewrite app_nil_r, Nat.add_0_r. by destruct s.
      * rewrite take_ge by lia. rewrite (output_frame_run i bufs m Hm) by lia. rewrite IH by (done || lia). cbn [emitted_output_frames with_counts received_source_frames trim_output_frames].
        assert (e = S (room (Some x) (S (emitted_output_frames s)) k)) as -> by (unfold e, room; lia). cbn [seq fmap list_fmap mjoin list_join].
        rewrite <- app_assoc, Nat.add_succ_r. done.
    + rewrite take_ge by lia. rewrite (output_frame_run i bufs m Hm) by lia. rewrite IH by (done || lia). cbn [emitted_output_frames with_counts received_source_frames trim_output_frames room].
      unfold e. cbn [room seq fmap list_fmap mjoin list_join]. rewrite <- app_assoc, Nat.add_succ_r. done.
Qed.

(** What processing one chunk does to the queue and the output. *)
Record chunk_result (n : nat) (partial expected : option nat) (s s' : StreamingSincResampler) (frames : list f32) : Prop := {
  cr_result : exists r r' c written bufs, resampler s = Some r /\ resampler s' = Some r' /\
    process_into_buffer (chunk_of n (default n partial) (unread s)) partial (output_frames_next r) r = (inr (c, written, bufs), r') /\
    (written = 0 -> idle r' < idle r) /\
    let trim := Nat.min (trim_output_frames s) written in
    let e := room expected (emitted_output_frames s) (written - trim) in
    frames = mjoin (frame_at bufs <$> seq trim e) /\ trim_output_frames s' = trim_output_frames s - trim /\
    emitted_output_frames s' = emitted_output_frames s + e /\ length frames = CHANNELS (layout s) * e;
  cr_unread : unread s' = match partial with None => drop n <$> unread s | Some _ => (fun _ => []) <$> unread s end;
  cr_layout : layout s' = layout s;
  cr_rest : (input_sample_rate_hz s', output_sample_rate_hz s', ratio s', received_source_frames s') =
            (input_sample_rate_hz s, output_sample_rate_hz s, ratio s, received_source_frames s) }.

Lemma length_frames bufs i e : length (mjoin (frame_at bufs <$> seq i e)) = length bufs * e.
Proof.
  revert i. induction e as [|e IH]; intros i; cbn [seq fmap list_fmap mjoin list_join]; [cbn; lia|]. rewrite length_app, IH. unfold frame_at. rewrite length_fmap. lia.
Qed.

Lemma with_buffer_wf n f s b start f' : wf n f s -> length b = CHANNELS (layout s) -> Forall (fun c => length c = start + f') b -> wf n f' (with_buffer b start s).
Proof. intros [H1 H2 H3] Hb Hf. by split. Qed.

Lemma with_resampler_wf n f s r : wf n f s -> rubato_ok n (CHANNELS (layout s)) r -> wf n f (with_resampler r s).
Proof. intros [H1 H2 H3] Hr. split; [done|done|]. by exists r. Qed.

Lemma with_counts_wf n f s a b c : wf n f s -> wf n f (with_counts a b c s).
Proof. intros [H1 H2 H3]. by split. Qed.

(** The buffer after a chunk. *)
Lemma consumed_ok n f s partial : wf n f s -> (forall v, partial = Some v -> v <= f) -> (partial = None -> n <= f) ->
  let s' := after_chunk partial n s in
  wf n (match partial with None => f - n | Some _ => 0 end) s' /\
  plain s' = (layout s, input_sample_rate_hz s, output_sample_rate_hz s, ratio s, resampler s,
              match partial with None => drop n <$> unread s | Some _ => (fun _ => []) <$> unread s end,
              (received_source_frames s, emitted_output_frames s, trim_output_frames s)).
Proof.
  intros Hw Hp Hn. unfold after_chunk. cbv zeta. destruct partial as [v|].
  - split; [|unfold plain, unread; cbn; by rewrite <- !list_fmap_compose]. eapply with_buffer_wf; [exact Hw|by rewrite length_fmap; apply Hw|].
    apply Forall_fmap, Forall_true. done.
  - specialize (Hn eq_refl). set (s1 := with_buffer _ _ s). assert (wf n (f - n) s1) as Hw1.
    { eapply with_buffer_wf; [exact Hw|apply Hw|]. eapply Forall_impl; [apply (wf_frames _ _ _ Hw)|]. cbn. intros c Hc. lia. }
    destruct (compact_ok _ _ _ Hw1) as [Hw2 ->]. split; [done|]. unfold plain, s1, unread. cbn. f_equal. f_equal. rewrite <- list_fmap_compose.
    apply list_fmap_ext. intros i c _. unfold compose. by rewrite drop_drop.
Qed.

Lemma process_run n f s out partial expected : wf n f s -> (forall v, partial = Some v -> v <= f /\ v <= n) -> (partial = None -> n <= f) ->
  exists s' frames, process_next_chunk partial expected (s, out) = (Ok (), (s', out ++ frames)) /\
    chunk_result n partial expected s s' frames /\ wf n (match partial with None => f - n | Some _ => 0 end) s'.
Proof.
  intros Hw Hp Hn. destruct (wf_resampler _ _ _ Hw) as (r & Hr & Hok). destruct (rubato_input _ _ _ Hok) as [Hin Hpos].
  assert (default n partial <= f /\ default n partial <= n) as [Hv1 Hv2] by (destruct partial as [v|]; cbn; [by apply Hp|split; [by apply Hn|done]]).
  destruct (wf_unread _ _ _ Hw) as [Hlen Hf].
  destruct (process_ok n (CHANNELS (layout s)) r (chunk_of n (default n partial) (unread s)) partial Hok) as (c & w & bufs & r' & Hproc & Hok' & Hc & Hwr & Hbl & Hbf & Hidle).
  { unfold chunk_of. by rewrite length_fmap. }
  { by eapply chunk_of_ok. }
  { intros v ->. cbn in *. lia. }
  unfold process_next_chunk, mbind, st_mbind, the_resampler, reads. cbn [fst]. rewrite Hr. cbn [ok_or]. rewrite Hin.
  rewrite (scratch_run _ _ _ _ Hw Hv1 Hv2). unfold run_resampler. cbn [fst snd]. rewrite Hproc. unfold change, modify. cbn [fst snd].
  set (s1 := with_resampler r' s). assert (wf n f s1) as Hw1 by (by apply with_resampler_wf).
  destruct (consumed_ok n f s1 partial Hw1 ltac:(intros v ->; by apply Hp) Hn) as [Hw2 Hpl].
  assert (after_chunk partial c s1 = after_chunk partial n s1) as -> by (destruct partial; [done|]; unfold after_chunk; by rewrite Hc).
  cbv zeta in Hw2, Hpl. set (s2 := after_chunk partial n s1) in *. unfold append_output_samples, mbind, st_mbind, gets, change, modify. cbn [fst snd].
  assert (trim_output_frames s2 = trim_output_frames s /\ emitted_output_frames s2 = emitted_output_frames s /\ layout s2 = layout s /\ resampler s2 = Some r' /\
          received_source_frames s2 = received_source_frames s /\ unread s2 = match partial with None => drop n <$> unread s | Some _ => (fun _ => []) <$> unread s end /\
          (input_sample_rate_hz s2, output_sample_rate_hz s2, ratio s2) = (input_sample_rate_hz s, output_sample_rate_hz s, ratio s)) as (Ht & He & Hla & Hrs & Hrec & Hun & Hrates).
  { unfold plain in Hpl. injection Hpl as -> -> -> -> -> -> -> -> ->. done. }
  rewrite Ht. set (trim := Nat.min (trim_output_frames s) w). assert (trim <= w) as Htw by (unfold trim; lia). set (s3 := with_counts _ _ _ s2).
  rewrite (emit_run trim (w - trim) expected bufs (output_frames_next r) s3 out); [|by cbn; rewrite Hla|done|clear -Htw Hwr; lia].
  eexists _, _. split; [reflexivity|]. split; [|by apply with_counts_wf, with_counts_wf]. cbn [emitted_output_frames s3 with_counts]. rewrite He.
  split; cbn; [|done|done|congruence]. exists r, r', c, w, bufs. rewrite Hrs. split; [done|]. split; [done|]. split; [done|]. split; [done|].
  split; [done|]. split; [by rewrite ?Ht|]. split; [done|]. by rewrite length_frames, Hbl.
Qed.

(** ** Runs on two states *)

(** All but the queue and the count of received frames. *)
Definition core (s : StreamingSincResampler) :=
  (layout s, input_sample_rate_hz s, output_sample_rate_hz s, ratio s, resampler s, (emitted_output_frames s, trim_output_frames s)).

Lemma plain_iff s t : plain s = plain t <-> core s = core t /\ unread s = unread t /\ received_source_frames s = received_source_frames t.
Proof. unfold plain, core. split; [intros [= -> -> -> -> -> -> -> -> ->]; done|]. intros ([= -> -> -> -> -> -> ->] & -> & ->). done. Qed.

(** A chunk that is the same for two states has the same effect on both. *)
Lemma chunk_result_det n partial expected s t s' t' x y :
  core s = core t -> chunk_of n (default n partial) (unread s) = chunk_of n (default n partial) (unread t) ->
  chunk_result n partial expected s s' x -> chunk_result n partial expected t t' y -> x = y /\ core s' = core t'.
Proof.
  intros Hc Hch [(r & r' & c & w & b & Hr & Hr' & Hp & _ & Hx & Ht & He & _) _ Hl Hrest] [(q & q' & d & v & b' & Hq & Hq' & Hp' & _ & Hy & Ht' & He' & _) _ Hl' Hrest'].
  unfold core in *. injection Hc as Hc1 Hc2 Hc3 Hc4 Hc5 Hc7 Hc8. assert (r = q) as -> by congruence. rewrite Hch, Hp' in Hp. injection Hp as <- <- <- <-.
  rewrite Hc7, Hc8 in *. injection Hrest as E1 E2 E3 E4. injection Hrest' as F1 F2 F3 F4. subst x y. split; [done|]. congruence.
Qed.

(** [t] has the samples [v] of every channel behind those of [s]. *)
Definition longer (v : list (list f32)) (s t : StreamingSincResampler) : Prop := core s = core t /\ unread t = zip_with app (unread s) v.

Lemma zip_with_fmap_l {A C D E} (h : A -> C) (g : C -> D -> E) l k : zip_with g (h <$> l) k = zip_with (fun x y => g (h x) y) l k.
Proof. revert k. induction l as [|x l IH]; intros [|y k]; cbn; [done..|]. by f_equal. Qed.

Lemma fmap_zip_with {A C D E} (h : D -> E) (g : A -> C -> D) l k : h <$> zip_with g l k = zip_with (fun x y => h (g x y)) l k.
Proof. revert k. induction l as [|x l IH]; intros [|y k]; cbn; [done..|]. by f_equal. Qed.

Lemma zip_with_Forall_ext {A C D} (P : A -> Prop) (g h : A -> C -> D) l k : Forall P l -> (forall x y, P x -> g x y = h x y) -> zip_with g l k = zip_with h l k.
Proof. intros Hl Hgh. revert k. induction Hl as [|x l Hx _ IH]; intros [|y k]; cbn; [done..|]. f_equal; auto. Qed.

Lemma zip_with_const {A C} (l : list A) (k : list C) : length l <= length k -> zip_with (fun x _ => x) l k = l.
Proof. revert k. induction l as [|x l IH]; intros [|y k] H; cbn in *; [done..|lia|]. f_equal. apply IH. lia. Qed.

Lemma longer_chunk n f s t v : wf n f s -> longer v s t -> length v = CHANNELS (layout s) -> n <= f ->
  chunk_of n n (unread s) = chunk_of n n (unread t) /\ drop n <$> unread t = zip_with app (drop n <$> unread s) v.
Proof.
  intros Hw [_ Hu] Hv Hn. destruct (wf_unread _ _ _ Hw) as [Hl Hf]. unfold chunk_of. rewrite Hu, !fmap_zip_with, zip_with_fmap_l. split.
  - transitivity (zip_with (fun x (_ : list f32) => take n x ++ replicate (n - n) f32_zero) (unread s) v).
    + rewrite <- (zip_with_fmap_l (fun c => take n c ++ replicate (n - n) f32_zero) (fun x _ => x)). symmetry. apply zip_with_const. rewrite length_fmap. lia.
    + eapply zip_with_Forall_ext; [exact Hf|]. cbn. intros x y Hx. by rewrite take_app_le by lia.
  - eapply zip_with_Forall_ext; [exact Hf|]. cbn. intros x y Hx. by rewrite drop_app_le by lia.
Qed.

(** ** The loop over full chunks *)

(** What [f32::clamp] gives: a sample that is neither below -1 nor above 1.  NaN
    is neither, and stays NaN. *)
Definition clamped (x : f32) : Prop := f32_lt x f32_minus_one = false /\ f32_lt f32_one x = false.

Lemma frames_clamped bufs i e : Forall clamped (mjoin (frame_at bufs <$> seq i e)).
Proof.
  revert i. induction e as [|e IH]; intros i; cbn [seq fmap list_fmap mjoin list_join]; [constructor|]. apply Forall_app. split; [|apply IH].
  apply Forall_fmap, Forall_true. intros c. apply clamp_unit_bounds.
Qed.

(** What a run that received [k] frames leaves alone, and that the output grows
    by the emitted frames. *)
Record advanced (k : nat) (s : StreamingSincResampler) (out : list f32) (s' : StreamingSincResampler) (out' : list f32) : Prop := {
  adv_layout : layout s' = layout s;
  adv_rates : (input_sample_rate_hz s', output_sample_rate_hz s', ratio s') = (input_sample_rate_hz s, output_sample_rate_hz s, ratio s);
  adv_received : received_source_frames s' = received_source_frames s + k;
  adv_out : exists frames, out' = out ++ frames /\ Forall clamped frames /\ length frames + CHANNELS (layout s) * emitted_output_frames s = CHANNELS (layout s) * emitted_output_frames s' }.

Lemma advanced_refl s out : advanced 0 s out s out.
Proof. split; [done|done|lia|]. exists []. rewrite app_nil_r. split; [done|]. by split; [constructor|]. Qed.

Lemma advanced_trans k j s1 o1 s2 o2 s3 o3 : advanced k s1 o1 s2 o2 -> advanced j s2 o2 s3 o3 -> advanced (k + j) s1 o1 s3 o3.
Proof.
  intros [H1 H2 R1 (x & -> & Ux & Hx)] [H3 H4 R2 (y & -> & Uy & Hy)]. split; [congruence|congruence|lia|]. exists (x ++ y). rewrite app_assoc. split; [done|]. split; [by apply Forall_app|].
  rewrite length_app. rewrite H1 in Hy. lia.
Qed.

Lemma chunk_advanced n partial expected s s' frames out : chunk_result n partial expected s s' frames -> advanced 0 s out s' (out ++ frames).
Proof.
  intros [(r & r' & c & w & b & _ & _ & _ & _ & Hfr & _ & He & Hl) _ H1 H2]. injection H2 as E1 E2 E3 E4. split; [done|congruence|lia|]. exists frames. split; [done|].
  split; [rewrite Hfr; apply frames_clamped|]. rewrite Hl, He. lia.
Qed.

(** One turn of the loop. *)
Lemma full_chunks_step fuel n f s out : wf n f s ->
  full_chunks (S fuel) None (s, out) =
    if n <=? f then match process_next_chunk None None (s, out) with
                    | (Ok _, p) => full_chunks fuel None p | (Err e, p) => (Err e, p) | (Panic, p) => (Panic, p) end
    else (Ok false, (s, out)).
Proof.
  intros Hw. destruct (wf_resampler _ _ _ Hw) as (r & Hr & Hok). destruct (rubato_input _ _ _ Hok) as [Hin _]. cbn [full_chunks].
  unfold mbind, st_mbind, the_resampler, reads, gets. cbn [fst]. rewrite Hr. cbn [ok_or]. rewrite Hin, (wf_buffered _ _ _ Hw).
  destruct (n <=? f); [|done]. by destruct (process_next_chunk None None (s, out)) as [[[]| |] p].
Qed.

Lemma wf_pos n f s : wf n f s -> 0 < n.
Proof. intros [_ _ (r & _ & Hok)]. by destruct (rubato_input _ _ _ Hok). Qed.

(** The loop ends with less than a chunk in the queue, whatever the fuel beyond
    the frames it has. *)
Lemma full_run n f s out : wf n f s ->
  exists s' out', wf n (f mod n) s' /\ advanced 0 s out s' out' /\ forall fuel, f < fuel -> full_chunks fuel None (s, out) = (Ok false, (s', out')).
Proof.
  revert s out. induction (lt_wf f) as [f _ IH]. intros s out Hw. pose proof (wf_pos _ _ _ Hw) as Hn. destruct (Nat.leb_spec n f) as [H|H].
  - destruct (process_run n f s out None None Hw ltac:(done) ltac:(done)) as (s1 & x & Hrun & Hc & Hw1).
    destruct (IH (f - n) ltac:(lia) s1 (out ++ x) Hw1) as (s' & out' & Hw' & Ha & Hf). exists s', out'.
    split; [|split; [by eapply (advanced_trans 0 0); [eapply chunk_advanced|]|]].
    + replace f with (f - n + 1 * n) by lia. by rewrite Nat.Div0.mod_add.
    + intros [|fuel] Hfuel; [lia|]. rewrite (full_chunks_step _ _ _ _ _ Hw), (proj2 (Nat.leb_le n f)) by done. rewrite Hrun. apply Hf. lia.
  - exists s, out. rewrite Nat.mod_small by done. split; [done|]. split; [apply advanced_refl|]. intros [|fuel] Hfuel; [lia|].
    rewrite (full_chunks_step _ _ _ _ _ Hw). by rewrite (proj2 (Nat.leb_gt n f)).
Qed.

(** More samples behind the queue do not change the chunks before them. *)
Lemma full_longer n f g s t v out : wf n f s -> wf n g t -> longer v s t -> length v = CHANNELS (layout s) ->
  exists s' out' t' g', g' <= g /\ wf n (f mod n) s' /\ wf n g' t' /\ longer v s' t' /\ advanced 0 s out s' out' /\ advanced 0 t out t' out' /\
    (forall fuel, f < fuel -> full_chunks fuel None (s, out) = (Ok false, (s', out'))) /\
    forall fuel, g < fuel -> exists fuel', g' < fuel' /\ full_chunks fuel None (t, out) = full_chunks fuel' None (t', out').
Proof.
  revert g s t out. induction (lt_wf f) as [f _ IH]. intros g s t out Hs Ht Hlong Hv. pose proof (wf_pos _ _ _ Hs) as Hn.
  assert (f <= g) as Hfg.
  { destruct (wf_unread _ _ _ Hs) as [Hl1 Hf1], (wf_unread _ _ _ Ht) as [Hl2 Hf2]. destruct Hlong as [_ Hu]. pose proof (channels_pos (layout s)).
    rewrite Hu in Hf2. destruct (unread s) as [|c u], v as [|x v]; cbn in *; try lia. inversion_clear Hf1. inversion_clear Hf2 as [|? ? Hcx _]. rewrite length_app in Hcx. lia. }
  destruct (Nat.leb_spec n f) as [H|H].
  - destruct (process_run n f s out None None Hs ltac:(done) ltac:(done)) as (s1 & x & Hrun & Hc & Hs1).
    destruct (process_run n g t out None None Ht ltac:(done) ltac:(lia)) as (t1 & y & Hrun' & Hc' & Ht1).
    destruct (longer_chunk n f s t v Hs Hlong Hv H) as [Hch Hdrop].
    destruct (chunk_result_det n None None s t s1 t1 x y (proj1 Hlong) Hch Hc Hc') as [<- Hcore].
    assert (longer v s1 t1) as Hl1 by (split; [done|]; by rewrite (cr_unread _ _ _ _ _ _ Hc'), (cr_unread _ _ _ _ _ _ Hc)).
    destruct (IH (f - n) ltac:(lia) (g - n) s1 t1 (out ++ x) Hs1 Ht1 Hl1) as (s' & out' & t' & g' & Hg & Hs' & Ht' & Hl' & Ha & Hb & Hf1 & Hf2).
    { by rewrite (cr_layout _ _ _ _ _ _ Hc). }
    exists s', out', t', g'. split; [lia|]. split; [replace f with (f - n + 1 * n) by lia; by rewrite Nat.Div0.mod_add|]. split; [done|]. split; [done|].
    split; [by eapply (advanced_trans 0 0); [eapply chunk_advanced|]|]. split; [by eapply (advanced_trans 0 0); [eapply chunk_advanced|]|]. split.
    + intros [|fuel] Hfuel; [lia|]. rewrite (full_chunks_step _ _ _ _ _ Hs), (proj2 (Nat.leb_le n f)) by done. rewrite Hrun. apply Hf1. lia.
    + intros [|fuel] Hfuel; [lia|]. destruct (Hf2 fuel ltac:(lia)) as (fuel' & Hfuel' & Hrest). exists fuel'. split; [done|].
      rewrite (full_chunks_step _ _ _ _ _ Ht), (proj2 (Nat.leb_le n g)) by lia. by rewrite Hrun'.
  - exists s, out, t, g. rewrite Nat.mod_small by done. do 4 (split; [done|]). split; [apply advanced_refl|]. split; [apply advanced_refl|]. split; [|by eauto].
    intros [|fuel] Hfuel; [lia|]. rewrite (full_chunks_step _ _ _ _ _ Hs). by rewrite (proj2 (Nat.leb_gt n f)).
Qed.

(** In particular states that differ only in how the buffer is stored. *)
Lemma longer_nil s t : core s = core t -> unread s = unread t -> longer (replicate (length (unread s)) []) s t.
Proof.
  intros Hc Hu. split; [done|]. rewrite <- Hu. clear. induction (unread s) as [|c u IH]; [done|]. cbn. by rewrite app_nil_r, <- IH.
Qed.

(** ** Pushing *)
Fixpoint evens (l : list f32) : list f32 := match l with x :: _ :: l => x :: evens l | [x] => [x] | [] => [] end.
Definition odds (l : list f32) : list f32 := evens (tail l).

(** The channels of interleaved samples. *)
Definition columns (l : ChannelLayout) (source : list f32) : list (list f32) :=
  match l with Mono => [source] | StereoInterleaved => [evens source; odds source] end.

Definition aligned (l : ChannelLayout) (source : list f32) : Prop := length source mod CHANNELS l = 0.

(** Induction over the frames of aligned samples. *)
Lemma pairs_ind (P : list f32 -> Prop) : P [] -> (forall x y l, P l -> P (x :: y :: l)) -> forall l, length l mod 2 = 0 -> P l.
Proof.
  intros H0 HS. assert (forall n l, length l <= n -> length l mod 2 = 0 -> P l) as H; [|by eauto].
  induction n as [|n IH]; intros l Hl Hm; [by destruct l; [|cbn in Hl; lia]|]. destruct l as [|x [|y l]]; [done|done|]. apply HS, IH; [cbn in Hl; lia|].
  cbn [length] in Hm. replace (S (S (length l))) with (length l + 1 * 2) in Hm by lia. by rewrite Nat.Div0.mod_add in Hm.
Qed.

Lemma mono_chunks fuel (l : list f32) : length l <= fuel -> chunks_exact fuel 1 l = (fun x => [x]) <$> l.
Proof. revert l. induction fuel as [|fuel IH]; intros [|x l] H; cbn in *; [done|lia|done|]. rewrite drop_0, take_0. f_equal. apply IH. lia. Qed.

Lemma mono_push (l c : list f32) : push_frames ((fun x => [x]) <$> l) [c] = Ok [c ++ l].
Proof. revert c. induction l as [|x l IH]; intros c; cbn; [by rewrite app_nil_r|]. rewrite IH. by rewrite <- app_assoc. Qed.

Lemma stereo_push l : length l mod 2 = 0 -> forall fuel c d, length l <= fuel ->
  push_frames (chunks_exact fuel 2 l) [c; d] = Ok [c ++ evens l; d ++ odds l].
Proof.
  revert l. apply (pairs_ind (fun l => forall fuel c d, length l <= fuel -> push_frames (chunks_exact fuel 2 l) [c; d] = Ok [c ++ evens l; d ++ odds l])).
  - intros [|fuel] c d _; cbn; by rewrite !app_nil_r.
  - intros x y l IH [|fuel] c d Hf; [cbn in Hf; lia|]. cbn [chunks_exact length Nat.ltb Nat.leb take drop]. rewrite drop_0, take_0. cbn [push_frames push_frame]. cbn.
    rewrite IH by (cbn in Hf; lia). cbn. rewrite <- !app_assoc. do 3 f_equal. destruct l; done.
Qed.

Lemma push_frames_run l source b : length b = CHANNELS l -> aligned l source ->
  push_frames (chunks_exact (length source) (CHANNELS l) source) b = Ok (zip_with app b (columns l source)).
Proof.
  intros Hb Ha. destruct l; cbn [CHANNELS columns] in *.
  - destruct b as [|c [|]]; try done. rewrite mono_chunks by done. by rewrite mono_push.
  - destruct b as [|c [|d [|]]]; try done. by rewrite stereo_push.
Qed.

Lemma evens_app a b : length a mod 2 = 0 -> evens (a ++ b) = evens a ++ evens b /\ odds (a ++ b) = odds a ++ odds b.
Proof.
  revert a. apply (pairs_ind (fun a => evens (a ++ b) = evens a ++ evens b /\ odds (a ++ b) = odds a ++ odds b)); [by split|].
  intros x y a [IH1 IH2]. cbn. rewrite IH1. split; [done|]. unfold odds in *. cbn. destruct a as [|z a]; [by destruct b|]. cbn in *. by rewrite IH2.
Qed.

Lemma columns_app l a b : aligned l a -> columns l (a ++ b) = zip_with app (columns l a) (columns l b).
Proof. intros Ha. destruct l; cbn; [done|]. by destruct (evens_app a b Ha) as [-> ->]. Qed.

Lemma length_evens l : length l mod 2 = 0 -> length (evens l) = length l / 2 /\ length (odds l) = length l / 2.
Proof.
  revert l. apply (pairs_ind (fun l => length (evens l) = length l / 2 /\ length (odds l) = length l / 2)); [done|]. intros x y l [H1 H2].
  replace (length (x :: y :: l)) with (length l + 1 * 2) by (cbn; lia). rewrite Nat.div_add by lia. revert H1 H2. generalize (length l / 2). intros k H1 H2.
  unfold odds in *. destruct l as [|z l]; cbn in *; lia.
Qed.

Lemma columns_ok l source : aligned l source -> length (columns l source) = CHANNELS l /\ Forall (fun c => length c = length source / CHANNELS l) (columns l source).
Proof.
  intros Ha. destruct l; cbn [columns CHANNELS] in *.
  - split; [done|]. repeat constructor. by rewrite Nat.div_1_r.
  - destruct (length_evens source Ha) as [H1 H2]. split; [done|]. by repeat constructor.
Qed.

Definition received (k : nat) (s : StreamingSincResampler) : StreamingSincResampler :=
  with_counts (received_source_frames s + k) (emitted_output_frames s) (trim_output_frames s) s.

Lemma zip_app_lengths (b v : list (list f32)) f g : Forall (fun c => length c = f) b -> Forall (fun c => length c = g) v -> Forall (fun c => length c = f + g) (zip_with app b v).
Proof. intros Hb. revert v. induction Hb as [|c b Hc _ IH]; intros [|d v] Hv; cbn; [constructor..|]. inversion_clear Hv. constructor; [rewrite length_app; lia|auto]. Qed.

Lemma drop_zip_app start (b v : list (list f32)) : Forall (fun c => start <= length c) b -> drop start <$> zip_with app b v = zip_with app (drop start <$> b) v.
Proof. intros Hb. revert v. induction Hb as [|c b Hc _ IH]; intros [|d v]; cbn; [done..|]. by rewrite IH, drop_app_le. Qed.

Lemma validate_aligned source s : aligned (layout s) source -> validate_source_samples source s = Ok (length source / CHANNELS (layout s)).
Proof.
  intros Ha. unfold validate_source_samples, validate_channel_alignment, is_multiple_of. unfold aligned in Ha. pose proof (channels_pos (layout s)).
  rewrite (proj2 (Nat.eqb_neq _ 0)) by lia. destruct (CHANNELS (layout s)); [lia|]. by rewrite Ha.
Qed.

(** What a push does before its loop: the samples go behind the queue. *)
Lemma push_run n f s out source : wf n f s -> resampling_required s = true -> aligned (layout s) source ->
  exists s1, wf n (f + length source / CHANNELS (layout s)) s1 /\ longer (columns (layout s) source) s s1 /\
    received_source_frames s1 = received_source_frames s + length source / CHANNELS (layout s) /\
    forall fuel, push_into fuel source (s, out) =
      match full_chunks fuel None (s1, out) with (Ok _, p) => (Ok (), p) | (Err e, p) => (Err e, p) | (Panic, p) => (Panic, p) end.
Proof.
  intros Hw Hreq Ha. set (k := length source / CHANNELS (layout s)). pose proof (channels_pos (layout s)) as Hpos.
  destruct (compact_ok _ _ _ (with_counts_wf _ _ _ (received_source_frames s + k) (emitted_output_frames s) (trim_output_frames s) Hw)) as [Hw1 Hpl].
  fold (received k s) in Hw1, Hpl. set (s0 := compact_buffered_source (received k s)) in *. apply plain_iff in Hpl as (Hc0 & Hu0 & Hr0).
  assert (layout s0 = layout s) as Hl0 by (unfold core in Hc0; by injection Hc0). destruct (columns_ok (layout s) source Ha) as [Hcl Hcf].
  exists (with_buffer (zip_with app (buffered_source s0) (columns (layout s) source)) (buffered_source_start s0) s0). split; [|split; [|split; [exact Hr0|]]].
  - eapply with_buffer_wf; [exact Hw1| |].
    + rewrite length_zip_with, Hcl, (wf_channels _ _ _ Hw1), Hl0. lia.
    + rewrite Nat.add_assoc. apply zip_app_lengths; [apply (wf_frames _ _ _ Hw1)|exact Hcf].
  - split; [exact (eq_sym Hc0)|]. change (unread s) with (unread (received k s)). rewrite <- Hu0. unfold unread. cbn. apply drop_zip_app. eapply Forall_impl; [apply (wf_frames _ _ _ Hw1)|]. cbn. intros c Hc. lia.
  - intros fuel. unfold push_into, mbind, st_mbind, reads, change, modify, gets. cbn [fst snd]. rewrite (validate_aligned source s Ha). fold k.
    change (resampling_required (with_counts _ _ _ s)) with (resampling_required s). rewrite Hreq.
    unfold append_buffered_source, mbind, st_mbind, reads, change, modify. cbn [fst snd]. fold (received k s). fold s0. rewrite Hl0.
    rewrite push_frames_run; [|by rewrite (wf_channels _ _ _ Hw1), Hl0|done]. cbn [fst snd]. unfold process_available, mbind, st_mbind.
    by destruct (full_chunks fuel None _) as [[[]| |] p].
Qed.

(** ** Pieces *)

(** The two runs of a loop from states that differ only in storage and count of
    received frames. *)
Lemma full_same n f s t out : wf n f s -> wf n f t -> core s = core t -> unread s = unread t ->
  exists s' t' out' f', wf n f' s' /\ wf n f' t' /\ core s' = core t' /\ unread s' = unread t' /\ advanced 0 s out s' out' /\ advanced 0 t out t' out' /\
    forall fuel, f < fuel -> full_chunks fuel None (s, out) = (Ok false, (s', out')) /\ full_chunks fuel None (t, out) = (Ok false, (t', out')).
Proof.
  intros Hs Ht Hc Hu. destruct (wf_unread _ _ _ Hs) as [Hl _].
  destruct (full_run n f t out Ht) as (t2 & o2 & Ht2 & Ha2 & Hr2).
  destruct (full_longer n f f s t (replicate (length (unread s)) []) out Hs Ht) as (s' & out' & t' & g' & Hg & Hs' & Ht' & [Hc' Hu'] & Ha & _ & Hr & Hr').
  { by apply longer_nil. }
  { by rewrite length_replicate. }
  destruct (wf_unread _ _ _ Hs') as [Hl' Hf'].
  assert (unread t' = unread s') as Hut.
  { rewrite Hu'. assert (length (unread s) = length (unread s')) as -> by (by rewrite Hl, Hl', (adv_layout _ _ _ _ _ Ha)). clear. induction (unread s') as [|c u IH]; [done|]. cbn. by rewrite app_nil_r, IH. }
  assert (wf n (f mod n) t') as Ht''.
  { destruct (wf_unread _ _ _ Ht') as [Hlt Hft]. pose proof (channels_pos (layout t')). rewrite Hut in Hlt, Hft. destruct (unread s') as [|c u] eqn:Hus; [cbn in Hlt; lia|].
    inversion_clear Hf'. inversion_clear Hft. by replace (f mod n) with g' by congruence. }
  pose proof (wf_pos _ _ _ Hs) as Hn. assert (f mod n < n) as Hlt by (by apply Nat.mod_upper_bound; lia).
  destruct (Hr' (S f) ltac:(lia)) as (fuel' & Hfuel' & Hrun). rewrite (Hr2 (S f) ltac:(lia)) in Hrun.
  destruct fuel' as [|fuel']; [lia|]. rewrite (full_chunks_step _ _ _ _ _ Ht''), (proj2 (Nat.leb_gt n (f mod n)) Hlt) in Hrun. injection Hrun as -> ->.
  exists s', t', out', (f mod n). do 4 (split; [done|]). split; [done|]. split; [done|]. intros fuel Hfuel. split; [by apply Hr|by apply Hr2].
Qed.

Lemma required_core s t : core s = core t -> layout t = layout s /\ resampling_required t = resampling_required s.
Proof. unfold core, resampling_required. by intros [= -> -> -> _ _ _ _]. Qed.

Lemma advanced_from k s s1 out s' out' : core s = core s1 -> received_source_frames s1 = received_source_frames s + k -> advanced 0 s1 out s' out' -> advanced k s out s' out'.
Proof. unfold core. intros [= H1 H2 H3 H4 H5 H6 H7] Hr [A1 A2 A3 A4]. split; [congruence|congruence|lia|]. by rewrite H1, H6. Qed.

(** A push gives the same on states that differ only in storage. *)
Lemma push_same n f s t out source : wf n f s -> wf n f t -> plain s = plain t -> resampling_required s = true -> aligned (layout s) source ->
  exists s' t' out' f', wf n f' s' /\ wf n f' t' /\ plain s' = plain t' /\ advanced (length source / CHANNELS (layout s)) s out s' out' /\
    forall fuel, f + length source / CHANNELS (layout s) < fuel ->
      push_into fuel source (s, out) = (Ok (), (s', out')) /\ push_into fuel source (t, out) = (Ok (), (t', out')).
Proof.
  intros Hs Ht (Hc & Hu & Hrc)%plain_iff Hreq Ha. destruct (required_core _ _ Hc) as [Hlay Hrt].
  destruct (push_run n f s out source Hs Hreq Ha) as (s1 & Hs1 & [Hc1 Hu1] & Hr1 & Hp1).
  destruct (push_run n f t out source Ht) as (t1 & Ht1 & [Hc2 Hu2] & Hr2 & Hp2); [by rewrite Hrt|by rewrite Hlay|]. rewrite Hlay in *.
  destruct (full_same n _ s1 t1 out Hs1 Ht1) as (s' & t' & out' & f' & Hs' & Ht' & Hc' & Hu' & Hadv & Hadv' & Hr); [congruence|congruence|].
  exists s', t', out', f'. split; [done|]. split; [done|]. split; [|split; [by eapply advanced_from|]].
  - apply plain_iff. split; [done|]. split; [done|]. rewrite (adv_received _ _ _ _ _ Hadv), (adv_received _ _ _ _ _ Hadv'). lia.
  - intros fuel Hfuel. destruct (Hr fuel Hfuel) as [E1 E2]. by rewrite Hp1, Hp2, E1, E2.
Qed.

Lemma aligned_app l a b : aligned l a -> aligned l b -> aligned l (a ++ b) /\ length (a ++ b) / CHANNELS l = length a / CHANNELS l + length b / CHANNELS l.
Proof.
  unfold aligned. pose proof (channels_pos l). rewrite length_app. intros Ha Hb.
  apply Nat.Div0.div_exact in Ha, Hb. set (x := length a / CHANNELS l) in *. set (y := length b / CHANNELS l) in *. rewrite Ha, Hb, <- Nat.mul_add_distr_l, Nat.mul_comm.
  rewrite Nat.Div0.mod_mul, Nat.div_mul by lia. done.
Qed.

(** Pushing samples in two pieces is pushing them at once. *)
Lemma push_split n f s out a b : wf n f s -> resampling_required s = true -> aligned (layout s) a -> aligned (layout s) b ->
  exists s1 out1 s2 t out2 f1 f2, wf n f1 s1 /\ wf n f2 s2 /\ wf n f2 t /\ plain s2 = plain t /\
    forall fuel, f + length (a ++ b) / CHANNELS (layout s) < fuel ->
      push_into fuel a (s, out) = (Ok (), (s1, out1)) /\ push_into fuel b (s1, out1) = (Ok (), (s2, out2)) /\ push_into fuel (a ++ b) (s, out) = (Ok (), (t, out2)).
Proof.
  intros Hs Hreq Ha Hb. destruct (aligned_app _ a b Ha Hb) as [Hab Hlen].
  destruct (push_run n f s out a Hs Hreq Ha) as (sa & Hsa & [Hca Hua] & Hra & Hpa).
  destruct (push_run n f s out (a ++ b) Hs Hreq Hab) as (sab & Hsab & [Hcab Huab] & Hrab & Hpab).
  destruct (required_core _ _ Hca) as [Hlaya Hreqa].
  destruct (full_longer n _ _ sa sab (columns (layout s) b) out Hsa Hsab) as (s1 & out1 & t' & g' & Hg & Hs1 & Ht' & [Hc1 Hu1] & Hadv & Hadvt & Hr & Hr').
  { split; [congruence|]. rewrite Huab, Hua, columns_app by done. clear. generalize (unread s) as u, (columns (layout s) a) as x, (columns (layout s) b) as y.
    induction u as [|c u IH]; intros [|p x] [|q y]; cbn; [done..|]. by rewrite IH, app_assoc. }
  { rewrite Hlaya. by apply columns_ok. }
  assert (layout s1 = layout s) as Hlay1 by (rewrite (adv_layout _ _ _ _ _ Hadv); done).
  assert (resampling_required s1 = true) as Hreq1.
  { rewrite <- Hreq, <- Hreqa. unfold resampling_required. destruct Hadv as [_ HA _ _]. by injection HA as -> -> _. }
  destruct (push_run n _ s1 out1 b Hs1 Hreq1) as (s1b & Hs1b & [Hc1b Hu1b] & Hr1b & Hp1b); [by rewrite Hlay1|]. rewrite Hlay1 in *.
  assert (unread s1b = unread t') as Huu by congruence.
  assert (wf n ((f + length a / CHANNELS (layout s)) mod n + length b / CHANNELS (layout s)) t') as Ht''.
  { destruct (wf_unread _ _ _ Ht') as [Hlt Hft], (wf_unread _ _ _ Hs1b) as [_ Hfs]. rewrite <- Huu in Hlt, Hft. pose proof (channels_pos (layout t')).
    destruct (unread s1b) as [|c u]; [cbn in Hlt; lia|]. inversion_clear Hft as [|? ? E1 _]. inversion_clear Hfs as [|? ? E2 _]. rewrite <- E2, E1. done. }
  assert (g' = (f + length a / CHANNELS (layout s)) mod n + length b / CHANNELS (layout s)) as ->.
  { destruct (wf_buffered _ _ _ Ht'). by rewrite (wf_buffered _ _ _ Ht''). }
  destruct (full_same n _ s1b t' out1 Hs1b Ht'') as (s2 & t & out2 & f2 & Hs2 & Ht2 & Hc2 & Hu2 & Hadv2 & Hadv3 & Hr2); [congruence|done|].
  exists s1, out1, s2, t, out2, ((f + length a / CHANNELS (layout s)) mod n), f2. split; [exact Hs1|]. split; [done|]. split; [done|]. split.
  - apply plain_iff. split; [done|]. split; [done|].
    rewrite (adv_received _ _ _ _ _ Hadv2), (adv_received _ _ _ _ _ Hadv3), (adv_received _ _ _ _ _ Hadvt), Hr1b, (adv_received _ _ _ _ _ Hadv), Hra, Hrab, Hlen. lia.
  - intros fuel Hfuel. rewrite Hlen in Hfuel. rewrite Hpa, (Hr fuel) by lia. split; [done|].
    pose proof (Nat.Div0.mod_le (f + length a / CHANNELS (layout s)) n). rewrite Hp1b, (proj1 (Hr2 fuel ltac:(lia))). split; [done|].
    destruct (Hr' fuel ltac:(lia)) as (fuel' & Hfuel' & Hrun). by rewrite Hpab, Hrun, (proj2 (Hr2 fuel' Hfuel')).
Qed.

(** ** Finishing *)
Lemma process_same n f s t out partial expected : wf n f s -> wf n f t -> core s = core t -> unread s = unread t ->
  (forall v, partial = Some v -> v <= f /\ v <= n) -> (partial = None -> n <= f) ->
  exists s' t' frames, let f' := match partial with None => f - n | Some _ => 0 end in
    process_next_chunk partial expected (s, out) = (Ok (), (s', out ++ frames)) /\ process_next_chunk partial expected (t, out) = (Ok (), (t', out ++ frames)) /\
    wf n f' s' /\ wf n f' t' /\ core s' = core t' /\ unread s' = unread t' /\ received_source_frames t' = received_source_frames t /\
    chunk_result n partial expected s s' frames.
Proof.
  intros Hs Ht Hc Hu Hp Hn. destruct (process_run n f s out partial expected Hs Hp Hn) as (s' & x & Hr & Hcr & Hs').
  destruct (process_run n f t out partial expected Ht Hp Hn) as (t' & y & Hr' & Hcr' & Ht').
  destruct (chunk_result_det n partial expected s t s' t' x y Hc ltac:(by rewrite Hu) Hcr Hcr') as [<- Hc'].
  exists s', t', x. do 5 (split; [done|]). split; [by rewrite (cr_unread _ _ _ _ _ _ Hcr), (cr_unread _ _ _ _ _ _ Hcr'), Hu|]. split; [|done].
  pose proof (cr_rest _ _ _ _ _ _ Hcr') as HR. by injection HR.
Qed.

Lemma full_expected_step fuel e n f s out : wf n f s ->
  full_chunks (S fuel) (Some e) (s, out) =
    if n <=? f then match process_next_chunk None (Some e) (s, out) with
                    | (Ok _, p) => if e <=? emitted_output_frames p.1 then (Ok true, p) else full_chunks fuel (Some e) p
                    | (Err x, p) => (Err x, p) | (Panic, p) => (Panic, p) end
    else (Ok false, (s, out)).
Proof.
  intros Hw. destruct (wf_resampler _ _ _ Hw) as (r & Hr & Hok). destruct (rubato_input _ _ _ Hok) as [Hin _]. cbn [full_chunks].
  unfold mbind, st_mbind, the_resampler, reads, gets. cbn [fst]. rewrite Hr. cbn [ok_or]. rewrite Hin, (wf_buffered _ _ _ Hw).
  destruct (n <=? f); [|done]. destruct (process_next_chunk None (Some e) (s, out)) as [[[]| |] p]; [|done|done]. cbn [reached_expected_output]. by destruct (_ <=? _).
Qed.

(** Runs of both loops to the end, on two states that differ only in storage. *)
Record ends (e : nat) (s t : StreamingSincResampler) (out : list f32) (s' t' : StreamingSincResampler) (out' : list f32) : Prop := {
  ends_core : core s' = core t';
  ends_unread : unread s' = unread t';
  ends_received : received_source_frames t' = received_source_frames t;
  ends_adv : advanced 0 s out s' out';
  ends_emitted : emitted_output_frames s <= emitted_output_frames s' <= Nat.max (emitted_output_frames s) e }.

Lemma ends_trans e s t o s1 t1 o1 s2 t2 o2 : ends e s t o s1 t1 o1 -> ends e s1 t1 o1 s2 t2 o2 -> ends e s t o s2 t2 o2.
Proof.
  intros [C1 U1 R1 A1 E1] [C2 U2 R2 A2 E2]. split; [done|done|congruence|by eapply (advanced_trans 0 0)|lia].
Qed.

Lemma chunk_ends n e partial s t out s' t' frames : chunk_result n partial (Some e) s s' frames -> core s' = core t' -> unread s' = unread t' ->
  received_source_frames t' = received_source_frames t -> ends e s t out s' t' (out ++ frames).
Proof.
  intros Hcr Hc Hu Hr. split; [done|done|done|by eapply chunk_advanced|]. destruct Hcr as [(r & r' & c & w & b & _ & _ & _ & _ & _ & _ & He & _) _ _ _].
  rewrite He. unfold room. lia.
Qed.

Lemma full_expected n e f s t out : wf n f s -> wf n f t -> core s = core t -> unread s = unread t ->
  exists reached s' t' out' f', wf n f' s' /\ wf n f' t' /\ f' <= f /\ ends e s t out s' t' out' /\
    (reached = true -> e <= emitted_output_frames s') /\ (reached = false -> f' < n) /\
    forall fuel, f < fuel -> full_chunks fuel (Some e) (s, out) = (Ok reached, (s', out')) /\ full_chunks fuel (Some e) (t, out) = (Ok reached, (t', out')).
Proof.
  revert s t out. induction (lt_wf f) as [f _ IH]. intros s t out Hs Ht Hc Hu. pose proof (wf_pos _ _ _ Hs) as Hn. destruct (Nat.leb_spec n f) as [H|H].
  - destruct (process_same n f s t out None (Some e) Hs Ht Hc Hu ltac:(done) ltac:(done)) as (s1 & t1 & x & Hr & Hr' & Hs1 & Ht1 & Hc1 & Hu1 & Hrc & Hcr).
    cbv zeta in *. pose proof (chunk_ends _ _ _ _ t out _ _ _ Hcr Hc1 Hu1 Hrc) as He. assert (emitted_output_frames t1 = emitted_output_frames s1) as Hem by (unfold core in Hc1; by injection Hc1).
    destruct (Nat.leb_spec e (emitted_output_frames s1)) as [Hd|Hd].
    + exists true, s1, t1, (out ++ x), (f - n). split; [done|]. split; [done|]. split; [lia|]. split; [done|]. split; [done|]. split; [done|].
      intros [|fuel] Hfuel; [lia|]. rewrite (full_expected_step _ _ _ _ _ _ Hs), (full_expected_step _ _ _ _ _ _ Ht), (proj2 (Nat.leb_le n f)) by done.
      rewrite Hr, Hr'. cbn [fst]. rewrite Hem, (proj2 (Nat.leb_le e _) Hd). done.
    + destruct (IH (f - n) ltac:(lia) s1 t1 (out ++ x) Hs1 Ht1 Hc1 Hu1) as (reached & s' & t' & out' & f' & Hs' & Ht' & Hf' & He' & H1 & H2 & Hrun).
      exists reached, s', t', out', f'. split; [done|]. split; [done|]. split; [lia|]. split; [by eapply ends_trans|]. split; [done|]. split; [done|].
      intros [|fuel] Hfuel; [lia|]. rewrite (full_expected_step _ _ _ _ _ _ Hs), (full_expected_step _ _ _ _ _ _ Ht), (proj2 (Nat.leb_le n f)) by done.
      rewrite Hr, Hr'. cbn [fst]. rewrite Hem, (proj2 (Nat.leb_gt e _) Hd). apply Hrun. lia.
  - exists false, s, t, out, f. do 3 (split; [done|]). split; [split; [done|done|done|apply advanced_refl|lia]|]. split; [done|]. split; [done|].
    intros [|fuel] Hfuel; [lia|]. rewrite (full_expected_step _ _ _ _ _ _ Hs), (full_expected_step _ _ _ _ _ _ Ht), (proj2 (Nat.leb_gt n f)) by done. done.
Qed.

Lemma silent_step fuel e s out :
  silent_chunks (S fuel) e (s, out) =
    if emitted_output_frames s <? e then match process_next_chunk (Some 0) (Some e) (s, out) with
                                         | (Ok _, p) => silent_chunks fuel e p | (Err x, p) => (Err x, p) | (Panic, p) => (Panic, p) end
    else (Ok (), (s, out)).
Proof.
  cbn [silent_chunks]. unfold mbind, st_mbind, gets. cbn [fst]. destruct (_ <? _); [|done]. by destruct (process_next_chunk _ _ _) as [[[]| |] p].
Qed.

(** Silence brings out what is expected: every chunk emits a frame, or uses up
    the delay, or the resampler gets closer to its next frame. *)
Lemma silent_run n e d : forall k i s t out, wf n 0 s -> wf n 0 t -> core s = core t -> unread s = unread t ->
  e - emitted_output_frames s = d -> trim_output_frames s = k -> (forall r, resampler s = Some r -> idle r = i) ->
  exists fuel0 s' t' out', wf n 0 s' /\ ends e s t out s' t' out' /\ e <= emitted_output_frames s' /\
    forall fuel, fuel0 < fuel -> silent_chunks fuel e (s, out) = (Ok (), (s', out')) /\ silent_chunks fuel e (t, out) = (Ok (), (t', out')).
Proof.
  induction (lt_wf d) as [d _ IHd]. intros k. induction (lt_wf k) as [k _ IHk]. intros i. induction (lt_wf i) as [i _ IHi].
  intros s t out Hs Ht Hc Hu Hd Hk Hi. assert (emitted_output_frames t = emitted_output_frames s) as Hem by (unfold core in Hc; by injection Hc).
  destruct (Nat.ltb_spec (emitted_output_frames s) e) as [Hlt|Hge].
  2: { exists 0, s, t, out. split; [done|]. split; [split; [done|done|done|apply advanced_refl|lia]|]. split; [done|]. intros [|fuel] Hfuel; [lia|].
       rewrite !silent_step, Hem, (proj2 (Nat.ltb_ge _ _) Hge). done. }
  destruct (process_same n 0 s t out (Some 0) (Some e) Hs Ht Hc Hu ltac:(by intros v [= <-]; lia) ltac:(done)) as (s1 & t1 & x & Hr & Hr' & Hs1 & Ht1 & Hc1 & Hu1 & Hrc & Hcr).
  cbv zeta in *. pose proof (chunk_ends _ _ _ _ t out _ _ _ Hcr Hc1 Hu1 Hrc) as He1.
  assert (exists fuel0 s' t' out', wf n 0 s' /\ ends e s1 t1 (out ++ x) s' t' out' /\ e <= emitted_output_frames s' /\
    forall fuel, fuel0 < fuel -> silent_chunks fuel e (s1, out ++ x) = (Ok (), (s', out')) /\ silent_chunks fuel e (t1, out ++ x) = (Ok (), (t', out')))
    as (fuel0 & s' & t' & out' & Hs' & He' & Hex & Hrun).
  { destruct Hcr as [(r & r' & c & w & b & Hres & Hres' & _ & Hidle & _ & Htrim & Hemit & _) _ _ _]. cbn [room] in Hemit.
    destruct (decide (emitted_output_frames s1 = emitted_output_frames s)) as [Heq|Hneq].
    - assert (w <= trim_output_frames s) as Hw by lia. destruct (decide (w = 0)) as [->|Hw0].
      + eapply (IHi (idle r')); [by rewrite <- (Hi r Hres); apply Hidle|done|done|done|done|lia|lia|]. intros q Hq. by replace q with r' by congruence.
      + eapply (IHk (trim_output_frames s1) ltac:(lia) (idle r')); [done|done|done|done|lia|done|]. intros q Hq. by replace q with r' by congruence.
    - eapply (IHd (e - emitted_output_frames s1) ltac:(lia) (trim_output_frames s1) (idle r')); [done|done|done|done|done|done|]. intros q Hq. by replace q with r' by congruence. }
  exists (S fuel0), s', t', out'. split; [done|]. split; [by eapply ends_trans|]. split; [done|]. intros [|fuel] Hfuel; [lia|].
  rewrite !silent_step, Hem, (proj2 (Nat.ltb_lt _ _) Hlt), Hr, Hr'. apply Hrun. lia.
Qed.

(** Finishing, on two states that differ only in storage: it ends, and exactly
    the expected frames are out (or those that were out before). *)
Lemma finish_same n f s t out : wf n f s -> wf n f t -> plain s = plain t -> resampling_required s = true ->
  exists fuel0 s' t' out', plain s' = plain t' /\ advanced 0 s out s' out' /\
    emitted_output_frames s' = Nat.max (emitted_output_frames s) (expected_output_frames s) /\
    forall fuel, fuel0 < fuel -> finish_into fuel (s, out) = (Ok (), (s', out')) /\ finish_into fuel (t, out) = (Ok (), (t', out')).
Proof.
  intros Hs Ht (Hc & Hu & Hrc)%plain_iff Hreq. destruct (required_core _ _ Hc) as [Hlay Hrt].
  assert (expected_output_frames t = expected_output_frames s) as Hexp by (unfold expected_output_frames, core in *; rewrite Hrc; by injection Hc as _ _ _ -> _ _ _).
  set (e := expected_output_frames s) in *.
  destruct (full_expected n e f s t out Hs Ht Hc Hu) as (reached & s1 & t1 & out1 & f1 & Hs1 & Ht1 & Hf1 & He1 & H1 & H2 & Hrun1).
  assert (forall fuel p, resampling_required p.1 = true -> expected_output_frames p.1 = e ->
    finish_into fuel p = process_available fuel (Some e) p) as Hfin.
  { intros fuel p HR HE. unfold finish_into, mbind, st_mbind, gets. by rewrite HR, HE. }
  destruct reached.
  - specialize (H1 eq_refl). exists f, s1, t1, out1. split; [apply plain_iff; destruct He1 as [? ? HR HA ?]; split; [done|split; [done|]]; rewrite HR, (adv_received _ _ _ _ _ HA); lia|].
    split; [apply He1|]. split; [pose proof (ends_emitted _ _ _ _ _ _ _ He1); lia|]. intros fuel Hfuel. destruct (Hrun1 fuel Hfuel) as [E1 E2].
    rewrite (Hfin fuel (s, out)), (Hfin fuel (t, out)) by (cbn; first [exact Hexp | reflexivity | congruence]). unfold process_available, mbind, st_mbind. rewrite E1, E2. done.
  - specialize (H2 eq_refl).
    assert (exists s2 t2 out2, wf n 0 s2 /\ wf n 0 t2 /\ ends e s1 t1 out1 s2 t2 out2 /\
      (if 0 <? f1 then process_next_chunk (Some f1) (Some e) else mret ()) (s1, out1) = (Ok (), (s2, out2)) /\
      (if 0 <? f1 then process_next_chunk (Some f1) (Some e) else mret ()) (t1, out1) = (Ok (), (t2, out2))) as (s2 & t2 & out2 & Hs2 & Ht2 & He2 & E3 & E4).
    { destruct (Nat.ltb_spec 0 f1).
      - destruct (process_same n f1 s1 t1 out1 (Some f1) (Some e) Hs1 Ht1 (ends_core _ _ _ _ _ _ _ He1) (ends_unread _ _ _ _ _ _ _ He1) ltac:(by intros v [= <-]; lia) ltac:(done))
          as (s2 & t2 & x & Hr & Hr' & Hs2 & Ht2 & Hc2 & Hu2 & Hrc2 & Hcr). exists s2, t2, (out1 ++ x). do 2 (split; [done|]). split; [by eapply chunk_ends|done].
      - replace f1 with 0 in * by lia. exists s1, t1, out1. do 2 (split; [done|]). split; [|done]. destruct He1 as [C U _ _ _]. split; [done|done|done|apply advanced_refl|lia]. }
    destruct (wf_resampler _ _ _ Hs2) as (r & Hres & _).
    destruct (silent_run n e _ _ (idle r) s2 t2 out2 Hs2 Ht2 (ends_core _ _ _ _ _ _ _ He2) (ends_unread _ _ _ _ _ _ _ He2) eq_refl eq_refl) as (fuel0 & s' & t' & out' & Hs' & He' & Hex & Hrun).
    { intros q Hq. by replace q with r by congruence. }
    assert (ends e s t out s' t' out') as He by (eapply ends_trans; [exact He1|]; by eapply ends_trans).
    exists (Nat.max f fuel0), s', t', out'. split; [apply plain_iff; destruct He as [? ? HR HA ?]; split; [done|split; [done|]]; rewrite HR, (adv_received _ _ _ _ _ HA); lia|].
    split; [apply He|]. split; [pose proof (ends_emitted _ _ _ _ _ _ _ He); lia|]. intros fuel Hfuel. destruct (Hrun1 fuel ltac:(lia)) as [E1 E2], (Hrun fuel ltac:(lia)) as [E5 E6].
    rewrite (Hfin fuel (s, out)), (Hfin fuel (t, out)) by (cbn; first [exact Hexp | reflexivity | congruence]). unfold process_available, mbind, st_mbind, gets. rewrite E1, E2. cbn [fst].
    rewrite (wf_buffered _ _ _ Hs1), (wf_buffered _ _ _ Ht1), E3, E4. done.
Qed.

(** ** A whole stream *)
Fixpoint push_all (fuel : nat) (parts : list (list f32)) : rs () :=
  match parts with [] => mret () | a :: parts => _ ← push_into fuel a; push_all fuel parts end.

(** The pieces of a source one after the other, or the source at once; then the end. *)
Definition resample_parts (fuel : nat) (parts : list (list f32)) : rs () := _ ← push_all fuel parts; finish_into fuel.
Definition resample_whole (fuel : nat) (source : list f32) : rs () := _ ← push_into fuel source; finish_into fuel.

Lemma push_all_snoc fuel parts b p p1 : push_all fuel parts p = (Ok (), p1) -> push_all fuel (parts ++ [b]) p = push_into fuel b p1.
Proof.
  revert p. induction parts as [|a parts IH]; intros p; cbn [push_all app].
  - intros [= <-]. unfold mbind, st_mbind. by destruct (push_into fuel b p) as [[[]| |] p2].
  - unfold mbind, st_mbind. destruct (push_into fuel a p) as [[[]| |] p2]; [apply IH|done|done].
Qed.

Lemma resampler_new_ok l i o chunk s : resampler_new l i o chunk = Ok s ->
  layout s = l /\ ratio s = ratio_of i o /\ received_source_frames s = 0 /\ emitted_output_frames s = 0 /\ resampling_required s = negb (i =? o)%Z /\
  (i ≠ o -> wf chunk 0 s).
Proof.
  unfold resampler_new. rewrite (proj2 (Nat.eqb_neq _ 0)) by (pose proof (channels_pos l); lia). destruct (Nat.eqb_spec chunk 0); [done|].
  destruct (Z.eqb_spec i o) as [->|Hne].
  - cbn [mbind res_mbind]. intros [= <-]. unfold resampling_required. cbn. by rewrite Z.eqb_refl.
  - unfold high_quality_sinc_resampler. destruct (new_sinc (ratio_of i o) chunk (CHANNELS l)) as [e|r] eqn:Hr; [done|]. cbn [mbind res_mbind]. intros [= <-].
    unfold resampling_required. cbn. rewrite (proj2 (Z.eqb_neq i o) Hne). do 5 (split; [done|]). intros _. split; cbn; [by rewrite length_replicate|by apply Forall_replicate|].
    exists r. split; [done|]. eapply new_sinc_ok; [exact Hr|lia].
Qed.

Lemma aligned_join l parts : Forall (aligned l) parts -> aligned l (mjoin parts).
Proof. induction 1 as [|a parts Ha _ IH]; [unfold aligned; cbn; apply Nat.Div0.mod_0_l|]. cbn. by apply aligned_app. Qed.

Lemma push_nothing n f s out : wf n f s -> f < n -> resampling_required s = true ->
  exists t, wf n f t /\ plain s = plain t /\ forall fuel, f < fuel -> push_into fuel [] (s, out) = (Ok (), (t, out)).
Proof.
  intros Hs Hn Hreq. destruct (push_run n f s out [] Hs Hreq) as (t & Ht & [Hc Hu] & Hr & Hp); [unfold aligned; cbn; apply Nat.Div0.mod_0_l|].
  cbn [length] in *. rewrite Nat.Div0.div_0_l, Nat.add_0_r in *. exists t. split; [done|]. split.
  - apply plain_iff. split; [done|]. split; [|done]. rewrite Hu. destruct (wf_unread _ _ _ Hs) as [Hl _].
    destruct (layout s); cbn [CHANNELS columns] in *; destruct (unread s) as [|x [|y [|]]]; try done; cbn; by rewrite ?app_nil_r.
  - intros [|fuel] Hfuel; [lia|]. rewrite Hp, (full_chunks_step _ _ _ _ _ Ht), (proj2 (Nat.leb_gt n f)) by done. done.
Qed.

Lemma pieces_run n s0 parts : wf n 0 s0 -> resampling_required s0 = true -> Forall (aligned (layout s0)) parts ->
  exists F s t out f, wf n f s /\ wf n f t /\ plain s = plain t /\ advanced (length (mjoin parts) / CHANNELS (layout s0)) s0 [] s out /\
    forall fuel, F < fuel -> push_all fuel parts (s0, []) = (Ok (), (s, out)) /\ push_into fuel (mjoin parts) (s0, []) = (Ok (), (t, out)).
Proof.
  intros H0 Hreq. induction parts as [|b parts IH] using rev_ind; intros Hal.
  { destruct (push_nothing n 0 s0 [] H0 ltac:(by eapply wf_pos) Hreq) as (t & Ht & Hpl & Hr). exists 0, s0, t, [], 0. do 3 (split; [done|]).
    split; [cbn; rewrite Nat.Div0.div_0_l; apply advanced_refl|]. intros fuel Hfuel. split; [done|]. by apply Hr. }
  apply Forall_app in Hal as [Hal Hb]. rewrite Forall_singleton in Hb. destruct (IH Hal) as (F & s & t & out & f & Hs & Ht & Hpl & Hadv & Hrun).
  assert (layout s = layout s0) as Hlay by apply Hadv. pose proof (aligned_join _ _ Hal) as Ha.
  assert (resampling_required s = true) as Hreqs by (rewrite <- Hreq; unfold resampling_required; destruct Hadv as [_ HA _ _]; by injection HA as -> -> _).
  destruct (push_same n f s t out b Hs Ht Hpl Hreqs) as (s2 & t2 & out2 & f2 & Hs2 & Ht2 & Hpl2 & Hadv2 & Hrun2); [by rewrite Hlay|]. rewrite Hlay in *.
  destruct (push_split n 0 s0 [] (mjoin parts) b H0 Hreq Ha Hb) as (s1 & out1 & s3 & t3 & out3 & f1 & f3 & Hs1 & Hs3 & Ht3 & Hpl3 & Hrun3).
  destruct (aligned_app _ _ _ Ha Hb) as [Hab Hlen]. rewrite join_app. cbn [mjoin list_join]. rewrite app_nil_r.
  set (F' := Nat.max F (Nat.max (f + length b / CHANNELS (layout s0)) (0 + length (mjoin parts ++ b) / CHANNELS (layout s0)))).
  assert (forall fuel, F' < fuel -> s3 = t2 /\ out3 = out2) as Heq.
  { intros fuel Hfuel. destruct (Hrun fuel ltac:(lia)) as [_ E1], (Hrun3 fuel ltac:(lia)) as (E2 & E3 & _), (Hrun2 fuel ltac:(lia)) as [_ E4]. rewrite E1 in E2.
    injection E2 as <- <-. rewrite E4 in E3. by injection E3 as <- <-. }
  destruct (Heq (S F') ltac:(lia)) as [-> ->]. assert (f3 = f2) as -> by (rewrite <- (wf_buffered _ _ _ Hs3); by apply (wf_buffered _ _ _ Ht2)).
  exists F', s2, t3, out2, f2. split; [done|]. split; [done|]. split; [congruence|]. split; [rewrite Hlen; by eapply advanced_trans|].
  intros fuel Hfuel. destruct (Hrun fuel ltac:(lia)) as [E1 _], (Hrun3 fuel ltac:(lia)) as (_ & _ & E3), (Hrun2 fuel ltac:(lia)) as [E4 _].
  split; [|done]. by rewrite (push_all_snoc _ _ _ _ _ E1).
Qed.

(** ** Methods only append to their output *)
Definition appends {A} (m : rs A) : Prop := forall s out, m (s, out) = let '(r, (s', o)) := m (s, []) in (r, (s', out ++ o)).

Lemma appends_bind {A C} (m : rs A) (f : A -> rs C) : appends m -> (forall a, appends (f a)) -> appends (m ≫= f).
Proof.
  intros Hm Hf s out. unfold mbind, st_mbind. rewrite Hm. destruct (m (s, [])) as [[a|e|] [s1 o1]]; [|done|done].
  rewrite (Hf a s1 (out ++ o1)), (Hf a s1 o1). destruct (f a (s1, [])) as [r [s2 o2]]. by rewrite app_assoc.
Qed.

Lemma appends_fst {A} (g : StreamingSincResampler -> R A * StreamingSincResampler) : appends (fun p => ((g p.1).1, ((g p.1).2, p.2))).
Proof. intros s out. cbn. by rewrite app_nil_r. Qed.

Lemma appends_panic {A} : appends (A := A) (fun p => (Panic, p)).
Proof. intros s out. by rewrite app_nil_r. Qed.

Lemma appends_emit n : forall i expected bufs, appends (emit_frames i n expected bufs).
Proof.
  induction n as [|n IH]; intros i expected bufs s out; cbn [emit_frames fst snd]; [cbn; by rewrite app_nil_r|].
  destruct (reached_expected_output expected s); [by rewrite app_nil_r|]. destruct (output_frame i _) as [x|e|]; [|by rewrite app_nil_r..].
  rewrite IH, (IH _ _ _ _ ([] ++ x)). destruct (emit_frames (S i) n expected bufs _) as [r [s1 o]]. by rewrite app_assoc.
Qed.

Ltac appends_simple := intros ??; unfold the_resampler, change, reads, gets, modify, mret, st_mret, run_resampler; cbn [fst snd]; repeat case_match; by rewrite ?app_nil_r.
Ltac appends_run := repeat first [apply appends_panic | apply appends_emit | apply appends_bind; [|intros] | case_match; [..] | appends_simple].

Lemma appends_chunk partial expected : appends (process_next_chunk partial expected).
Proof. unfold process_next_chunk, append_output_samples. appends_run. Qed.

Lemma appends_full fuel expected : appends (full_chunks fuel expected).
Proof. induction fuel as [|fuel IH]; cbn [full_chunks]; [apply appends_panic|]. repeat first [exact IH | apply appends_chunk | appends_run]. Qed.

Lemma appends_silent fuel expected : appends (silent_chunks fuel expected).
Proof. induction fuel as [|fuel IH]; cbn [silent_chunks]; [apply appends_panic|]. repeat first [exact IH | apply appends_chunk | appends_run]. Qed.

Lemma appends_available fuel expected : appends (process_available fuel expected).
Proof. unfold process_available. repeat first [apply appends_full | apply appends_silent | apply appends_chunk | appends_run]. Qed.

Lemma appends_push fuel x : appends (push_into fuel x).
Proof. unfold push_into, append_buffered_source. repeat first [apply appends_available | apply appends_full | appends_run]. Qed.

Lemma appends_finish fuel : appends (finish_into fuel).
Proof. unfold finish_into. repeat first [apply appends_available | apply appends_full | apply appends_silent | apply appends_chunk | appends_run]. Qed.

(** A run that starts with some output adds what it adds to none. *)
Lemma appends_run_nil {A} (m : rs A) s out r s' out' : appends m -> m (s, out) = (r, (s', out')) -> exists o, m (s, []) = (r, (s', o)) /\ out' = out ++ o.
Proof. intros Hm. rewrite Hm. destruct (m (s, [])) as [r1 [s1 o]]. intros [= <- <- <-]. by exists o. Qed.

(** Without a change of rate the samples go through. *)
Lemma same_rate_push s out a : resampling_required s = false -> aligned (layout s) a ->
  exists s', (forall fuel, push_into fuel a (s, out) = (Ok (), (s', out ++ a))) /\ layout s' = layout s /\ resampling_required s' = false.
Proof.
  intros Hreq Ha. unfold push_into, mbind, st_mbind, reads, change, modify, gets. cbn [fst snd]. rewrite (validate_aligned _ _ Ha).
  change (resampling_required (with_counts _ _ _ s)) with (resampling_required s). rewrite Hreq. eexists. split; [intros fuel; reflexivity|]. done.
Qed.

Lemma same_rate_all parts s out : resampling_required s = false -> Forall (aligned (layout s)) parts ->
  exists s', (forall fuel, push_all fuel parts (s, out) = (Ok (), (s', out ++ mjoin parts))) /\ resampling_required s' = false.
Proof.
  revert s out. induction parts as [|a parts IH]; intros s out Hreq; [intros _; exists s; cbn; by rewrite app_nil_r|]. intros [Ha Hp]%Forall_cons.
  destruct (same_rate_push s out a Hreq Ha) as (s1 & Hr & Hl & Hreq1). destruct (IH s1 (out ++ a) Hreq1) as (s' & Hr' & Hreq'); [by rewrite Hl|].
  exists s'. split; [|done]. intros fuel. cbn [push_all]. rewrite (st_bind_run _ _ _ _ _ (Hr fuel)), Hr'. cbn. by rewrite app_assoc.
Qed.

(** [resampling_in_pieces] for its users. *)
Lemma pieces_and_whole l i o chunk s0 parts :
  resampler_new l i o chunk = Ok s0 -> Forall (aligned l) parts ->
  exists fuel0 s t out, (forall fuel, fuel0 < fuel ->
      resample_parts fuel parts (s0, []) = (Ok (), (s, out)) /\ resample_whole fuel (mjoin parts) (s0, []) = (Ok (), (t, out))) /\
    if (i =? o)%Z then out = mjoin parts
    else Forall clamped out /\ exists frames, length out = CHANNELS l * frames /\
      Z.to_nat (f64_ceil_as_usize (f64_mul (ratio_of i o) (f64_of_int (Z.of_nat (length (mjoin parts) / CHANNELS l))))) <= frames.
Proof.
  intros Hnew Hal. destruct (resampler_new_ok l i o chunk s0 Hnew) as (<- & Hrat & Hrec & Hem & Hreq & Hwf). destruct (Z.eqb_spec i o) as [->|Hne]; cbn [negb] in Hreq.
  - destruct (same_rate_all parts s0 [] Hreq Hal) as (s & Hs & Hreqs), (same_rate_push s0 [] (mjoin parts) Hreq (aligned_join _ _ Hal)) as (t & Ht & _ & Hreqt).
    exists 0, s, t, (mjoin parts). split; [|done]. intros fuel _. unfold resample_parts, resample_whole. rewrite (st_bind_run _ _ _ _ _ (Hs fuel)), (st_bind_run _ _ _ _ _ (Ht fuel)).
    unfold finish_into, mbind, st_mbind, gets. cbn [fst]. by rewrite Hreqs, Hreqt.
  - specialize (Hwf Hne). destruct (pieces_run chunk s0 parts Hwf Hreq Hal) as (F & s1 & t1 & out1 & f & Hs1 & Ht1 & Hpl & Hadv & Hrun).
    destruct (finish_same chunk f s1 t1 out1 Hs1 Ht1 Hpl) as (F2 & s & t & out & Hpl2 & Hadv2 & Hemit & Hrun2).
    { rewrite <- Hreq. unfold resampling_required. destruct Hadv as [_ HA _ _]. by injection HA as -> -> _. }
    exists (Nat.max F F2), s, t, out. split.
    + intros fuel Hfuel. destruct (Hrun fuel ltac:(lia)) as [E1 E2], (Hrun2 fuel ltac:(lia)) as [E3 E4]. unfold resample_parts, resample_whole.
      rewrite (st_bind_run _ _ _ _ _ E1), (st_bind_run _ _ _ _ _ E2). done.
    + destruct Hadv as [L1 R1 C1 (x & -> & Ux & X1)], Hadv2 as [L2 R2 C2 (y & -> & Uy & Y1)]. rewrite Hem in X1. split; [by apply Forall_app|]. exists (emitted_output_frames s).
      split; [rewrite !length_app; rewrite L1 in Y1; cbn; lia|]. rewrite Hemit. unfold expected_output_frames. injection R1 as _ _ ->. rewrite Hrat, C1, Hrec. cbn [Nat.add]. lia.
Qed.

(** C25. Resampling does not depend on how the source is cut.  A source that arrives
    in pieces (of whole frames) gives the same samples as the source at once:
    both runs end without an error.  With equal rates they are the source, as it
    is; with different rates they are whole frames of clamped samples (within
    [-1, 1], or NaN where the resampling library gives NaN), at least as many as
    the source stands for at the new rate. *)
Theorem resampling_in_pieces l i o chunk s0 parts :
  resampler_new l i o chunk = Ok s0 -> Forall (aligned l) parts ->
  exists fuel0 s t out, (forall fuel, fuel0 < fuel ->
      resample_parts fuel parts (s0, []) = (Ok (), (s, out)) /\ resample_whole fuel (mjoin parts) (s0, []) = (Ok (), (t, out))) /\
    if (i =? o)%Z then out = mjoin parts
    else Forall clamped out /\ exists frames, length out = CHANNELS l * frames /\
      Z.to_nat (f64_ceil_as_usize (f64_mul (ratio_of i o) (f64_of_int (Z.of_nat (length (mjoin parts) / CHANNELS l))))) <= frames.
Proof. apply pieces_and_whole. Qed.

End Resampler.

(** A resampler that returns every chunk as it is, with a delay of one frame. *)
Module ResamplerSamples.
#[export] Instance copy_rubato : Rubato := {|
  resampler_t := nat;
  new_sinc := fun _ chunk _ => inr chunk;
  input_frames_next := fun r => r;
  output_frames_next := fun r => r;
  output_delay := fun _ => 1;
  process_into_buffer := fun input _ _ r => (inr (r, r, input), r) |}.

#[export, refine] Instance copy_rubato_laws : RubatoLaws copy_rubato := {|
  rubato_ok := fun chunk _ r => r = chunk /\ 0 < chunk;
  idle := fun _ => 0 |}.
Proof.
  - by intros ratio chunk ch r [= ->] H.
  - by intros chunk ch r [-> H].
  - intros chunk ch r input partial [-> H] Hl Hf Hp. exists chunk, chunk, input, chunk. cbn. do 6 (split; [done|]). lia.
Defined.

Definition seven : f32 := f32_of_int 7.

Definition new_stream : StreamingSincResampler := match resampler_new StereoInterleaved 24000 48000 3 with Ok s => s | _ => {| layout := Mono; input_sample_rate_hz := 1;
  output_sample_rate_hz := 1; ratio := f32_zero; resampler := None; buffered_source := []; buffered_source_start := 0; received_source_frames := 0;
  emitted_output_frames := 0; trim_output_frames := 0 |} end.

Definition stereo_parts : list (list f32) := [replicate 2 seven; replicate 8 f32_one; []; replicate 4 f32_minus_one].

Lemma resampling_in_pieces_witness :
  exists fuel0 s t out, (forall fuel, fuel0 < fuel ->
      resample_parts fuel stereo_parts (new_stream, []) = (Ok (), (s, out)) /\ resample_whole fuel (mjoin stereo_parts) (new_stream, []) = (Ok (), (t, out))) /\
    if (24000 =? 48000)%Z then out = mjoin stereo_parts
    else Forall clamped out /\ exists frames, length out = 2 * frames /\
      Z.to_nat (f64_ceil_as_usize (f64_mul (ratio_of 24000 48000) (f64_of_int (Z.of_nat (length (mjoin stereo_parts) / 2))))) <= frames.
Proof. apply (resampling_in_pieces StereoInterleaved 24000 48000 3 new_stream stereo_parts); [reflexivity|]. by repeat constructor. Defined.

(** Fourteen frames are expected of the seven, of which the delay cuts one off. *)
Lemma sample_length : match resample_whole 20 (mjoin stereo_parts) (new_stream, []) with (Ok _, (_, out)) => length out = 28 | _ => False end.
Proof. vm_compute. reflexivity. Qed.
End ResamplerSamples.
End Resampler.
