(* ===== verification/PcmEncoder.v ===== *)
(** * From PCM to Opus packets (cacophony/src/opus.rs)

    [PacketEncoder] encodes one block of 20 ms; [PcmEncoder] turns a source of
    any rate into interleaved stereo at 48 kHz, cuts it into blocks and hands
    each to the packet encoder, keeping the rest for the next push;
    [DynamicPcmEncoder] picks the encoding and layout from the first chunk, and
    [PlaybackAudio] encodes a list of chunks.

    The opus-rs encoder is the class [RawOpus], rubato the class [Rubato].  The
    vectors that are cleared before every use ([source_samples],
    [resampled_samples], [discord_samples]) are values of the method that fills
    them.  Debug assertions are panics. *)

From Stdlib Require Import SpecFloat.
From stdpp Require Import strings.
From S2P Require Import Prelude Effects IeeeFloat Pcm Resampler OpusPacket.
Import IeeeFloat Pcm Resampler.
#[local] Open Scope nat_scope.

Module PcmEncode.

Definition OPUS_CHANNELS : nat := 2.
Definition DISCORD_RATE : Z := OpusPacket.SAMPLE_RATE_HZ.
Definition FRAMES_PER_BLOCK : nat := Z.to_nat OpusPacket.SAMPLES_PER_CHANNEL.
Definition STEREO_SAMPLES_PER_BLOCK : nat := OPUS_CHANNELS * FRAMES_PER_BLOCK.
Definition DEFAULT_BITRATE_BPS : Z := 128000.

Inductive OpusOperation := CreateEncoder | EncodeFrame.

(** The errors these operations return, of [PcmError], [OpusError] and [InvalidInputError]. *)
Inductive EncodeError :=
| InPcm (e : PcmError)
| OperationFailed (operation : OpusOperation) (reason : string)
| UnsupportedChannelCount (channels : nat)
| PcmBlockSampleCount (expected actual : nat)
| PcmBlockFrameCount (expected actual : nat)
| DiscordPcmMixedSampleRates (existing actual : Z)
| DiscordPcmMixedChannelCounts (existing actual : nat)
| DiscordPcmMixedEncoding
| DiscordPcmEncoderUninitialized
| OpusBitrateTooLarge (bitrate_bps : Z)
| OpusOutputBufferTooSmall (min_len len : nat).

Abbreviation ER := (res EncodeError).

Inductive Application := Voip | Audio | RestrictedLowDelay.

Record EncodeConfig := { application : Application; bitrate_bps : Z; cbr : bool }.

Definition default_config : EncodeConfig := {| application := Audio; bitrate_bps := DEFAULT_BITRATE_BPS; cbr := true |}.

(** [opus_rs::OpusEncoder]: [new], the two fields that are set, and [encode],
    which writes to the given buffer and returns how many bytes. *)
Class RawOpus := {
  opus_t : Type;
  opus_new : Z -> nat -> Application -> string + opus_t;
  set_bitrate : Z -> opus_t -> opus_t;
  set_cbr : bool -> opus_t -> opus_t;
  opus_encode : list f32 -> nat -> bytes -> opus_t -> (string + nat) * bytes * opus_t }.

(** A stereo encoder at 48 kHz turns 20 ms of audio into one packet of 20 ms,
    which fits a buffer of [MAX_PACKET_BYTES]. *)
Class RawOpusLaws (RO : RawOpus) := {
  stereo_encoder : opus_t -> Prop;
  opus_new_ok app o b c : opus_new DISCORD_RATE OPUS_CHANNELS app = inr o -> stereo_encoder (set_cbr c (set_bitrate b o));
  opus_encode_ok o block buffer : stereo_encoder o -> length block = STEREO_SAMPLES_PER_BLOCK -> OpusPacket.MAX_PACKET_BYTES <= length buffer ->
    exists written buffer' o', opus_encode block FRAMES_PER_BLOCK buffer o = (inr written, buffer', o') /\ stereo_encoder o' /\
      written <= length buffer' /\ OpusPacket.validate_packet_bytes (take written buffer') = Ok () }.

Section PcmEncoder.
Context {RO : RawOpus} {B : Rubato}.

(** ** Blocks *)
Record PcmFrame := { frame_samples : list f32 }.
Record PcmBlock := { block_samples : list f32 }.

(** [PcmFrame::from_stereo_interleaved] *)
Definition frame_from_stereo_interleaved (s : list f32) : ER PcmFrame :=
  if length s =? STEREO_SAMPLES_PER_BLOCK then Ok {| frame_samples := s |} else Err (PcmBlockSampleCount STEREO_SAMPLES_PER_BLOCK (length s)).

(** [PcmBlock::from_stereo_interleaved] *)
Definition block_from_stereo_interleaved (s : list f32) : ER PcmBlock :=
  if length s =? STEREO_SAMPLES_PER_BLOCK then Ok {| block_samples := s |} else Err (PcmBlockSampleCount STEREO_SAMPLES_PER_BLOCK (length s)).

Definition from_48khz (l : ChannelLayout) (e : SampleEncoding) (s : samples e) : ER PcmBlock :=
  '(frames, stereo) ← map_err InPcm (append_stereo_interleaved_from_source l e s []);
  if frames =? FRAMES_PER_BLOCK then block_from_stereo_interleaved stereo else Err (PcmBlockFrameCount FRAMES_PER_BLOCK frames).

Definition as_frame (b : PcmBlock) : PcmFrame := {| frame_samples := block_samples b |}.

(** ** One packet *)
Record PacketEncoder := { raw_encoder : opus_t }.

(** [PacketEncoder::new] *)
Definition packet_encoder_new (config : EncodeConfig) : ER PacketEncoder :=
  match opus_new DISCORD_RATE OPUS_CHANNELS (application config) with
  | inl reason => Err (OperationFailed CreateEncoder reason)
  | inr encoder =>
      if (bitrate_bps config <? 2 ^ 31)%Z then Ok {| raw_encoder := set_cbr (cbr config) (set_bitrate (bitrate_bps config) encoder) |}
      else Err (OpusBitrateTooLarge (bitrate_bps config))
  end.

Definition encode_frame_to_slice (frame : PcmFrame) (output : bytes) (enc : PacketEncoder) : ER nat * bytes * PacketEncoder :=
  if length output <? OpusPacket.MAX_PACKET_BYTES then (Err (OpusOutputBufferTooSmall OpusPacket.MAX_PACKET_BYTES (length output)), output, enc)
  else
    let '(r, output, o) := opus_encode (frame_samples frame) FRAMES_PER_BLOCK output (raw_encoder enc) in
    (match r with inl reason => Err (OperationFailed EncodeFrame reason) | inr written => Ok written end, output, {| raw_encoder := o |}).

(** [Vec::resize] *)
Definition resize_bytes (n : nat) (l : bytes) : bytes := take n l ++ replicate (n - length l) 0%Z.

Definition encode_frame_into (frame : PcmFrame) (output : bytes) (enc : PacketEncoder) : ER nat * bytes * PacketEncoder :=
  let '(r, output, enc) := encode_frame_to_slice frame (resize_bytes OpusPacket.MAX_PACKET_BYTES output) enc in
  match r with Ok written => (Ok written, take written output, enc) | _ => (r, output, enc) end.

(** [Packet::from_encoder_bytes] *)
Definition from_encoder_bytes (b : bytes) : ER OpusPacket.Packet :=
  match OpusPacket.validate_packet_bytes b with Ok _ => Ok {| OpusPacket.packet_bytes := b |} | _ => Panic end.

Definition encode_frame (frame : PcmFrame) : st PacketEncoder EncodeError OpusPacket.Packet := fun enc =>
  let '(r, b, enc) := encode_frame_into frame [] enc in (_ ← r; from_encoder_bytes b, enc).

(** [PacketEncoder::encode], [encode_into], [encode_to_slice] *)
Definition encode (block : PcmBlock) : st PacketEncoder EncodeError OpusPacket.Packet := encode_frame (as_frame block).
Definition encode_into (block : PcmBlock) (output : bytes) (enc : PacketEncoder) : ER nat * bytes * PacketEncoder := encode_frame_into (as_frame block) output enc.
Definition encode_to_slice (block : PcmBlock) (output : bytes) (enc : PacketEncoder) : ER nat * bytes * PacketEncoder :=
  encode_frame_to_slice (as_frame block) output enc.

(** ** Where packets go *)

(** [PacketSink]: the closure is called once; what it captured comes back. *)
Class PacketSink (T : Type) := sink_packet : forall {A}, (bytes -> ER nat * bytes * A) -> T -> ER () * T * A.

#[export] Instance vec_sink : PacketSink (list OpusPacket.Packet) := fun A encode l =>
  let '(written, b, a) := encode [] in
  match written with
  | Ok n =>
      if n =? length b then match from_encoder_bytes b with Ok p => (Ok (), l ++ [p], a) | Err e => (Err e, l, a) | Panic => (Panic, l, a) end
      else (Panic, l, a)
  | Err e => (Err e, l, a)
  | Panic => (Panic, l, a)
  end.

#[export] Instance batch_sink : PacketSink OpusPacket.PacketBatch := fun A encode b => OpusPacket.encode_packet encode b.

(** What a sink promises: a packet that is encoded goes behind the ones it holds. *)
Class PacketSinkLaws (T : Type) `{PacketSink T} := {
  holds : T -> list bytes -> Prop;
  sink_packet_ok {A} (encode : bytes -> ER nat * bytes * A) s outs b a : holds s outs -> encode [] = (Ok (length b), b, a) ->
    OpusPacket.validate_packet_bytes b = Ok () -> exists s', sink_packet encode s = (Ok (), s', a) /\ holds s' (outs ++ [b]) }.

(** ** A stream of samples *)
Record PcmEncoder := {
  enc_input_rate : Z;
  enc_resampler : StreamingSincResampler;
  packet_encoder : PacketEncoder;
  pending_stereo_samples : list f32;
  emitted_packets : nat }.

Definition source_block_frames (rate : Z) : nat := Nat.max (Z.to_nat (rate * OpusPacket.BLOCK_DURATION_MS / 1000)) 1.

(** [PcmEncoder::new] *)
Definition pcm_encoder_new (l : ChannelLayout) (rate : Z) (config : EncodeConfig) : ER PcmEncoder :=
  r ← map_err InPcm (resampler_new l rate DISCORD_RATE (source_block_frames rate));
  p ← packet_encoder_new config;
  Ok {| enc_input_rate := rate; enc_resampler := r; packet_encoder := p; pending_stereo_samples := []; emitted_packets := 0 |}.

Definition enc_resampling_required (s : PcmEncoder) : bool := resampling_required (enc_resampler s).
Definition pending_samples_per_channel (s : PcmEncoder) : nat := length (pending_stereo_samples s) / OPUS_CHANNELS.

Definition with_stream (r : StreamingSincResampler) (s : PcmEncoder) : PcmEncoder :=
  {| enc_input_rate := enc_input_rate s; enc_resampler := r; packet_encoder := packet_encoder s;
     pending_stereo_samples := pending_stereo_samples s; emitted_packets := emitted_packets s |}.
Definition with_packet_encoder (p : PacketEncoder) (s : PcmEncoder) : PcmEncoder :=
  {| enc_input_rate := enc_input_rate s; enc_resampler := enc_resampler s; packet_encoder := p;
     pending_stereo_samples := pending_stereo_samples s; emitted_packets := emitted_packets s |}.
Definition with_pending (x : list f32) (s : PcmEncoder) : PcmEncoder :=
  {| enc_input_rate := enc_input_rate s; enc_resampler := enc_resampler s; packet_encoder := packet_encoder s;
     pending_stereo_samples := x; emitted_packets := emitted_packets s |}.
Definition one_more (s : PcmEncoder) : PcmEncoder :=
  {| enc_input_rate := enc_input_rate s; enc_resampler := enc_resampler s; packet_encoder := packet_encoder s;
     pending_stereo_samples := pending_stereo_samples s; emitted_packets := emitted_packets s + 1 |}.

Section Sink.
Context {T : Type} {K : PacketSink T}.

(** Methods with a sink. *)
Definition es (A : Type) : Type := st (PcmEncoder * T) EncodeError A.

Definition own (f : PcmEncoder -> PcmEncoder) : es () := modify (fun p => (f p.1, p.2)).

(** [sink.encode_packet(|bytes| packet_encoder.encode_frame_into(frame, bytes))] *)
Definition sink_frame (frame : PcmFrame) : es () := fun p =>
  let '(r, sink, enc) := sink_packet (fun b => encode_frame_into frame b (packet_encoder p.1)) p.2 in (r, (with_packet_encoder enc p.1, sink)).

Definition encode_stereo_frame (discord : list f32) (start stop : nat) : es () :=
  s ← lift (slice discord start stop);
  frame ← lift (frame_from_stereo_interleaved s);
  _ ← sink_frame frame;
  own one_more.

Definition encode_pending_block : es () :=
  pending ← gets (fun p => pending_stereo_samples p.1);
  frame ← lift (frame_from_stereo_interleaved pending);
  _ ← sink_frame frame;
  _ ← own (with_pending []);
  own one_more.

(** The part that fills the pending block; the offset after it. *)
Definition fill_pending (discord : list f32) : es nat :=
  pending ← gets (fun p => pending_stereo_samples p.1);
  match pending with
  | [] => mret 0
  | _ =>
      if STEREO_SAMPLES_PER_BLOCK <? length pending then fun p => (Panic, p)
      else
        let available := Nat.min (STEREO_SAMPLES_PER_BLOCK - length pending) (length discord) in
        let pending := pending ++ take available discord in
        _ ← own (with_pending pending);
        _ ← (if length pending =? STEREO_SAMPLES_PER_BLOCK then encode_pending_block else mret ());
        mret available
  end.

(** The loop over whole blocks; the offset after it. *)
Fixpoint whole_blocks (fuel : nat) (discord : list f32) (offset : nat) : es nat :=
  match fuel with
  | O => fun p => (Panic, p)
  | S fuel =>
      if STEREO_SAMPLES_PER_BLOCK <=? length discord - offset then
        _ ← encode_stereo_frame discord offset (offset + STEREO_SAMPLES_PER_BLOCK);
        whole_blocks fuel discord (offset + STEREO_SAMPLES_PER_BLOCK)
      else mret offset
  end.

Definition encode_discord_samples (discord : list f32) : es () :=
  offset ← fill_pending discord;
  offset ← whole_blocks (S (length discord)) discord offset;
  rest ← lift (slice discord offset (length discord));
  own (fun s => with_pending (pending_stereo_samples s ++ rest) s).

Definition encode_resampled (l : ChannelLayout) (resampled : list f32) : es () :=
  match resampled with
  | [] => mret ()
  | _ => '(_, discord) ← lift (map_err InPcm (append_stereo_interleaved l resampled [])); encode_discord_samples discord
  end.

(** A call of the resampler that appends to the cleared [resampled_samples]. *)
Definition resampled_by (m : rs ()) : es (list f32) := fun p =>
  let '(r, (s, out)) := m (enc_resampler p.1, []) in (_ ← map_err InPcm r; Ok out, (with_stream s p.1, p.2)).

Definition push_to (fuel : nat) (l : ChannelLayout) (e : SampleEncoding) (s : samples e) : es nat :=
  before ← gets (fun p => emitted_packets p.1);
  required ← gets (fun p => enc_resampling_required p.1);
  let emitted := gets (fun p => emitted_packets p.1 - before) in
  if required : bool then
    '(_, source) ← lift (map_err InPcm (append_source_f32 l e s []));
    match source with
    | [] => mret 0
    | _ =>
        resampled ← resampled_by (push_into fuel source);
        _ ← encode_resampled l resampled;
        emitted
    end
  else
    '(_, discord) ← lift (map_err InPcm (append_stereo_interleaved_from_source l e s []));
    _ ← encode_discord_samples discord;
    emitted.

Definition finish_to (fuel : nat) (l : ChannelLayout) : es nat :=
  before ← gets (fun p => emitted_packets p.1);
  required ← gets (fun p => enc_resampling_required p.1);
  _ ← (if required : bool then resampled ← resampled_by (finish_into fuel); encode_resampled l resampled else mret ());
  pending ← gets (fun p => pending_stereo_samples p.1);
  _ ← match pending with
      | [] => mret ()
      | _ => _ ← own (with_pending (resize STEREO_SAMPLES_PER_BLOCK pending)); encode_pending_block
      end;
  gets (fun p => emitted_packets p.1 - before).
End Sink.

(** The methods that collect into a new vector or batch. *)
Definition collect {T A} (empty : T) (m : es (T := T) A) : st PcmEncoder EncodeError T := fun s =>
  let '(r, (s, sink)) := m (s, empty) in (_ ← r; Ok sink, s).

Definition push_packets fuel l e (s : samples e) : st PcmEncoder EncodeError (list OpusPacket.Packet) := collect [] (push_to fuel l e s).
Definition push_packet_batch fuel l e (s : samples e) : st PcmEncoder EncodeError OpusPacket.PacketBatch := collect OpusPacket.batch_new (push_to fuel l e s).
Definition finish_packets fuel l : st PcmEncoder EncodeError (list OpusPacket.Packet) := collect [] (finish_to fuel l).
Definition finish_packet_batch fuel l : st PcmEncoder EncodeError OpusPacket.PacketBatch := collect OpusPacket.batch_new (finish_to fuel l).

Definition encode_all fuel l e (rate : Z) (s : samples e) (config : EncodeConfig) : ER (list OpusPacket.Packet) :=
  enc ← pcm_encoder_new l rate config; (collect [] (_ ← push_to fuel l e s; finish_to fuel l) enc).1.
Definition encode_all_batch fuel l e (rate : Z) (s : samples e) (config : EncodeConfig) : ER OpusPacket.PacketBatch :=
  enc ← pcm_encoder_new l rate config; (collect OpusPacket.batch_new (_ ← push_to fuel l e s; finish_to fuel l) enc).1.

(** ** Chunks of a format known at run time *)
Inductive DynamicPcmLayoutEncoder :=
| DynF32Le (encoder : PcmEncoder)
| DynS16Le (encoder : PcmEncoder)
| DynMuLaw (encoder : PcmEncoder)
| DynALaw (encoder : PcmEncoder).

Inductive DynamicPcmEncoderInner :=
| DynMono (encoder : DynamicPcmLayoutEncoder)
| DynStereo (encoder : DynamicPcmLayoutEncoder).

(** [DynamicPcmLayoutEncoder::new] *)
Definition layout_encoder_new (l : ChannelLayout) (f : PcmFormat) : ER DynamicPcmLayoutEncoder :=
  match encoding f with
  | PcmF32Le => enc ← pcm_encoder_new l (sample_rate_hz f) default_config; Ok (DynF32Le enc)
  | PcmS16Le => enc ← pcm_encoder_new l (sample_rate_hz f) default_config; Ok (DynS16Le enc)
  | PcmMuLaw => enc ← pcm_encoder_new l (sample_rate_hz f) default_config; Ok (DynMuLaw enc)
  | PcmALaw => enc ← pcm_encoder_new l (sample_rate_hz f) default_config; Ok (DynALaw enc)
  end.

(** [DynamicPcmEncoderInner::new] *)
Definition inner_new (f : PcmFormat) : ER DynamicPcmEncoderInner :=
  match channels f with
  | 1 => enc ← layout_encoder_new Mono f; Ok (DynMono enc)
  | 2 => enc ← layout_encoder_new StereoInterleaved f; Ok (DynStereo enc)
  | n => Err (UnsupportedChannelCount n)
  end.

(** [DynamicPcmLayoutEncoder::visit] *)
Definition layout_visit {A} (visitor : PcmEncoding -> PcmEncoder -> A * PcmEncoder) (d : DynamicPcmLayoutEncoder) : A * DynamicPcmLayoutEncoder :=
  match d with
  | DynF32Le enc => let '(a, enc) := visitor PcmF32Le enc in (a, DynF32Le enc)
  | DynS16Le enc => let '(a, enc) := visitor PcmS16Le enc in (a, DynS16Le enc)
  | DynMuLaw enc => let '(a, enc) := visitor PcmMuLaw enc in (a, DynMuLaw enc)
  | DynALaw enc => let '(a, enc) := visitor PcmALaw enc in (a, DynALaw enc)
  end.

(** [DynamicPcmEncoderInner::visit] *)
Definition inner_visit {A} (visitor : ChannelLayout -> PcmEncoding -> PcmEncoder -> A * PcmEncoder) (d : DynamicPcmEncoderInner) : A * DynamicPcmEncoderInner :=
  match d with
  | DynMono d => let '(a, d) := layout_visit (visitor Mono) d in (a, DynMono d)
  | DynStereo d => let '(a, d) := layout_visit (visitor StereoInterleaved) d in (a, DynStereo d)
  end.

Definition layout_resampling_required (d : DynamicPcmLayoutEncoder) : bool :=
  match d with DynF32Le enc | DynS16Le enc | DynMuLaw enc | DynALaw enc => enc_resampling_required enc end.
Definition inner_resampling_required (d : DynamicPcmEncoderInner) : bool :=
  match d with DynMono d | DynStereo d => layout_resampling_required d end.

Record DynamicPcmEncoder := { source_format : option PcmFormat; source_pcm_bytes : nat; dyn_encoder : option DynamicPcmEncoderInner }.

(** [DynamicPcmEncoder::new] *)
Definition dynamic_new : DynamicPcmEncoder := {| source_format := None; source_pcm_bytes := 0; dyn_encoder := None |}.

Definition accept_format (f : PcmFormat) : st DynamicPcmEncoder EncodeError () := fun d =>
  match source_format d with
  | None =>
      let d := {| source_format := Some f; source_pcm_bytes := source_pcm_bytes d; dyn_encoder := dyn_encoder d |} in
      match inner_new f with
      | Ok enc => (Ok (), {| source_format := source_format d; source_pcm_bytes := source_pcm_bytes d; dyn_encoder := Some enc |})
      | Err e => (Err e, d)
      | Panic => (Panic, d)
      end
  | Some existing =>
      (if decide (existing = f) then Ok ()
       else if negb (sample_rate_hz existing =? sample_rate_hz f)%Z then Err (DiscordPcmMixedSampleRates (sample_rate_hz existing) (sample_rate_hz f))
       else if negb (channels existing =? channels f) then Err (DiscordPcmMixedChannelCounts (channels existing) (channels f))
       else Err DiscordPcmMixedEncoding, d)
  end.

Definition dynamic_resampling_required (d : DynamicPcmEncoder) : bool :=
  match dyn_encoder d with Some enc => inner_resampling_required enc | None => false end.
Definition source_sample_rate_hz (d : DynamicPcmEncoder) : Z := match source_format d with Some f => sample_rate_hz f | None => DISCORD_RATE end.
Definition source_channel_count (d : DynamicPcmEncoder) : nat := match source_format d with Some f => channels f | None => 1 end.

Section Dynamic.
Context {T : Type} {K : PacketSink T}.

(** A visitor that runs a method of the encoder with the sink. *)
Definition visiting {A} (m : ChannelLayout -> PcmEncoding -> es (T := T) A) : st (DynamicPcmEncoder * T) EncodeError A := fun p =>
  match dyn_encoder p.1 with
  | None => (Err DiscordPcmEncoderUninitialized, p)
  | Some d =>
      let '((r, sink), d) := inner_visit (fun l e enc => let '(r, (enc, sink)) := m l e (enc, p.2) in ((r, sink), enc)) d in
      (r, ({| source_format := source_format p.1; source_pcm_bytes := source_pcm_bytes p.1; dyn_encoder := Some d |}, sink))
  end.

Definition push_chunk_to (fuel : nat) (c : PcmChunk) : st (DynamicPcmEncoder * T) EncodeError nat :=
  _ ← (fun p => let '(r, d) := accept_format (format c) p.1 in (r, (d, p.2)));
  _ ← modify (fun p => ({| source_format := source_format p.1; source_pcm_bytes := source_pcm_bytes p.1 + length (chunk_data c); dyn_encoder := dyn_encoder p.1 |}, p.2));
  visiting (fun l e => push_to fuel l (visit_encoding e) (byte_samples e (chunk_data c))).

(** [DynamicPcmEncoder::finish_to] *)
Definition dynamic_finish_to (fuel : nat) : st (DynamicPcmEncoder * T) EncodeError nat :=
  encoder ← gets (fun p => dyn_encoder p.1);
  match encoder with Some _ => visiting (fun l _ => finish_to fuel l) | None => mret 0 end.

Fixpoint push_chunks (fuel : nat) (l : list PcmChunk) : st (DynamicPcmEncoder * T) EncodeError () :=
  match l with [] => mret () | c :: l => _ ← push_chunk_to fuel c; push_chunks fuel l end.
End Dynamic.

Definition dynamic_collect {T A} (empty : T) (m : st (DynamicPcmEncoder * T) EncodeError A) : st DynamicPcmEncoder EncodeError T := fun d =>
  let '(r, (d, sink)) := m (d, empty) in (_ ← r; Ok sink, d).

Definition push_chunk fuel c : st DynamicPcmEncoder EncodeError (list OpusPacket.Packet) := dynamic_collect [] (push_chunk_to fuel c).
Definition push_chunk_batch fuel c : st DynamicPcmEncoder EncodeError OpusPacket.PacketBatch := dynamic_collect OpusPacket.batch_new (push_chunk_to fuel c).
Definition dynamic_finish fuel : st DynamicPcmEncoder EncodeError (list OpusPacket.Packet) := dynamic_collect [] (dynamic_finish_to fuel).
Definition finish_batch fuel : st DynamicPcmEncoder EncodeError OpusPacket.PacketBatch := dynamic_collect OpusPacket.batch_new (dynamic_finish_to fuel).

(** ** Audio to play *)
Record PlaybackAudioSource := { src_sample_rate_hz : Z; src_channel_count : Z; pcm_bytes : nat }.
Record PlaybackAudio := { packets : list OpusPacket.Packet; source : PlaybackAudioSource }.

(** [PlaybackAudio::from_chunks] *)
Definition from_chunks (fuel : nat) (chunks : list PcmChunk) : ER PlaybackAudio :=
  match (_ ← push_chunks fuel chunks; dynamic_finish_to fuel) (dynamic_new, []) with
  | (Ok _, (d, l)) =>
      if (source_sample_rate_hz d =? 0)%Z || (source_channel_count d =? 0) || (2 ^ 32 <=? Z.of_nat (source_channel_count d))%Z then Panic
      else Ok {| packets := l;
                 source := {| src_sample_rate_hz := source_sample_rate_hz d; src_channel_count := Z.of_nat (source_channel_count d); pcm_bytes := source_pcm_bytes d |} |}
  | (Err e, _) => Err e
  | (Panic, _) => Panic
  end.

Definition from_mono_samples (fuel : nat) (s : list f32) (src : PlaybackAudioSource) : ER PlaybackAudio :=
  l ← encode_all fuel Mono F32 (src_sample_rate_hz src) s default_config; Ok {| packets := l; source := src |}.

End PcmEncoder.
End PcmEncode.
