(* ===== verification/PcmEncoderSpec.v ===== *)
(** * What the PCM encoder emits (cacophony/src/opus.rs)

    The stereo samples at 48 kHz of everything pushed are cut into blocks of
    20 ms, in order, the last filled with silence, and every block becomes one
    packet.  How the source was cut into pushes, and which sink collects the
    packets, makes no difference. *)

From stdpp Require Import strings.
From S2P Require Import Prelude Effects IeeeFloat Pcm Resampler OpusPacket PcmEncoder.
Import IeeeFloat Pcm Resampler PcmEncode.
#[local] Open Scope nat_scope.

Module PcmEncoderSpec.

Section Spec.
Context {RO : RawOpus} {OL : RawOpusLaws RO} {B : Rubato} {BL : RubatoLaws B}.

Abbreviation BLK := STEREO_SAMPLES_PER_BLOCK.

Lemma blk_pos : 0 < BLK.
Proof. apply Nat.ltb_lt. vm_compute. reflexivity. Qed.

(** ** The reference *)

(** Blocks of a stream of samples, the last filled with silence. *)
Fixpoint blocks (fuel : nat) (x : list f32) : list (list f32) :=
  match fuel, x with S fuel, _ :: _ => resize BLK x :: blocks fuel (drop BLK x) | _, _ => [] end.
Definition stereo_blocks (x : list f32) : list (list f32) := blocks (length x) x.

(** The packet of a block, and of a list of blocks. *)
Definition block_packet (b : list f32) (o : opus_t) : bytes * opus_t :=
  let '(r, buffer, o) := opus_encode b FRAMES_PER_BLOCK (replicate OpusPacket.MAX_PACKET_BYTES 0%Z) o in
  (match r with inr written => take written buffer | inl _ => [] end, o).

Fixpoint block_packets (l : list (list f32)) (o : opus_t) : list bytes * opus_t :=
  match l with [] => ([], o) | b :: l => let '(p, o) := block_packet b o in let '(ps, o) := block_packets l o in (p :: ps, o) end.

(** Both channels of the samples of a layout. *)
Definition stereo (l : ChannelLayout) (x : list f32) : list f32 := match l with Mono => doubled x | StereoInterleaved => x end.

Lemma block_packets_app a b o : block_packets (a ++ b) o = ((block_packets a o).1 ++ (block_packets b (block_packets a o).2).1, (block_packets b (block_packets a o).2).2).
Proof.
  revert o. induction a as [|x a IH]; intros o; cbn [block_packets app fst snd]; [apply surjective_pairing|].
  destruct (block_packet x o) as [p o1]. rewrite IH. destruct (block_packets a o1). done.
Qed.

Lemma length_block_packets l o : length (block_packets l o).1 = length l.
Proof. revert o. induction l as [|b l IH]; intros o; [done|]. cbn [block_packets]. destruct (block_packet b o) as [p o1]. specialize (IH o1). destruct (block_packets l o1). cbn in *. by f_equal. Qed.

(** ** Cutting *)

(** [x] is whole blocks [bs] and a rest [r] of less than a block. *)
Definition cut (x : list f32) (bs : list (list f32)) (r : list f32) : Prop := x = mjoin bs ++ r /\ Forall (fun b => length b = BLK) bs /\ length r < BLK.

Lemma cut_nil : cut [] [] [].
Proof. split; [done|]. split; [constructor|apply blk_pos]. Qed.

Lemma cut_app x bs r y bs' r' : cut x bs r -> cut (r ++ y) bs' r' -> cut (x ++ y) (bs ++ bs') r'.
Proof.
  intros (-> & Hb & _) (Hy & Hb' & Hr'). split; [|split; [by apply Forall_app|done]]. rewrite <- app_assoc, Hy, join_app. by rewrite app_assoc.
Qed.

Lemma resize_block (b : list f32) rest : length b = BLK -> resize BLK (b ++ rest) = b.
Proof.
  intros Hb. unfold resize. rewrite take_app_le, take_ge by lia. rewrite length_app. replace (BLK - _) with 0 by lia. by rewrite app_nil_r.
Qed.

Definition padded_rest (r : list f32) : list (list f32) := match r with [] => [] | _ => [resize BLK r] end.

Lemma blocks_cut bs : forall fuel r, Forall (fun b => length b = BLK) bs -> length r < BLK -> length (mjoin bs ++ r) <= fuel ->
  blocks fuel (mjoin bs ++ r) = bs ++ padded_rest r.
Proof.
  pose proof blk_pos as Hpos. induction bs as [|b bs IH]; intros fuel r Hb Hr Hf.
  - cbn [mjoin list_join app] in *. destruct r as [|x r]; [by destruct fuel|]. destruct fuel as [|fuel]; [cbn in Hf; lia|]. cbn [blocks padded_rest].
    rewrite drop_ge by (cbn [length] in *; lia). by destruct fuel.
  - apply Forall_cons in Hb as [Hlb Hb]. cbn beta in Hlb. change (mjoin (b :: bs)) with (b ++ mjoin bs) in *. rewrite <- app_assoc in *. rewrite length_app in Hf.
    destruct fuel as [|fuel]; [lia|]. destruct (b ++ mjoin bs ++ r) as [|y l] eqn:Hl; [apply (f_equal length) in Hl; rewrite length_app, Hlb in Hl; cbn [length] in Hl; lia|].
    cbn [blocks]. rewrite <- Hl, resize_block, drop_app_length' by done. cbn [app]. f_equal. apply IH; [done|done|lia].
Qed.

Lemma stereo_blocks_cut x bs r : cut x bs r -> stereo_blocks x = bs ++ padded_rest r.
Proof. intros (-> & Hb & Hr). by apply blocks_cut. Qed.

(** ** Encoding blocks *)
Context {T : Type} {K : PacketSink T} {KL : PacketSinkLaws T}.
Variables (o0 : opus_t) (outs0 : list bytes).

(** The blocks [bs] have been encoded. *)
Record encoded (bs : list (list f32)) (p : PcmEncoder * T) : Prop := {
  enc_state : raw_encoder (packet_encoder p.1) = (block_packets bs o0).2;
  enc_stereo : stereo_encoder (raw_encoder (packet_encoder p.1));
  enc_held : holds p.2 (outs0 ++ (block_packets bs o0).1);
  enc_count : emitted_packets p.1 = length bs }.

Lemma sink_frame_run bs p b : encoded bs p -> length b = BLK ->
  exists p', sink_frame {| frame_samples := b |} p = (Ok (), p') /\ encoded (bs ++ [b]) (one_more p'.1, p'.2) /\
    enc_resampler p'.1 = enc_resampler p.1 /\ pending_stereo_samples p'.1 = pending_stereo_samples p.1.
Proof.
  intros [Hst Hse Hh Hc] Hb. destruct p as [s sink]. cbn [fst snd] in *.
  destruct (opus_encode_ok _ b (replicate OpusPacket.MAX_PACKET_BYTES 0%Z) Hse Hb) as (w & buf & o' & He & Hse' & Hw & Hv); [by rewrite length_replicate|].
  assert (resize_bytes OpusPacket.MAX_PACKET_BYTES [] = replicate OpusPacket.MAX_PACKET_BYTES 0%Z) as Hrs by (unfold resize_bytes; rewrite take_nil; cbn [length app]; by rewrite Nat.sub_0_r).
  assert (encode_frame_into {| frame_samples := b |} [] (packet_encoder s) = (Ok w, take w buf, {| raw_encoder := o' |})) as Hf.
  { unfold encode_frame_into, encode_frame_to_slice. rewrite Hrs, length_replicate, Nat.ltb_irrefl. cbn [frame_samples]. by rewrite He. }
  destruct (sink_packet_ok (fun b0 => encode_frame_into {| frame_samples := b |} b0 (packet_encoder s)) sink _ (take w buf) {| raw_encoder := o' |} Hh) as (sink' & Hs & Hh').
  { rewrite Hf. by rewrite length_take, Nat.min_l by lia. }
  { done. }
  unfold sink_frame. cbn [fst snd]. rewrite Hs. eexists. split; [reflexivity|]. split; [|done].
  assert (block_packets (bs ++ [b]) o0 = ((block_packets bs o0).1 ++ [take w buf], o')) as Hbp.
  { rewrite block_packets_app. cbn [block_packets]. unfold block_packet. rewrite <- Hst, He. done. }
  split; cbn [fst snd one_more packet_encoder emitted_packets with_packet_encoder raw_encoder].
  - by rewrite Hbp.
  - done.
  - rewrite Hbp. cbn [fst]. by rewrite app_assoc.
  - rewrite length_app. cbn. lia.
Qed.

Lemma frame_ok b : length b = BLK -> frame_from_stereo_interleaved b = Ok {| frame_samples := b |}.
Proof. intros Hb. unfold frame_from_stereo_interleaved. by rewrite Hb, Nat.eqb_refl. Qed.

Lemma stereo_frame_run bs p pre b post : encoded bs p -> length b = BLK ->
  exists p', encode_stereo_frame (pre ++ b ++ post) (length pre) (length pre + BLK) p = (Ok (), p') /\ encoded (bs ++ [b]) p' /\
    enc_resampler p'.1 = enc_resampler p.1 /\ pending_stereo_samples p'.1 = pending_stereo_samples p.1.
Proof.
  intros Hp Hb. destruct (sink_frame_run bs p b Hp Hb) as (p1 & Hr & He & Hs & Hpe). exists (one_more p1.1, p1.2). split; [|done].
  unfold encode_stereo_frame, mbind, st_mbind, lift. rewrite (slice_app pre b post) by lia. rewrite (frame_ok b Hb), Hr. done.
Qed.

Lemma pending_block_run bs p : encoded bs p -> length (pending_stereo_samples p.1) = BLK ->
  exists p', encode_pending_block p = (Ok (), p') /\ encoded (bs ++ [pending_stereo_samples p.1]) p' /\
    enc_resampler p'.1 = enc_resampler p.1 /\ pending_stereo_samples p'.1 = [].
Proof.
  intros Hp Hb. destruct (sink_frame_run bs p _ Hp Hb) as (p1 & Hr & He & Hs & Hpe). exists (one_more (with_pending [] p1.1), p1.2).
  split; [|split; [by destruct He|done]]. unfold encode_pending_block, mbind, st_mbind, lift, gets. rewrite (frame_ok _ Hb), Hr. done.
Qed.

(** ** The stream of samples so far *)
Record at_stream (x : list f32) (bs : list (list f32)) (p : PcmEncoder * T) : Prop := {
  as_cut : cut x bs (pending_stereo_samples p.1);
  as_encoded : encoded bs p }.

Lemma fill_run x bs p y : at_stream x bs p ->
  exists p' bs1 a z, fill_pending y p = (Ok (length a), p') /\ y = a ++ z /\ at_stream (x ++ a) (bs ++ bs1) p' /\ (pending_stereo_samples p'.1 = [] \/ z = []) /\
    enc_resampler p'.1 = enc_resampler p.1.
Proof.
  intros [Hcut He]. unfold fill_pending, mbind at 1, st_mbind at 1, gets. destruct (pending_stereo_samples p.1) as [|v r0] eqn:Hpend.
  { exists p, [], [], y. split; [done|]. split; [done|]. rewrite !app_nil_r. split; [split; [by rewrite Hpend|done]|]. auto. }
  set (r := v :: r0) in *. pose proof Hcut as (_ & _ & Hr). rewrite (proj2 (Nat.ltb_ge _ _)) by lia.
  set (av := Nat.min (BLK - length r) (length y)). set (a := take av y).
  assert (length a = av) as Ha by (unfold a; rewrite length_take; lia).
  assert (encoded bs (with_pending (r ++ a) p.1, p.2)) as He1 by (by destruct He).
  unfold own, modify, mbind, st_mbind. cbn [fst snd].
  destruct (Nat.eqb_spec (length (r ++ a)) BLK) as [Hfull|Hnot].
  - destruct (pending_block_run bs _ He1) as (p' & Hrun & He' & Hres & Hp'); [done|]. rewrite Hrun. exists p', [r ++ a], a, (drop av y). rewrite Ha.
    split; [done|]. split; [unfold a; by rewrite take_drop|]. split; [|split; [by left|done]]. split; [|done]. rewrite Hp'. eapply cut_app; [exact Hcut|].
    split; [cbn; by rewrite !app_nil_r|]. split; [by apply Forall_singleton|apply blk_pos].
  - rewrite length_app in Hnot. exists (with_pending (r ++ a) p.1, p.2), [], a, []. rewrite Ha. assert (av = length y) as Hav by lia.
    assert (a = y) as -> by (unfold a; apply take_ge; lia). split; [done|]. split; [by rewrite app_nil_r|]. split; [|split; [by right|done]]. split; [|by rewrite app_nil_r].
    rewrite app_nil_r. cbn [fst with_pending pending_stereo_samples]. rewrite <- (app_nil_r bs). eapply cut_app; [exact Hcut|]. split; [done|]. split; [constructor|]. rewrite length_app. lia.
Qed.

Lemma whole_run fuel : forall bs p pre post, encoded bs p -> length post < fuel ->
  exists p' bs1 r, whole_blocks fuel (pre ++ post) (length pre) p = (Ok (length (pre ++ mjoin bs1)), p') /\ cut post bs1 r /\ encoded (bs ++ bs1) p' /\
    enc_resampler p'.1 = enc_resampler p.1 /\ pending_stereo_samples p'.1 = pending_stereo_samples p.1.
Proof.
  pose proof blk_pos as Hpos. induction fuel as [|fuel IH]; intros bs p pre post He Hf; [lia|]. cbn [whole_blocks].
  rewrite length_app. replace (length pre + length post - length pre) with (length post) by lia. destruct (Nat.leb_spec BLK (length post)) as [Hle|Hlt].
  - destruct (stereo_frame_run bs p pre (take BLK post) (drop BLK post) He) as (p1 & Hr & He1 & Hs1 & Hp1); [rewrite length_take; lia|].
    rewrite take_drop in Hr. rewrite (st_bind_run _ _ _ _ _ Hr). specialize (IH _ p1 (pre ++ take BLK post) (drop BLK post) He1).
    rewrite <- app_assoc, take_drop, length_app, length_take, Nat.min_l in IH by done.
    destruct IH as (p' & bs1 & r & Hrun & Hc & He' & Hs & Hp); [rewrite length_drop; lia|]. exists p', (take BLK post :: bs1), r. rewrite Hrun, <- app_assoc.
    split; [done|]. split; [|rewrite <- app_assoc in He'; split; [done|split; congruence]]. destruct Hc as (Hd & Hb & Hr'). split; [|split; [|done]].
    + change (mjoin (take BLK post :: bs1)) with (take BLK post ++ mjoin bs1). by rewrite <- app_assoc, <- Hd, take_drop.
    + constructor; [rewrite length_take; lia|done].
  - exists p, [], post. cbn [mjoin list_join]. rewrite !app_nil_r. split; [done|]. split; [|done]. split; [done|]. split; [constructor|done].
Qed.

(** Samples that arrive go behind the stream. *)
Lemma discord_run x bs p y : at_stream x bs p ->
  exists p' bs1, encode_discord_samples y p = (Ok (), p') /\ at_stream (x ++ y) (bs ++ bs1) p' /\ enc_resampler p'.1 = enc_resampler p.1.
Proof.
  intros Has. destruct (fill_run x bs p y Has) as (p1 & bs1 & a & z & Hf & -> & [Hc1 He1] & Hor & Hs1).
  destruct (whole_run (S (length (a ++ z))) (bs ++ bs1) p1 a z He1) as (p2 & bs2 & r & Hw & Hc2 & He2 & Hs2 & Hp2); [rewrite length_app; lia|].
  unfold encode_discord_samples. rewrite (st_bind_run _ _ _ _ _ Hf), (st_bind_run _ _ _ _ _ Hw). destruct Hc2 as (Hz & Hb & Hr).
  unfold mbind, st_mbind, lift. assert (slice (E := EncodeError) (a ++ z) (length (a ++ mjoin bs2)) (length (a ++ z)) = Ok r) as ->.
  { rewrite Hz, app_assoc. apply slice_app_r; [done|]. by rewrite length_app. }
  exists (with_pending (pending_stereo_samples p2.1 ++ r) p2.1, p2.2), (bs1 ++ bs2). split; [done|]. split; [|cbn; congruence]. rewrite (app_assoc bs), (app_assoc x).
  split; [|by destruct He2]. cbn [fst with_pending pending_stereo_samples]. rewrite Hp2. destruct Hor as [Hor| ->].
  - rewrite Hor in *. by eapply cut_app.
  - symmetry in Hz. apply app_nil in Hz as [Hz ->]. destruct bs2 as [|b bs2]; [by rewrite !app_nil_r|]. apply Forall_cons in Hb as [Hb _]. pose proof blk_pos.
    apply app_nil in Hz as [-> _]. cbn [length] in Hb. lia.
Qed.

(** What is left at the end fills a last block. *)
Lemma last_block_run before x bs p : at_stream x bs p ->
  exists p', (pending ← gets (fun p => pending_stereo_samples p.1);
              _ ← match pending with [] => mret () | _ => _ ← own (with_pending (resize BLK pending)); encode_pending_block end;
              gets (fun p => emitted_packets p.1 - before)) p = (Ok (length (stereo_blocks x) - before), p') /\ encoded (stereo_blocks x) p'.
Proof.
  intros [Hcut He]. rewrite (stereo_blocks_cut _ _ _ Hcut). unfold mbind, st_mbind, gets. destruct (pending_stereo_samples p.1) as [|v r] eqn:Hp.
  - exists p. cbn [padded_rest]. rewrite app_nil_r. split; [|done]. change ((Ok (E := EncodeError) (emitted_packets p.1 - before), p) = (Ok (length bs - before), p)). by rewrite (enc_count _ _ He).
  - destruct Hcut as (_ & _ & Hr). assert (length (resize BLK (v :: r)) = BLK) as Hl by (unfold resize; rewrite length_app, length_take, length_replicate; lia).
    destruct (pending_block_run bs (with_pending (resize BLK (v :: r)) p.1, p.2)) as (p' & Hrun & He' & _ & Hp'); [by destruct He|done|].
    unfold own, modify. rewrite Hrun. exists p'. cbn [padded_rest]. split; [|done]. by rewrite (enc_count _ _ He').
Qed.

(** ** Sources *)
Lemma stereo_app l a b : stereo l (a ++ b) = stereo l a ++ stereo l b.
Proof. destruct l; [apply doubled_app|done]. Qed.

Lemma aligned_iff l x : aligned l x <-> validate_channel_alignment (CHANNELS l) (length x) = Ok ().
Proof. unfold aligned, validate_channel_alignment, is_multiple_of. destruct l; cbn [CHANNELS Nat.eqb]; match goal with |- context [(?a =? 0)] => destruct (Nat.eqb_spec a 0) end; split; congruence. Qed.

Lemma aligned_rest l a b : aligned l a -> aligned l (a ++ b) -> aligned l b.
Proof.
  unfold aligned. rewrite length_app. rewrite !Nat.Lcm0.mod_divide. intros Ha Hab. exact (Nat.divide_add_cancel_r _ _ _ Ha Hab).
Qed.

Lemma source_ok l e (s : samples e) n src : append_source_f32 l e s [] = Ok (n, src) -> aligned l src.
Proof.
  pose proof (append_count e s []) as Hc. destruct l; cbn [append_source_f32]; [intros _; unfold aligned; cbn [CHANNELS]; apply Nat.mod_1_r|].
  destruct (sample_count e s) as [k|err|]; [|done|done]. destruct Hc as (x & -> & _ & Hx). cbn [mbind res_mbind app].
  destruct (validate_channel_alignment 2 k) as [[]|err|] eqn:Hv; [|done|done]. intros [= _ <-]. apply aligned_iff. by rewrite Hx.
Qed.

Lemma stereo_of_source l x : aligned l x -> exists n, append_stereo_interleaved l x [] = Ok (n, stereo l x).
Proof. intros Hx%aligned_iff. destruct l; cbn [append_stereo_interleaved]; [by eexists|]. cbn [CHANNELS] in Hx. rewrite Hx. by eexists. Qed.

Lemma stereo_from l e (s : samples e) n src : append_source_f32 l e s [] = Ok (n, src) -> exists k, append_stereo_interleaved_from_source l e s [] = Ok (k, stereo l src).
Proof.
  intros Hs. rewrite stereo_source_eq, Hs. cbn [mbind res_mbind]. apply stereo_of_source. by eapply source_ok.
Qed.

(** What was pushed, as samples of the source's layout. *)
Definition reads_as (l : ChannelLayout) (e : SampleEncoding) (s : samples e) (src : list f32) : Prop := exists n, append_source_f32 l e s [] = Ok (n, src).

(** Pushing one part after another, then the end. *)
Fixpoint push_parts (fuel : nat) (l : ChannelLayout) (e : SampleEncoding) (parts : list (samples e)) : es (T := T) () :=
  match parts with [] => mret () | s :: parts => _ ← push_to fuel l e s; push_parts fuel l e parts end.

Lemma push_parts_snoc fuel l e parts s p p1 : push_parts fuel l e parts p = (Ok (), p1) ->
  push_parts fuel l e (parts ++ [s]) p = (_ ← push_to fuel l e s; mret ()) p1.
Proof.
  revert p. induction parts as [|a parts IH]; intros p; cbn [push_parts app]; [by intros [= <-]|].
  unfold mbind, st_mbind. destruct (push_to fuel l e a p) as [[n| |] p2]; [apply IH|done|done].
Qed.

Lemma with_stream_at x bs p r : at_stream x bs p -> at_stream x bs (with_stream r p.1, p.2).
Proof. by intros [Hc [H1 H2 H3 H4]]. Qed.

(** Resampled samples become stereo and go behind the stream. *)
Lemma resampled_run l x bs p y : at_stream (stereo l x) bs p -> aligned l y ->
  exists p' bs', encode_resampled l y p = (Ok (), p') /\ at_stream (stereo l (x ++ y)) bs' p' /\ enc_resampler p'.1 = enc_resampler p.1.
Proof.
  intros Hat Hy. destruct y as [|v y]; [exists p, bs; by rewrite app_nil_r|]. destruct (stereo_of_source l (v :: y) Hy) as [n Hn].
  destruct (discord_run _ _ _ (stereo l (v :: y)) Hat) as (p' & bs1 & Hr & Hat' & Hs). exists p', (bs ++ bs1). rewrite stereo_app. split; [|done].
  unfold encode_resampled, mbind, st_mbind, lift. rewrite Hn. done.
Qed.

Lemma push_same_rate l e (s : samples e) src x bs p : enc_resampling_required p.1 = false -> at_stream (stereo l x) bs p -> reads_as l e s src ->
  exists p' bs', (forall fuel, (_ ← push_to fuel l e s; mret ()) p = (Ok (), p')) /\ at_stream (stereo l (x ++ src)) bs' p' /\ enc_resampler p'.1 = enc_resampler p.1.
Proof.
  intros Hreq Hat [n Hn]. destruct (stereo_from l e s n src Hn) as [k Hk]. destruct (discord_run _ _ _ (stereo l src) Hat) as (p' & bs1 & Hr & Hat' & Hs).
  exists p', (bs ++ bs1). rewrite stereo_app. split; [|done]. intros fuel. unfold push_to, mbind, st_mbind, gets, lift. rewrite Hreq, Hk. cbn [map_err]. by rewrite Hr.
Qed.

Lemma push_nothing_to l e (s : samples e) p : enc_resampling_required p.1 = true -> reads_as l e s [] ->
  forall fuel, (_ ← push_to fuel l e s; mret ()) p = (Ok (), p).
Proof. intros Hreq [n Hn] fuel. unfold push_to, mbind, st_mbind, gets, lift. rewrite Hreq, Hn. done. Qed.

Lemma push_resampled l e (s : samples e) src x bs p r' o F : enc_resampling_required p.1 = true -> at_stream (stereo l x) bs p -> reads_as l e s src -> src ≠ [] ->
  (forall fuel, F < fuel -> push_into fuel src (enc_resampler p.1, []) = (Ok (), (r', o))) -> aligned l o ->
  exists p' bs', (forall fuel, F < fuel -> (_ ← push_to fuel l e s; mret ()) p = (Ok (), p')) /\ at_stream (stereo l (x ++ o)) bs' p' /\ enc_resampler p'.1 = r'.
Proof.
  intros Hreq Hat [n Hn] Hne Hpush Ho. destruct (resampled_run l x bs (with_stream r' p.1, p.2) o (with_stream_at _ _ _ r' Hat) Ho) as (p' & bs' & Hr & Hat' & Hs).
  exists p', bs'. split; [|done]. intros fuel Hfuel. destruct src as [|v src]; [done|]. unfold push_to, mbind, st_mbind, gets, lift, resampled_by.
  rewrite Hreq, Hn. cbn [map_err]. rewrite (Hpush fuel Hfuel). cbn [map_err mbind res_mbind]. by rewrite Hr.
Qed.

(** ** All the parts *)
Definition nonempty (srcs : list (list f32)) : list (list f32) := filter (fun x => x ≠ []) srcs.

Lemma join_nonempty srcs : mjoin (nonempty srcs) = mjoin srcs.
Proof.
  unfold nonempty. induction srcs as [|x srcs IH]; [done|]. rewrite filter_cons. destruct (decide (x ≠ [])) as [H|H].
  - change (x ++ mjoin (filter (fun x => x ≠ []) srcs) = x ++ mjoin srcs). by rewrite IH.
  - destruct x; [done|]. by destruct H.
Qed.

Lemma nonempty_snoc srcs b : b ≠ [] -> nonempty (srcs ++ [b]) = nonempty srcs ++ [b].
Proof. intros Hb. unfold nonempty. rewrite filter_app, filter_cons_True by done. done. Qed.

Lemma nonempty_snoc_nil srcs : nonempty (srcs ++ [[]]) = nonempty srcs.
Proof. unfold nonempty. rewrite filter_app, filter_cons_False by (intros H; by apply H). by rewrite app_nil_r. Qed.

Section Parts.
Variables (l : ChannelLayout) (e : SampleEncoding) (rate : Z) (s0 : PcmEncoder) (sink0 : T).
Hypothesis Hres : resampler_new l rate DISCORD_RATE (source_block_frames rate) = Ok (enc_resampler s0).
Hypothesis Hat0 : at_stream [] [] (s0, sink0).

Lemma new_required : enc_resampling_required s0 = negb (rate =? DISCORD_RATE)%Z.
Proof. unfold enc_resampling_required. by apply (resampler_new_ok _ _ _ _ _ Hres). Qed.

Lemma stereo_nil : stereo l [] = [].
Proof. by destruct l. Qed.

Lemma same_rate_parts parts srcs : rate = DISCORD_RATE -> Forall2 (reads_as l e) parts srcs ->
  exists p bs, (forall fuel, push_parts fuel l e parts (s0, sink0) = (Ok (), p)) /\ at_stream (stereo l (mjoin srcs)) bs p /\ enc_resampler p.1 = enc_resampler s0.
Proof.
  intros Hr. revert srcs. induction parts as [|s parts IH] using rev_ind; intros srcs Hsrc.
  { apply Forall2_nil_inv_l in Hsrc as ->. exists (s0, sink0), []. split; [done|]. split; [|done]. change (mjoin []) with ([] : list f32). by rewrite stereo_nil. }
  apply Forall2_app_inv_l in Hsrc as (srcs1 & srcs2 & H1 & H2 & ->). apply Forall2_cons_inv_l in H2 as (src & nil & Hsrc & Hnil & ->). apply Forall2_nil_inv_l in Hnil as ->.
  destruct (IH _ H1) as (p & bs & Hrun & Hat & Hs). destruct (push_same_rate l e s src (mjoin srcs1) bs p) as (p' & bs' & Hrun' & Hat' & Hs'); [|exact Hat|exact Hsrc|].
  { unfold enc_resampling_required. rewrite Hs. rewrite <- (Z.eqb_eq rate) in Hr. fold (enc_resampling_required s0). by rewrite new_required, Hr. }
  exists p', bs'. split; [intros fuel; by rewrite (push_parts_snoc _ _ _ _ _ _ _ (Hrun fuel))|]. split; [|congruence].
  rewrite join_app. change (mjoin [src]) with (src ++ []). by rewrite app_nil_r.
Qed.

Lemma sources_aligned parts srcs : Forall2 (reads_as l e) parts srcs -> Forall (aligned l) (nonempty srcs).
Proof.
  intros H. apply Forall_forall. intros x [_ Hx]%list_elem_of_filter. apply list_elem_of_lookup in Hx as [i Hi]. destruct (Forall2_lookup_r _ _ _ _ _ H Hi) as (s & _ & n & Hn). by eapply source_ok.
Qed.

Lemma resampled_parts parts srcs : rate ≠ DISCORD_RATE -> Forall2 (reads_as l e) parts srcs ->
  exists F p bs out, (forall fuel, F < fuel -> push_parts fuel l e parts (s0, sink0) = (Ok (), p) /\
      push_all fuel (nonempty srcs) (enc_resampler s0, []) = (Ok (), (enc_resampler p.1, out))) /\
    at_stream (stereo l out) bs p /\ aligned l out.
Proof.
  intros Hr. destruct (resampler_new_ok _ _ _ _ _ Hres) as (Hlay & _ & _ & Hem & Hreq & Hwf). specialize (Hwf Hr). rewrite (proj2 (Z.eqb_neq _ _) Hr) in Hreq. cbn [negb] in Hreq.
  revert srcs. induction parts as [|s parts IH] using rev_ind; intros srcs Hsrc.
  { apply Forall2_nil_inv_l in Hsrc as ->. exists 0, (s0, sink0), [], []. split; [done|]. split; [by rewrite stereo_nil|]. unfold aligned. cbn [length]. apply Nat.Div0.mod_0_l. }
  pose proof (sources_aligned _ _ Hsrc) as Hal. apply Forall2_app_inv_l in Hsrc as (srcs1 & srcs2 & H1 & H2 & ->). apply Forall2_cons_inv_l in H2 as (src & nil & Hsrc & Hnil & ->).
  apply Forall2_nil_inv_l in Hnil as ->. destruct (IH _ H1) as (F & p & bs & out & Hrun & Hat & Ho).
  assert (enc_resampling_required p.1 = true) as Hreqp.
  { destruct (Hrun (S F) ltac:(lia)) as [_ Hp]. destruct (pieces_run _ _ (nonempty srcs1) Hwf Hreq) as (F1 & s1 & t1 & out1 & f1 & _ & _ & _ & Hadv1 & Hrun1).
    { rewrite Hlay. by apply (sources_aligned parts). }
    destruct (Hrun1 (S (Nat.max F F1)) ltac:(lia)) as [E1 _]. destruct (Hrun (S (Nat.max F F1)) ltac:(lia)) as [_ E2]. rewrite E1 in E2. injection E2 as E3 _.
    rewrite <- Hreq. unfold enc_resampling_required, resampling_required. rewrite <- E3. destruct Hadv1 as [_ HA _ _]. by injection HA as -> -> _. }
  destruct (decide (src = [])) as [->|Hne].
  { exists F, p, bs, out. split; [|done]. intros fuel Hfuel. destruct (Hrun fuel Hfuel) as [E1 E2]. rewrite nonempty_snoc_nil. split; [|done].
    by rewrite (push_parts_snoc _ _ _ _ _ _ _ E1), push_nothing_to. }
  rewrite nonempty_snoc in * by done. destruct (pieces_run _ _ _ Hwf Hreq ltac:(rewrite Hlay; exact Hal)) as (F2 & s2 & t2 & out2 & f2 & _ & _ & _ & Hadv & Hrun2).
  set (F' := Nat.max F F2). assert (forall fuel, F' < fuel -> push_into fuel src (enc_resampler p.1, out) = (Ok (), (s2, out2))) as Hpush.
  { intros fuel Hfuel. destruct (Hrun fuel ltac:(lia)) as [_ E1], (Hrun2 fuel ltac:(lia)) as [E2 _]. by rewrite (push_all_snoc _ _ _ _ _ E1) in E2. }
  destruct (appends_run_nil _ _ _ _ _ _ (appends_push (S F') src) (Hpush (S F') ltac:(lia))) as (o & _ & ->).
  assert (aligned l (out ++ o)) as Hal2.
  { destruct Hadv as [_ _ _ (x & Hx & _ & Hlen)]. cbn [app] in Hx. subst x. unfold aligned. rewrite Hem, Hlay in Hlen. apply Nat.Lcm0.mod_divide. exists (emitted_output_frames s2). lia. }
  destruct (push_resampled l e s src out bs p s2 o F' Hreqp Hat Hsrc Hne) as (p' & bs' & Hrun' & Hat' & Hs').
  { intros fuel Hfuel. destruct (appends_run_nil _ _ _ _ _ _ (appends_push fuel src) (Hpush fuel Hfuel)) as (o' & Ho' & Heq). apply app_inv_head in Heq as <-. exact Ho'. }
  { exact (aligned_rest _ _ _ Ho Hal2). }
  exists F', p', bs', (out ++ o). split; [|done]. intros fuel Hfuel. destruct (Hrun fuel ltac:(lia)) as [E1 _], (Hrun2 fuel ltac:(lia)) as [E2 _].
  rewrite (push_parts_snoc _ _ _ _ _ _ _ E1), (Hrun' fuel Hfuel), Hs'. done.
Qed.

(** The end of a stream whose resampler still holds the samples [o]. *)
Lemma finish_run x bs p r' o F : at_stream (stereo l x) bs p ->
  (if enc_resampling_required p.1 then (forall fuel, F < fuel -> finish_into fuel (enc_resampler p.1, []) = (Ok (), (r', o))) /\ aligned l o else o = []) ->
  exists p' n, (forall fuel, F < fuel -> finish_to fuel l p = (Ok n, p')) /\ encoded (stereo_blocks (stereo l (x ++ o))) p'.
Proof.
  intros Hat Ho. destruct (enc_resampling_required p.1) eqn:Hreq.
  - destruct Ho as [Hf Ho]. destruct (resampled_run l x bs (with_stream r' p.1, p.2) o (with_stream_at _ _ _ r' Hat) Ho) as (p1 & bs1 & Hr & Hat1 & _).
    destruct (last_block_run (emitted_packets p.1) _ _ _ Hat1) as (p' & Hl & He). exists p'. eexists. split; [|done]. intros fuel Hfuel.
    unfold finish_to. unfold mbind at 1 2 3, st_mbind at 1 2 3, gets at 1 2. rewrite Hreq. unfold resampled_by, mbind at 1, st_mbind at 1.
    rewrite (Hf fuel Hfuel). cbn [map_err mbind res_mbind]. rewrite Hr. exact Hl.
  - subst o. rewrite app_nil_r. destruct (last_block_run (emitted_packets p.1) _ _ _ Hat) as (p' & Hl & He). exists p'. eexists. split; [|done]. intros fuel _.
    unfold finish_to. unfold mbind at 1 2 3, st_mbind at 1 2 3, gets at 1 2. rewrite Hreq. exact Hl.
Qed.

Lemma stream_run parts srcs : Forall2 (reads_as l e) parts srcs ->
  exists F out p n, (forall fuel, F < fuel -> (exists t, resample_whole fuel (mjoin srcs) (enc_resampler s0, []) = (Ok (), (t, out))) /\
      (_ ← push_parts fuel l e parts; finish_to fuel l) (s0, sink0) = (Ok n, p)) /\
    encoded (stereo_blocks (stereo l out)) p.
Proof.
  intros Hsrc. destruct (pieces_and_whole _ _ _ _ _ _ Hres (sources_aligned _ _ Hsrc)) as (F1 & s1 & t1 & out & Hrun & Hout). rewrite join_nonempty in *.
  destruct (Z.eqb_spec rate DISCORD_RATE) as [Hr|Hr].
  - destruct (same_rate_parts parts srcs Hr Hsrc) as (p & bs & Hp & Hat & Hs). subst out.
    assert (enc_resampling_required p.1 = false) as Hreq by (unfold enc_resampling_required; rewrite Hs; fold (enc_resampling_required s0); by rewrite new_required, (proj2 (Z.eqb_eq _ _) Hr)).
    destruct (finish_run (mjoin srcs) bs p (enc_resampler s0) [] 0 Hat) as (p' & n & Hf & He); [by rewrite Hreq|]. rewrite app_nil_r in He.
    exists (Nat.max F1 0), (mjoin srcs), p', n. split; [|done]. intros fuel Hfuel. destruct (Hrun fuel ltac:(lia)) as [_ Hw]. split; [by exists t1|].
    rewrite (st_bind_run _ _ _ _ _ (Hp fuel)). apply Hf. lia.
  - destruct (resampled_parts parts srcs Hr Hsrc) as (F & p & bs & out1 & Hp & Hat & Ho1). set (F' := Nat.max F F1).
    assert (forall fuel, F' < fuel -> finish_into fuel (enc_resampler p.1, out1) = (Ok (), (s1, out))) as Hfin.
    { intros fuel Hfuel. destruct (Hp fuel ltac:(lia)) as [_ E1], (Hrun fuel ltac:(lia)) as [E2 _]. unfold resample_parts in E2. by rewrite (st_bind_run _ _ _ _ _ E1) in E2. }
    destruct (appends_run_nil _ _ _ _ _ _ (appends_finish (S F')) (Hfin (S F') ltac:(lia))) as (o & _ & ->).
    destruct (finish_run out1 bs p s1 o F' Hat) as (p' & n & Hf & He).
    { destruct (enc_resampling_required p.1) eqn:Hreq.
      - split; [|apply (aligned_rest _ _ _ Ho1)].
        + intros fuel Hfuel. destruct (appends_run_nil _ _ _ _ _ _ (appends_finish fuel) (Hfin fuel Hfuel)) as (o' & Ho' & Heq). by apply app_inv_head in Heq as <-.
        + destruct Hout as (_ & frames & Hlen & _). unfold aligned. apply Nat.Lcm0.mod_divide. exists frames. lia.
      - specialize (Hfin (S F') ltac:(lia)). unfold finish_into, mbind, st_mbind, gets in Hfin. cbn [fst] in Hfin. unfold enc_resampling_required in Hreq. rewrite Hreq in Hfin.
        injection Hfin as _ Heq. rewrite <- (app_nil_r out1) in Heq at 1. by apply app_inv_head in Heq. }
    exists F', (out1 ++ o), p', n. split; [|done]. intros fuel Hfuel. destruct (Hp fuel ltac:(lia)) as [E1 _], (Hrun fuel ltac:(lia)) as [_ Hw]. split; [by exists t1|].
    rewrite (st_bind_run _ _ _ _ _ E1). by apply Hf.
Qed.
End Parts.
End Spec.

(** ** Sinks *)
Section Sinks.
#[export, refine] Instance vec_sink_laws : PacketSinkLaws (list OpusPacket.Packet) := {| holds := fun l outs => OpusPacket.packet_bytes <$> l = outs |}.
Proof.
  intros A encode l outs b a <- He Hv. unfold sink_packet, vec_sink. rewrite He, Nat.eqb_refl. unfold from_encoder_bytes. rewrite Hv. eexists. split; [done|]. by rewrite fmap_app.
Defined.

#[export, refine] Instance batch_sink_laws : PacketSinkLaws OpusPacket.PacketBatch := {| holds := OpusPacket.batch_holds |}.
Proof. intros A encode l outs b a Hh He _. by apply OpusPacket.encode_packet_holds. Defined.
End Sinks.

(** ** Chunks *)
Section Chunks.
Context {RO : RawOpus} {OL : RawOpusLaws RO} {B : Rubato} {BL : RubatoLaws B}.

Definition dyn_layout (e : PcmEncoding) (enc : PcmEncoder) : DynamicPcmLayoutEncoder :=
  match e with PcmF32Le => DynF32Le enc | PcmS16Le => DynS16Le enc | PcmMuLaw => DynMuLaw enc | PcmALaw => DynALaw enc end.
Definition dyn (l : ChannelLayout) (e : PcmEncoding) (enc : PcmEncoder) : DynamicPcmEncoderInner :=
  match l with Mono => DynMono (dyn_layout e enc) | StereoInterleaved => DynStereo (dyn_layout e enc) end.

(** The dynamic encoder once the format is known. *)
Definition known (l : ChannelLayout) (f : PcmFormat) (n : nat) (enc : PcmEncoder) : DynamicPcmEncoder :=
  {| source_format := Some f; source_pcm_bytes := n; dyn_encoder := Some (dyn l (encoding f) enc) |}.

Lemma inner_new_ok l f enc : channels f = CHANNELS l -> pcm_encoder_new l (sample_rate_hz f) default_config = Ok enc -> inner_new f = Ok (dyn l (encoding f) enc).
Proof. intros Hc He. unfold inner_new, layout_encoder_new. rewrite Hc. destruct l; cbn [CHANNELS]; rewrite He; by destruct (encoding f). Qed.

Lemma visiting_run {T A} (m : ChannelLayout -> PcmEncoding -> es (T := T) A) l f n enc sink :
  visiting m (known l f n enc, sink) = let '(r, (enc, sink)) := m l (encoding f) (enc, sink) in (r, (known l f n enc, sink)).
Proof.
  unfold visiting, known, dyn, dyn_layout. cbn [fst snd dyn_encoder source_format source_pcm_bytes].
  destruct l, (encoding f); cbn [inner_visit layout_visit]; match goal with |- context [m ?l ?e ?p] => by destruct (m l e p) as [r [enc' sink']] end.
Qed.

Section Format.
Context {T : Type} {K : PacketSink T}.
Variables (l : ChannelLayout) (f : PcmFormat).
Abbreviation bytes_of c := (byte_samples (encoding f) (chunk_data c)).

(** [d] takes chunks of the format, with the encoder [enc]. *)
Definition takes (d : DynamicPcmEncoder) (n : nat) (enc : PcmEncoder) : Prop := accept_format f d = (Ok (), known l f n enc).

Lemma known_takes n enc : takes (known l f n enc) n enc.
Proof. unfold takes, accept_format. cbn [known source_format]. by rewrite decide_True. Qed.

Lemma fresh_takes enc : channels f = CHANNELS l -> pcm_encoder_new l (sample_rate_hz f) default_config = Ok enc -> takes dynamic_new 0 enc.
Proof. intros Hc He. unfold takes, accept_format. cbn [dynamic_new source_format dyn_encoder source_pcm_bytes]. by rewrite (inner_new_ok l f enc Hc He). Qed.

Lemma push_chunk_run fuel c d n enc sink r enc' sink' : format c = f -> takes d n enc -> push_to fuel l _ (bytes_of c) (enc, sink) = (Ok r, (enc', sink')) ->
  push_chunk_to fuel c (d, sink) = (Ok r, (known l f (n + length (chunk_data c)) enc', sink')).
Proof.
  intros Hf Ht Hp. unfold push_chunk_to, mbind, st_mbind, modify. cbn [fst snd]. rewrite Hf, Ht. cbn [known source_format source_pcm_bytes dyn_encoder].
  pose proof (visiting_run (fun l e => push_to fuel l (visit_encoding e) (byte_samples e (chunk_data c))) l f (n + length (chunk_data c)) enc sink) as Hv.
  cbn beta in Hv. rewrite Hp in Hv. exact Hv.
Qed.

Definition total (cs : list PcmChunk) : nat := sum_list_with (fun c => length (chunk_data c)) cs.

Lemma push_chunks_run fuel cs : forall n enc sink enc' sink', Forall (fun c => format c = f) cs ->
  push_parts fuel l _ ((fun c => bytes_of c) <$> cs) (enc, sink) = (Ok (), (enc', sink')) ->
  push_chunks fuel cs (known l f n enc, sink) = (Ok (), (known l f (n + total cs) enc', sink')).
Proof.
  induction cs as [|c cs IH]; intros n enc sink enc' sink' Hf; [cbn; intros [= <- <-]; by rewrite Nat.add_0_r|]. apply Forall_cons in Hf as [Hc Hf].
  cbn [fmap list_fmap push_parts push_chunks]. unfold mbind, st_mbind. destruct (push_to fuel l _ (bytes_of c) (enc, sink)) as [[r|e|] [enc1 sink1]] eqn:Hp; [|done|done].
  intros Hrun. rewrite (push_chunk_run fuel c _ n enc sink r enc1 sink1 Hc (known_takes n enc) Hp). rewrite (IH _ _ _ _ _ Hf Hrun). cbn [total sum_list_with]. by rewrite Nat.add_assoc.
Qed.
End Format.

Lemma push_chunks_first {T} {K : PacketSink T} fuel l f c cs d n enc (sink : T) : format c = f -> takes l f d n enc ->
  push_chunks fuel (c :: cs) (d, sink) = push_chunks fuel (c :: cs) (known l f n enc, sink).
Proof.
  intros Hf Ht. cbn [push_chunks]. unfold push_chunk_to, mbind, st_mbind. cbn [fst snd]. rewrite Hf. unfold takes in Ht. rewrite Ht.
  pose proof (known_takes l f n enc) as Hk. unfold takes in Hk. by rewrite Hk.
Qed.

(** A chunk that [with_format] accepts is whole frames of its layout. *)
Lemma chunk_reads l f c src : channels f = CHANNELS l -> with_format f (chunk_data c) = Ok c -> pcm_append_f32 (encoding f) (chunk_data c) [] = Ok src ->
  format c = f /\ reads_as l (visit_encoding (encoding f)) (byte_samples (encoding f) (chunk_data c)) src.
Proof.
  intros Hch Hw Hsrc. unfold with_format, validate_bytes, validate_pcm_bytes in Hw. destruct (checked_byte_sample_count _ _) as [k|err|] eqn:Hk; [|done|done]. cbn [mbind res_mbind] in Hw.
  rewrite Hch in Hw. destruct (validate_channel_alignment (CHANNELS l) k) as [[]|err|] eqn:Hv; [|done|done]. cbn [mbind res_mbind] in Hw. injection Hw as Hw.
  split; [by rewrite <- Hw|]. unfold pcm_append_f32 in Hsrc. unfold reads_as. destruct l; cbn [append_source_f32 CHANNELS] in *; [rewrite Hsrc; by eexists|].
  assert (sample_count (visit_encoding (encoding f)) (byte_samples (encoding f) (chunk_data c)) = Ok k) as ->.
  { revert Hk. destruct (encoding f); cbn [visit_encoding byte_samples sample_count]; [done|done| |]; intros Hk; apply checked_count in Hk; cbn [byte_size] in Hk; f_equal; lia. }
  cbn [mbind res_mbind]. rewrite Hv, Hsrc. by eexists.
Qed.

Lemma new_at_stream l rate config s0 : pcm_encoder_new l rate config = Ok s0 ->
  resampler_new l rate DISCORD_RATE (source_block_frames rate) = Ok (enc_resampler s0) /\
  at_stream (T := list OpusPacket.Packet) (raw_encoder (packet_encoder s0)) [] [] [] (s0, []).
Proof.
  unfold pcm_encoder_new. destruct (resampler_new l rate DISCORD_RATE (source_block_frames rate)) as [r|e|]; [|done|done]. cbn [map_err mbind res_mbind].
  unfold packet_encoder_new. destruct (opus_new _ _ _) as [err|o] eqn:Ho; [done|]. destruct (_ <? _)%Z; [|done]. cbn [mbind res_mbind]. intros [= <-]. split; [done|].
  split; [apply cut_nil|]. split; [done|by eapply opus_new_ok|done|done].
Qed.

Lemma packets_id (l : list OpusPacket.Packet) : OpusPacket.Build_Packet ∘ OpusPacket.packet_bytes <$> l = l.
Proof. induction l as [|[b] l IH]; [done|]. cbn. by f_equal. Qed.

(** C13. Audio made of chunks of one format, mono or stereo, is encoded completely
    and in order: the samples of all the chunks, resampled to 48 kHz at once,
    are cut into stereo blocks of 20 ms, the last filled with silence, and the
    packets are the packets of these blocks.  How the samples are divided among
    the chunks makes no difference. *)
Theorem playback_encodes_source l f chunks srcs s0 :
  channels f = CHANNELS l -> (0 < sample_rate_hz f)%Z -> pcm_encoder_new l (sample_rate_hz f) default_config = Ok s0 -> chunks ≠ [] ->
  Forall2 (fun c src => with_format f (chunk_data c) = Ok c /\ pcm_append_f32 (encoding f) (chunk_data c) [] = Ok src) chunks srcs ->
  exists F out, forall fuel, F < fuel ->
    (exists t, resample_whole fuel (mjoin srcs) (enc_resampler s0, []) = (Ok (), (t, out))) /\
    from_chunks fuel chunks =
      Ok {| packets := OpusPacket.Build_Packet <$> (block_packets (stereo_blocks (stereo l out)) (raw_encoder (packet_encoder s0))).1;
            source := {| src_sample_rate_hz := sample_rate_hz f; src_channel_count := Z.of_nat (channels f);
                         pcm_bytes := sum_list_with (fun c => length (chunk_data c)) chunks |} |}.
Proof.
  intros Hch Hrate Hnew Hne Hsrc. destruct (new_at_stream _ _ _ _ Hnew) as [Hres Hat].
  assert (Forall2 (reads_as l (visit_encoding (encoding f))) ((fun c => byte_samples (encoding f) (chunk_data c)) <$> chunks) srcs) as Hreads.
  { apply Forall2_fmap_l. eapply Forall2_impl; [exact Hsrc|]. intros c src [Hw Hs]. by apply chunk_reads. }
  assert (Forall (fun c => format c = f) chunks) as Hfmt.
  { apply Forall_forall. intros c [i Hi]%list_elem_of_lookup. destruct (Forall2_lookup_l _ _ _ _ _ Hsrc Hi) as (src & _ & Hw & Hs). by eapply chunk_reads. }
  destruct (stream_run _ _ l _ _ s0 [] Hres Hat _ _ Hreads) as (F & out & [enc' sink'] & n & Hrun & He). exists F, out. intros fuel Hfuel. destruct (Hrun fuel Hfuel) as [Hw Hp].
  split; [done|]. unfold mbind, st_mbind in Hp. destruct (push_parts fuel l _ _ (s0, [])) as [[[]|e|] [enc1 sink1]] eqn:Hparts; [|done|done].
  destruct chunks as [|c cs]; [done|]. unfold from_chunks, mbind, st_mbind.
  rewrite (push_chunks_first fuel l f c cs dynamic_new 0 s0); [|by apply Forall_cons in Hfmt as [? _]|by apply fresh_takes].
  rewrite (push_chunks_run l f fuel _ 0 s0 [] enc1 sink1 Hfmt Hparts). unfold dynamic_finish_to, mbind, st_mbind, gets. cbn [fst known dyn_encoder].
  fold (known l f (0 + total (c :: cs)) enc1). rewrite (visiting_run (fun l _ => finish_to fuel l)), Hp. cbn [fst source_sample_rate_hz source_channel_count known source_format source_pcm_bytes].
  rewrite Hch. rewrite (proj2 (Z.eqb_neq _ _)) by lia. pose proof (enc_held _ _ _ _ He) as Hheld. cbn [holds vec_sink_laws snd app] in Hheld. rewrite <- Hheld.
  rewrite <- list_fmap_compose, packets_id. by destruct l.
Qed.

(** ** A format that was rejected *)

(** The first chunk sets the format before the encoder is made. *)
Definition stuck (f : PcmFormat) (d : DynamicPcmEncoder) : Prop := source_format d = Some f /\ dyn_encoder d = None.

Lemma rejected_sticks f e : inner_new f = Err e -> exists d, accept_format f dynamic_new = (Err e, d) /\ stuck f d.
Proof. intros He. unfold accept_format. cbn [dynamic_new source_format]. rewrite He. eexists. by split. Qed.

(** From then on every chunk, of whatever format, is refused and the encoder stays that way. *)
Lemma stuck_refuses {T} {K : PacketSink T} fuel f c d (sink : T) : stuck f d -> exists e d', push_chunk_to fuel c (d, sink) = (Err e, (d', sink)) /\ stuck f d'.
Proof.
  intros [Hf Hd]. unfold push_chunk_to, mbind, st_mbind, modify, accept_format. cbn [fst snd]. rewrite Hf. destruct (decide (f = format c)) as [->|Hne].
  - unfold visiting. cbn [fst dyn_encoder]. rewrite Hd. eexists _, _. split; [reflexivity|]. by split.
  - destruct (negb (_ =? _)%Z); [|destruct (negb (_ =? _))]; (eexists _, d; split; [reflexivity|done]).
Qed.

End Chunks.

(** ** An encoder that numbers its packets *)
Section Samples.
#[local] Open Scope Z_scope.
Import ResamplerSamples.

Definition numbered (n : nat) : bytes := [0xf8; Z.of_nat n; 0xfe].

#[local] Instance numbering_opus : RawOpus := {|
  opus_t := nat;
  opus_new := fun _ _ _ => inr O;
  set_bitrate := fun _ o => o;
  set_cbr := fun _ o => o;
  opus_encode := fun _ _ buffer o => (inr 3%nat, numbered o ++ drop 3 buffer, S o) |}.

#[local, refine] Instance numbering_opus_laws : RawOpusLaws numbering_opus := {| stereo_encoder := fun _ => True |}.
Proof.
  - done.
  - intros o block buffer _ _ _. cbn [opus_encode numbering_opus]. eexists _, _, _. split; [reflexivity|]. split; [done|]. split; [rewrite length_app; cbn; lia|reflexivity].
Defined.

Definition telephone : PcmFormat := {| sample_rate_hz := 24000; channels := 1; encoding := PcmMuLaw |}.
Definition voice : list PcmChunk := [{| format := telephone; chunk_data := replicate 300 255 |}; {| format := telephone; chunk_data := replicate 300 0 |}].

Definition made {A} (m : ER A) (H : match m with Ok _ => True | _ => False end) : A :=
  match m return match m with Ok _ => True | _ => False end -> A with Ok a => fun _ => a | _ => fun H => match H with end end H.
Definition voice_encoder : PcmEncoder := made (pcm_encoder_new Mono 24000 default_config) I.
Definition voice_source (b : Z) : list f32 := replicate 300 (s16_to_f32 (decode_mulaw b)).

Lemma playback_encodes_source_witness : exists F out, forall fuel, (F < fuel)%nat ->
  (exists t, resample_whole fuel (mjoin [voice_source 255; voice_source 0]) (enc_resampler voice_encoder, []) = (Ok (), (t, out))) /\
  from_chunks fuel voice =
    Ok {| packets := OpusPacket.Build_Packet <$> (block_packets (stereo_blocks (stereo Mono out)) (raw_encoder (packet_encoder voice_encoder))).1;
          source := {| src_sample_rate_hz := sample_rate_hz telephone; src_channel_count := Z.of_nat (channels telephone);
                       pcm_bytes := sum_list_with (fun c => length (chunk_data c)) voice |} |}.
Proof.
  apply playback_encodes_source; [reflexivity|reflexivity|reflexivity|discriminate|].
  repeat constructor; vm_compute; reflexivity.
Defined.

(** 600 samples at 24 kHz are 25 ms, which is two packets. *)
Example voice_packets : match from_chunks 10 voice with Ok a => OpusPacket.packet_bytes <$> packets a = [numbered 0; numbered 1] | _ => False end.
Proof. vm_compute. reflexivity. Qed.

End Samples.
End PcmEncoderSpec.
