(* ===== verification/OpusAudio.v ===== *)
(** * Decoding Opus, and Ogg archives (cacophony/src/opus.rs)

    [Decoder] turns a received Opus frame into interleaved 16-bit stereo;
    [CapturedPcmAudio] is written as an Ogg Opus archive, and
    [OggOpusMonoAudio] reads one.

    The opus-rs decoder is the class [OpusDecode] and the ogg crate the class
    [Ogg]; the encoder is that of PcmEncoder.v.  [decode_loop] has fuel: the
    packets it may read. *)

From Stdlib Require Import SpecFloat.
From stdpp Require Import strings.
From S2P Require Import Prelude Effects IeeeFloat Pcm Frame Assembler ReadyFrames PcmEncoder.
Import IeeeFloat Pcm PcmEncode ReadyFrames.
#[local] Open Scope nat_scope.

Module OpusAudio.

Definition OPUS_ARCHIVE_CHANNELS : nat := 1.
Definition OPUS_ARCHIVE_FRAME_MS : Z := 20.
Definition OPUS_ARCHIVE_GRANULE_SAMPLE_RATE : Z := 48000.
Definition OGG_OPUS_ARCHIVE_SERIAL : Z := 0xDEADBEEF.
Definition OGG_OPUS_ARCHIVE_BITRATE_BPS : Z := 24000.

Inductive DecodeOperation := CreateMonoDecoder | CreateDecoder | DecodeFrame.

Inductive AudioError :=
| AudioPcm (e : PcmError)
| DecodeFailed (operation : DecodeOperation) (reason : string)
| EncodeFailed (operation : OpusOperation) (reason : string)
| UnsupportedVoiceCodec (codec : MediaCodec)
| AudioChannelCount (channels : nat)
| EmptyFrame
| OggOpusEmpty
| OggOpusRead (message : string)
| OggOpusNoPackets
| OggOpusHeaderNotStart
| OggOpusMissingHead
| OggOpusUnsupportedVersion (version : Z)
| OggOpusUnsupportedChannelCount (channels : Z)
| OggOpusUnsupportedMappingFamily (mapping_family : Z)
| OggOpusMissingTags
| OggOpusMultipleLogicalStreams
| OggOpusNoAudioPackets
| OggOpusNoAudioAfterPreSkip
| OggOpusDecodedEmpty
| OggOpusOutputSampleRateTooLarge (sample_rate_hz : Z)
| PcmArchiveEmpty
| OggOpusVendorEmpty
| OggOpusUnsupportedSampleRate (sample_rate_hz : Z)
| OggWrite (message : string).

Abbreviation AR := (res AudioError).

(** [opus_rs::OpusDecoder]: [decode packet max_samples_per_channel output]
    writes to the output and returns the samples per channel. *)
Class OpusDecode := {
  decoder_t : Type;
  decoder_new : Z -> nat -> string + decoder_t;
  opus_decode : bytes -> nat -> list f32 -> decoder_t -> (string + nat) * list f32 * decoder_t }.

Inductive PacketWriteEndInfo := NormalPacket | EndPage | EndStream.

Record OggPacket := { first_in_stream : bool; ogg_data : bytes }.

(** [ogg::PacketReader] over bytes and [ogg::PacketWriter] into bytes. *)
Class Ogg := {
  reader_t : Type;
  reader_new : bytes -> reader_t;
  read_packet : reader_t -> (string + option OggPacket) * reader_t;
  writer_t : Type;
  writer_new : writer_t;
  write_packet : bytes -> Z -> PacketWriteEndInfo -> Z -> writer_t -> (string + ()) * writer_t;
  into_inner : writer_t -> bytes }.

Section OpusAudio.
Context {FR : Assembler.FrameRaw} {RO : RawOpus} {D : OpusDecode} {G : Ogg}.

(** ** Frames of a call *)
Record Decoder := { mono_decoder : decoder_t; stereo_decoder : decoder_t; decoded_f32 : list f32; sample_rate : Z; max_samples_per_channel : nat }.

Definition discord_default : AR Decoder :=
  match decoder_new DISCORD_RATE 1 with
  | inl reason => Err (DecodeFailed CreateMonoDecoder reason)
  | inr mono =>
      match decoder_new DISCORD_RATE OPUS_CHANNELS with
      | inl reason => Err (DecodeFailed CreateDecoder reason)
      | inr stereo =>
          Ok {| mono_decoder := mono; stereo_decoder := stereo; decoded_f32 := []; sample_rate := DISCORD_RATE; max_samples_per_channel := FRAMES_PER_BLOCK |}
      end
  end.

Definition opus_frame_channels (frame : bytes) : AR nat :=
  match frame with [] => Err EmptyFrame | toc :: _ => Ok (if (Z.land toc 4 =? 0)%Z then 1 else 2) end.

Definition pcm_f32_to_i16 (x : f32) : Z := f32_round_as_i16 (f32_mul (f32_clamp_unit x) (f32_of_int i16_max)).

Record DecodedPcmLayout := { layout_sample_rate_hz : Z; layout_channels : nat; samples_per_channel : nat }.
Record DecodedFrameMetadata := { meta_frame : ReceivedFrame; meta_pcm_layout : DecodedPcmLayout }.
Record DecodedFrame := { decoded_frame : ReceivedFrame; pcm_layout : DecodedPcmLayout; pcm : list Z }.

Definition with_decoded (x : list f32) (d : Decoder) : Decoder :=
  {| mono_decoder := mono_decoder d; stereo_decoder := stereo_decoder d; decoded_f32 := x; sample_rate := sample_rate d; max_samples_per_channel := max_samples_per_channel d |}.
Definition with_decoder (channels : nat) (x : decoder_t) (d : Decoder) : Decoder :=
  {| mono_decoder := if channels =? 1 then x else mono_decoder d; stereo_decoder := if channels =? 1 then stereo_decoder d else x;
     decoded_f32 := decoded_f32 d; sample_rate := sample_rate d; max_samples_per_channel := max_samples_per_channel d |}.

(** The vector [pcm] is written by reference. *)
Definition decode_frame_into (frame : ReceivedFrame) : st (Decoder * list Z) AudioError DecodedFrameMetadata := fun '(d, pcm) =>
  if decide (rf_codec frame = Opus) then
    match opus_frame_channels (rf_frame frame) with
    | Ok channels =>
        let d := with_decoded (resize (max_samples_per_channel d * channels) (decoded_f32 d)) d in
        if (channels =? 1) || (channels =? OPUS_CHANNELS) then
          let '(r, out, x) := opus_decode (rf_frame frame) (max_samples_per_channel d) (decoded_f32 d) (if channels =? 1 then mono_decoder d else stereo_decoder d) in
          let d := with_decoded out (with_decoder channels x d) in
          match r with
          | inl reason => (Err (DecodeFailed DecodeFrame reason), (d, pcm))
          | inr n =>
              let d := with_decoded (take (n * channels) out) d in
              let pcm := if channels =? 1 then mjoin ((fun x => [pcm_f32_to_i16 x; pcm_f32_to_i16 x]) <$> decoded_f32 d) else pcm_f32_to_i16 <$> decoded_f32 d in
              (Ok {| meta_frame := frame;
                     meta_pcm_layout := {| layout_sample_rate_hz := sample_rate d; layout_channels := OPUS_CHANNELS; samples_per_channel := n |} |}, (d, pcm))
          end
        else (Err (AudioChannelCount channels), (d, pcm))
    | Err e => (Err e, (d, pcm))
    | Panic => (Panic, (d, pcm))
    end
  else (Err (UnsupportedVoiceCodec (rf_codec frame)), (d, pcm)).

Definition decode_frame (frame : ReceivedFrame) : st Decoder AudioError DecodedFrame := fun d =>
  let '(r, (d, pcm)) := decode_frame_into frame (d, []) in
  (metadata ← r; Ok {| decoded_frame := meta_frame metadata; pcm_layout := meta_pcm_layout metadata; pcm := pcm |}, d).

(** [DecodedFrame::to_mono_s16le_bytes] *)
Definition to_mono_s16le_bytes (f : DecodedFrame) : AR bytes := map_err AudioPcm (interleaved_i16_to_mono_s16le (pcm f) (layout_channels (pcm_layout f))).

(** ** Writing an archive *)
Record CapturedPcmAudio := { captured : PcmChunk }.

(** [CapturedPcmAudio::new] *)
Definition captured_new (c : PcmChunk) : AR CapturedPcmAudio :=
  if channels (format c) =? OPUS_ARCHIVE_CHANNELS then Ok {| captured := c |} else Err (AudioChannelCount (channels (format c))).

Record OggOpusAudioArchive := { content : bytes; original_bytes : nat; archive_sample_rate_hz : Z }.

Record OggOpusArchiveEncoder := { audio : PcmChunk }.

Definition archive_rates : list Z := [8000; 12000; 16000; 24000; 48000]%Z.

(** [OggOpusArchiveEncoder::new] *)
Definition archive_encoder_new (a : CapturedPcmAudio) : AR OggOpusArchiveEncoder :=
  let c := captured a in
  if length (chunk_data c) =? 0 then Err PcmArchiveEmpty
  else if bool_decide (sample_rate_hz (format c) ∈ archive_rates) then Ok {| audio := c |}
  else Err (OggOpusUnsupportedSampleRate (sample_rate_hz (format c))).

Definition opus_head_magic : bytes := [79; 112; 117; 115; 72; 101; 97; 100]%Z.
Definition opus_tags_magic : bytes := [79; 112; 117; 115; 84; 97; 103; 115]%Z.

Definition opus_head (input_sample_rate : Z) : bytes :=
  opus_head_magic ++ [1%Z; Z.of_nat OPUS_ARCHIVE_CHANNELS] ++ to_le 2 0 ++ to_le 4 input_sample_rate ++ to_le 2 0 ++ [0%Z].

Definition opus_tags (vendor : bytes) : bytes :=
  opus_tags_magic ++ to_le 4 (Z.of_nat (length vendor) mod 2 ^ 32) ++ vendor ++ to_le 4 0.

Definition wr (A : Type) : Type := st writer_t AudioError A.

(** [writer.write_packet(..)?] *)
Definition write (data : bytes) (info : PacketWriteEndInfo) (granule : Z) : wr () := fun w =>
  let '(r, w) := write_packet data OGG_OPUS_ARCHIVE_SERIAL info granule w in
  (match r with inl e => Err (OggWrite e) | inr _ => Ok () end, w).

(** One turn of the loop: the packet of frame [index], and the encoder after it. *)
Definition archive_frame (c : PcmChunk) (frame_samples index : nat) (output : bytes) (o : opus_t) : AR (bytes * bytes * opus_t) :=
  let n := bytes_per_sample (encoding (format c)) in
  let start := index * frame_samples in
  let stop := Nat.min ((index + 1) * frame_samples) (sample_count_of c) in
  data ← slice (chunk_data c) (start * n) (stop * n);
  frame ← map_err AudioPcm (pcm_append_f32 (encoding (format c)) data []);
  match opus_encode (resize frame_samples frame) frame_samples output o with
  | (inl reason, _, _) => Err (EncodeFailed EncodeFrame reason)
  | (inr written, output, o) => packet ← slice output 0 written; Ok (packet, output, o)
  end.

(** The loop over the frames, [todo] of them still to come. *)
Fixpoint archive_loop (c : PcmChunk) (frame_samples frame_count index todo : nat) (granule_step granule : Z) (output : bytes) (o : opus_t) : wr () :=
  match todo with
  | O => mret ()
  | S todo =>
      '(packet, output, o) ← lift (archive_frame c frame_samples index output o);
      let granule := (granule + granule_step)%Z in
      _ ← write packet (if index + 1 =? frame_count then EndStream else NormalPacket) granule;
      archive_loop c frame_samples frame_count (S index) todo granule_step granule output o
  end.

(** [usize::div_ceil] *)
Definition div_ceil (a b : nat) : nat := a / b + (if a mod b =? 0 then 0 else 1).

(** The headers and the frames. *)
Definition write_archive (c : PcmChunk) (vendor : bytes) (frame_samples : nat) (granule_step : Z) (o : opus_t) : wr () :=
  _ ← write (opus_head (sample_rate_hz (format c))) EndPage 0;
  _ ← write (opus_tags vendor) EndPage 0;
  if frame_samples =? 0 then lift Panic
  else
    let frame_count := div_ceil (sample_count_of c) frame_samples in
    archive_loop c frame_samples frame_count 0 frame_count granule_step 0 (replicate (Z.to_nat 4096) 0%Z) o.

(** [OggOpusArchiveEncoder::encode] *)
Definition archive_encode (e : OggOpusArchiveEncoder) (vendor : bytes) : AR OggOpusAudioArchive :=
  let c := audio e in
  let rate := sample_rate_hz (format c) in
  let frame_samples := Z.to_nat (rate * OPUS_ARCHIVE_FRAME_MS / 1000) in
  let granule_step := (OPUS_ARCHIVE_GRANULE_SAMPLE_RATE * OPUS_ARCHIVE_FRAME_MS / 1000)%Z in
  match vendor with
  | [] => Err OggOpusVendorEmpty
  | _ =>
      match opus_new rate OPUS_ARCHIVE_CHANNELS Voip with
      | inl reason => Err (EncodeFailed CreateEncoder reason)
      | inr o =>
          let o := set_cbr false (set_bitrate OGG_OPUS_ARCHIVE_BITRATE_BPS o) in
          match write_archive c vendor frame_samples granule_step o writer_new with
          | (Ok _, w) => Ok {| content := into_inner w; original_bytes := length (chunk_data c); archive_sample_rate_hz := rate |}
          | (Err err, _) => Err err
          | (Panic, _) => Panic
          end
      end
  end.

Definition encode_ogg_opus_archive (a : CapturedPcmAudio) (vendor : bytes) : AR OggOpusAudioArchive :=
  e ← archive_encoder_new a; archive_encode e vendor.

(** ** Reading an archive *)
Record OggOpusMonoAudio := { mono_samples : list f32; input_channels : Z; mono_source_pcm_bytes : nat; mono_sample_rate_hz : Z }.

Record OggOpusHead := { head_channels : Z; pre_skip : nat }.

Definition starts_with (magic data : bytes) : bool := bool_decide (take (length magic) data = magic).

(** [OggOpusHead::parse] *)
Definition head_parse (data : bytes) : AR OggOpusHead :=
  if (length data <? 19) || negb (starts_with opus_head_magic data) then Err OggOpusMissingHead
  else
    version ← index data 8;
    if (15 <? version)%Z then Err (OggOpusUnsupportedVersion version)
    else
      n ← index data 9;
      if negb ((n =? 1) || (n =? 2))%Z then Err (OggOpusUnsupportedChannelCount n)
      else
        family ← index data 18;
        if negb (family =? 0)%Z then Err (OggOpusUnsupportedMappingFamily family)
        else
          lo ← index data 10;
          hi ← index data 11;
          Ok {| head_channels := n; pre_skip := Z.to_nat (lo + 256 * hi) |}.

Definition f32_half : f32 := f32_div f32_one (f32_of_int 2).

Definition mix_opus_frame_to_mono (frame : list f32) : f32 :=
  match frame with
  | [x] => f32_clamp_unit x
  | [x; y] => f32_clamp_unit (f32_mul (f32_add x y) f32_half)
  | _ => f32_zero
  end.

(** [reader.read_packet().map_err(ogg_opus_read_error)?] *)
Definition next_packet : st reader_t AudioError (option OggPacket) := fun r =>
  let '(x, r) := read_packet r in (match x with inl e => Err (OggOpusRead e) | inr p => Ok p end, r).

(** The loop over the audio packets: the samples and how many packets. *)
Fixpoint decode_loop (fuel max channels : nat) (d : decoder_t) (samples : list f32) (packets : nat) : st reader_t AudioError (list f32 * nat) :=
  match fuel with
  | O => lift Panic
  | S fuel =>
      packet ← next_packet;
      match packet with
      | None => mret (samples, packets)
      | Some p =>
          if first_in_stream p then throw OggOpusMultipleLogicalStreams
          else
            match opus_decode (ogg_data p) max (replicate (max * channels) f32_zero) d with
            | (inl reason, _, _) => throw (DecodeFailed DecodeFrame reason)
            | (inr frames, decoded, d) =>
                let decoded := take (frames * channels) decoded in
                decode_loop fuel max channels d (samples ++ (mix_opus_frame_to_mono <$> chunks_exact (length decoded) channels decoded)) (packets + 1)
            end
      end
  end.

(** What follows the headers. *)
Definition decode_audio (fuel : nat) (head : OggOpusHead) (rate : Z) : st reader_t AudioError OggOpusMonoAudio :=
  let channels := Z.to_nat (head_channels head) in
  match decoder_new rate channels with
  | inl reason => throw (DecodeFailed CreateDecoder reason)
  | inr d =>
      '(samples, packets) ← decode_loop fuel (Z.to_nat (rate * 120 / 1000)) channels d [] 0;
      if packets =? 0 then throw OggOpusNoAudioPackets
      else if length samples <=? pre_skip head then throw OggOpusNoAudioAfterPreSkip
      else
        let samples := drop (pre_skip head) samples in
        if length samples =? 0 then throw OggOpusDecodedEmpty
        else mret {| mono_samples := samples; input_channels := head_channels head; mono_source_pcm_bytes := length samples * channels * 4; mono_sample_rate_hz := rate |}
  end.

(** [OggOpusMonoAudio::decode]; [usize::try_from] does not fail with 64 bits. *)
Definition archive_decode (fuel : nat) (b : bytes) (rate : Z) : AR OggOpusMonoAudio :=
  match b with
  | [] => Err OggOpusEmpty
  | _ =>
      if (2 ^ 31 <=? rate)%Z then Err (OggOpusOutputSampleRateTooLarge rate)
      else
        ((head_packet ← next_packet;
          match head_packet with
          | None => throw OggOpusNoPackets
          | Some p =>
              if first_in_stream p then
                head ← lift (head_parse (ogg_data p));
                tags_packet ← next_packet;
                match tags_packet with
                | None => throw OggOpusMissingTags
                | Some t => if starts_with opus_tags_magic (ogg_data t) then decode_audio fuel head rate else throw OggOpusMissingTags
                end
              else throw OggOpusHeaderNotStart
          end) (reader_new b)).1
  end.

End OpusAudio.
End OpusAudio.
