(* ===== verification/OpusAudioSpec.v ===== *)
(** * Decoded frames and archives (cacophony/src/opus.rs)

    A received frame becomes interleaved stereo of 16-bit samples, and an
    archive that was written is read back: every frame of the captured audio,
    the last filled with silence, in order. *)

From stdpp Require Import strings.
From S2P Require Import Prelude Effects IeeeFloat Pcm Frame Rtp Assembler ReadyFrames Resampler OpusPacket PcmEncoder OpusAudio.
Import IeeeFloat Pcm PcmEncode ReadyFrames OpusAudio.
#[local] Open Scope nat_scope.

Module OpusAudioSpec.

(** ** 16-bit samples *)
Lemma i16_range x : (i16_min <= f32_round_as_i16 x <= i16_max)%Z.
Proof. unfold f32_round_as_i16, saturate, i16_min, i16_max. repeat case_match; lia. Qed.

Lemma mix_same s : (i16_min <= s <= i16_max)%Z -> mix_frame 2 [s; s] = Ok s.
Proof.
  unfold i16_min, i16_max. intros Hs. unfold mix_frame. cbn [sum_i32]. unfold is_i32. rewrite !(proj2 (Z.leb_le _ _)), !(proj2 (Z.ltb_lt _ _)) by lia. cbn [andb mbind res_mbind].
  unfold div_i32. change (as_i32 2) with 2%Z. cbn [Z.eqb]. replace (0 + s + s)%Z with (s * 2)%Z by lia. rewrite Z.quot_mul by done.
  unfold is_i32. rewrite (proj2 (Z.leb_le _ _)), (proj2 (Z.ltb_lt _ _)) by lia. cbn [andb mbind res_mbind]. unfold saturate, i16_min, i16_max. f_equal. lia.
Qed.

(** Interleaved stereo of two equal channels mixes to that channel. *)
Lemma mono_of_doubled (l : list Z) fuel : Forall (fun s => i16_min <= s <= i16_max)%Z l -> 2 * length l <= fuel ->
  mix_frames 2 (chunks_exact fuel 2 (mjoin ((fun s => [s; s]) <$> l))) = Ok (mjoin (i16_to_le <$> l)).
Proof.
  revert fuel. induction l as [|s l IH]; intros fuel Hl Hf; [by destruct fuel|]. apply Forall_cons in Hl as [Hs Hl]. destruct fuel as [|fuel]; [cbn in Hf; lia|].
  change (mjoin ((fun s => [s; s]) <$> s :: l)) with (s :: s :: mjoin ((fun s => [s; s]) <$> l)). 
  change (chunks_exact (S fuel) 2 (s :: s :: mjoin ((fun s => [s; s]) <$> l))) with ([s; s] :: chunks_exact fuel 2 (mjoin ((fun s => [s; s]) <$> l))). cbn [mix_frames].
  rewrite (mix_same s Hs). cbn [mbind res_mbind]. rewrite IH by (try done; cbn [length] in Hf; lia). done.
Qed.

Lemma length_pairs {A} (l : list A) : length (mjoin ((fun s => [s; s]) <$> l)) = 2 * length l.
Proof. induction l as [|s l IH]; [done|]. change (mjoin ((fun s => [s; s]) <$> s :: l)) with (s :: s :: mjoin ((fun s => [s; s]) <$> l)). cbn [length]. rewrite IH. lia. Qed.

Lemma Forall_pairs {A} (P : A -> Prop) (l : list A) : Forall P l -> Forall P (mjoin ((fun s => [s; s]) <$> l)).
Proof. induction 1 as [|s l Hs _ IH]; [constructor|]. change (mjoin ((fun s => [s; s]) <$> s :: l)) with (s :: s :: mjoin ((fun s => [s; s]) <$> l)). by repeat constructor. Qed.

Lemma pairs_aligned n : validate_channel_alignment 2 (2 * n) = Ok ().
Proof. unfold validate_channel_alignment, is_multiple_of. cbn [Nat.eqb]. by rewrite Nat.mul_comm, Nat.Div0.mod_mul. Qed.

Section Frames.
Context {FR : Assembler.FrameRaw} {D : OpusDecode}.

(** The decoder fills at most the buffer it is given. *)
Class OpusDecodeLaws := {
  decode_fits packet max buffer d n out d' : opus_decode packet max buffer d = (inr n, out, d') -> length out = length buffer /\ n <= max }.
Context {DL : OpusDecodeLaws}.

(** What decoding a frame gives: never a panic; only Opus is decoded; the
    samples are interleaved stereo at 48 kHz of 16 bits, as many as the layout
    says, and for a mono frame both channels are equal and mixing down gives the
    bytes of the one channel. *)
Theorem decoded_frame_stereo frame d : max_samples_per_channel d = FRAMES_PER_BLOCK -> sample_rate d = DISCORD_RATE ->
  match decode_frame frame d with
  | (Ok f, d') => decoded_frame f = frame /\ rf_codec frame = Opus /\
      layout_sample_rate_hz (pcm_layout f) = DISCORD_RATE /\ layout_channels (pcm_layout f) = 2 /\ samples_per_channel (pcm_layout f) <= FRAMES_PER_BLOCK /\
      length (pcm f) = 2 * samples_per_channel (pcm_layout f) /\ Forall (fun s => i16_min <= s <= i16_max)%Z (pcm f) /\
      (opus_frame_channels (rf_frame frame) = Ok 1 -> to_mono_s16le_bytes f = Ok (mjoin (i16_to_le ∘ pcm_f32_to_i16 <$> decoded_f32 d')))
  | (Err e, d') => rf_codec frame = Opus -> e = EmptyFrame /\ rf_frame frame = [] \/ exists reason, e = DecodeFailed DecodeFrame reason
  | (Panic, _) => False
  end.
Proof.
  intros Hmax Hrate. unfold decode_frame, decode_frame_into. destruct (decide (rf_codec frame = Opus)) as [Hop|Hop]; [|by intros ?].
  unfold opus_frame_channels. destruct (rf_frame frame) as [|toc rest] eqn:Hfr; [intros _; by left|].
  set (ch := if (Z.land toc 4 =? 0)%Z then 1 else 2). assert (ch = 1 \/ ch = 2) as Hch by (unfold ch; destruct (_ =? _)%Z; auto).
  assert ((ch =? 1) || (ch =? OPUS_CHANNELS) = true) as -> by (destruct Hch as [-> | ->]; done).
  destruct (opus_decode _ _ _ _) as [[[reason|n] out] x] eqn:Hdec; [intros _; right; by exists reason|].
  destruct (decode_fits _ _ _ _ _ _ _ Hdec) as [Hlen Hn]. cbn [with_decoded decoded_f32 max_samples_per_channel] in Hlen, Hn.
  cbn [mbind res_mbind meta_frame meta_pcm_layout decoded_frame pcm_layout layout_sample_rate_hz layout_channels samples_per_channel pcm with_decoded with_decoder sample_rate decoded_f32].
  rewrite Hmax in *. assert (length (take (n * ch) out) = n * ch) as Ht.
  { rewrite length_take, Hlen. unfold resize. rewrite length_app, length_take, length_replicate. nia. }
  split; [done|]. split; [done|]. split; [done|]. split; [done|]. split; [done|]. set (l := take (n * ch) out) in *.
  set (ints := pcm_f32_to_i16 <$> l). assert (Forall (fun s => i16_min <= s <= i16_max)%Z ints) as Hints by (apply Forall_fmap, Forall_true; intros; apply i16_range).
  assert ((fun x0 => [pcm_f32_to_i16 x0; pcm_f32_to_i16 x0]) <$> l = (fun s => [s; s]) <$> ints) as -> by (unfold ints; by rewrite <- list_fmap_compose).
  assert (length ints = n * ch) as Hli by (unfold ints; by rewrite length_fmap). destruct Hch as [Hc|Hc]; rewrite Hc in *; cbn [Nat.eqb].
  - split; [rewrite length_pairs; lia|]. split; [by apply Forall_pairs|]. intros _. unfold to_mono_s16le_bytes, interleaved_i16_to_mono_s16le.
    cbn [pcm pcm_layout layout_channels]. change (OPUS_CHANNELS =? 0) with false. cbn match. change OPUS_CHANNELS with 2.
    rewrite length_pairs, pairs_aligned. cbn [mbind res_mbind]. rewrite mono_of_doubled by (done || lia). cbn [map_err]. unfold ints. by rewrite <- list_fmap_compose.
  - split; [lia|]. split; [done|]. done.
Qed.
End Frames.

(** ** Samples of a part of the bytes *)
Definition floats (e : PcmEncoding) (data : bytes) : list f32 :=
  match e with
  | PcmF32Le => f32_clamp_unit <$> f32le_samples data
  | PcmS16Le => s16_to_f32 <$> s16le_samples data
  | PcmMuLaw => s16_to_f32 ∘ decode_mulaw <$> data
  | PcmALaw => s16_to_f32 ∘ decode_alaw <$> data
  end.

Lemma s16le_part k : forall l, s16le_samples (take (k * 2) l) = take k (s16le_samples l) /\ s16le_samples (drop (k * 2) l) = drop k (s16le_samples l).
Proof. induction k as [|k IH]; intros [|a [|b l]]; try done. cbn. destruct (IH l) as [-> ->]. done. Qed.

Lemma f32le_part k : forall l, f32le_samples (take (k * 4) l) = take k (f32le_samples l) /\ f32le_samples (drop (k * 4) l) = drop k (f32le_samples l).
Proof. induction k as [|k IH]; intros [|a [|b [|c [|d l]]]]; try done. cbn. destruct (IH l) as [-> ->]. done. Qed.

Lemma floats_part e k l : floats e (take (k * bytes_per_sample e) l) = take k (floats e l) /\ floats e (drop (k * bytes_per_sample e) l) = drop k (floats e l).
Proof.
  destruct e; cbn [floats bytes_per_sample descriptor desc_bytes_per_sample PCM_F32LE PCM_S16LE PCM_MULAW PCM_ALAW].
  - destruct (f32le_part k l) as [-> ->]. by rewrite fmap_take, fmap_drop.
  - destruct (s16le_part k l) as [-> ->]. by rewrite fmap_take, fmap_drop.
  - rewrite Nat.mul_1_r. by rewrite fmap_take, fmap_drop.
  - rewrite Nat.mul_1_r. by rewrite fmap_take, fmap_drop.
Qed.

Lemma sample_size e : byte_size (visit_encoding e) = bytes_per_sample e.
Proof. by destruct e. Qed.

Lemma size_pos e : 0 < bytes_per_sample e.
Proof. destruct e; cbn; lia. Qed.

Lemma append_floats e data : length data mod bytes_per_sample e = 0 -> pcm_append_f32 e data [] = Ok (floats e data) /\ length (floats e data) = length data / bytes_per_sample e.
Proof.
  intros Hm. assert (checked_byte_sample_count (visit_encoding e) (length data) = Ok (length data / bytes_per_sample e)) as Hc.
  { unfold checked_byte_sample_count, is_multiple_of. rewrite sample_size. pose proof (size_pos e). destruct (bytes_per_sample e) eqn:Hn; [lia|]. by rewrite Hm. }
  assert (pcm_append_f32 e data [] = Ok (floats e data)) as Ha by (unfold pcm_append_f32; revert Hc; destruct e; cbn [visit_encoding byte_samples append_f32 floats]; intros Hc; rewrite ?Hc; done).
  split; [done|]. pose proof (append_count (visit_encoding e) (byte_samples e data) []) as Hn. fold (pcm_append_f32 e data []) in Hn. rewrite Ha in Hn.
  revert Hn Hc. destruct e; cbn [visit_encoding byte_samples sample_count floats]; intros Hn Hc; rewrite ?Hc in Hn; destruct Hn as (x & _ & [= <-] & Hx); rewrite Hx;
    cbn [bytes_per_sample descriptor desc_bytes_per_sample PCM_MULAW PCM_ALAW]; by rewrite ?Nat.div_1_r.
Qed.

(** ** Archives *)

(** Samples of 20 ms. *)
Definition frame_len (rate : Z) : nat := Z.to_nat (rate * OPUS_ARCHIVE_FRAME_MS / 1000).

(** A reader that returns the packets, then none. *)
Inductive packets_of `{Ogg} : reader_t -> list OggPacket -> Prop :=
| no_packets r r' : read_packet r = (inr None, r') -> packets_of r []
| next_of p ps r r' : read_packet r = (inr (Some p), r') -> packets_of r' ps -> packets_of r (p :: ps).

(** The packets of a stream; the first is marked. *)
Definition stream_packets (l : list bytes) : list OggPacket :=
  match l with [] => [] | h :: l => {| first_in_stream := true; ogg_data := h |} :: (Build_OggPacket false <$> l) end.

(** A writer that was given packets of one stream keeps them ([stream w ended
    packets]), and what it wrote is read back once the stream has ended.  An
    encoder and a decoder for mono at one rate: 20 ms of audio become a packet
    of 20 ms, and such a packet becomes 20 ms of audio. *)
Class ArchiveLaws {RO : RawOpus} {D : OpusDecode} {G : Ogg} := {
  stream : writer_t -> bool -> list bytes -> Prop;
  stream_new : stream writer_new false [];
  stream_write w packets data info granule : stream w false packets ->
    exists w', write_packet data OGG_OPUS_ARCHIVE_SERIAL info granule w = (inr (), w') /\
      stream w' (match info with EndStream => true | _ => false end) (packets ++ [data]);
  stream_read w packets : stream w true packets -> into_inner w ≠ [] /\ packets_of (reader_new (into_inner w)) (stream_packets packets);
  mono_encoder : Z -> opus_t -> Prop;
  mono_decodes : Z -> decoder_t -> Prop;
  mono_encoder_new rate o b c : opus_new rate OPUS_ARCHIVE_CHANNELS Voip = inr o -> mono_encoder rate (set_cbr c (set_bitrate b o));
  mono_decoder_new rate d : decoder_new rate OPUS_ARCHIVE_CHANNELS = inr d -> mono_decodes rate d;
  mono_encode_ok rate o frame buffer : mono_encoder rate o -> length frame = frame_len rate -> OpusPacket.MAX_PACKET_BYTES <= length buffer ->
    exists written buffer' o', opus_encode frame (frame_len rate) buffer o = (inr written, buffer', o') /\ mono_encoder rate o' /\
      written <= length buffer' /\ length buffer' = length buffer /\ OpusPacket.validate_packet_bytes (take written buffer') = Ok ();
  mono_decode_ok rate d packet max : mono_decodes rate d -> OpusPacket.validate_packet_bytes packet = Ok () -> frame_len rate <= max ->
    exists out d', opus_decode packet max (replicate max f32_zero) d = (inr (frame_len rate), out, d') /\ mono_decodes rate d' /\ length out = max }.

Section Archive.
Context {RO : RawOpus} {D : OpusDecode} {G : Ogg} {AL : ArchiveLaws}.

(** The reference: the frames of the samples, their packets, and the samples of packets. *)
Definition frame_at (n : nat) (src : list f32) (i : nat) : list f32 := resize n (take n (drop (i * n) src)).

Fixpoint archived (n : nat) (frames : list (list f32)) (buffer : bytes) (o : opus_t) : list bytes :=
  match frames with
  | [] => []
  | f :: frames => match opus_encode f n buffer o with (inr w, buffer, o) => take w buffer :: archived n frames buffer o | _ => [] end
  end.

Fixpoint unarchived (max : nat) (packets : list bytes) (d : decoder_t) : list f32 :=
  match packets with
  | [] => []
  | p :: packets => match opus_decode p max (replicate max f32_zero) d with (inr n, out, d) => (f32_clamp_unit <$> take n out) ++ unarchived max packets d | _ => [] end
  end.

Definition valid_packets (l : list bytes) : Prop := Forall (fun b => OpusPacket.validate_packet_bytes b = Ok ()) l.

Lemma archived_ok rate frames : forall buffer o, mono_encoder rate o -> OpusPacket.MAX_PACKET_BYTES <= length buffer -> Forall (fun f => length f = frame_len rate) frames ->
  length (archived (frame_len rate) frames buffer o) = length frames /\ valid_packets (archived (frame_len rate) frames buffer o).
Proof.
  induction frames as [|f frames IH]; intros buffer o Ho Hb Hf; [split; [done|constructor]|]. apply Forall_cons in Hf as [Hl Hf].
  destruct (mono_encode_ok rate o f buffer Ho Hl Hb) as (w & buffer' & o' & He & Ho' & Hw & Hlb & Hv). cbn [archived]. rewrite He.
  destruct (IH buffer' o' Ho' ltac:(lia) Hf) as [H1 H2]. split; [cbn; by f_equal|]. by constructor.
Qed.

Lemma unarchived_length rate max packets : forall d, mono_decodes rate d -> frame_len rate <= max -> valid_packets packets ->
  length (unarchived max packets d) = length packets * frame_len rate.
Proof.
  induction packets as [|p packets IH]; intros d Hd Hm Hv; [done|]. apply Forall_cons in Hv as [Hp Hv].
  destruct (mono_decode_ok rate d p max Hd Hp Hm) as (out & d' & He & Hd' & Hl). cbn [unarchived]. rewrite He, length_app, length_fmap, length_take, (IH d' Hd' Hm Hv). cbn [length]. lia.
Qed.

Lemma length_frame_at n src i : length (frame_at n src i) = n.
Proof. unfold frame_at, resize. rewrite length_app, take_take, length_take, length_replicate, length_take. lia. Qed.

Section Chunk.
Variables (c : PcmChunk).
Abbreviation rate := (sample_rate_hz (format c)).
Abbreviation n := (frame_len (sample_rate_hz (format c))).
Abbreviation src := (floats (encoding (format c)) (chunk_data c)).
Hypothesis Hmod : length (chunk_data c) mod bytes_per_sample (encoding (format c)) = 0.

Lemma length_src : length src = sample_count_of c /\ length (chunk_data c) = sample_count_of c * bytes_per_sample (encoding (format c)).
Proof.
  destruct (append_floats _ _ Hmod) as [_ Hl]. split; [done|]. unfold sample_count_of. pose proof (Nat.div_mod_eq (length (chunk_data c)) (bytes_per_sample (encoding (format c)))). lia.
Qed.

Hypothesis Hn : 0 < n.

(** The bytes of a frame are the samples of the frame. *)
Lemma frame_bytes_run i : i * n <= sample_count_of c ->
  exists data, slice (E := AudioError) (chunk_data c) (i * n * bytes_per_sample (encoding (format c)))
      (Nat.min ((i + 1) * n) (sample_count_of c) * bytes_per_sample (encoding (format c))) = Ok data /\
    exists x, pcm_append_f32 (encoding (format c)) data [] = Ok x /\ resize n x = frame_at n src i.
Proof.
  intros Hi. destruct length_src as [Hs Hd]. set (m := bytes_per_sample (encoding (format c))) in *. set (stop := Nat.min ((i + 1) * n) (sample_count_of c)).
  assert (i * n <= stop <= sample_count_of c) as Hst by (unfold stop; nia). rewrite slice_ok by nia. eexists. split; [done|].
  replace (stop * m - i * n * m) with ((stop - i * n) * m) by nia.
  set (data := take ((stop - i * n) * m) (drop (i * n * m) (chunk_data c))).
  assert (length data = (stop - i * n) * m) as Hld by (unfold data; rewrite length_take, length_drop, Hd; nia).
  destruct (append_floats (encoding (format c)) data) as [Ha _]; [fold m; rewrite Hld; apply Nat.Div0.mod_mul|]. eexists. split; [exact Ha|].
  unfold data. pose proof (floats_part (encoding (format c)) (stop - i * n) (drop (i * n * m) (chunk_data c))) as Hp. fold m in Hp. rewrite (proj1 Hp). clear Hp.
  pose proof (floats_part (encoding (format c)) (i * n) (chunk_data c)) as Hp. fold m in Hp. rewrite (proj2 Hp). unfold frame_at, resize. rewrite !take_take, !length_take, !length_drop, Hs.
  assert (take (Nat.min n (stop - i * n)) (drop (i * n) src) = take (Nat.min n n) (drop (i * n) src)) as ->.
  { rewrite Nat.min_id. unfold stop. destruct (decide ((i + 1) * n <= sample_count_of c)) as [Hle|Hgt].
    - f_equal. nia.
    - rewrite !take_ge; [done| |]; rewrite length_drop, Hs; nia. }
  do 2 f_equal. unfold stop. nia.
Qed.

Lemma archive_loop_run fc todo : forall i step g buffer o w packets, i + todo = fc -> fc = div_ceil (sample_count_of c) n -> mono_encoder rate o ->
  OpusPacket.MAX_PACKET_BYTES <= length buffer -> stream w false packets ->
  exists w', archive_loop c n fc i todo step g buffer o w = (Ok (), w') /\
    stream w' (negb (todo =? 0)) (packets ++ archived n (frame_at n src <$> seq i todo) buffer o).
Proof.
  induction todo as [|todo IH]; intros i step g buffer o w packets Hi Hfc Ho Hb Hw; [exists w; by rewrite app_nil_r|]. cbn [archive_loop seq fmap list_fmap archived].
  assert (i * n <= sample_count_of c) as Hin.
  { unfold div_ceil in Hfc. pose proof (Nat.div_mod_eq (sample_count_of c) n). destruct (_ =? 0) in Hfc; nia. }
  destruct (frame_bytes_run i Hin) as (data & Hsl & x & Hx & Hr).
  destruct (mono_encode_ok rate o (frame_at n src i) buffer Ho (length_frame_at _ _ _) Hb) as (wr & buffer' & o' & He & Ho' & Hwr & Hlb & Hv). rewrite He.
  assert (archive_frame c n i buffer o = Ok (take wr buffer', buffer', o')) as Haf.
  { unfold archive_frame. rewrite Hsl. cbn [mbind res_mbind]. rewrite Hx. cbn [map_err mbind res_mbind]. rewrite Hr, He, slice_ok, drop_0, Nat.sub_0_r by lia. done. }
  unfold mbind, st_mbind, lift. rewrite Haf. unfold write.
  destruct (stream_write w packets (take wr buffer') (if i + 1 =? fc then EndStream else NormalPacket) (g + step) Hw) as (w1 & Hw1 & Hst). rewrite Hw1.
  destruct todo as [|todo].
  - rewrite (proj2 (Nat.eqb_eq (i + 1) fc)) in * by lia. cbn [archive_loop seq fmap list_fmap archived]. by exists w1.
  - rewrite (proj2 (Nat.eqb_neq (i + 1) fc)) in * by lia. destruct (IH (S i) step (g + step)%Z buffer' o' w1 (packets ++ [take wr buffer'])) as (w' & Hrun & Hst'); [lia|done|done|lia|done|].
    exists w'. split; [exact Hrun|]. by rewrite <- app_assoc in Hst'.
Qed.
End Chunk.

(** Reading the audio packets. *)
Lemma decode_loop_run rate max packets : forall fuel d x k r, mono_decodes rate d -> frame_len rate <= max -> valid_packets packets ->
  packets_of r (Build_OggPacket false <$> packets) -> length packets < fuel ->
  exists r', decode_loop fuel max 1 d x k r = (Ok (x ++ unarchived max packets d, k + length packets), r').
Proof.
  induction packets as [|p packets IH]; intros fuel d x k r Hd Hm Hv Hr Hf; (destruct fuel as [|fuel]; [cbn in Hf; lia|]); cbn [decode_loop]; unfold mbind, st_mbind, next_packet.
  - inversion Hr as [r0 r' Hread|]; subst. rewrite Hread. exists r'. cbn [unarchived]. rewrite app_nil_r, Nat.add_0_r. done.
  - apply Forall_cons in Hv as [Hp Hv]. inversion Hr as [|p0 ps r0 r' Hread Hrest]; subst. rewrite Hread. cbn [first_in_stream ogg_data].
    rewrite Nat.mul_1_r. destruct (mono_decode_ok rate d p max Hd Hp Hm) as (out & d' & He & Hd' & Hl). rewrite He, Nat.mul_1_r, Resampler.mono_chunks by lia.
    rewrite <- list_fmap_compose. destruct (IH fuel d' (x ++ (f32_clamp_unit <$> take (frame_len rate) out)) (k + 1) r' Hd' Hm Hv Hrest) as (r2 & Hrun); [cbn in Hf; lia|].
    exists r2. cbn [unarchived length]. rewrite He, app_assoc. replace (k + S (length packets)) with (k + 1 + length packets) by lia. exact Hrun.
Qed.

Lemma archive_rate rate : rate ∈ archive_rates -> 0 < frame_len rate /\ frame_len rate <= Z.to_nat (rate * 120 / 1000) /\ (rate < 2 ^ 31)%Z /\
  head_parse (opus_head rate) = Ok {| head_channels := 1; pre_skip := 0 |}.
Proof. unfold archive_rates. rewrite !elem_of_cons. intros [->|[->|[->|[->|[->|[]%not_elem_of_nil]]]]]; (split; [apply Nat.ltb_lt; vm_compute; reflexivity|]; split; [apply Nat.leb_le; vm_compute; reflexivity|]; split; [lia|reflexivity]). Qed.

Lemma tags_start vendor : starts_with opus_tags_magic (opus_tags vendor) = true.
Proof. unfold starts_with, opus_tags. rewrite take_app_length. by apply bool_decide_true. Qed.

Lemma div_ceil_pos a b : 0 < b -> 0 < a -> 0 < div_ceil a b.
Proof. intros Hb Ha. unfold div_ceil. pose proof (Nat.div_mod_eq a b). destruct (Nat.eqb_spec (a mod b) 0); nia. Qed.

Definition archive_frames (c : PcmChunk) : list (list f32) :=
  let n := frame_len (sample_rate_hz (format c)) in
  frame_at n (floats (encoding (format c)) (chunk_data c)) <$> seq 0 (div_ceil (sample_count_of c) n).

Lemma write_run data info g w packets : stream w false packets ->
  exists w', write data info g w = (Ok (), w') /\ stream w' (match info with EndStream => true | _ => false end) (packets ++ [data]).
Proof. intros Hw. destruct (stream_write w packets data info g Hw) as (w' & Hr & Hs). exists w'. split; [|done]. unfold write. by rewrite Hr. Qed.

Lemma samples_pos c : length (chunk_data c) mod bytes_per_sample (encoding (format c)) = 0 -> chunk_data c ≠ [] -> 0 < sample_count_of c.
Proof. intros Hmod Hne. destruct (length_src c Hmod) as [_ Hl]. assert (length (chunk_data c) ≠ 0) by (by destruct (chunk_data c)). nia. Qed.

Lemma encode_run c vendor o : length (chunk_data c) mod bytes_per_sample (encoding (format c)) = 0 -> chunk_data c ≠ [] -> vendor ≠ [] ->
  sample_rate_hz (format c) ∈ archive_rates -> opus_new (sample_rate_hz (format c)) OPUS_ARCHIVE_CHANNELS Voip = inr o ->
  exists a w, encode_ogg_opus_archive {| captured := c |} vendor = Ok a /\ content a = into_inner w /\ original_bytes a = length (chunk_data c) /\
    stream w true (opus_head (sample_rate_hz (format c)) :: opus_tags vendor ::
      archived (frame_len (sample_rate_hz (format c))) (archive_frames c) (replicate (Z.to_nat 4096) 0%Z) (set_cbr false (set_bitrate OGG_OPUS_ARCHIVE_BITRATE_BPS o))).
Proof.
  intros Hmod Hne Hv Hr Ho. destruct (archive_rate _ Hr) as (Hn & _). set (n := frame_len (sample_rate_hz (format c))) in *.
  destruct (write_run (opus_head (sample_rate_hz (format c))) EndPage 0 _ _ stream_new) as (w1 & E1 & S1). destruct (write_run (opus_tags vendor) EndPage 0 _ _ S1) as (w2 & E2 & S2).
  assert (0 < div_ceil (sample_count_of c) n) as Hpos by (apply div_ceil_pos; [done|]; by apply samples_pos).
  destruct (archive_loop_run c Hmod Hn (div_ceil (sample_count_of c) n) (div_ceil (sample_count_of c) n) 0 (OPUS_ARCHIVE_GRANULE_SAMPLE_RATE * OPUS_ARCHIVE_FRAME_MS / 1000) 0
    (replicate (Z.to_nat 4096) 0%Z) (set_cbr false (set_bitrate OGG_OPUS_ARCHIVE_BITRATE_BPS o)) w2 (([] ++ [opus_head (sample_rate_hz (format c))]) ++ [opus_tags vendor]) eq_refl eq_refl) as (w & E3 & S3).
  { by apply mono_encoder_new. }
  { rewrite length_replicate. apply Nat.leb_le. vm_compute. reflexivity. }
  { exact S2. }
  rewrite (proj2 (Nat.eqb_neq _ 0)) in S3 by lia. exists {| content := into_inner w; original_bytes := length (chunk_data c); archive_sample_rate_hz := sample_rate_hz (format c) |}, w.
  split; [|split; [reflexivity|split; [reflexivity|exact S3]]].
  unfold encode_ogg_opus_archive, archive_encoder_new. cbn [captured]. rewrite (proj2 (Nat.eqb_neq _ 0)) by (by destruct (chunk_data c)). rewrite bool_decide_true by done. cbn [mbind res_mbind].
  unfold archive_encode. cbn [audio]. destruct vendor as [|v vendor]; [done|]. rewrite Ho. unfold write_archive.
  rewrite (st_bind_run _ _ _ _ _ E1), (st_bind_run _ _ _ _ _ E2). fold (frame_len (sample_rate_hz (format c))). fold n. rewrite (proj2 (Nat.eqb_neq n 0)) by lia. fold n in E3. cbv zeta. by rewrite E3.
Qed.

Lemma accepted_aligned f data c : with_format f data = Ok c -> length data mod bytes_per_sample (encoding f) = 0.
Proof.
  unfold with_format, validate_bytes, validate_pcm_bytes. destruct (checked_byte_sample_count _ _) as [k|e|] eqn:Hk; [|done|done]. intros _. apply checked_count in Hk.
  rewrite sample_size in Hk. rewrite Hk. apply Nat.Div0.mod_mul.
Qed.

(** The steps of reading, once the packets are known. *)
Lemma decode_read fuel b rate vendor d x k r1 r2 r3 : b ≠ [] -> (rate < 2 ^ 31)%Z -> read_packet (reader_new b) = (inr (Some {| first_in_stream := true; ogg_data := opus_head rate |}), r1) ->
  head_parse (opus_head rate) = Ok {| head_channels := 1; pre_skip := 0 |} -> read_packet r1 = (inr (Some {| first_in_stream := false; ogg_data := opus_tags vendor |}), r2) ->
  decoder_new rate OPUS_ARCHIVE_CHANNELS = inr d -> decode_loop fuel (Z.to_nat (rate * 120 / 1000)) 1 d [] 0 r2 = (Ok (x, k), r3) -> 0 < k -> 0 < length x ->
  archive_decode fuel b rate = Ok {| mono_samples := x; input_channels := 1; mono_source_pcm_bytes := length x * 4; mono_sample_rate_hz := rate |}.
Proof.
  intros Hb Hlt R1 Hh R2 Hd Hl Hk Hx. unfold archive_decode. destruct b as [|v b]; [done|]. rewrite (proj2 (Z.leb_gt _ _)) by lia.
  unfold mbind, st_mbind, next_packet, lift. rewrite R1. cbn [first_in_stream ogg_data]. rewrite Hh, R2. cbn [ogg_data]. rewrite tags_start.
  unfold decode_audio. cbn [head_channels pre_skip]. change (Z.to_nat 1) with OPUS_ARCHIVE_CHANNELS. rewrite Hd. change OPUS_ARCHIVE_CHANNELS with 1. unfold mbind, st_mbind. rewrite Hl.
  rewrite (proj2 (Nat.eqb_neq k 0)), (proj2 (Nat.leb_gt _ _)) by lia. rewrite drop_0, (proj2 (Nat.eqb_neq _ 0)) by lia. cbn. by rewrite Nat.mul_1_r.
Qed.

(** C36. An archive of captured audio is read back: it holds one packet per frame
    of 20 ms, in order, the last filled with silence; decoding it at its rate
    gives the samples of these packets, as many as the frames hold, mono. *)
Theorem archive_roundtrip c vendor o d :
  with_format (format c) (chunk_data c) = Ok c -> channels (format c) = 1 -> chunk_data c ≠ [] -> vendor ≠ [] -> sample_rate_hz (format c) ∈ archive_rates ->
  opus_new (sample_rate_hz (format c)) OPUS_ARCHIVE_CHANNELS Voip = inr o -> decoder_new (sample_rate_hz (format c)) OPUS_ARCHIVE_CHANNELS = inr d ->
  exists a packets, captured_new c = Ok {| captured := c |} /\ encode_ogg_opus_archive {| captured := c |} vendor = Ok a /\
    packets = archived (frame_len (sample_rate_hz (format c))) (archive_frames c) (replicate (Z.to_nat 4096) 0%Z) (set_cbr false (set_bitrate OGG_OPUS_ARCHIVE_BITRATE_BPS o)) /\
    length packets = div_ceil (sample_count_of c) (frame_len (sample_rate_hz (format c))) /\
    forall fuel, length packets < fuel -> exists x, archive_decode fuel (content a) (sample_rate_hz (format c)) =
        Ok {| mono_samples := x; input_channels := 1; mono_source_pcm_bytes := length x * 4; mono_sample_rate_hz := sample_rate_hz (format c) |} /\
      x = unarchived (Z.to_nat (sample_rate_hz (format c) * 120 / 1000)) packets d /\
      length x = div_ceil (sample_count_of c) (frame_len (sample_rate_hz (format c))) * frame_len (sample_rate_hz (format c)).
Proof.
  intros Hw Hch Hne Hv Hr Ho Hd. assert (length (chunk_data c) mod bytes_per_sample (encoding (format c)) = 0) as Hmod by (by eapply accepted_aligned).
  destruct (archive_rate _ Hr) as (Hn & Hmax & Hlt & Hhead). destruct (encode_run c vendor o Hmod Hne Hv Hr Ho) as (a & w & Henc & Hcont & _ & Hst).
  set (packets := archived _ _ _ _) in *. exists a, packets.
  destruct (archived_ok (sample_rate_hz (format c)) (archive_frames c) (replicate (Z.to_nat 4096) 0%Z) (set_cbr false (set_bitrate OGG_OPUS_ARCHIVE_BITRATE_BPS o))) as [Hl Hval].
  { by apply mono_encoder_new. }
  { rewrite length_replicate. apply Nat.leb_le. vm_compute. reflexivity. }
  { apply Forall_fmap, Forall_true. intros i. apply length_frame_at. }
  fold packets in Hl, Hval. unfold archive_frames in Hl. rewrite length_fmap, length_seq in Hl.
  split; [unfold captured_new; by rewrite Hch|]. split; [done|]. split; [done|]. split; [done|]. intros fuel Hf.
  destruct (stream_read w _ Hst) as [Hcne Hpk]. rewrite <- Hcont in *. cbn [stream_packets fmap list_fmap] in Hpk.
  inversion Hpk as [|p0 ps r0 r1 R1 Hpk1]; subst p0 ps r0. inversion Hpk1 as [|p0 ps r0 r2 R2 Hpk2]; subst p0 ps r0.
  destruct (decode_loop_run _ _ packets fuel d [] 0 r2 (mono_decoder_new _ _ Hd) Hmax Hval Hpk2 Hf) as (r3 & Hloop). cbn [app Nat.add] in Hloop.
  pose proof (unarchived_length _ _ packets d (mono_decoder_new _ _ Hd) Hmax Hval) as Hlen. eexists. split; [|split; [reflexivity|by rewrite Hlen, Hl]].
  assert (0 < length packets) as Hp by (rewrite Hl; apply div_ceil_pos; [done|]; by apply samples_pos).
  eapply (decode_read fuel _ _ vendor d _ _ r1 r2 r3); [done|done|exact R1|done|exact R2|done|exact Hloop|done|rewrite Hlen; nia].
Qed.
End Archive.

(** ** Samples: packets with a length in front, an encoder that numbers its packets, a decoder that leaves silence *)
Section Samples.
#[local] Instance plain_ogg : Ogg := {|
  reader_t := bool * bytes;
  reader_new := fun b => (true, b);
  read_packet := fun r => match r.2 with
                          | [] => (inr None, r)
                          | n :: rest => (inr (Some {| first_in_stream := r.1; ogg_data := take (Z.to_nat n) rest |}), (false, drop (Z.to_nat n) rest))
                          end;
  writer_t := list bytes * bool;
  writer_new := ([], false);
  write_packet := fun data _ info _ w => (inr (), (w.1 ++ [data], match info with EndStream => true | _ => false end));
  into_inner := fun w => mjoin ((fun p => Z.of_nat (length p) :: p) <$> w.1) |}.

#[local] Instance counting_opus : RawOpus := {|
  opus_t := nat;
  opus_new := fun _ _ _ => inr 0;
  set_bitrate := fun _ o => o;
  set_cbr := fun _ o => o;
  opus_encode := fun _ _ buffer o => (inr 3, [0xf8; Z.of_nat o; 0xfe]%Z ++ drop 3 buffer, S o) |}.

#[local] Instance silent_decoder : OpusDecode := {|
  decoder_t := Z;
  decoder_new := fun rate _ => inr rate;
  opus_decode := fun _ max buffer rate => (if frame_len rate <=? max then inr (frame_len rate) else inl "too long"%string, buffer, rate) |}.

Lemma plain_reads ps : forall first, packets_of (first, mjoin ((fun p => Z.of_nat (length p) :: p) <$> ps))
  (match ps with [] => [] | h :: l => {| first_in_stream := first; ogg_data := h |} :: (Build_OggPacket false <$> l) end).
Proof.
  induction ps as [|p ps IH]; intros first; [by econstructor|]. change (mjoin ((fun p => Z.of_nat (length p) :: p) <$> p :: ps)) with (Z.of_nat (length p) :: p ++ mjoin ((fun p => Z.of_nat (length p) :: p) <$> ps)).
  eapply next_of; [|specialize (IH false); destruct ps; exact IH]. cbn [read_packet plain_ogg snd fst]. by rewrite Nat2Z.id, take_app_length, drop_app_length.
Qed.

#[local, refine] Instance plain_laws : ArchiveLaws := {|
  stream := fun w ended ps => w = (ps, ended) /\ (ended = true -> ps ≠ []);
  mono_encoder := fun _ _ => True;
  mono_decodes := fun rate d => d = rate |}.
Proof.
  - done.
  - intros w ps data info g [-> _]. eexists. split; [reflexivity|]. split; [done|]. intros _. by destruct ps.
  - intros w ps [-> Hne]. specialize (Hne eq_refl). split; [by destruct ps|]. apply (plain_reads ps true).
  - done.
  - by intros rate d [= <-].
  - intros rate o frame buffer _ _ Hb. eexists 3, _, _. split; [reflexivity|]. split; [done|].
    assert (3 <= length buffer) by (unfold OpusPacket.MAX_PACKET_BYTES in Hb; lia). split; [rewrite length_app; cbn; lia|]. split; [rewrite length_app, length_drop; cbn [length]; lia|reflexivity].
  - intros rate d packet max -> _ Hm. cbn [opus_decode silent_decoder]. rewrite (proj2 (Nat.leb_le _ _)) by done. eexists _, _. split; [done|]. split; [done|]. by rewrite length_replicate.
Defined.

#[local] Instance silent_decoder_laws : OpusDecodeLaws.
Proof. constructor. intros packet max buffer d n out d'. cbn [opus_decode silent_decoder]. destruct (Nat.leb_spec (frame_len d) max); intros [= <- <- <-]. done. Defined.

#[local] Instance no_raw : Assembler.FrameRaw := {| Assembler.raw_packet := (); Assembler.raw_frame := (); Assembler.from_rtp_packets := fun _ => () |}.

Definition mono_frame : ReceivedFrame := {|
  rf_raw := (); rf_rtp := {| Rtp.version := 2; Rtp.padding := false; Rtp.extension := false; Rtp.marker := false; Rtp.payload_type := 120%Z; Rtp.seq := 1; Rtp.timestamp := 960;
    Rtp.ssrc := 7; Rtp.header_len := 12; Rtp.encrypted_body_offset := 12 |}; rf_user_id := None; rf_media_type := Frame.Audio; rf_codec := Opus; rf_frame := [0xf8; 0xff; 0xfe]%Z |}.
Definition fresh_decoder : Decoder :=
  {| mono_decoder := DISCORD_RATE; stereo_decoder := DISCORD_RATE; decoded_f32 := []; sample_rate := DISCORD_RATE; max_samples_per_channel := FRAMES_PER_BLOCK |}.

Lemma decoded_frame_stereo_witness : match decode_frame mono_frame fresh_decoder with
  | (Ok f, d') => length (pcm f) = 2 * samples_per_channel (pcm_layout f) /\ to_mono_s16le_bytes f = Ok (mjoin (i16_to_le ∘ pcm_f32_to_i16 <$> decoded_f32 d'))
  | _ => False
  end.
Proof.
  pose proof (decoded_frame_stereo mono_frame fresh_decoder eq_refl eq_refl) as H. destruct (decode_frame mono_frame fresh_decoder) as [[f|e|] d'] eqn:Hd.
  - destruct H as (_ & _ & _ & _ & _ & Hl & _ & Hm). split; [exact Hl|]. apply Hm. reflexivity.
  - discriminate Hd.
  - destruct H.
Defined.

Definition recording : PcmChunk := {| format := {| sample_rate_hz := 8000; channels := 1; encoding := PcmS16Le |}; chunk_data := replicate 500 1%Z |}.

Lemma archive_roundtrip_witness : exists a packets,
  captured_new recording = Ok {| captured := recording |} /\ encode_ogg_opus_archive {| captured := recording |} [99%Z] = Ok a /\
  packets = archived 160 (archive_frames recording) (replicate (Z.to_nat 4096) 0%Z) (set_cbr false (set_bitrate OGG_OPUS_ARCHIVE_BITRATE_BPS 0)) /\
  length packets = div_ceil (sample_count_of recording) 160 /\
  forall fuel, length packets < fuel -> exists x, archive_decode fuel (content a) 8000 =
      Ok {| mono_samples := x; input_channels := 1; mono_source_pcm_bytes := length x * 4; mono_sample_rate_hz := 8000 |} /\
    x = unarchived 960 packets 8000%Z /\ length x = div_ceil (sample_count_of recording) 160 * 160.
Proof. apply (archive_roundtrip (RO := counting_opus) (D := silent_decoder) (G := plain_ogg) recording [99%Z] 0 8000%Z); [reflexivity|reflexivity|discriminate|discriminate|by left|reflexivity|reflexivity]. Defined.

(** 250 samples at 8 kHz are two frames of 160. *)
Example recording_archived : match encode_ogg_opus_archive {| captured := recording |} [99%Z] with
  | Ok a => match archive_decode 3 (content a) 8000 with Ok m => length (mono_samples m) = 320 | _ => False end
  | _ => False end.
Proof. vm_compute. reflexivity. Qed.

(** The pre-skip of the header counts samples at 48 kHz (RFC 7845, section 5.1);
    the reader drops as many samples of its own rate.  312 samples at 48 kHz are
    52 at 8 kHz, so that 268 of the 320 samples are audio; 8 are returned. *)
Definition with_pre_skip : bytes :=
  into_inner ([opus_head_magic ++ [1; 1; 56; 1; 0; 0; 0; 0; 0; 0; 0]%Z; opus_tags [99%Z]; [0xf8; 0; 0xfe]%Z; [0xf8; 1; 0xfe]%Z], true).

Example pre_skip_not_scaled : match archive_decode 3 with_pre_skip 8000 with Ok m => length (mono_samples m) = 8 | _ => False end.
Proof. vm_compute. reflexivity. Qed.
End Samples.
End OpusAudioSpec.
