(* ===== verification/Connect.v ===== *)
(** * Connecting (cacophony/src/connection/driver.rs, state.rs, gateway.rs)

    The configuration of a connection and its validation, the commands of the
    handshake, and [connect_validated_with_observer_and_raw]: the websocket is
    opened, Hello read, Identify sent, Ready awaited, the own address discovered
    over UDP, SelectProtocol sent and the session description awaited; then the
    events that came in between are replayed and the driver is made.

    What the network does is data: [incoming] is what [read.next()] yields in
    turn ([Silence] when the timer of the stage fires first), [ws n] whether the
    [n]-th message can be sent.  JSON decoding is [GatewayJson] and
    [HandshakeJson]; a DAVE coordinator is made by [dave_new]. *)

From Stdlib Require Import SpecFloat.
From stdpp Require Import strings pretty.
From S2P Require Import Prelude Effects IeeeFloat Tuning Frame Rtp Codecs Outbound Queue Assembler PendingMedia DaveGateway Gateway.
From S2P Require Import ReadyFrames Pipeline Send.
Import PendingMedia.PendingMedia.
#[local] Open Scope Z_scope.

Module Connect.

Definition NANOS : Z := 1000000000.
Definition CONNECT_TIMEOUT : Z := 15 * NANOS.
Definition HELLO_TIMEOUT : Z := 10 * NANOS.
Definition READY_TIMEOUT : Z := 10 * NANOS.
Definition UDP_DISCOVERY_TIMEOUT : Z := 5 * NANOS.
Definition SESSION_DESCRIPTION_TIMEOUT : Z := 10 * NANOS.
Definition DAVE_SEND_MEDIA_READY_TIMEOUT : Z := 20 * NANOS.

Inductive ConnectStage := WebSocketConnect | StageHello | StageReady | StageUdpDiscovery | StageSessionDescription.

(** ** Configuration *)
Section Config.
Context {K : Type}.

Record ConnectionConfig := { guild_id : Z; channel_id : Z; user_id : Z; session_id : string; token : string; endpoint : string }.

Record ConnectionOptions := {
  gateway_version : Z; required_mode : option Rtp.EncryptionMode; max_dave_protocol_version : option Z; dave_identity : option K;
  dave_send_media_ready_timeout : Z; opt_codec_preferences : list MediaCodec; opt_tuning : Tuning.ConnectionTuning }.

(** [ConnectionOptions::default] *)
Definition options_default : ConnectionOptions :=
  {| gateway_version := 8; required_mode := Some Rtp.AeadAes256GcmRtpSize; max_dave_protocol_version := Some 1; dave_identity := None;
     dave_send_media_ready_timeout := DAVE_SEND_MEDIA_READY_TIMEOUT; opt_codec_preferences := []; opt_tuning := Tuning.tuning_default |}.

Inductive InputError := UnsupportedGatewayVersion (version : Z) | InTuning (e : Tuning.InvalidInputError).

Record ValidatedConnectionOptions := {
  v_gateway_version : Z; v_required_mode : option Rtp.EncryptionMode; v_max_dave_protocol_version : option Z; v_dave_identity : option K;
  v_dave_send_media_ready_timeout : Z; v_codec_preferences : list MediaCodec; v_tuning : Tuning.ConnectionRuntimeTuning }.

(** [ConnectionOptions::validate] *)
Definition options_validate (o : ConnectionOptions) : res InputError ValidatedConnectionOptions :=
  if gateway_version o <? 4 then Err (UnsupportedGatewayVersion (gateway_version o))
  else
    t ← map_err InTuning (Tuning.validate (opt_tuning o));
    Ok {| v_gateway_version := gateway_version o; v_required_mode := required_mode o; v_max_dave_protocol_version := max_dave_protocol_version o;
          v_dave_identity := dave_identity o; v_dave_send_media_ready_timeout := dave_send_media_ready_timeout o;
          v_codec_preferences := opt_codec_preferences o; v_tuning := t |}.

Definition contains (s sub : string) : bool := is_some (String.index 0 sub s).

Definition websocket_url (endpoint : string) (gateway_version : Z) : string :=
  let endpoint := if contains endpoint "://" then endpoint else ("wss://" +:+ endpoint)%string in
  if contains endpoint "?v=" then endpoint
  else (endpoint +:+ (if contains endpoint "?" then "&" else "/?") +:+ "v=" +:+ pretty gateway_version)%string.

Record ValidatedConnectionConfig := {
  c_guild_id : Z; c_channel_id : Z; c_user_id : Z; c_session_id : string; c_token : string; c_endpoint : string; c_websocket_url : string;
  c_options : ValidatedConnectionOptions }.

(** [ConnectionRequest::validate] *)
Definition request_validate (c : ConnectionConfig) (o : ConnectionOptions) : res InputError ValidatedConnectionConfig :=
  options ← options_validate o;
  Ok {| c_guild_id := guild_id c; c_channel_id := channel_id c; c_user_id := user_id c; c_session_id := session_id c; c_token := token c;
        c_endpoint := endpoint c; c_websocket_url := websocket_url (endpoint c) (v_gateway_version options); c_options := options |}.

(** [ConnectionConfig::validate] *)
Definition config_validate (c : ConnectionConfig) : res InputError ValidatedConnectionConfig := request_validate c options_default.

Record ConnectionInfo := { info_guild_id : Z; info_channel_id : Z; info_user_id : Z; info_endpoint : string; info_gateway_version : Z; info_max_dave_protocol_version : option Z }.

(** [ValidatedConnectionConfig::info] *)
Definition config_info (c : ValidatedConnectionConfig) : ConnectionInfo :=
  {| info_guild_id := c_guild_id c; info_channel_id := c_channel_id c; info_user_id := c_user_id c; info_endpoint := c_endpoint c;
     info_gateway_version := v_gateway_version (c_options c); info_max_dave_protocol_version := v_max_dave_protocol_version (c_options c) |}.

(** ** The commands of the handshake *)
Record IdentifyStream := { id_kind : string; id_rid : string; id_quality : Z; id_active : bool }.

Record IdentifyCommand := {
  id_server_id : string; id_user_id : string; id_session_id : string; id_token : string; id_video : bool; id_streams : list IdentifyStream;
  id_max_dave_protocol_version : option Z }.

(** [ConnectionCodecPreferences::video_enabled] *)
Definition video_enabled (preferences : list MediaCodec) : bool := match preferences with [] => false | _ => true end.

(** [IdentifyCommand::from_config] *)
Definition identify_from_config (c : ValidatedConnectionConfig) : IdentifyCommand :=
  let video := video_enabled (v_codec_preferences (c_options c)) in
  {| id_server_id := pretty (c_guild_id c); id_user_id := pretty (c_user_id c); id_session_id := c_session_id c; id_token := c_token c; id_video := video;
     id_streams := if video then [{| id_kind := "video"; id_rid := Gateway.PRIMARY_VIDEO_RID; id_quality := Gateway.PRIMARY_VIDEO_QUALITY; id_active := true |}] else [];
     id_max_dave_protocol_version := v_max_dave_protocol_version (c_options c) |}.

Record SelectProtocolCommand := {
  protocol : string; data_address : bytes; data_port : Z; data_mode : Rtp.EncryptionMode; select_codecs : list Gateway.SelectProtocolCodec }.

(** [SelectProtocolCommand::udp] *)
Definition select_udp (address : bytes) (port : Z) (mode : Rtp.EncryptionMode) (preferences : list MediaCodec) : SelectProtocolCommand :=
  {| protocol := "udp"; data_address := address; data_port := port; data_mode := mode; select_codecs := Gateway.select_protocol_codecs preferences |}.

Inductive Outgoing := OutIdentify (c : IdentifyCommand) | OutSelectProtocol (c : SelectProtocolCommand).
End Config.
#[global] Arguments ConnectionOptions : clear implicits.
#[global] Arguments ValidatedConnectionOptions : clear implicits.
#[global] Arguments ValidatedConnectionConfig : clear implicits.

(** ** What the gateway says *)
Record GatewayReady := { r_ready : Send.GatewayReady; r_ip : string; r_port : Z; r_modes : list string }.

Class HandshakeJson (J : Gateway.GatewayJson) := {
  parse_hello : Gateway.json -> Gateway.json_error + IeeeFloat.f64;
  parse_ready : Gateway.json -> Gateway.json_error + GatewayReady }.

(** [HelloData::heartbeat_interval_ms] *)
Definition f64_one : IeeeFloat.f64 := IeeeFloat.f64_of_int 1.
Definition heartbeat_interval_ms (interval : IeeeFloat.f64) : Z :=
  IeeeFloat.f64_ceil_as_usize (match SFcompare interval f64_one with Some Gt | Some Eq => interval | _ => f64_one end).

(** ** The UDP socket *)
Inductive IpAddr := V4 (octets : list Z) | V6 (segments : list Z).
Record SocketAddr := { addr_ip : IpAddr; addr_port : Z }.

Definition UNSPECIFIED_V4 : IpAddr := V4 (replicate 4 0).
Definition UNSPECIFIED_V6 : IpAddr := V6 (replicate 8 0).

Record VoiceUdpRemote := { remote_addr : IpAddr }.

(** What the system does: [str::parse::<IpAddr>], [UdpSocket::bind] and
    [UdpSocket::connect] on an address, and whether the request goes out. *)
Record UdpSystem := { ip_parse : string -> option IpAddr; udp_bind : SocketAddr -> bool; udp_connect : string -> Z -> bool; udp_request : bool }.

(** [VoiceUdpRemote::parse] *)
Definition udp_remote_parse (sys : UdpSystem) (remote_ip : string) : res Gateway.ProtocolError VoiceUdpRemote :=
  match ip_parse sys remote_ip with Some a => Ok {| remote_addr := a |} | None => Err (Gateway.InvalidDiscordVoiceUdpIp remote_ip) end.

(** [VoiceUdpRemote::bind_addr] *)
Definition bind_addr (r : VoiceUdpRemote) : SocketAddr :=
  {| addr_ip := match remote_addr r with V4 _ => UNSPECIFIED_V4 | V6 _ => UNSPECIFIED_V6 end; addr_port := 0 |}.

Section Connect.
Context {R : Assembler.FrameRaw} {PC : Pipeline.PacketCapture R} {AEAD : Rtp.TransportAead} {D : Pipeline.DaveMedia}.
Context {IS : Deadlines.SetIter (K := Z)} {IB : Deadlines.SetIter (K := PendingMedia.DavePendingMediaBucket)}.
Context {J : Gateway.GatewayJson} {HJ : HandshakeJson J} {K DaveError : Type}.

Record ParsedVoiceGatewayEvent := { opcode : Z; seq : option Z; data : Gateway.json }.

(** What [read.next()] yields. *)
Inductive Incoming :=
| InText (e : Gateway.json_error + ParsedVoiceGatewayEvent)
| InBinary (b : bytes)
| InOther
| InError
| Silence.

Inductive ConnectError :=
| ETimeout (stage : ConnectStage) (duration : Z)
| EClosed
| EWebSocket
| EIo
| EGateway (e : Gateway.GatewayError)
| EProtocol (e : Gateway.ProtocolError)
| ETransport (e : Rtp.Error)
| EDave (e : DaveError).

(** A future that runs under a timeout: it ends, or the timer fires first. *)
Inductive outcome (A : Type) := Done (r : ConnectError + A) | Elapsed.
#[global] Arguments Done {A} r.
#[global] Arguments Elapsed {A}.

Record Handshake := { incoming : list Incoming; outgoing : list Outgoing; stages : list (ConnectStage * bool) }.

Definition hs (A : Type) : Type := st Handshake ConnectError A.

Definition with_incoming (l : list Incoming) (h : Handshake) : Handshake := {| incoming := l; outgoing := outgoing h; stages := stages h |}.
Definition with_outgoing (m : Outgoing) (h : Handshake) : Handshake := {| incoming := incoming h; outgoing := outgoing h ++ [m]; stages := stages h |}.
Definition with_stage (s : ConnectStage) (ok : bool) (h : Handshake) : Handshake := {| incoming := incoming h; outgoing := outgoing h; stages := stages h ++ [(s, ok)] |}.

(** [parse_event_text] *)
Definition parse_event_text (e : Gateway.json_error + ParsedVoiceGatewayEvent) : ConnectError + ParsedVoiceGatewayEvent :=
  match e with inl e => inl (EGateway (Gateway.EJson e)) | inr ev => inr ev end.

Fixpoint read_event (l : list Incoming) : outcome ParsedVoiceGatewayEvent * list Incoming :=
  match l with
  | [] => (Done (inl EClosed), [])
  | InText e :: l => (Done (parse_event_text e), l)
  | (InBinary _ | InOther) :: l => read_event l
  | InError :: l => (Done (inl EWebSocket), l)
  | Silence :: l => (Elapsed, l)
  end.

Definition note (ev : ParsedVoiceGatewayEvent) (last_seq : option Z) : option Z := match seq ev with Some s => Some s | None => last_seq end.

(** The loop reads one event after another; it runs on the list itself. *)
Fixpoint wait_for_opcode (o : Gateway.Opcode) (last_seq : option Z) (l : list Incoming) : outcome (ParsedVoiceGatewayEvent * option Z) * list Incoming :=
  match l with
  | [] => (Done (inl EClosed), [])
  | InText (inl e) :: l => (Done (inl (EGateway (Gateway.EJson e))), l)
  | InText (inr ev) :: l =>
      if opcode ev =? Gateway.opcode_byte o then (Done (inr (ev, note ev last_seq)), l) else wait_for_opcode o (note ev last_seq) l
  | (InBinary _ | InOther) :: l => wait_for_opcode o last_seq l
  | InError :: l => (Done (inl EWebSocket), l)
  | Silence :: l => (Elapsed, l)
  end.

Fixpoint wait_for_session_description (last_seq : option Z) (pending : list Gateway.PendingGatewayEvent) (l : list Incoming)
    : outcome (ParsedVoiceGatewayEvent * list Gateway.PendingGatewayEvent * option Z) * list Incoming :=
  match l with
  | [] => (Done (inl EClosed), [])
  | InText (inl e) :: l => (Done (inl (EGateway (Gateway.EJson e))), l)
  | InText (inr ev) :: l =>
      if opcode ev =? Gateway.opcode_byte Gateway.OpSessionDescription then (Done (inr (ev, pending, note ev last_seq)), l)
      else wait_for_session_description (note ev last_seq) (pending ++ [Gateway.Text (opcode ev) (seq ev) (data ev)]) l
  | InBinary b :: l => wait_for_session_description last_seq (pending ++ [Gateway.Binary b]) l
  | InOther :: l => wait_for_session_description last_seq pending l
  | InError :: l => (Done (inl EWebSocket), l)
  | Silence :: l => (Elapsed, l)
  end.

(** [stage_timeout] *)
Definition stage_timeout {A} (stage : ConnectStage) (duration : Z) (o : outcome A) : res ConnectError A :=
  match o with Done (inr a) => Ok a | Done (inl e) => Err e | Elapsed => Err (ETimeout stage duration) end.

Definition observed_stage_timeout {A} (stage : ConnectStage) (duration : Z) (m : list Incoming -> outcome A * list Incoming) : hs A := fun h =>
  let '(o, l) := m (incoming h) in
  let r := stage_timeout stage duration o in
  (r, with_stage stage (match r with Ok _ => true | _ => false end) (with_incoming l h)).

(** A future that does not read the websocket. *)
Definition elsewhere {A} (o : outcome A) (l : list Incoming) : outcome A * list Incoming := (o, l).

Variable (ws : nat -> bool).

(** [write.send(WsMessage::Text(..)).await?] *)
Definition send_text (m : Outgoing) : hs () := fun h => if ws (length (outgoing h)) then (Ok (), with_outgoing m h) else (Err EWebSocket, h).

Definition gateway {A} (m : res Gateway.GatewayError A) : hs A := lift (map_err EGateway m).

(** The rest of the environment: the websocket, the UDP socket and the reply
    that comes on it, random bytes for the streams, and the coordinator. *)
Variables (websocket : outcome ()) (udp_system : UdpSystem) (udp_reply : outcome bytes).
Variables (random_audio random_video : option bytes) (dave_new : Z -> Z -> option K -> DaveError + Pipeline.dave_t).

(** What [connect] returns: the driver, and what its methods read of the state. *)
Record Connected := {
  driver : Send.ConnectionDriver; conn_ready : GatewayReady; conn_discovery : Gateway.UdpDiscoveryPacket; selected_mode : Rtp.EncryptionMode;
  conn_heartbeat_interval_ms : Z; conn_tuning : Tuning.ConnectionRuntimeTuning; conn_ready_timeout : Z }.

(** [SessionDescription] from its data. *)
Definition describe (d : Gateway.json) : res Gateway.GatewayError Gateway.SessionDescription :=
  parts ← Gateway.parse_data (Gateway.parse_session_description d); map_err Gateway.EDescription (Gateway.session_description_new parts).

(** The driver before its task runs. *)
Definition driver_before (tuning : Tuning.ConnectionRuntimeTuning) (conn : Gateway.ConnectionInternalState) (v : Pipeline.dave_t) (t : Rtp.TransportCrypto) (s : Send.SendPipeline)
    : Send.ConnectionDriver :=
  {| Send.base := Pipeline.driver_new tuning conn v t; Send.send := s; Send.pending_media_ready_waits := Timers.timers_default;
     Send.pending_media_ready_sends := Timers.timers_default; Send.wire := []; Send.udp_count := 0; Send.commands := []; Send.ws_count := 0; Send.answers := [];
     Send.closed := false; Send.close_frames := 0 |}.

(** From the session description to the driver. *)
Definition establish (config : ValidatedConnectionConfig K) (ready : GatewayReady) (last_seq : option Z) (description : Gateway.json)
    (pending : list Gateway.PendingGatewayEvent) : res ConnectError Send.ConnectionDriver :=
  let options := c_options config in
  sd ← map_err EGateway (describe description);
  codecs ← map_err EGateway (Gateway.rtp_codec_map sd (v_codec_preferences options));
  conn ← map_err EGateway (Gateway.replay_pending_voice_events pending Gateway.ack_default
                             (Gateway.connection_initial (v_codec_preferences options) last_seq (c_user_id config) sd codecs));
  sd ← ok_or (EProtocol Gateway.MissingSessionDescription) (Gateway.session_description conn);
  crypto ← map_err ETransport (Rtp.from_config (Gateway.transport_crypto sd));
  dave ← match dave_new (c_user_id config) (c_channel_id config) (v_dave_identity options) with inl e => Err (EDave e) | inr d => Ok d end;
  send ← map_err ETransport (Send.send_pipeline_new random_audio random_video (r_ready ready) conn);
  Ok (driver_before (v_tuning options) conn dave crypto send).

(** An operation on the socket that can fail. *)
Definition io (ok : bool) : hs () := if ok then mret () else throw EIo.

(** [connect_validated_with_observer_and_raw] *)
Definition connect (config : ValidatedConnectionConfig K) : hs Connected :=
  let options := c_options config in
  _ ← observed_stage_timeout WebSocketConnect CONNECT_TIMEOUT (elsewhere websocket);
  hello ← observed_stage_timeout StageHello HELLO_TIMEOUT read_event;
  interval ← gateway (Gateway.parse_data (parse_hello (data hello)));
  _ ← send_text (OutIdentify (identify_from_config config));
  '(ready_event, last_seq) ← observed_stage_timeout StageReady READY_TIMEOUT (wait_for_opcode Gateway.OpReady (seq hello));
  ready ← gateway (Gateway.parse_data (parse_ready (data ready_event)));
  remote ← lift (map_err EProtocol (udp_remote_parse udp_system (r_ip ready)));
  _ ← io (udp_bind udp_system (bind_addr remote));
  _ ← io (udp_connect udp_system (r_ip ready) (r_port ready));
  _ ← io (udp_request udp_system);
  reply ← observed_stage_timeout StageUdpDiscovery UDP_DISCOVERY_TIMEOUT (elsewhere udp_reply);
  discovery ← lift (map_err EProtocol (Gateway.discovery_decode (take Gateway.DISCOVERY_LEN reply)));
  mode ← lift (map_err EProtocol (Gateway.select_encryption_mode (r_modes ready) (v_required_mode options)));
  _ ← send_text (OutSelectProtocol (select_udp (Gateway.address discovery) (Gateway.port discovery) mode (v_codec_preferences options)));
  '(description, pending, last_seq) ← observed_stage_timeout StageSessionDescription SESSION_DESCRIPTION_TIMEOUT (wait_for_session_description last_seq []);
  d ← lift (establish config ready last_seq (data description) pending);
  mret {| driver := d; conn_ready := ready; conn_discovery := discovery; selected_mode := mode; conn_heartbeat_interval_ms := heartbeat_interval_ms interval;
          conn_tuning := v_tuning options; conn_ready_timeout := v_dave_send_media_ready_timeout options |}.

End Connect.
End Connect.
