(* ===== verification/ConnectSpec.v ===== *)
(** * What connecting establishes (cacophony/src/connection/driver.rs)

    The handshake goes through its stages in order, sends Identify and
    SelectProtocol and nothing else, and ends in an error or in a driver whose
    state the properties of the driver and of the receive pipeline start from. *)

From Stdlib Require Import SpecFloat.
From stdpp Require Import strings.
From S2P Require Import Prelude Effects IeeeFloat Tuning Frame Rtp Codecs Outbound Queue Assembler PendingMedia DaveGateway Gateway.
From S2P Require Import ReadyFrames Pipeline Send Driver DriverSpec Connect.
Import IeeeFloat PendingMedia.PendingMedia Connect.
#[local] Open Scope Z_scope.

Module ConnectSpec.

(** ** Values *)
Lemma ceil_positive m e : 1 <= ceil_finite false m e.
Proof.
  unfold ceil_finite, cond_Zopp. destruct (Z.leb_spec 0 e).
  - pose proof (Z.pow_pos_nonneg 2 e ltac:(lia) ltac:(lia)). nia.
  - assert (- Zpos m / 2 ^ (- e) < 0); [|lia]. apply Z.div_lt_upper_bound; [apply Z.pow_pos_nonneg; lia|]. lia.
Qed.

Lemma f64_one_value : f64_one = S754_finite false 4503599627370496 (-52).
Proof. vm_compute. reflexivity. Qed.

Lemma ceil_as_usize_positive m e : 1 <= f64_ceil_as_usize (S754_finite false m e).
Proof. unfold f64_ceil_as_usize, saturate. pose proof (ceil_positive m e). unfold u64_mod. lia. Qed.

Lemma heartbeat_positive x : 1 <= heartbeat_interval_ms x.
Proof.
  unfold heartbeat_interval_ms. rewrite f64_one_value. destruct x as [[]|[]| |[] m e]; cbn [SFcompare]; try apply ceil_as_usize_positive; [vm_compute; congruence|].
  repeat case_match; apply ceil_as_usize_positive.
Qed.

Lemma selected_mode_ok modes required mode : Gateway.select_encryption_mode modes required = Ok mode ->
  Gateway.offers_mode modes mode = true /\ forall r, required = Some r -> mode = r.
Proof.
  unfold Gateway.select_encryption_mode. destruct modes as [|m modes]; [done|]. destruct required as [r|].
  - destruct (Gateway.offers_mode _ r) eqn:Ho; [|done]. intros [= <-]. split; [done|]. by intros ? [= <-].
  - destruct (List.find _ _) as [x|] eqn:Hf; [|done]. intros [= <-]. split; [by apply List.find_some in Hf as [_ ?]|done].
Qed.

Lemma select_mode_no_panic modes required : Gateway.select_encryption_mode modes required ≠ Panic.
Proof. unfold Gateway.select_encryption_mode. repeat case_match; done. Qed.

Section Handshake.
Context {R : Assembler.FrameRaw} {PC : Pipeline.PacketCapture R} {AEAD : Rtp.TransportAead} {D : Pipeline.DaveMedia} {HD : Pipeline.DaveMediaLaws D}.
Context {IS : Deadlines.SetIter (K := Z)} {IB : Deadlines.SetIter (K := PendingMedia.DavePendingMediaBucket)}.
Context {J : Gateway.GatewayJson} {LJ : Gateway.GatewayJsonLaws J} {HJ : HandshakeJson J} {K DaveError : Type}.
Context (ws : nat -> bool) (websocket : outcome (DaveError := DaveError) ()) (udp_system : UdpSystem) (udp_reply : outcome (DaveError := DaveError) bytes).
Context (random_audio random_video : option bytes) (dave_new : Z -> Z -> option K -> DaveError + Pipeline.dave_t).
Context (config : ValidatedConnectionConfig K).

(** ** Stages *)
Definition order : list ConnectStage := [WebSocketConnect; StageHello; StageReady; StageUdpDiscovery; StageSessionDescription].

Definition passed (k : nat) : list (ConnectStage * bool) := (fun s => (s, true)) <$> take k order.

Definition identify : Outgoing := OutIdentify (identify_from_config config).
Definition select (a : bytes) (p : Z) (m : Rtp.EncryptionMode) : Outgoing := OutSelectProtocol (select_udp a p m (v_codec_preferences (c_options config))).

(** What may have been sent when [k] stages have been passed. *)
Definition may_send (k : nat) (out : list Outgoing) : Prop :=
  out = [] \/ (2 <= k)%nat /\ out = [identify] \/
  (4 <= k)%nat /\ exists a p m, out = [identify; select a p m] /\ forall r, v_required_mode (c_options config) = Some r -> m = r.

Definition at_stage (k : nat) (out : list Outgoing) (h : Handshake) : Prop := stages h = passed k /\ outgoing h = out.

(** Where a handshake that fails has stopped. *)
Definition stopped (h : Handshake) : Prop :=
  exists k, (k <= 5)%nat /\ may_send k (outgoing h) /\ (stages h = passed k \/ exists s, order !! k = Some s /\ stages h = passed k ++ [(s, false)]).

Lemma at_stopped k out h : (k <= 5)%nat -> may_send k out -> at_stage k out h -> stopped h.
Proof. intros Hk Hm [Hs <-]. exists k. auto. Qed.

Lemma passed_S k s : order !! k = Some s -> passed (S k) = passed k ++ [(s, true)].
Proof. intros Hk. unfold passed. rewrite (take_S_r _ _ _ Hk). by rewrite fmap_app. Qed.

Lemma may_send_S k out : may_send k out -> may_send (S k) out.
Proof. intros [-> | [[Hk ->] | (Hk & a & p & m & -> & Hm)]]; [by left|right; left; split; [lia|done]|right; right; split; [lia|by exists a, p, m]]. Qed.

Lemma stage_wp {A} k out s duration (m : list Incoming -> outcome (DaveError := DaveError) A * list Incoming) h : order !! k = Some s -> may_send k out -> at_stage k out h ->
  wp (observed_stage_timeout s duration m) (fun a h' => (m (incoming h)).1 = Done (inr a) /\ at_stage (S k) out h') (fun _ h' => stopped h') h.
Proof.
  intros Hk Hm [Hs Ho]. assert (k <= 5)%nat as Hk5 by (apply lookup_lt_Some in Hk; cbn in Hk; lia). unfold wp, observed_stage_timeout. destruct (m (incoming h)) as [o l].
  assert (stopped (with_stage s false (with_incoming l h))) as Hstop.
  { exists k. split; [done|]. split; [by rewrite <- Ho in Hm|]. right. exists s. split; [done|]. cbn [stages with_stage with_incoming]. by rewrite Hs. }
  destruct o as [[e|a]|]; [exact Hstop| |exact Hstop]. cbn [stage_timeout fst]. split; [done|]. split; [|done]. cbn [stages with_stage with_incoming]. by rewrite (passed_S k s Hk), Hs.
Qed.

Lemma lift_wp {A} k out (m : res (ConnectError (DaveError := DaveError)) A) (P : A -> Prop) h : (k <= 5)%nat -> may_send k out -> at_stage k out h -> safe m P ->
  wp (lift m) (fun a h' => m = Ok a /\ P a /\ at_stage k out h') (fun _ h' => stopped h') h.
Proof. intros Hk Hm Hat Hs. unfold wp, lift. destruct m as [a|e|]; [done|by eapply at_stopped|done]. Qed.

Lemma send_wp k out msg h : (k <= 5)%nat -> may_send k out -> at_stage k out h ->
  wp (send_text (DaveError := DaveError) ws msg) (fun _ h' => at_stage k (out ++ [msg]) h') (fun _ h' => stopped h') h.
Proof.
  intros Hk Hm [Hs Ho]. unfold wp, send_text. destruct (ws _); [|by eapply at_stopped]. split; [done|]. cbn. by rewrite Ho.
Qed.

Lemma io_wp k out ok h : (k <= 5)%nat -> may_send k out -> at_stage k out h ->
  wp (io (DaveError := DaveError) ok) (fun _ h' => at_stage k out h') (fun _ h' => stopped h') h.
Proof. intros Hk Hm Hat. unfold io. destruct ok; [done|]. by eapply at_stopped. Qed.

(** ** The state of the connection *)
Lemma describe_safe d : safe (describe d) (fun sd => length (Rtp.secret_key (Gateway.transport_crypto sd)) = 32%nat /\
  forall v, Gateway.dave_protocol_version sd = Some v -> 0 <= v).
Proof.
  unfold describe. destruct (Gateway.parse_session_description d) as [e|parts] eqn:Hp; [done|]. cbn [Gateway.parse_data mbind res_mbind].
  eapply safe_mono; [apply Gateway.session_description_new_safe|]. intros sd [Hl Hv]. split; [done|]. intros v Hsd. rewrite Hv in Hsd. by eapply Gateway.json_description_version.
Qed.

Lemma map_err_safe {E F A} (f : E -> F) (m : res E A) P : safe m P -> safe (map_err f m) P.
Proof. by destruct m. Qed.

Lemma send_pipeline_safe ready conn : safe (Send.send_pipeline_new random_audio random_video ready conn) (fun s => Send.active_playout s = None).
Proof.
  unfold Send.send_pipeline_new, Send.negotiated_video_rtp, Outbound.outbound_new, Rtp.suffix_initial. destruct random_audio; [|done]. cbn.
  destruct (Send.negotiated_video_media ready conn); [|done]. by destruct random_video.
Qed.

(** What [establish] makes. *)
Record made (d : Send.ConnectionDriver) : Prop := {
  made_conn : Gateway.conn_ok (Pipeline.d_conn (Send.base d));
  made_fresh : DriverSpec.fresh d;
  made_crypto : exists sd, Gateway.session_description (Pipeline.d_conn (Send.base d)) = Some sd /\ Rtp.from_config (Gateway.transport_crypto sd) = Ok (Pipeline.d_transport (Send.base d));
  made_dave : dave_new (c_user_id config) (c_channel_id config) (v_dave_identity (c_options config)) = inr (Pipeline.d_dave (Send.base d));
  made_open : Send.closed d = false /\ Send.wire d = [] /\ Send.commands d = [];
  made_base : exists conn v t, Send.base d = Pipeline.driver_new (v_tuning (c_options config)) conn v t }.

Lemma establish_safe ready last_seq description pending :
  safe (establish (DaveError := DaveError) random_audio random_video dave_new config ready last_seq description pending) made.
Proof.
  unfold establish. apply safe_bind, map_err_safe. eapply safe_mono; [apply describe_safe|]. intros sd [Hkey Hver].
  apply safe_bind, map_err_safe. unfold Gateway.rtp_codec_map. destruct (Codecs.codec_map_new _ _ _) as [codecs|e|] eqn:Hcod; [|done|by destruct (Codecs.codec_map_new_no_panic _ _ _ Hcod)].
  cbn [map_err safe]. apply safe_bind, map_err_safe. eapply safe_mono; [apply Gateway.replay_ok, (Gateway.initial_ok _ last_seq (c_user_id config) sd codecs Hver Hkey Hcod)|]. intros conn Hconn.
  apply safe_bind, safe_ok_or. intros sd' Hsd'. destruct (Rtp.from_config (Gateway.transport_crypto sd')) as [t|e|] eqn:Ht; [|done|unfold Rtp.from_config in Ht; by case_match].
  cbn [map_err mbind res_mbind]. destruct (dave_new _ _ _) as [e|v] eqn:Hv; [done|]. cbn [mbind res_mbind]. apply safe_bind, map_err_safe.
  eapply safe_mono; [apply send_pipeline_safe|]. intros s Hs. split; [done|by split|by exists sd'|done|done|by exists conn, v, t].
Qed.

Abbreviation connecting := (connect ws websocket udp_system udp_reply random_audio random_video dave_new config).

(** What a handshake that succeeds has done. *)
Record established (c : Connected) (h : Handshake) : Prop := {
  est_stages : stages h = passed 5;
  est_sent : outgoing h = [identify; select (Gateway.address (conn_discovery c)) (Gateway.port (conn_discovery c)) (selected_mode c)];
  est_mode : Gateway.offers_mode (r_modes (conn_ready c)) (selected_mode c) = true /\ forall r, v_required_mode (c_options config) = Some r -> selected_mode c = r;
  est_heartbeat : 1 <= conn_heartbeat_interval_ms c;
  est_driver : made (driver c) }.

Lemma connect_wp h : stages h = [] -> outgoing h = [] -> wp connecting established (fun _ h' => stopped h') h.
Proof.
  intros Hs0 Ho0. assert (at_stage 0 [] h) as H0 by done. assert (may_send 0 []) as M0 by (by left). unfold connect.
  eapply wp_bind, wp_mono; [by apply (stage_wp 0 [])| |done]. intros [] h1 [_ H1]. pose proof (may_send_S _ _ M0) as M1.
  eapply wp_bind, wp_mono; [by apply (stage_wp 1 [])| |done]. intros hello h2 [_ H2]. pose proof (may_send_S _ _ M1) as M2.
  eapply wp_bind, wp_mono; [apply (lift_wp 2 [] _ (fun _ => True)); [lia|done|done|]| |done]; [by destruct (parse_hello _)|]. intros interval h3 (_ & _ & H3).
  eapply wp_bind, wp_mono; [apply (send_wp 2 []); [lia|done|done]| |done]. cbn [app]. fold identify. intros [] h4 H4.
  assert (may_send 2 [identify]) as M4 by (right; left; split; [lia|done]).
  eapply wp_bind, wp_mono; [by apply (stage_wp 2 [identify])| |done]. intros [ready_event last_seq] h5 [_ H5]. pose proof (may_send_S _ _ M4) as M5.
  eapply wp_bind, wp_mono; [apply (lift_wp 3 [identify] _ (fun _ => True)); [lia|done|done|]| |done]; [by destruct (parse_ready _)|]. intros ready h6 (_ & _ & H6).
  eapply wp_bind, wp_mono; [apply (lift_wp 3 [identify] _ (fun _ => True)); [lia|done|done|]| |done].
  { unfold udp_remote_parse. by destruct (ip_parse _ _). }
  intros remote h6a (_ & _ & H6a). eapply wp_bind, wp_mono; [by apply (io_wp 3 [identify]); [lia|..]| |done]. intros [] h6b H6b.
  eapply wp_bind, wp_mono; [by apply (io_wp 3 [identify]); [lia|..]| |done]. intros [] h6c H6c.
  eapply wp_bind, wp_mono; [by apply (io_wp 3 [identify]); [lia|..]| |done]. intros [] h7 H7.
  eapply wp_bind, wp_mono; [by apply (stage_wp 3 [identify])| |done]. intros reply h8 [_ H8]. pose proof (may_send_S _ _ M5) as M8.
  eapply wp_bind, wp_mono; [apply (lift_wp 4 [identify] _ (fun _ => True)); [lia|done|done|]| |done].
  { apply map_err_safe. pose proof (Gateway.discovery_decode_no_panic (take Gateway.DISCOVERY_LEN reply)). by destruct (Gateway.discovery_decode _). }
  intros discovery h9 (_ & _ & H9).
  eapply wp_bind, wp_mono; [apply (lift_wp 4 [identify] _ (fun m => Gateway.offers_mode (r_modes ready) m = true /\ forall r, v_required_mode (c_options config) = Some r -> m = r)); [lia|done|done|]| |done].
  { apply map_err_safe. destruct (Gateway.select_encryption_mode _ _) eqn:Hm; [by apply selected_mode_ok|done|by destruct (select_mode_no_panic _ _ Hm)]. }
  intros mode h10 (_ & Hmode & H10). eapply wp_bind, wp_mono; [apply (send_wp 4 [identify]); [lia|done|done]| |done]. cbn [app]. intros [] h11 H11.
  set (out := [identify; _]) in H11. assert (may_send 4 out) as M11 by (right; right; split; [lia|]; eexists _, _, mode; split; [reflexivity|apply Hmode]).
  eapply wp_bind, wp_mono; [by apply (stage_wp 4 out)| |done]. intros [[description pending] last_seq'] h12 [_ H12]. pose proof (may_send_S _ _ M11) as M12.
  eapply wp_bind, wp_mono; [apply (lift_wp 5 out _ made); [lia|done|done|apply establish_safe]| |done]. intros d h13 (_ & Hmade & [Hst Hout]).
  apply wp_ret. split; [done|exact Hout|done|apply heartbeat_positive|done].
Qed.

(** C20. Connecting never panics.  It goes through the five stages in order; when it
    succeeds, exactly Identify and SelectProtocol were sent, with the discovered
    address and an encryption mode that was offered and is the required one, and
    the driver starts in a coherent connection state with the transport key of
    the session description, nothing sent and nothing owed.  When it fails, it
    has stopped after some stages or in the next one, Identify was sent only
    after Hello, and SelectProtocol only after the address was discovered. *)
Theorem connect_establishes l :
  match connecting {| incoming := l; outgoing := []; stages := [] |} with
  | (Ok c, h) => established c h
  | (Err _, h) => stopped h
  | (Panic, _) => False
  end.
Proof. exact (connect_wp {| incoming := l; outgoing := []; stages := [] |} eq_refl eq_refl). Qed.
End Handshake.
End ConnectSpec.
