(* ===== verification/ConnectSamples.v ===== *)
(** * Concrete handshakes

    A gateway that says Hello, Ready and the session description, with events in
    between, against the sample instances of the components. *)

From stdpp Require Import strings.
From S2P Require Import Prelude Effects IeeeFloat Tuning Frame Rtp Codecs Outbound Queue Assembler PendingMedia Session DaveGateway Gateway.
From S2P Require Import Reorder ReadyFrames Pipeline Send Driver DriverSpec Connect ConnectSpec.
Import PendingMedia.PendingMedia Connect ConnectSpec.
#[local] Open Scope Z_scope.

Module ConnectSamples.
Import Rtp.SampleAead Queue.Deadlines.SampleIter PendingMedia.PendingSamples Pipeline.PipelineSamples Gateway.GatewaySamples.
#[local] Existing Instance Assembler.AssemblerSamples.sample_raw.
#[local] Existing Instance Pipeline.PipelineSamples.sample_capture.

(** A session that never decrypts anything. *)
#[local] Instance idle_dave : Pipeline.DaveMedia := {|
  Pipeline.dave_t := (); Pipeline.dave_ready _ := false; Pipeline.dave_send_ready _ := false; Pipeline.dave_transition_ready _ := None;
  Pipeline.dave_decrypt _ u _ _ d := (Err (Session.NoDecryptorForUser u), d); Pipeline.dave_grace _ d := d |}.

#[local] Instance idle_dave_laws : Pipeline.DaveMediaLaws idle_dave.
Proof. by apply (Pipeline.Build_DaveMediaLaws idle_dave (fun _ _ => True)). Qed.

(** Ready carries the modes the gateway offers. *)
Definition offered (modes : list string) : GatewayReady :=
  {| r_ready := {| Send.ready_ssrc := 9; Send.ready_streams := [] |}; r_ip := "10.0.0.1"; r_port := 50000; r_modes := modes |}.

Definition both_modes : list string := ["aead_aes256_gcm_rtpsize"; "aead_xchacha20_poly1305_rtpsize"]%string.

#[local] Instance sample_handshake_json : HandshakeJson sample_gateway_json := {|
  parse_hello j := match j with JPrepare t _ => inr (IeeeFloat.f64_of_int t) | _ => inl () end;
  parse_ready j := match j with JDisconnect _ => inr (offered both_modes) | _ => inl () end |}.

Definition sample_config : ValidatedConnectionConfig () :=
  match config_validate {| guild_id := 1; channel_id := 2; user_id := 5; session_id := "s"; token := "t"; endpoint := "voice.example" |} with
  | Ok c => c
  | _ => {| c_guild_id := 0; c_channel_id := 0; c_user_id := 0; c_session_id := ""; c_token := ""; c_endpoint := ""; c_websocket_url := "";
            c_options := {| v_gateway_version := 8; v_required_mode := None; v_max_dave_protocol_version := None; v_dave_identity := None;
                            v_dave_send_media_ready_timeout := 0; v_codec_preferences := []; v_tuning := Reorder.ReorderSamples.sample_tuning |} |}
  end.

Example sample_config_valid :
  c_websocket_url sample_config = "wss://voice.example/?v=8"%string /\ v_required_mode (c_options sample_config) = Some Rtp.AeadAes256GcmRtpSize.
Proof. vm_compute. done. Qed.

Definition event (op s : Z) (j : sample_json) : Incoming := InText (inr {| opcode := op; seq := Some s; data := j |}).

Definition description (mode : Rtp.EncryptionMode) : sample_json :=
  JDescription {| Gateway.part_mode := mode; Gateway.part_secret_key := replicate 32 7; Gateway.part_audio_codec := Some "opus"%string;
                  Gateway.part_video_codec := None; Gateway.part_dave_protocol_version := Some 1 |}.

(** Hello, a binary message, Ready, a client that connects, and the description. *)
Definition messages (mode : Rtp.EncryptionMode) : list (Incoming) :=
  [event 8 1 (JPrepare 41250 0); InBinary [0; 1]; event 2 2 (JDisconnect 0);
   event 12 5 (JClient {| Gateway.client_user_id := 9; Gateway.client_audio_ssrc := Some 40; Gateway.client_ssrc := None |});
   event 4 6 (description mode)].

Definition reply : bytes := Gateway.discovery_response 9 [49; 46; 50] 50000.

(** The addresses are taken for IPv4 addresses, and the socket works. *)
Definition sample_udp : UdpSystem :=
  {| ip_parse _ := Some (V4 [10; 0; 0; 1]); udp_bind _ := true; udp_connect _ _ := true; udp_request := true |}.

Definition run (l : list Incoming) := connect (DaveError := ()) (fun _ => true) (Done (inr ())) sample_udp (Done (inr reply)) (Some [0; 0; 0; 1]) None
  (fun _ _ _ => inr ()) sample_config {| incoming := l; outgoing := []; stages := [] |}.

Lemma connect_establishes_witness :
  match run (messages Rtp.AeadAes256GcmRtpSize) with
  | (Ok c, h) => established (K := ()) (DaveError := ()) (fun _ _ _ => inr ()) sample_config c h
  | (Err _, h) => stopped sample_config h
  | (Panic, _) => False
  end.
Proof.
  pose proof (connect_establishes (DaveError := ()) (fun _ => true) (Done (inr ())) sample_udp (Done (inr reply)) (Some [0; 0; 0; 1]) None
    (fun _ _ _ => inr ()) sample_config (messages Rtp.AeadAes256GcmRtpSize)) as H. exact H.
Defined.

(** The handshake succeeds, and the first heartbeat acknowledges event 5 although
    the description was event 6: the events kept for the replay are numbered
    again when they are replayed. *)
Example replay_rewinds_seq :
  match run (messages Rtp.AeadAes256GcmRtpSize) with
  | (Ok c, _) => conn_heartbeat_interval_ms c = 41250 /\ Gateway.conn_last_seq (Pipeline.d_conn (Send.base (driver c))) = Some 5
  | _ => False
  end.
Proof. vm_compute. done. Qed.

(** The configuration requires AES-256-GCM and the gateway offers it, yet a
    description that names the other mode is followed. *)
Example described_mode_unchecked :
  match run (messages Rtp.AeadXChaCha20Poly1305RtpSize) with
  | (Ok c, _) => selected_mode c = Rtp.AeadAes256GcmRtpSize /\
      option_map (fun sd => Rtp.config_mode (Gateway.transport_crypto sd)) (Gateway.session_description (Pipeline.d_conn (Send.base (driver c))))
        = Some Rtp.AeadXChaCha20Poly1305RtpSize
  | _ => False
  end.
Proof. vm_compute. done. Qed.
End ConnectSamples.
