(* ===== verification/Handle.v ===== *)
(** * The user's side of a connection (cacophony/src/connection/handle.rs, playout.rs)

    The methods of [Connection], [FrameStream] and [OpusPlayout].  They run in
    the user's tasks, concurrently with the task of the driver and with the task
    that joins it, and share with them the close signal, the command and media
    channels, one-shot reply channels and the published state.

    A method is a program [prog A] whose steps are its accesses to what is
    shared, so that other tasks can run between any two of them.  The channels
    are tokio's: [try_send] fails on a channel whose receiver is gone and on a
    full one, [send] waits for a slot, a one-shot receiver gets the value or
    learns that the sender is gone. *)

From stdpp Require Import strings.
From S2P Require Import Prelude Effects Tuning Frame Rtp Outbound Queue Assembler DaveGateway Gateway ReadyFrames Pipeline OpusPacket Send Playout.
From S2P Require Import Driver OpusAudio Connect.

Module Handle.

(** ** The close signal *)
Record ConnectionClose := { closed : bool; closed_once : bool }.

Definition close_new : ConnectionClose := {| closed := false; closed_once := false |}.

(** [closed_once.swap(true)], [closed.send_replace(true)] *)
Definition swap (c : ConnectionClose) : bool * ConnectionClose := (closed_once c, {| closed := closed c; closed_once := true |}).
Definition send_replace (c : ConnectionClose) : ConnectionClose := {| closed := true; closed_once := closed_once c |}.

(** [wait_for_close]: whether it returns, when the senders are still there. *)
Definition wait_for_close (c : ConnectionClose) : bool := closed c.

(** ** The published state *)
Record SessionState := { s_mode : Rtp.EncryptionMode; s_audio_codec : option string; s_video_codec : option string; s_dave_protocol_version : option Z }.

Definition session_from (d : Gateway.SessionDescription) : SessionState :=
  {| s_mode := Rtp.config_mode (Gateway.transport_crypto d); s_audio_codec := Gateway.sd_audio_codec d; s_video_codec := Gateway.sd_video_codec d;
     s_dave_protocol_version := Gateway.dave_protocol_version d |}.

Record ConnectionState := {
  connection : Connect.ConnectionInfo; heartbeat_interval_ms : Z; local_ssrc : Z; selected_mode : Rtp.EncryptionMode; session : option SessionState;
  connected_user_ids : gset Z; ssrc_users : gmap Z Z; speaking : gmap Z Gateway.SpeakingUpdate; dave : DaveGateway.DaveState; resumed : bool }.

(** What does not change while a connection lasts. *)
Record Fixed := { f_info : Connect.ConnectionInfo; f_heartbeat_interval_ms : Z; f_ssrc : Z; f_mode : Rtp.EncryptionMode }.

(** [ConnectionInternalState::public_state] *)
Definition public_state (f : Fixed) (c : Gateway.ConnectionInternalState) : ConnectionState :=
  {| connection := f_info f; heartbeat_interval_ms := f_heartbeat_interval_ms f; local_ssrc := f_ssrc f; selected_mode := f_mode f;
     session := session_from <$> Gateway.session_description c; connected_user_ids := Gateway.connected_user_ids c; ssrc_users := Gateway.ssrc_users c;
     speaking := Gateway.speaking c; dave := DaveGateway.public_state (Gateway.dave c); resumed := Gateway.resumed c |}.

Record ConnectionStateStore := { internal : Gateway.ConnectionInternalState; public_tx : ConnectionState }.

Definition store_new (f : Fixed) (initial : Gateway.ConnectionInternalState) : ConnectionStateStore := {| internal := initial; public_tx := public_state f initial |}.

Definition store_update (f : Fixed) (update : Gateway.ConnectionInternalState -> Gateway.ConnectionInternalState) (s : ConnectionStateStore) : ConnectionStateStore :=
  let c := update (internal s) in {| internal := c; public_tx := public_state f c |}.

(** [DaveMediaStatus::from_public_state] *)
Definition from_public_state (st : ConnectionState) : Pipeline.DaveMediaStatus :=
  let requires_dave := DaveGateway.public_send_requires_dave (dave st) in
  {| Pipeline.requires_dave := requires_dave; Pipeline.status_send_version := DaveGateway.public_active_send (dave st);
     Pipeline.status_receive_version := DaveGateway.public_active_receive (dave st); Pipeline.media_ready := negb requires_dave;
     Pipeline.session_ready := false; Pipeline.status_send_ready := false; Pipeline.status_transition_ready := None;
     Pipeline.status_protocol_version := DaveGateway.public_protocol_version (dave st); Pipeline.status_transition_id := DaveGateway.public_transition_id (dave st);
     Pipeline.status_mls := DaveGateway.public_mls (dave st) |}.

(** ** Errors and replies *)
Inductive HandleError :=
| Closed
| CommandQueueFull
| MediaQueueFull
| ZeroMaxLen
| FrameTooLarge (len max_len : nat)
| JoinTaskClosed
| JoinTaskStoppedBeforeReply
| ControlTaskJoinFailed
| FromDriver (e : Send.Error)
| FromReceive (e : Pipeline.Error)
| FromUdp (e : ReadyFrames.PacketReceiveError)
| FromDecoder (e : OpusAudio.AudioError).

(** What a one-shot channel carries. *)
Inductive reply_type := TStatus | TReady | TPacket | TStream | TUdp | TPlayoutId | TStats | TJoin.

#[export] Instance reply_type_eq : EqDecision reply_type.
Proof. solve_decision. Defined.

Definition value (t : reply_type) : Type :=
  match t with
  | TStatus => Pipeline.DaveMediaStatus
  | TReady => Send.Error + Pipeline.DaveMediaStatus
  | TPacket => Send.Error + Outbound.OutboundPacket
  | TStream => Send.Error + ()
  | TUdp => ReadyFrames.PacketReceiveError + ReadyFrames.RawUdpPacket
  | TPlayoutId => Send.Error + Z
  | TStats => Send.Error + Send.OpusPlayoutStats
  | TJoin => HandleError + ()
  end.

Inductive SendOutcome := Accepted | Full | ReceiverGone.

Inductive ConnectionJoinCommand := Wait (reply : nat).

Section Handle.
Context {R : Assembler.FrameRaw}.

(** ** Programs *)
Inductive prog (A : Type) : Type :=
| Ret (a : A)
| Fail (e : HandleError)
| IsClosed (k : bool -> prog A)
| Swap (k : bool -> prog A)
| SendReplace (k : prog A)
| Oneshot (t : reply_type) (k : nat -> prog A)
| TrySendCommand (c : Driver.ConnectionCommand) (k : SendOutcome -> prog A)
| TrySendMedia (c : Playout.PlayoutCommand) (k : SendOutcome -> prog A)
| SendMedia (c : Playout.PlayoutCommand) (k : bool -> prog A)
| SendJoin (c : ConnectionJoinCommand) (k : bool -> prog A)
| Receive (t : reply_type) (r : nat) (k : option (value t) -> prog A)
| Snapshot (k : ConnectionState -> prog A)
| Abort (k : prog A).
#[global] Arguments Ret {A} a.
#[global] Arguments Fail {A} e.
#[global] Arguments IsClosed {A} k.
#[global] Arguments Swap {A} k.
#[global] Arguments SendReplace {A} k.
#[global] Arguments Oneshot {A} t k.
#[global] Arguments TrySendCommand {A} c k.
#[global] Arguments TrySendMedia {A} c k.
#[global] Arguments SendMedia {A} c k.
#[global] Arguments SendJoin {A} c k.
#[global] Arguments Receive {A} t r k.
#[global] Arguments Snapshot {A} k.
#[global] Arguments Abort {A} k.

(** [p] and then [ok] or, after an error, [err]. *)
Fixpoint attempt {A B} (ok : A -> prog B) (err : HandleError -> prog B) (p : prog A) : prog B :=
  match p with
  | Ret a => ok a
  | Fail e => err e
  | IsClosed k => IsClosed (fun b => attempt ok err (k b))
  | Swap k => Swap (fun b => attempt ok err (k b))
  | SendReplace k => SendReplace (attempt ok err k)
  | Oneshot t k => Oneshot t (fun r => attempt ok err (k r))
  | TrySendCommand c k => TrySendCommand c (fun o => attempt ok err (k o))
  | TrySendMedia c k => TrySendMedia c (fun o => attempt ok err (k o))
  | SendMedia c k => SendMedia c (fun b => attempt ok err (k b))
  | SendJoin c k => SendJoin c (fun b => attempt ok err (k b))
  | Receive t r k => Receive t r (fun a => attempt ok err (k a))
  | Snapshot k => Snapshot (fun s => attempt ok err (k s))
  | Abort k => Abort (attempt ok err k)
  end.

#[export] Instance prog_ret : MRet prog := fun A a => Ret a.
#[export] Instance prog_bind : MBind prog := fun A B f p => attempt f Fail p.

(** [r?] *)
Definition of_sum {E A} (f : E -> HandleError) (r : E + A) : prog A := match r with inl e => Fail (f e) | inr a => Ret a end.

(** [receive.await.map_err(|_| Error::Closed)?] *)
Definition receive (t : reply_type) (r : nat) : prog (value t) :=
  Receive t r (fun a => match a with Some a => Ret a | None => Fail Closed end).

(** ** Connection *)
Definition close : prog bool := Swap (fun before => if before then Ret false else SendReplace (Ret true)).

Definition running : prog bool := IsClosed (fun b => Ret (negb b)).

Definition ensure_open : prog () := IsClosed (fun b => if b then Fail Closed else Ret ()).

Definition send_command (command : Driver.ConnectionCommand) : prog () :=
  _ ← ensure_open;
  TrySendCommand command (fun o => match o with Accepted => Ret () | ReceiverGone => Fail Closed | Full => Fail CommandQueueFull end).

Definition request_result (t : reply_type) (build : nat -> Driver.ConnectionCommand) : prog (value t) :=
  Oneshot t (fun r => _ ← send_command (build r); receive t r).

Definition state : prog ConnectionState := Snapshot Ret.

Definition dave_media_status : prog Pipeline.DaveMediaStatus :=
  let fallback := Snapshot (fun s => Ret (from_public_state s)) in
  Oneshot TStatus (fun r =>
    attempt (fun _ => Receive TStatus r (fun a => match a with Some status => Ret status | None => fallback end)) (fun _ => fallback)
      (send_command (Driver.CmdDaveMediaStatus r))).

Definition wait_until_media_ready (max_wait : Z) : prog Pipeline.DaveMediaStatus :=
  a ← request_result TReady (Driver.CmdWaitUntilMediaReady max_wait); of_sum FromDriver a.

Definition recv_udp_packet (kind : ReadyFrames.LowLevelReceiveKind) (max_len : nat) : prog ReadyFrames.RawUdpPacket :=
  if (max_len =? 0)%nat then Fail ZeroMaxLen
  else a ← request_result TUdp (Driver.CmdRecvUdpPacket kind max_len); of_sum FromUdp a.

Definition recv_raw_udp_packet : nat -> prog ReadyFrames.RawUdpPacket := recv_udp_packet ReadyFrames.RawUdp.
Definition recv_rtp_udp_packet : nat -> prog ReadyFrames.RawUdpPacket := recv_udp_packet ReadyFrames.RtpUdp.

Definition FRAME_STREAM_QUEUE_CAPACITY : nat := 128.

Record FrameStream := { frames : ReadyFrames.Channel Pipeline.Error; max_frame_len : nat }.

Definition frame_stream (max_frame_len : nat) : prog FrameStream :=
  if (max_frame_len =? 0)%nat then Fail ZeroMaxLen
  else
    let channel := {| ReadyFrames.chan_capacity := FRAME_STREAM_QUEUE_CAPACITY; ReadyFrames.chan_items := []; ReadyFrames.chan_closed := false |} in
    a ← request_result TStream (Driver.CmdOpenFrameStream channel);
    _ ← of_sum FromDriver a;
    mret {| frames := channel; max_frame_len := max_frame_len |}.

Definition set_speaking (flags delay : Z) : prog () := send_command (Driver.CmdSetSpeaking flags delay).

Definition send_encoded_media_frame (codec : MediaCodec) (frame : bytes) (duration : Z) : prog Outbound.OutboundPacket :=
  a ← request_result TPacket (Driver.CmdSendMediaFrame codec frame duration); of_sum FromDriver a.

Definition close_and_wait : prog () :=
  _ ← close;
  TrySendCommand Driver.CmdClose (fun _ =>
    Oneshot TJoin (fun r =>
      SendJoin (Wait r) (fun sent =>
        if sent : bool then Receive TJoin r (fun a => match a with Some a => of_sum id a | None => Fail JoinTaskStoppedBeforeReply end)
        else Fail JoinTaskClosed))).

(** [ConnectionInner::drop] *)
Definition inner_drop : prog () := _ ← close; Abort (Ret ()).

(** ** Playouts *)
Record OpusPlayout := { playout_id : Z; finished : bool }.

Definition send_media (c : Playout.PlayoutCommand) : prog () := SendMedia c (fun sent => if sent : bool then Ret () else Fail Closed).

Definition try_send_media (c : Playout.PlayoutCommand) : prog () :=
  TrySendMedia c (fun o => match o with Accepted => Ret () | ReceiverGone => Fail Closed | Full => Fail MediaQueueFull end).

Definition start_opus_playout : prog OpusPlayout :=
  _ ← ensure_open;
  Oneshot TPlayoutId (fun r =>
    _ ← send_media (Playout.CmdStart r);
    a ← receive TPlayoutId r;
    id ← of_sum FromDriver a;
    mret {| playout_id := id; finished := false |}).

Definition push_packet (packet : OpusPacket.Packet) (p : OpusPlayout) : prog () :=
  _ ← ensure_open; send_media (Playout.CmdFrame (playout_id p) (Playout.playout_packet packet)).

Definition push_packet_batch (packets : OpusPacket.PacketBatch) (p : OpusPlayout) : prog () :=
  _ ← ensure_open;
  match Playout.packet_batch packets with [] => mret () | frames => send_media (Playout.CmdFrames (playout_id p) frames) end.

Definition try_push_packet (packet : OpusPacket.Packet) (p : OpusPlayout) : prog () :=
  _ ← ensure_open; try_send_media (Playout.CmdFrame (playout_id p) (Playout.playout_packet packet)).

Definition try_push_packet_batch (packets : OpusPacket.PacketBatch) (p : OpusPlayout) : prog () :=
  _ ← ensure_open;
  match Playout.packet_batch packets with [] => mret () | frames => try_send_media (Playout.CmdFrames (playout_id p) frames) end.

Definition finish_inner (p : OpusPlayout) : prog Send.OpusPlayoutStats :=
  _ ← ensure_open;
  Oneshot TStats (fun r =>
    _ ← send_media (Playout.CmdFinish (playout_id p) r);
    a ← receive TStats r;
    of_sum FromDriver a).

(** [OpusPlayout::drop], before [k] *)
Definition playout_drop {A} (p : OpusPlayout) (k : prog A) : prog A :=
  if finished p then k else TrySendMedia (Playout.CmdCancel (playout_id p)) (fun _ => k).

(** [finish] takes the playout, so it is dropped on the way out. *)
Definition finish (p : OpusPlayout) : prog Send.OpusPlayoutStats :=
  attempt (fun stats => playout_drop {| playout_id := playout_id p; finished := true |} (Ret stats)) (fun e => playout_drop p (Fail e)) (finish_inner p).

Abbreviation FR := (ReadyFrames.FrameReceiveResult Pipeline.Error).

(** ** Frame streams: [item] is what [frames.recv()] yields, [None] for the end *)
Definition frame_ensure_len_at_most (max_len : nat) (f : ReadyFrames.ReceivedFrame) : HandleError + ReadyFrames.ReceivedFrame :=
  if (max_len <? length (ReadyFrames.rf_frame f))%nat then inl (FrameTooLarge (length (ReadyFrames.rf_frame f)) max_len) else inr f.

Definition stream_recv (s : FrameStream) (item : option FR) : HandleError + ReadyFrames.ReceivedFrame :=
  match item with
  | None => inl Closed
  | Some (inl e) => inl (FromReceive e)
  | Some (inr f) => frame_ensure_len_at_most (max_frame_len s) f
  end.

(** [elapsed]: the timer fires before [item] is there. *)
Definition stream_recv_timeout (s : FrameStream) (elapsed : bool) (item : option FR) : HandleError + option ReadyFrames.ReceivedFrame :=
  if elapsed then inr None else match stream_recv s item with inl e => inl e | inr f => inr (Some f) end.

Section Decoding.
Context {D : OpusAudio.OpusDecode}.

(** [decode_frame_observed]; the event of a failure, and what is returned *)
Definition decode_frame_observed {S A} (decode : ReadyFrames.ReceivedFrame -> st S OpusAudio.AudioError A) (f : ReadyFrames.ReceivedFrame) (s : S)
    : res HandleError A * S * list Pipeline.PipelineEvent :=
  match decode f s with
  | (Ok a, s) => (Ok a, s, [])
  | (Err e, s) => (Err (FromDecoder e), s,
      [Pipeline.EvDecodeError Pipeline.StageOpus Pipeline.OpusDecodeFailed (Some (Rtp.ssrc (ReadyFrames.rf_rtp f))) (ReadyFrames.rf_user_id f) (Some (Rtp.seq (ReadyFrames.rf_rtp f)))])
  | (Panic, s) => (Panic, s, [])
  end.

Definition recv_then {S A} (decode : ReadyFrames.ReceivedFrame -> st S OpusAudio.AudioError A) (s : FrameStream) (item : option FR) (d : S)
    : res HandleError A * S * list Pipeline.PipelineEvent :=
  match stream_recv s item with inl e => (Err e, d, []) | inr f => decode_frame_observed decode f d end.

Definition recv_decoded := recv_then OpusAudio.decode_frame.
Definition recv_decoded_into := recv_then OpusAudio.decode_frame_into.

Definition recv_decoded_timeout (s : FrameStream) (elapsed : bool) (item : option FR) (d : OpusAudio.Decoder)
    : res HandleError (option OpusAudio.DecodedFrame) * OpusAudio.Decoder * list Pipeline.PipelineEvent :=
  match stream_recv_timeout s elapsed item with
  | inl e => (Err e, d, [])
  | inr None => (Ok None, d, [])
  | inr (Some f) => let '(r, d, ev) := decode_frame_observed OpusAudio.decode_frame f d in ((f ← r; Ok (Some f)), d, ev)
  end.
End Decoding.
End Handle.
End Handle.
