(* ===== verification/HandleSpec.v ===== *)
(** * The user's tasks beside the driver and the join task

    The shared state of a connection with the step each access makes on it, the
    steps of the driver seen from outside, and the join task
    ([spawn_voice_connection_join_task]).  A system runs any number of calls, in
    any interleaving.  Programs are typed by the replies they own and have sent;
    a well-typed call never waits for a reply nobody can give. *)

From stdpp Require Import strings.
From S2P Require Import Prelude Effects Tuning Frame Rtp Outbound Queue Assembler DaveGateway Gateway ReadyFrames Pipeline OpusPacket Send Playout.
From S2P Require Import Driver OpusAudio Connect Handle.
Import Handle.

Module HandleSpec.

(** ** Channels *)
Section Channels.
Context {T : Type}.

Record Chan := { capacity : nat; items : list T; receiver : bool }.

Definition with_items (l : list T) (c : Chan) : Chan := {| capacity := capacity c; items := l; receiver := receiver c |}.
Definition abandoned (c : Chan) : Chan := {| capacity := capacity c; items := []; receiver := false |}.

Definition push (x : T) (c : Chan) : SendOutcome * Chan :=
  if negb (receiver c) then (ReceiverGone, c)
  else if (length (items c) <? capacity c)%nat then (Accepted, with_items (items c ++ [x]) c)
  else (Full, c).
End Channels.
#[global] Arguments Chan : clear implicits.

Inductive slot_state (A : Type) := Waiting | Sent (a : A) | Gone.
#[global] Arguments Waiting {A}.
#[global] Arguments Sent {A} a.
#[global] Arguments Gone {A}.

Inductive slot := Slot (t : reply_type) (s : slot_state (value t)).

Definition slot_type (s : slot) : reply_type := let '(Slot t _) := s in t.
Definition waiting (s : slot) : bool := match s with Slot _ Waiting => true | _ => false end.

(** What a receiver of type [t] gets from a slot; [None]: it waits. *)
Definition taken (t : reply_type) (s : slot) : option (option (value t)) :=
  let '(Slot t' st) := s in
  match decide (t' = t) with
  | left E => match st with Waiting => None | Sent a => Some (Some (eq_rect _ value a _ E)) | Gone => Some None end
  | right _ => None
  end.

Section System.
Context {R : Assembler.FrameRaw}.

(** ** The shared state; [wins] counts the swaps that found the signal unset. *)
Record Join := { join_queue : list nat; join_current : option nat; join_taken : bool }.

Record Shared := {
  signal : ConnectionClose; wins : nat; commands : Chan Driver.ConnectionCommand; media : Chan Playout.PlayoutCommand;
  slots : list slot; held : list nat; join : Join; outcome : option (HandleError + ()); published : ConnectionState; aborted : bool }.

Definition with_signal (c : ConnectionClose) (won : nat) (s : Shared) : Shared :=
  {| signal := c; wins := wins s + won; commands := commands s; media := media s; slots := slots s; held := held s; join := join s; outcome := outcome s;
     published := published s; aborted := aborted s |}.
Definition with_slots (l : list slot) (s : Shared) : Shared :=
  {| signal := signal s; wins := wins s; commands := commands s; media := media s; slots := l; held := held s; join := join s; outcome := outcome s;
     published := published s; aborted := aborted s |}.
Definition with_commands (c : Chan Driver.ConnectionCommand) (s : Shared) : Shared :=
  {| signal := signal s; wins := wins s; commands := c; media := media s; slots := slots s; held := held s; join := join s; outcome := outcome s;
     published := published s; aborted := aborted s |}.
Definition with_media (c : Chan Playout.PlayoutCommand) (s : Shared) : Shared :=
  {| signal := signal s; wins := wins s; commands := commands s; media := c; slots := slots s; held := held s; join := join s; outcome := outcome s;
     published := published s; aborted := aborted s |}.
Definition with_held (l : list nat) (s : Shared) : Shared :=
  {| signal := signal s; wins := wins s; commands := commands s; media := media s; slots := slots s; held := l; join := join s; outcome := outcome s;
     published := published s; aborted := aborted s |}.
Definition with_join (j : Join) (s : Shared) : Shared :=
  {| signal := signal s; wins := wins s; commands := commands s; media := media s; slots := slots s; held := held s; join := j; outcome := outcome s;
     published := published s; aborted := aborted s |}.
Definition with_outcome (o : HandleError + ()) (s : Shared) : Shared :=
  {| signal := signal s; wins := wins s; commands := commands s; media := media s; slots := slots s; held := held s; join := join s; outcome := Some o;
     published := published s; aborted := aborted s |}.
Definition with_published (p : ConnectionState) (s : Shared) : Shared :=
  {| signal := signal s; wins := wins s; commands := commands s; media := media s; slots := slots s; held := held s; join := join s; outcome := outcome s;
     published := p; aborted := aborted s |}.
Definition with_aborted (s : Shared) : Shared :=
  {| signal := signal s; wins := wins s; commands := commands s; media := media s; slots := slots s; held := held s; join := join s; outcome := outcome s;
     published := published s; aborted := true |}.

(** The replies a command carries. *)
Definition requests (c : Driver.ConnectionCommand) : list (nat * reply_type) :=
  match c with
  | Driver.CmdRecvUdpPacket _ _ r => [(r, TUdp)]
  | Driver.CmdOpenFrameStream _ r => [(r, TStream)]
  | Driver.CmdDaveMediaStatus r => [(r, TStatus)]
  | Driver.CmdWaitUntilMediaReady _ r => [(r, TReady)]
  | Driver.CmdSendMediaFrame _ _ _ r => [(r, TPacket)]
  | Driver.CmdSetSpeaking _ _ | Driver.CmdClose => []
  end.

Definition media_requests (c : Playout.PlayoutCommand) : list (nat * reply_type) :=
  match c with Playout.CmdStart r => [(r, TPlayoutId)] | Playout.CmdFinish _ r => [(r, TStats)] | _ => [] end.

(** A sender that is dropped without a value. *)
Definition gone (s : slot) : slot := if waiting s then Slot (slot_type s) Gone else s.
Definition lose (l : list nat) (sl : list slot) : list slot := foldr (fun r sl => alter gone r sl) sl l.

Definition sent_command (c : Driver.ConnectionCommand) (s : Shared) : SendOutcome * Shared :=
  let '(o, ch) := push c (commands s) in
  (o, match o with Accepted => with_commands ch s | _ => with_slots (lose (requests c).*1 (slots s)) s end).

Definition sent_media (c : Playout.PlayoutCommand) (s : Shared) : SendOutcome * Shared :=
  let '(o, ch) := push c (media s) in
  (o, match o with Accepted => with_media ch s | _ => with_slots (lose (media_requests c).*1 (slots s)) s end).

(** ** One step of a task; [None]: it is done, or it waits. *)
Definition step {A} (s : Shared) (p : prog A) : option (Shared * prog A) :=
  match p with
  | Ret _ | Fail _ => None
  | IsClosed k => Some (s, k (closed_once (signal s)))
  | Swap k => let '(before, c) := swap (signal s) in Some (with_signal c (if before then 0 else 1) s, k before)
  | SendReplace k => Some (with_signal (send_replace (signal s)) 0 s, k)
  | Oneshot t k => Some (with_slots (slots s ++ [Slot t Waiting]) s, k (length (slots s)))
  | TrySendCommand c k => let '(o, s) := sent_command c s in Some (s, k o)
  | TrySendMedia c k => let '(o, s) := sent_media c s in Some (s, k o)
  | SendMedia c k => match sent_media c s with (Accepted, s) => Some (s, k true) | (ReceiverGone, s) => Some (s, k false) | (Full, _) => None end
  | SendJoin (Wait r) k =>
      if (length (join_queue (join s)) <? 1)%nat
      then Some (with_join {| join_queue := join_queue (join s) ++ [r]; join_current := join_current (join s); join_taken := join_taken (join s) |} s, k true)
      else None
  | Receive t r k => match slots s !! r with Some sl => (fun a => (s, k a)) <$> taken t sl | None => None end
  | Snapshot k => Some (s, k (published s))
  | Abort k => Some (with_aborted s, k)
  end.

(** ** The join task: it takes the handle of the driver once and waits for it. *)
Definition join_reply (r : nat) (a : HandleError + ()) (s : Shared) : Shared := with_slots (<[r := Slot TJoin (Sent (a : value TJoin))]> (slots s)) s.

Definition join_step (s : Shared) : option Shared :=
  let j := join s in
  match join_current j with
  | Some r =>
      match outcome s with
      | Some result => Some (with_join {| join_queue := join_queue j; join_current := None; join_taken := true |} (join_reply r result s))
      | None => None
      end
  | None =>
      match join_queue j with
      | [] => None
      | r :: l => if join_taken j then Some (with_join {| join_queue := l; join_current := None; join_taken := true |} (join_reply r (inr ()) s))
                  else Some (with_join {| join_queue := l; join_current := Some r; join_taken := true |} s)
      end
  end.

(** ** The driver, as its clients see it *)
Inductive driver_step (s : Shared) : Shared -> Prop :=
| takes_command c l : items (commands s) = c :: l ->
    driver_step s (with_held (held s ++ (requests c).*1) (with_commands (with_items l (commands s)) s))
| takes_media c l : items (media s) = c :: l ->
    driver_step s (with_held (held s ++ (media_requests c).*1) (with_media (with_items l (media s)) s))
| answers r t (a : value t) : r ∈ held s -> slots s !! r = Some (Slot t Waiting) ->
    driver_step s (with_held (filter (fun x => x ≠ r) (held s)) (with_slots (<[r := Slot t (Sent a)]> (slots s)) s))
| drops r : r ∈ held s -> driver_step s (with_held (filter (fun x => x ≠ r) (held s)) (with_slots (lose [r] (slots s)) s))
| closes : driver_step s (with_signal (swap (signal s)).2 (if (swap (signal s)).1 then 0 else 1) s)
| announces : closed_once (signal s) = true -> driver_step s (with_signal (send_replace (signal s)) 0 s)
| publishes p : driver_step s (with_published p s)
| ends result : driver_step s
    (with_outcome result (with_held [] (with_commands (abandoned (commands s)) (with_media (abandoned (media s))
      (with_slots (lose (held s ++ (mjoin (requests <$> items (commands s))).*1 ++ (mjoin (media_requests <$> items (media s))).*1) (slots s)) s))))).

Variable (cap : nat).

(** ** Types of programs: the replies a program owns and those it has sent *)
Definition after_send (o : SendOutcome) (l sent : list (nat * reply_type)) : list (nat * reply_type) := match o with Accepted => l ++ sent | _ => sent end.

Fixpoint sound {A} (own sent : list (nat * reply_type)) (p : prog A) : Prop :=
  match p with
  | Ret _ | Fail _ => True
  | IsClosed k | Swap k => forall b, sound own sent (k b)
  | SendReplace k | Abort k => sound own sent k
  | Oneshot t k => forall r, sound ((r, t) :: own) sent (k r)
  | TrySendCommand c k => (forall x, x ∈ requests c -> x ∈ own) /\ forall o, sound own (after_send o (requests c) sent) (k o)
  | TrySendMedia c k => (forall x, x ∈ media_requests c -> x ∈ own) /\ forall o, sound own (after_send o (media_requests c) sent) (k o)
  | SendMedia c k => (forall x, x ∈ media_requests c -> x ∈ own) /\ sound own (media_requests c ++ sent) (k true) /\ sound own sent (k false)
  | SendJoin (Wait r) k => (r, TJoin) ∈ own /\ sound own ((r, TJoin) :: sent) (k true) /\ sound own sent (k false)
  | Receive t r k => (r, t) ∈ sent /\ forall a, sound own sent (k a)
  | Snapshot k => forall c, sound own sent (k c)
  end.

(** The methods a user can call. *)
Inductive method : forall {A}, prog A -> Prop :=
| m_close : method close
| m_running : method running
| m_state : method state
| m_close_and_wait : method close_and_wait
| m_dave_media_status : method dave_media_status
| m_wait_until_media_ready w : method (wait_until_media_ready w)
| m_recv_raw_udp_packet n : method (recv_raw_udp_packet n)
| m_recv_rtp_udp_packet n : method (recv_rtp_udp_packet n)
| m_frame_stream n : method (frame_stream n)
| m_set_speaking f d : method (set_speaking f d)
| m_send_encoded_media_frame c f d : method (send_encoded_media_frame c f d)
| m_start_opus_playout : method start_opus_playout
| m_push_packet x p : method (push_packet x p)
| m_push_packet_batch x p : method (push_packet_batch x p)
| m_try_push_packet x p : method (try_push_packet x p)
| m_try_push_packet_batch x p : method (try_push_packet_batch x p)
| m_finish p : method (finish p)
| m_playout_drop p : method (playout_drop p (Ret ()))
| m_inner_drop : method inner_drop.

Ltac typed := repeat first [progress cbn [sound requests media_requests after_send app] | split | intros ? | case_match | progress intros | set_solver].

Lemma method_sound {A} (p : prog A) : method p -> sound [] [] p.
Proof.
  intros []; unfold recv_raw_udp_packet, recv_rtp_udp_packet, recv_udp_packet, frame_stream, push_packet_batch, try_push_packet_batch, finish, playout_drop;
    repeat case_match; cbn; typed; match goal with v : value _ |- _ => cbn in v; destruct v end; cbn; typed.
Qed.

(** ** Steps keep the types *)
Definition replies_of (l : list Driver.ConnectionCommand) : list nat := (mjoin (requests <$> l)).*1.
Definition media_replies_of (l : list Playout.PlayoutCommand) : list nat := (mjoin (media_requests <$> l)).*1.

(** Who can still answer. *)
Definition custody (s : Shared) (r : nat) : Prop :=
  r ∈ held s \/ r ∈ replies_of (items (commands s)) \/ r ∈ media_replies_of (items (media s)) \/ r ∈ join_queue (join s) \/ join_current (join s) = Some r.

Definition has_type (s : Shared) (x : nat * reply_type) : Prop := exists sl, slots s !! x.1 = Some sl /\ slot_type sl = x.2.
Definition waits (s : Shared) (r : nat) : Prop := exists sl, slots s !! r = Some sl /\ waiting sl = true.

Record task_ok {A} (s : Shared) (own sent : list (nat * reply_type)) (p : prog A) : Prop := {
  ok_sound : sound own sent p;
  ok_types x : x ∈ own \/ x ∈ sent -> has_type s x;
  ok_custody x : x ∈ sent -> waits s x.1 -> custody s x.1 }.

Record inv (s : Shared) : Prop := {
  inv_signal : closed (signal s) = true -> closed_once (signal s) = true;
  inv_wins : wins s = (if closed_once (signal s) then 1 else 0)%nat;
  inv_capacity : capacity (commands s) = 128%nat /\ capacity (media s) = cap;
  inv_commands : (length (items (commands s)) <= capacity (commands s))%nat;
  inv_media : (length (items (media s)) <= capacity (media s))%nat;
  inv_queue : (length (join_queue (join s)) <= 1)%nat;
  inv_join r : r ∈ join_queue (join s) \/ join_current (join s) = Some r -> has_type s (r, TJoin);
  inv_ended : is_Some (outcome s) -> receiver (commands s) = false /\ receiver (media s) = false /\ items (commands s) = [] /\ items (media s) = [] /\ held s = [] }.

(** What every step does to the replies of the others. *)
Record extends (s s' : Shared) : Prop := {
  ext_type x : has_type s x -> has_type s' x;
  ext_waits r x : has_type s (r, x) -> waits s' r -> waits s r;
  ext_custody r x : has_type s (r, x) -> waits s' r -> custody s r -> custody s' r;
  ext_outcome : is_Some (outcome s) -> is_Some (outcome s') }.

Lemma task_extends {A} s s' own sent (p : prog A) : extends s s' -> task_ok s own sent p -> task_ok s' own sent p.
Proof.
  intros [Ht Hw Hc _] [H1 H2 H3]. split; [done|intros x Hx; by apply Ht, H2|]. intros [r t] Hx Hwt.
  assert (has_type s (r, t)) by (apply H2; by right). eapply Hc; [done|done|]. apply (H3 (r, t)); [done|]. by eapply Hw.
Qed.

(** Slots that keep their types and stop waiting only. *)
Definition settled (sl sl' : list slot) : Prop :=
  forall r a, sl !! r = Some a -> exists b, sl' !! r = Some b /\ slot_type b = slot_type a /\ (waiting b = true -> waiting a = true).

Lemma settled_refl sl : settled sl sl.
Proof. intros r a Ha. by exists a. Qed.

Lemma settled_app sl l : settled sl (sl ++ l).
Proof. intros r a Ha. exists a. by rewrite (lookup_app_l_Some _ _ _ _ Ha). Qed.

Lemma settled_trans a b c : settled a b -> settled b c -> settled a c.
Proof. intros H1 H2 r x Hx. destruct (H1 r x Hx) as (y & Hy & Ty & Wy). destruct (H2 r y Hy) as (z & Hz & Tz & Wz). exists z. split; [done|split; [congruence|auto]]. Qed.

Lemma settled_alter sl r : settled sl (alter gone r sl).
Proof.
  intros i a Ha. destruct (decide (i = r)) as [->|Hne].
  - exists (gone a). rewrite list_lookup_alter_eq, Ha. split; [done|]. unfold gone. destruct (waiting a) eqn:Hw; cbn; [done|]. by rewrite Hw.
  - exists a. by rewrite list_lookup_alter_ne by done.
Qed.

Lemma settled_lose l sl : settled sl (lose l sl).
Proof. induction l as [|r l IH]; [apply settled_refl|]. eapply settled_trans; [exact IH|apply settled_alter]. Qed.

Lemma settled_insert sl r t a : (exists b, sl !! r = Some b /\ slot_type b = t) -> settled sl (<[r := Slot t (Sent a)]> sl).
Proof.
  intros (b & Hb & Ht) i x Hx. destruct (decide (i = r)) as [->|Hne].
  - exists (Slot t (Sent a)). rewrite list_lookup_insert_eq by (by eapply lookup_lt_Some). split; [done|]. split; [by simplify_eq|done].
  - exists x. by rewrite list_lookup_insert_ne by done.
Qed.

(** After [lose], none of the replies waits. *)
Lemma lose_gone l sl r a : r ∈ l -> lose l sl !! r = Some a -> waiting a = false.
Proof.
  induction l as [|x l IH]; [set_solver|]. cbn. intros Hr Ha. destruct (decide (r = x)) as [->|Hne].
  - rewrite list_lookup_alter_eq in Ha. destruct (foldr _ _ l !! x) as [y|]; [|done]. injection Ha as <-. unfold gone. destruct (waiting y) eqn:?; done.
  - rewrite list_lookup_alter_ne in Ha by done. apply IH; [set_solver|done].
Qed.

Lemma extends_intro s s' : settled (slots s) (slots s') -> (forall r, waits s' r -> custody s r -> custody s' r) -> (is_Some (outcome s) -> is_Some (outcome s')) -> extends s s'.
Proof.
  intros Hs Hc Ho. assert (forall r t, has_type s (r, t) -> waits s' r -> waits s r) as Hw.
  { intros r t (a & Ha & _) (b & Hb & Wb). destruct (Hs r a Ha) as (b' & Hb' & _ & W). exists a. cbn in *. split; [done|]. apply W. by simplify_eq. }
  split; [|done|by eauto|done]. intros [r t] (a & Ha & Ta). destruct (Hs r a Ha) as (b & Hb & Tb & _). exists b. split; [done|]. cbn in *. congruence.
Qed.

(** ** Preservation *)
Ltac fields := cbn [signal wins commands media slots held join outcome with_signal with_slots with_commands with_media with_held with_join with_outcome
  with_published with_aborted join_queue join_current join_taken items capacity receiver with_items abandoned].

Lemma push_cases {T} (x : T) (c : Chan T) :
  (push x c = (Accepted, with_items (items c ++ [x]) c) /\ receiver c = true /\ (length (items c) < capacity c)%nat) \/
  exists o, push x c = (o, c) /\ o ≠ Accepted /\ (o = ReceiverGone <-> receiver c = false).
Proof.
  unfold push. destruct (receiver c) eqn:Hr; cbn [negb]; [|right; by exists ReceiverGone]. destruct (Nat.ltb_spec (length (items c)) (capacity c)); [by left|].
  right. exists Full. split; [done|split; [done|]]. by split.
Qed.

Lemma replies_snoc l c : replies_of (l ++ [c]) = replies_of l ++ (requests c).*1.
Proof. unfold replies_of. rewrite fmap_app, join_app, fmap_app. cbn. by rewrite app_nil_r. Qed.
Lemma media_replies_snoc l c : media_replies_of (l ++ [c]) = media_replies_of l ++ (media_requests c).*1.
Proof. unfold media_replies_of. rewrite fmap_app, join_app, fmap_app. cbn. by rewrite app_nil_r. Qed.

(** Shared states that differ in the slots, which only settle. *)
Lemma slots_extends s sl : settled (slots s) sl -> extends s (with_slots sl s).
Proof. intros H. by apply extends_intro. Qed.

Lemma has_type_extends s s' x : extends s s' -> has_type s x -> has_type s' x.
Proof. intros H. apply H. Qed.

Lemma slots_inv s sl : settled (slots s) sl -> inv s -> inv (with_slots sl s).
Proof.
  intros H Hi. pose proof (slots_extends s sl H) as He. destruct Hi as [H1 H2 HC H3 H4 H5 H6 H7]. split; try done. intros r Hr. by eapply has_type_extends, H6.
Qed.

(** A command is sent: what it carries is then in custody. *)
Lemma sent_command_ok c s o s' : inv s -> sent_command c s = (o, s') ->
  inv s' /\ extends s s' /\ (o = Accepted -> forall x, x ∈ requests c -> custody s' x.1).
Proof.
  intros Hi. unfold sent_command. destruct (push_cases c (commands s)) as [(-> & Hr & Hl)|(o' & -> & Ho & Hg)]; intros [= <- <-].
  - split; [|split].
    + destruct Hi as [H1 H2 HC H3 H4 H5 H6 H7]. split; try done; cbn; [rewrite length_app; cbn; lia|]. intros Hs. destruct (H7 Hs). congruence.
    + apply extends_intro; [apply settled_refl| |done]. intros r _. unfold custody. fields. rewrite replies_snoc. set_solver.
    + intros _ x Hx. right. left. fields. rewrite replies_snoc. apply elem_of_app. right. by apply list_elem_of_fmap_2.
  - assert (settled (slots s) (lose (requests c).*1 (slots s))) by apply settled_lose. destruct o'; [done| |];
      (split; [by apply slots_inv|split; [by apply slots_extends|done]]).
Qed.

Lemma sent_media_ok c s o s' : inv s -> sent_media c s = (o, s') ->
  inv s' /\ extends s s' /\ (o = Accepted -> forall x, x ∈ media_requests c -> custody s' x.1).
Proof.
  intros Hi. unfold sent_media. destruct (push_cases c (media s)) as [(-> & Hr & Hl)|(o' & -> & Ho & Hg)]; intros [= <- <-].
  - split; [|split].
    + destruct Hi as [H1 H2 HC H3 H4 H5 H6 H7]. split; try done; cbn; [rewrite length_app; cbn; lia|]. intros Hs. destruct (H7 Hs) as (? & ? & _). congruence.
    + apply extends_intro; [apply settled_refl| |done]. intros r _. unfold custody. fields. rewrite media_replies_snoc. set_solver.
    + intros _ x Hx. right. right. left. fields. rewrite media_replies_snoc. apply elem_of_app. right. by apply list_elem_of_fmap_2.
  - assert (settled (slots s) (lose (media_requests c).*1 (slots s))) by apply settled_lose. destruct o'; [done| |];
      (split; [by apply slots_inv|split; [by apply slots_extends|done]]).
Qed.

(** The task that sent it. *)
Lemma task_sent {A} s s' own sent l (p : prog A) : extends s s' -> sound own (l ++ sent) p -> (forall x, x ∈ l -> x ∈ own) ->
  (forall x, x ∈ l -> custody s' x.1) -> (forall x, x ∈ own \/ x ∈ sent -> has_type s x) -> (forall x, x ∈ sent -> waits s x.1 -> custody s x.1) ->
  task_ok s' own (l ++ sent) p.
Proof.
  intros He Hs Hl Hc Ht Hw. split; [done| |].
  - intros x Hx. eapply has_type_extends; [done|]. apply Ht. set_solver.
  - intros x [Hx|Hx]%elem_of_app Hwx; [by apply Hc|]. destruct x as [r t]. cbn in *. destruct He as [_ E2 E3 _]. assert (has_type s (r, t)) by (apply Ht; by right).
    eapply E3; [done|done|]. apply (Hw (r, t)); [done|]. cbn. by eapply E2.
Qed.

Lemma same_task {A} s s' own sent (p q : prog A) : extends s s' -> task_ok s own sent p -> sound own sent q -> task_ok s' own sent q.
Proof. intros He [H1 H2 H3] Hq. eapply task_extends; [exact He|]. by split. Qed.

Lemma signal_ok s c n : inv s -> (closed c = true -> closed_once c = true) -> (wins s + n = if closed_once c then 1 else 0)%nat ->
  inv (with_signal c n s) /\ extends s (with_signal c n s).
Proof. intros [H1 H2 HC H3 H4 H5 H6 H7] Hc Hw. split; [by split|]. apply extends_intro; [apply settled_refl|done|done]. Qed.

Lemma swap_ok s : inv s -> let '(before, c) := swap (signal s) in inv (with_signal c (if before then 0 else 1) s) /\ extends s (with_signal c (if before then 0 else 1) s).
Proof. intros Hi. cbn. apply signal_ok; [done|done|]. cbn. rewrite (inv_wins _ Hi). by destruct (closed_once _). Qed.

Lemma announce_ok s : inv s -> closed_once (signal s) = true -> inv (with_signal (send_replace (signal s)) 0 s) /\ extends s (with_signal (send_replace (signal s)) 0 s).
Proof. intros Hi Hc. apply signal_ok; [done|done|]. cbn. rewrite (inv_wins _ Hi). lia. Qed.

Lemma oneshot_ok s t : inv s -> inv (with_slots (slots s ++ [Slot t Waiting]) s) /\ extends s (with_slots (slots s ++ [Slot t Waiting]) s) /\
  has_type (with_slots (slots s ++ [Slot t Waiting]) s) (length (slots s), t).
Proof.
  intros Hi. pose proof (settled_app (slots s) [Slot t Waiting]). split; [by apply slots_inv|split; [by apply slots_extends|]].
  exists (Slot t Waiting). split; [|done]. cbn. rewrite lookup_app_r by lia. by rewrite Nat.sub_diag.
Qed.

Lemma join_sent_ok s r : inv s -> has_type s (r, TJoin) -> (length (join_queue (join s)) < 1)%nat ->
  let s' := with_join {| join_queue := join_queue (join s) ++ [r]; join_current := join_current (join s); join_taken := join_taken (join s) |} s in
  inv s' /\ extends s s' /\ custody s' r.
Proof.
  intros [H1 H2 HC H3 H4 H5 H6 H7] Ht Hl s'. split; [|split].
  - split; try done; cbn; [rewrite length_app; cbn; lia|]. intros x [[Hx|Hx]%elem_of_app|Hx]; [apply H6; by left| |apply H6; by right]. apply list_elem_of_singleton in Hx as ->. done.
  - apply extends_intro; [apply settled_refl| |done]. intros x _. unfold custody. fields. set_solver.
  - right. right. right. left. fields. set_solver.
Qed.

(** A step of a task keeps the invariant, its own type and those of the others;
    only [close] announces, and it swaps first. *)
Fixpoint announces_after (swapped : bool) {A} (p : prog A) : Prop :=
  match p with
  | Ret _ | Fail _ => True
  | Swap k => forall b, announces_after true (k b)
  | SendReplace k => swapped = true /\ announces_after swapped k
  | IsClosed k => forall b, announces_after swapped (k b)
  | Abort k => announces_after swapped k
  | Oneshot _ k => forall r, announces_after swapped (k r)
  | TrySendCommand _ k => forall o, announces_after swapped (k o)
  | TrySendMedia _ k => forall o, announces_after swapped (k o)
  | SendMedia _ k | SendJoin _ k => forall b, announces_after swapped (k b)
  | Receive _ _ k => forall a, announces_after swapped (k a)
  | Snapshot k => forall c, announces_after swapped (k c)
  end.

Lemma method_announces {A} (p : prog A) : method p -> announces_after false p.
Proof.
  intros []; unfold recv_raw_udp_packet, recv_rtp_udp_packet, recv_udp_packet, frame_stream, push_packet_batch, try_push_packet_batch, finish, playout_drop;
    repeat case_match; cbn; repeat first [progress cbn [announces_after] | split | intros ? | case_match | progress intros]; try done;
    match goal with v : value _ |- _ => cbn in v; destruct v end; done.
Qed.

Definition can_announce {A} (s : Shared) (p : prog A) : Prop := exists b, announces_after b p /\ (b = true -> closed_once (signal s) = true).

Definition monotone (s s' : Shared) : Prop := closed_once (signal s) = true -> closed_once (signal s') = true.

Lemma step_ok {A} s own sent (p : prog A) s' p' : inv s -> task_ok s own sent p -> can_announce s p -> step s p = Some (s', p') ->
  inv s' /\ extends s s' /\ monotone s s' /\ can_announce s' p' /\ exists own' sent', task_ok s' own' sent' p'.
Proof.
  intros Hi Hp (sw & Ha & Hsw). pose proof (ok_sound _ _ _ _ Hp) as Hs. pose proof (ok_types _ _ _ _ Hp) as Ht. pose proof (ok_custody _ _ _ _ Hp) as Hc.
  assert (extends s s) as Hrefl by (apply extends_intro; [apply settled_refl|done|done]).
  unfold monotone. destruct p as [a|e|k|k|k|t k|c k|c k|c k|[r] k|t r k|k|k]; cbn [step sound announces_after] in *; [done|done|..].
  - intros [= <- <-]. split; [done|split; [done|split; [done|split; [by exists sw|]]]]. exists own, sent. by eapply same_task.
  - pose proof (swap_ok s Hi) as Hw. destruct (swap (signal s)) as [before c] eqn:E. destruct Hw as [Hi' He]. intros [= <- <-]. injection E as <- <-.
    split; [done|split; [done|split; [done|split; [by exists true|]]]]. exists own, sent. by eapply same_task.
  - destruct Ha as [-> Ha]. destruct (announce_ok s Hi (Hsw eq_refl)) as [Hi' He]. intros [= <- <-].
    split; [done|split; [done|split; [done|split; [by exists true|]]]]. exists own, sent. by eapply same_task.
  - destruct (oneshot_ok s t Hi) as (Hi' & He & Hn). intros [= <- <-]. split; [done|split; [done|split; [done|split; [by exists sw|]]]].
    exists ((length (slots s), t) :: own), sent. pose proof (task_extends _ _ _ _ _ He Hp) as [_ H2 H3]. split; [apply Hs|set_solver|done].
  - destruct Hs as [Hown Hk]. destruct (sent_command c s) as [o s1] eqn:E. destruct (sent_command_ok c s o s1 Hi E) as (Hi' & He & Hq). intros [= <- <-].
    split; [done|split; [done|]]. assert (closed_once (signal s) = true -> closed_once (signal s1) = true) as Hm by (intros ?; unfold sent_command in E; destruct (push _ _) as [[] ?]; by injection E as <- <-).
    split; [done|split; [exists sw; split; [done|auto]|]]. specialize (Hk o). destruct o; cbn [after_send] in Hk; exists own; [exists (requests c ++ sent)|exists sent|exists sent];
      [by apply (task_sent s); auto|by eapply same_task|by eapply same_task].
  - destruct Hs as [Hown Hk]. destruct (sent_media c s) as [o s1] eqn:E. destruct (sent_media_ok c s o s1 Hi E) as (Hi' & He & Hq). intros [= <- <-].
    split; [done|split; [done|]]. assert (closed_once (signal s) = true -> closed_once (signal s1) = true) as Hm by (intros ?; unfold sent_media in E; destruct (push _ _) as [[] ?]; by injection E as <- <-).
    split; [done|split; [exists sw; split; [done|auto]|]]. specialize (Hk o). destruct o; cbn [after_send] in Hk; exists own; [exists (media_requests c ++ sent)|exists sent|exists sent];
      [by apply (task_sent s); auto|by eapply same_task|by eapply same_task].
  - destruct Hs as (Hown & Hk & Hk'). destruct (sent_media c s) as [o s1] eqn:E. destruct (sent_media_ok c s o s1 Hi E) as (Hi' & He & Hq).
    assert (closed_once (signal s) = true -> closed_once (signal s1) = true) as Hm by (intros ?; unfold sent_media in E; destruct (push _ _) as [[] ?]; by injection E as <- <-).
    destruct o; [|done|]; intros [= <- <-]; (split; [done|split; [done|split; [done|split; [exists sw; split; [done|auto]|]]]]); exists own.
    + exists (media_requests c ++ sent). by apply (task_sent s); auto.
    + exists sent. by eapply same_task.
  - destruct Hs as (Hown & Hk & _). destruct (Nat.ltb_spec (length (join_queue (join s))) 1) as [Hl|]; [|done]. intros [= <- <-].
    destruct (join_sent_ok s r Hi (Ht (r, TJoin) (or_introl Hown)) Hl) as (Hi' & He & Hq). split; [done|split; [done|split; [done|split; [by exists sw|]]]].
    exists own, ([(r, TJoin)] ++ sent). apply (task_sent s); [done|done|set_solver|intros x ->%list_elem_of_singleton; done|done|done].
  - destruct Hs as [_ Hk]. destruct (slots s !! r) as [sl|]; [|done]. destruct (taken t sl) as [a|]; [|done]. intros [= <- <-].
    split; [done|split; [done|split; [done|split; [by exists sw|]]]]. exists own, sent. by eapply same_task.
  - intros [= <- <-]. split; [done|split; [done|split; [done|split; [by exists sw|]]]]. exists own, sent. by eapply same_task.
  - intros [= <- <-]. assert (extends s (with_aborted s)) by (apply extends_intro; [apply settled_refl|done|done]).
    split; [by destruct Hi; split|split; [done|split; [done|split; [by exists sw|]]]]. exists own, sent. by eapply same_task.
Qed.

Lemma join_reply_settles s r a : has_type s (r, TJoin) -> settled (slots s) (slots (join_reply r a s)).
Proof. intros (sl & Hsl & Ht). apply (settled_insert _ _ TJoin). by exists sl. Qed.

Lemma inserted_not_waiting (s : slot) (sl : list slot) (r : nat) t a : sl !! r = Some s -> ~ exists b, <[r := Slot t (Sent a)]> sl !! r = Some b /\ waiting b = true.
Proof. intros Hr (b & Hb & W). rewrite list_lookup_insert_eq in Hb by (by eapply lookup_lt_Some). by injection Hb as <-. Qed.

Lemma join_step_ok s s' : inv s -> join_step s = Some s' -> inv s' /\ extends s s' /\ monotone s s'.
Proof.
  intros Hi. unfold join_step, monotone. destruct (join_current (join s)) as [r|] eqn:Hcur.
  - destruct (outcome s) as [o|] eqn:Ho; [|done]. intros [= <-]. assert (has_type s (r, TJoin)) as Ht by (apply (inv_join _ Hi); by right).
    pose proof (join_reply_settles s r o Ht) as Hse. split; [|split; [|done]].
    + pose proof (slots_inv _ _ Hse Hi) as [H1 H2 HC H3 H4 H5 H6 H7]. split; try done. intros x [Hx|Hx]; [|done]. apply H6. by left.
    + apply extends_intro; [done| |done]. intros x Hw. unfold custody. fields. rewrite Hcur. intros [?|[?|[?|[?|[= ->]]]]]; [by eauto..|].
      destruct Ht as (sl & Hsl & _). by destruct (inserted_not_waiting sl (slots s) x TJoin o Hsl).
  - destruct (join_queue (join s)) as [|r l] eqn:Hq; [done|]. assert (has_type s (r, TJoin)) as Ht by (apply (inv_join _ Hi); left; rewrite Hq; set_solver).
    pose proof (inv_queue _ Hi) as Hlen. rewrite Hq in Hlen. cbn in Hlen. destruct (join_taken (join s)); intros [= <-].
    + pose proof (join_reply_settles s r (inr ()) Ht) as Hse. split; [|split; [|done]].
      * pose proof (slots_inv _ _ Hse Hi) as [H1 H2 HC H3 H4 H5 H6 H7]. split; try done; cbn; [lia|]. intros x [Hx|Hx]; [|done]. apply H6. left. fields. rewrite Hq. set_solver.
      * apply extends_intro; [done| |done]. intros x Hw. unfold custody. fields. rewrite Hcur, Hq. intros [?|[?|[?|[[->|?]%elem_of_cons|?]]]]; [by eauto..| |by eauto 6|done].
        destruct Ht as (sl & Hsl & _). by destruct (inserted_not_waiting sl (slots s) r TJoin (inr ()) Hsl).
    + split; [|split; [|done]].
      * destruct Hi as [H1 H2 HC H3 H4 H5 H6 H7]. split; try done; cbn; [lia|]. intros x [Hx|[= <-]]; [|done]. apply H6. left. rewrite Hq. set_solver.
      * apply extends_intro; [apply settled_refl| |done]. intros x _. unfold custody. fields. rewrite Hcur, Hq. intros [?|[?|[?|[[->|?]%elem_of_cons|?]]]]; by eauto 6.
Qed.

Lemma driver_step_ok s s' : inv s -> outcome s = None -> driver_step s s' -> inv s' /\ extends s s' /\ monotone s s'.
Proof.
  intros Hi Ho Hd. unfold monotone. assert (~ is_Some (outcome s)) as Hno by (rewrite Ho; by intros [? [=]]). destruct Hd as [c l Hc|c l Hc|r t a Hr Hsl|r Hr| |Hc|p|result].
  - split; [|split; [|done]].
    + destruct Hi as [H1 H2 HC H3 H4 H5 H6 H7]. split; try done; cbn. rewrite Hc in H3. cbn in H3. lia.
    + apply extends_intro; [apply settled_refl| |done]. intros x _. unfold custody. fields. rewrite Hc. unfold replies_of. cbn. rewrite fmap_app. set_solver.
  - split; [|split; [|done]].
    + destruct Hi as [H1 H2 HC H3 H4 H5 H6 H7]. split; try done; cbn. rewrite Hc in H4. cbn in H4. lia.
    + apply extends_intro; [apply settled_refl| |done]. intros x _. unfold custody. fields. rewrite Hc. unfold media_replies_of. cbn. rewrite fmap_app. set_solver.
  - assert (settled (slots s) (<[r := Slot t (Sent a)]> (slots s))) as Hse by (apply settled_insert; by exists (Slot t Waiting)). split; [|split; [|done]].
    + pose proof (slots_inv _ _ Hse Hi) as [H1 H2 HC H3 H4 H5 H6 H7]. split; try done.
    + apply extends_intro; [done| |done]. intros x Hw. unfold custody. fields. destruct (decide (x = r)) as [->|Hne]; [by destruct (inserted_not_waiting _ _ r t a Hsl)|].
      intros [?|?]; [left; by apply list_elem_of_filter|by right].
  - pose proof (settled_lose [r] (slots s)) as Hse. split; [|split; [|done]].
    + pose proof (slots_inv _ _ Hse Hi) as [H1 H2 HC H3 H4 H5 H6 H7]. split; try done.
    + apply extends_intro; [done| |done]. intros x (sl & Hx & Hw). unfold custody. fields. destruct (decide (x = r)) as [->|Hne].
      { rewrite (lose_gone [r] (slots s) r sl) in Hw; [done|set_solver|done]. }
      intros [?|?]; [left; by apply list_elem_of_filter|by right].
  - by destruct (swap_ok s Hi).
  - by destruct (announce_ok s Hi Hc).
  - split; [by destruct Hi; split|split; [|done]]. apply extends_intro; [apply settled_refl|done|done].
  - set (l := held s ++ replies_of (items (commands s)) ++ media_replies_of (items (media s))). pose proof (settled_lose l (slots s)) as Hse. split; [|split; [|done]].
    + pose proof (slots_inv _ _ Hse Hi) as [H1 H2 HC H3 H4 H5 H6 H7]. split; try done; cbn; lia.
    + apply extends_intro; [done| |by eexists]. intros x (sl & Hx & Hw) Hcu. assert (x ∉ l) as Hl by (intros Hin; by rewrite (lose_gone l (slots s) x sl Hin Hx) in Hw).
      unfold custody in *. subst l. fields. rewrite !not_elem_of_app in Hl. destruct Hl as (? & ? & ?). destruct Hcu as [?|[?|[?|?]]]; [done..|by eauto].
Qed.

(** ** Programs are well-founded *)
Definition child {A} (q p : prog A) : Prop :=
  match p with
  | Ret _ | Fail _ => False
  | IsClosed k | Swap k | SendMedia _ k | SendJoin _ k => exists b, q = k b
  | SendReplace k | Abort k => q = k
  | Oneshot _ k => exists r, q = k r
  | TrySendCommand _ k | TrySendMedia _ k => exists o, q = k o
  | Receive _ _ k => exists a, q = k a
  | Snapshot k => exists c, q = k c
  end.

Lemma child_wf {A} : well_founded (child (A := A)).
Proof.
  intros p. induction p as [a|e|k IH|k IH|k IH|t k IH|c k IH|c k IH|c k IH|c k IH|t r k IH|k IH|k IH]; constructor; cbn [child]; intros q Hq;
    [destruct Hq|destruct Hq|..]; first [subst q; exact IH | destruct Hq as [? ->]; apply IH].
Qed.

Lemma step_child {A} s (p : prog A) s' p' : step s p = Some (s', p') -> child p' p.
Proof.
  destruct p as [a|e|k|k|k|t k|c k|c k|c k|[r] k|t r k|k|k]; cbn [step child]; try done; repeat case_match; try done; intros; simplify_eq; eauto.
  destruct (taken t _) as [a|]; [|done]. cbn in *. simplify_eq. eauto.
Qed.

(** ** A call on its own, with the join task *)
Fixpoint alone {A} (fuel : nat) (s : Shared) (p : prog A) : option (Shared * (HandleError + A)) :=
  match fuel with
  | O => None
  | S fuel =>
      match p with
      | Ret a => Some (s, inr a)
      | Fail e => Some (s, inl e)
      | _ => match step s p with
             | Some (s, p) => alone fuel s p
             | None => match join_step s with Some s => alone fuel s p | None => None end
             end
      end
  end.

Definition work (s : Shared) : nat := 2 * length (join_queue (join s)) + match join_current (join s) with Some _ => 1 | None => 0 end.

Lemma join_step_work s s' : join_step s = Some s' -> (work s' < work s)%nat.
Proof. unfold join_step, work. repeat case_match; intros; simplify_eq; cbn; try lia; done. Qed.

(** A task that waits after the driver's end waits for the join task. *)
Lemma waits_for_join {A} s own sent (p : prog A) : inv s -> is_Some (outcome s) -> task_ok s own sent p -> step s p = None ->
  (exists a, p = Ret a) \/ (exists e, p = Fail e) \/ is_Some (join_step s).
Proof.
  intros Hi [o Ho] [Hs Ht Hc]. destruct (inv_ended _ Hi) as (Hrc & Hrm & Hic & Him & Hh); [by exists o|]. assert (forall r, custody s r -> is_Some (join_step s)) as Hj.
  { intros r. unfold custody. rewrite Hh, Hic, Him. intros [[]%elem_of_nil|[[]%elem_of_nil|[[]%elem_of_nil|[Hq|Hq]]]]; unfold join_step.
    - destruct (join_current _); [rewrite Ho; by eexists|]. destruct (join_queue _); [by apply elem_of_nil in Hq|]. by destruct (join_taken _); eexists.
    - rewrite Hq, Ho. by eexists. }
  destruct p as [a|e|k|k|k|t k|c k|c k|c k|[r] k|t r k|k|k]; cbn [step sound] in *; try done; [by eauto|by eauto|..].
  - by destruct (sent_command c s).
  - by destruct (sent_media c s).
  - unfold sent_media, push. rewrite Hrm. done.
  - destruct (Nat.ltb_spec (length (join_queue (join s))) 1) as [|Hl]; [done|]. intros _. right. right.
    destruct (join_queue (join s)) as [|x l] eqn:Hq; [cbn in Hl; lia|]. apply (Hj x). unfold custody. rewrite Hq. set_solver.
  - destruct Hs as [Hin _]. destruct (Ht (r, t) (or_intror Hin)) as (sl & Hsl & Hty). cbn in Hsl, Hty. rewrite Hsl. intros Hn. right. right. apply (Hj r), (Hc (r, t) Hin).
    exists sl. split; [done|]. destruct sl as [t' st]. cbn in *. subst t'. rewrite decide_True_pi with (HP := eq_refl) in Hn. by destruct st.
Qed.

Lemma alone_step {A} fuel s (p : prog A) s' p' : step s p = Some (s', p') -> alone (S fuel) s p = alone fuel s' p'.
Proof. intros H. destruct p; try done; cbn [alone]; by rewrite H. Qed.

Lemma alone_join {A} fuel s (p : prog A) s' : (forall a, p ≠ Ret a) -> (forall e, p ≠ Fail e) -> step s p = None -> join_step s = Some s' ->
  alone (S fuel) s p = alone fuel s' p.
Proof. intros Hr Hf H Hj. destruct p as [a|e| | | | | | | | | | |]; [by destruct (Hr a)|by destruct (Hf e)|..]; cbn [alone]; by rewrite H, Hj. Qed.

Lemma prog_cases {A} (p : prog A) : (exists a, p = Ret a) \/ (exists e, p = Fail e) \/ (forall a, p ≠ Ret a) /\ forall e, p ≠ Fail e.
Proof. destruct p as [a|e| | | | | | | | | | |]; [left; by exists a|right; left; by exists e|..]; right; right; by split. Qed.

Lemma can_announce_mono {A} s s' (p : prog A) : monotone s s' -> can_announce s p -> can_announce s' p.
Proof. intros Hm (b & Ha & Hb). exists b. split; [done|]. intros E. by apply Hm, Hb. Qed.

Lemma alone_returns {A} (p : prog A) s own sent : inv s -> is_Some (outcome s) -> task_ok s own sent p -> can_announce s p ->
  exists fuel s' r, alone fuel s p = Some (s', r).
Proof.
  revert s own sent. induction (child_wf p) as [p _ IHp].
  assert (forall n s own sent, (work s <= n)%nat -> inv s -> is_Some (outcome s) -> task_ok s own sent p -> can_announce s p -> exists fuel s' r, alone fuel s p = Some (s', r)) as H;
    [|intros s own sent; by apply (H (work s))].
  induction n as [n IHn] using lt_wf_ind. intros s own sent Hw Hi Ho Hp Ha. destruct (step s p) as [[s' p']|] eqn:Hs.
  - destruct (step_ok _ _ _ _ _ _ Hi Hp Ha Hs) as (Hi' & He & _ & Ha' & own' & sent' & Hp'). apply step_child in Hs as Hch.
    destruct (IHp p' Hch s' own' sent' Hi' (ext_outcome _ _ He Ho) Hp' Ha') as (fuel & s'' & r & Hf). exists (S fuel), s'', r. by rewrite (alone_step _ _ _ _ _ Hs).
  - destruct (waits_for_join _ _ _ _ Hi Ho Hp Hs) as [[a ->]|[[e ->]|[s' Hj]]]; [by exists 1%nat, s, (inr a)|by exists 1%nat, s, (inl e)|].
    destruct (join_step_ok _ _ Hi Hj) as (Hi' & He & Hm). apply join_step_work in Hj as Hlt.
    destruct (IHn (work s') ltac:(lia) s' own sent ltac:(lia) Hi' (ext_outcome _ _ He Ho) (task_extends _ _ _ _ _ He Hp) (can_announce_mono _ _ _ Hm Ha)) as (fuel & s'' & r & Hf).
    destruct (prog_cases p) as [[a ->]|[[e ->]|[Hr He']]]; [by exists 1%nat, s, (inr a)|by exists 1%nat, s, (inl e)|].
    exists (S fuel), s'', r. by rewrite (alone_join _ _ _ _ Hr He' Hs Hj).
Qed.

(** ** The system *)
Inductive task := Task (A : Type) (p : prog A).

Inductive sys_step : Shared * list task -> Shared * list task -> Prop :=
| calls s ts A (p : prog A) : method p -> sys_step (s, ts) (s, ts ++ [Task _ p])
| runs s ts i A (p : prog A) s' p' : ts !! i = Some (Task _ p) -> step s p = Some (s', p') -> sys_step (s, ts) (s', <[i := Task _ p']> ts)
| drives s ts s' : outcome s = None -> driver_step s s' -> sys_step (s, ts) (s', ts)
| joins s ts s' : join_step s = Some s' -> sys_step (s, ts) (s', ts).

(** A new connection; the media channel has the capacity of the tuning. *)
Definition started (tuning : Tuning.ConnectionRuntimeTuning) (p : ConnectionState) : Shared :=
  {| signal := close_new; wins := 0; commands := {| capacity := 128; items := []; receiver := true |};
     media := {| capacity := Tuning.media_queue_capacity tuning; items := []; receiver := true |}; slots := []; held := [];
     join := {| join_queue := []; join_current := None; join_taken := false |}; outcome := None; published := p; aborted := false |}.

Definition good (s : Shared) (t : task) : Prop := let '(Task _ p) := t in can_announce s p /\ exists own sent, task_ok s own sent p.

Definition sys_ok (st : Shared * list task) : Prop := inv st.1 /\ Forall (good st.1) st.2.

(** Tasks that are not affected by a step. *)
Lemma others_ok s s' ts : extends s s' -> monotone s s' -> Forall (good s) ts -> Forall (good s') ts.
Proof.
  intros He Hm Hts. eapply Forall_impl; [exact Hts|]. intros [A p] (Ha & own & sent & Hp). split; [by eapply can_announce_mono|]. exists own, sent. by eapply task_extends.
Qed.

Lemma sys_step_ok st st' : sys_ok st -> sys_step st st' -> sys_ok st'.
Proof.
  intros [Hi Ht] Hs. destruct Hs as [s ts A p Hm|s ts i A p s' p' Hp Hs|s ts s' Ho Hd|s ts s' Hj]; cbn [fst snd] in *.
  - split; [done|]. apply Forall_app. split; [done|]. apply Forall_singleton. split; [exists false; by split; [apply method_announces|]|].
    exists [], []. split; [by apply method_sound|set_solver|set_solver].
  - destruct (Forall_lookup_1 _ _ _ _ Ht Hp) as (Ha & own & sent & Hpo). destruct (step_ok _ _ _ _ _ _ Hi Hpo Ha Hs) as (Hi' & He & Hm & Ha' & Hp').
    split; [done|]. apply Forall_insert; [by eapply others_ok|done].
  - destruct (driver_step_ok _ _ Hi Ho Hd) as (Hi' & He & Hm). split; [done|]. by eapply others_ok.
  - destruct (join_step_ok _ _ Hi Hj) as (Hi' & He & Hm). split; [done|]. by eapply others_ok.
Qed.

Definition reachable (tuning : Tuning.ConnectionRuntimeTuning) (p : ConnectionState) (st : Shared * list task) : Prop := rtc sys_step (started tuning p, []) st.

Lemma system_reachable_ok tuning p st : cap = Tuning.media_queue_capacity tuning -> reachable tuning p st -> sys_ok st.
Proof.
  intros Hcap. apply (rtc_ind_r sys_ok (started tuning p, [])); [|intros; by eapply sys_step_ok]. split; [|by constructor].
  split; cbn; try done; try lia. by intros r [?%elem_of_nil|?].
Qed.

(** ** Calls after the connection was closed *)

(** With the signal set, a program sends Close and Cancel at most. *)
Fixpoint quiet {A} (p : prog A) : Prop :=
  match p with
  | Ret _ | Fail _ => True
  | IsClosed k => quiet (k true)
  | Swap k | SendJoin _ k => forall b, quiet (k b)
  | SendReplace k | Abort k => quiet k
  | Oneshot _ k => forall r, quiet (k r)
  | TrySendCommand c k => c = Driver.CmdClose /\ forall o, quiet (k o)
  | TrySendMedia c k => (exists id, c = Playout.CmdCancel id) /\ forall o, quiet (k o)
  | SendMedia _ _ => False
  | Receive _ _ k => forall a, quiet (k a)
  | Snapshot k => forall c, quiet (k c)
  end.

Lemma method_quiet {A} (p : prog A) : method p -> quiet p.
Proof.
  intros []; unfold recv_raw_udp_packet, recv_rtp_udp_packet, recv_udp_packet, frame_stream, push_packet_batch, try_push_packet_batch, finish, playout_drop;
    repeat case_match; cbn; repeat first [progress cbn [quiet] | split | intros ? | case_match | progress intros]; try done; try by eexists.
  all: match goal with v : value _ |- _ => cbn in v; destruct v end; done.
Qed.

(** A call that began after the signal was set, with other steps in between. *)
Inductive since_close {A} : Shared -> prog A -> Prop :=
| begins s p : closed_once (signal s) = true -> method p -> since_close s p
| goes_on s p s' p' : since_close s p -> step s p = Some (s', p') -> since_close s' p'
| meanwhile s p s' ts ts' : since_close s p -> sys_step (s, ts) (s', ts') -> since_close s' p.

Lemma step_monotone {A} s (p : prog A) s' p' : step s p = Some (s', p') -> monotone s s'.
Proof.
  unfold monotone. destruct p as [a|e|k|k|k|t k|c k|c k|c k|[r] k|t r k|k|k]; cbn [step]; try done; try (by intros [= <- <-]).
  - unfold sent_command. destruct (push _ _) as [[] ?]; by intros [= <- <-].
  - unfold sent_media. destruct (push _ _) as [[] ?]; by intros [= <- <-].
  - unfold sent_media. destruct (push _ _) as [[] ?]; by intros [= <- <-].
  - case_match; [by intros [= <- <-]|done].
  - destruct (slots s !! r) as [sl|]; [|done]. destruct (taken t sl); [by intros [= <- <-]|done].
Qed.

Lemma sys_step_monotone st st' : sys_step st st' -> monotone st.1 st'.1.
Proof.
  intros [s ts A p Hm|s ts i A p s' p' Hp Hs|s ts s' Ho Hd|s ts s' Hj]; unfold monotone; cbn [fst]; [done|exact (step_monotone _ _ _ _ Hs)|by destruct Hd|].
  unfold join_step in Hj. repeat case_match; by simplify_eq.
Qed.

Lemma since_close_quiet {A} s (p : prog A) : since_close s p -> closed_once (signal s) = true /\ quiet p.
Proof.
  induction 1 as [s p Hc Hm|s p s' p' H [Hc Hq] Hs|s p s' ts ts' H [Hc Hq] Hs].
  - split; [done|by apply method_quiet].
  - split; [by eapply step_monotone|]. destruct p as [a|e|k|k|k|t k|c k|c k|c k|[r] k|t r k|k|k]; cbn [step quiet] in *; try done.
    + injection Hs as <- <-. by rewrite Hc.
    + by injection Hs as <- <-.
    + by injection Hs as <- <-.
    + by injection Hs as <- <-.
    + destruct (sent_command c s). injection Hs as <- <-. by apply Hq.
    + destruct (sent_media c s). injection Hs as <- <-. by apply Hq.
    + case_match; [by injection Hs as <- <-|done].
    + destruct (slots s !! r) as [sl|]; [|done]. destruct (taken t sl); [by injection Hs as <- <-|done].
    + by injection Hs as <- <-.
    + by injection Hs as <- <-.
  - split; [|done]. by apply (sys_step_monotone _ _ Hs).
Qed.

(** C23. Once [close] has set the signal, calls that begin later put nothing into the
    channels but the Close of [close_and_wait] and the Cancel of a dropped
    playout, whatever the other tasks do in between. *)
Theorem closed_refuses {A} s (p : prog A) s' p' : since_close s p -> step s p = Some (s', p') ->
  (items (commands s') = items (commands s) \/ items (commands s') = items (commands s) ++ [Driver.CmdClose]) /\
  (items (media s') = items (media s) \/ exists id, items (media s') = items (media s) ++ [Playout.CmdCancel id]).
Proof.
  intros [Hc Hq]%since_close_quiet Hs. destruct p as [a|e|k|k|k|t k|c k|c k|c k|[r] k|t r k|k|k]; cbn [step quiet] in *; try done; try (injection Hs as <- <-; by auto).
  - unfold sent_command in Hs. destruct Hq as [-> _]. destruct (push_cases Driver.CmdClose (commands s)) as [(E & _)|([] & E & _)]; rewrite E in Hs; injection Hs as <- <-; by auto.
  - unfold sent_media in Hs. destruct Hq as [[id ->] _]. destruct (push_cases (Playout.CmdCancel id) (media s)) as [(E & _)|([] & E & _)]; rewrite E in Hs; injection Hs as <- <-; by eauto.
  - case_match; [injection Hs as <- <-; by auto|done].
  - destruct (slots s !! r) as [sl|]; [|done]. destruct (taken t sl); [injection Hs as <- <-; by auto|done].
Qed.

End System.

(** C21. In every state that users, driver and join task can reach together: [close]
    has returned true at most once, the close signal is announced only after it
    was set, the channels hold no more than their capacity; and when the driver
    has ended, with or without an error or by an abort, no call waits forever:
    every call that is under way returns, with the join task alone running
    beside it. *)
Theorem calls_return {R : Assembler.FrameRaw} tuning p s ts : reachable tuning p (s, ts) ->
  ((wins s <= 1)%nat /\ (closed (signal s) = true -> closed_once (signal s) = true) /\
   (length (items (commands s)) <= 128)%nat /\ (length (items (media s)) <= Tuning.media_queue_capacity tuning)%nat) /\
  (is_Some (outcome s) -> forall A (q : prog A), Task _ q ∈ ts -> exists fuel s' r, alone fuel s q = Some (s', r)).
Proof.
  intros Hr. destruct (system_reachable_ok (Tuning.media_queue_capacity tuning) tuning p (s, ts) eq_refl Hr) as [Hi Ht]. split.
  - destruct Hi as [H1 H2 [C1 C2] H3 H4 _ _ _]. cbn [fst] in *. rewrite C1 in H3. rewrite C2 in H4. split; [rewrite H2; by destruct (closed_once _); lia|done].
  - intros Ho A q Hq. apply list_elem_of_lookup in Hq as [i Hq]. destruct (Forall_lookup_1 _ _ _ _ Ht Hq) as (Ha & own & sent & Hp). by eapply alone_returns.
Qed.

(** Why a program cannot go on: it has ended, or it waits for a reply of its own
    type that somebody still holds, for room in the media channel while the
    driver is there to make it, or for room before the join task. *)
Inductive rests {R : Assembler.FrameRaw} {A} (s : Shared) : prog A -> Prop :=
| rests_returned a : rests s (Ret a)
| rests_failed e : rests s (Fail e)
| rests_reply t r k : slots s !! r = Some (Slot t Waiting) -> custody s r -> rests s (Receive t r k)
| rests_media c k : receiver (media s) = true -> length (items (media s)) = capacity (media s) -> rests s (SendMedia c k)
| rests_join r k : join_queue (join s) ≠ [] -> rests s (SendJoin (Wait r) k).

(** C22. Calls are typed.  In every state that users, driver and join task can reach
    together, a call that is under way can take its next step unless it rests: a
    reply it waits for is in a slot of the type it expects, and while the slot
    is empty the reply is in a channel, with the driver or with the join task. *)
Theorem calls_typed {R : Assembler.FrameRaw} tuning p s ts A (q : prog A) : reachable tuning p (s, ts) -> Task _ q ∈ ts -> is_Some (step s q) \/ rests s q.
Proof.
  intros Hr Hq. destruct (system_reachable_ok (Tuning.media_queue_capacity tuning) tuning p (s, ts) eq_refl Hr) as [Hi Ht].
  apply list_elem_of_lookup in Hq as [i Hq]. destruct (Forall_lookup_1 _ _ _ _ Ht Hq) as (_ & own & sent & [Hs Hty Hc]). cbn [fst] in *.
  destruct q as [a|e|k|k|k|t k|c k|c k|c k|[r] k|t r k|k|k]; cbn [step]; try (left; by eexists); [by right; constructor..| | | | |].
  - left. by destruct (sent_command c s); eexists.
  - left. by destruct (sent_media c s); eexists.
  - destruct (sent_media c s) as [[] s'] eqn:E; [left; by eexists| |left; by eexists]. right.
    unfold sent_media, push in E. destruct (receiver (media s)) eqn:Hrc; [|done]. cbn [negb] in E. destruct (Nat.ltb_spec (length (items (media s))) (capacity (media s))); [done|].
    pose proof (inv_media _ _ Hi). constructor; [done|lia].
  - destruct (join_queue (join s)) eqn:E; [left; by eexists|right]. constructor. by rewrite E.
  - destruct Hs as [Hin _]. destruct (Hty (r, t)) as ([t' st] & Hsl & Et); [by right|]. cbn in Hsl, Et. subst t'. rewrite Hsl. cbn [taken].
    rewrite decide_True_pi with (HP := eq_refl). destruct st; [right|left; by eexists..]. constructor; [done|].
    apply (Hc (r, t)); [done|]. exists (Slot t Waiting). by split.
Qed.

(** ** A call that the end of the driver finds waiting *)
Module HandleSamples.
#[local] Existing Instance Assembler.AssemblerSamples.sample_raw.

Definition sample_tuning : Tuning.ConnectionRuntimeTuning := Tuning.as_runtime Tuning.tuning_default.

Definition sample_state : ConnectionState :=
  {| connection := {| Connect.info_guild_id := 1; Connect.info_channel_id := 2; Connect.info_user_id := 5; Connect.info_endpoint := "voice.example";
       Connect.info_gateway_version := 8; Connect.info_max_dave_protocol_version := Some 1 |};
     heartbeat_interval_ms := 41250; local_ssrc := 9; selected_mode := Rtp.AeadAes256GcmRtpSize; session := None; connected_user_ids := {[5]};
     ssrc_users := ∅; speaking := ∅; dave := DaveGateway.public_state DaveGateway.dave_default; resumed := false |}.

(** [n] steps of the only task. *)
Fixpoint run_n {A} (n : nat) (s : Shared) (p : prog A) : Shared * prog A :=
  match n with O => (s, p) | S n => match step s p with Some (s, p) => run_n n s p | None => (s, p) end end.

Lemma run_n_steps {A} n s (p : prog A) : rtc sys_step (s, [Task _ p]) ((run_n n s p).1, [Task _ (run_n n s p).2]).
Proof.
  revert s p. induction n as [|n IH]; intros s p; [apply rtc_refl|]. cbn. destruct (step s p) as [[s' p']|] eqn:E; [|apply rtc_refl].
  eapply rtc_l; [exact (runs s [Task _ p] 0 A p s' p' eq_refl E)|apply IH].
Qed.

Definition frame_call : prog Outbound.OutboundPacket := send_encoded_media_frame Opus [1; 2; 3] 20000000.

(** The frame has been handed to the driver, which takes it and is aborted. *)
Definition sent_state : Shared * prog Outbound.OutboundPacket := run_n 10 (started sample_tuning sample_state) frame_call.

Definition ended_state : Shared :=
  let s := sent_state.1 in
  with_outcome (inl ControlTaskJoinFailed) (with_held [] (with_commands (abandoned (commands s)) (with_media (abandoned (media s))
    (with_slots (lose (held s ++ (mjoin (requests <$> items (commands s))).*1 ++ (mjoin (media_requests <$> items (media s))).*1) (slots s)) s)))).

Lemma ended_reachable : reachable sample_tuning sample_state (ended_state, [Task _ sent_state.2]).
Proof.
  eapply rtc_l; [apply (calls _ _ _ frame_call); constructor|]. etrans; [apply (run_n_steps 10)|]. apply rtc_once.
  apply drives; [reflexivity|]. apply ends.
Qed.

Lemma calls_return_witness :
  items (commands sent_state.1) ≠ [] /\ step sent_state.1 sent_state.2 = None /\ exists fuel s' r, alone fuel ended_state sent_state.2 = Some (s', r).
Proof.
  split; [discriminate|split; [reflexivity|]]. apply (calls_return sample_tuning sample_state ended_state [Task _ sent_state.2] ended_reachable); [by eexists|set_solver].
Defined.

Lemma sent_reachable : reachable sample_tuning sample_state (sent_state.1, [Task _ sent_state.2]).
Proof. eapply rtc_l; [apply (calls _ _ _ frame_call); constructor|]. apply (run_n_steps 10). Qed.

Lemma calls_typed_witness : step sent_state.1 sent_state.2 = None /\ (is_Some (step sent_state.1 sent_state.2) \/ rests sent_state.1 sent_state.2).
Proof. split; [reflexivity|]. apply (calls_typed sample_tuning sample_state sent_state.1 [Task _ sent_state.2] _ sent_state.2 sent_reachable). set_solver. Defined.

(** It returns [Closed]. *)
Example frame_call_closed : option_map snd (alone 10 ended_state sent_state.2) = Some (inl Closed).
Proof. reflexivity. Qed.

Definition closed_state : Shared := (run_n 5 (started sample_tuning sample_state) close).1.

Lemma closed_refuses_witness :
  let s' := (run_n 1 closed_state close_and_wait).1 in
  (items (commands s') = items (commands closed_state) \/ items (commands s') = items (commands closed_state) ++ [Driver.CmdClose]) /\
  (items (media s') = items (media closed_state) \/ exists id, items (media s') = items (media closed_state) ++ [Playout.CmdCancel id]).
Proof. apply (closed_refuses closed_state close_and_wait _ (run_n 1 closed_state close_and_wait).2); [by constructor; [|constructor]|reflexivity]. Defined.

(** The media channel is full when a playout is dropped: the Cancel is lost, and
    the playout stays the active one of the driver. *)
Definition full_state : Shared :=
  with_media (with_items (replicate 256 (Playout.CmdFrame 1 (Playout.playout_packet {| OpusPacket.packet_bytes := [8; 1; 2] |}))) (media (started sample_tuning sample_state)))
    (started sample_tuning sample_state).

Example cancel_lost : alone 10 full_state (playout_drop {| playout_id := 1; finished := false |} (Ret ())) = Some (full_state, inr ()).
Proof. vm_compute. reflexivity. Qed.
End HandleSamples.
End HandleSpec.
