(* ===== verification/IdentityCache.v ===== *)
(** * Identity keys shared between connections (cacophony/src/dave.rs)

    [DaveIdentityKey] is a shared pointer to a key pair.  Connections without a
    key of their own take the ephemeral one of their user from a cache of weak
    pointers, so that connections of a user that overlap in time show the other
    members one identity, and nothing is kept when the last of them is gone.

    The heap holds what the pointers point to with the number of strong
    pointers; a weak pointer can be upgraded while that is not 0.  A user of the
    cache is a [handle]: the user it was opened for, or [None] for a key the
    caller supplied, and its pointer.  Keys come from [signing_key]s that the
    random source yields. *)

From S2P Require Import Prelude Identity.
Import Identity.

Module IdentityCache.
Section Cache.
Context `{P : P256}.

Record Shared := { pair : IdentityKeyPair; strong : nat }.

Record Cache := { heap : list Shared; identities : gmap Z nat }.

Definition strong_count (p : nat) (h : list Shared) : nat := match h !! p with Some a => strong a | None => 0 end.

Definition change (f : nat -> nat) (p : nat) (h : list Shared) : list Shared := alter (fun a => {| pair := pair a; strong := f (strong a) |}) p h.

(** [Weak::upgrade] *)
Definition upgrade (p : nat) (h : list Shared) : option (list Shared) := if (0 <? strong_count p h)%nat then Some (change S p h) else None.

(** [Arc::new(IdentityKeyPair::generate(..))] and [from_p256_private_key] *)
Definition allocate (k : IdentityKeyPair) (c : Cache) : nat * Cache :=
  (length (heap c), {| heap := heap c ++ [{| pair := k; strong := 1 |}]; identities := identities c |}).

Definition identity_generate (k : signing_key) (p : IdentityKeyPersistence) (c : Cache) : nat * Cache := allocate (generate k p) c.

Definition identity_from_p256_private_key (l : bytes) (p : IdentityKeyPersistence) (c : Cache) : res IdentityKeyError (nat * Cache) :=
  k ← from_p256_private_key l p; Ok (allocate k c).

Definition retained (c : Cache) : gmap Z nat := filter (fun '(_, p) => (0 < strong_count p (heap c))%nat) (identities c).

(** [DaveIdentityKey::shared_ephemeral] *)
Definition shared_ephemeral (k : signing_key) (user_id : Z) (c : Cache) : nat * Cache :=
  let ids := retained c in
  match (p ← ids !! user_id; h ← upgrade p (heap c); Some (p, h)) with
  | Some (p, h) => (p, {| heap := h; identities := ids |})
  | None =>
      let '(p, c) := allocate (generate k Ephemeral) {| heap := heap c; identities := ids |} in
      (p, {| heap := heap c; identities := <[user_id := p]> (identities c) |})
  end.

(** [Arc::clone] and [Arc::drop] *)
Definition clone_key (p : nat) (c : Cache) : Cache := {| heap := change S p (heap c); identities := identities c |}.
Definition drop_key (p : nat) (c : Cache) : Cache := {| heap := change pred p (heap c); identities := identities c |}.

(** [DaveIdentityKey::session_identity] *)
Definition session_identity (p : nat) (c : Cache) : option SessionIdentity := (fun a => KeyPair (duplicate_for_session (pair a))) <$> heap c !! p.

(** ** Runs *)
Abbreviation handle := (option Z * nat)%type.

Inductive run : Cache -> list handle -> Prop :=
| run_empty : run {| heap := []; identities := ∅ |} []
| run_open c hs u k : run c hs -> run (shared_ephemeral k u c).2 ((Some u, (shared_ephemeral k u c).1) :: hs)
| run_own c hs k : run c hs -> run (allocate k c).2 ((None, (allocate k c).1) :: hs)
| run_clone c hs h : run c hs -> h ∈ hs -> run (clone_key h.2 c) (h :: hs)
| run_drop c l1 l2 h : run c (l1 ++ h :: l2) -> run (drop_key h.2 c) (l1 ++ l2).

Definition live (p : nat) (hs : list handle) : nat := length (filter (fun h => h.2 = p) hs).

Record cache_ok (c : Cache) (hs : list handle) : Prop := {
  ok_heap p : strong_count p (heap c) = live p hs;
  ok_shared u p : (Some u, p) ∈ hs -> identities c !! u = Some p;
  ok_bound u p : identities c !! u = Some p -> (p < length (heap c))%nat;
  ok_inj u v p : identities c !! u = Some p -> identities c !! v = Some p -> u = v;
  ok_own p : (None, p) ∈ hs -> forall u, identities c !! u ≠ Some p;
  ok_alive h : h ∈ hs -> (h.2 < length (heap c))%nat }.

Lemma strong_change f p q h : (p < length h)%nat -> strong_count q (change f p h) = if decide (p = q) then f (strong_count p h) else strong_count q h.
Proof.
  intros Hp. unfold strong_count, change. case_decide as Heq; [subst q|by rewrite list_lookup_alter_ne].
  rewrite list_lookup_alter_eq. by destruct (lookup_lt_is_Some_2 h p Hp) as [a ->].
Qed.

Lemma strong_allocate p a h : strong_count p (h ++ [a]) = if decide (p = length h) then strong a else strong_count p h.
Proof.
  unfold strong_count. case_decide as Heq.
  - subst p. by rewrite lookup_app_r, Nat.sub_diag by lia.
  - destruct (decide (p < length h)%nat); [by rewrite lookup_app_l|]. rewrite !lookup_ge_None_2; [done|lia|rewrite length_app; cbn; lia].
Qed.

Lemma live_cons p h hs : live p (h :: hs) = ((if decide (h.2 = p) then 1 else 0) + live p hs)%nat.
Proof. unfold live. rewrite filter_cons. by case_decide. Qed.

Lemma live_in p u hs : (u, p) ∈ hs -> (0 < live p hs)%nat.
Proof.
  intros H. unfold live. assert ((u, p) ∈ filter (fun h : handle => h.2 = p) hs) as Hin by (by apply list_elem_of_filter).
  destruct (filter _ hs); [by apply elem_of_nil in Hin|cbn; lia].
Qed.

Lemma live_inv p hs : (0 < live p hs)%nat -> exists u, (u, p) ∈ hs.
Proof.
  unfold live. destruct (filter _ hs) as [|[u q] l] eqn:E; cbn; [lia|]. intros _. exists u.
  assert ((u, q) ∈ (u, q) :: l) as Hin by (by left). rewrite <- E in Hin. apply list_elem_of_filter in Hin as [Hq Hin]. cbn in Hq. by subst.
Qed.

Lemma length_change f p h : length (change f p h) = length h.
Proof. apply length_alter. Qed.

Lemma retained_lookup c u p : retained c !! u = Some p <-> identities c !! u = Some p /\ (0 < strong_count p (heap c))%nat.
Proof. unfold retained. by rewrite map_lookup_filter_Some. Qed.

(** Nothing is retained but what is in use. *)
Lemma retained_ok c hs : cache_ok c hs -> cache_ok {| heap := heap c; identities := retained c |} hs.
Proof.
  intros [H1 H2 H3 H4 H5 H6]. split; cbn [heap identities clone_key drop_key fst snd]; try done.
  - intros u p Hin. apply retained_lookup. split; [by apply H2|]. rewrite H1. by eapply live_in.
  - intros u p [? _]%retained_lookup. by eapply H3.
  - intros u v p [? _]%retained_lookup [? _]%retained_lookup. by eapply H4.
  - intros p Hin u [? _]%retained_lookup. by eapply H5.
Qed.

Lemma upgrade_some p h h' : upgrade p h = Some h' -> h' = change S p h /\ (0 < strong_count p h)%nat.
Proof. unfold upgrade. destruct (Nat.ltb_spec 0 (strong_count p h)); [|done]. by intros [= <-]. Qed.

Lemma clone_ok c hs h : cache_ok c hs -> (h.2 < length (heap c))%nat -> (forall u, h.1 = Some u -> identities c !! u = Some h.2) ->
  (h.1 = None -> forall u, identities c !! u ≠ Some h.2) -> cache_ok (clone_key h.2 c) (h :: hs).
Proof.
  intros [H1 H2 H3 H4 H5 H6] Hl Hu Hn. split; cbn [heap identities clone_key drop_key fst snd]; try done.
  - intros p. rewrite strong_change, live_cons, !H1 by done. case_decide; subst; lia.
  - intros u p [Heq|?]%elem_of_cons; [|by apply H2]. destruct h as [o q]. injection Heq as <- <-. by apply Hu.
  - intros u p Hp. rewrite length_change. by eapply H3.
  - intros p [Heq|?]%elem_of_cons; [|by apply H5]. destruct h as [o q]. injection Heq as <- <-. by apply Hn.
  - intros x Hx. rewrite length_change. apply elem_of_cons in Hx as [->|?]; [done|by apply H6].
Qed.

Lemma allocate_ok c hs k o ids : cache_ok c hs -> (forall u, o = Some u -> identities c !! u = None) ->
  ids = match o with Some u => <[u := length (heap c)]> (identities c) | None => identities c end ->
  cache_ok {| heap := heap c ++ [{| pair := k; strong := 1 |}]; identities := ids |} ((o, length (heap c)) :: hs).
Proof.
  intros [H1 H2 H3 H4 H5 H6] Hfree Hids. assert (live (length (heap c)) hs = 0%nat) as Hz by (rewrite <- H1; unfold strong_count; by rewrite lookup_ge_None_2).
  assert (forall u p, ids !! u = Some p -> o = Some u /\ p = length (heap c) \/ identities c !! u = Some p) as Hl.
  { intros u p. subst ids. destruct o as [v|]; [|by right]. destruct (decide (v = u)) as [->|Hne]; [rewrite lookup_insert_eq; intros [= <-]; by left|rewrite lookup_insert_ne by done; by right]. }
  assert (forall u p, identities c !! u = Some p -> ids !! u = Some p) as Hk.
  { intros u p Hp. subst ids. destruct o as [v|]; [|done]. rewrite lookup_insert_ne; [done|]. intros ->. specialize (Hfree u eq_refl). congruence. }
  split; cbn [heap identities].
  - intros p. rewrite strong_allocate, live_cons. cbn [fst snd strong]. repeat case_decide; subst; try done; rewrite ?H1; lia.
  - intros u p [[= <- ->]|Hin]%elem_of_cons; [subst ids; apply lookup_insert_eq|by apply Hk, H2].
  - intros u p [[_ ->]|Hp]%Hl; rewrite length_app; cbn; [lia|]. specialize (H3 u p Hp). lia.
  - intros u v p [[Hu ->]|Hp]%Hl [[Hv Hq]|Hq]%Hl; [congruence|by specialize (H3 v _ Hq); lia|subst p; by specialize (H3 u _ Hp); lia|by eapply H4].
  - intros p [[= <- ->]|Hin]%elem_of_cons u Hu; apply Hl in Hu as [[E Hp]|Hp]; [done|by specialize (H3 u _ Hp); lia| |by eapply H5].
    subst p. specialize (H6 _ Hin). cbn in H6. lia.
  - intros h [->|Hin]%elem_of_cons; rewrite length_app; cbn; [lia|]. specialize (H6 h Hin). lia.
Qed.

Lemma shared_ephemeral_ok k u c hs : cache_ok c hs -> cache_ok (shared_ephemeral k u c).2 ((Some u, (shared_ephemeral k u c).1) :: hs).
Proof.
  intros Hc%retained_ok. unfold shared_ephemeral. destruct (retained c !! u) as [p|] eqn:Hp; cbn [mbind option_bind].
  - apply retained_lookup in Hp as Hp'. destruct Hp' as [_ Hs]. unfold upgrade. rewrite (proj2 (Nat.ltb_lt _ _) Hs). cbn.
    apply (clone_ok {| heap := heap c; identities := retained c |} hs (Some u, p) Hc); cbn; [by apply (ok_bound _ _ Hc u)|by intros ? [= <-]|done].
  - apply (allocate_ok {| heap := heap c; identities := retained c |} hs _ (Some u)); [done|by intros ? [= <-]|done].
Qed.

Lemma cache_run_ok c hs : run c hs -> cache_ok c hs.
Proof.
  induction 1 as [|c hs u k H IH|c hs k H IH|c hs h H IH Hin|c l1 l2 h H IH].
  - split; cbn; [done|set_solver|done|done|set_solver|set_solver].
  - by apply shared_ephemeral_ok.
  - by apply (allocate_ok c hs k None).
  - destruct IH as [H1 H2 H3 H4 H5 H6] eqn:E. apply clone_ok; [done|by apply H6| |].
    + intros u Hu. apply H2. destruct h as [o p]. cbn in *. by subst.
    + intros Hn. apply H5. destruct h as [o p]. cbn in *. by subst.
  - assert (h.2 < length (heap c))%nat as Hl by (apply (ok_alive _ _ IH); set_solver). destruct IH as [H1 H2 H3 H4 H5 H6]. split; cbn [heap identities clone_key drop_key fst snd]; try done.
    + intros p. rewrite strong_change, !H1 by done. unfold live. rewrite !filter_app, !filter_cons, !length_app. repeat case_decide; subst; cbn; try done; lia.
    + intros u p Hin. apply H2. set_solver.
    + intros u p Hp. rewrite length_change. by eapply H3.
    + intros p Hin. apply H5. set_solver.
    + intros x Hin. rewrite length_change. apply H6. set_solver.
Qed.

(** What [shared_ephemeral] leaves: a new key when the user has no connection,
    and entries of users with a connection only. *)
Lemma opened_entries k u c hs : cache_ok c hs -> let '(p, c') := shared_ephemeral k u c in
  ((forall q, (Some u, q) ∉ hs) -> option_map pair (heap c' !! p) = Some (generate k Ephemeral)) /\
  (forall v q, identities c' !! v = Some q <-> (Some v, q) ∈ (Some u, p) :: hs).
Proof.
  intros Hc. assert (forall v q, retained c !! v = Some q <-> (Some v, q) ∈ hs) as Hr.
  { intros v q. rewrite retained_lookup, (ok_heap _ _ Hc). split.
    - intros [Hv [[w|] Hin]%live_inv]; [|by destruct (ok_own _ _ Hc q Hin v)]. by rewrite (ok_inj _ _ Hc v w q Hv (ok_shared _ _ Hc w q Hin)).
    - intros Hin. split; [by apply (ok_shared _ _ Hc)|by eapply live_in]. }
  unfold shared_ephemeral. destruct (retained c !! u) as [p|] eqn:Hp; cbn [mbind option_bind].
  - apply retained_lookup in Hp as Hp'. destruct Hp' as [_ Hs]. unfold upgrade. rewrite (proj2 (Nat.ltb_lt _ _) Hs). cbn. split.
    + intros Hno. apply Hr in Hp. by destruct (Hno p).
    + intros v q. rewrite Hr, elem_of_cons. split; [by right|]. intros [[= -> ->]|]; [by apply Hr|done].
  - cbn. split; [intros _; by rewrite lookup_app_r, Nat.sub_diag by lia|]. intros v q. rewrite elem_of_cons. destruct (decide (u = v)) as [<-|Hne].
    + rewrite lookup_insert_eq. split; [intros [= <-]; by left|]. intros [[= ->]|Hin%Hr]; [done|congruence].
    + rewrite lookup_insert_ne, Hr by done. split; [by right|]. intros [[= ]|]; [congruence|done].
Qed.

(** C37. Connections of one user that overlap in time use the same key pair, those of
    two users different ones, and never the one a caller supplied.  A connection
    that opens while another of its user is alive joins it; otherwise it gets
    the new key.  After that, the cache holds exactly one entry per user with a
    connection alive. *)
Theorem shared_identity c hs : run c hs ->
  (forall u p v q, (Some u, p) ∈ hs -> (Some v, q) ∈ hs -> p = q <-> u = v) /\
  (forall u p q, (Some u, p) ∈ hs -> (None, q) ∈ hs -> p ≠ q) /\
  (forall u k, let '(p, c') := shared_ephemeral k u c in
    ((exists q, (Some u, q) ∈ hs) -> (Some u, p) ∈ hs) /\
    ((forall q, (Some u, q) ∉ hs) -> option_map pair (heap c' !! p) = Some (generate k Ephemeral)) /\
    (forall v q, identities c' !! v = Some q <-> (Some v, q) ∈ (Some u, p) :: hs)).
Proof.
  intros Hc%cache_run_ok. split; [|split].
  - intros u p v q Hu%(ok_shared _ _ Hc) Hv%(ok_shared _ _ Hc). split; [intros ->; by eapply (ok_inj _ _ Hc)|intros ->; congruence].
  - intros u p q Hu%(ok_shared _ _ Hc) Hq ->. by eapply (ok_own _ _ Hc).
  - intros u k. destruct (shared_ephemeral k u c) as [p c'] eqn:E. pose proof (shared_ephemeral_ok k u c hs Hc) as Hc'. rewrite E in Hc'. cbn [fst snd] in Hc'.
    pose proof (opened_entries k u c hs Hc) as He. rewrite E in He. destruct He as [Hj He]. split; [|split; [|done]].
    + intros [q Hq]. pose proof (ok_shared _ _ Hc' u p ltac:(by left)) as H1. pose proof (ok_shared _ _ Hc' u q ltac:(by right)) as H2. congruence.
    + intros Hno. apply Hj. intros q Hq. by apply (Hno q).
Qed.
End Cache.

(** Two connections of user 7 and one of user 8; the first of user 7 ends. *)
Module CacheSamples.
Import Identity.IdentitySamples.

Definition cache0 : Cache := {| heap := []; identities := ∅ |}.
Definition cache1 : Cache := (shared_ephemeral (1 : signing_key) 7 cache0).2.
Definition cache2 : Cache := (shared_ephemeral (2 : signing_key) 8 cache1).2.
Definition cache3 : Cache := (shared_ephemeral (3 : signing_key) 7 cache2).2.
Definition cache4 : Cache := drop_key 0 cache3.
Definition handles : list (option Z * nat) := [(Some 7, 0%nat); (Some 8, 1%nat)].

Lemma sample_run : run cache4 handles.
Proof.
  pose proof (run_open _ _ 7 (3 : signing_key) (run_open _ _ 8 (2 : signing_key) (run_open _ _ 7 (1 : signing_key) run_empty))) as H.
  exact (run_drop _ handles [] (Some 7, 0%nat) H).
Qed.

Lemma shared_identity_witness :
  (forall u p v q, (Some u, p) ∈ handles -> (Some v, q) ∈ handles -> p = q <-> u = v) /\
  (forall u p q, (Some u, p) ∈ handles -> (None, q) ∈ handles -> p ≠ q) /\
  (forall u k, let '(p, c') := shared_ephemeral k u cache4 in
    ((exists q, (Some u, q) ∈ handles) -> (Some u, p) ∈ handles) /\
    ((forall q, (Some u, q) ∉ handles) -> option_map pair (heap c' !! p) = Some (generate k Ephemeral)) /\
    (forall v q, identities c' !! v = Some q <-> (Some v, q) ∈ (Some u, p) :: handles)).
Proof. exact (shared_identity cache4 handles sample_run). Defined.

(** When the last connection of a user is gone, the next one has a new key. *)
Example renewed : (shared_ephemeral (4 : signing_key) 7 (drop_key 0 cache4)).1 = 2%nat.
Proof. vm_compute. reflexivity. Qed.
End CacheSamples.
End IdentityCache.
