(* ===== verification/Endpoint.v ===== *)
(** * Reaching the voice server (cacophony/src/media.rs)

    [VoiceEndpoint::connect_websocket]: the name is resolved, the addresses are
    put in order, and all are tried at once, each a little after the one before
    and each under a timeout of its own; the first connection wins.

    The URL parser is the parameter [parse_uri].  What the network does is data:
    [lookup] is what the resolver answers, [peer a] what becomes of a connection
    to [a], [None] if nothing ever comes back.  [FuturesUnordered] yields the
    attempts in the order they end: [order] is a list of them sorted by time, in
    any order at equal times. *)

From Stdlib Require Import Sorting.Sorted.
From stdpp Require Import strings sorting.
From S2P Require Import Prelude Effects Outbound Connect.

Module Endpoint.

Definition WEBSOCKET_ADDRESS_STAGGER : Z := 125 * 1000000.
Definition WEBSOCKET_ADDRESS_CONNECT_TIMEOUT : Z := 5 * Connect.NANOS.

(** [Duration::MAX] *)
Definition duration_max : Z := (u64_mod - 1) * Connect.NANOS + 999999999.

Definition saturating_mul (d : Z) (n : Z) : Z := Z.min (d * n) duration_max.

Record Uri := { uri_host : option string; uri_port : option Z; uri_scheme : option string }.

Section Endpoint.
Context {Addr : Type} `{EqDecision Addr} (is_ipv4 : Addr -> bool).

Inductive EndpointError :=
| EUrl
| EMissingHost
| EMissingUsableScheme
| EResolve (host : string) (port : Z)
| ENoAddresses (host : string) (port : Z)
| EAllAddressesFailed (host : string) (port : Z) (address_count : nat) (errors : list (Addr * bool)).

(** [VoiceEndpoint::host_port] *)
Definition host_port (uri : option Uri) : res EndpointError (string * Z) :=
  uri ← ok_or EUrl uri;
  host ← ok_or EMissingHost (uri_host uri);
  port ← ok_or EMissingUsableScheme
    (match uri_port uri with
     | Some p => Some p
     | None => match uri_scheme uri with
               | Some s => if bool_decide (s = "wss"%string) then Some 443 else if bool_decide (s = "ws"%string) then Some 80 else None
               | None => None
               end
     end);
  Ok (host, port).

(** ** Attempts *)
Record Peer := { latency : Z; accepts : bool }.

Context (peer : Addr -> option Peer).

(** An attempt that has ended: when, at which address, and whether it is
    connected; a failure is a timeout or not. *)
Inductive AttemptResult := Connected | Refused | TimedOut.
Record Attempt := { ended_at : Z; address : Addr; result : AttemptResult }.

Definition begins (index : nat) : Z := if (0 <? index)%nat then saturating_mul WEBSOCKET_ADDRESS_STAGGER (Z.of_nat index mod u32_mod) else 0.

Definition attempt (index : nat) (a : Addr) : Attempt :=
  match peer a with
  | Some p =>
      if latency p <=? WEBSOCKET_ADDRESS_CONNECT_TIMEOUT
      then {| ended_at := begins index + latency p; address := a; result := if accepts p then Connected else Refused |}
      else {| ended_at := begins index + WEBSOCKET_ADDRESS_CONNECT_TIMEOUT; address := a; result := TimedOut |}
  | None => {| ended_at := begins index + WEBSOCKET_ADDRESS_CONNECT_TIMEOUT; address := a; result := TimedOut |}
  end.

Definition attempts (addresses : list Addr) : list Attempt := imap attempt addresses.

(** [while let Some(result) = attempts.next().await]; an error is the address and
    whether it timed out. *)
Fixpoint await_attempts (errors : list (Addr * bool)) (order : list Attempt) : list (Addr * bool) + Attempt :=
  match order with
  | [] => inl errors
  | t :: order =>
      match result t with
      | Connected => inr t
      | Refused => await_attempts (errors ++ [(address t, false)]) order
      | TimedOut => await_attempts (errors ++ [(address t, true)]) order
      end
  end.

(** [VoiceEndpoint::connect_websocket] *)
Definition connect_websocket (order : list Attempt -> list Attempt) (uri : option Uri) (lookup : string -> Z -> option (list Addr)) : res EndpointError Attempt :=
  '(host, port) ← host_port uri;
  resolved ← ok_or (EResolve host port) (lookup host port);
  let addresses := Outbound.ordered_voice_socket_addrs is_ipv4 resolved in
  if bool_decide (addresses = []) then Err (ENoAddresses host port)
  else match await_attempts [] (order (attempts addresses)) with
       | inr t => Ok t
       | inl errors => Err (EAllAddressesFailed host port (length addresses) errors)
       end.

(** ** What the race gives *)
Definition by_time (x y : Attempt) : Prop := ended_at x <= ended_at y.

Class Fair (order : list Attempt -> list Attempt) : Prop := {
  fair_perm l : order l ≡ₚ l;
  fair_sorted l : StronglySorted by_time (order l) }.

Definition failed (t : Attempt) : option (Addr * bool) :=
  match result t with Connected => None | Refused => Some (address t, false) | TimedOut => Some (address t, true) end.

Lemma await_attempts_spec order errors :
  match await_attempts errors order with
  | inr t => exists l1 l2, order = l1 ++ t :: l2 /\ result t = Connected /\ Forall (fun x => result x ≠ Connected) l1
  | inl es => es = errors ++ omap failed order /\ Forall (fun x => result x ≠ Connected) order
  end.
Proof.
  revert errors. induction order as [|t order IH]; intros errors; cbn; [by rewrite app_nil_r|]. unfold failed at 1. destruct (result t) eqn:Ht.
  - exists [], order. by split; [|split].
  - specialize (IH (errors ++ [(address t, false)])). destruct (await_attempts _ order) as [es|x].
    + destruct IH as [-> Hf]. split; [by rewrite <- app_assoc|]. constructor; [by rewrite Ht|done].
    + destruct IH as (l1 & l2 & -> & Hx & Hf). exists (t :: l1), l2. split; [done|split; [done|]]. constructor; [by rewrite Ht|done].
  - specialize (IH (errors ++ [(address t, true)])). destruct (await_attempts _ order) as [es|x].
    + destruct IH as [-> Hf]. split; [by rewrite <- app_assoc|]. constructor; [by rewrite Ht|done].
    + destruct IH as (l1 & l2 & -> & Hx & Hf). exists (t :: l1), l2. split; [done|split; [done|]]. constructor; [by rewrite Ht|done].
Qed.

(** The connection made is one that ends first among those that succeed. *)
Lemma first_connection order l t : Fair order -> await_attempts [] (order l) = inr t ->
  t ∈ l /\ result t = Connected /\ forall x, x ∈ l -> result x = Connected -> ended_at t <= ended_at x.
Proof.
  intros [Hp Hs] E. pose proof (await_attempts_spec (order l) []) as H. rewrite E in H. destruct H as (l1 & l2 & Ho & Ht & Hf).
  assert (forall x, x ∈ l <-> x ∈ l1 ++ t :: l2) as Hin by (intros x; by rewrite <- Ho, Hp). specialize (Hs l). rewrite Ho in Hs.
  split; [apply Hin; set_solver|split; [done|]]. intros x Hx%Hin Hc. apply elem_of_app in Hx as [Hx|[->|Hx]%elem_of_cons]; [by apply (proj1 (Forall_forall _ _) Hf x) in Hx|done|].
  clear -Hs Hx. induction l1 as [|y l1 IH]; cbn in Hs; apply StronglySorted_inv in Hs as [Hs Hy]; [by apply (proj1 (Forall_forall _ _) Hy)|by apply IH].
Qed.

Lemma no_connection order l es : Fair order -> await_attempts [] (order l) = inl es -> (forall x, x ∈ l -> result x ≠ Connected) /\ es ≡ₚ omap failed l.
Proof.
  intros [Hp Hs] E. pose proof (await_attempts_spec (order l) []) as H. rewrite E in H. destruct H as [-> Hf]. cbn [app]. split; [|by rewrite (Hp l)].
  intros x Hx. apply (proj1 (Forall_forall _ _) Hf). by rewrite Hp.
Qed.

(** ** Timing *)
Lemma begins_bound i : 0 <= begins i <= WEBSOCKET_ADDRESS_STAGGER * Z.of_nat i.
Proof.
  unfold begins, saturating_mul, WEBSOCKET_ADDRESS_STAGGER, duration_max, u64_mod, u32_mod, Connect.NANOS. destruct (Nat.ltb_spec 0 i); [|lia].
  pose proof (Z.mod_pos_bound (Z.of_nat i) (2 ^ 32) ltac:(lia)). pose proof (Z.mod_le (Z.of_nat i) (2 ^ 32) ltac:(lia) ltac:(lia)). lia.
Qed.

Lemma attempt_ends i a : ended_at (attempt i a) <= begins i + WEBSOCKET_ADDRESS_CONNECT_TIMEOUT.
Proof. unfold attempt. destruct (peer a) as [p|]; [|done]. destruct (Z.leb_spec (latency p) WEBSOCKET_ADDRESS_CONNECT_TIMEOUT); cbn; lia. Qed.

(** Whether a connection to [a] succeeds in time. *)
Definition reachable_in_time (a : Addr) : bool :=
  match peer a with Some p => accepts p && (latency p <=? WEBSOCKET_ADDRESS_CONNECT_TIMEOUT) | None => false end.

Lemma attempt_connected i a : result (attempt i a) = Connected <-> reachable_in_time a = true.
Proof. unfold attempt, reachable_in_time. destruct (peer a) as [[l []]|]; cbn; [|by destruct (_ <=? _)|done]. by destruct (_ <=? _). Qed.

Lemma attempts_lookup l t : t ∈ attempts l <-> exists i a, l !! i = Some a /\ t = attempt i a.
Proof.
  unfold attempts. rewrite list_elem_of_lookup. split.
  - intros [i Hi]. rewrite list_lookup_imap in Hi. destruct (l !! i) as [a|] eqn:Ha; [|done]. injection Hi as <-. by exists i, a.
  - intros (i & a & Ha & ->). exists i. by rewrite list_lookup_imap, Ha.
Qed.

Lemma omap_failed_length l : (forall x, x ∈ l -> result x ≠ Connected) -> length (omap failed l) = length l.
Proof.
  induction l as [|x l IH]; intros H; [done|]. cbn. unfold failed at 1. destruct (result x) eqn:E; [by destruct (H x ltac:(by left))|..];
    cbn; by rewrite IH by (intros y Hy; apply H; by right).
Qed.

(** When the name has addresses, connecting succeeds exactly when some address
    accepts a connection within its five seconds; the connection is one that is
    there first, counting that the [i]-th address is tried [i] times 125 ms
    after the first.  Otherwise every address has failed and there is one error
    for each.  Among 81 addresses, all attempts end before the fifteen seconds
    of the stage. *)
Theorem websocket_race order uri lookup host port resolved : Fair order -> host_port uri = Ok (host, port) -> lookup host port = Some resolved -> resolved ≠ [] ->
  let addresses := Outbound.ordered_voice_socket_addrs is_ipv4 resolved in
  match connect_websocket order uri lookup with
  | Ok t => (exists i a, addresses !! i = Some a /\ a ∈ resolved /\ t = attempt i a /\ reachable_in_time a = true) /\
      forall j b, addresses !! j = Some b -> reachable_in_time b = true -> ended_at t <= ended_at (attempt j b)
  | Err e => (forall b, b ∈ resolved -> reachable_in_time b = false) /\
      exists errors, e = EAllAddressesFailed host port (length addresses) errors /\ length errors = length addresses
  | Panic => False
  end /\
  forall t, t ∈ attempts (take 81 addresses) -> ended_at t <= Connect.CONNECT_TIMEOUT.
Proof.
  intros Hfair Hhp Hl Hne addresses. destruct (Outbound.ordered_addrs_exact is_ipv4 resolved) as (v4 & v6 & Ha & _ & H4 & H6).
  assert (forall a, a ∈ addresses <-> a ∈ resolved) as Hin by (intros a; unfold addresses; rewrite Ha, elem_of_app, H4, H6; destruct (is_ipv4 a); naive_solver). clear Ha. split.
  - unfold connect_websocket. rewrite Hhp. cbn [mbind res_mbind]. rewrite Hl. cbn [ok_or mbind res_mbind]. fold addresses. case_bool_decide as Hnil.
    { destruct resolved as [|a r]; [done|]. assert (a ∈ addresses) as Ha by (apply Hin; by left). rewrite Hnil in Ha. by apply elem_of_nil in Ha. }
    destruct (await_attempts [] (order (attempts addresses))) as [es|t] eqn:E.
    + apply (no_connection _ _ _ Hfair) in E as [Hno Hes]. split.
      * intros b Hb%Hin. apply list_elem_of_lookup in Hb as [j Hj]. apply not_true_is_false. intros Hr. apply (Hno (attempt j b)); [apply attempts_lookup; by exists j, b|by apply attempt_connected].
      * exists es. split; [done|]. rewrite Hes, omap_failed_length by done. unfold attempts. by rewrite length_imap.
    + apply (first_connection _ _ _ Hfair) in E as (Ht & Hc & Hmin). apply attempts_lookup in Ht as (i & a & Ha & ->). apply attempt_connected in Hc. split.
      * exists i, a. split; [done|split; [|done]]. apply Hin. by eapply list_elem_of_lookup_2.
      * intros j b Hj Hb. apply Hmin; [apply attempts_lookup; by exists j, b|by apply attempt_connected].
  - intros t (i & a & Ha & ->)%attempts_lookup. apply lookup_lt_Some in Ha. rewrite length_take in Ha. pose proof (attempt_ends i a). pose proof (begins_bound i).
    unfold WEBSOCKET_ADDRESS_CONNECT_TIMEOUT, Connect.CONNECT_TIMEOUT, WEBSOCKET_ADDRESS_STAGGER, Connect.NANOS in *. lia.
Qed.
End Endpoint.

(** Three addresses: the first never answers, the second refuses, the third
    accepts after 30 ms; it is the IPv4 address and is tried first. *)
Module EndpointSamples.
Definition sample_peer (a : Z) : option Peer :=
  if a =? 1 then None else if a =? 2 then Some {| latency := 1000000; accepts := false |} else Some {| latency := 30000000; accepts := true |}.

Definition sample_uri : option Uri := Some {| uri_host := Some "voice.example"%string; uri_port := None; uri_scheme := Some "wss"%string |}.

#[local] Instance by_time_dec (x y : Attempt (Addr := Z)) : Decision (by_time x y).
Proof. unfold by_time. apply _. Defined.

Definition sorted (l : list (Attempt (Addr := Z))) : list Attempt := merge_sort by_time l.

Lemma sorted_fair : Fair sorted.
Proof.
  split; intros l; [apply merge_sort_Permutation|]. apply StronglySorted_merge_sort; [intros x y z; unfold by_time; lia|intros x y; unfold by_time; lia].
Qed.

Definition sample_lookup (h : string) (p : Z) : option (list Z) := Some [1; 2; 3; 2].

Lemma websocket_race_witness :
  let addresses := Outbound.ordered_voice_socket_addrs (fun a => a =? 3) [1; 2; 3; 2] in
  match connect_websocket (fun a => a =? 3) sample_peer sorted sample_uri sample_lookup with
  | Ok t => (exists i a, addresses !! i = Some a /\ a ∈ [1; 2; 3; 2] /\ t = attempt sample_peer i a /\ reachable_in_time sample_peer a = true) /\
      forall j b, addresses !! j = Some b -> reachable_in_time sample_peer b = true -> ended_at t <= ended_at (attempt sample_peer j b)
  | Err e => (forall b, b ∈ [1; 2; 3; 2] -> reachable_in_time sample_peer b = false) /\
      exists errors, e = EAllAddressesFailed "voice.example"%string 443 (length addresses) errors /\ length errors = length addresses
  | Panic => False
  end /\
  forall t, t ∈ attempts sample_peer (take 81 addresses) -> ended_at t <= Connect.CONNECT_TIMEOUT.
Proof. apply (websocket_race (fun a => a =? 3) sample_peer sorted sample_uri sample_lookup "voice.example"%string 443 [1; 2; 3; 2] sorted_fair); [reflexivity|reflexivity|discriminate]. Defined.

Example sample_race : connect_websocket (fun a => a =? 3) sample_peer sorted sample_uri sample_lookup = Ok {| ended_at := 30000000; address := 3; result := Connected |}.
Proof. vm_compute. reflexivity. Qed.
End EndpointSamples.
End Endpoint.
