(* ===== verification/GatewayTypes.v ===== *)
(** * Value types of the gateway (cacophony/src/gateway.rs)

    [DiscordId], a 64-bit id that arrives as a JSON string or integer and leaves
    as a string, and [SpeakingFlags], a set of flags in a byte.  Strings are byte
    strings; [u64::from_str] is that of the standard library: an optional plus
    sign and decimal digits, with overflow checks. *)

From S2P Require Import Prelude.
#[local] Open Scope Z_scope.

Module GatewayTypes.

(** ** Discord ids *)
Inductive ParseIntError := ParseEmpty | InvalidDigit | PosOverflow.

Definition digit (b : Z) : res ParseIntError Z := if (48 <=? b) && (b <=? 57) then Ok (b - 48) else Err InvalidDigit.

Definition checked (v : Z) : res ParseIntError Z := if v <? u64_mod then Ok v else Err PosOverflow.

(** [checked_mul] and [checked_add] per digit *)
Fixpoint digits (acc : Z) (l : bytes) : res ParseIntError Z :=
  match l with
  | [] => Ok acc
  | b :: l => scaled ← (if acc * 10 <? u64_mod then digit b ≫= (fun d => Ok (acc * 10, d)) else digit b ≫= (fun _ => Err PosOverflow));
              acc ← checked (scaled.1 + scaled.2); digits acc l
  end.

Definition parse_u64 (l : bytes) : res ParseIntError Z :=
  match l with
  | [] => Err ParseEmpty
  | b :: rest =>
      if ((b =? 43) || (b =? 45)) && bool_decide (rest = []) then Err InvalidDigit
      else if b =? 43 then digits 0 rest
      else digits 0 l
  end.

(** What serde hands to the visitor. *)
Inductive JsonScalar := JsonU64 (value : Z) | JsonStr (value : bytes).

(** [DiscordId::deserialize] *)
Definition discord_id (j : JsonScalar) : res ParseIntError Z := match j with JsonU64 v => Ok v | JsonStr s => parse_u64 s end.

(** [DiscordId::serialize]: [collect_str] of a [u64]; 20 digits are enough *)
Fixpoint decimal (fuel : nat) (n : Z) : bytes :=
  match fuel with O => [] | S fuel => (if n <? 10 then [] else decimal fuel (n / 10)) ++ [48 + n mod 10] end.

Definition serialize_id (n : Z) : bytes := decimal 20 n.

Lemma digits_app l l' acc : digits acc (l ++ l') = (v ← digits acc l; digits v l').
Proof.
  revert acc. induction l as [|b l IH]; intros acc; [done|]. cbn. destruct (if _ <? _ then _ else _) as [[x y]| |]; cbn; try done. destruct (checked _); cbn; [apply IH|done|done].
Qed.

Lemma digits_one acc d : 0 <= acc -> 0 <= d < 10 -> acc * 10 + d < u64_mod -> digits acc [48 + d] = Ok (acc * 10 + d).
Proof.
  intros Ha Hd Hm. cbn. rewrite (proj2 (Z.ltb_lt (acc * 10) u64_mod)) by lia. unfold digit.
  rewrite (proj2 (Z.leb_le 48 (48 + d))), (proj2 (Z.leb_le (48 + d) 57)) by lia. cbn. replace (48 + d - 48) with d by lia. unfold checked.
  by rewrite (proj2 (Z.ltb_lt _ u64_mod)) by lia.
Qed.

Lemma decimal_digits fuel n : 0 <= n < u64_mod -> n < 10 ^ Z.of_nat fuel -> digits 0 (decimal fuel n) = Ok n.
Proof.
  revert n. induction fuel as [|fuel IH]; intros n Hn Hp; [cbn in Hp; assert (n = 0) as -> by lia; done|]. cbn [decimal]. rewrite Nat2Z.inj_succ, Z.pow_succ_r in Hp by lia.
  pose proof (Z.mod_pos_bound n 10 ltac:(lia)). destruct (Z.ltb_spec n 10).
  - cbn [app]. rewrite Z.mod_small by lia. rewrite digits_one by lia. done.
  - rewrite digits_app, IH; [|split; [apply Z.div_pos; lia|apply Z.div_lt_upper_bound; lia]|apply Z.div_lt_upper_bound; lia].
    cbn [mbind res_mbind]. pose proof (Z.div_mod n 10 ltac:(lia)). rewrite digits_one; [f_equal; lia|apply Z.div_pos; lia|lia|lia].
Qed.

Lemma decimal_first fuel n : 0 <= n -> exists b l, decimal (S fuel) n = b :: l /\ 48 <= b <= 57.
Proof.
  revert n. induction fuel as [|fuel IH]; intros n Hn; pose proof (Z.mod_pos_bound n 10 ltac:(lia)).
  - exists (48 + n mod 10), []. cbn [decimal]. split; [by destruct (n <? 10)|lia].
  - cbn [decimal]. destruct (n <? 10); [eexists _, []; split; [done|lia]|]. destruct (IH (n / 10) ltac:(apply Z.div_pos; lia)) as (b & l & E & Hb).
    cbn [decimal] in E. rewrite E. exists b, (l ++ [48 + n mod 10]). done.
Qed.

(** An id that is written is read back, from a string as from an integer. *)
Lemma discord_id_roundtrip n : 0 <= n < u64_mod -> discord_id (JsonStr (serialize_id n)) = Ok n /\ discord_id (JsonU64 n) = Ok n.
Proof.
  intros Hn. split; [|done]. cbn [discord_id]. pose proof (decimal_digits 20 n Hn ltac:(unfold u64_mod in Hn; lia)) as H. unfold serialize_id in *.
  destruct (decimal_first 19 n ltac:(lia)) as (b & l & E & Hb). rewrite E in *. unfold parse_u64.
  by rewrite !(proj2 (Z.eqb_neq b _)) by lia.
Qed.

(** ** Speaking flags *)
Definition NONE : Z := 0.
Definition MICROPHONE : Z := Z.shiftl 1 0.
Definition SOUNDSHARE : Z := Z.shiftl 1 1.
Definition PRIORITY : Z := Z.shiftl 1 2.
Definition is_empty (f : Z) : bool := f =? 0.
Definition flags_contains (f other : Z) : bool := Z.land f other =? other.
Definition bitor (f g : Z) : Z := Z.lor f g.
Definition bitand (f g : Z) : Z := Z.land f g.

(** A byte of flags is the set of its bits. *)
Lemma flags_contains_spec f g : flags_contains f g = true <-> forall i, Z.testbit g i = true -> Z.testbit f i = true.
Proof.
  unfold flags_contains. rewrite Z.eqb_eq. split.
  - intros E i Hi. rewrite <- E, Z.land_spec in Hi. by apply andb_true_iff in Hi as [? _].
  - intros H. apply Z.bits_inj. intros i. rewrite Z.land_spec. destruct (Z.testbit g i) eqn:E; [by rewrite (H i E)|apply andb_false_r].
Qed.

Lemma flags_or_contains f g h : flags_contains (bitor f g) h = true <-> forall i, Z.testbit h i = true -> Z.testbit f i = true \/ Z.testbit g i = true.
Proof. rewrite flags_contains_spec. unfold bitor. setoid_rewrite Z.lor_spec. setoid_rewrite orb_true_iff. done. Qed.

Lemma flags_and_contains f g h : flags_contains (bitand f g) h = flags_contains f h && flags_contains g h.
Proof.
  apply eq_bool_prop_intro. rewrite andb_True, !Is_true_true, !flags_contains_spec. unfold bitand. setoid_rewrite Z.land_spec. setoid_rewrite andb_true_iff. naive_solver.
Qed.
End GatewayTypes.
