(* ===== verification/DriverTotal.v ===== *)
(** * The driver does not panic

    All components together.  The driver of [Driver] runs over a receive
    pipeline, a send pipeline, an active playout, timers and a DAVE coordinator;
    [fit] is the conjunction of what they need of each other, and every method
    of the driver keeps it and ends without a panic.  DAVE is again an
    interface: [DaveDriverLaws] is what the driver relies on, which includes
    that the sender can encrypt [k] more frames ([room k]), because the counter
    of a key is not infinite.  The one loop of the driver that nothing bounds is
    the retry of pending media; the theorem says when the driver is held up
    there. *)

From S2P Require Import Prelude Effects Tuning Frame Rtp Codecs Outbound RtpPayload Packetize Queue Assembler PendingMedia Receive DaveGateway Gateway.
From S2P Require Import ReadyFrames Pipeline OpusPacket Send Playout Driver DriverSpec.
Import PendingMedia.PendingMedia Queue.Timers RtpPayload.RtpPayload Send Playout Driver.

Module DriverTotal.

(** A frame of bytes that the DAVE frame format can count. *)
Definition frame_fit (b : bytes) : Prop := all_bytes b /\ Z.of_nat (length b) < 2 ^ 63.

(** [within]: the times for which DAVE makes these promises. *)
Class DaveDriverLaws {D : Pipeline.DaveMedia} (HD : Pipeline.DaveMediaLaws D) (DS : DaveSend D) (DP : DavePump D) := {
  within : Z -> Prop;
  room : nat -> Pipeline.dave_t -> Prop;
  room_le k k' v : (k' <= k)%nat -> room k v -> room k' v;
  room_decrypt now u mt frame k v : room k v -> room k (Pipeline.dave_decrypt now u mt frame v).2;
  room_grace now k v : room k v -> room k (Pipeline.dave_grace now v);
  room_encrypt c frame k v : room (S k) v -> frame_fit frame ->
    let '(r, v') := dave_encrypt c frame v in
    match r with Ok b => all_bytes b | Err _ => True | Panic => False end /\ room k v' /\ (forall now, Pipeline.dave_ok now v -> Pipeline.dave_ok now v');
  room_pump now g users roster k v : within now -> (exists evs, Forall DaveGateway.event_ok evs /\ g = DaveGateway.dave_run evs DaveGateway.dave_default) ->
    (forall now', now <= now' -> within now' -> Pipeline.dave_ok now' v) -> room k v ->
    let '(r, v') := dave_pump now g users roster v in
    r ≠ Panic /\ (forall now', now <= now' -> within now' -> Pipeline.dave_ok now' v') /\ room k v' }.

Section Interface.
Context {D : Pipeline.DaveMedia} {HD : Pipeline.DaveMediaLaws D} {DS : DaveSend D} {DP : DavePump D} {L : DaveDriverLaws HD DS DP}.

(** The laws of DAVE with room for [k] frames. *)
#[refine] Definition roomy (k : nat) : Pipeline.DaveMediaLaws D := {|
  Pipeline.dave_ok := fun now v => within now /\ (forall now', now <= now' -> within now' -> Pipeline.dave_ok now' v) /\ room k v |}.
Proof.
  - intros now u mt frame v (Hw & Hok & Hr) Hb. pose proof (Hok now (Z.le_refl _) Hw) as Hv. split; [exact (proj1 (Pipeline.dave_decrypt_ok now u mt frame v Hv Hb))|].
    intros now' (Hw' & Hok' & Hr'). split; [done|]. split; [|by apply room_decrypt]. intros x Hx Hxw. apply (Pipeline.dave_decrypt_ok now u mt frame v Hv Hb). auto.
  - intros now u mt frame. apply Pipeline.dave_decrypt_state.
  - intros now now' v (Hw & Hok & Hr). split; [done|]. split; [|by apply room_grace]. intros x Hx Hxw. apply Pipeline.dave_grace_ok. auto.
Defined.
End Interface.

Section Total.
Context {R : Assembler.FrameRaw} {PC : Pipeline.PacketCapture R} {AEAD : Rtp.TransportAead} {HA : Rtp.TransportAeadLaws AEAD}.
Context {D : Pipeline.DaveMedia} {HD : Pipeline.DaveMediaLaws D} {DS : DaveSend D} {DP : DavePump D} {L : DaveDriverLaws HD DS DP}.
Context {J : Gateway.GatewayJson} {LJ : Gateway.GatewayJsonLaws J}.
Context {IS : Deadlines.SetIter (K := Z)} {IB : Deadlines.SetIter (K := PendingMedia.DavePendingMediaBucket)}.
Context {LS : Deadlines.SetIterLaws IS} {LB : Deadlines.SetIterLaws IB}.
Context (tuning : Tuning.ConnectionRuntimeTuning) (clock : nat -> Z) (telemetry rtcp_telemetry : bool).
Context (udp : nat -> UdpOutcome) (ws : nat -> bool) (ready : GatewayReady) (ready_timeout heartbeat_interval_ms : Z) (retry_fuel : nat).
Context (gone : nat -> nat -> bool) (Hclock : forall n, clock n <= clock (S n)) (Hwithin : forall n, within (clock n)).

(** ** The receive side *)
Definition pipe (k : nat) (b : Pipeline.Driver) : Prop := Pipeline.pipe_ok (HD := roomy k) tuning clock (fun _ => True) b.

Lemma clock_le n m : (n <= m)%nat -> clock n <= clock m.
Proof. induction 1 as [|m _ IH]; [lia|]. specialize (Hclock m). lia. Qed.

(** The ready queue does not depend on DAVE when no frame is restricted. *)
Lemma hand_any k k' hist h : Pipeline.hand_ok (HD := roomy k) tuning clock (fun _ => True) hist h -> Pipeline.hand_ok (HD := roomy k') tuning clock (fun _ => True) hist h.
Proof.
  assert (forall l, Forall (Pipeline.allowed (HD := roomy k') clock (fun _ => True) hist) l) as Hall by (intros l; apply Forall_true; intros [e|f]; [done|by left]).
  intros [H1 H2 H3 H4 H5]. split; [apply Hall|apply Hall|done..].
Qed.

(** A new DAVE state that is fit from now on. *)
Lemma pipe_dave k k' b conn v : pipe k b -> (forall now, clock (Pipeline.d_ticks b) <= now -> within now -> Pipeline.dave_ok now v) -> room k' v ->
  pipe k' (Pipeline.with_conn conn v b).
Proof.
  intros [H1 H2 H3 H4 H5 H6] Hv Hr. split; [done..| |by eapply hand_any|done]. cbn [Pipeline.d_ticks Pipeline.d_dave Pipeline.with_conn]. intros n Hn.
  split; [apply Hwithin|]. split; [|done]. intros now Hnow. apply Hv. pose proof (clock_le _ _ Hn). lia.
Qed.

Lemma pipe_now k b : pipe k b -> forall now, clock (Pipeline.d_ticks b) <= now -> within now -> Pipeline.dave_ok now (Pipeline.d_dave b).
Proof. intros Hb now. destruct (Pipeline.ok_dave _ _ _ _ Hb (Pipeline.d_ticks b) (Nat.le_refl _)) as (_ & H & _). apply H. Qed.

Lemma pipe_room k b : pipe k b -> room k (Pipeline.d_dave b).
Proof. intros Hb. apply (Pipeline.ok_dave _ _ _ _ Hb (Pipeline.d_ticks b) (Nat.le_refl _)). Qed.

Lemma pipe_conn k b conn : pipe k b -> pipe k (Pipeline.with_conn conn (Pipeline.d_dave b) b).
Proof. intros Hb. eapply pipe_dave; [exact Hb|by eapply pipe_now|by apply pipe_room]. Qed.

Lemma pipe_le k k' b : (k' <= k)%nat -> pipe k b -> pipe k' b.
Proof.
  intros Hk Hb. pose proof (pipe_now k b Hb) as Hn. pose proof (room_le k k' _ Hk (pipe_room k b Hb)) as Hr.
  destruct (pipe_dave k k' b (Pipeline.d_conn b) _ Hb Hn Hr). by split.
Qed.

Lemma pipe_tick k b : pipe k b -> pipe k (Pipeline.tick b).
Proof. intros [H1 H2 H3 H4 H5 H6]. split; [done|done|done| |done|done]. cbn. intros n Hn. apply H4. lia. Qed.

(** From the lemmas of the pipeline, whose methods have no errors. *)
Lemma wp_total {A} P (m : Pipeline.drv A) Q Q0 (R' : Empty_set -> Pipeline.Driver -> Prop) b : wp m Q Q0 b -> wpp P m Q R' b.
Proof. intros H. apply wp_wpp. eapply wp_mono; [exact H|done|intros []]. Qed.

(** A retry that has used up its fuel has read the clock in every turn. *)
Lemma tot_retry_loop k retry fuel n b : pipe k b -> (n <= Pipeline.d_ticks b + fuel)%nat ->
  wpp (fun b' => (n <= Pipeline.d_ticks b')%nat) (Pipeline.retry_loop tuning clock telemetry fuel retry)
    (fun _ b' => pipe k b' /\ Pipeline.kept b b') (fun _ _ => False) b.
Proof.
  revert b. induction fuel as [|fuel IH]; intros b Hb Hn; cbn [Pipeline.retry_loop]; [unfold wpp; cbn; lia|].
  eapply wpp_bind; [exact (wp_total _ _ _ _ _ _ (Pipeline.pop_retry_ok (HD := roomy k) tuning clock (fun _ => True) retry b Hb))|].
  cbv beta. intros o b1 (Hb1 & Hs1 & Ht1 & _ & Ho). apply Pipeline.same_kept in Hs1 as Hk1. destruct o as [m|]; [|by split].
  eapply wpp_bind; [exact (wp_total _ _ _ _ _ _ (Pipeline.elapsed_ok (HD := roomy k) tuning clock (fun _ => True) (Pipeline.set_was_pending m) b1 Hb1))|].
  cbv beta. intros age b2 (Hb2 & Hs2 & _ & _ & Ht2). apply Pipeline.same_kept in Hs2 as Hk2. pose proof (Pipeline.kept_trans _ _ _ Hk1 Hk2) as Hk.
  destruct (_ <=? age).
  - eapply wpp_bind; [exact (wp_total _ _ _ _ _ _ (Pipeline.observe_pending_ok (HD := roomy k) tuning clock telemetry (fun _ => True) _ Assembler.Expired false b2 Hb2))|].
    cbv beta. intros [] b3 (Hb3 & Hs3 & _). apply Pipeline.same_kept in Hs3 as Hk3. pose proof (Pipeline.kept_ticks _ _ Hk3).
    eapply wpp_mono; [apply IH; [done|lia]| |done]. intros [] b' [? ?]. split; [done|]. by eapply Pipeline.kept_trans; [exact Hk|]; eapply Pipeline.kept_trans.
  - eapply wpp_bind; [exact (wp_total _ _ _ _ _ _ (Pipeline.retry_turn_ok (HD := roomy k) tuning clock telemetry (fun _ => True) m b2 Hb2 (proj1 (proj2 (proj2 Ho))) (Pipeline.from_source_grows _ _ _ (Pipeline.same_history _ _ Hs2) (proj2 (proj2 (proj2 Ho))))))|].
    cbv beta. intros [] b3 (Hb3 & Hk3 & _). pose proof (Pipeline.kept_ticks _ _ Hk3).
    eapply wpp_mono; [apply IH; [done|lia]| |done]. intros [] b' [? ?]. split; [done|]. by eapply Pipeline.kept_trans; [exact Hk|]; eapply Pipeline.kept_trans.
Qed.

(** ** The driver *)
Definition playout_fit (f : PlayoutFrame) : Prop := exists b, (forall E, frame_bytes (E := E) f = Ok b) /\ frame_fit b.

Definition waiting_sends (d : ConnectionDriver) : list PendingMediaFrameSend := DriverSpec.contents (pending_media_ready_sends d).

(** [k] frames may be sent besides those that wait already. *)
Record fit (k : nat) (d : ConnectionDriver) : Prop := {
  fit_pipe : pipe (k + length (waiting_sends d)) (base d);
  fit_conn : Gateway.conn_ok (Pipeline.d_conn (base d));
  fit_waits : timers_ok (pending_media_ready_waits d);
  fit_sends : timers_ok (pending_media_ready_sends d);
  fit_frames : Forall (fun s => frame_fit (send_frame s)) (waiting_sends d);
  fit_playout : forall p, active_playout (send d) = Some p -> Forall playout_fit (frames p) }.

Lemma fit_le k k' d : (k' <= k)%nat -> fit k d -> fit k' d.
Proof. intros Hk [H1 H2 H3 H4 H5 H6]. split; try done. by eapply pipe_le; [|exact H1]; lia. Qed.

(** The fields that [fit] reads. *)
Lemma fit_view k d d' : fit k d -> base d' = base d -> pending_media_ready_waits d' = pending_media_ready_waits d ->
  pending_media_ready_sends d' = pending_media_ready_sends d -> (forall p, active_playout (send d') = Some p -> Forall playout_fit (frames p)) -> fit k d'.
Proof.
  intros [H1 H2 H3 H4 H5 H6] Eb Ew Es Ep. split; unfold waiting_sends in *; rewrite ?Eb, ?Ew, ?Es; done.
Qed.

Lemma fit_base k d b : fit k d -> pipe (k + length (waiting_sends d)) b -> Gateway.conn_ok (Pipeline.d_conn b) -> fit k (with_base b d).
Proof. intros [H1 H2 H3 H4 H5 H6] Hb Hc. by split. Qed.

(** A retry of pending media that goes on after [retry_fuel] turns. *)
Definition held_up (d' : ConnectionDriver) : Prop :=
  exists k retry b, pipe k b /\ Pipeline.retry_loop tuning clock telemetry retry_fuel retry b = (Panic, base d') /\
    (Pipeline.d_ticks b + retry_fuel <= Pipeline.d_ticks (base d'))%nat.

Definition total {A} (m : drv A) (Q : A -> ConnectionDriver -> Prop) (d : ConnectionDriver) : Prop := wpp held_up m Q (fun _ => fit 0) d.

Lemma total_bind {A B} (m : drv A) (f : A -> drv B) Q1 Q d : total m Q1 d -> (forall a d', Q1 a d' -> total (f a) Q d') -> total (m ≫= f) Q d.
Proof. apply wpp_bind. Qed.

Lemma total_mono {A} (m : drv A) (Q Q' : A -> ConnectionDriver -> Prop) d : total m Q d -> (forall a d', Q a d' -> Q' a d') -> total m Q' d.
Proof. intros H HQ. by eapply wpp_mono. Qed.

Lemma total_ret {A} (a : A) (Q : A -> ConnectionDriver -> Prop) d : Q a d -> total (mret a) Q d.
Proof. done. Qed.

Lemma total_gets {A B} (f : ConnectionDriver -> A) (g : A -> drv B) Q d : total (g (f d)) Q d -> total (gets f ≫= g) Q d.
Proof. done. Qed.

Lemma total_throw {A} e (Q : A -> ConnectionDriver -> Prop) k d : fit k d -> total (throw e) Q d.
Proof. intros H. by eapply fit_le; [|exact H]; lia. Qed.

Lemma total_now k d : fit k d -> total (now clock) (fun _ d' => fit k d') d.
Proof. intros Hd. destruct Hd as [H1 H2 H3 H4 H5 H6]. split; try done. by apply pipe_tick. Qed.

Lemma total_complete k r a d : fit k d -> total (complete r a) (fun _ d' => fit k d') d.
Proof. intros Hd. eapply fit_view; [exact Hd|done..|apply (fit_playout _ _ Hd)]. Qed.

Lemma total_command k c d : fit k d -> total (send_voice_gateway_command ws c) (fun _ d' => fit k d') d.
Proof.
  intros Hd. unfold total, wpp, send_voice_gateway_command. destruct (ws (ws_count d)).
  - eapply fit_view; [exact Hd|done..|apply (fit_playout _ _ Hd)].
  - apply (fit_le k 0); [lia|]. eapply fit_view; [exact Hd|done..|apply (fit_playout _ _ Hd)].
Qed.

Lemma total_active k p d : fit k d -> (forall q, p = Some q -> Forall playout_fit (frames q)) -> total (set_active p) (fun _ d' => fit k d') d.
Proof. intros Hd Hp. eapply fit_view; [exact Hd|done..|]. cbn. exact Hp. Qed.

(** ** Sending *)
Lemma build_packet_total t chunk m duration rtp : Outbound.build_packet t chunk m duration rtp ≠ Panic.
Proof.
  unfold Outbound.build_packet, Rtp.encrypt_payload, Rtp.cipher_encrypt_in_place_detached. destruct chunk; [done|].
  destruct (Rtp.header_write_to _ _) as [packet h]. by destruct (Rtp.aead_encrypt _ _ _ _ _) as [[]|].
Qed.

Lemma send_loop_total fuel mt t duration p rtp last d : packetize_loop fuel p ≠ Panic -> (send_loop udp fuel mt t duration p rtp last d).1 ≠ Panic.
Proof.
  revert p rtp last d. induction fuel as [|fuel IH]; intros p rtp last d; [done|]. rewrite Packetize.packetize_loop_S. cbn [send_loop].
  unfold mbind at 1, res_mbind at 1. unfold mbind, st_mbind, lift. destruct (packetizer_next p) as [[[[m chunk]|] p']|e|]; cbn [map_err]; [|done|done|done].
  intros Hl. pose proof (build_packet_total t chunk m duration rtp) as Hb. destruct (Outbound.build_packet t chunk m duration rtp) as [[[rtp' o] g]|e|]; cbn [map_err]; [|done|done].
  unfold modify, udp_send. destruct (udp _); [|done..]. apply IH. intros E. apply Hl. by rewrite E.
Qed.

Lemma send_payload_total k c payload duration d : fit k d -> all_bytes payload -> wp (send_payload udp c payload duration) (fun _ => fit k) (fun _ => fit k) d.
Proof.
  intros Hd Hb. unfold wp, send_payload. pose proof (Packetize.packetize_ok c payload Hb) as Hp. unfold packetize in Hp. unfold mbind, st_mbind, gets, lift.
  unfold mbind, res_mbind in Hp. destruct (packetizer_new c payload) as [p|e|]; cbn [map_err]; [|done|done].
  destruct (stream_of (media_type c) (send d)) as [rtp|]; cbn [ok_or]; [|done]. destruct (bool_decide (Outbound.binding_codec (Outbound.binding rtp) = c)); [|exact Hd].
  assert (packetize_loop (length payload + 1) p ≠ Panic) as Hl by (by intros E; rewrite E in Hp).
  pose proof (send_loop_total (length payload + 1) (media_type c) (Pipeline.d_transport (base d)) duration p rtp None d Hl) as Hn.
  destruct (send_loop_wire udp (length payload + 1) (media_type c) (Pipeline.d_transport (base d)) duration p rtp None d) as (l & _ & _ & Hf & Hbase).
  destruct (send_loop _ _ _ _ _ _ _ _ d) as [r d']. cbn [fst snd] in *. injection Hf as _ _ _ _ _ Hw Hs _ _ _ Ha _.
  assert (fit k d') as Hd' by (eapply fit_view; [exact Hd|done..|intros q; rewrite Ha; apply (fit_playout _ _ Hd)]).
  by destruct r as [[o|]|e|].
Qed.

Lemma send_frame_total k c frame duration d : fit (S k) d -> frame_fit frame ->
  wp (send_ready_media_frame udp c frame duration) (fun _ => fit k) (fun _ => fit k) d.
Proof.
  intros Hd Hfr. unfold wp. rewrite send_frame_unfold. unfold media_payload_of, encrypt_media_frame. destruct (dave_send_requires_dave d).
  - pose proof (fit_pipe _ _ Hd) as Hp. pose proof (room_encrypt c frame _ _ (pipe_room _ _ Hp) Hfr) as He.
    destruct (dave_encrypt c frame (Pipeline.d_dave (base d))) as [r v]. destruct He as (Hr & Hroom & Hok).
    set (d1 := with_base _ d). assert (fit k d1) as Hd1.
    { apply fit_base; [by apply (fit_le (S k)); [lia|]| |apply (fit_conn _ _ Hd)]. eapply pipe_dave; [exact Hp| |exact Hroom].
      intros now Hn Hw. apply Hok. by eapply pipe_now. }
    destruct r as [b|e|]; cbn [map_err]; [by apply send_payload_total|done|done].
  - apply send_payload_total; [by apply (fit_le (S k)); [lia|]|apply Hfr].
Qed.

(** A send whose error is a value. *)
Lemma send_caught k c frame duration d : fit (S k) d -> frame_fit frame ->
  total (fun d => match send_ready_media_frame udp c frame duration d with
                  | (Ok packet, d) => (Ok (inr packet), d) | (Err e, d) => (Ok (inl e), d) | (Panic, d) => (Panic, d) end)
    (fun _ d' => fit k d') d.
Proof.
  intros Hd Hf. pose proof (send_frame_total k c frame duration d Hd Hf) as H. unfold wp in H. unfold total, wpp.
  by destruct (send_ready_media_frame udp c frame duration d) as [[o|e|] d'].
Qed.

(** ** Playouts *)
Lemma total_lift {A} (m : res Error A) (Q : A -> ConnectionDriver -> Prop) k d : fit k d -> safe m (fun a => Q a d) -> total (lift m) Q d.
Proof. intros Hd. unfold total, wpp, lift. destruct m; [done| |done]. intros _. by eapply fit_le; [|exact Hd]; lia. Qed.

Lemma total_stop k p d : fit k d -> total (stop_speaking ws ready p) (fun p' d' => fit k d' /\ frames p' = frames p) d.
Proof.
  intros Hd. unfold stop_speaking. destruct (speaking p); [|by apply total_ret]. eapply total_bind; [by apply total_command|]. intros [] d' Hd'. by apply total_ret.
Qed.

Lemma total_finish k (o : option reply) a d : fit k d -> total (match o with Some r => complete r a | None => mret () end) (fun _ d' => fit k d') d.
Proof. intros Hd. destruct o; [by apply total_complete|by apply total_ret]. Qed.

Lemma total_fail k p e d : fit k d -> total (fail_playout ws ready p e) (fun _ d' => fit k d') d.
Proof. intros Hd. eapply total_bind; [by apply total_stop|]. intros p' d' [Hd' _]. by apply total_finish. Qed.

Lemma total_cancel k p d : fit k d -> total (playout_cancel p) (fun _ d' => fit k d') d.
Proof. intros Hd. by apply total_finish. Qed.

Lemma total_complete_playout k p d : fit k d -> total (complete_playout clock ws ready p) (fun _ d' => fit k d') d.
Proof.
  intros Hd. eapply total_bind; [by apply total_stop|]. intros p' d' [Hd' _]. destruct (finish_response p'); [|by apply total_ret].
  eapply total_bind; [by apply total_now|]. intros t d2 Hd2. by apply total_complete.
Qed.

Lemma total_keep k p d : fit k d -> Forall playout_fit (frames p) -> total (set_active (Some p)) (fun _ d' => fit k d') d.
Proof. intros Hd Hp. apply total_active; [done|]. by intros q [= <-]. Qed.

Lemma total_await k p d : fit k d -> Forall playout_fit (frames p) -> total (await_media clock ws ready ready_timeout p) (fun _ d' => fit k d') d.
Proof.
  intros Hd Hp. unfold await_media. eapply (total_bind _ _ (fun p' d' => fit k d' /\ frames p' = frames p)).
  - destruct (media_ready_deadline p); [by apply total_ret|]. eapply total_bind; [by apply total_now|]. intros t d' Hd'. by apply total_ret.
  - intros p' d1 [Hd1 Hf]. eapply total_bind; [by apply total_now|]. intros t d2 Hd2. rewrite <- Hf in Hp.
    destruct (media_ready_deadline p'); [|by apply total_keep]. destruct (_ <=? t); [by apply total_fail|by apply total_keep].
Qed.

Lemma total_send_next k due duration p d : fit (S k) d -> Forall playout_fit (frames p) ->
  total (send_next clock udp ws ready due duration p) (fun _ d' => fit k d') d.
Proof.
  intros Hd Hp. unfold send_next. cbv zeta. assert (forall d, fit (S k) d -> fit k d) as Hless by (intros ? ?; eapply fit_le; [|done]; lia).
  eapply (total_bind _ _ (fun p' d' => fit (S k) d' /\ frames p' = frames p)).
  - destruct (speaking _); [by apply total_ret|]. eapply total_bind; [by apply total_command|]. intros [] d' Hd'. by apply total_ret.
  - intros p' d1 [Hd1 Hf]. rewrite <- Hf in Hp. destruct (frames p') as [|f l] eqn:Hfr; [apply total_keep; [by apply Hless|by rewrite Hfr]|].
    apply Forall_cons in Hp as [(b & Hb & Hfit) Hp]. eapply total_bind; [by apply total_now|]. intros t d2 Hd2. rewrite Hb.
    eapply (total_bind _ _ (fun b' d' => b' = b /\ fit (S k) d')); [eapply total_lift; [exact Hd2|by split]|]. intros ? d3 [-> Hd3].
    eapply total_bind; [by apply send_caught|]. intros [e|packet] d4 Hd4; [by apply total_fail|].
    eapply total_bind; [by apply total_now|]. intros t2 d5 Hd5.
    eapply (total_bind _ _ (fun _ d' => fit k d')); [by case_match; [apply total_ret|apply total_now]|]. intros first d6 Hd6. by apply total_keep.
Qed.

Lemma total_ready_to_complete k p d : fit k d -> total (ready_to_complete clock p) (fun _ d' => fit k d') d.
Proof.
  intros Hd. unfold ready_to_complete. destruct (finish_response p), (frames p); try (by apply total_ret).
  destruct (next_send_at p); [|by apply total_ret]. eapply total_bind; [by apply total_now|]. intros t d' Hd'. by apply total_ret.
Qed.

Lemma drop_stale_sublist now max_stale duration l due lateness (P : PlayoutFrame -> Prop) : Forall P l -> Forall P (drop_stale now max_stale duration l due lateness).1.1.1.
Proof.
  revert due lateness. induction l as [|f l IH]; intros due lateness Hl; [done|]. cbn [drop_stale]. destruct (_ && _); [|done].
  apply Forall_cons in Hl as [_ Hl]. specialize (IH (due + duration) (Reorder.Reorder.duration_since now (due + duration)) Hl).
  by destruct (drop_stale _ _ _ l _ _) as [[[r n] due'] lateness'].
Qed.

Lemma catch_up_frames t due duration p (P : PlayoutFrame -> Prop) : Forall P (frames p) -> Forall P (frames (catch_up t due duration p).1).
Proof.
  intros Hp. unfold catch_up. cbv zeta. destruct (duration_checked_mul duration 3) as [m|]; [|by destruct (is_some (next_send_at p))].
  pose proof (drop_stale_sublist t m duration (frames p) due (Reorder.Reorder.duration_since t due) P Hp) as Hl.
  destruct (drop_stale _ _ _ _ _ _) as [[[l n] due'] lateness]. destruct (m <=? lateness); cbn [fst]; by case_match.
Qed.

Lemma total_resolve k d : fit (S k) d -> total (resolve_active_playout clock udp ws ready ready_timeout) (fun _ d' => fit k d') d.
Proof.
  intros Hd. assert (forall d, fit (S k) d -> fit k d) as Hless by (intros ? ?; eapply fit_le; [|done]; lia). apply total_gets.
  destruct (active_playout (send d)) as [p|] eqn:Hp; [|by apply total_ret, Hless]. apply (fit_playout _ _ Hd) in Hp.
  eapply total_bind; [by apply (total_active (S k) None)|]. intros [] d1 Hd1. eapply total_bind; [by apply total_ready_to_complete|].
  intros b d2 Hd2. destruct b; [by apply total_complete_playout, Hless|]. destruct (frames p) as [|f l] eqn:Hfr; [apply total_keep; [by apply Hless|by rewrite Hfr]|].
  rewrite <- Hfr in Hp. eapply (total_bind _ _ (fun _ d' => fit (S k) d')); [destruct (next_send_at p); [by apply total_ret|by apply total_now]|]. intros due d3 Hd3.
  eapply total_bind; [by apply total_now|]. intros t d4 Hd4. destruct (t <? due); [by apply total_keep; [apply Hless|]|].
  pose proof (catch_up_frames t due (frame_duration f) p playout_fit Hp) as Hc. destruct (catch_up t due (frame_duration f) p) as [p' due'].
  do 2 apply total_gets. destruct (_ && _); [by apply total_await; [apply Hless|]|by apply total_send_next].
Qed.

(** What the users of the connection hand to the driver. *)
Definition playout_command_fit (c : PlayoutCommand) : Prop :=
  match c with CmdFrame _ f => playout_fit f | CmdFrames _ l => Forall playout_fit l | _ => True end.

Lemma total_push_many k l p d : fit k d -> total (push_many clock l p) (fun p' d' => fit k d' /\ frames p' = frames p ++ l) d.
Proof.
  intros Hd. unfold push_many, record_underflow_if_needed. eapply (total_bind _ _ (fun p' d' => fit k d' /\ frames p' = frames p)).
  - destruct (frames p) eqn:Hf; [|by apply total_ret]. destruct (finish_response p); [by apply total_ret|]. eapply total_bind; [by apply total_now|].
    intros t d' Hd'. destruct (next_send_at p); [|by apply total_ret]. by destruct (_ <? t); apply total_ret.
  - intros p' d' [Hd' Hf]. apply total_ret. split; [done|]. cbn. by rewrite Hf.
Qed.

Lemma matching_fit k id p d : fit k d -> matching id d = Some p -> Forall playout_fit (frames p).
Proof. intros Hd (Hp & _)%DriverSpec.matching_some. by apply (fit_playout _ _ Hd). Qed.

Lemma total_playout_command k c d : fit (S k) d -> playout_command_fit c ->
  total (handle_playout_command clock udp ws ready ready_timeout c) (fun _ d' => fit k d') d.
Proof.
  intros Hd Hc. assert (forall d, fit (S k) d -> fit k d) as Hless by (intros ? ?; eapply fit_le; [|done]; lia).
  destruct c as [r|id f|id l|id r|id]; cbn [handle_playout_command playout_command_fit] in *; apply total_gets.
  - destruct (active_playout (send d)); [by apply total_complete, Hless|]. do 2 apply total_gets. eapply total_bind; [by apply total_now|]. intros t d1 Hd1.
    eapply (total_bind _ _ (fun _ d' => fit (S k) d')); [eapply fit_view; [exact Hd1|done..|]; by intros q [= <-]|]. intros [] d2 Hd2.
    eapply total_bind; [by apply total_complete|]. intros [] d3 Hd3. by apply total_resolve.
  - eapply (total_bind _ _ (fun _ d' => fit (S k) d')); [|intros [] d1 Hd1; by apply total_resolve].
    destruct (matching id d) as [p|] eqn:Hp; [|by apply total_ret]. eapply total_bind; [by apply (total_push_many (S k) [f])|]. intros p' d1 [Hd1 Hf].
    apply total_keep; [done|]. rewrite Hf. apply Forall_app. split; [exact (matching_fit _ _ _ _ Hd Hp)|by apply Forall_singleton].
  - eapply (total_bind _ _ (fun _ d' => fit (S k) d')); [|intros [] d1 Hd1; by apply total_resolve].
    destruct (matching id d) as [p|] eqn:Hp; [|by apply total_ret]. eapply total_bind; [by apply (total_push_many (S k) l)|]. intros p' d1 [Hd1 Hf].
    apply total_keep; [done|]. rewrite Hf. apply Forall_app. split; [exact (matching_fit _ _ _ _ Hd Hp)|done].
  - eapply (total_bind _ _ (fun _ d' => fit (S k) d')); [|intros [] d1 Hd1; by apply total_resolve].
    destruct (matching id d) as [p|] eqn:Hp; [apply total_keep; [done|exact (matching_fit _ _ _ _ Hd Hp)]|by apply total_complete].
  - eapply (total_bind _ _ (fun _ d' => fit (S k) d')); [|intros [] d1 Hd1; by apply total_resolve].
    destruct (matching id d) as [p|] eqn:Hp; [|by apply total_ret]. eapply total_bind; [by apply (total_active (S k) None)|]. intros [] d1 Hd1.
    eapply total_bind; [by apply total_stop|]. intros p' d2 [Hd2 _]. by apply total_cancel.
Qed.

(** ** What waits for the media to be ready *)
Lemma total_complete_all {A} k (f : A -> reply * Answer) l d : fit k d -> total (complete_all f l) (fun _ d' => fit k d') d.
Proof. revert d. induction l as [|x l IH]; intros d Hd; [done|]. eapply total_bind; [by apply total_complete|]. intros [] d' Hd'. by apply IH. Qed.

Lemma fit_drained_waits k d q : fit k d -> timers_ok q -> fit k (with_waits q (pending_media_ready_sends d) d).
Proof. intros [H1 H2 H3 H4 H5 H6] Hq. by split. Qed.

(** The room of the frames that have been taken out. *)
Lemma fit_drained_sends k d q l : fit k d -> timers_ok q -> waiting_sends d ≡ₚ l ++ DriverSpec.contents q ->
  fit (k + length l) (with_waits (pending_media_ready_waits d) q d) /\ Forall (fun s => frame_fit (send_frame s)) l.
Proof.
  intros [H1 H2 H3 H4 H5 H6] Hq Hc. rewrite Hc, ?length_app in H1. rewrite Hc, Forall_app in H5. destruct H5 as [Hl Hrest]. split; [|done].
  split; unfold waiting_sends in *; cbn; try done. by rewrite <- Nat.add_assoc.
Qed.

Lemma total_waits k d : fit k d -> total (resolve_pending_media_ready_waits clock) (fun _ d' => fit k d') d.
Proof.
  intros Hd. apply total_gets. destruct (Pipeline.media_ready _).
  - eapply (total_bind _ _ (fun _ d' => fit k d')); [|intros l d'; apply total_complete_all]. apply fit_drained_waits; [done|apply timers_default_ok].
  - eapply total_bind; [by apply total_now|]. intros t d1 Hd1. eapply (total_bind _ _ (fun _ d' => fit k d')); [|intros l d'; apply total_complete_all].
    unfold total, wpp, drain_waits. destruct (DriverSpec.contents_drain_expired (E := Error) t _ (fit_waits _ _ Hd1)) as (l & q & -> & Hq & _). by apply fit_drained_waits.
Qed.

Lemma total_complete_send k s d : fit (S k) d -> frame_fit (send_frame s) -> total (complete_media_frame_send udp s) (fun _ d' => fit k d') d.
Proof. intros Hd Hs. eapply total_bind; [by apply send_caught|]. intros r d' Hd'. by apply total_complete. Qed.

Lemma total_complete_sends k l d : fit (k + length l) d -> Forall (fun s => frame_fit (send_frame s)) l -> total (complete_sends udp l) (fun _ d' => fit k d') d.
Proof.
  revert d. induction l as [|s l IH]; intros d Hd Hl; [apply total_ret; by eapply fit_le; [|exact Hd]; lia|]. apply Forall_cons in Hl as [Hs Hl]. cbn [complete_sends].
  eapply total_bind; [apply (total_complete_send (k + length l)); [by eapply fit_le; [|exact Hd]; cbn [length]; lia|done]|]. intros [] d' Hd'. by apply IH.
Qed.

Lemma total_sends k d : fit k d -> total (resolve_pending_media_ready_sends clock udp) (fun _ d' => fit k d') d.
Proof.
  intros Hd. apply total_gets. destruct (Pipeline.media_ready _).
  - eapply (total_bind _ _ (fun l d' => fit (k + length l) d' /\ Forall (fun s => frame_fit (send_frame s)) l)); [|by intros l d' [? ?]; apply total_complete_sends].
    unfold total, wpp, drain_sends. cbn [drain_all]. apply fit_drained_sends; [done|apply timers_default_ok|]. by rewrite DriverSpec.contents_default, app_nil_r.
  - eapply total_bind; [by apply total_now|]. intros t d1 Hd1. eapply (total_bind _ _ (fun _ d' => fit k d')); [|intros l d'; apply total_complete_all].
    unfold total, wpp, drain_sends. destruct (DriverSpec.contents_drain_expired (E := Error) t _ (fit_sends _ _ Hd1)) as (l & q & -> & Hq & Hc & _).
    destruct (fit_drained_sends k d1 q l Hd1 Hq Hc) as [Hfit _]. by eapply fit_le; [|exact Hfit]; lia.
Qed.

Lemma total_media_ready k d : fit k d -> total (resolve_pending_media_ready clock udp) (fun _ d' => fit k d') d.
Proof. intros Hd. eapply total_bind; [by apply total_waits|]. intros [] d' Hd'. by apply total_sends. Qed.

(** ** Methods of the receive side *)
Abbreviation piped k := (Pipeline.good (HD := roomy k) tuning clock (fun _ => True)).

Lemma total_receiving {A} k (m : Pipeline.drv A) (Q : A -> Pipeline.Driver -> Prop) d : fit k d ->
  (forall j, pipe j (base d) -> piped j m (fun a b => Pipeline.kept (base d) b) (base d)) -> total (receiving m) (fun _ d' => fit k d') d.
Proof.
  intros Hd Hm. specialize (Hm _ (fit_pipe _ _ Hd)). unfold Pipeline.good, wp in Hm. unfold total, wpp, receiving, on_base.
  destruct (m (base d)) as [[a|[]|] b]; [|done]. cbn [map_err]. destruct Hm as [Hb Hk]. apply fit_base; [done|done|]. rewrite (Pipeline.kept_conn _ _ Hk). apply (fit_conn _ _ Hd).
Qed.

Lemma total_flush k d : fit k d -> total (receiving (Pipeline.flush telemetry)) (fun _ d' => fit k d') d.
Proof.
  intros Hd. eapply (total_receiving k _ (fun _ _ => True)); [done|]. intros j Hj. eapply Pipeline.good_mono; [by apply Pipeline.flush_ok|]. by intros ? ? [].
Qed.

Lemma total_collect k d : fit k d -> total (receiving (Pipeline.collect_ready_voice_frames tuning clock telemetry)) (fun _ d' => fit k d') d.
Proof.
  intros Hd. eapply (total_receiving k _ (fun _ _ => True)); [done|]. intros j Hj. eapply Pipeline.good_mono; [by apply Pipeline.collect_ok|]. by intros ? ? [].
Qed.

Lemma pipe_requests k b q l : pipe k b -> length q = 2%nat -> pipe k (Pipeline.with_requests q l b).
Proof. intros [H1 H2 H3 H4 H5 H6] Hq. by split. Qed.

Lemma pipe_hand k b h : pipe k b -> Pipeline.hand_ok (HD := roomy k) tuning clock (fun _ => True) (Pipeline.d_history b) h -> pipe k (Pipeline.with_hand h b).
Proof. intros [H1 H2 H3 H4 H5 H6] Hh. by split. Qed.

Lemma total_discard k d : fit k d -> total (discard_closed gone) (fun _ d' => fit k d') d.
Proof.
  intros Hd. unfold total, wpp, discard_closed. pose proof (Pipeline.ok_requests _ _ _ _ (fit_pipe _ _ Hd)) as Hq.
  destruct (Pipeline.d_requests (base d)) as [|raw [|rtp [|]]]; try done. cbn. apply fit_base; [done|by apply pipe_requests; [apply fit_pipe|]|apply (fit_conn _ _ Hd)].
Qed.

Lemma total_attach k c d : fit k d -> (length (ReadyFrames.chan_items c) <= ReadyFrames.chan_capacity c)%nat -> total (attach_stream c) (fun _ d' => fit k d') d.
Proof.
  intros Hd Hc. unfold total, wpp, attach_stream. pose proof (fit_pipe _ _ Hd) as Hp.
  pose proof (Pipeline.attach_hand_ok (HD := roomy (k + length (waiting_sends d))) tuning clock (fun _ => True) c _ _ (Pipeline.ok_hand _ _ _ _ Hp) Hc) as Hh.
  assert ((ReadyFrames.attach_frame_stream c (Pipeline.d_hand (base d))).1 ≠ Panic) as Hn by (unfold ReadyFrames.attach_frame_stream; by case_match).
  destruct (ReadyFrames.attach_frame_stream c (Pipeline.d_hand (base d))) as [r h]. cbn [fst snd] in *.
  assert (fit k (with_base (Pipeline.with_hand h (base d)) d)) as Hf by (apply fit_base; [done|by apply pipe_hand|apply (fit_conn _ _ Hd)]).
  by destruct r.
Qed.

(** ** Commands of the user *)
Definition command_fit (c : ConnectionCommand) : Prop :=
  match c with
  | CmdOpenFrameStream ch _ => (length (ReadyFrames.chan_items ch) <= ReadyFrames.chan_capacity ch)%nat
  | CmdSendMediaFrame _ frame _ _ => frame_fit frame
  | _ => True
  end.

Lemma total_close_frame k d : fit k d -> total (send_close_frame ws) (fun _ d' => fit k d') d.
Proof. intros Hd. eapply fit_view; [exact Hd|done..|apply (fit_playout _ _ Hd)]. Qed.

Lemma total_signal k d : fit k d -> total close_signal (fun _ d' => fit k d') d.
Proof. intros Hd. eapply fit_view; [exact Hd|done..|apply (fit_playout _ _ Hd)]. Qed.

(** A frame that waits keeps its room. *)
Lemma fit_push_send k s t d : fit (S k) d -> frame_fit (send_frame s) ->
  fit k (with_waits (pending_media_ready_waits d) (timers_push s t (pending_media_ready_sends d)) d).
Proof.
  intros [H1 H2 H3 H4 H5 H6] Hs. pose proof (DriverSpec.contents_push s t (pending_media_ready_sends d)) as Hc.
  split; unfold waiting_sends in *; cbn [pending_media_ready_sends pending_media_ready_waits base send with_waits]; try done.
  - rewrite Hc. cbn [length]. by rewrite Nat.add_succ_r.
  - by apply timers_push_ok.
  - rewrite Hc. by constructor.
Qed.

Lemma total_command_of_user k c d : fit (S k) d -> command_fit c -> total (handle_command tuning clock telemetry udp ws ready ready_timeout c) (fun _ d' => fit k d') d.
Proof.
  intros Hd Hc. assert (fit k d) as Hd0 by (eapply fit_le; [|exact Hd]; lia). destruct c as [fl dl|kind n r|ch r|r|w r|c frame duration r|]; cbn [handle_command command_fit] in *.
  - by apply total_command.
  - unfold total, wpp. pose proof (Pipeline.ok_requests _ _ _ _ (fit_pipe _ _ Hd0)) as Hq. destruct (Pipeline.d_requests (base d)) as [|raw [|rtp [|]]]; try done.
    destruct kind; cbn; (apply fit_base; [done|by apply pipe_requests; [apply fit_pipe|]|apply (fit_conn _ _ Hd)]).
  - eapply total_bind; [by apply total_attach|]. intros [] d1 Hd1; [|by apply total_complete]. eapply total_bind; [by apply total_complete|]. intros [] d2 Hd2.
    eapply total_bind; [by apply total_collect|]. intros [] d3 Hd3. by apply total_flush.
  - apply total_gets. by apply total_complete.
  - eapply total_bind; [by apply total_now|]. intros t d1 Hd1. eapply (total_bind _ _ (fun _ d' => fit k d')); [|intros [] d2; apply total_waits].
    apply fit_drained_waits; [done|]. by apply timers_push_ok, (fit_waits _ _ Hd1).
  - unfold send_media_frame_when_ready. apply total_gets. destruct (Pipeline.media_ready _); [by apply total_complete_send|].
    eapply total_bind; [exact (total_now (S k) d Hd)|]. intros t d1 Hd1. by apply fit_push_send.
  - eapply total_bind; [by apply total_signal|]. intros [] d1 Hd1. by apply total_close_frame.
Qed.

(** ** Messages of the gateway *)
Lemma total_conn k c d : fit k d -> Gateway.conn_ok c -> total (set_conn c) (fun _ d' => fit k d') d.
Proof. intros Hd Hc. apply fit_base; [done| |done]. apply pipe_conn, (fit_pipe _ _ Hd). Qed.

Lemma effects_conn e : keeps Pipeline.d_conn (Pipeline.apply_gateway_effects clock e).
Proof.
  unfold Pipeline.apply_gateway_effects. apply keeps_bind; [case_match; [apply keeps_bind; [apply keeps_lift|intros; by apply keeps_modify]|apply keeps_ret]|].
  intros _. apply keeps_bind; [case_match; [done|apply keeps_ret]|]. intros _. case_match; [apply keeps_ret|]. intros b. unfold Pipeline.prune. by case_match.
Qed.

Lemma total_effects k e d : fit k d -> total (Driver.apply_gateway_effects clock e) (fun _ d' => fit k d') d.
Proof.
  intros Hd. pose proof (Pipeline.effects_ok (HD := roomy (k + length (waiting_sends d))) tuning clock (fun _ => True) e (base d) (fit_pipe _ _ Hd)) as He.
  pose proof (effects_conn e (base d)) as Hc. unfold wp in He. unfold total, wpp, Driver.apply_gateway_effects, on_base.
  destruct (Pipeline.apply_gateway_effects clock e (base d)) as [r b]. cbn [snd] in Hc.
  assert (r ≠ Panic -> fit k (with_base b d)) as Hf by (intros Hr; apply fit_base; [done|by destruct r|rewrite Hc; apply (fit_conn _ _ Hd)]).
  destruct r; cbn [map_err]; [by apply Hf|by eapply fit_le; [|by apply Hf]; lia|done].
Qed.

Lemma update_media_total random c p : safe (update_negotiated_media random ready c p) (fun q => active_playout q = active_playout p).
Proof.
  assert (update_negotiated_media random ready c p ≠ Panic) as Hn.
  { unfold update_negotiated_media, Outbound.outbound_new, Rtp.suffix_initial. destruct (negotiated_video_media ready c) as [v|]; [|done].
    destruct (outbound_video_rtp p) as [rtp|]; [destruct (_ =? _); [done|]|]; by destruct random. }
  destruct (update_negotiated_media random ready c p) as [q|e|] eqn:E; [|done|done]. by eapply DriverSpec.negotiated_view.
Qed.

Lemma total_message k random ack m d : fit k d -> total (handle_websocket_message clock ready random ack m) (fun _ d' => fit k d') d.
Proof.
  intros Hd. pose proof (fit_conn _ _ Hd) as Hc. destruct m as [[[[opcode seq] data]|]|b| | | |]; cbn [handle_websocket_message].
  - apply total_gets. set (c := Gateway.note_seq seq _). assert (Gateway.conn_ok c) as Hc1 by (unfold c, Gateway.note_seq; destruct seq; [by destruct Hc|done]).
    eapply total_bind; [by apply total_conn|]. intros [] d1 Hd1. pose proof (Gateway.handle_text_event_ok opcode data ack c Hc1) as Ht.
    eapply (total_bind _ _ (fun r d' => Gateway.conn_ok r.1.2 /\ fit k d')).
    { eapply total_lift; [exact Hd1|]. by destruct (Gateway.handle_text_event opcode data ack c). }
    intros [[e c2] ack2] d2 [Hc2 Hd2]. eapply total_bind; [by apply total_conn|]. intros [] d3 Hd3. eapply total_bind; [by apply total_effects|]. intros [] d4 Hd4.
    eapply (total_bind _ _ (fun _ d' => fit k d')); [|intros [] d5 Hd5; by apply total_ret].
    destruct (Gateway.media_session_updated e); [|by apply total_ret]. do 2 apply total_gets.
    pose proof (update_media_total random (Pipeline.d_conn (base d4)) (send d4)) as Hu.
    eapply (total_bind _ _ (fun q d' => active_playout q = active_playout (send d4) /\ fit k d')).
    { eapply total_lift; [exact Hd4|]. by destruct (update_negotiated_media _ _ _ _). }
    intros q d5 [Hq Hd5]. eapply fit_view; [exact Hd5|done..|]. cbn. intros p. rewrite Hq. apply (fit_playout _ _ Hd4).
  - by eapply total_throw.
  - apply total_gets. pose proof (Gateway.handle_binary_ok b _ Hc) as Hb. destruct (Gateway.handle_voice_binary_event b _) as [r c]. destruct Hb as [Hr Hc1].
    eapply total_bind; [by apply total_conn|]. intros [] d1 Hd1.
    eapply (total_bind _ _ (fun _ d' => fit k d')); [eapply total_lift; [exact Hd1|by destruct r]|]. intros e d2 Hd2.
    eapply total_bind; [by apply total_effects|]. intros [] d3 Hd3. by apply total_ret.
  - eapply total_bind; [by apply total_signal|]. intros [] d1 Hd1. by apply total_ret.
  - by apply total_ret.
  - by eapply total_throw.
  - eapply total_bind; [by apply total_signal|]. intros [] d1 Hd1. by apply total_ret.
Qed.

Lemma total_commands k l d : fit k d -> total (send_commands ws l) (fun _ d' => fit k d') d.
Proof. revert d. induction l as [|c l IH]; intros d Hd; [done|]. eapply total_bind; [by apply total_command|]. intros [] d' Hd'. by apply IH. Qed.

Lemma total_pump k d : fit k d -> total (pump_dave clock ws) (fun _ d' => fit k d') d.
Proof.
  intros Hd. unfold pump_dave. eapply (total_bind _ _ (fun t d' => t = clock (Pipeline.d_ticks (base d)) /\ d' = with_base (Pipeline.tick (base d)) d)); [done|].
  intros t d1 [-> ->]. eapply (total_bind _ _ (fun _ d' => fit k d')); [|intros l d2; apply total_commands].
  pose proof (fit_pipe _ _ Hd) as Hp. destruct (fit_conn _ _ Hd) as [Hg _].
  pose proof (room_pump (clock (Pipeline.d_ticks (base d))) (Gateway.dave (Pipeline.d_conn (base d))) (Gateway.connected_user_ids (Pipeline.d_conn (base d)))
    (Gateway.roster_authoritative (Pipeline.d_conn (base d))) _ (Pipeline.d_dave (base d)) (Hwithin _) Hg (pipe_now _ _ Hp) (pipe_room _ _ Hp)) as H.
  unfold total, wpp. cbn [base with_base Pipeline.d_conn Pipeline.d_dave Pipeline.tick]. destruct (dave_pump _ _ _ _ _) as [r v]. destruct H as (Hr & Hok & Hroom).
  assert (fit k (with_base (Pipeline.with_conn (Pipeline.d_conn (base d)) v (Pipeline.tick (base d))) d)) as Hf.
  { apply fit_base; [done| |apply (fit_conn _ _ Hd)]. eapply pipe_dave; [by apply pipe_tick| |done]. cbn. intros now Hn. apply Hok. specialize (Hclock (Pipeline.d_ticks (base d))). lia. }
  destruct r; cbn [map_err]; [exact Hf|by eapply fit_le; [|exact Hf]; lia|done].
Qed.

Lemma total_after k retry d : fit k d -> total (receiving (Pipeline.after_gateway_event tuning clock telemetry retry_fuel retry)) (fun _ d' => fit k d') d.
Proof.
  intros Hd. unfold total, wpp, receiving, on_base. set (j := (k + length (waiting_sends d))%nat).
  assert (wpp (fun b' => exists b, pipe j b /\ Pipeline.retry_loop tuning clock telemetry retry_fuel retry b = (Panic, b') /\ (Pipeline.d_ticks b + retry_fuel <= Pipeline.d_ticks b')%nat)
    (Pipeline.after_gateway_event tuning clock telemetry retry_fuel retry) (fun _ b' => pipe j b' /\ Pipeline.kept (base d) b') (fun _ _ => False) (base d)) as H.
  { unfold Pipeline.after_gateway_event. eapply (wpp_bind _ _ _ (fun _ b' => pipe j b' /\ Pipeline.kept (base d) b')).
    - unfold Pipeline.retry_pending_dave_media. destruct (retry_is_empty retry); [split; [apply (fit_pipe _ _ Hd)|apply Pipeline.kept_refl]|].
      pose proof (tot_retry_loop j retry retry_fuel (Pipeline.d_ticks (base d) + retry_fuel) (base d) (fit_pipe _ _ Hd) (Nat.le_refl _)) as Hr. unfold wpp in *.
      destruct (Pipeline.retry_loop tuning clock telemetry retry_fuel retry (base d)) as [[[]|[]|] b'] eqn:E; [exact Hr|]. exists (base d). split; [apply (fit_pipe _ _ Hd)|done].
    - intros [] b1 [Hb1 Hk1]. eapply wpp_bind; [exact (wp_total _ _ _ _ _ _ (Pipeline.collect_ok (HD := roomy j) tuning clock telemetry (fun _ => True) b1 Hb1))|].
      cbv beta. intros [] b2 [Hb2 Hk2%Pipeline.coll_kept].
      eapply wpp_mono; [exact (wp_total _ _ _ _ (fun _ _ => False) _ (Pipeline.flush_ok (HD := roomy j) tuning clock telemetry (fun _ => True) b2 Hb2))| |done].
      intros [] b3 (Hb3 & Hk3 & _). split; [done|]. eapply Pipeline.kept_trans; [exact Hk1|by eapply Pipeline.kept_trans]. }
  unfold wpp in H. destruct (Pipeline.after_gateway_event _ _ _ _ _ (base d)) as [[[]|[]|] b]; cbn [map_err].
  - destruct H as [Hb Hk]. apply fit_base; [done|done|]. rewrite (Pipeline.kept_conn _ _ Hk). apply (fit_conn _ _ Hd).
  - destruct H as (b0 & H0 & H1 & H2). by exists j, retry, b0.
Qed.

(** ** The loop *)
Definition event_fit (ev : DriverEvent) : Prop :=
  match ev with
  | EvCommand (Some c) => command_fit c
  | EvPlayout (Some c) => playout_command_fit c
  | EvDatagram (Some packet) => all_bytes packet
  | _ => True
  end.

Lemma total_wake_deadline k d : fit k d -> total (next_driver_wake_deadline clock) (fun _ d' => fit k d') d.
Proof.
  intros Hd. do 2 apply total_gets. eapply (total_bind _ _ (fun _ d' => fit k d')); [|intros wake d1 Hd1; by apply total_gets, total_ret].
  destruct (active_playout (send d)) as [p|]; [|by apply total_ret]. unfold wake_deadline. destruct (frames p); [by destruct (finish_response p); apply total_ret|].
  destruct (next_send_at p); [by apply total_ret|]. eapply total_bind; [by apply total_now|]. intros t d1 Hd1. by apply total_ret.
Qed.

Lemma total_turn k d : fit (S k) d -> total (turn_start clock telemetry udp ws ready ready_timeout gone) (fun _ d' => fit k d') d.
Proof.
  intros Hd. eapply total_bind; [by apply total_discard|]. intros [] d1 Hd1. eapply total_bind; [by apply total_flush|]. intros [] d2 Hd2.
  eapply total_bind; [by apply total_media_ready|]. intros [] d3 Hd3. eapply total_bind; [by apply total_resolve|]. intros [] d4 Hd4.
  eapply total_bind; [by apply total_wake_deadline|]. intros w d5 Hd5. by apply total_ret.
Qed.

Lemma total_heartbeat k l d : fit k d -> total (heartbeat_tick clock ws heartbeat_interval_ms l) (fun _ d' => fit k d') d.
Proof.
  intros Hd. unfold heartbeat_tick. destruct (Gateway.ack_pending _).
  - eapply total_bind; [by apply total_now|]. intros t d1 Hd1. destruct (Gateway.timed_out _ _ _); [exact (total_throw _ _ _ _ Hd1)|by apply total_ret].
  - apply total_gets. eapply total_bind; [by apply total_command|]. intros [] d1 Hd1. eapply total_bind; [by apply total_now|]. intros t d2 Hd2. by apply total_ret.
Qed.

Lemma total_event k ev l d : fit (S k) d -> event_fit ev ->
  total (on_event tuning clock telemetry rtcp_telemetry udp ws ready ready_timeout heartbeat_interval_ms retry_fuel ev l) (fun _ d' => fit k d') d.
Proof.
  intros Hd Hev. assert (fit k d) as Hd0 by (eapply fit_le; [|exact Hd]; lia). destruct ev as [|[c|]|[c|]| |[packet|]| |random m]; cbn [on_event event_fit] in *.
  - eapply total_bind; [by apply total_heartbeat|]. intros l' d1 Hd1. by apply total_ret.
  - eapply total_bind; [by apply total_command_of_user|]. intros [] d1 Hd1. by apply total_ret.
  - eapply total_bind; [by apply total_signal|]. intros [] d1 Hd1. eapply total_bind; [by apply total_close_frame|]. intros [] d2 Hd2. by apply total_ret.
  - eapply total_bind; [by apply total_playout_command|]. intros [] d1 Hd1. by apply total_ret.
  - by apply total_ret.
  - eapply total_bind; [by apply total_close_frame|]. intros [] d1 Hd1. by apply total_ret.
  - eapply (total_bind _ _ (fun _ d' => fit k d')); [|intros [] d1 Hd1; by apply total_ret]. eapply (total_receiving k _ (fun _ _ => True)); [done|]. intros j Hj. by apply Pipeline.handle_packet_ok.
  - exact (total_throw _ _ _ _ Hd).
  - eapply (total_bind _ _ (fun _ d' => fit (S k) d')).
    { eapply (total_receiving (S k) _ (fun _ _ => True)); [done|]. intros j Hj. by apply Pipeline.wake_ok. }
    intros [] d1 Hd1. eapply total_bind; [by apply total_resolve|]. intros [] d2 Hd2. by apply total_ret.
  - eapply total_bind; [exact (total_message (S k) random _ m d Hd)|]. intros [[e|] ack] d1 Hd1; [|apply total_ret; by eapply fit_le; [|exact Hd1]; lia].
    eapply total_bind; [by apply total_pump|]. intros [] d2 Hd2. eapply total_bind; [by apply total_media_ready|]. intros [] d3 Hd3.
    eapply total_bind; [by apply total_after|]. intros [] d4 Hd4. eapply total_bind; [by apply total_resolve|]. intros [] d5 Hd5. by apply total_ret.
Qed.

(** Two frames of room for every event are enough, besides the frames that wait. *)
Lemma total_event_loop evs l d : fit (2 * length evs) d -> Forall event_fit evs ->
  total (event_loop tuning clock telemetry rtcp_telemetry udp ws ready ready_timeout heartbeat_interval_ms retry_fuel gone evs l) (fun _ d' => fit 0 d') d.
Proof.
  revert l d. induction evs as [|ev evs IH]; intros l d Hd Hevs; [done|]. apply Forall_cons in Hevs as [Hev Hevs]. cbn [event_loop].
  eapply total_bind; [apply (total_turn (S (2 * length evs))); by eapply fit_le; [|exact Hd]; cbn [length]; lia|]. intros [] d1 Hd1.
  eapply total_bind; [by apply total_event|]. intros [l'|] d2 Hd2; [by apply IH|apply total_ret; by eapply fit_le; [|exact Hd2]; lia].
Qed.

Lemma total_run_loop random evs d : fit (2 * length evs) d -> Forall event_fit evs ->
  total (run_loop tuning clock telemetry rtcp_telemetry udp ws ready ready_timeout heartbeat_interval_ms retry_fuel gone random evs) (fun _ d' => fit 0 d') d.
Proof.
  intros Hd Hevs. unfold run_loop. eapply (total_bind _ _ (fun _ d' => fit (2 * length evs) d')).
  { eapply total_lift; [exact Hd|]. unfold Outbound.heartbeat_initial. by destruct random. }
  intros nonce d1 Hd1. eapply total_bind; [by apply total_pump|]. intros [] d2 Hd2. eapply total_bind; [by apply total_media_ready|]. intros [] d3 Hd3.
  by apply total_event_loop.
Qed.

(** ** Closing *)
Lemma total_each {A} (f : A -> drv ()) l d : (forall x d, fit 0 d -> total (f x) (fun _ d' => fit 0 d') d) -> fit 0 d -> total (each f l) (fun _ d' => fit 0 d') d.
Proof. intros Hf. revert d. induction l as [|x l IH]; intros d Hd; [done|]. cbn [each]. eapply total_bind; [by apply Hf|]. intros [] d' Hd'. by apply IH. Qed.

Lemma total_close_command c d : fit 0 d -> total (command_complete_closed c) (fun _ d' => fit 0 d') d.
Proof.
  intros Hd. destruct c; cbn [command_complete_closed]; try (by apply total_complete); try (by apply total_ret).
  apply fit_base; [done|apply pipe_requests; [apply (fit_pipe _ _ Hd)|exact (Pipeline.ok_requests _ _ _ _ (fit_pipe _ _ Hd))]|apply (fit_conn _ _ Hd)].
Qed.

Lemma total_close_playout c d : fit 0 d -> total (playout_complete_closed c) (fun _ d' => fit 0 d') d.
Proof. intros Hd. destruct c; cbn [playout_complete_closed]; try (by apply total_complete); by apply total_ret. Qed.

Lemma total_close_receives d : fit 0 d -> total close_packet_receives (fun _ d' => fit 0 d') d.
Proof.
  intros Hd. unfold total, wpp, close_packet_receives. pose proof (Pipeline.ok_requests _ _ _ _ (fit_pipe _ _ Hd)) as Hq.
  destruct (Pipeline.d_requests (base d)) as [|raw [|rtp [|]]]; try done.
  rewrite (proj2 (ReadyFrames.packet_requests_fifo {| Rtp.info_version := None; Rtp.raw_payload_type := None; Rtp.info_payload_type := None;
    Rtp.info_seq := None; Rtp.info_timestamp := None; Rtp.info_ssrc := None |} [] raw rtp)).
  apply fit_base; [done|by apply pipe_requests; [apply fit_pipe|]|apply (fit_conn _ _ Hd)].
Qed.

Lemma total_closing commands playouts d : fit 0 d -> total (complete_pending_closed commands playouts) (fun _ d' => fit 0 d') d.
Proof.
  intros Hd. unfold complete_pending_closed. eapply total_bind; [by apply (total_each command_complete_closed); [apply total_close_command|]|]. intros [] d1 Hd1.
  eapply total_bind; [by apply (total_each playout_complete_closed); [apply total_close_playout|]|]. intros [] d2 Hd2.
  eapply total_bind; [by apply total_close_receives|]. intros [] d3 Hd3. apply total_gets.
  eapply (total_bind _ _ (fun _ d' => fit 0 d')).
  { destruct (active_playout (send d3)) as [p|]; [|by apply total_ret]. eapply total_bind; [by apply (total_active 0 None)|]. intros [] d4 Hd4. by apply total_cancel. }
  intros [] d4 Hd4. eapply (total_bind _ _ (fun _ d' => fit 0 d')); [apply fit_drained_waits; [done|apply timers_default_ok]|]. intros waits d5 Hd5.
  eapply total_bind; [by apply total_complete_all|]. intros [] d6 Hd6. eapply (total_bind _ _ (fun _ d' => fit 0 d')); [|intros l d7; apply total_complete_all].
  unfold total, wpp, drain_sends. cbn [drain_all]. destruct (fit_drained_sends 0 d6 timers_default (waiting_sends d6) Hd6 (timers_default_ok)) as [Hf _].
  { by rewrite DriverSpec.contents_default, app_nil_r. }
  by eapply fit_le; [|exact Hf]; lia.
Qed.

Lemma total_run random evs commands playouts d : fit (2 * length evs) d -> Forall event_fit evs ->
  total (run tuning clock telemetry rtcp_telemetry udp ws ready ready_timeout heartbeat_interval_ms retry_fuel gone random evs commands playouts) (fun _ d' => fit 0 d') d.
Proof.
  intros Hd Hevs. pose proof (total_run_loop random evs d Hd Hevs) as Hl. unfold total, wpp in *. unfold run.
  destruct (run_loop _ _ _ _ _ _ _ _ _ _ _ _ _ d) as [r d1]. assert (r ≠ Panic -> fit 0 d1) as Hd1 by (by destruct r).
  destruct r as [b|e|]; [| |exact Hl];
    (assert (fit 0 (with_closed d1)) as Hc by (apply (total_signal 0 d1); by apply Hd1);
     pose proof (total_closing commands playouts (with_closed d1) Hc) as H; unfold total, wpp in H;
     by destruct (complete_pending_closed commands playouts (with_closed d1)) as [[[]|e'|] d2]).
Qed.

(** A driver that has just been made. *)
Lemma new_fit k conn v t d : (0 < Tuning.ready_frame_buffer_max tuning)%nat -> base d = Pipeline.driver_new tuning conn v t -> DriverSpec.fresh d ->
  Gateway.conn_ok conn -> (forall now, clock 0 <= now -> within now -> Pipeline.dave_ok now v) -> room k v -> fit k d.
Proof.
  intros Hcap Hb (_ & Hw & Hs & Hp) Hc Hv Hr. split; unfold waiting_sends; rewrite ?Hb, ?Hw, ?Hs, ?Hp, ?Nat.add_0_r; try done.
  - apply (Pipeline.reachable_ok (HD := roomy k) tuning clock telemetry rtcp_telemetry (fun _ => True) _ Hcap). apply Pipeline.reach_new. intros n. split; [apply Hwithin|].
    split; [|done]. intros now Hn. apply Hv. pose proof (clock_le 0 n (Nat.le_0_l _)). lia.
Qed.
End Total.

End DriverTotal.
