(* ===== verification/CipherBytes.v ===== *)
(** * What the DAVE sender puts out are bytes

    The encryptor of Cryptor.v returns a list of numbers; the RTP packetizer
    that cuts it up afterwards reads it as bytes.  Here: for a frame of bytes the
    processed frame, the encrypted frame and its supplemental data are bytes
    again, given that the primitives of the cipher produce bytes (they are
    slices of u8). *)

From S2P Require Import Prelude Leb128 Codec Gcm Frame FrameCodec Ratchet Cryptor.
Import Interleave Processor FrameFormat AnnexB.
#[local] Open Scope Z_scope.

Module CipherBytes.

Class GcmBytes (P : GcmPrimitives) : Prop := {
  keystream_bytes : forall c buf, all_bytes buf -> all_bytes (apply_keystream_partial c buf);
  keystream_block_bytes : forall c, all_bytes (write_keystream_block c).1;
  ghash_finalize_bytes : forall s, all_bytes (ghash_finalize s) }.

Class FrameAeadBytes (A : FrameAead) : Prop := {
  aead_bytes : forall k nonce aad buf ct tag, all_bytes buf -> aead_encrypt k nonce aad buf = (ct, tag) -> all_bytes ct /\ all_bytes tag }.

Lemma is_byte_lxor a b : is_byte a -> is_byte b -> is_byte (Z.lxor a b).
Proof.
  unfold is_byte. intros Ha Hb. split; [apply Z.lxor_nonneg; lia|]. destruct (Z.eq_dec (Z.lxor a b) 0) as [->|Hne]; [lia|].
  assert (0 <= Z.lxor a b) by (apply Z.lxor_nonneg; lia). apply Z.log2_lt_cancel. eapply Z.le_lt_trans; [apply Z.log2_lxor; lia|].
  apply Z.max_lub_lt; (destruct (Z.eq_dec a 0) as [->|]; destruct (Z.eq_dec b 0) as [->|]; cbn; try lia); apply Z.log2_lt_pow2; lia.
Qed.

Lemma zip_bytes (l k : bytes) : all_bytes l -> all_bytes k -> all_bytes (zip_with Z.lxor l k).
Proof.
  revert k. induction l as [|a l IH]; intros [|b k] Hl Hk; cbn; try (by apply Forall_nil). apply Forall_cons in Hl as [Ha Hl]. apply Forall_cons in Hk as [Hb Hk].
  constructor; [by apply is_byte_lxor|by apply IH].
Qed.

#[export] Instance gcm8_bytes `{P : GcmPrimitives} {HB : GcmBytes P} : FrameAeadBytes gcm8_frame_aead.
Proof.
  split. cbn. unfold Aes128Gcm8.encrypt_in_place_detached, Aes128Gcm8.init_ctr. intros k nonce aad buf ct tag Hb.
  pose proof (keystream_block_bytes (ctr_init (Aes128Gcm8.cipher k) (nonce ++ replicate 3 0 ++ [1]))) as Hm.
  destruct (write_keystream_block _) as [mask ctr]. cbn [fst] in Hm. intros [= <- <-]. split; [by apply keystream_bytes|]. apply Forall_take.
  unfold Aes128Gcm8.compute_tag. apply zip_bytes; [apply ghash_finalize_bytes|done].
Qed.

(** ** The processed frame *)
Lemma encode_bytes v : 0 <= v -> all_bytes (Uleb128.encode v).
Proof. apply Uleb128.uleb_bytes. Qed.

Lemma all_bytes_app (l k : bytes) : all_bytes (l ++ k) <-> all_bytes l /\ all_bytes k.
Proof. apply Forall_app. Qed.

Lemma units_bytes body us : units_of body us -> all_bytes body -> all_bytes (annexb_frame us).
Proof.
  assert (all_bytes H26X_LONG_START_CODE) as Hc by compute_bytes.
  assert (forall u us, annexb_frame (u :: us) = H26X_LONG_START_CODE ++ u ++ annexb_frame us) as Hcons by (intros; unfold annexb_frame; cbn; by rewrite <- ?app_assoc).
  induction 1 as [u Hu _|x|u c rest us _ _ Hr IH]; intros Hb; rewrite ?Hcons, ?all_bytes_app in *.
  - split; [done|]. split; [done|]. by apply Forall_nil.
  - by apply Forall_nil.
  - destruct Hb as (Hu & _ & Hrest). auto.
Qed.

Lemma is_byte_ldiff a b : is_byte a -> is_byte (Z.ldiff a b).
Proof.
  unfold is_byte. intros Ha. assert (Z.ldiff a b = Z.ldiff a b mod 2 ^ 8) as ->; [|apply Z.mod_pos_bound; lia].
  apply Z.bits_inj'. intros n Hn. rewrite Z.ldiff_spec. destruct (Z.lt_ge_cases n 8).
  - by rewrite Z.mod_pow2_bits_low, Z.ldiff_spec.
  - rewrite Z.mod_pow2_bits_high by lia. replace a with (a mod 2 ^ 8) by (apply Z.mod_small; lia). by rewrite Z.mod_pow2_bits_high by lia.
Qed.

Lemma obu_kept_bytes last o : all_bytes (obu_bytes o) -> all_bytes (obu_kept last o).
Proof.
  unfold obu_bytes, obu_kept. intros [Hh Hb]%Forall_cons. rewrite !Forall_app in Hb. destruct Hb as (He & Hs & Hp).
  destruct (obu_dropped _); [by apply Forall_nil|]. apply Forall_cons. split; [case_match; [by apply is_byte_ldiff|done]|].
  apply Forall_app. split; [done|]. apply Forall_app. split; [|done]. case_match; [apply encode_bytes; lia|by apply Forall_nil].
Qed.

Lemma obus_kept_bytes os : all_bytes (mjoin (obu_bytes <$> os)) -> all_bytes (obus_kept os).
Proof.
  induction os as [|o os IH]; [done|]. change (mjoin (obu_bytes <$> o :: os)) with (obu_bytes o ++ mjoin (obu_bytes <$> os)).
  intros [Ho Hos]%Forall_app. cbn [obus_kept]. apply Forall_app. split; [by apply obu_kept_bytes|by apply IH].
Qed.

Lemma kept_bytes c frame kept : kept_of c frame kept -> all_bytes frame -> all_bytes kept.
Proof.
  destruct c; cbn [kept_of]; [by intros ->..| | |].
  1, 2: intros [->|(junk & code & body & us & -> & _ & Hu & ->)] Hb; [done|]; rewrite !all_bytes_app in Hb; destruct Hb as (_ & _ & Hb); by eapply units_bytes.
  intros [->|(os & _ & -> & ->)] Hb; [done|by apply obus_kept_bytes].
Qed.

(** ** The encrypted frame *)
Lemma choose_bytes want mask l : all_bytes l -> all_bytes (Interleave.choose want mask l).
Proof.
  revert mask. induction l as [|b l IH]; intros [|m mask] Hl; cbn; try (by apply Forall_nil). apply Forall_cons in Hl as [Hb Hl].
  destruct (Bool.eqb m want); [constructor; [done|]|]; by apply IH.
Qed.

Lemma slice_bytes {E} (l s : bytes) a b : slice (E := E) l a b = Ok s -> all_bytes l -> all_bytes s.
Proof. intros [_ ->]%slice_Ok_inv Hl. by apply all_bytes_take, all_bytes_drop. Qed.

Lemma reconstruct_bytes {E} rs clear secret fi ai ei output out : Interleave.reconstruct_loop (E := E) rs clear secret fi ai ei output = Ok out ->
  all_bytes clear -> all_bytes secret -> all_bytes output -> all_bytes out.
Proof.
  intros H Hc Hs. revert fi ai ei output H. induction rs as [|r rs IH]; intros fi ai ei output H Ho; cbn [Interleave.reconstruct_loop] in H.
  - destruct (_ <? _)%nat; [|by injection H as <-]. apply bind_Ok_inv in H as (rest & Hr & [= <-]). apply Forall_app. split; [done|by eapply slice_bytes].
  - apply bind_Ok_inv in H as ([o ei'] & Hg & H). apply bind_Ok_inv in H as (cl & Hcl & H). eapply IH; [exact H|]. apply Forall_app. split; [|by eapply slice_bytes].
    destruct (_ <? _)%nat; [|by injection Hg as <- <-]. apply bind_Ok_inv in Hg as (gap & Hgap & [= <- <-]). apply Forall_app. split; [done|by eapply slice_bytes].
Qed.

Lemma ranges_bytes_bytes rs : all_bytes (ranges_bytes rs).
Proof.
  unfold ranges_bytes. induction rs as [|r rs IH]; [by apply Forall_nil|]. cbn. rewrite !Forall_app. split; [split; apply encode_bytes; lia|done].
Qed.

Section Sent.
Context `{P : RatchetPrimitives} `{A : FrameAead} {HA : FrameAeadLaws A} {HB : FrameAeadBytes A}.
Import Cryptor.Sender.

Lemma encrypt_processed_bytes c nonce p l out p' : encrypt_processed c nonce p = Ok (out, p') -> holds p l -> all_bytes l -> is_u32 nonce ->
  Z.of_nat (length l) < u64_mod -> all_bytes out /\ holds p' l.
Proof.
  unfold encrypt_processed. destruct (aead_encrypt _ _ _ _) as [ct tg] eqn:He. intros (body & Hbody & H)%bind_Ok_inv Hp Hl Hn Hlen.
  apply bind_Ok_inv in H as (o & Ho & [= <- <-]). split; [|by apply holds_set_ciphertext].
  assert (forall want, all_bytes (choose want (mask_of 0 (unencrypted_ranges p) (length l)) l)) as Hch by (intros; by apply choose_bytes).
  assert (all_bytes (encrypted_bytes p)) as Hsec by (rewrite (holds_secret _ _ Hp); apply Hch). destruct (aead_bytes _ _ _ _ _ _ Hsec He) as [Hct Htg].
  assert (all_bytes body) as Hb by (eapply reconstruct_bytes; [exact Hbody|cbn; rewrite (holds_clear _ _ Hp); apply Hch|done|by apply Forall_nil]).
  cbn [unencrypted_ranges set_ciphertext] in Ho. destruct (decide (supplemental_size nonce (unencrypted_ranges p) <= 255)%nat) as [Hs|Hs].
  - rewrite write_supplemental_tail_ok in Ho; [|unfold is_u32, is_u64, u32_mod, u64_mod in *; lia|eapply ranges_wf_u64; [apply Hp|lia]|done].
    injection Ho as <-. unfold supplemental_tail. rewrite !Forall_app. split; [done|]. split; [apply encode_bytes, Hn|]. split; [apply ranges_bytes_bytes|].
    split; [|compute_bytes]. constructor; [unfold is_byte; lia|by apply Forall_nil].
  - unfold write_supplemental_tail in Ho. fold (supplemental_size nonce (unencrypted_ranges p)) in Ho. by rewrite (proj2 (Nat.ltb_lt _ _)) in Ho by lia.
Qed.

Lemma advance_cipher_nonce e r e' : advance_cipher e = (r, e') -> frame_processor e' = frame_processor e /\ forall n, r = Ok n -> is_u32 n.
Proof.
  unfold advance_cipher. destruct (active_ratchet e); [|by intros [= <- <-]]. cbv zeta.
  assert (is_u32 (wrapping_add u32_mod (truncated_nonce e) 1)) as Hn by (apply Z.mod_pos_bound; done).
  destruct (_ || _); [|intros [= <- <-]; split; [done|by intros n [= <-]]]. destruct (HashRatchet.get _ _) as [[s|?|] r'].
  2, 3: by intros [= <- <-]. destruct (frame_cipher_new _); intros [= <- <-]; (split; [done|]); by intros n [= <-].
Qed.

Lemma encrypt_attempts_bytes n c e kept out e' : encrypt_attempts n c e = (Ok out, e') -> holds (frame_processor e) kept -> all_bytes kept ->
  Z.of_nat (length kept) < u64_mod -> all_bytes out.
Proof.
  revert e. induction n as [|n IH]; intros e H Hp Hb Hl; [done|]. cbn [encrypt_attempts] in H.
  destruct (advance_cipher e) as [r e1] eqn:Ha. apply advance_cipher_nonce in Ha as [Hpr Hn]. rewrite <- Hpr in Hp. destruct r as [nonce|?|]; [|done|done].
  destruct (cipher e1) as [ciph|]; [|done]. destruct (encrypt_processed ciph nonce (frame_processor e1)) as [[o p]|?|] eqn:He; [|done|done].
  destruct (encrypt_processed_bytes _ _ _ _ _ _ He Hp Hb (Hn _ eq_refl) Hl) as [Ho Hh].
  destruct (validate_processed c p o) as [[]|?|]; [by injection H as <- <-|by eapply IH|done|done].
Qed.

(** The output of the encryptor for a frame of bytes. *)
Lemma encrypt_into_bytes c frame e out e' : encrypt_into c frame e = (Ok out, e') -> all_bytes frame -> Z.of_nat (length frame) < 2 ^ 63 -> all_bytes out.
Proof.
  unfold encrypt_into. intros H Hb Hl. destruct (process_spec (E := EncryptError) c frame Hb) as (p & kept & Hp & Hk & Hh & _); [unfold u64_mod; lia|].
  rewrite Hp in H. pose proof (length_kept c frame kept Hb Hk). eapply encrypt_attempts_bytes; [exact H|exact Hh|by eapply kept_bytes|unfold u64_mod; lia].
Qed.
End Sent.

(** The stand-in cipher of Gcm.v. *)
#[export] Instance sample_bytes : GcmBytes Sample.primitives.
Proof.
  assert (forall z, is_byte (z mod 256)) as Hm by (intros z; apply Z.mod_pos_bound; lia). split.
  - intros c buf Hb. cbn. unfold Sample.xor_with. apply Forall_fmap. eapply Forall_impl; [exact Hb|]. intros b. by apply is_byte_lxor.
  - intros c. by apply Forall_replicate.
  - intros s. apply Forall_replicate. unfold Sample.digest. assert (is_byte 0) as H0 by (unfold is_byte; lia). revert H0. generalize 0 as acc.
    induction s as [|b s IH]; intros acc Hacc; [done|]. by apply IH.
Qed.
End CipherBytes.
