(* ===== verification/DaveTotal.v ===== *)
(** * DAVE as the driver needs it

    The coordinator over a session of the dave crate meets [DaveDriverLaws]:
    whatever the gateway sends, a pump ends without a panic and leaves the
    decryptors fit for every later call, and the sender can encrypt as long as
    its frame counter does not run out.  [sender_room k]: [k] more frames, of ten
    attempts each at most, for the key in use and for a key that is still to be
    activated. *)

From S2P Require Import Prelude Effects Leb128 Codec Gcm Frame FrameCodec Ratchet Cryptor CipherBytes MlsPolicy Identity Session DaveGateway Gateway Coordinator.
From S2P Require Import Pipeline Send Driver DriverTotal.
Import Cryptor.Sender Cryptor.Receiver CipherBytes.CipherBytes.
#[local] Open Scope Z_scope.

Module DaveTotal.
Section Media.
Context `{P : RatchetPrimitives} `{A : Gcm.FrameAead} `{M : Session.Mls} {HP : RatchetLaws P} {HA : FrameAeadLaws A} {HB : FrameAeadBytes A} {HM : Session.MlsLaws M}.

#[local] Existing Instance Coordinator.dave_session.

(** Times of the monotonic clock, in nanoseconds: a bit more than 146 years. *)
Definition in_epoch (now : Z) : Prop := 0 <= now < 2 ^ 62.

(** ** The sender *)
Record sender_room (k : nat) (e : Encryptor) : Prop := {
  sr_bound : 10 * Z.of_nat k < max_frames;
  sr_pending : forall r, pending_ratchet e = Some r -> exists secret, r = HashRatchet.new secret;
  sr_active : active_ratchet e = None \/ exists secret n, counted secret n e /\ n + 10 * Z.of_nat k < max_frames }.

Lemma sender_room_le k k' e : (k' <= k)%nat -> sender_room k e -> sender_room k' e.
Proof. intros Hk [H1 H2 H3]. split; [lia|done|]. destruct H3 as [?|(secret & n & Hc & Hn)]; [by left|right]. exists secret, n. split; [done|lia]. Qed.

Lemma sender_room_stage k secret e : sender_room k e -> sender_room k (stage_ratchet (HashRatchet.new secret) e).
Proof.
  intros [H1 H2 H3]. split; [done|intros r [= <-]; by exists secret|]. destruct H3 as [?|(sec & n & [C1 C2 C3 C4 C5] & Hn)]; [by left|right]. exists sec, n. split; [by split|done].
Qed.

Lemma sender_room_activate k e : sender_room k e -> sender_room k (activate_pending e).2.
Proof.
  intros Hs. destruct (pending_ratchet e) as [r|] eqn:Hp; [|unfold activate_pending; by rewrite Hp]. destruct Hs as [H1 H2 _].
  destruct (H2 r Hp) as [secret ->]. pose proof (counted_activate secret e Hp) as Hc. unfold activate_pending in *. rewrite Hp in *. cbn [snd] in *.
  split; [done|done|]. right. exists secret, 0. split; [done|lia].
Qed.

Lemma sender_room_reset k e : 10 * Z.of_nat k < max_frames -> sender_room k (reset_encryptor e).
Proof. intros H. split; [done|done|by left]. Qed.

Lemma sender_room_encrypt k c frame e : sender_room (S k) e -> DriverTotal.frame_fit frame ->
  let '(r, e') := encrypt_into c frame e in match r with Ok b => all_bytes b | Err _ => True | Panic => False end /\ sender_room k e'.
Proof.
  intros [H1 H2 H3] [Hb Hl]. destruct (encrypt_into c frame e) as [r e'] eqn:He. pose proof He as [Hready Hpend]%Session.encrypt_into_keeps.
  assert (forall b, r = Ok b -> all_bytes b) as Hbytes by (intros b ->; by eapply encrypt_into_bytes).
  assert (r ≠ Panic /\ (active_ratchet e' = None \/ exists secret n, counted secret n e' /\ n + 10 * Z.of_nat k < max_frames)) as [Hnp Ha].
  { destruct H3 as [Ha|(secret & n & Hc & Hn)].
    - split; [|left; unfold ready in Hready; rewrite Ha in Hready; by destruct (active_ratchet e')]. unfold encrypt_into in He.
      destruct (FrameCodec.process_spec (E := EncryptError) c frame Hb) as (p & kept & Hp & _); [unfold u64_mod; lia|]. rewrite Hp in He.
      change MAX_CIPHERTEXT_VALIDATION_RETRIES with 10%nat in He. cbn [encrypt_attempts] in He. unfold advance_cipher in He. cbn [active_ratchet set_processor] in He.
      rewrite Ha in He. by injection He as <- <-.
    - destruct (encrypt_into_spec c frame secret n e Hc) as (n' & r' & e'' & Hrun & Hc' & Hn' & Hr); [lia|done|done|]. rewrite Hrun in He. injection He as -> ->.
      split; [by intros ->|]. right. exists secret, n'. split; [done|lia]. }
  split; [destruct r; [by apply Hbytes|done|done]|]. split; [lia|by rewrite Hpend|done].
Qed.

(** ** The session *)
Definition media_fit (t : Z) (k : nat) (s : Session.Session) : Prop :=
  sender_room k (Session.sender s) /\ forall now, t <= now -> in_epoch now -> map_Forall (fun _ => decryptor_ok now) (Session.decryptors s).

Lemma media_fit_same t k s s' : Session.media_of s' = Session.media_of s -> media_fit t k s -> media_fit t k s'.
Proof. unfold media_fit. intros [= -> ->]. done. Qed.

Lemma media_fit_keeps {E B} t k (m : st Session.Session E B) : keeps Session.media_of m -> preserves (media_fit t k) m.
Proof. apply keeps_preserves. intros s s'. apply media_fit_same. Qed.

(** A decryptor that takes over a new ratchet. *)
Lemma decryptor_transition t now secret d : in_epoch t -> t <= now -> in_epoch now -> decryptor_ok now d -> decryptor_ok now (transition_to_ratchet t (HashRatchet.new secret) d).
Proof.
  unfold in_epoch. intros Ht Hle Hnow [Hd He]. split; [|by apply expiry_ok_transition]. cbn. apply Forall_app. split.
  - apply Forall_fmap. eapply Forall_impl; [exact Hd|]. intros m (Hc & sec & w & Hi). split; [exact Hc|]. exists sec, w. destruct Hi as [[K1 K2 K3 K4 K5] Hw]. split; [split; [exact K1|exact K2|exact K3|exact K4|exact K5]|by apply (Manager.window_rel_ext w m)].
  - apply Forall_singleton. split; [unfold Manager.clock_ok, Manager.elapsed; cbn; lia|]. exists secret, None. apply Manager.implements_new.
Qed.

Lemma key_ratchet_new u s r : Session.key_ratchet u s = Ok r -> exists secret, r = HashRatchet.new secret.
Proof.
  unfold Session.key_ratchet. destruct (Session.group s); [|done]. destruct (negb _); [done|]. destruct (Session.export_secret _ _ _ _) as [?|secret]; [done|].
  intros [= <-]. by exists secret.
Qed.

Lemma install_preserves t k ms current : in_epoch t -> preserves (media_fit t k) (Session.install_ratchets t ms current).
Proof.
  intros Ht. revert current. induction ms as [|m ms IH]; intros current; cbn [Session.install_ratchets]; [apply preserves_ret|].
  apply preserves_bind; [apply preserves_lift|]. intros u s Hs. unfold gets, mbind, st_mbind. cbv beta iota. unfold id. destruct (u =? Session.user_id s); [by apply IH|].
  unfold lift. destruct (Session.key_ratchet u s) as [r|e|] eqn:Hr; [|done|done]. unfold modify. apply IH. destruct Hs as [H1 H2]. split; [exact H1|].
  apply key_ratchet_new in Hr as [secret ->].
  intros now Hle Hnow. cbn. apply map_Forall_insert_2; [|by apply H2]. apply decryptor_transition; [done..|]. specialize (H2 now Hle Hnow).
  destruct (Session.decryptors s !! u) as [d|] eqn:Hd; [exact (H2 u d Hd)|]. split; [by apply Forall_nil|by left].
Qed.

Lemma activate_established_preserves t k : in_epoch t -> preserves (media_fit t k) (Session.activate_established_group t).
Proof.
  intros Ht. unfold Session.activate_established_group, Session.update_receive_ratchets_and_stage_sender.
  apply preserves_bind; [by apply preserves_modify|]. intros _. apply preserves_bind; [apply preserves_gets|]. intros g. apply preserves_bind; [apply preserves_lift|].
  intros g'. case_match; [apply preserves_throw|]. apply preserves_bind; [by apply install_preserves|]. intros current.
  apply preserves_bind; [|intros _].
  { apply preserves_modify. intros s [H1 H2]. split; [exact H1|]. intros now Hle Hnow. intros u d [Hd _]%map_lookup_filter_Some. exact (H2 now Hle Hnow u d Hd). }
  intros s Hs. unfold gets, mbind, st_mbind, lift. cbv beta iota. unfold id. destruct (Session.key_ratchet (Session.user_id s) s) as [r|e|] eqn:Hr; [|done|done].
  apply key_ratchet_new in Hr as [secret ->]. unfold modify. destruct Hs as [H1 H2]. split; [by apply sender_room_stage|exact H2].
Qed.

Ltac preserves_session :=
  repeat first
    [ progress intros | eassumption
    | apply preserves_bind | apply preserves_ret | apply preserves_gets | apply preserves_throw | apply preserves_lift | apply preserves_try_err
    | apply preserves_modify; by intros ? [? ?]
    | apply media_fit_keeps; first [apply Session.keeps_library | apply Session.keeps_on_provider; by intros | apply Session.keeps_on_group; by intros
        | apply Session.keeps_try_group; by intros | apply Session.keeps_the_group | apply Session.keeps_take_delete; by intros]
    | match goal with |- preserves _ (match ?x with _ => _ end) => destruct x end ].

Lemma welcome_preserves t k w : in_epoch t -> preserves (media_fit t k) (Session.process_welcome t w).
Proof. intros Ht. pose proof (activate_established_preserves t k Ht). unfold Session.process_welcome. preserves_session. Qed.

Lemma commit_preserves t k c : in_epoch t -> preserves (media_fit t k) (Session.process_commit t c).
Proof. intros Ht. pose proof (activate_established_preserves t k Ht). unfold Session.process_commit, Session.merge_commit. preserves_session. Qed.

(** ** The coordinator *)
Abbreviation session_of c := (Coordinator.session c : Session.Session).

Definition coordinator_fit (t : Z) (k : nat) (x : Coordinator.DaveCoordinator * list Gateway.GatewayCommand) : Prop := media_fit t k (session_of x.1).

Lemma on_session_preserves {E B} t k (m : st Session.Session E B) : preserves (media_fit t k) m -> preserves (coordinator_fit t k) (Coordinator.on_session m).
Proof. intros Hm [c l] Hc. unfold Coordinator.on_session. cbn [fst snd]. specialize (Hm (session_of c) Hc). by destruct (m (session_of c)). Qed.

Lemma update_preserves {E} t k f : (forall c, media_fit t k (session_of c) -> media_fit t k (session_of (f c))) -> preserves (coordinator_fit t k) (Coordinator.update (E := E) f).
Proof. intros Hf [c l]. apply Hf. Qed.

Lemma catch_preserves {E B} t k (m : Coordinator.pumping E B) : preserves (coordinator_fit t k) m -> preserves (coordinator_fit t k) (Coordinator.catch m).
Proof. intros Hm x Hx. unfold Coordinator.catch. specialize (Hm x Hx). by destruct (m x) as [[b|e|] x']. Qed.

Lemma passthrough_fit t k now mode s : media_fit t k s -> media_fit t k (Session.set_passthrough_mode now mode s).
Proof.
  intros [H1 H2]. split; [exact H1|]. intros now' Hle Hnow. cbn. apply map_Forall_fmap. eapply map_Forall_impl; [exact (H2 now' Hle Hnow)|].
  intros u d [Hm He]. by split.
Qed.

Lemma activate_fit t k s : media_fit t k s -> media_fit t k (Session.activate_staged_sender s).2.
Proof.
  intros [H1 H2]. unfold Session.activate_staged_sender. pose proof (sender_room_activate k _ H1) as Ha. destruct (activate_pending (Session.sender s)) as [b e]. by split.
Qed.

Lemma set_passthrough_fit t k now mode c : media_fit t k (session_of c) -> media_fit t k (session_of (Coordinator.set_passthrough_mode now mode c)).
Proof. intros Hc. unfold Coordinator.set_passthrough_mode. case_bool_decide; [done|]. by apply passthrough_fit. Qed.

Lemma grace_fit t k now c : media_fit t k (session_of c) -> media_fit t k (session_of (Coordinator.allow_plaintext_receive_grace now c)).
Proof. intros Hc. by apply passthrough_fit, passthrough_fit. Qed.

Lemma executed_fit t k d c : media_fit t k (session_of c) -> media_fit t k (session_of (Coordinator.activate_sender_if_transition_executed d c)).
Proof.
  intros Hc. unfold Coordinator.activate_sender_if_transition_executed. destruct (_ && _); [|done]. pose proof (activate_fit t k _ Hc) as Ha.
  change (Coordinator.session_activate (Coordinator.session c)) with (Session.activate_staged_sender (session_of c)).
  destruct (Session.activate_staged_sender (session_of c)) as [[] s]; exact Ha.
Qed.

Lemma zero_ready_fit t k d c : media_fit t k (session_of c) -> media_fit t k (session_of (Coordinator.activate_sender_if_transition_zero_ready d c)).
Proof. intros Hc. unfold Coordinator.activate_sender_if_transition_zero_ready. case_match; [|done]. by apply activate_fit. Qed.

Lemma new_session_fit t k now key u ch : 10 * Z.of_nat k < max_frames -> media_fit t k (Session.session_new now key u ch).
Proof. intros Hk. split; [by apply (sender_room_reset k default_encryptor)|]. intros now' _ _. apply map_Forall_empty. Qed.

Lemma replace_preserves t k v : preserves (coordinator_fit t k) (Coordinator.replace_session t v).
Proof.
  unfold Coordinator.replace_session. case_match; [apply preserves_throw|]. case_match; [|apply preserves_throw].
  intros [c l] Hc. unfold Coordinator.here, gets, mbind, st_mbind. cbn. apply new_session_fit. apply Hc.
Qed.

Ltac preserves_pump :=
  repeat first
    [ progress intros | eassumption
    | apply preserves_bind | apply preserves_ret | apply preserves_throw | apply preserves_lift | apply preserves_try_err | apply catch_preserves
    | apply replace_preserves | apply on_session_preserves, media_fit_keeps, Session.set_external_sender_media
    | apply on_session_preserves, media_fit_keeps, Session.create_key_package_media
    | by apply preserves_gets | by apply preserves_modify
    | apply update_preserves; first [done | apply set_passthrough_fit | apply grace_fit | apply executed_fit | apply zero_ready_fit | intros ? ?; case_match; done]
    | match goal with |- preserves _ (match ?x with _ => _ end) => destruct x end ].

Lemma sync_preserves t k d : preserves (coordinator_fit t k) (Coordinator.sync_prepared_epoch t d).
Proof. unfold Coordinator.sync_prepared_epoch. preserves_pump. Qed.

Lemma mark_preserves t k tr v : preserves (coordinator_fit t k) (Coordinator.mark_transition_ready t tr v).
Proof. unfold Coordinator.mark_transition_ready. preserves_pump. Qed.

Lemma recover_preserves t k d : preserves (coordinator_fit t k) (Coordinator.recover_after_invalid_group t d).
Proof. unfold Coordinator.recover_after_invalid_group. preserves_pump. Qed.

Lemma messages_preserve t k d l : in_epoch t -> preserves (coordinator_fit t k) (Coordinator.process_mls_messages t d l).
Proof.
  intros Ht. pose proof (mark_preserves t k (DaveGateway.transition_id d) (DaveGateway.protocol_version d)). pose proof (recover_preserves t k d).
  induction l as [|m l IH]; cbn [Coordinator.process_mls_messages]; [apply preserves_ret|]. apply preserves_bind; [|by intros].
  unfold Coordinator.process_mls_message. preserves_pump.
  - by apply on_session_preserves, commit_preserves.
  - by apply on_session_preserves, welcome_preserves.
Qed.

Lemma proposals_preserve t k connected l : preserves (coordinator_fit t k) (Coordinator.process_new_proposals connected l).
Proof.
  induction l as [|p l IH]; cbn [Coordinator.process_new_proposals]; preserves_pump. intros x Hx.
  match goal with |- context [Coordinator.on_session ?m x] =>
    pose proof (on_session_preserves t k m (media_fit_keeps t k _ (Session.process_proposals_media _ _ _)) x Hx) as H; by destruct (Coordinator.on_session m x) as [[cw|e|] x'] end.
Qed.

Lemma pump_preserves t k d connected roster c : in_epoch t -> media_fit t k (session_of c) -> media_fit t k (session_of (Coordinator.pump t d connected roster c).2).
Proof.
  intros Ht Hc. assert (preserves (coordinator_fit t k) (Coordinator.pump_body t d connected roster)) as Hb.
  { pose proof (sync_preserves t k d). pose proof (messages_preserve t k d (DaveGateway.welcome_then_commit (DaveGateway.pending_mls d)) Ht).
    pose proof (mark_preserves t k (DaveGateway.transition_id d) (DaveGateway.protocol_version d)).
    unfold Coordinator.pump_body, Coordinator.pump_session. preserves_pump; try apply proposals_preserve.
    apply update_preserves. intros c0 Hc0. unfold Coordinator.observe_gateway_state. by case_bool_decide. }
  specialize (Hb (c, []) Hc). unfold Coordinator.pump. by destruct (Coordinator.pump_body t d connected roster (c, [])) as [[[]|e|] [c' l]].
Qed.

(** ** The interface of the driver *)
Definition coordinator_room (k : nat) (c : Coordinator.DaveCoordinator) : Prop := Session.session_inv (session_of c) /\ sender_room k (Session.sender (session_of c)).

#[export, refine] Instance coordinator_driver_laws : DriverTotal.DaveDriverLaws Pipeline.coordinator_media_laws Send.coordinator_send Driver.coordinator_pump := {|
  DriverTotal.within := in_epoch;
  DriverTotal.room := (coordinator_room : nat -> Pipeline.dave_t (DaveMedia := Pipeline.coordinator_media) -> Prop) |}.
Proof.
  - intros k k' c Hk [Hi Hr]. split; [done|by eapply sender_room_le].
  - intros now u mt frame k c [Hi Hr]. cbn. pose proof (proj1 (Session.session_step_ok (Session.CallDecrypt now u mt frame) (session_of c) Hi)) as Hs.
    cbn [Session.session_step] in Hs. unfold Session.discard in Hs. unfold Session.session_decrypt_into in *.
    destruct (Session.decryptors (session_of c) !! u) as [d|]; [|by split]. destruct (Receiver.decrypt now mt frame d) as [r d']. by split.
  - intros now k c [Hi Hr]. split; [|exact Hr].
    assert (forall mode s, Session.session_inv s -> Session.session_inv (Session.set_passthrough_mode now mode s)) as Hp
      by (intros mode s Hs; exact (proj1 (Session.session_step_ok (Session.CallPassthrough now mode) s Hs))).
    exact (Hp _ _ (Hp _ _ Hi)).
  - intros c frame k v [Hi Hr] Hf. cbn. unfold Send.coordinator_encrypt, Session.session_encrypt_into.
    pose proof (sender_room_encrypt k c frame _ Hr Hf) as He. pose proof (proj1 (Session.session_step_ok (Session.CallEncrypt c frame) (session_of v) Hi)) as Hs.
    cbn [Session.session_step] in Hs. unfold Session.discard, Session.session_encrypt_into in Hs. destruct (encrypt_into c frame (Session.sender (session_of v))) as [r e].
    cbn [snd] in Hs. destruct He as [Hr' He]. split; [by destruct r|]. split; [by split|]. intros now. done.
  - intros now g users roster k c Hw (evs & Hevs & ->) Hok [Hi Hr]. pose proof (DaveGateway.dave_run_ok evs DaveGateway.dave_default DaveGateway.dave_default_ok Hevs) as Hd.
    pose proof (@Coordinator.pump_ok Coordinator.dave_session Coordinator.dave_session_laws now _ users roster c Hi Hd) as Hp. unfold wp in Hp.
    pose proof (pump_preserves now k (DaveGateway.dave_run evs DaveGateway.dave_default) users roster c Hw (conj Hr Hok)) as Hm. cbn [Driver.dave_pump Driver.coordinator_pump].
    destruct (Coordinator.pump now _ users roster c) as [r c']. cbn [snd] in Hm. destruct Hm as [Hs Hdec].
    split; [by destruct r|]. split; [exact Hdec|]. split; [|exact Hs]. destruct r; [apply Hp|apply Hp|done].
Defined.
End Media.
End DaveTotal.
