(* ===== verification/Lifecycle.v ===== *)
(** * A connection from the handshake to its end

    The parts put together the way [connect_validated_with_observer_and_raw]
    puts them together: validated options, the handshake of Connect.v, a
    coordinator over a session of the dave crate, and the driver task that then
    runs over whatever events come.  Nothing of the program is left as a
    parameter here: what remains are the laws of the primitives (ciphers, key
    derivation, MLS, JSON) and the outside world (sockets, clock, random
    numbers, events). *)

From stdpp Require Import strings.
From S2P Require Import Prelude Effects Tuning Gcm Frame Rtp Codecs Outbound Ratchet Cryptor CipherBytes Queue Assembler PendingMedia Identity Session DaveGateway Gateway Coordinator.
From S2P Require Import ReadyFrames Pipeline OpusPacket Send Playout Driver DriverSpec DriverSamples Connect ConnectSpec ConnectSamples DriverTotal DaveTotal.
Import PendingMedia.PendingMedia Connect ConnectSpec DriverTotal.
#[local] Open Scope Z_scope.

Module Lifecycle.

(** ** What can be connected: a configuration, a request, or what validation gave *)
Record ConnectionRequest (K : Type) := { req_config : ConnectionConfig; req_options : ConnectionOptions K }.
#[global] Arguments req_config {K} _.
#[global] Arguments req_options {K} _.

Class IntoValidatedConnectionConfig (C K : Type) := into_validated_connection_config : C -> res InputError (ValidatedConnectionConfig K).

#[export] Instance config_into {K} : IntoValidatedConnectionConfig ConnectionConfig K := config_validate.
#[export] Instance request_into {K} : IntoValidatedConnectionConfig (ConnectionRequest K) K := fun r => request_validate (req_config r) (req_options r).
#[export] Instance validated_into {K} : IntoValidatedConnectionConfig (ValidatedConnectionConfig K) K := Ok.

Section Lifecycle.
Context `{P : RatchetPrimitives} `{A : Gcm.FrameAead} `{M : Session.Mls}.
Context {HP : RatchetLaws P} {HA : FrameAeadLaws A} {HB : CipherBytes.FrameAeadBytes A} {HM : Session.MlsLaws M}.
Context {R : Assembler.FrameRaw} {PC : Pipeline.PacketCapture R} {AEAD : Rtp.TransportAead} {HT : Rtp.TransportAeadLaws AEAD}.
Context {J : Gateway.GatewayJson} {LJ : Gateway.GatewayJsonLaws J} {HJ : HandshakeJson J}.
Context {IS : Deadlines.SetIter (K := Z)} {IB : Deadlines.SetIter (K := PendingMedia.DavePendingMediaBucket)}.
Context {LS : Deadlines.SetIterLaws IS} {LB : Deadlines.SetIterLaws IB}.

#[local] Existing Instance Coordinator.dave_session.
#[local] Existing Instance Pipeline.coordinator_media.
#[local] Existing Instance Pipeline.coordinator_media_laws.
#[local] Existing Instance Send.coordinator_send.
#[local] Existing Instance Driver.coordinator_pump.
#[local] Existing Instance DaveTotal.coordinator_driver_laws.

(** The coordinator of a connection: with the identity of the options, or with
    the ephemeral key that the connections of a user share ([shared], see
    IdentityCache.v).  [inl None] stands for a panic, which does not happen:
    [coordinator_for_made]. *)
Definition coordinator_for (now : Z) (shared : Z -> Identity.IdentityKeyPair) (u ch : Z) (identity : option Identity.IdentityKeyPair)
    : option Coordinator.DaveError + Pipeline.dave_t :=
  match Coordinator.coordinator_new now u ch (match identity with Some k => k | None => shared u end) with
  | Ok c => inr c
  | Err e => inl (Some e)
  | Panic => inl None
  end.

Lemma coordinator_for_made now shared u ch identity : exists v, coordinator_for now shared u ch identity = inr v.
Proof. by eexists. Qed.

Lemma coordinator_for_fit now shared u ch identity v k : coordinator_for now shared u ch identity = inr v -> 10 * Z.of_nat k < Cryptor.Sender.max_frames ->
  DaveTotal.coordinator_room k v /\ forall t, Pipeline.dave_ok t v.
Proof.
  unfold coordinator_for. cbn. intros [= <-] Hk. split; [|intros t; apply map_Forall_empty].
  split; [apply Session.session_inv_new|]. by apply (DaveTotal.sender_room_reset k Cryptor.Sender.default_encryptor).
Qed.

Lemma validated_ready_queue {K} (o : ConnectionOptions K) v : options_validate o = Ok v -> (0 < Tuning.ready_frame_buffer_max (v_tuning v))%nat.
Proof.
  unfold options_validate. destruct (_ <? 4); [done|]. intros (t & Ht & [= <-])%bind_Ok_inv. cbn. destruct (Tuning.validate (opt_tuning o)) as [t'|e|] eqn:Hv; [|done|done].
  injection Ht as ->. unfold Tuning.validate in Hv. repeat (apply bind_Ok_inv in Hv as (? & ? & Hv)). destruct (_ <? _); [done|]. injection Hv as <-. cbn.
  match goal with H : Tuning.nonzero_tuning (Tuning.cfg_ready_frame_buffer_max _) _ = Ok _ |- _ => unfold Tuning.nonzero_tuning in H; case_match; [done|injection H as <-; lia] end.
Qed.

Lemma request_options {K} q (o : ConnectionOptions K) v : request_validate q o = Ok v -> options_validate o = Ok (c_options v).
Proof. unfold request_validate. by intros (w & Hw & [= <-])%bind_Ok_inv. Qed.

(** ** From the handshake to the end *)
Context (ws_handshake : nat -> bool) (websocket : outcome (DaveError := option Coordinator.DaveError) ()) (udp_system : UdpSystem)
  (udp_reply : outcome (DaveError := option Coordinator.DaveError) bytes) (random_audio random_video : option bytes).
Context (created : Z) (shared : Z -> Identity.IdentityKeyPair).
Context (clock : nat -> Z) (telemetry rtcp_telemetry : bool) (udp : nat -> Send.UdpOutcome) (ws : nat -> bool) (retry_fuel : nat) (gone : nat -> nat -> bool).

Abbreviation connecting := (connect ws_handshake websocket udp_system udp_reply random_audio random_video (coordinator_for created shared)).

(** [connect_config_with_observer_and_raw] *)
Definition connect_config {C} `{I : IntoValidatedConnectionConfig C Identity.IdentityKeyPair} (c : C) (h : Handshake)
    : res (InputError + ConnectError (DaveError := option Coordinator.DaveError)) Connected * Handshake :=
  match into_validated_connection_config c with
  | Ok config => let '(r, h) := connecting config h in (map_err inr r, h)
  | Err e => (Err (inl e), h)
  | Panic => (Panic, h)
  end.

Lemma connect_config_Ok {C} `{I : IntoValidatedConnectionConfig C Identity.IdentityKeyPair} (x : C) h c h' : connect_config x h = (Ok c, h') ->
  exists config, into_validated_connection_config x = Ok config /\ connecting config h = (Ok c, h').
Proof.
  unfold connect_config. destruct (into_validated_connection_config x) as [config|e|]; [|done|done]. intros H. exists config. split; [done|].
  destruct (connecting config h) as [[c'|e|] h'']; [by injection H as -> ->|done|done].
Qed.

(** The driver gets the tuning of the options. *)
Lemma connected_tuning config h c h' : connecting config h = (Ok c, h') -> conn_tuning c = v_tuning (c_options config).
Proof.
  intros H. assert (wlp (connecting config) (fun c _ => conn_tuning c = v_tuning (c_options config)) (fun _ _ => True) h) as Hw; [|exact (wlp_run _ _ _ _ _ _ Hw H)].
  unfold connect. repeat (eapply wlp_seq; [apply wlp_any|]; intros ? ? _; repeat (match goal with |- context [match ?x with (_, _) => _ end] => destruct x end)). done.
Qed.

(** The driver task of an established connection. *)
Definition driving (c : Connected) (random : option bytes) (evs : list Driver.DriverEvent) (commands : list Driver.ConnectionCommand)
    (playouts : list Playout.PlayoutCommand) : res Send.Error bool * Send.ConnectionDriver :=
  Driver.run (conn_tuning c) clock telemetry rtcp_telemetry udp ws (r_ready (conn_ready c)) (conn_ready_timeout c)
    (conn_heartbeat_interval_ms c) retry_fuel gone random evs commands playouts (driver c).

End Lifecycle.

(** ** A connection with DAVE *)
Module LifecycleSamples.
Import Gcm.Sample HashRatchet.SampleKdf Session.SessionSamples Coordinator.CoordinatorSamples Rtp.SampleAead.
Import Queue.Deadlines.SampleIter PendingMedia.PendingSamples Pipeline.PipelineSamples Gateway.GatewaySamples.
#[local] Existing Instance Assembler.AssemblerSamples.sample_raw.
#[local] Existing Instance Pipeline.PipelineSamples.sample_capture.
#[local] Existing Instance ConnectSamples.sample_handshake_json.
#[local] Existing Instance CipherBytes.gcm8_bytes.
#[local] Existing Instance CipherBytes.sample_bytes.
#[local] Existing Instance Coordinator.dave_session.
#[local] Existing Instance Pipeline.coordinator_media_laws.
#[local] Existing Instance Send.coordinator_send.
#[local] Existing Instance Driver.coordinator_pump.
#[local] Existing Instance DaveTotal.coordinator_driver_laws.

Definition request : ConnectionRequest Identity.IdentityKeyPair :=
  {| req_config := {| guild_id := 1; channel_id := 77; user_id := 5; session_id := "s"; token := "t"; endpoint := "voice.example" |};
     req_options := options_default |}.

(** Ten milliseconds between two readings, until the clock stops. *)
Definition bounded_clock (n : nat) : Z := Z.min (10000000 * Z.of_nat n) (2 ^ 61).

Lemma bounded_clock_mono n : bounded_clock n <= bounded_clock (S n).
Proof. unfold bounded_clock. lia. Qed.

Lemma bounded_clock_epoch n : DaveTotal.in_epoch (bounded_clock n).
Proof. unfold bounded_clock, DaveTotal.in_epoch. lia. Qed.

Definition handshake := connect_config (fun _ => true) (Done (inr ())) ConnectSamples.sample_udp (Done (inr ConnectSamples.reply)) (Some [0; 0; 0; 1]) None
  0 (fun _ => sample_identity) request
  {| incoming := ConnectSamples.messages Rtp.AeadAes256GcmRtpSize; outgoing := []; stages := [] |}.

Abbreviation drive c := (driving bounded_clock true true DriverSamples.open_socket DriverSamples.open_websocket 10 DriverSamples.sample_gone
  c (Some (replicate 8 1)) DriverSamples.sample_evs [Driver.CmdSendMediaFrame Opus [1] 20000000 6; Driver.CmdRecvUdpPacket ReadyFrames.RawUdp 1500 12] [Playout.CmdStart 7]).

(** The playout and the frame wait for DAVE, which does not become ready before
    the connection is closed: they are answered last. *)
Example drive_answers : match handshake with (Ok c, _) => (drive c).1 ≠ Panic /\ (Send.answers (drive c).2).*1 = [1; 2; 5; 6; 7; 3; 4]%nat | _ => False end.
Proof. vm_compute. done. Qed.

Lemma sample_evs_fit : Forall event_fit DriverSamples.sample_evs.
Proof.
  assert (forall b, bool_decide (Forall (fun x => 0 <= x < 256) b) = true -> (length b <= 2000)%nat -> frame_fit b) as Hb.
  { intros b Hb Hl. split; [by apply bool_decide_eq_true in Hb|lia]. }
  unfold DriverSamples.sample_evs. repeat (apply Forall_cons; split); try done.
  - exists [8; 1; 2]. split; [done|]. by apply Hb; vm_compute; [|lia].
  - apply Hb; [vm_compute; reflexivity|vm_compute; lia].
Qed.

Lemma handshake_succeeds : match handshake with (Ok _, _) => True | _ => False end.
Proof. vm_compute. exact I. Qed.

End LifecycleSamples.
End Lifecycle.
